(* ===== verification/_CoqProject ===== *)
-Q . S2P
Prelude.v
Bitmap.v
BitmapSearch.v
BitmapProps.v
Time.v
TimeProps.v
LargeInt.v
Random.v
ListEntry.v
RangeList.v
RangeListSpec.v
RangeListProps.v
Memory.v
Nls.v
NlsProps.v
Unicode.v
UnicodeConvert.v
UnicodeNumber.v
UnicodeProps.v
UnicodeNumberProps.v
UnicodeClaims.v
GuidClaims.v
UnicodeExamples.v
UnicodeGuess.v
Crc32.v
Compress.v
CompressProps.v
CompressStream.v
CompressSafety.v
CompressClaims.v
Sid.v
SidProps.v
Acl.v
AclProps.v
AclClaims.v
Sd.v
SdProps.v
SdAbsolute.v
SdClaims.v
AccessCheck.v
AccessCheckProps.v
AccessCheckClaims.v
Tree.v
Avl.v
TableOrder.v
AvlProps.v
AvlTable.v
AvlClaims.v
Splay.v
SplayProps.v
GenericTable.v
GenericTableProps.v
GenericTableClaims.v
Rundown.v
RundownProps.v
RundownClaims.v
NameExpression.v
NameProps.v
NameArrays.v
NameClaims.v
NameStrings.v
NameStringProps.v
NameStringClaims.v
Ctype.v
Network.v
NetworkProps.v
