(* ===== verification/Prelude.v ===== *)
(** * A verification of parts of the run time library and the kernel

    The repository is a Windows NT compatible operating system in C: a kernel
    ([src/ntoskrnl]), drivers, a Win32 subsystem, user mode libraries and programs, and the
    static libraries of [src/sdk/lib].  Of the latter the run time library
    [src/sdk/lib/rtl] is linked into the boot loader, the kernel and ntdll: data structures,
    conversions and the security structures that everything else is built from.  This
    development models such components as Rocq functions and proves what they do.

    ** Conventions

    The code is the 32-bit x86 build: [ULONG], [LONG], pointers and [ULONG_PTR] have 32
    bits, [ULONGLONG] 64, [USHORT]/[CSHORT] 16.  An integer is a [Z] with its wrap-around
    written out ([u8] ... [u64], [s16] ... [s64]).  A read or write outside of the memory an
    operation was given is [None] ("faults"), so a theorem that an operation returns
    [Some] also says that its accesses are in bounds.  Loops are structural where the C
    loop counts, and have fuel otherwise; running out of fuel is [None] too, so the same
    theorems give termination.  The fuel is a bound computed from the input (the number of
    bits of a bitmap, the number of allocated records, the number of bytes of a buffer) and
    is shown to be enough (for the walks of a tree it is [path_fuel], the number of records
    of the store and some).  Debug output, [PAGED_CODE] checks and parameter annotations are
    left out.  Where an assertion is modelled, a parameter [DBG] says whether the build is the
    checked one, in which a failed assertion is a fault ([checked], [assert_]); the tables and
    trees leave the assertions out.

    ** Files

    - [Prelude]: machine integers, arrays with faulting accesses, bit scans, status codes,
      [ROUND_DOWN]/[ROUND_UP] of rtlp.h, bit lemmas and tactics ([zcases], [dlia]).
    - [Bitmap], [BitmapSearch], [BitmapProps]: bitmap.c (and [RtlFillMemoryUlong] of
      mem.c).  A bitmap is the record [RTL_BITMAP] of the size and the list of ULONGs;
      [wf_bitmap] is the invariant.  [Bitmap] has the functions that read and change
      ranges, [BitmapSearch] the searches, [BitmapProps] the theorems: ranges are changed
      exactly, the population count is right, searches terminate and are exact or sound,
      allocation sets a free range, runs are enumerated in order; and what the strict
      comparison, the off-by-one length and the comparison of an entry with itself in the
      code lead to.
    - [ListEntry]: the LIST_ENTRY and SINGLE_LIST_ENTRY inline functions (rtlfuncs.h) on a
      store of links, with the representation predicate [dlist] and the lemmas that the
      clients use.
    - [RangeList], [RangeListSpec], [RangeListProps]: rangelist.c.  The state is the record
      [heap] (links, ranges, list headers), operations are in the fault and state monad
      [M], memory comes from the interface [Allocator].  [RangeListSpec] relates every
      operation to lists of ranges ([range_list]), [RangeListProps] to sets of addresses
      ([covers], [in_order], [fits]): order is kept, inversion is the complement, merging
      the union, finding the highest fit, iterating complete; and a use after free.
    - [Time], [TimeProps]: time.c.  [calendar_day] relates dates to the day numbers of the
      code, and [date_of] is the Gregorian calendar by itself, from one day to the next;
      conversions are shown to follow it and to be inverse to each other, and the time zone
      cutover to be the right weekday.  The kernel's answer to the query of the
      time zone bias is an argument.
    - [LargeInt]: largeint.c; the multiplication by a magic number is division.
    - [Random]: random.c and encode.c; the vectors of random numbers stay in range, decoding
      undoes encoding.
    - [Memory]: byte memory for packed structures, little-endian fields, the memory
      primitives; [has] and [same_except] state contents and frames.  Memory comes from the
      interface [ByteAllocator].
    - [Nls], [NlsProps]: nls.c.  The tables of the code pages and of the case are the record
      [NLS]; tables in files are lists of words.  Conversion there and back is the identity
      on the strings that [ansi] and [oem] relate to characters.  A [code_page], single-byte or
      double-byte, has a file ([page_file]); after the files of an ANSI and of an OEM page
      were loaded, the conversions are those of the two pages ([page_converts]).
    - [Unicode], [UnicodeConvert], [UnicodeNumber], [UnicodeGuess]: unicode.c on byte memory.
      [UnicodeProps] has the order of strings, prefixes, copying, appending and duplicating,
      where [holds] says which characters a string has; [UnicodeNumberProps], [UnicodeClaims]
      and [GuidClaims] the round trips of numbers and GUIDs; [UnicodeExamples] the theorems at
      concrete strings.
    - [Compress]: compress.c, the LZNT1 decoder [lznt1_decompress] with a definition for
      each of its loops, the compressor that stores, and the exported functions that are
      implemented.  [CompressProps] and [CompressStream] define the format (tokens, groups,
      chunks, streams) and its reference decoding, in which a short chunk before the last one
      is filled up with zeros, and show that the loops compute it;
      [CompressSafety] bounds what the decoder touches on any input; [CompressClaims] has
      the theorems on the exported functions.  Pointers are integers that do not wrap.
    - [Ctype], [Network], [NetworkProps]: the IPv4 part of network.c with the character classes
      of the C library and the inline functions of ntstrsafe.h and intsafe.h that it uses; an
      address that was printed is parsed back.
    - [Crc32]: crc32.c; the table computes the division by the polynomial.
    - [Sid], [SidProps]: sid.c.  [sid_at] says that a SID value is stored at an address;
      comparison, copy, construction and the string form.
    - [Acl], [AclProps], [AclClaims]: acl.c.  [acl_at] says that an ACL, a header, a list
      of ACEs and free space, is stored at an address; creating, adding, inserting,
      deleting, looking up and querying are operations on that list and keep the ACL valid;
      and the checks that the code lacks.
    - [Sd], [SdProps], [SdAbsolute], [SdClaims]: sd.c and the readers of se.h.  A descriptor
      has four members; making it self-relative and absolute again keeps them, and the check
      of self-relative descriptors accepts only what lies inside of the buffer.
    - [AccessCheck], [AccessCheckProps], [AccessCheckClaims]: accesschk.c, and the functions of
      access.c and priv.c that it needs.  The rights of a request for the maximum access are
      exactly those that the first applicable ACE allows, the owner has and privileges give;
      and what the code grants without looking.
    - [Tree]: the link macros of rtlfuncs.h that AVL and splay trees share, on a store of
      records; binary trees with a zipper ([ctx], [plug]) and the predicate [owns] that
      relates them to the store.
    - [Avl], [AvlProps]: avlsupp.c and rtlavl.h, and the table functions of avltable.c;
      inserting and unlinking a record keep balance factors, parents and depth.
      [TableOrder] has what both kinds of table share: the laws of a client's compare
      routine (class [CompareOrder]), sorted collections and the search.  [AvlTable] lifts
      this to tables with user data, [AvlClaims] has the contract of a table as an abstract
      ordered set with a cursor, the simulation, the invariant of reachable states, the
      logarithmic bound of a search and the completeness of an enumeration.
    - [Splay], [SplayProps]: splaytree.c; splaying moves a record to the root and keeps the
      order, deleting removes exactly one record.  [GenericTable], [GenericTableProps],
      [GenericTableClaims]: generictable.c, splay links together with a list in insertion
      order; the refinement of an abstract ordered set, and the wrong direction of the
      indexed access.
    - [Rundown], [RundownProps], [RundownClaims]: rundown.c of the executive and its inline
      versions in ex.h.  Threads are records with a place in the code; [thread_step] is one
      access to shared memory, [call] the start of an operation, [rundown_step] the
      interleaving of threads that keep to the protocol [agreed].  [inv] is the invariant with its three phases; no assertion fails, no
      dead wait block is touched, a wait that has returned excludes references, and a
      blocked wait ends (the bound is the sum of [weight] over the threads).
    - [NameExpression], [NameStrings]: name.c of the file system run time library.
      [NameProps] defines the language of the wild cards ([Language], and [Matches] with what
      the code does for DOS_STAR) and shows that sets of positions decide it, [NameArrays] that the arrays of the code hold these sets, [NameClaims] what
      happens when they do not fit, [NameStringProps] and [NameStringClaims] have the theorems
      on strings in memory: the search is exact, names are compared, paths are dissected.

    In each component the definitions follow the C functions by name and order of effects;
    a loop that has no name in C is a definition of its own next to its function.

    ** Not modelled

    The 64-bit build and alignment faults; concurrency except for rundown protection, where
    memory is sequentially consistent.  Of the run time library: heaps, paths, registry,
    images and threads, which depend on system services and on the layout of a process.  Of
    the kernel: the executive's handle tables and push locks, the dispatcher, the memory, object and
    I/O managers, whose state is shared with interrupts, other processors and devices.  Drivers,
    the Win32 subsystem, user mode and the boot loader are device, service and user
    interface code outside of the scope. *)

From Stdlib Require Import ZArith Lia Bool.
From stdpp Require Import base option list numbers.
Open Scope Z_scope.

(** ** Machine integers *)

Definition u8 (z : Z) : Z := z mod 2 ^ 8.
Definition u16 (z : Z) : Z := z mod 2 ^ 16.
Definition u32 (z : Z) : Z := z mod 2 ^ 32.
Definition u64 (z : Z) : Z := z mod 2 ^ 64.

(** Two's complement reading of the low [w] bits. *)
Definition swrap (w z : Z) : Z := (z + 2 ^ (w - 1)) mod 2 ^ w - 2 ^ (w - 1).
Definition s16 (z : Z) : Z := swrap 16 z.
Definition s32 (z : Z) : Z := swrap 32 z.
Definition s64 (z : Z) : Z := swrap 64 z.

Arguments u8 : simpl never.
Arguments u16 : simpl never.
Arguments u32 : simpl never.
Arguments u64 : simpl never.
Arguments swrap : simpl never.

(** Bitwise complement of a [w]-bit unsigned value. *)
Definition not32 (z : Z) : Z := u32 (Z.lnot z).
Arguments not32 : simpl never.

(** [ROUND_DOWN] and [ROUND_UP] of rtlp.h, with a 32-bit [ULONG_PTR]. *)
Definition ROUND_DOWN (n align : Z) : Z := Z.land (u32 n) (not32 (align - 1)).
Definition ROUND_UP (n align : Z) : Z := ROUND_DOWN (u32 (u32 n + align - 1)) align.

(** A WCHAR. *)
Definition is_wchar (c : Z) : Prop := 0 <= c < 2 ^ 16.

(** ** Arrays whose accesses fault out of range *)

Definition rd {A} (buf : list A) (i : Z) : option A :=
  if 0 <=? i then buf !! Z.to_nat i else None.

Definition wr {A} (buf : list A) (i : Z) (v : A) : option (list A) :=
  if (0 <=? i) && (i <? Z.of_nat (length buf))
  then Some (<[Z.to_nat i := v]> buf) else None.

(** ** Bit scanning (the compiler intrinsics BitScanForward / BitScanReverse) *)

Fixpoint pos_ctz (p : positive) : Z :=
  match p with
  | xO q => Z.succ (pos_ctz q)
  | _ => 0
  end.

Definition BitScanForward (Mask : Z) : option Z :=
  match Mask with
  | Zpos p => Some (pos_ctz p)
  | _ => None
  end.

Definition BitScanReverse (Mask : Z) : option Z :=
  match Mask with
  | Zpos p => Some (Z.log2 (Zpos p))
  | _ => None
  end.

(** ** NTSTATUS *)

Abbreviation NTSTATUS := Z (only parsing).
Definition STATUS_SUCCESS : NTSTATUS := 0.
Definition STATUS_BUFFER_OVERFLOW : NTSTATUS := 0x80000005.
Definition STATUS_NO_MORE_ENTRIES : NTSTATUS := 0x8000001A.
Definition STATUS_UNSUCCESSFUL : NTSTATUS := 0xC0000001.
Definition STATUS_INVALID_INFO_CLASS : NTSTATUS := 0xC0000003.
Definition STATUS_ACCESS_VIOLATION : NTSTATUS := 0xC0000005.
Definition STATUS_INVALID_PARAMETER : NTSTATUS := 0xC000000D.
Definition STATUS_INTEGER_OVERFLOW : NTSTATUS := 0xC0000095.
Definition STATUS_NO_MEMORY : NTSTATUS := 0xC0000017.
Definition STATUS_ACCESS_DENIED : NTSTATUS := 0xC0000022.
Definition STATUS_BUFFER_TOO_SMALL : NTSTATUS := 0xC0000023.
Definition STATUS_UNKNOWN_REVISION : NTSTATUS := 0xC0000058.
Definition STATUS_REVISION_MISMATCH : NTSTATUS := 0xC0000059.
Definition STATUS_NO_IMPERSONATION_TOKEN : NTSTATUS := 0xC000005C.
Definition STATUS_PRIVILEGE_NOT_HELD : NTSTATUS := 0xC0000061.
Definition STATUS_INVALID_ACL : NTSTATUS := 0xC0000077.
Definition STATUS_INVALID_SID : NTSTATUS := 0xC0000078.
Definition STATUS_INVALID_SECURITY_DESCR : NTSTATUS := 0xC0000079.
Definition STATUS_ALLOTTED_SPACE_EXCEEDED : NTSTATUS := 0xC0000099.
Definition STATUS_INSUFFICIENT_RESOURCES : NTSTATUS := 0xC000009A.
Definition STATUS_BAD_IMPERSONATION_LEVEL : NTSTATUS := 0xC00000A5.
Definition STATUS_GENERIC_NOT_MAPPED : NTSTATUS := 0xC00000E6.
Definition STATUS_BAD_DESCRIPTOR_FORMAT : NTSTATUS := 0xC00000E7.
Definition STATUS_INVALID_PARAMETER_1 : NTSTATUS := 0xC00000EF.
Definition STATUS_INVALID_PARAMETER_2 : NTSTATUS := 0xC00000F0.
Definition STATUS_NOT_SUPPORTED : NTSTATUS := 0xC00000BB.
Definition STATUS_INVALID_COMPUTER_NAME : NTSTATUS := 0xC0000122.
Definition STATUS_UNMAPPABLE_CHARACTER : NTSTATUS := 0xC0000162.
Definition STATUS_NOT_FOUND : NTSTATUS := 0xC0000225.
Definition STATUS_BAD_COMPRESSION_BUFFER : NTSTATUS := 0xC0000242.
Definition STATUS_UNSUPPORTED_COMPRESSION : NTSTATUS := 0xC000025F.
Definition STATUS_NAME_TOO_LONG : NTSTATUS := 0xC0000106.
Definition STATUS_RANGE_NOT_FOUND : NTSTATUS := 0xC000028C.

(** [ASSERT]: in the checked build ([DBG]) a condition that does not hold is a fault. *)
Definition checked (DBG ok : bool) : option unit := if DBG && negb ok then None else Some tt.

(** [NT_SUCCESS(Status)] is [(NTSTATUS)(Status) >= 0] on a 32-bit signed value. *)
Definition NT_SUCCESS (Status : NTSTATUS) : bool := 0 <=? s32 Status.

(** ** Lemmas on machine integers *)

Create HintDb nt discriminated.

Lemma u8_range z : 0 <= u8 z < 2 ^ 8.
Proof. apply Z.mod_pos_bound. lia. Qed.

Lemma u16_range z : 0 <= u16 z < 2 ^ 16.
Proof. apply Z.mod_pos_bound. lia. Qed.

Lemma u32_range z : 0 <= u32 z < 2 ^ 32.
Proof. apply Z.mod_pos_bound. lia. Qed.

Lemma u64_range z : 0 <= u64 z < 2 ^ 64.
Proof. apply Z.mod_pos_bound. lia. Qed.

Lemma u8_small z : 0 <= z < 2 ^ 8 -> u8 z = z.
Proof. apply Z.mod_small. Qed.

Lemma u16_small z : 0 <= z < 2 ^ 16 -> u16 z = z.
Proof. apply Z.mod_small. Qed.

Lemma u32_small z : 0 <= z < 2 ^ 32 -> u32 z = z.
Proof. apply Z.mod_small. Qed.

Lemma u32_add_l a b : u32 (u32 a + b) = u32 (a + b).
Proof. unfold u32. apply Zplus_mod_idemp_l. Qed.

Lemma u32_add_r a b : u32 (a + u32 b) = u32 (a + b).
Proof. unfold u32. apply Zplus_mod_idemp_r. Qed.

Lemma u32_sub_r a b : u32 (a - u32 b) = u32 (a - b).
Proof. unfold u32. apply Zminus_mod_idemp_r. Qed.

Lemma u64_small z : 0 <= z < 2 ^ 64 -> u64 z = z.
Proof. apply Z.mod_small. Qed.

Lemma swrap_small w z : 0 < w -> - 2 ^ (w - 1) <= z < 2 ^ (w - 1) -> swrap w z = z.
Proof.
  intros Hw Hz. unfold swrap.
  assert (2 ^ w = 2 * 2 ^ (w - 1)) as E.
  { rewrite <- Z.pow_succ_r by lia. f_equal. lia. }
  rewrite Z.mod_small; lia.
Qed.

Lemma s16_small z : - 2 ^ 15 <= z < 2 ^ 15 -> s16 z = z.
Proof. intros. apply swrap_small; lia. Qed.

Lemma s32_small z : - 2 ^ 31 <= z < 2 ^ 31 -> s32 z = z.
Proof. intros. apply swrap_small; lia. Qed.

Lemma s64_small z : - 2 ^ 63 <= z < 2 ^ 63 -> s64 z = z.
Proof. intros. apply swrap_small; lia. Qed.

#[export] Hint Resolve u8_range u16_range u32_range u64_range : nt.

(** [norm_int] removes the wrap-arounds whose argument is in range. *)
Ltac norm_int :=
  repeat first
    [ rewrite u32_small by lia | rewrite u64_small by lia
    | rewrite u16_small by lia | rewrite u8_small by lia
    | rewrite s16_small by lia | rewrite s32_small by lia
    | rewrite s64_small by lia ].

(** ** Faulting arrays *)

Section Arrays.
Context {A : Type}.
Implicit Types (buf : list A) (i j : Z).

Lemma rd_Some_inv buf i v :
  rd buf i = Some v -> 0 <= i < Z.of_nat (length buf) /\ buf !! Z.to_nat i = Some v.
Proof.
  unfold rd. destruct (Z.leb_spec 0 i) as [Hi|Hi]; [|done].
  intros Hl. split; [|done]. apply lookup_lt_Some in Hl. lia.
Qed.

Lemma rd_in_range buf i : 0 <= i < Z.of_nat (length buf) -> is_Some (rd buf i).
Proof.
  intros Hi. unfold rd. destruct (Z.leb_spec 0 i); [|lia].
  apply lookup_lt_is_Some. lia.
Qed.

Lemma rd_total `{!Inhabited A} buf i :
  0 <= i < Z.of_nat (length buf) -> rd buf i = Some (buf !!! Z.to_nat i).
Proof.
  intros Hi. unfold rd. destruct (Z.leb_spec 0 i); [|lia].
  apply list_lookup_lookup_total_lt. lia.
Qed.

Lemma wr_in_range buf i v :
  0 <= i < Z.of_nat (length buf) -> wr buf i v = Some (<[Z.to_nat i := v]> buf).
Proof.
  intros Hi. unfold wr. destruct (Z.leb_spec 0 i), (Z.ltb_spec i (Z.of_nat (length buf)));
    try lia. done.
Qed.

Lemma wr_Some_inv buf i v buf' :
  wr buf i v = Some buf' ->
  0 <= i < Z.of_nat (length buf) /\ buf' = <[Z.to_nat i := v]> buf.
Proof.
  unfold wr. destruct (Z.leb_spec 0 i), (Z.ltb_spec i (Z.of_nat (length buf)));
    simpl; intros; simplify_eq; try done; lia.
Qed.

Lemma wr_length buf i v buf' : wr buf i v = Some buf' -> length buf' = length buf.
Proof. intros [_ ->]%wr_Some_inv. apply length_insert. Qed.

End Arrays.

Lemma rd_at {A} (a : list A) x b i : i = Z.of_nat (length a) -> rd (a ++ x :: b) i = Some x.
Proof.
  intros ->. unfold rd. rewrite (proj2 (Z.leb_le _ _)), Nat2Z.id by lia. by apply list_lookup_middle.
Qed.

Lemma wr_at {A} (a : list A) x y b i : i = Z.of_nat (length a) -> wr (a ++ x :: b) i y = Some (a ++ y :: b).
Proof.
  intros ->. rewrite wr_in_range by (rewrite length_app; simpl; lia). rewrite Nat2Z.id. f_equal.
  by rewrite insert_app_r_alt, Nat.sub_diag by lia.
Qed.

(** ** Bits *)

Lemma testbit_above w z i : 0 <= w -> 0 <= z < 2 ^ w -> w <= i -> Z.testbit z i = false.
Proof.
  intros Hw Hz Hi. destruct (Z.eq_dec z 0) as [->|Hn]; [apply Z.bits_0|].
  apply Z.bits_above_log2; [lia|]. enough (Z.log2 z < w) by lia.
  apply Z.log2_lt_pow2; lia.
Qed.

Lemma testbit_mod_pow2 w z i :
  0 <= w -> 0 <= i -> Z.testbit (z mod 2 ^ w) i = (i <? w) && Z.testbit z i.
Proof.
  intros Hw Hi. destruct (Z.ltb_spec i w).
  - by rewrite Z.mod_pow2_bits_low.
  - by rewrite Z.mod_pow2_bits_high.
Qed.

Lemma testbit_u32 z i : 0 <= i -> Z.testbit (u32 z) i = (i <? 32) && Z.testbit z i.
Proof. apply testbit_mod_pow2; lia. Qed.

Lemma testbit_u8 z i : 0 <= i -> Z.testbit (u8 z) i = (i <? 8) && Z.testbit z i.
Proof. apply testbit_mod_pow2; lia. Qed.

Lemma testbit_not32 z i : 0 <= i -> Z.testbit (not32 z) i = (i <? 32) && negb (Z.testbit z i).
Proof. intros. unfold not32. rewrite testbit_u32, Z.lnot_spec by lia. done. Qed.

Lemma not32_range z : 0 <= not32 z < 2 ^ 32.
Proof. apply u32_range. Qed.

#[export] Hint Resolve not32_range : nt.

Lemma lor_shiftl_add a b k :
  0 <= k -> 0 <= b < 2 ^ k -> Z.lor (Z.shiftl a k) b = a * 2 ^ k + b.
Proof.
  intros Hk Hb. apply Z.bits_inj'. intros n Hn. rewrite Z.lor_spec, Z.shiftl_spec by done.
  destruct (Z.lt_ge_cases n k) as [H|H].
  - rewrite Z.testbit_neg_r by lia. simpl. rewrite <- (Z.mod_pow2_bits_low (a * 2 ^ k + b) k) by lia.
    by rewrite Z.add_comm, Z.mod_add, Z.mod_small by lia.
  - rewrite (testbit_above k b) by lia. rewrite orb_false_r.
    replace n with (n - k + k) at 2 by lia. rewrite <- Z.div_pow2_bits by lia.
    rewrite Z.div_add_l, (Z.div_small b) by lia. by rewrite Z.add_0_r.
Qed.

(** A value whose bits vanish from [w] on is a [w]-bit value. *)
Lemma bits_range w z :
  0 <= w -> 0 <= z -> (forall i, w <= i -> Z.testbit z i = false) -> 0 <= z < 2 ^ w.
Proof.
  intros Hw Hz Hb. split; [done|].
  destruct (Z.eq_dec z 0) as [->|Hn]; [apply Z.pow_pos_nonneg; lia|].
  apply Z.log2_lt_pow2; [lia|].
  destruct (Z.lt_ge_cases (Z.log2 z) w) as [|Hge]; [done|].
  pose proof (Hb _ Hge) as Hf. rewrite Z.bit_log2 in Hf by lia. done.
Qed.

Lemma land_range w a b : 0 <= w -> 0 <= a < 2 ^ w -> 0 <= b -> 0 <= Z.land a b < 2 ^ w.
Proof.
  intros Hw Ha Hb. apply bits_range; [done|apply Z.land_nonneg; lia|].
  intros i Hi. by rewrite Z.land_spec, (testbit_above w a) by lia.
Qed.

Lemma lor_range w a b : 0 <= w -> 0 <= a < 2 ^ w -> 0 <= b < 2 ^ w -> 0 <= Z.lor a b < 2 ^ w.
Proof.
  intros Hw Ha Hb. apply bits_range; [done|apply Z.lor_nonneg; lia|].
  intros i Hi. by rewrite Z.lor_spec, (testbit_above w a), (testbit_above w b) by lia.
Qed.

Lemma zero_iff_bits z : 0 <= z -> z = 0 <-> forall i, 0 <= i -> Z.testbit z i = false.
Proof.
  intros Hz. split; [intros ->; intros; apply Z.bits_0|].
  intros Hb. apply Z.bits_inj'. intros i Hi. by rewrite Hb, Z.bits_0.
Qed.

Lemma pos_ctz_spec p :
  0 <= pos_ctz p /\ Z.testbit (Zpos p) (pos_ctz p) = true /\
  forall j, 0 <= j < pos_ctz p -> Z.testbit (Zpos p) j = false.
Proof.
  induction p as [p IH|p IH|]; simpl pos_ctz.
  - split_and!; [lia|done|intros; lia].
  - destruct IH as (H0 & H1 & H2).
    change (Zpos (xO p)) with (2 * Zpos p). split_and!.
    + lia.
    + by rewrite Z.double_bits_succ.
    + intros j Hj. destruct (Z.eq_dec j 0) as [->|]; [by rewrite Z.testbit_even_0|].
      replace j with (Z.succ (Z.pred j)) by lia. rewrite Z.double_bits_succ.
      apply H2. lia.
  - split_and!; [lia|done|intros; lia].
Qed.

Lemma BitScanForward_spec m :
  0 < m -> exists p, BitScanForward m = Some p /\ 0 <= p /\ Z.testbit m p = true /\
  forall j, 0 <= j < p -> Z.testbit m j = false.
Proof.
  intros Hm. destruct m as [|p|p]; try lia.
  exists (pos_ctz p). split; [done|]. apply pos_ctz_spec.
Qed.

Lemma BitScanReverse_spec m :
  0 < m -> exists p, BitScanReverse m = Some p /\ 0 <= p /\ Z.testbit m p = true /\
  forall j, p < j -> Z.testbit m j = false.
Proof.
  intros Hm. destruct m as [|p|p]; try lia.
  exists (Z.log2 (Zpos p)). split_and!; [done|apply Z.log2_nonneg|by apply Z.bit_log2|].
  intros j Hj. apply Z.bits_above_log2; lia.
Qed.

Lemma testbit_true_lt w z i :
  0 <= w -> 0 <= z < 2 ^ w -> Z.testbit z i = true -> i < w.
Proof.
  intros Hw Hz Hb. destruct (Z.lt_ge_cases i w); [done|].
  rewrite (testbit_above w z i) in Hb by lia. done.
Qed.

(** [bits_simpl] pushes [Z.testbit] through the machine operators. *)
Ltac bits_simpl :=
  repeat first
    [ rewrite testbit_u32 by lia | rewrite testbit_u8 by lia | rewrite testbit_not32 by lia
    | rewrite Z.land_spec | rewrite Z.lor_spec | rewrite Z.lnot_spec by lia
    | rewrite Z.shiftl_spec by lia | rewrite Z.shiftr_spec by lia
    | rewrite Z.bits_0 | rewrite Z.bits_m1 by lia
    | rewrite Z.testbit_neg_r by lia ].

(** Case analysis on the integer comparisons of the goal. *)
Ltac zcases :=
  repeat match goal with
  | |- context [?a <? ?b] => destruct (Z.ltb_spec a b); try lia
  | |- context [?a <=? ?b] => destruct (Z.leb_spec a b); try lia
  | |- context [?a =? ?b] => destruct (Z.eqb_spec a b); try lia
  end.

(** [lia] with the quotients and remainders of the context made linear. *)
Ltac dlia := Z.div_mod_to_equations; lia.

Lemma ROUND_DOWN_spec x k :
  0 <= x < 2 ^ 32 -> 0 <= k < 32 -> ROUND_DOWN x (2 ^ k) = 2 ^ k * (x / 2 ^ k).
Proof.
  intros Hx Hk. unfold ROUND_DOWN. rewrite u32_small by done.
  rewrite (Z.mul_comm (2 ^ k)), <- Z.shiftl_mul_pow2, <- Z.shiftr_div_pow2 by lia.
  apply Z.bits_inj'. intros n Hn. rewrite Z.land_spec, testbit_not32, Z.shiftl_spec by lia.
  replace (2 ^ k - 1) with (Z.ones k) by (rewrite Z.ones_equiv; lia).
  rewrite Z.testbit_ones by lia. destruct (Z.ltb_spec n k).
  - rewrite (Z.testbit_neg_r _ (n - k)) by lia. zcases; simpl; try lia; by rewrite ?andb_false_r.
  - rewrite Z.shiftr_spec by lia. replace (n - k + k) with n by lia.
    destruct (Z.ltb_spec n 32).
    + zcases; simpl; try lia; by rewrite ?andb_true_r.
    + rewrite (testbit_above 32 x) by lia. done.
Qed.
