(* ===== verification/Bitmap.v ===== *)
(** * The run-time library's bitmaps (sdk/lib/rtl/bitmap.c)

    The 32-bit build of the file: [BITMAP_INDEX] and [BITMAP_BUFFER] are [ULONG],
    [_BITCOUNT] is 32 and [MAXINDEX] is 0xFFFFFFFF.  A bitmap is its size in bits
    and the array of [ULONG]s behind [Buffer]; a pointer into the array is its
    index, and a read or write outside the array makes the operation return
    [None].  This file holds the operations, the bit-level reading of a bitmap and
    the theorems on single bits, bit ranges, run lengths and population count. *)

From Stdlib Require Import ZArith Lia Bool.
From stdpp Require Import base option list numbers.
From S2P Require Import Prelude.
Open Scope Z_scope.

Definition MAXINDEX : Z := 0xFFFFFFFF.

Record RTL_BITMAP := mkBitmap { SizeOfBitMap : Z; Buffer : list Z }.

Definition BitCountTable : list Z :=
  [ 0; 1; 1; 2; 1; 2; 2; 3; 1; 2; 2; 3; 2; 3; 3; 4;
    1; 2; 2; 3; 2; 3; 3; 4; 2; 3; 3; 4; 3; 4; 4; 5;
    1; 2; 2; 3; 2; 3; 3; 4; 2; 3; 3; 4; 3; 4; 4; 5;
    2; 3; 3; 4; 3; 4; 4; 5; 3; 4; 4; 5; 4; 5; 5; 6;
    1; 2; 2; 3; 2; 3; 3; 4; 2; 3; 3; 4; 3; 4; 4; 5;
    2; 3; 3; 4; 3; 4; 4; 5; 3; 4; 4; 5; 4; 5; 5; 6;
    2; 3; 3; 4; 3; 4; 4; 5; 3; 4; 4; 5; 4; 5; 5; 6;
    3; 4; 4; 5; 4; 5; 5; 6; 4; 5; 5; 6; 5; 6; 6; 7;
    1; 2; 2; 3; 2; 3; 3; 4; 2; 3; 3; 4; 3; 4; 4; 5;
    2; 3; 3; 4; 3; 4; 4; 5; 3; 4; 4; 5; 4; 5; 5; 6;
    2; 3; 3; 4; 3; 4; 4; 5; 3; 4; 4; 5; 4; 5; 5; 6;
    3; 4; 4; 5; 4; 5; 5; 6; 4; 5; 5; 6; 5; 6; 6; 7;
    2; 3; 3; 4; 3; 4; 4; 5; 3; 4; 4; 5; 4; 5; 5; 6;
    3; 4; 4; 5; 4; 5; 5; 6; 4; 5; 5; 6; 5; 6; 6; 7;
    3; 4; 4; 5; 4; 5; 5; 6; 4; 5; 5; 6; 5; 6; 6; 7;
    4; 5; 5; 6; 5; 6; 6; 7; 5; 6; 6; 7; 6; 7; 7; 8 ].

(** ** Run lengths *)

(** The loop [while (Value == 0 && Buffer < MaxBuffer) Value = f( *Buffer++ )]
    shared by the two run-length functions ([f] is the identity for clear runs and
    the complement for set runs); returns [Value] and the final [Buffer]. *)
Fixpoint SkipUlongs (f : Z -> Z) (fuel : nat) (buf : list Z) (Value Pos MaxPos : Z)
    : option (Z * Z) :=
  if (Value =? 0) && (Pos <? MaxPos) then
    match fuel with
    | O => None
    | S fuel' => w ← rd buf Pos; SkipUlongs f fuel' buf (f w) (Pos + 1) MaxPos
    end
  else Some (Value, Pos).

Definition RtlpGetLengthOfRunClear (bm : RTL_BITMAP) (StartingIndex MaxLength : Z)
    : option Z :=
  if SizeOfBitMap bm <=? StartingIndex then Some 0 else
  let Pos := StartingIndex / 32 in
  let BitPos := Z.land StartingIndex 31 in
  let MaxLength := Z.min MaxLength (u32 (SizeOfBitMap bm - StartingIndex)) in
  let MaxPos := Pos + u32 (BitPos + MaxLength + 32 - 1) / 32 in
  w ← rd (Buffer bm) Pos;
  let Value := u32 (Z.shiftl (Z.shiftr w BitPos) BitPos) in
  '(Value, Pos) ← SkipUlongs (fun w => w) (length (Buffer bm)) (Buffer bm)
                    Value (Pos + 1) MaxPos;
  if Value =? 0 then Some MaxLength else
  BitPos ← BitScanForward Value;
  let Length := u32 (Pos * 32 - StartingIndex) in
  let Length := u32 (Length + (BitPos - 32)) in
  Some (if u32 (SizeOfBitMap bm - StartingIndex) <? Length
        then u32 (SizeOfBitMap bm - StartingIndex) else Length).

Definition RtlpGetLengthOfRunSet (bm : RTL_BITMAP) (StartingIndex MaxLength : Z)
    : option Z :=
  if SizeOfBitMap bm <=? StartingIndex then Some 0 else
  let Pos := StartingIndex / 32 in
  let BitPos := Z.land StartingIndex 31 in
  let MaxLength := Z.min MaxLength (u32 (SizeOfBitMap bm - StartingIndex)) in
  let MaxPos := Pos + u32 (BitPos + MaxLength + 32 - 1) / 32 in
  w ← rd (Buffer bm) Pos;
  let InvValue := u32 (Z.shiftl (Z.shiftr (not32 w) BitPos) BitPos) in
  '(InvValue, Pos) ← SkipUlongs not32 (length (Buffer bm)) (Buffer bm)
                       InvValue (Pos + 1) MaxPos;
  if InvValue =? 0 then Some MaxLength else
  BitPos ← BitScanForward InvValue;
  let Length := u32 (Pos * 32 - StartingIndex) in
  let Length := u32 (Length + (BitPos - 32)) in
  Some (if u32 (SizeOfBitMap bm - StartingIndex) <? Length
        then u32 (SizeOfBitMap bm - StartingIndex) else Length).

(** ** Scanning a 64-bit value *)

Definition RtlFindMostSignificantBit (Value : Z) : Z :=
  match BitScanReverse (u32 (Z.shiftr Value 32)) with
  | Some Position => Position + 32
  | None => match BitScanReverse (u32 Value) with
            | Some Position => Position
            | None => -1
            end
  end.

Definition RtlFindLeastSignificantBit (Value : Z) : Z :=
  match BitScanForward (u32 Value) with
  | Some Position => Position
  | None => match BitScanForward (u32 (Z.shiftr Value 32)) with
            | Some Position => Position + 32
            | None => -1
            end
  end.

(** ** Initialisation and filling *)

Definition RtlInitializeBitMap (BitMapBuffer : list Z) (SizeOfBitMap : Z) : RTL_BITMAP :=
  mkBitmap SizeOfBitMap BitMapBuffer.

(** [RtlFillMemoryUlong (Destination, Length, Fill)] of mem.c, [Destination] being
    the element [Pos] of the array; [Length] is in bytes. *)
Fixpoint FillUlongs (Count : nat) (buf : list Z) (Pos Fill : Z) : option (list Z) :=
  match Count with
  | O => Some buf
  | S Count' => buf ← wr buf Pos Fill; FillUlongs Count' buf (Pos + 1) Fill
  end.

Definition RtlFillMemoryUlong (buf : list Z) (Pos Length Fill : Z) : option (list Z) :=
  FillUlongs (Z.to_nat (Length / 4)) buf Pos Fill.

Definition RtlClearAllBits (bm : RTL_BITMAP) : option RTL_BITMAP :=
  let LengthInUlongs := u32 (SizeOfBitMap bm + 32 - 1) / 32 in
  buf ← RtlFillMemoryUlong (Buffer bm) 0 (u32 (LengthInUlongs * 4)) 0;
  Some (mkBitmap (SizeOfBitMap bm) buf).

Definition RtlSetAllBits (bm : RTL_BITMAP) : option RTL_BITMAP :=
  let LengthInUlongs := u32 (SizeOfBitMap bm + 32 - 1) / 32 in
  buf ← RtlFillMemoryUlong (Buffer bm) 0 (u32 (LengthInUlongs * 4)) (not32 0);
  Some (mkBitmap (SizeOfBitMap bm) buf).

(** ** Single bits *)

(** [Buffer[i] = f(Buffer[i])], a read-modify-write of one ULONG. *)
Definition update (buf : list Z) (i : Z) (f : Z -> Z) : option (list Z) :=
  w ← rd buf i; wr buf i (f w).

Definition RtlClearBit (bm : RTL_BITMAP) (BitNumber : Z) : option RTL_BITMAP :=
  buf ← update (Buffer bm) (BitNumber / 32)
          (fun w => Z.land w (not32 (Z.shiftl 1 (Z.land BitNumber 31))));
  Some (mkBitmap (SizeOfBitMap bm) buf).

Definition RtlSetBit (bm : RTL_BITMAP) (BitNumber : Z) : option RTL_BITMAP :=
  buf ← update (Buffer bm) (BitNumber / 32)
          (fun w => Z.lor w (u32 (Z.shiftl 1 (Z.land BitNumber 31))));
  Some (mkBitmap (SizeOfBitMap bm) buf).

Definition RtlTestBit (bm : RTL_BITMAP) (BitNumber : Z) : option bool :=
  w ← rd (Buffer bm) (BitNumber / 32);
  Some (negb (Z.land (Z.shiftr w (Z.land BitNumber 31)) 1 =? 0)).

(** ** Bit ranges *)

(** [aligned] is the code both branches of [if (Bits)] fall through to: fill the
    whole ULONGs, then mask the bits left over. *)
Definition RtlClearBits (bm : RTL_BITMAP) (StartingIndex NumberToClear : Z)
    : option RTL_BITMAP :=
  let Pos := StartingIndex / 32 in
  let Bits := Z.land StartingIndex 31 in
  let aligned (buf : list Z) (Pos NumberToClear : Z) :=
    buf ← RtlFillMemoryUlong buf Pos (Z.shiftr NumberToClear 3) 0;
    let Pos := Pos + NumberToClear / 32 in
    let NumberToClear := Z.land NumberToClear 31 in
    if negb (NumberToClear =? 0) then
      let Mask := u32 (Z.shiftl MAXINDEX NumberToClear) in
      buf ← update buf Pos (fun w => Z.land w Mask);
      Some (mkBitmap (SizeOfBitMap bm) buf)
    else Some (mkBitmap (SizeOfBitMap bm) buf) in
  if negb (Bits =? 0) then
    let Mask := u32 (Z.shiftl MAXINDEX Bits) in
    let Bits := 32 - Bits in
    if NumberToClear <? Bits then
      let Bits := Bits - NumberToClear in
      let Mask := Z.shiftr (u32 (Z.shiftl Mask Bits)) Bits in
      buf ← update (Buffer bm) Pos (fun w => Z.land w (not32 Mask));
      Some (mkBitmap (SizeOfBitMap bm) buf)
    else
      buf ← update (Buffer bm) Pos (fun w => Z.land w (not32 Mask));
      aligned buf (Pos + 1) (NumberToClear - Bits)
  else aligned (Buffer bm) Pos NumberToClear.

Definition RtlSetBits (bm : RTL_BITMAP) (StartingIndex NumberToSet : Z)
    : option RTL_BITMAP :=
  let Pos := StartingIndex / 32 in
  let Bits := Z.land StartingIndex 31 in
  let aligned (buf : list Z) (Pos NumberToSet : Z) :=
    buf ← RtlFillMemoryUlong buf Pos (Z.shiftr NumberToSet 3) MAXINDEX;
    let Pos := Pos + NumberToSet / 32 in
    let NumberToSet := Z.land NumberToSet 31 in
    if negb (NumberToSet =? 0) then
      let Mask := u32 (Z.shiftl MAXINDEX NumberToSet) in
      buf ← update buf Pos (fun w => Z.lor w (not32 Mask));
      Some (mkBitmap (SizeOfBitMap bm) buf)
    else Some (mkBitmap (SizeOfBitMap bm) buf) in
  if negb (Bits =? 0) then
    let Mask := u32 (Z.shiftl MAXINDEX Bits) in
    let Bits := 32 - Bits in
    if NumberToSet <? Bits then
      let Bits := Bits - NumberToSet in
      let Mask := Z.shiftr (u32 (Z.shiftl Mask Bits)) Bits in
      buf ← update (Buffer bm) Pos (fun w => Z.lor w Mask);
      Some (mkBitmap (SizeOfBitMap bm) buf)
    else
      buf ← update (Buffer bm) Pos (fun w => Z.lor w Mask);
      aligned buf (Pos + 1) (NumberToSet - Bits)
  else aligned (Buffer bm) Pos NumberToSet.

Definition RtlAreBitsClear (bm : RTL_BITMAP) (StartingIndex Length : Z) : option bool :=
  if (SizeOfBitMap bm <? u32 (StartingIndex + Length)) ||
     (u32 (StartingIndex + Length) <=? StartingIndex)
  then Some false
  else n ← RtlpGetLengthOfRunClear bm StartingIndex Length; Some (Length <=? n).

Definition RtlAreBitsSet (bm : RTL_BITMAP) (StartingIndex Length : Z) : option bool :=
  if (SizeOfBitMap bm <? u32 (StartingIndex + Length)) ||
     (u32 (StartingIndex + Length) <=? StartingIndex)
  then Some false
  else n ← RtlpGetLengthOfRunSet bm StartingIndex Length; Some (Length <=? n).

(** ** Population count *)

(** [((PUCHAR)Buffer)[k]] on a little-endian machine. *)
Definition buffer_byte (buf : list Z) (k : Z) : option Z :=
  w ← rd buf (k / 4); Some (u8 (Z.shiftr w (8 * (k mod 4)))).

Fixpoint CountBytes (n : nat) (buf : list Z) (Byte BitCount : Z) : option Z :=
  match n with
  | O => Some BitCount
  | S n' => b ← buffer_byte buf Byte;
            c ← rd BitCountTable b;
            CountBytes n' buf (Byte + 1) (u32 (BitCount + c))
  end.

Definition RtlNumberOfSetBits (bm : RTL_BITMAP) : option Z :=
  let MaxByte := SizeOfBitMap bm / 8 in
  BitCount ← CountBytes (Z.to_nat MaxByte) (Buffer bm) 0 0;
  if negb (Z.land (SizeOfBitMap bm) 7 =? 0) then
    let Shift := 8 - Z.land (SizeOfBitMap bm) 7 in
    b ← buffer_byte (Buffer bm) MaxByte;
    c ← rd BitCountTable (Z.land (Z.shiftl b Shift) 0xFF);
    Some (u32 (BitCount + c))
  else Some BitCount.

Definition RtlNumberOfClearBits (bm : RTL_BITMAP) : option Z :=
  n ← RtlNumberOfSetBits bm; Some (u32 (SizeOfBitMap bm - n)).

(** ** The bits of a buffer *)

(** Bit [i] of the bitmap: bit [i mod 32] of ULONG [i / 32]. *)
Definition getbit (buf : list Z) (i : Z) : bool :=
  Z.testbit (buf !!! Z.to_nat (i / 32)) (i mod 32).

Definition is_ulong (w : Z) : Prop := 0 <= w < 2 ^ 32.

(** A bitmap whose buffer covers its size with proper ULONGs. *)
Record wf_bitmap (bm : RTL_BITMAP) : Prop := {
  wf_size : 0 <= SizeOfBitMap bm < 2 ^ 32;
  wf_cover : SizeOfBitMap bm <= 32 * Z.of_nat (length (Buffer bm));
  wf_words : Forall is_ulong (Buffer bm)
}.

(** [bm'] is [bm] with the bits of [[lo, hi)] set to [v]. *)
Record writes (bm bm' : RTL_BITMAP) (lo hi : Z) (v : bool) : Prop := {
  writes_size : SizeOfBitMap bm' = SizeOfBitMap bm;
  writes_length : length (Buffer bm') = length (Buffer bm);
  writes_wf : wf_bitmap bm';
  writes_bits : forall i, 0 <= i < 32 * Z.of_nat (length (Buffer bm)) ->
    getbit (Buffer bm') i = if (lo <=? i) && (i <? hi) then v else getbit (Buffer bm) i
}.

Lemma land_31 x : Z.land x 31 = x mod 32.
Proof. change 31 with (Z.ones 5). by rewrite Z.land_ones by lia. Qed.

Lemma word_in_range buf p :
  Forall is_ulong buf -> 0 <= p < Z.of_nat (length buf) ->
  rd buf p = Some (buf !!! Z.to_nat p) /\ is_ulong (buf !!! Z.to_nat p).
Proof.
  intros Hf Hp. split; [by apply rd_total|].
  eapply Forall_lookup_1; [done|]. apply list_lookup_lookup_total_lt. lia.
Qed.

Lemma getbit_insert buf p v i :
  0 <= p < Z.of_nat (length buf) -> 0 <= i ->
  getbit (<[Z.to_nat p := v]> buf) i =
  if i / 32 =? p then Z.testbit v (i mod 32) else getbit buf i.
Proof.
  intros Hp Hi. unfold getbit. destruct (Z.eqb_spec (i / 32) p) as [->|Hn].
  - rewrite list_lookup_total_insert_eq; [done|lia].
  - rewrite list_lookup_total_insert_ne; [done|]. dlia.
Qed.

(** A read-modify-write of one ULONG that sets the bits [[lo, hi)] of it to [v]. *)
Definition sets_bits (f : Z -> Z) (lo hi : Z) (v : bool) : Prop :=
  forall w, is_ulong w -> is_ulong (f w) /\
    forall j, 0 <= j < 32 ->
      Z.testbit (f w) j = if (lo <=? j) && (j <? hi) then v else Z.testbit w j.

Lemma update_bits buf p f lo hi v :
  Forall is_ulong buf -> 0 <= p < Z.of_nat (length buf) -> sets_bits f lo hi v ->
  0 <= lo -> hi <= 32 ->
  exists buf', update buf p f = Some buf' /\ length buf' = length buf /\
    Forall is_ulong buf' /\
    forall i, 0 <= i -> getbit buf' i =
      if (32 * p + lo <=? i) && (i <? 32 * p + hi) then v else getbit buf i.
Proof.
  intros Hf Hp Hs Hlo Hhi. destruct (word_in_range buf p Hf Hp) as [Hr Hw].
  destruct (Hs _ Hw) as [Hu Hb].
  unfold update. rewrite Hr. simpl. rewrite wr_in_range by done.
  eexists; split_and!; [done|apply length_insert|by apply Forall_insert|].
  intros i Hi. rewrite getbit_insert by done.
  destruct (Z.eqb_spec (i / 32) p) as [<-|Hn].
  - rewrite Hb by dlia. unfold getbit.
    pose proof (Z.div_mod i 32 ltac:(lia)). zcases; done.
  - zcases; try done. exfalso. apply Hn. dlia.
Qed.

Lemma FillUlongs_bits n buf p fill v :
  Forall is_ulong buf -> 0 <= p -> p + Z.of_nat n <= Z.of_nat (length buf) ->
  is_ulong fill -> (forall j, 0 <= j < 32 -> Z.testbit fill j = v) ->
  exists buf', FillUlongs n buf p fill = Some buf' /\ length buf' = length buf /\
    Forall is_ulong buf' /\
    forall i, 0 <= i -> getbit buf' i =
      if (32 * p <=? i) && (i <? 32 * (p + Z.of_nat n)) then v else getbit buf i.
Proof.
  revert buf p. induction n as [|n IH]; intros buf p Hf Hp Hle Hu Hv; cbn [FillUlongs].
  - eexists; split_and!; try done. intros i Hi. zcases; done.
  - rewrite wr_in_range by lia. cbn [mbind option_bind].
    destruct (IH (<[Z.to_nat p:=fill]> buf) (p + 1)) as (buf' & -> & Hl & Hf' & Hb);
      [by apply Forall_insert|lia|rewrite length_insert; lia|done|done|].
    rewrite length_insert in Hl. eexists; split_and!; try done.
    intros i Hi. rewrite Hb, getbit_insert by lia.
    destruct (Z.eqb_spec (i / 32) p) as [E|E].
    + rewrite Hv by dlia. zcases; simpl; try done; dlia.
    + zcases; simpl; try done; dlia.
Qed.

(** ** Masks *)

Lemma MAXINDEX_ones : MAXINDEX = Z.ones 32.
Proof. reflexivity. Qed.

Lemma testbit_MAXINDEX j : 0 <= j < 32 -> Z.testbit MAXINDEX j = true.
Proof. intros. rewrite MAXINDEX_ones. apply Z.ones_spec_low. lia. Qed.

Lemma high_mask_bit b j :
  0 <= b -> 0 <= j < 32 -> Z.testbit (u32 (Z.shiftl MAXINDEX b)) j = (b <=? j).
Proof.
  intros Hb Hj. bits_simpl. rewrite MAXINDEX_ones.
  destruct (Z.leb_spec b j).
  - rewrite Z.ones_spec_low by lia. zcases; done.
  - rewrite Z.testbit_neg_r by lia. by rewrite andb_false_r.
Qed.

Lemma mid_mask_bit b n j :
  0 <= b -> 0 <= n -> 0 <= 32 - b - n -> 0 <= j < 32 ->
  Z.testbit (Z.shiftr (u32 (Z.shiftl (u32 (Z.shiftl MAXINDEX b)) (32 - b - n))) (32 - b - n)) j
  = (b <=? j) && (j <? b + n).
Proof.
  intros Hb Hn Hk Hj. rewrite Z.shiftr_spec, testbit_u32, Z.shiftl_spec by lia.
  replace (j + (32 - b - n) - (32 - b - n)) with j by lia.
  rewrite high_mask_bit by lia. zcases; done.
Qed.

Lemma mid_mask_range b n :
  0 <= 32 - b - n ->
  is_ulong (Z.shiftr (u32 (Z.shiftl (u32 (Z.shiftl MAXINDEX b)) (32 - b - n))) (32 - b - n)).
Proof.
  intros Hk. set (x := u32 (Z.shiftl (u32 _) _)). pose proof (u32_range (Z.shiftl (u32 (Z.shiftl MAXINDEX b)) (32 - b - n))) as Hx.
  fold x in Hx. unfold is_ulong. rewrite Z.shiftr_div_pow2 by lia.
  split; [apply Z.div_pos; lia|]. apply Z.div_lt_upper_bound; [lia|]. nia.
Qed.

Lemma or_sets mask lo hi :
  is_ulong mask -> (forall j, 0 <= j < 32 -> Z.testbit mask j = (lo <=? j) && (j <? hi)) ->
  sets_bits (fun w => Z.lor w mask) lo hi true.
Proof.
  intros Hm Hb w Hw. split; [by apply lor_range|].
  intros j Hj. rewrite Z.lor_spec, Hb by done.
  destruct ((lo <=? j) && (j <? hi)), (Z.testbit w j); done.
Qed.

Lemma and_clears mask lo hi :
  is_ulong mask ->
  (forall j, 0 <= j < 32 -> Z.testbit mask j = negb ((lo <=? j) && (j <? hi))) ->
  sets_bits (fun w => Z.land w mask) lo hi false.
Proof.
  intros Hm Hb w Hw. split; [apply land_range; unfold is_ulong in *; lia|].
  intros j Hj. rewrite Z.land_spec, Hb by done.
  destruct ((lo <=? j) && (j <? hi)), (Z.testbit w j); done.
Qed.

Lemma testbit_not32_low z j : 0 <= j < 32 -> Z.testbit (not32 z) j = negb (Z.testbit z j).
Proof. intros. rewrite testbit_not32 by lia. zcases; done. Qed.

Lemma set_head b n :
  0 <= b -> 0 <= n -> 0 <= 32 - b - n ->
  sets_bits (fun w => Z.lor w
    (Z.shiftr (u32 (Z.shiftl (u32 (Z.shiftl MAXINDEX b)) (32 - b - n))) (32 - b - n)))
    b (b + n) true.
Proof.
  intros. apply or_sets; [apply mid_mask_range; lia|].
  intros. apply mid_mask_bit; lia.
Qed.

Lemma clear_head b n :
  0 <= b -> 0 <= n -> 0 <= 32 - b - n ->
  sets_bits (fun w => Z.land w (not32
    (Z.shiftr (u32 (Z.shiftl (u32 (Z.shiftl MAXINDEX b)) (32 - b - n))) (32 - b - n))))
    b (b + n) false.
Proof.
  intros. apply and_clears; [apply not32_range|].
  intros. rewrite testbit_not32_low, mid_mask_bit by lia. done.
Qed.

Lemma set_high b : 0 <= b < 32 ->
  sets_bits (fun w => Z.lor w (u32 (Z.shiftl MAXINDEX b))) b 32 true.
Proof.
  intros. apply or_sets; [apply u32_range|].
  intros. rewrite high_mask_bit by lia. zcases; done.
Qed.

Lemma clear_high b : 0 <= b < 32 ->
  sets_bits (fun w => Z.land w (not32 (u32 (Z.shiftl MAXINDEX b)))) b 32 false.
Proof.
  intros. apply and_clears; [apply not32_range|].
  intros. rewrite testbit_not32_low, high_mask_bit by lia. zcases; done.
Qed.

Lemma set_low n : 0 <= n < 32 ->
  sets_bits (fun w => Z.lor w (not32 (u32 (Z.shiftl MAXINDEX n)))) 0 n true.
Proof.
  intros. apply or_sets; [apply not32_range|].
  intros. rewrite testbit_not32_low, high_mask_bit by lia. zcases; done.
Qed.

Lemma clear_low n : 0 <= n < 32 ->
  sets_bits (fun w => Z.land w (u32 (Z.shiftl MAXINDEX n))) 0 n false.
Proof.
  intros. apply and_clears; [apply u32_range|].
  intros. rewrite high_mask_bit by lia. zcases; done.
Qed.

Lemma fill_count n : 0 <= n -> Z.shiftr n 3 / 4 = n / 32.
Proof. intros. rewrite Z.shiftr_div_pow2 by lia. rewrite Z.div_div by lia. done. Qed.

(** The aligned part of the two range operations, for any fill pattern [fill] and
    any last-word update [f] of the bit value [v]. *)
Lemma aligned_bits buf p n fill f v :
  Forall is_ulong buf -> 0 <= p -> 0 <= n -> 32 * p + n <= 32 * Z.of_nat (length buf) ->
  is_ulong fill -> (forall j, 0 <= j < 32 -> Z.testbit fill j = v) ->
  sets_bits f 0 (n mod 32) v ->
  exists buf', 
    (buf ← RtlFillMemoryUlong buf p (Z.shiftr n 3) fill;
     if negb (Z.land n 31 =? 0) then update buf (p + n / 32) f else Some buf) = Some buf' /\
    length buf' = length buf /\ Forall is_ulong buf' /\
    forall i, 0 <= i -> getbit buf' i =
      if (32 * p <=? i) && (i <? 32 * p + n) then v else getbit buf i.
Proof.
  intros Hf Hp Hn Hle Hu Hv Hs. unfold RtlFillMemoryUlong. rewrite fill_count by done.
  destruct (FillUlongs_bits (Z.to_nat (n / 32)) buf p fill v) as (b1 & -> & Hl1 & Hf1 & Hb1);
    [done|done|dlia|done|done|]. cbn [mbind option_bind]. rewrite land_31.
  destruct (Z.eqb_spec (n mod 32) 0) as [E|E]; cbn [negb].
  - exists b1. split_and!; try done. intros i Hi. rewrite Hb1 by done.
    replace (32 * (p + Z.of_nat (Z.to_nat (n / 32)))) with (32 * p + n) by dlia. done.
  - destruct (update_bits b1 (p + n / 32) f 0 (n mod 32) v) as (b2 & -> & Hl2 & Hf2 & Hb2);
      [done|dlia|done|lia|dlia|].
    exists b2. split_and!; [done|congruence|done|]. intros i Hi. rewrite Hb2, Hb1 by done.
    pose proof (Z.div_mod n 32 ltac:(lia)). pose proof (Z.mod_pos_bound n 32 ltac:(lia)).
    rewrite Z2Nat.id by dlia. zcases; done.
Qed.

Lemma aligned_wrap (sz : Z) (x : option (list Z)) (c : bool) (g : list Z -> option (list Z)) :
  (buf ← x; if c then buf ← g buf; Some (mkBitmap sz buf) else Some (mkBitmap sz buf)) =
  (buf ← (buf ← x; if c then g buf else Some buf); Some (mkBitmap sz buf)).
Proof. destruct x as [b|], c; simpl; try done. Qed.

Lemma writes_intro bm buf' lo hi v :
  wf_bitmap bm -> length buf' = length (Buffer bm) -> Forall is_ulong buf' ->
  (forall i, 0 <= i -> getbit buf' i =
     if (lo <=? i) && (i <? hi) then v else getbit (Buffer bm) i) ->
  writes bm (mkBitmap (SizeOfBitMap bm) buf') lo hi v.
Proof.
  intros [H1 H2 H3] Hl Hf Hb. split; simpl; [done|done| |intros; apply Hb; lia].
  split; simpl; [done|by rewrite Hl|done].
Qed.

Section RangeOperation.
Variables (bm : RTL_BITMAP) (s n : Z).
Hypotheses (Hwf : wf_bitmap bm) (Hs : 0 <= s) (Hn : 0 <= n)
  (Hle : s + n <= SizeOfBitMap bm).

Let Hsplit : s = 32 * (s / 32) + s mod 32 /\ 0 <= s mod 32 < 32.
Proof. dlia. Qed.

Let Hcov : s + n <= 32 * Z.of_nat (length (Buffer bm)).
Proof. destruct Hwf. lia. Qed.

(** The unaligned head that ends inside the first ULONG. *)
Lemma head_only f v :
  s mod 32 <> 0 -> n <= 32 - s mod 32 -> sets_bits f (s mod 32) (s mod 32 + n) v ->
  exists bm', (buf ← update (Buffer bm) (s / 32) f; Some (mkBitmap (SizeOfBitMap bm) buf))
    = Some bm' /\ writes bm bm' s (s + n) v.
Proof.
  intros Hn0 Hn1 Hf. destruct (update_bits (Buffer bm) (s / 32) f (s mod 32) (s mod 32 + n) v)
    as (b & -> & Hl & Hfb & Hb); [apply Hwf|dlia|done|lia|lia|].
  eexists; split; [done|]. apply writes_intro; try done.
  intros i Hi. rewrite Hb by done.
  replace (32 * (s / 32) + s mod 32) with s by lia.
  replace (32 * (s / 32) + (s mod 32 + n)) with (s + n) by lia. done.
Qed.

(** The unaligned head followed by the aligned rest. *)
Lemma head_then_aligned f g fill v :
  s mod 32 <> 0 -> 32 - s mod 32 <= n -> sets_bits f (s mod 32) 32 v ->
  is_ulong fill -> (forall j, 0 <= j < 32 -> Z.testbit fill j = v) ->
  sets_bits g 0 ((n - (32 - s mod 32)) mod 32) v ->
  exists buf1 buf2, update (Buffer bm) (s / 32) f = Some buf1 /\
    (buf ← RtlFillMemoryUlong buf1 (s / 32 + 1) (Z.shiftr (n - (32 - s mod 32)) 3) fill;
     if negb (Z.land (n - (32 - s mod 32)) 31 =? 0)
     then update buf (s / 32 + 1 + (n - (32 - s mod 32)) / 32) g else Some buf)
    = Some buf2 /\ writes bm (mkBitmap (SizeOfBitMap bm) buf2) s (s + n) v.
Proof.
  intros Hm Hn1 Hf Hu Hv Hg.
  destruct (update_bits (Buffer bm) (s / 32) f (s mod 32) 32 v)
    as (b & E & Hl & Hfb & Hb); [apply Hwf|dlia|done|lia|lia|].
  destruct (aligned_bits b (s / 32 + 1) (n - (32 - s mod 32)) fill g v)
    as (b2 & E2 & Hl2 & Hfb2 & Hb2); [done|dlia|lia|rewrite Hl; dlia|done|done|done|].
  exists b, b2. split_and!; [done|done|]. apply writes_intro; [done|congruence|done|].
  intros i Hi. rewrite Hb2, Hb by done. zcases; done.
Qed.

Lemma aligned_only g fill v :
  s mod 32 = 0 -> is_ulong fill -> (forall j, 0 <= j < 32 -> Z.testbit fill j = v) ->
  sets_bits g 0 (n mod 32) v ->
  exists buf2,
    (buf ← RtlFillMemoryUlong (Buffer bm) (s / 32) (Z.shiftr n 3) fill;
     if negb (Z.land n 31 =? 0) then update buf (s / 32 + n / 32) g else Some buf)
    = Some buf2 /\ writes bm (mkBitmap (SizeOfBitMap bm) buf2) s (s + n) v.
Proof.
  intros Hm Hu Hv Hg.
  destruct (aligned_bits (Buffer bm) (s / 32) n fill g v) as (b2 & E2 & Hl2 & Hfb2 & Hb2);
    [apply Hwf|dlia|lia|dlia|done|done|done|].
  exists b2. split; [done|]. apply writes_intro; try done.
  intros i Hi. rewrite Hb2 by done. replace (32 * (s / 32)) with s by lia. done.
Qed.

End RangeOperation.

Lemma testbit_zero_word j : 0 <= j < 32 -> Z.testbit 0 j = false.
Proof. intros. apply Z.bits_0. Qed.

Lemma is_ulong_0 : is_ulong 0.
Proof. done. Qed.

Lemma is_ulong_max : is_ulong MAXINDEX.
Proof. done. Qed.

Lemma mod32_range x : 0 <= x mod 32 < 32.
Proof. apply Z.mod_pos_bound. lia. Qed.

#[export] Hint Resolve mod32_range is_ulong_0 is_ulong_max testbit_MAXINDEX testbit_zero_word
  set_head clear_head set_high clear_high set_low clear_low : nt.

Ltac range_operation bm s n :=
  let H1 := fresh in pose proof (mod32_range s) as H1;
  cbv zeta; rewrite (land_31 s);
  destruct (Z.eqb_spec (s mod 32) 0); cbn [negb];
  [ edestruct (aligned_only bm s n) as (? & E2 & ?);
    [ .. | rewrite aligned_wrap, E2; eauto ]
  | destruct (Z.ltb_spec n (32 - s mod 32));
    [ apply head_only; eauto with nt lia
    | edestruct (head_then_aligned bm s n) as (? & ? & E1 & E2 & ?);
      [ .. | rewrite E1; cbn [mbind option_bind]; rewrite aligned_wrap, E2; eauto ] ] ];
  try eassumption; eauto with nt;
  rewrite ?land_31; eauto with nt.

Lemma RtlSetBits_writes bm s n :
  wf_bitmap bm -> 0 <= s -> 0 <= n -> s + n <= SizeOfBitMap bm ->
  exists bm', RtlSetBits bm s n = Some bm' /\ writes bm bm' s (s + n) true.
Proof.
  intros Hwf Hs Hn Hle. unfold RtlSetBits.
  range_operation bm s n.
Qed.

Lemma RtlClearBits_writes bm s n :
  wf_bitmap bm -> 0 <= s -> 0 <= n -> s + n <= SizeOfBitMap bm ->
  exists bm', RtlClearBits bm s n = Some bm' /\ writes bm bm' s (s + n) false.
Proof.
  intros Hwf Hs Hn Hle. unfold RtlClearBits.
  range_operation bm s n.
Qed.

(** ** Single bits *)

Lemma one_bit_mask b j :
  0 <= b < 32 -> 0 <= j < 32 -> Z.testbit (u32 (Z.shiftl 1 b)) j = (b <=? j) && (j <? b + 1).
Proof.
  intros Hb Hj. bits_simpl. destruct (decide (j < b)) as [|Hn].
  - rewrite Z.testbit_neg_r by lia. zcases; done.
  - replace (Z.testbit 1 (j - b)) with (Z.testbit (Z.ones 1) (j - b)) by done.
    rewrite Z.testbit_ones_nonneg by lia. zcases; done.
Qed.

Lemma set_one b : 0 <= b < 32 ->
  sets_bits (fun w => Z.lor w (u32 (Z.shiftl 1 b))) b (b + 1) true.
Proof.
  intros. apply or_sets; [apply u32_range|]. intros. by apply one_bit_mask.
Qed.

Lemma clear_one b : 0 <= b < 32 ->
  sets_bits (fun w => Z.land w (not32 (Z.shiftl 1 b))) b (b + 1) false.
Proof.
  intros. apply and_clears; [apply not32_range|]. intros j Hj.
  rewrite testbit_not32_low, <- one_bit_mask, testbit_u32 by lia. zcases; done.
Qed.

Lemma update_one bm b f v :
  wf_bitmap bm -> 0 <= b < SizeOfBitMap bm -> sets_bits f (b mod 32) (b mod 32 + 1) v ->
  exists bm', (buf ← update (Buffer bm) (b / 32) f; Some (mkBitmap (SizeOfBitMap bm) buf))
    = Some bm' /\ writes bm bm' b (b + 1) v.
Proof.
  intros Hwf Hb Hf. pose proof (wf_cover _ Hwf).
  destruct (update_bits (Buffer bm) (b / 32) f (b mod 32) (b mod 32 + 1) v)
    as (b' & -> & Hl & Hfb & Hbits); [apply Hwf|dlia|done|dlia|dlia|].
  eexists; split; [done|]. apply writes_intro; try done.
  intros i Hi. rewrite Hbits by done. pose proof (Z.div_mod b 32 ltac:(lia)).
  replace (32 * (b / 32) + b mod 32) with b by lia.
  replace (32 * (b / 32) + (b mod 32 + 1)) with (b + 1) by lia. done.
Qed.

Lemma RtlSetBit_writes bm b :
  wf_bitmap bm -> 0 <= b < SizeOfBitMap bm ->
  exists bm', RtlSetBit bm b = Some bm' /\ writes bm bm' b (b + 1) true.
Proof. intros. apply update_one; rewrite ?land_31; auto using set_one with nt. Qed.

Lemma RtlClearBit_writes bm b :
  wf_bitmap bm -> 0 <= b < SizeOfBitMap bm ->
  exists bm', RtlClearBit bm b = Some bm' /\ writes bm bm' b (b + 1) false.
Proof. intros. apply update_one; rewrite ?land_31; auto using clear_one with nt. Qed.

Lemma RtlTestBit_getbit bm b :
  wf_bitmap bm -> 0 <= b < SizeOfBitMap bm -> RtlTestBit bm b = Some (getbit (Buffer bm) b).
Proof.
  intros Hwf Hb. pose proof (wf_cover _ Hwf). unfold RtlTestBit, getbit.
  destruct (word_in_range (Buffer bm) (b / 32)) as [-> _]; [apply Hwf|dlia|].
  cbn [mbind option_bind]. rewrite land_31. f_equal.
  pose proof (mod32_range b). set (w := Buffer bm !!! _).
  change 1 with (Z.ones 1). rewrite Z.land_ones, <- Z.bit0_mod, Z.shiftr_spec by lia.
  rewrite Z.add_0_l. by destruct (Z.testbit w (b mod 32)).
Qed.

(** ** Whole bitmaps *)

Lemma fill_all bm fill v :
  wf_bitmap bm -> SizeOfBitMap bm <= 2 ^ 32 - 32 -> is_ulong fill ->
  (forall j, 0 <= j < 32 -> Z.testbit fill j = v) ->
  exists bm', (buf ← RtlFillMemoryUlong (Buffer bm) 0
                 (u32 (u32 (SizeOfBitMap bm + 32 - 1) / 32 * 4)) fill;
               Some (mkBitmap (SizeOfBitMap bm) buf)) = Some bm' /\
    writes bm bm' 0 (32 * ((SizeOfBitMap bm + 31) / 32)) v.
Proof.
  intros Hwf Hsz Hu Hv. destruct Hwf as [H1 H2 H3] eqn:E. clear E.
  rewrite (u32_small (_ + 32 - 1)) by lia. rewrite (u32_small (_ * 4)) by dlia.
  replace (SizeOfBitMap bm + 32 - 1) with (SizeOfBitMap bm + 31) by lia.
  unfold RtlFillMemoryUlong. rewrite Z.div_mul by lia.
  destruct (FillUlongs_bits (Z.to_nat ((SizeOfBitMap bm + 31) / 32)) (Buffer bm) 0 fill v)
    as (b & -> & Hl & Hf & Hb); [done|lia|dlia|done|done|].
  eexists; split; [done|]. apply writes_intro; [done|done|done|].
  intros i Hi. rewrite Hb by done. rewrite Z2Nat.id by dlia. done.
Qed.

Lemma RtlClearAllBits_writes bm :
  wf_bitmap bm -> SizeOfBitMap bm <= 2 ^ 32 - 32 ->
  exists bm', RtlClearAllBits bm = Some bm' /\
    writes bm bm' 0 (32 * ((SizeOfBitMap bm + 31) / 32)) false.
Proof. intros. apply fill_all; auto with nt. Qed.

Lemma RtlSetAllBits_writes bm :
  wf_bitmap bm -> SizeOfBitMap bm <= 2 ^ 32 - 32 ->
  exists bm', RtlSetAllBits bm = Some bm' /\
    writes bm bm' 0 (32 * ((SizeOfBitMap bm + 31) / 32)) true.
Proof. intros. apply fill_all; auto with nt. Qed.

(** ** Run lengths *)

(** The text shared by the two run-length functions, [f] being the reading of a
    ULONG in which a 1 bit ends the run. *)
Definition RunLength (f : Z -> Z) (bm : RTL_BITMAP) (StartingIndex MaxLength : Z)
    : option Z :=
  if SizeOfBitMap bm <=? StartingIndex then Some 0 else
  let Pos := StartingIndex / 32 in
  let BitPos := Z.land StartingIndex 31 in
  let MaxLength := Z.min MaxLength (u32 (SizeOfBitMap bm - StartingIndex)) in
  let MaxPos := Pos + u32 (BitPos + MaxLength + 32 - 1) / 32 in
  w ← rd (Buffer bm) Pos;
  let Value := u32 (Z.shiftl (Z.shiftr (f w) BitPos) BitPos) in
  '(Value, Pos) ← SkipUlongs f (length (Buffer bm)) (Buffer bm) Value (Pos + 1) MaxPos;
  if Value =? 0 then Some MaxLength else
  BitPos ← BitScanForward Value;
  let Length := u32 (u32 (Pos * 32 - StartingIndex) + (BitPos - 32)) in
  Some (if u32 (SizeOfBitMap bm - StartingIndex) <? Length
        then u32 (SizeOfBitMap bm - StartingIndex) else Length).

Lemma RunLength_clear bm s m : RtlpGetLengthOfRunClear bm s m = RunLength (fun w => w) bm s m.
Proof. reflexivity. Qed.

Lemma RunLength_set bm s m : RtlpGetLengthOfRunSet bm s m = RunLength not32 bm s m.
Proof. reflexivity. Qed.

(** [f] marks the bits that differ from [v]. *)
Definition marks (f : Z -> Z) (v : bool) : Prop :=
  forall w, is_ulong w -> is_ulong (f w) /\
    forall j, 0 <= j < 32 -> Z.testbit (f w) j = xorb v (Z.testbit w j).

Lemma marks_id : marks (fun w => w) false.
Proof. intros w Hw. split; [done|]. intros. by destruct (Z.testbit w j). Qed.

Lemma marks_not32 : marks not32 true.
Proof. intros w Hw. split; [apply not32_range|]. intros. by rewrite testbit_not32_low. Qed.

#[export] Hint Resolve marks_id marks_not32 : nt.

(** All bits of [[lo, hi)] have the value [v]. *)
Definition all_bits (v : bool) (buf : list Z) (lo hi : Z) : Prop :=
  forall i, lo <= i < hi -> getbit buf i = v.

(** The loop invariant of the scan from [s]: every bit before the last ULONG read
    (number [Pos - 1]) has the value [v], and [Value] marks the bits of that ULONG,
    from [s] on, that differ. *)
Definition window (v : bool) (buf : list Z) (s Value Pos : Z) : Prop :=
  is_ulong Value /\ all_bits v buf s (32 * (Pos - 1)) /\
  forall j, 0 <= j < 32 -> Z.testbit Value j =
    (s <=? 32 * (Pos - 1) + j) && xorb v (getbit buf (32 * (Pos - 1) + j)).

Lemma getbit_word buf p j :
  0 <= p -> 0 <= j < 32 -> getbit buf (32 * p + j) = Z.testbit (buf !!! Z.to_nat p) j.
Proof.
  intros Hp Hj. unfold getbit.
  replace ((32 * p + j) / 32) with p by dlia.
  replace ((32 * p + j) mod 32) with j by dlia. done.
Qed.

Lemma window_zero v buf s Pos :
  1 <= Pos -> s <= 32 * Pos -> window v buf s 0 Pos -> all_bits v buf s (32 * Pos).
Proof.
  intros HP Hs (Hu & Hall & Hb) i Hi.
  destruct (Z.lt_ge_cases i (32 * (Pos - 1))); [apply Hall; lia|].
  specialize (Hb (i - 32 * (Pos - 1)) ltac:(lia)). rewrite Z.bits_0 in Hb.
  replace (32 * (Pos - 1) + (i - 32 * (Pos - 1))) with i in Hb by lia.
  destruct (Z.leb_spec s i); [|lia]. destruct (getbit buf i), v; done.
Qed.

Lemma SkipUlongs_spec f v buf s MaxPos fuel Value Pos :
  marks f v -> Forall is_ulong buf -> MaxPos <= Z.of_nat (length buf) ->
  1 <= Pos -> s <= 32 * Pos -> window v buf s Value Pos ->
  MaxPos - Pos <= Z.of_nat fuel ->
  exists Value' Pos', SkipUlongs f fuel buf Value Pos MaxPos = Some (Value', Pos') /\
    window v buf s Value' Pos' /\ Pos <= Pos' /\ (Value' = 0 -> MaxPos <= Pos') /\
    (Pos' = Pos \/ Pos' <= MaxPos).
Proof.
  intros Hf Hw HM. revert Value Pos.
  induction fuel as [|fuel IH]; intros Value Pos HP Hs Hwin Hfu; cbn [SkipUlongs];
    destruct (Z.eqb_spec Value 0) as [->|Hv], (Z.ltb_spec Pos MaxPos); cbn [andb];
    try lia; try (eexists _, _; split_and!; try done; lia).
  destruct (word_in_range buf Pos Hw) as [-> Hu]; [lia|]. cbn [mbind option_bind].
  destruct (Hf _ Hu) as [Hfu' Hfb].
  destruct (IH (f (buf !!! Z.to_nat Pos)) (Pos + 1)) as (V & P & -> & Hwin' & ? & ? & ?);
    [lia|lia| |lia|].
  - split_and!; [done| |].
    + replace (Pos + 1 - 1) with Pos by lia. by apply window_zero.
    + intros j Hj. replace (Pos + 1 - 1) with Pos by lia.
      rewrite Hfb, getbit_word by lia. destruct (Z.leb_spec s (32 * Pos + j)); [done|lia].
  - eexists _, _; split_and!; try done; lia.
Qed.

Lemma first_word f v buf s :
  marks f v -> Forall is_ulong buf -> 0 <= s < 32 * Z.of_nat (length buf) ->
  exists w, rd buf (s / 32) = Some w /\
    window v buf s (u32 (Z.shiftl (Z.shiftr (f w) (s mod 32)) (s mod 32))) (s / 32 + 1).
Proof.
  intros Hf Hw Hs. destruct (word_in_range buf (s / 32) Hw) as [Hr Hu]; [dlia|].
  eexists; split; [done|]. destruct (Hf _ Hu) as [_ Hfb].
  pose proof (Z.div_mod s 32 ltac:(lia)). pose proof (mod32_range s).
  replace (s / 32 + 1 - 1) with (s / 32) by lia.
  split_and!; [apply u32_range|intros i Hi; lia|].
  intros j Hj. bits_simpl. rewrite getbit_word by dlia.
  replace (s / 32 + 1 - 1) with (s / 32) by lia.
  destruct (Z.leb_spec s (32 * (s / 32) + j)).
  - rewrite Z.shiftr_spec by lia. replace (j - s mod 32 + s mod 32) with j by lia.
    rewrite Hfb by lia. zcases; done.
  - rewrite Z.testbit_neg_r by lia. by rewrite andb_false_r.
Qed.

(** What a run-length function returns for the run of bits [v] at [s]: a length [r]
    inside the bitmap, all of whose bits are [v], and which ends at a bit of the
    other value unless it reached the end of the bitmap or the limit [max]. *)
Record run_length (v : bool) (bm : RTL_BITMAP) (s max r : Z) : Prop := {
  run_nonneg : 0 <= r;
  run_inside : s + r <= Z.max s (SizeOfBitMap bm);
  run_bits : all_bits v (Buffer bm) s (s + r);
  run_maximal : s + r < SizeOfBitMap bm -> r < max -> getbit (Buffer bm) (s + r) = negb v
}.

(** Bitmaps on which the index arithmetic of the scans does not wrap around. *)
Definition scannable (bm : RTL_BITMAP) : Prop :=
  wf_bitmap bm /\ SizeOfBitMap bm <= 2 ^ 32 - 64.

Lemma window_first v buf s Value Pos p :
  1 <= Pos -> window v buf s Value Pos -> 0 <= p -> Z.testbit Value p = true ->
  (forall j, 0 <= j < p -> Z.testbit Value j = false) ->
  p < 32 /\ s <= 32 * (Pos - 1) + p /\ getbit buf (32 * (Pos - 1) + p) = negb v /\
  all_bits v buf s (32 * (Pos - 1) + p).
Proof.
  intros HP (Hu & Hall & Hb) Hp Ht Hlow.
  assert (p < 32) as Hp32 by (eapply testbit_true_lt; [|exact Hu|done]; lia).
  pose proof (Hb p ltac:(lia)) as Hbp. rewrite Ht in Hbp. symmetry in Hbp.
  apply andb_true_iff in Hbp as [Hs Hx]. apply Z.leb_le in Hs.
  split_and!; [done|done|by destruct v, (getbit buf _)|].
  intros i Hi. destruct (Z.lt_ge_cases i (32 * (Pos - 1))); [apply Hall; lia|].
  specialize (Hb (i - 32 * (Pos - 1)) ltac:(lia)). rewrite Hlow in Hb by lia.
  replace (32 * (Pos - 1) + (i - 32 * (Pos - 1))) with i in Hb by lia.
  destruct (Z.leb_spec s i); [|lia]. by destruct v, (getbit buf i).
Qed.

Lemma RunLength_spec f v bm s max :
  marks f v -> scannable bm -> 0 <= s -> 0 <= max ->
  exists r, RunLength f bm s max = Some r /\ run_length v bm s max r.
Proof.
  intros Hf [Hwf Hsc] Hs Hmax. destruct Hwf as [Hsz Hcov Hw]. unfold RunLength.
  destruct (Z.leb_spec (SizeOfBitMap bm) s) as [Hge|Hlt].
  { exists 0. split; [done|]. split; try lia. intros i Hi. lia. }
  cbv zeta. rewrite land_31.
  destruct (first_word f v (Buffer bm) s Hf Hw) as (w & -> & Hwin); [lia|].
  cbn [mbind option_bind]. rewrite (u32_small (SizeOfBitMap bm - s)) by lia.
  set (m := Z.min max (SizeOfBitMap bm - s)).
  assert (0 <= m <= SizeOfBitMap bm - s /\ (m = max \/ m = SizeOfBitMap bm - s)) as Hm by lia.
  clearbody m.
  pose proof (mod32_range s) as Hm32. pose proof (Z.div_mod s 32 ltac:(lia)) as Hdm.
  rewrite (u32_small (s mod 32 + m + 32 - 1)) by lia.
  destruct (SkipUlongs_spec f v (Buffer bm) s (s / 32 + (s mod 32 + m + 32 - 1) / 32)
    (length (Buffer bm)) _ (s / 32 + 1) Hf Hw ltac:(dlia) ltac:(dlia) ltac:(dlia) Hwin ltac:(dlia))
    as (V & P & -> & Hwin' & HP & Hz & HPM).
  cbn [mbind option_bind].
  assert (1 <= P) by dlia.
  destruct (Z.eqb_spec V 0) as [->|Hnz].
  - exists m. split; [done|]. specialize (Hz eq_refl).
    pose proof (window_zero v (Buffer bm) s P ltac:(lia) ltac:(dlia) Hwin') as Hall.
    split; try lia. intros i Hi. apply Hall. dlia.
  - destruct (BitScanForward_spec V) as (p & -> & Hp & Ht & Hlow);
      [destruct Hwin' as [Hu _]; unfold is_ulong in Hu; lia|].
    cbn [mbind option_bind].
    destruct (window_first v (Buffer bm) s V P p ltac:(lia) Hwin' Hp Ht Hlow) as (Hp32 & Hsp & Hd & Hall).
    rewrite (u32_small (P * 32 - s)) by (destruct HPM; dlia). rewrite (u32_small (_ + _)) by dlia.
    replace (P * 32 - s + (p - 32)) with (32 * (P - 1) + p - s) by lia.
    eexists; split; [done|]. destruct (Z.ltb_spec (SizeOfBitMap bm - s) (32 * (P - 1) + p - s)).
    + split; try lia. intros i Hi. apply Hall. lia.
    + split; try lia.
      * intros i Hi. apply Hall. lia.
      * intros _ _. by replace (s + (32 * (P - 1) + p - s)) with (32 * (P - 1) + p) by lia.
Qed.

Lemma RtlpGetLengthOfRunClear_run bm s max :
  scannable bm -> 0 <= s -> 0 <= max ->
  exists r, RtlpGetLengthOfRunClear bm s max = Some r /\ run_length false bm s max r.
Proof. rewrite RunLength_clear. apply RunLength_spec, marks_id. Qed.

Lemma RtlpGetLengthOfRunSet_run bm s max :
  scannable bm -> 0 <= s -> 0 <= max ->
  exists r, RtlpGetLengthOfRunSet bm s max = Some r /\ run_length true bm s max r.
Proof. rewrite RunLength_set. apply RunLength_spec, marks_not32. Qed.

(** ** Testing ranges *)

(** The two range tests, over the run-length function they call. *)
Lemma are_bits_spec f v bm s len :
  marks f v -> scannable bm -> 0 <= s < 2 ^ 32 -> 0 <= len < 2 ^ 32 ->
  exists b, (if (SizeOfBitMap bm <? u32 (s + len)) || (u32 (s + len) <=? s) then Some false
             else n ← RunLength f bm s len; Some (len <=? n)) = Some b /\
    (b = true <-> 0 < len /\ s + len <= SizeOfBitMap bm /\ all_bits v (Buffer bm) s (s + len)).
Proof.
  intros Hf Hsc Hs Hl. pose proof (wf_size _ (proj1 Hsc)) as Hsz.
  assert (s + len < 2 ^ 32 \/ 2 ^ 32 <= s + len) as [Hnw|Hw] by lia.
  - rewrite u32_small by lia. destruct (Z.ltb_spec (SizeOfBitMap bm) (s + len)); cbn [orb].
    { exists false. split; [done|]. split; [done|lia]. }
    destruct (Z.leb_spec (s + len) s).
    { exists false. split; [done|]. split; [done|lia]. }
    destruct (RunLength_spec f v bm s len Hf Hsc) as (r & -> & [H1 H2 H3 H4]); [lia..|].
    eexists; split; [done|]. rewrite Z.leb_le. split.
    + intros Hle. split_and!; [lia|lia|]. intros i Hi. apply H3. lia.
    + intros (_ & _ & Hall). destruct (Z.le_gt_cases len r); [done|].
      rewrite Hall in H4 by lia. specialize (H4 ltac:(lia) ltac:(lia)). by destruct v.
  - assert (u32 (s + len) = s + len - 2 ^ 32) as ->.
    { unfold u32. symmetry. apply (Z.mod_unique _ _ 1); lia. }
    destruct (Z.ltb_spec (SizeOfBitMap bm) (s + len - 2 ^ 32)); cbn [orb];
      destruct (Z.leb_spec (s + len - 2 ^ 32) s); try lia;
      exists false; (split; [done|]); (split; [done|lia]).
Qed.

(** ** Population count *)

Fixpoint count_set (buf : list Z) (n : nat) : Z :=
  match n with
  | O => 0
  | S n' => count_set buf n' + Z.b2z (getbit buf (Z.of_nat n'))
  end.

Lemma count_set_bounds buf n : 0 <= count_set buf n <= Z.of_nat n.
Proof. induction n as [|n IH]; simpl; [lia|]. destruct (getbit _ _); simpl; lia. Qed.

Lemma count_set_mono buf m n : (m <= n)%nat -> count_set buf m <= count_set buf n.
Proof.
  induction 1 as [|n _ IH]; [lia|]. simpl. destruct (getbit _ _); simpl; lia.
Qed.

Definition byte_count (b : Z) : Z :=
  Z.b2z (Z.testbit b 0) + Z.b2z (Z.testbit b 1) + Z.b2z (Z.testbit b 2) +
  Z.b2z (Z.testbit b 3) + Z.b2z (Z.testbit b 4) + Z.b2z (Z.testbit b 5) +
  Z.b2z (Z.testbit b 6) + Z.b2z (Z.testbit b 7).

Lemma BitCountTable_correct b : 0 <= b < 256 -> rd BitCountTable b = Some (byte_count b).
Proof.
  intros Hb.
  assert (forallb (fun k => bool_decide (rd BitCountTable (Z.of_nat k) =
    Some (byte_count (Z.of_nat k)))) (seq 0 256) = true) as Hall by (vm_compute; done).
  rewrite forallb_forall in Hall. specialize (Hall (Z.to_nat b)).
  rewrite bool_decide_eq_true, Z2Nat.id in Hall by lia. apply Hall, in_seq. lia.
Qed.

Lemma buffer_byte_bits buf k :
  Forall is_ulong buf -> 0 <= k < 4 * Z.of_nat (length buf) ->
  exists b, buffer_byte buf k = Some b /\ 0 <= b < 256 /\
    forall j, 0 <= j < 8 -> Z.testbit b j = getbit buf (8 * k + j).
Proof.
  intros Hf Hk. unfold buffer_byte.
  destruct (word_in_range buf (k / 4) Hf) as [-> _]; [dlia|]. cbn [mbind option_bind].
  eexists; split_and!; [done|apply u8_range|apply u8_range|].
  intros j Hj. rewrite testbit_u8, Z.shiftr_spec by lia. unfold getbit.
  replace ((8 * k + j) / 32) with (k / 4) by dlia.
  replace ((8 * k + j) mod 32) with (j + 8 * (k mod 4)) by dlia.
  zcases; done.
Qed.

Lemma count_set_succ buf m :
  0 <= m -> count_set buf (Z.to_nat (m + 1)) =
            count_set buf (Z.to_nat m) + Z.b2z (getbit buf m).
Proof.
  intros Hm. replace (Z.to_nat (m + 1)) with (S (Z.to_nat m)) by lia. simpl.
  by rewrite Z2Nat.id by lia.
Qed.

(** Evaluates the comparisons between constants. *)
Ltac const_cmp :=
  repeat match goal with
  | |- context [Zpos ?a <? ?b] =>
      let r := eval vm_compute in (Zpos a <? b) in change (Zpos a <? b) with r
  | |- context [0 <? ?b] =>
      let r := eval vm_compute in (0 <? b) in change (0 <? b) with r
  | |- context [8 - Zpos ?a <=? ?b] =>
      let r := eval vm_compute in (8 - Zpos a <=? b) in change (8 - Zpos a <=? b) with r
  | |- context [Zpos ?a - (8 - Zpos ?b)] =>
      let r := eval vm_compute in (Zpos a - (8 - Zpos b)) in
      change (Zpos a - (8 - Zpos b)) with r
  end;
  cbn [andb Z.b2z].

(** The first [n] of the eight bits of byte [k], added to the count up to byte [k]. *)
Lemma count_set_byte buf k b n :
  0 <= k -> 0 <= n <= 8 -> (forall j, 0 <= j < 8 -> Z.testbit b j = getbit buf (8 * k + j)) ->
  count_set buf (Z.to_nat (8 * k + n)) =
  count_set buf (Z.to_nat (8 * k)) + byte_count (Z.land b (Z.ones n)).
Proof.
  intros Hk Hn Hb.
  assert (forall j, 0 <= j < 8 -> Z.testbit (Z.land b (Z.ones n)) j =
    (j <? n) && getbit buf (8 * k + j)) as Hb'.
  { intros j Hj. rewrite Z.land_spec, Z.testbit_ones_nonneg, Hb by lia. apply andb_comm. }
  unfold byte_count. rewrite !Hb' by lia. clear Hb Hb'.
  assert (n = 0 \/ n = 1 \/ n = 2 \/ n = 3 \/ n = 4 \/ n = 5 \/ n = 6 \/ n = 7 \/ n = 8)
    as Hcases by lia.
  assert (forall j j', j' = j + 1 -> 0 <= j -> count_set buf (Z.to_nat (8 * k + j')) =
    count_set buf (Z.to_nat (8 * k + j)) + Z.b2z (getbit buf (8 * k + j))) as Hs.
  { intros j j' -> Hj. rewrite Z.add_assoc. apply count_set_succ. lia. }
  pose proof (Hs 0 1 eq_refl). pose proof (Hs 1 2 eq_refl). pose proof (Hs 2 3 eq_refl).
  pose proof (Hs 3 4 eq_refl). pose proof (Hs 4 5 eq_refl). pose proof (Hs 5 6 eq_refl).
  pose proof (Hs 6 7 eq_refl). pose proof (Hs 7 8 eq_refl). clear Hs.
  rewrite ?Z.add_0_r in *.
  destruct_or! Hcases; subst n; const_cmp; rewrite ?Z.add_0_r; lia.
Qed.

Lemma CountBytes_spec buf n k :
  Forall is_ulong buf -> 0 <= k -> k + Z.of_nat n <= 4 * Z.of_nat (length buf) ->
  8 * (k + Z.of_nat n) < 2 ^ 32 ->
  CountBytes n buf k (count_set buf (Z.to_nat (8 * k))) =
  Some (count_set buf (Z.to_nat (8 * (k + Z.of_nat n)))).
Proof.
  intros Hf. revert k. induction n as [|n IH]; intros k Hk Hle Hlt; cbn [CountBytes].
  - by rewrite Z.add_0_r.
  - destruct (buffer_byte_bits buf k Hf) as (b & -> & Hb & Hbits); [lia|].
    cbn [mbind option_bind]. rewrite BitCountTable_correct by lia. cbn [mbind option_bind].
    pose proof (count_set_byte buf k b 8 Hk ltac:(lia) Hbits) as E.
    rewrite Z.land_ones, Z.mod_small in E by lia. rewrite <- E.
    pose proof (count_set_bounds buf (Z.to_nat (8 * k + 8))).
    rewrite u32_small by lia. replace (8 * k + 8) with (8 * (k + 1)) by lia.
    rewrite IH by lia. do 3 f_equal. lia.
Qed.

Lemma partial_byte_count b r :
  0 <= b < 256 -> 0 < r < 8 ->
  byte_count (Z.land (Z.shiftl b (8 - r)) 0xFF) = byte_count (Z.land b (Z.ones r)).
Proof.
  intros Hb Hr.
  assert (r = 1 \/ r = 2 \/ r = 3 \/ r = 4 \/ r = 5 \/ r = 6 \/ r = 7) as Hc by lia.
  assert (forall j, 0 <= j < 8 ->
    Z.testbit (Z.land (Z.shiftl b (8 - r)) 0xFF) j =
    (8 - r <=? j) && Z.testbit b (j - (8 - r))) as H1.
  { intros j Hj. change 0xFF with (Z.ones 8).
    rewrite Z.land_spec, Z.testbit_ones_nonneg, Z.shiftl_spec by lia.
    destruct (Z.leb_spec (8 - r) j); [zcases; by rewrite andb_true_r|].
    by rewrite Z.testbit_neg_r by lia. }
  assert (forall j, 0 <= j < 8 -> Z.testbit (Z.land b (Z.ones r)) j =
    (j <? r) && Z.testbit b j) as H2.
  { intros j Hj. rewrite Z.land_spec, Z.testbit_ones_nonneg by lia. apply andb_comm. }
  unfold byte_count. rewrite !H1, !H2 by lia. clear H1 H2.
  destruct_or! Hc; subst r; const_cmp; lia.
Qed.

Lemma RtlNumberOfSetBits_count bm :
  wf_bitmap bm ->
  RtlNumberOfSetBits bm = Some (count_set (Buffer bm) (Z.to_nat (SizeOfBitMap bm))).
Proof.
  intros [Hsz Hcov Hf]. unfold RtlNumberOfSetBits. cbv zeta.
  pose proof (CountBytes_spec (Buffer bm) (Z.to_nat (SizeOfBitMap bm / 8)) 0 Hf) as E.
  rewrite Z2Nat.id, Z.add_0_l in E by dlia.
  change (count_set (Buffer bm) (Z.to_nat (8 * 0))) with 0 in E.
  rewrite E by dlia. cbn [mbind option_bind]. clear E.
  change 7 with (Z.ones 3). rewrite Z.land_ones by lia. change (2 ^ 3) with 8.
  pose proof (Z.div_mod (SizeOfBitMap bm) 8 ltac:(lia)).
  pose proof (Z.mod_pos_bound (SizeOfBitMap bm) 8 ltac:(lia)).
  destruct (Z.eqb_spec (SizeOfBitMap bm mod 8) 0) as [Er|Er]; cbn [negb].
  - do 3 f_equal. lia.
  - destruct (buffer_byte_bits (Buffer bm) (SizeOfBitMap bm / 8) Hf) as (b & -> & Hb & Hbits);
      [dlia|]. cbn [mbind option_bind].
    assert (0 <= Z.land (Z.shiftl b (8 - SizeOfBitMap bm mod 8)) 0xFF < 256).
    { change 0xFF with (Z.ones 8). rewrite Z.land_ones by lia. apply Z.mod_pos_bound. lia. }
    rewrite BitCountTable_correct by lia. cbn [mbind option_bind].
    rewrite partial_byte_count by lia.
    rewrite <- (count_set_byte _ _ _ (SizeOfBitMap bm mod 8)) by (try done; dlia).
    pose proof (count_set_bounds (Buffer bm) (Z.to_nat (SizeOfBitMap bm))).
    replace (8 * (SizeOfBitMap bm / 8) + SizeOfBitMap bm mod 8) with (SizeOfBitMap bm) by lia.
    rewrite u32_small by lia. done.
Qed.

(** ** Buffers are determined by their bits *)

Lemma buffer_ext buf buf' :
  Forall is_ulong buf -> Forall is_ulong buf' -> length buf = length buf' ->
  (forall i, 0 <= i < 32 * Z.of_nat (length buf) -> getbit buf i = getbit buf' i) ->
  buf = buf'.
Proof.
  intros Hf Hf' Hl Hb. apply list_eq_same_length with (length buf); [done|done|].
  intros k x y Hk Hx Hy.
  pose proof (Forall_lookup_1 _ _ _ _ Hf Hx) as Ux.
  pose proof (Forall_lookup_1 _ _ _ _ Hf' Hy) as Uy.
  apply Z.bits_inj'. intros j Hj. destruct (Z.lt_ge_cases j 32).
  - specialize (Hb (32 * Z.of_nat k + j) ltac:(lia)).
    rewrite !getbit_word, Nat2Z.id in Hb by lia.
    by rewrite (list_lookup_total_correct _ _ _ Hx), (list_lookup_total_correct _ _ _ Hy) in Hb.
  - by rewrite !(testbit_above 32) by (done || lia).
Qed.

Lemma count_set_ext buf buf' n :
  (forall i, 0 <= i < Z.of_nat n -> getbit buf i = getbit buf' i) ->
  count_set buf n = count_set buf' n.
Proof.
  induction n as [|n IH]; intros H; simpl; [done|]. rewrite IH by (intros; apply H; lia).
  by rewrite H by lia.
Qed.

(** Setting [n] clear bits adds [n] to the population count. *)
Lemma count_set_writes buf buf' s k m :
  0 <= s -> all_bits false buf s (s + Z.of_nat k) ->
  (forall i, 0 <= i < Z.of_nat m ->
     getbit buf' i = if (s <=? i) && (i <? s + Z.of_nat k) then true else getbit buf i) ->
  s + Z.of_nat k <= Z.of_nat m ->
  count_set buf' m = count_set buf m + Z.of_nat k.
Proof.
  revert k. induction m as [|m IH]; intros k Hs Hclear Hb Hle; simpl; [lia|].
  assert (forall i, 0 <= i < Z.of_nat m ->
     getbit buf' i = if (s <=? i) && (i <? s + Z.of_nat k) then true else getbit buf i) as Hb'.
  { intros. apply Hb. lia. }
  rewrite (Hb (Z.of_nat m)) by lia.
  destruct (Z.eq_dec (s + Z.of_nat k) (Z.of_nat (S m))) as [E|E].
  - destruct k as [|k].
    + rewrite (count_set_ext buf' buf) by (intros i Hi; rewrite Hb' by lia; zcases; done).
      zcases; simpl; lia.
    + rewrite (IH k); [|lia|intros i Hi; apply Hclear; lia| |lia].
      * rewrite (Hclear (Z.of_nat m)) by lia. zcases; simpl; lia.
      * intros i Hi. rewrite Hb' by lia. zcases; done.
  - rewrite (IH k) by (done || lia). zcases; simpl; lia.
Qed.
