(* ===== verification/BitmapSearch.v ===== *)
(** * Searching bitmaps for runs (sdk/lib/rtl/bitmap.c, second half)

    The functions that look for a run of clear or set bits: from a hint, forward,
    backward, the first, the longest, or an array of them.  Every loop carries fuel;
    a loop that ran out of fuel would return [None], like a faulting access, and the
    theorems state that the result is [Some]. *)

From Stdlib Require Import ZArith Lia Bool Sorted.
From stdpp Require Import base option list numbers.
From S2P Require Import Prelude Bitmap.
Open Scope Z_scope.

(** ** Searching from a hint *)

(** The [while] loop of [RtlFindClearBits]; [Some (Some p)] returns [p] from the
    function, [Some None] leaves the loop. *)
Fixpoint FindClearLoop (fuel : nat) (bm : RTL_BITMAP) (NumberToFind CurrentBit Margin : Z)
    : option (option Z) :=
  if u32 (CurrentBit + NumberToFind) <? Margin then
    match fuel with
    | O => None
    | S fuel' =>
        n ← RtlpGetLengthOfRunSet bm CurrentBit MAXINDEX;
        let CurrentBit := u32 (CurrentBit + n) in
        CurrentLength ← RtlpGetLengthOfRunClear bm CurrentBit NumberToFind;
        if NumberToFind <=? CurrentLength then Some (Some CurrentBit)
        else FindClearLoop fuel' bm NumberToFind (u32 (CurrentBit + CurrentLength)) Margin
    end
  else Some None.

Definition RtlFindClearBits (BitMapHeader : option RTL_BITMAP) (NumberToFind HintIndex : Z)
    : option Z :=
  match BitMapHeader with
  | None => Some MAXINDEX
  | Some bm =>
      if SizeOfBitMap bm <? NumberToFind then Some MAXINDEX else
      let HintIndex := if SizeOfBitMap bm <=? HintIndex then 0 else HintIndex in
      if NumberToFind =? 0 then Some (Z.land HintIndex (not32 7)) else
      let fuel := S (Z.to_nat (SizeOfBitMap bm)) in
      r ← FindClearLoop fuel bm NumberToFind HintIndex (SizeOfBitMap bm);
      match r with
      | Some CurrentBit => Some CurrentBit
      | None =>
          if negb (HintIndex =? 0) then
            let Margin := Z.min (u32 (HintIndex + NumberToFind)) (SizeOfBitMap bm) in
            r ← FindClearLoop fuel bm NumberToFind 0 Margin;
            match r with
            | Some CurrentBit => Some CurrentBit
            | None => Some MAXINDEX
            end
          else Some MAXINDEX
      end
  end.

Fixpoint FindSetLoop (fuel : nat) (bm : RTL_BITMAP) (NumberToFind CurrentBit Margin : Z)
    : option (option Z) :=
  if u32 (CurrentBit + NumberToFind) <=? Margin then
    match fuel with
    | O => None
    | S fuel' =>
        n ← RtlpGetLengthOfRunClear bm CurrentBit MAXINDEX;
        let CurrentBit := u32 (CurrentBit + n) in
        CurrentLength ← RtlpGetLengthOfRunSet bm CurrentBit NumberToFind;
        if NumberToFind <=? CurrentLength then Some (Some CurrentBit)
        else FindSetLoop fuel' bm NumberToFind (u32 (CurrentBit + CurrentLength)) Margin
    end
  else Some None.

Definition RtlFindSetBits (BitMapHeader : option RTL_BITMAP) (NumberToFind HintIndex : Z)
    : option Z :=
  match BitMapHeader with
  | None => Some MAXINDEX
  | Some bm =>
      if SizeOfBitMap bm <? NumberToFind then Some MAXINDEX else
      let HintIndex := if SizeOfBitMap bm <=? HintIndex then 0 else HintIndex in
      if NumberToFind =? 0 then Some (Z.land HintIndex (not32 7)) else
      let fuel := S (Z.to_nat (SizeOfBitMap bm)) in
      r ← FindSetLoop fuel bm NumberToFind HintIndex (SizeOfBitMap bm);
      match r with
      | Some CurrentBit => Some CurrentBit
      | None =>
          if negb (HintIndex =? 0) then
            let Margin := Z.min (u32 (HintIndex + NumberToFind)) (SizeOfBitMap bm) in
            r ← FindSetLoop fuel bm NumberToFind 0 Margin;
            match r with
            | Some CurrentBit => Some CurrentBit
            | None => Some MAXINDEX
            end
          else Some MAXINDEX
      end
  end.

Definition RtlFindClearBitsAndSet (bm : RTL_BITMAP) (NumberToFind HintIndex : Z)
    : option (Z * RTL_BITMAP) :=
  Position ← RtlFindClearBits (Some bm) NumberToFind HintIndex;
  if negb (Position =? MAXINDEX)
  then bm' ← RtlSetBits bm Position NumberToFind; Some (Position, bm')
  else Some (Position, bm).

Definition RtlFindSetBitsAndClear (bm : RTL_BITMAP) (NumberToFind HintIndex : Z)
    : option (Z * RTL_BITMAP) :=
  Position ← RtlFindSetBits (Some bm) NumberToFind HintIndex;
  if negb (Position =? MAXINDEX)
  then bm' ← RtlClearBits bm Position NumberToFind; Some (Position, bm')
  else Some (Position, bm).

(** ** Next and previous runs *)

(** Both return the length and the value stored in [*StartingRunIndex]. *)
Definition RtlFindNextForwardRunClear (bm : RTL_BITMAP) (FromIndex : Z) : option (Z * Z) :=
  if SizeOfBitMap bm <=? FromIndex then Some (0, FromIndex) else
  Length ← RtlpGetLengthOfRunSet bm FromIndex MAXINDEX;
  n ← RtlpGetLengthOfRunClear bm (u32 (FromIndex + Length)) MAXINDEX;
  Some (n, u32 (FromIndex + Length)).

Definition RtlFindNextForwardRunSet (bm : RTL_BITMAP) (FromIndex : Z) : option (Z * Z) :=
  if SizeOfBitMap bm <=? FromIndex then Some (0, FromIndex) else
  Length ← RtlpGetLengthOfRunClear bm FromIndex MAXINDEX;
  n ← RtlpGetLengthOfRunSet bm (u32 (FromIndex + Length)) MAXINDEX;
  Some (n, u32 (FromIndex + Length)).

Definition RtlFindFirstRunClear (bm : RTL_BITMAP) : option (Z * Z) :=
  RtlFindNextForwardRunClear bm 0.

(** The first backward loop: skip the ULONGs without a clear bit.  [Some None] is the
    early [return 0]; [Pos] is [Buffer], one below the ULONG in [InvValue]. *)
Fixpoint BackwardSkipSet (fuel : nat) (buf : list Z) (InvValue Pos : Z)
    : option (option (Z * Z)) :=
  if InvValue =? 0 then
    if Pos <? 0 then Some None else
    match fuel with
    | O => None
    | S fuel' => w ← rd buf Pos; BackwardSkipSet fuel' buf (not32 w) (Pos - 1)
    end
  else Some (Some (InvValue, Pos)).

(** The second backward loop: skip the ULONGs without a set bit. *)
Fixpoint BackwardSkipClear (fuel : nat) (buf : list Z) (Value Pos : Z) : option (Z * Z) :=
  if (Value =? 0) && (0 <=? Pos) then
    match fuel with
    | O => None
    | S fuel' => w ← rd buf Pos; BackwardSkipClear fuel' buf w (Pos - 1)
    end
  else Some (Value, Pos).

(** Returns the length and the new [*StartingRunIndex] ([None] when the function
    returns without storing one). *)
Definition RtlFindLastBackwardRunClear (bm : RTL_BITMAP) (FromIndex : Z)
    : option (Z * option Z) :=
  let FromIndex := Z.min FromIndex (u32 (SizeOfBitMap bm - 1)) in
  let Pos := FromIndex / 32 in
  let BitPos := 31 - Z.land FromIndex 31 in
  w ← rd (Buffer bm) Pos;
  let InvValue := Z.shiftr (u32 (Z.shiftl (not32 w) BitPos)) BitPos in
  r ← BackwardSkipSet (length (Buffer bm)) (Buffer bm) InvValue (Pos - 1);
  match r with
  | None => Some (0, None)
  | Some (InvValue, Pos) =>
      BitPos ← BitScanReverse InvValue;
      let FromIndex := u32 ((Pos + 1) * 32 + BitPos) in
      let Value := Z.shiftr (u32 (Z.shiftl (not32 InvValue) (31 - BitPos))) (31 - BitPos) in
      '(Value, Pos) ← BackwardSkipClear (length (Buffer bm)) (Buffer bm) Value Pos;
      StartingRunIndex ←
        (if negb (Value =? 0)
         then BitPos ← BitScanReverse Value; Some (u32 ((Pos + 1) * 32 + BitPos + 1))
         else Some 0);
      Some (u32 (FromIndex - StartingRunIndex), Some StartingRunIndex)
  end.

(** ** The longest run *)

(** The loop of [RtlFindLongestRunClear] ([next] is [RtlFindNextForwardRunClear]) and of
    [RtlFindLongestRunSet]; returns [MaxNumberOfBits] and [*StartingIndex]. *)
Fixpoint LongestLoop (next : Z -> option (Z * Z)) (fuel : nat)
    (FromIndex MaxNumberOfBits StartingIndex : Z) : option (Z * Z) :=
  match fuel with
  | O => None
  | S fuel' =>
      '(NumberOfBits, Index) ← next FromIndex;
      if NumberOfBits =? 0 then Some (MaxNumberOfBits, StartingIndex)
      else if MaxNumberOfBits <? NumberOfBits
      then LongestLoop next fuel' (u32 (FromIndex + NumberOfBits)) NumberOfBits Index
      else LongestLoop next fuel' (u32 (FromIndex + NumberOfBits)) MaxNumberOfBits StartingIndex
  end.

(** [StartingIndex] is the caller's value of [*StartingIndex]. *)
Definition RtlFindLongestRunClear (bm : RTL_BITMAP) (StartingIndex : Z) : option (Z * Z) :=
  LongestLoop (RtlFindNextForwardRunClear bm) (S (Z.to_nat (SizeOfBitMap bm))) 0 0 StartingIndex.

Definition RtlFindLongestRunSet (bm : RTL_BITMAP) (StartingIndex : Z) : option (Z * Z) :=
  LongestLoop (RtlFindNextForwardRunSet bm) (S (Z.to_nat (SizeOfBitMap bm))) 0 0 StartingIndex.

(** ** Arrays of runs *)

Record RTL_BITMAP_RUN := mkRun { StartingIndex : Z; NumberOfBits : Z }.

(** The first loop of [RtlFindClearRuns]; [left] is [SizeOfRunArray - Run]. *)
Fixpoint FillRuns (bm : RTL_BITMAP) (left : nat) (Run : Z) (RunArray : list RTL_BITMAP_RUN)
    (FromIndex SmallestRun : Z) : option (Z * list RTL_BITMAP_RUN * Z * Z) :=
  match left with
  | O => Some (Run, RunArray, FromIndex, SmallestRun)
  | S left' =>
      '(n, s) ← RtlFindNextForwardRunClear bm FromIndex;
      if n =? 0 then Some (Run, RunArray, FromIndex, SmallestRun) else
      RunArray ← wr RunArray Run (mkRun s n);
      small ← rd RunArray SmallestRun;
      FillRuns bm left' (Run + 1) RunArray (u32 (s + n))
        (if n <? NumberOfBits small then Run else SmallestRun)
  end.

(** The inner [for] loop that looks for the new smallest run. *)
Fixpoint NewSmallest (left : nat) (n Run SmallestRun : Z) (RunArray : list RTL_BITMAP_RUN)
    : option Z :=
  match left with
  | O => Some SmallestRun
  | S left' =>
      small ← rd RunArray SmallestRun;
      NewSmallest left' n (Run + 1)
        (if n <? NumberOfBits small then Run else SmallestRun) RunArray
  end.

(** The [while (1)] loop; returns [Run] and the array. *)
Fixpoint ReplaceRuns (fuel : nat) (bm : RTL_BITMAP) (SizeOfRunArray Run : Z)
    (RunArray : list RTL_BITMAP_RUN) (FromIndex SmallestRun : Z)
    : option (Z * list RTL_BITMAP_RUN) :=
  match fuel with
  | O => None
  | S fuel' =>
      '(n, s) ← RtlFindNextForwardRunClear bm FromIndex;
      if n =? 0 then Some (Run, RunArray) else
      small ← rd RunArray SmallestRun;
      if NumberOfBits small <? n then
        RunArray ← wr RunArray SmallestRun (mkRun s n);
        SmallestRun ← NewSmallest (Z.to_nat SizeOfRunArray) n 0 SmallestRun RunArray;
        ReplaceRuns fuel' bm SizeOfRunArray SizeOfRunArray RunArray (u32 (FromIndex + n)) SmallestRun
      else ReplaceRuns fuel' bm SizeOfRunArray Run RunArray (u32 (FromIndex + n)) SmallestRun
  end.

Definition RtlFindClearRuns (bm : RTL_BITMAP) (RunArray : list RTL_BITMAP_RUN)
    (SizeOfRunArray : Z) (LocateLongestRuns : bool) : option (Z * list RTL_BITMAP_RUN) :=
  '(Run, RunArray, FromIndex, SmallestRun) ←
    FillRuns bm (Z.to_nat SizeOfRunArray) 0 RunArray 0 0;
  if (Run <? SizeOfRunArray) || negb LocateLongestRuns then Some (Run, RunArray)
  else ReplaceRuns (S (Z.to_nat (SizeOfBitMap bm))) bm SizeOfRunArray Run RunArray
         FromIndex SmallestRun.

(** The cases of the repository's own test of the search (apitests/ntdll/RtlBitmap.c). *)
Definition test_buffer : list Z := [0x060F874D; 0x3F303F30].

Example test_find_clear_8 :
  map (fun '(n, h) => RtlFindClearBits (Some (RtlInitializeBitMap test_buffer 8)) n h)
    [(0, 3); (1, 0); (1, 1); (1, 2); (2, 0); (3, 0)]
  = map Some [0; 1; 1; 4; 4; MAXINDEX].
Proof. vm_compute. reflexivity. Qed.

Example test_find_clear_32 :
  map (fun '(n, h) => RtlFindClearBits (Some (RtlInitializeBitMap test_buffer 32)) n h)
    [(0, 3); (0, 21); (0, 12); (0, 31); (0, 32); (0, 39); (4, 0); (5, 0); (4, 11); (4, 12);
     (2, 11); (2, 12); (1, 32); (4, 32); (5, 32)]
  = map Some [0; 16; 8; 24; 0; 0; 11; 20; 11; 20; 11; 12; 1; 11; 20].
Proof. vm_compute. reflexivity. Qed.

Example test_find_clear_64 :
  map (fun '(n, h) => RtlFindClearBits (Some (RtlInitializeBitMap test_buffer 64)) n h)
    [(5, 64); (9, 28); (10, 0)]
  = map Some [20; 27; MAXINDEX].
Proof. vm_compute. reflexivity. Qed.

(** ** The search loop *)

(** The loop of the two hinted searches: [cmp] is the loop's comparison, [skip] and
    [len] its two run-length calls. *)
Fixpoint FindLoop (cmp : Z -> Z -> bool) (skip len : Z -> Z -> option Z) (fuel : nat)
    (N Cur Margin : Z) : option (option Z) :=
  if cmp (u32 (Cur + N)) Margin then
    match fuel with
    | O => None
    | S fuel' =>
        n ← skip Cur MAXINDEX;
        l ← len (u32 (Cur + n)) N;
        if N <=? l then Some (Some (u32 (Cur + n)))
        else FindLoop cmp skip len fuel' N (u32 (u32 (Cur + n) + l)) Margin
    end
  else Some None.

Lemma FindLoop_clear bm fuel N Cur Margin :
  FindClearLoop fuel bm N Cur Margin =
  FindLoop Z.ltb (RtlpGetLengthOfRunSet bm) (RtlpGetLengthOfRunClear bm) fuel N Cur Margin.
Proof.
  revert Cur. induction fuel as [|fuel IH]; intros Cur; simpl; [done|].
  destruct (_ <? _); [|done]. destruct (RtlpGetLengthOfRunSet _ _ _); [|done]. simpl.
  destruct (RtlpGetLengthOfRunClear _ _ _); [|done]. simpl. by rewrite IH.
Qed.

Lemma FindLoop_set bm fuel N Cur Margin :
  FindSetLoop fuel bm N Cur Margin =
  FindLoop Z.leb (RtlpGetLengthOfRunClear bm) (RtlpGetLengthOfRunSet bm) fuel N Cur Margin.
Proof.
  revert Cur. induction fuel as [|fuel IH]; intros Cur; simpl; [done|].
  destruct (_ <=? _); [|done]. destruct (RtlpGetLengthOfRunClear _ _ _); [|done]. simpl.
  destruct (RtlpGetLengthOfRunSet _ _ _); [|done]. simpl. by rewrite IH.
Qed.

(** [N] bits of value [v] start at [q], inside the bitmap. *)
Definition fits (v : bool) (bm : RTL_BITMAP) (N q : Z) : Prop :=
  q + N <= SizeOfBitMap bm /\ all_bits v (Buffer bm) q (q + N).

(** A run-length operation for bits of value [v]. *)
Definition run_function (v : bool) (bm : RTL_BITMAP) (f : Z -> Z -> option Z) : Prop :=
  forall s max, 0 <= s -> 0 <= max -> exists r, f s max = Some r /\ run_length v bm s max r.

Lemma clear_run_function bm :
  scannable bm -> run_function false bm (RtlpGetLengthOfRunClear bm).
Proof. intros H s max ? ?. by apply RtlpGetLengthOfRunClear_run. Qed.

Lemma set_run_function bm :
  scannable bm -> run_function true bm (RtlpGetLengthOfRunSet bm).
Proof. intros H s max ? ?. by apply RtlpGetLengthOfRunSet_run. Qed.

#[export] Hint Resolve clear_run_function set_run_function : nt.

Lemma fits_start v bm N q : 0 < N -> fits v bm N q -> getbit (Buffer bm) q = v.
Proof. intros HN [_ H]. apply H. lia. Qed.

(** Skipping a run of the other value loses no candidate. *)
Lemma skip_no_fit v bm N Cur max n q :
  0 < N -> run_length (negb v) bm Cur max n -> Cur <= q < Cur + n -> ~ fits v bm N q.
Proof.
  intros HN [_ _ Hb _] Hq Hfit. apply fits_start in Hfit; [|done].
  rewrite Hb in Hfit by lia. by destruct v.
Qed.

(** A run shorter than [N] contains no candidate. *)
Lemma short_no_fit v bm N Cur l q :
  0 < N -> run_length v bm Cur N l -> l < N -> Cur <= q < Cur + l -> ~ fits v bm N q.
Proof.
  intros HN [_ Hin _ Hmax] Hl Hq [Hsz Hall].
  specialize (Hmax ltac:(lia) Hl). rewrite Hall in Hmax by lia. by destruct v.
Qed.

Section FindLoop.
Variables (v : bool) (bm : RTL_BITMAP) (cmp : Z -> Z -> bool) (skip len : Z -> Z -> option Z).
Hypothesis Hscan : scannable bm.
Hypothesis Hskip : run_function (negb v) bm skip.
Hypothesis Hlen : run_function v bm len.
Hypothesis Hcmp : forall a b m, a <= b -> cmp b m = true -> cmp a m = true.
Hypothesis Hcmp_le : forall a m, cmp a m = true -> a <= m.
Hypothesis Hcmp_min : forall a m m', cmp a m = true -> a < m' -> cmp a (Z.min m' m) = true.

(** The loop stops, at the first fit from [Cur] on, or when no fit from [Cur] on
    satisfies the loop's comparison. *)
Lemma FindLoop_first_fit N Margin fuel Cur :
  0 < N -> SizeOfBitMap bm + N < 2 ^ 32 -> Margin <= SizeOfBitMap bm ->
  0 <= Cur <= SizeOfBitMap bm -> SizeOfBitMap bm - Cur < Z.of_nat fuel ->
  exists o, FindLoop cmp skip len fuel N Cur Margin = Some o /\
    match o with
    | Some p => Cur <= p /\ fits v bm N p /\ forall q, Cur <= q < p -> ~ fits v bm N q
    | None => forall q, Cur <= q -> cmp (q + N) Margin = true -> ~ fits v bm N q
    end.
Proof.
  intros HN Hnw HM. revert Cur.
  induction fuel as [|fuel IH]; intros Cur HC Hfuel; [lia|]. cbn [FindLoop].
  rewrite (u32_small (Cur + N)) by lia.
  destruct (cmp (Cur + N) Margin) eqn:Ec.
  2: { eexists; split; [done|]. intros q Hq Hc.
       rewrite (Hcmp (Cur + N) (q + N)) in Ec by (lia || done). done. }
  apply Hcmp_le in Ec.
  destruct (Hskip Cur MAXINDEX) as (n & -> & Hn); [lia|done|]. cbn [mbind option_bind].
  pose proof (run_nonneg _ _ _ _ _ Hn). pose proof (run_inside _ _ _ _ _ Hn).
  rewrite (u32_small (Cur + n)) by lia.
  destruct (Hlen (Cur + n) N) as (l & -> & Hl); [lia|lia|]. cbn [mbind option_bind].
  pose proof (run_nonneg _ _ _ _ _ Hl). pose proof (run_inside _ _ _ _ _ Hl).
  destruct (Z.leb_spec N l).
  - eexists; split; [done|]. split_and!; [lia| |].
    + split; [lia|]. intros i Hi. apply (run_bits _ _ _ _ _ Hl). lia.
    + intros q Hq. eapply skip_no_fit; [done|exact Hn|lia].
  - rewrite (u32_small (Cur + n + l)) by lia.
    assert (Cur < Cur + n + l) as Hprog.
    { destruct (decide (n = 0 /\ l = 0)) as [[-> ->]|]; [exfalso|lia].
      pose proof (run_maximal _ _ _ _ _ Hn ltac:(lia) ltac:(done)) as E1.
      pose proof (run_maximal _ _ _ _ _ Hl ltac:(lia) ltac:(lia)) as E2.
      rewrite !Z.add_0_r in *. rewrite E1 in E2. by destruct v. }
    destruct (IH (Cur + n + l)) as (o & -> & Ho); [lia|lia|].
    eexists; split; [done|].
    assert (forall q, Cur <= q < Cur + n + l -> ~ fits v bm N q) as Hno.
    { intros q Hq. destruct (Z.lt_ge_cases q (Cur + n)).
      - eapply skip_no_fit; [done|exact Hn|lia].
      - eapply short_no_fit; [done|exact Hl|done|lia]. }
    destruct o as [p|].
    + destruct Ho as (? & ? & Hfirst). split_and!; [lia|done|].
      intros q Hq. destruct (Z.lt_ge_cases q (Cur + n + l)); [apply Hno|apply Hfirst]; lia.
    + intros q Hq Hc. destruct (Z.lt_ge_cases q (Cur + n + l)); [apply Hno|apply Ho]; lia || done.
Qed.

(** The whole hinted search for [N > 0] bits, as the two functions compose it. *)
Definition HintedFind (N h : Z) : option Z :=
  if SizeOfBitMap bm <? N then Some MAXINDEX else
  let h := if SizeOfBitMap bm <=? h then 0 else h in
  let fuel := S (Z.to_nat (SizeOfBitMap bm)) in
  r ← FindLoop cmp skip len fuel N h (SizeOfBitMap bm);
  match r with
  | Some p => Some p
  | None =>
      if negb (h =? 0) then
        r ← FindLoop cmp skip len fuel N 0 (Z.min (u32 (h + N)) (SizeOfBitMap bm));
        match r with Some p => Some p | None => Some MAXINDEX end
      else Some MAXINDEX
  end.

Lemma HintedFind_spec N h :
  0 < N -> SizeOfBitMap bm + N < 2 ^ 32 -> 0 <= h ->
  exists p, HintedFind N h = Some p /\
    ((0 <= p /\ fits v bm N p /\
      ((exists q, h <= q /\ cmp (q + N) (SizeOfBitMap bm) = true /\ fits v bm N q) ->
       h <= p /\ forall q, h <= q < p -> ~ fits v bm N q)) \/
     (p = MAXINDEX /\
      forall q, 0 <= q -> cmp (q + N) (SizeOfBitMap bm) = true -> ~ fits v bm N q)).
Proof.
  intros HN Hnw Hh. unfold HintedFind. cbv zeta.
  pose proof (wf_size _ (proj1 Hscan)) as Hsz.
  destruct (Z.ltb_spec (SizeOfBitMap bm) N).
  { eexists; split; [done|]. right. split; [done|]. intros q Hq _ [? _]. lia. }
  set (h' := if SizeOfBitMap bm <=? h then 0 else h).
  assert (0 <= h' < SizeOfBitMap bm /\ (h' = h \/ SizeOfBitMap bm <= h)) as [Hh' Hhh].
  { unfold h'. zcases; lia. }
  clearbody h'.
  destruct (FindLoop_first_fit N (SizeOfBitMap bm) (S (Z.to_nat (SizeOfBitMap bm))) h')
    as (o1 & -> & H1); [lia..|]. cbn [mbind option_bind].
  destruct o1 as [p|].
  { destruct H1 as (? & ? & Hfirst). eexists; split; [done|]. left. split_and!; [lia|done|].
    intros (q & Hq & _ & [Hin _]). destruct Hhh as [<-|]; [done|lia]. }
  destruct (Z.eqb_spec h' 0) as [E|E]; cbn [negb].
  { eexists; split; [done|]. right. split; [done|]. intros q Hq Hc. apply H1; [lia|done]. }
  rewrite (u32_small (h' + N)) by lia.
  destruct (FindLoop_first_fit N (Z.min (h' + N) (SizeOfBitMap bm))
    (S (Z.to_nat (SizeOfBitMap bm))) 0) as (o2 & -> & H2); [lia..|].
  cbn [mbind option_bind]. destruct o2 as [p|]; eexists; (split; [done|]).
  - destruct H2 as (? & ? & Hfirst). left. split_and!; [lia|done|].
    intros (q & Hq & Hc & Hfit). exfalso. destruct Hhh as [<-|].
    + by apply (H1 q).
    + destruct Hfit. lia.
  - right. split; [done|]. intros q Hq Hc. destruct (Z.lt_ge_cases q h').
    + apply H2; [lia|]. apply Hcmp_min; [done|lia].
    + apply H1; [lia|done].
Qed.

End FindLoop.

Lemma RtlFindClearBits_hinted bm N h :
  0 < N -> RtlFindClearBits (Some bm) N h =
  HintedFind bm Z.ltb (RtlpGetLengthOfRunSet bm) (RtlpGetLengthOfRunClear bm) N h.
Proof.
  intros HN. unfold RtlFindClearBits, HintedFind. destruct (SizeOfBitMap bm <? N); [done|].
  cbv zeta. destruct (Z.eqb_spec N 0); [lia|]. by rewrite !FindLoop_clear.
Qed.

Lemma RtlFindSetBits_hinted bm N h :
  0 < N -> RtlFindSetBits (Some bm) N h =
  HintedFind bm Z.leb (RtlpGetLengthOfRunClear bm) (RtlpGetLengthOfRunSet bm) N h.
Proof.
  intros HN. unfold RtlFindSetBits, HintedFind. destruct (SizeOfBitMap bm <? N); [done|].
  cbv zeta. destruct (Z.eqb_spec N 0); [lia|]. by rewrite !FindLoop_set.
Qed.

Lemma RtlFindClearBits_spec bm N h :
  scannable bm -> 0 < N -> SizeOfBitMap bm + N < 2 ^ 32 -> 0 <= h ->
  exists p, RtlFindClearBits (Some bm) N h = Some p /\
    ((0 <= p /\ fits false bm N p /\
      ((exists q, h <= q /\ q + N < SizeOfBitMap bm /\ fits false bm N q) ->
       h <= p /\ forall q, h <= q < p -> ~ fits false bm N q)) \/
     (p = MAXINDEX /\ forall q, 0 <= q -> q + N < SizeOfBitMap bm -> ~ fits false bm N q)).
Proof.
  intros Hs HN Hnw Hh. rewrite RtlFindClearBits_hinted by done.
  destruct (HintedFind_spec false bm Z.ltb (RtlpGetLengthOfRunSet bm)
    (RtlpGetLengthOfRunClear bm) Hs) with (N := N) (h := h) as (p & E & H); eauto with nt;
    try (intros; rewrite Z.ltb_lt in *; lia).
  setoid_rewrite Z.ltb_lt in H. eauto.
Qed.

Lemma RtlFindSetBits_spec bm N h :
  scannable bm -> 0 < N -> SizeOfBitMap bm + N < 2 ^ 32 -> 0 <= h ->
  exists p, RtlFindSetBits (Some bm) N h = Some p /\
    ((0 <= p /\ fits true bm N p /\
      ((exists q, h <= q /\ fits true bm N q) ->
       h <= p /\ forall q, h <= q < p -> ~ fits true bm N q)) \/
     (p = MAXINDEX /\ forall q, 0 <= q -> ~ fits true bm N q)).
Proof.
  intros Hs HN Hnw Hh. rewrite RtlFindSetBits_hinted by done.
  destruct (HintedFind_spec true bm Z.leb (RtlpGetLengthOfRunClear bm)
    (RtlpGetLengthOfRunSet bm) Hs) with (N := N) (h := h) as (p & E & H); eauto with nt;
    try (intros; rewrite Z.leb_le in *; lia).
  setoid_rewrite Z.leb_le in H. exists p. split; [done|].
  destruct H as [(? & ? & H)|[-> H]]; [left|right]; (split_and!; try done).
  - intros (q & Hq & Hf). apply H. exists q. split_and!; try done. apply Hf.
  - intros q Hq Hf. eapply H; eauto. apply Hf.
Qed.

(** ** The next run *)

(** The next run of bits [v] from [from] on starts at [s] and has [n] bits; [n = 0]
    when there is none. *)
Record next_run (v : bool) (bm : RTL_BITMAP) (from n s : Z) : Prop := {
  next_from : from <= s;
  next_len : 0 <= n;
  next_inside : s + n <= Z.max from (SizeOfBitMap bm);
  next_skipped : all_bits (negb v) (Buffer bm) from (Z.min s (SizeOfBitMap bm));
  next_bits : all_bits v (Buffer bm) s (s + n);
  next_found : s < SizeOfBitMap bm -> 0 < n;
  next_end : s + n < SizeOfBitMap bm -> getbit (Buffer bm) (s + n) = negb v
}.

(** The text shared by the two forward searches. *)
Definition NextRun (bm : RTL_BITMAP) (skip len : Z -> Z -> option Z) (FromIndex : Z)
    : option (Z * Z) :=
  if SizeOfBitMap bm <=? FromIndex then Some (0, FromIndex) else
  Length ← skip FromIndex MAXINDEX;
  n ← len (u32 (FromIndex + Length)) MAXINDEX;
  Some (n, u32 (FromIndex + Length)).

Lemma NextRun_spec v bm skip len from :
  scannable bm -> run_function (negb v) bm skip -> run_function v bm len -> 0 <= from ->
  exists n s, NextRun bm skip len from = Some (n, s) /\ next_run v bm from n s.
Proof.
  intros Hs Hskip Hlen Hf. pose proof (wf_size _ (proj1 Hs)). pose proof (proj2 Hs).
  unfold NextRun. destruct (Z.leb_spec (SizeOfBitMap bm) from).
  { eexists _, _; split; [done|]. split; try lia; intros i Hi; lia. }
  destruct (Hskip from MAXINDEX) as (k & -> & [R1 R2 R3 R4]); [lia|done|].
  cbn [mbind option_bind]. rewrite (u32_small (from + k)) by lia.
  destruct (Hlen (from + k) MAXINDEX) as (n & -> & [R5 R6 R7 R8]); [lia|done|].
  cbn [mbind option_bind]. eexists _, _; split; [done|].
  assert (k < MAXINDEX /\ n < MAXINDEX) by (unfold MAXINDEX; lia).
  split; try lia.
  - intros i Hi. apply R3. lia.
  - exact R7.
  - intros Hlt. destruct (decide (n = 0)) as [->|]; [exfalso|lia].
    rewrite Z.add_0_r in R8. rewrite R4 in R8 by lia.
    specialize (R8 ltac:(lia) ltac:(lia)). by destruct v.
  - intros Hlt. apply R8; lia.
Qed.

Lemma RtlFindNextForwardRunClear_next bm from :
  scannable bm -> 0 <= from ->
  exists n s, RtlFindNextForwardRunClear bm from = Some (n, s) /\ next_run false bm from n s.
Proof.
  intros. apply (NextRun_spec false bm (RtlpGetLengthOfRunSet bm) (RtlpGetLengthOfRunClear bm));
    auto with nt.
Qed.

Lemma RtlFindNextForwardRunSet_next bm from :
  scannable bm -> 0 <= from ->
  exists n s, RtlFindNextForwardRunSet bm from = Some (n, s) /\ next_run true bm from n s.
Proof.
  intros. apply (NextRun_spec true bm (RtlpGetLengthOfRunClear bm) (RtlpGetLengthOfRunSet bm));
    auto with nt.
Qed.

(** Before the run there is no fit; inside it a fit is no longer than the run. *)
Lemma next_run_bounds_fits v bm from n s q L :
  next_run v bm from n s -> 0 < L -> from <= q -> fits v bm L q ->
  s <= q /\ (q < s + n -> q + L <= s + n) /\ s < SizeOfBitMap bm.
Proof.
  intros [R1 R2 R3 R4 R5 R6 R7] HL Hq Hfit. pose proof (fits_start _ _ _ _ HL Hfit) as Hb.
  destruct Hfit as [Hin Hall].
  assert (s <= q) as Hsq.
  { destruct (Z.lt_ge_cases q s); [|done]. rewrite R4 in Hb by lia. by destruct v. }
  split_and!; [done| |lia]. intros Hqn. destruct (Z.le_gt_cases (q + L) (s + n)); [done|].
  rewrite Hall in R7 by lia. specialize (R7 ltac:(lia)). by destruct v.
Qed.

(** ** The longest run *)

(** [(m, i)] is the longest run of bits [v], the first one of that length; when the
    bitmap has no such bit, [m] is 0 and [i] is the caller's [i0]. *)
Definition longest_run (v : bool) (bm : RTL_BITMAP) (i0 m i : Z) : Prop :=
  (forall q L, 0 <= q -> fits v bm L q -> L <= m) /\
  ((m = 0 /\ i = i0) \/
   (0 < m /\ 0 <= i /\ fits v bm m i /\ forall q, 0 <= q -> fits v bm m q -> i <= q)).

Lemma LongestLoop_spec v bm next i0 fuel from m i :
  (forall from, 0 <= from ->
     exists n s, next from = Some (n, s) /\ next_run v bm from n s) ->
  SizeOfBitMap bm < 2 ^ 32 ->
  0 <= from <= SizeOfBitMap bm -> SizeOfBitMap bm - from < Z.of_nat fuel -> 0 <= m ->
  (forall q L, 0 <= q < from -> fits v bm L q -> L <= m) ->
  ((m = 0 /\ i = i0) \/
   (0 < m /\ 0 <= i /\ fits v bm m i /\ forall q, 0 <= q -> fits v bm m q -> i <= q)) ->
  exists m' i', LongestLoop next fuel from m i = Some (m', i') /\ longest_run v bm i0 m' i'.
Proof.
  intros Hnext Hsz. revert from m i.
  induction fuel as [|fuel IH]; intros from m i Hf Hfuel Hm Hold Hcur; [lia|].
  cbn [LongestLoop]. destruct (Hnext from) as (n & s & -> & Hn); [lia|].
  cbn [mbind option_bind]. pose proof (next_run_bounds_fits v bm from n s) as Hfits.
  destruct Hn as [R1 R2 R3 R4 R5 R6 R7] eqn:En. clear En.
  destruct (Z.eqb_spec n 0) as [->|Hn0].
  { eexists _, _; split; [done|]. split; [|done]. intros q L Hq Hfit.
    destruct (Z.lt_ge_cases q from); [by apply (Hold q); [lia|]|].
    destruct (Z.le_gt_cases L 0); [lia|].
    destruct (Hfits q L Hn) as (_ & _ & ?); [lia..|done|]. specialize (R6 ltac:(lia)). lia. }
  assert (s + n <= SizeOfBitMap bm) by lia. rewrite u32_small by lia.
  assert (forall q L, 0 <= q < from + n -> fits v bm L q -> L <= Z.max m n) as Hold'.
  { intros q L Hq Hfit. destruct (Z.lt_ge_cases q from).
    { specialize (Hold q L ltac:(lia) Hfit). lia. }
    destruct (Z.le_gt_cases L 0); [lia|].
    destruct (Hfits q L Hn) as (? & Hend & _); [lia..|done|]. specialize (Hend ltac:(lia)). lia. }
  destruct (Z.ltb_spec m n) as [Hlt|Hge].
  - apply IH; [lia|lia|lia| |].
    + intros q L Hq Hfit. specialize (Hold' q L Hq Hfit). lia.
    + right. split_and!; [lia|lia|by split|].
      intros q Hq Hfit. destruct (Z.lt_ge_cases q from).
      { specialize (Hold q n ltac:(lia) Hfit). lia. }
      destruct (Hfits q n Hn) as (? & _); [lia..|done|done].
  - apply IH; [lia|lia|lia| |done].
    intros q L Hq Hfit. specialize (Hold' q L Hq Hfit). lia.
Qed.

Lemma RtlFindLongestRunClear_longest bm i0 :
  scannable bm ->
  exists m i, RtlFindLongestRunClear bm i0 = Some (m, i) /\ longest_run false bm i0 m i.
Proof.
  intros Hs. pose proof (wf_size _ (proj1 Hs)).
  apply LongestLoop_spec; [intros; by apply RtlFindNextForwardRunClear_next|lia|lia|lia|lia| |by left].
  intros q L Hq. lia.
Qed.

Lemma RtlFindLongestRunSet_longest bm i0 :
  scannable bm ->
  exists m i, RtlFindLongestRunSet bm i0 = Some (m, i) /\ longest_run true bm i0 m i.
Proof.
  intros Hs. pose proof (wf_size _ (proj1 Hs)).
  apply LongestLoop_spec; [intros; by apply RtlFindNextForwardRunSet_next|lia|lia|lia|lia| |by left].
  intros q L Hq. lia.
Qed.

(** ** The last run before an index *)

(** The invariant of the backward scans from [F]: every bit after the last ULONG read
    (number [Pos + 1]) up to [F] has the value [v], and [Value] marks the bits of that
    ULONG, up to [F], that differ. *)
Definition back_window (v : bool) (buf : list Z) (F Value Pos : Z) : Prop :=
  is_ulong Value /\ all_bits v buf (32 * (Pos + 2)) (F + 1) /\
  forall j, 0 <= j < 32 -> Z.testbit Value j =
    (32 * (Pos + 1) + j <=? F) && xorb v (getbit buf (32 * (Pos + 1) + j)).

Lemma back_window_zero v buf F Pos :
  back_window v buf F 0 Pos -> all_bits v buf (32 * (Pos + 1)) (F + 1).
Proof.
  intros (_ & Hall & Hb) i Hi. destruct (Z.lt_ge_cases i (32 * (Pos + 2))); [|apply Hall; lia].
  specialize (Hb (i - 32 * (Pos + 1)) ltac:(lia)). rewrite Z.bits_0 in Hb.
  replace (32 * (Pos + 1) + (i - 32 * (Pos + 1))) with i in Hb by lia.
  destruct (Z.leb_spec i F); [|lia]. by destruct v, (getbit buf i).
Qed.

Lemma back_window_last v buf F Value Pos p :
  back_window v buf F Value Pos -> 0 <= p -> Z.testbit Value p = true ->
  (forall j, p < j -> Z.testbit Value j = false) ->
  p < 32 /\ 32 * (Pos + 1) + p <= F /\ getbit buf (32 * (Pos + 1) + p) = negb v /\
  all_bits v buf (32 * (Pos + 1) + p + 1) (F + 1).
Proof.
  intros (Hu & Hall & Hb) Hp Ht Hhigh.
  assert (p < 32) as Hp32 by (eapply testbit_true_lt; [|exact Hu|done]; lia).
  pose proof (Hb p ltac:(lia)) as Hbp. rewrite Ht in Hbp. symmetry in Hbp.
  apply andb_true_iff in Hbp as [Hs Hx]. apply Z.leb_le in Hs.
  split_and!; [done|done|by destruct v, (getbit buf _)|].
  intros i Hi. destruct (Z.lt_ge_cases i (32 * (Pos + 2))); [|apply Hall; lia].
  specialize (Hb (i - 32 * (Pos + 1)) ltac:(lia)). rewrite Hhigh in Hb by lia.
  replace (32 * (Pos + 1) + (i - 32 * (Pos + 1))) with i in Hb by lia.
  destruct (Z.leb_spec i F); [|lia]. by destruct v, (getbit buf i).
Qed.

Lemma back_window_step f v buf F Pos :
  marks f v -> Forall is_ulong buf -> 0 <= Pos < Z.of_nat (length buf) ->
  32 * (Pos + 1) <= F -> back_window v buf F 0 Pos ->
  exists w, rd buf Pos = Some w /\ back_window v buf F (f w) (Pos - 1).
Proof.
  intros Hf Hw HP HF Hwin. destruct (word_in_range buf Pos Hw HP) as [Hr Hu].
  eexists; split; [done|]. destruct (Hf _ Hu) as [Hfu Hfb].
  split_and!; [done| |].
  - replace (Pos - 1 + 2) with (Pos + 1) by lia. by apply back_window_zero.
  - intros j Hj. replace (Pos - 1 + 1) with Pos by lia. rewrite Hfb, getbit_word by lia.
    destruct (Z.leb_spec (32 * Pos + j) F); [done|lia].
Qed.

Lemma BackwardSkipSet_spec buf F fuel V Pos :
  Forall is_ulong buf -> -1 <= Pos < Z.of_nat (length buf) -> Pos < Z.of_nat fuel ->
  32 * (Pos + 1) <= F -> back_window true buf F V Pos ->
  exists r, BackwardSkipSet fuel buf V Pos = Some r /\
    match r with
    | None => all_bits true buf 0 (F + 1)
    | Some (V', P) => V' <> 0 /\ -1 <= P <= Pos /\ back_window true buf F V' P
    end.
Proof.
  intros Hw. revert V Pos. induction fuel as [|fuel IH]; intros V Pos HP Hfu HF Hwin;
    cbn [BackwardSkipSet]; destruct (Z.eqb_spec V 0) as [->|Hv].
  - destruct (Z.ltb_spec Pos 0); [|lia]. eexists; split; [done|].
    apply back_window_zero in Hwin. by replace Pos with (-1) in Hwin by lia.
  - eexists; split; [done|]. split_and!; [done|lia|lia|done].
  - destruct (Z.ltb_spec Pos 0).
    + eexists; split; [done|].
      apply back_window_zero in Hwin. by replace Pos with (-1) in Hwin by lia.
    + destruct (back_window_step not32 true buf F Pos) as (w & -> & Hwin'); auto with nt lia.
      cbn [mbind option_bind].
      destruct (IH (not32 w) (Pos - 1)) as (r & -> & Hr); [lia..|done|].
      eexists; split; [done|]. destruct r as [[V' P]|]; [|done].
      destruct Hr as (? & ? & ?). split_and!; [done|lia|lia|done].
  - eexists; split; [done|]. split_and!; [done|lia|lia|done].
Qed.

Lemma BackwardSkipClear_spec buf F fuel V Pos :
  Forall is_ulong buf -> -1 <= Pos < Z.of_nat (length buf) -> Pos < Z.of_nat fuel ->
  32 * (Pos + 1) <= F -> back_window false buf F V Pos ->
  exists V' P, BackwardSkipClear fuel buf V Pos = Some (V', P) /\
    -1 <= P <= Pos /\ back_window false buf F V' P /\ (V' = 0 -> P = -1).
Proof.
  intros Hw. revert V Pos. induction fuel as [|fuel IH]; intros V Pos HP Hfu HF Hwin;
    cbn [BackwardSkipClear]; destruct (Z.eqb_spec V 0) as [->|Hv], (Z.leb_spec 0 Pos);
    cbn [andb]; try lia; try (eexists _, _; split_and!; [done|lia|lia|done|lia]).
  destruct (back_window_step (fun w => w) false buf F Pos) as (w & -> & Hwin');
    auto with nt lia. cbn [mbind option_bind].
  destruct (IH w (Pos - 1)) as (V' & P & -> & ? & ? & ?); [lia..|done|].
  eexists _, _; split_and!; [done|lia|lia|done|done].
Qed.

Lemma keep_low_bits x k j :
  is_ulong x -> 0 <= k < 32 -> 0 <= j < 32 ->
  Z.testbit (Z.shiftr (u32 (Z.shiftl x k)) k) j = (j <=? 31 - k) && Z.testbit x j.
Proof.
  intros Hx Hk Hj. rewrite Z.shiftr_spec, testbit_u32, Z.shiftl_spec by lia.
  replace (j + k - k) with j by lia. zcases; done.
Qed.

Lemma keep_low_range x k : 0 <= k -> is_ulong (Z.shiftr (u32 (Z.shiftl x k)) k).
Proof.
  intros Hk. pose proof (u32_range (Z.shiftl x k)) as Hr. unfold is_ulong.
  rewrite Z.shiftr_div_pow2 by lia. split; [apply Z.div_pos; lia|].
  apply Z.div_lt_upper_bound; [lia|]. nia.
Qed.

(** [e] is the last clear bit up to [F] and [s] the start of the run it ends. *)
Definition last_clear_run (bm : RTL_BITMAP) (F s e : Z) : Prop :=
  0 <= s <= e /\ e <= F /\ all_bits true (Buffer bm) (e + 1) (F + 1) /\
  all_bits false (Buffer bm) s (e + 1) /\ (s <> 0 -> getbit (Buffer bm) (s - 1) = true).

Lemma back_first buf F :
  Forall is_ulong buf -> 0 <= F < 32 * Z.of_nat (length buf) ->
  exists w, rd buf (F / 32) = Some w /\
    back_window true buf F
      (Z.shiftr (u32 (Z.shiftl (not32 w) (31 - F mod 32))) (31 - F mod 32)) (F / 32 - 1).
Proof.
  intros Hw HF. destruct (word_in_range buf (F / 32) Hw) as [Hr Hu]; [dlia|].
  eexists; split; [done|].
  pose proof (mod32_range F). pose proof (Z.div_mod F 32 ltac:(lia)).
  destruct (marks_not32 _ Hu) as [Hnu Hnb].
  split_and!; [apply keep_low_range; lia|intros i Hi; lia|].
  intros j Hj. rewrite keep_low_bits, Hnb by (done || lia).
  replace (F / 32 - 1 + 1) with (F / 32) by lia. rewrite getbit_word by dlia.
  zcases; done.
Qed.

(** Turning round at the last clear bit: the complement of [InvValue], cut at that
    bit, marks the set bits before it. *)
Lemma back_turn buf F V P p :
  back_window true buf F V P -> -1 <= P -> 0 <= p < 32 -> 32 * (P + 1) + p <= F ->
  back_window false buf (32 * (P + 1) + p)
    (Z.shiftr (u32 (Z.shiftl (not32 V) (31 - p))) (31 - p)) P.
Proof.
  intros (Hu & _ & Hb) HP Hp HF. destruct (marks_not32 _ Hu) as [Hnu Hnb].
  split_and!; [apply keep_low_range; lia|intros i Hi; lia|].
  intros j Hj. rewrite keep_low_bits, Hnb by (done || lia).
  destruct (Z.leb_spec j (31 - (31 - p))); zcases; try done.
  rewrite Hb by lia. destruct (Z.leb_spec (32 * (P + 1) + j) F); [|lia].
  cbn [andb]. by destruct (getbit buf (32 * (P + 1) + j)).
Qed.

Lemma RtlFindLastBackwardRunClear_spec bm from :
  wf_bitmap bm -> 0 < SizeOfBitMap bm -> 0 <= from ->
  exists r, RtlFindLastBackwardRunClear bm from = Some r /\
    let F := Z.min from (SizeOfBitMap bm - 1) in
    (r = (0, None) /\ all_bits true (Buffer bm) 0 (F + 1) \/
     exists s e, r = (e - s, Some s) /\ last_clear_run bm F s e).
Proof.
  intros [Hsz Hcov Hw] Hpos Hfrom. unfold RtlFindLastBackwardRunClear. cbv zeta.
  rewrite (u32_small (SizeOfBitMap bm - 1)) by lia. rewrite land_31.
  set (F := Z.min from (SizeOfBitMap bm - 1)).
  assert (0 <= F < SizeOfBitMap bm) as HF by lia. clearbody F.
  destruct (back_first (Buffer bm) F Hw) as (w & -> & Hwin); [lia|]. cbn [mbind option_bind].
  destruct (BackwardSkipSet_spec (Buffer bm) F (length (Buffer bm)) _ (F / 32 - 1) Hw
    ltac:(dlia) ltac:(dlia) ltac:(dlia) Hwin) as (r & -> & Hr). cbn [mbind option_bind].
  destruct r as [[V P]|]; [|eexists; split; [done|by left]].
  destruct Hr as (HV & HP & Hwin1).
  destruct (BitScanReverse_spec V) as (p & -> & Hp & Ht & Hhigh);
    [destruct Hwin1 as [[? ?] _]; lia|]. cbn [mbind option_bind].
  destruct (back_window_last _ _ _ _ _ _ Hwin1 Hp Ht Hhigh) as (Hp32 & HeF & Hec & Hafter).
  pose proof (back_turn (Buffer bm) F V P p Hwin1 ltac:(lia) ltac:(lia) HeF) as Hwin2.
  replace ((P + 1) * 32 + p) with (32 * (P + 1) + p) by lia.
  rewrite (u32_small (32 * (P + 1) + p)) by lia.
  set (e := 32 * (P + 1) + p) in *.
  destruct (BackwardSkipClear_spec (Buffer bm) e (length (Buffer bm)) _ P Hw
    ltac:(dlia) ltac:(dlia) ltac:(lia) Hwin2) as (V' & P' & -> & HP' & Hwin3 & Hz).
  cbn [mbind option_bind]. destruct (Z.eqb_spec V' 0) as [->|HV']; cbn [negb].
  - cbn [mbind option_bind]. rewrite (u32_small (e - 0)) by lia.
    eexists; split; [done|]. right. exists 0, e. split; [done|].
    rewrite Hz in Hwin3 by done. apply back_window_zero in Hwin3.
    split_and!; [lia|lia|lia|done|exact Hwin3|done].
  - destruct (BitScanReverse_spec V') as (q & -> & Hq & Hqt & Hqh);
      [destruct Hwin3 as [[? ?] _]; lia|]. cbn [mbind option_bind].
    destruct (back_window_last _ _ _ _ _ _ Hwin3 Hq Hqt Hqh) as (Hq32 & Hqe & Hqc & Hclear).
    replace ((P' + 1) * 32 + q + 1) with (32 * (P' + 1) + q + 1) by lia.
    rewrite (u32_small (32 * (P' + 1) + q + 1)) by lia.
    assert (32 * (P' + 1) + q <> e) as Hne.
    { intros E. rewrite E in Hqc. rewrite Hec in Hqc. done. }
    rewrite u32_small by lia. eexists; split; [done|]. right.
    exists (32 * (P' + 1) + q + 1), e. split; [done|].
    split_and!; [lia|lia|lia|done|exact Hclear|].
    intros _. by replace (32 * (P' + 1) + q + 1 - 1) with (32 * (P' + 1) + q) by lia.
Qed.

(** ** The runs of a bitmap, in order *)

Inductive runs_from (bm : RTL_BITMAP) : Z -> list RTL_BITMAP_RUN -> Prop :=
| runs_none from s :
    next_run false bm from 0 s -> runs_from bm from []
| runs_next from n s l :
    next_run false bm from n s -> 0 < n -> runs_from bm (s + n) l ->
    runs_from bm from (mkRun s n :: l).

(** A maximal run of clear bits. *)
Record clear_run (bm : RTL_BITMAP) (r : RTL_BITMAP_RUN) : Prop := {
  cr_start : 0 <= StartingIndex r;
  cr_length : 0 < NumberOfBits r;
  cr_inside : StartingIndex r + NumberOfBits r <= SizeOfBitMap bm;
  cr_bits : all_bits false (Buffer bm) (StartingIndex r) (StartingIndex r + NumberOfBits r);
  cr_left : StartingIndex r <> 0 -> getbit (Buffer bm) (StartingIndex r - 1) = true;
  cr_right : StartingIndex r + NumberOfBits r < SizeOfBitMap bm ->
             getbit (Buffer bm) (StartingIndex r + NumberOfBits r) = true
}.

Definition run_before (a b : RTL_BITMAP_RUN) : Prop :=
  StartingIndex a + NumberOfBits a < StartingIndex b.

(** [l] lists the maximal clear runs of the bitmap, in order, without omission. *)
Record clear_runs (bm : RTL_BITMAP) (l : list RTL_BITMAP_RUN) : Prop := {
  runs_are_runs : Forall (clear_run bm) l;
  runs_sorted : StronglySorted run_before l;
  runs_cover : forall i, 0 <= i < SizeOfBitMap bm -> getbit (Buffer bm) i = false ->
    exists r, r ∈ l /\ StartingIndex r <= i < StartingIndex r + NumberOfBits r
}.

Lemma runs_from_exists bm from :
  scannable bm -> 0 <= from <= SizeOfBitMap bm -> exists l, runs_from bm from l.
Proof.
  intros Hs. remember (Z.to_nat (SizeOfBitMap bm - from)) as k eqn:Ek. revert from Ek.
  induction (lt_wf k) as [k _ IH]. intros from Ek Hf.
  destruct (RtlFindNextForwardRunClear_next bm from Hs) as (n & s & _ & Hn); [lia|].
  pose proof Hn as [R1 R2 R3 R4 R5 R6 R7].
  destruct (Z.eq_dec n 0) as [->|Hn0]; [eexists; by eapply runs_none|].
  destruct (IH (Z.to_nat (SizeOfBitMap bm - (s + n)))) with (from := s + n) as [l Hl]; [lia..|].
  exists (mkRun s n :: l). apply runs_next; [done|lia|done].
Qed.

Lemma runs_from_sound bm from l :
  runs_from bm from l -> 0 <= from <= SizeOfBitMap bm ->
  (from = 0 \/ (from < SizeOfBitMap bm -> getbit (Buffer bm) from = true)) ->
  Forall (clear_run bm) l /\ StronglySorted run_before l /\
  Forall (fun r => (from <= StartingIndex r /\ (from <> 0 -> from < StartingIndex r))) l /\
  forall i, from <= i < SizeOfBitMap bm -> getbit (Buffer bm) i = false ->
    exists r, r ∈ l /\ StartingIndex r <= i < StartingIndex r + NumberOfBits r.
Proof.
  induction 1 as [from s [R1 R2 R3 R4 R5 R6 R7]|from n s l [R1 R2 R3 R4 R5 R6 R7] Hn Hl IH];
    intros Hf Hleft.
  - split_and!; [constructor..|]. intros i Hi Hb. exfalso.
    destruct (Z.lt_ge_cases s (SizeOfBitMap bm)); [specialize (R6 ltac:(lia)); lia|].
    rewrite R4 in Hb by lia. done.
  - destruct IH as (IH1 & IH2 & IH3 & IH4); [lia|right; intros; by apply R7|].
    assert (getbit (Buffer bm) s = false) as Hs by (apply R5; lia).
    assert (from <> 0 -> from < s) as Hlt.
    { intros Hnz. destruct (decide (from = s)) as [->|]; [exfalso|lia].
      destruct Hleft as [|Hleft]; [lia|]. rewrite Hleft in Hs by lia. done. }
    split_and!.
    + constructor; [|done]. split; simpl; try (done || lia).
      intros Hs0. destruct (decide (from = s)) as [->|]; [lia|]. apply R4. lia.
    + constructor; [done|]. eapply Forall_impl; [|exact IH3].
      intros r [? ?]. unfold run_before. simpl. lia.
    + constructor; [simpl; lia|]. eapply Forall_impl; [|exact IH3]. intros r. simpl. lia.
    + intros i Hi Hb. destruct (Z.lt_ge_cases i s).
      { rewrite R4 in Hb by lia. done. }
      destruct (Z.lt_ge_cases i (s + n)).
      { eexists. split; [apply list_elem_of_here|simpl; lia]. }
      destruct (IH4 i) as (r & Hr & ?); [lia|done|]. exists r. split; [|done].
      by apply list_elem_of_further.
Qed.

Lemma runs_from_clear_runs bm l :
  wf_bitmap bm -> runs_from bm 0 l -> clear_runs bm l.
Proof.
  intros [Hsz _ _] Hl. destruct (runs_from_sound bm 0 l Hl) as (? & ? & _ & ?); [lia|by left|].
  split; auto.
Qed.

(** ** Filling the array of runs *)

Lemma next_run_start_le v bm from n1 s1 n2 s2 :
  from <= SizeOfBitMap bm -> next_run v bm from n1 s1 -> next_run v bm from n2 s2 -> s1 <= s2.
Proof.
  intros Hf [A1 A2 A3 A4 A5 A6 A7] [B1 B2 B3 B4 B5 B6 B7].
  destruct (Z.le_gt_cases s1 s2); [done|]. exfalso.
  specialize (B6 ltac:(lia)). pose proof (A4 s2 ltac:(lia)) as E.
  rewrite B5 in E by lia. by destruct v.
Qed.

Lemma next_run_unique v bm from n1 s1 n2 s2 :
  from <= SizeOfBitMap bm -> next_run v bm from n1 s1 -> next_run v bm from n2 s2 ->
  n1 = n2 /\ s1 = s2.
Proof.
  intros Hf H1 H2. assert (s1 = s2) as ->.
  { apply Z.le_antisymm; eapply next_run_start_le; eauto. }
  split; [|done]. destruct H1 as [A1 A2 A3 A4 A5 A6 A7], H2 as [B1 B2 B3 B4 B5 B6 B7].
  destruct (Z.lt_trichotomy n1 n2) as [Hlt|[Heq|Hlt]]; [exfalso|done|exfalso].
  - specialize (A7 ltac:(lia)). rewrite B5 in A7 by lia. by destruct v.
  - specialize (B7 ltac:(lia)). rewrite A5 in B7 by lia. by destruct v.
Qed.

Lemma FillRuns_spec bm left Run arr from sm l :
  scannable bm -> runs_from bm from l -> 0 <= from <= SizeOfBitMap bm ->
  0 <= Run -> Run + Z.of_nat left <= Z.of_nat (length arr) -> 0 <= sm <= Run ->
  exists from' sm', FillRuns bm left Run arr from sm =
    let k := Nat.min left (length l) in
    Some (Run + Z.of_nat k,
          take (Z.to_nat Run) arr ++ take k l ++ drop (Z.to_nat Run + k) arr, from', sm').
Proof.
  intros Hs. revert Run arr from sm l.
  induction left as [|left IH]; intros Run arr from sm l Hl Hf HR Hlen Hsm; cbn [FillRuns].
  { eexists _, _. cbv zeta. simpl. rewrite Nat.add_0_r, Z.add_0_r, take_drop. done. }
  destruct (RtlFindNextForwardRunClear_next bm from Hs) as (n & s & -> & Hn); [lia|].
  cbn [mbind option_bind].
  destruct Hl as [from s' Hn'|from n' s' l Hn' Hpos Hl];
    destruct (next_run_unique _ _ _ _ _ _ _ (proj2 Hf) Hn Hn') as [-> ->].
  { eexists _, _. cbv zeta. simpl. rewrite Nat.add_0_r, Z.add_0_r, take_drop. done. }
  destruct (Z.eqb_spec n' 0); [lia|]. destruct Hn' as [R1 R2 R3 R4 R5 R6 R7].
  pose proof (wf_size _ (proj1 Hs)).
  rewrite wr_in_range by lia. cbn [mbind option_bind].
  destruct (rd_in_range (<[Z.to_nat Run:=mkRun s' n']> arr) sm) as [small ->];
    [rewrite length_insert; lia|]. cbn [mbind option_bind].
  rewrite u32_small by lia.
  edestruct (IH (Run + 1) (<[Z.to_nat Run:=mkRun s' n']> arr) (s' + n')) as (f' & sm' & E);
    [exact Hl|lia|lia|rewrite length_insert; lia| |].
  2: { rewrite E. eexists _, _. cbv zeta. simpl. f_equal. f_equal. f_equal. f_equal; [lia|].
       replace (Z.to_nat (Run + 1)) with (S (Z.to_nat Run)) by lia.
       rewrite (take_S_r _ _ (mkRun s' n')) by (apply list_lookup_insert_eq; lia).
       rewrite take_insert_ge by lia. rewrite drop_insert_lt by lia.
       rewrite <- app_assoc. simpl. do 4 f_equal. lia. }
  destruct (_ <? _); lia.
Qed.

Lemma RtlFindClearRuns_first bm arr n :
  scannable bm -> 0 <= n <= Z.of_nat (length arr) ->
  exists l, clear_runs bm l /\
    RtlFindClearRuns bm arr n false =
      let k := Nat.min (Z.to_nat n) (length l) in
      Some (Z.of_nat k, take k l ++ drop k arr).
Proof.
  intros Hs Hn. pose proof (wf_size _ (proj1 Hs)).
  destruct (runs_from_exists bm 0 Hs) as [l Hl]; [lia|]. exists l.
  split; [by apply runs_from_clear_runs; [apply Hs|]|]. unfold RtlFindClearRuns.
  destruct (FillRuns_spec bm (Z.to_nat n) 0 arr 0 0 l) as (f' & sm' & ->);
    [done|done|lia|lia|lia|lia|].
  cbv zeta. cbn [mbind option_bind]. rewrite orb_true_r. done.
Qed.
