(* ===== verification/BitmapProps.v ===== *)
(** * What the bitmap operations promise

    The contract of sdk/lib/rtl/bitmap.c in terms of its public operations, proved
    from the bit-level lemmas of [Bitmap] and [BitmapSearch], with one witness per
    theorem on a concrete bitmap. *)

From Stdlib Require Import ZArith Lia Bool Sorted.
From stdpp Require Import base option list numbers.
From S2P Require Import Prelude Bitmap BitmapSearch.
Open Scope Z_scope.

(** A concrete bitmap of 40 bits: bits 0-3, 8 and 33-35 are set. *)
Definition sample : RTL_BITMAP := mkBitmap 40 [0x10F; 0x0E].

Lemma sample_wf : wf_bitmap sample.
Proof.
  split; simpl; [lia|lia|]. repeat constructor; unfold is_ulong; lia.
Qed.

Lemma sample_scannable : scannable sample.
Proof. split; [apply sample_wf|simpl; lia]. Qed.

#[export] Hint Resolve sample_wf sample_scannable : nt.

(** [RtlSetBits] and [RtlClearBits] on a range inside the bitmap succeed, keep the
    bitmap well formed and its size, and afterwards [RtlTestBit] answers the new value
    exactly on the range and the old value on every other bit. *)
Theorem range_operations_test bm s n i :
  wf_bitmap bm -> 0 <= s -> 0 <= n -> s + n <= SizeOfBitMap bm -> 0 <= i < SizeOfBitMap bm ->
  (exists bm', RtlSetBits bm s n = Some bm' /\ wf_bitmap bm' /\
     SizeOfBitMap bm' = SizeOfBitMap bm /\
     RtlTestBit bm' i = if (s <=? i) && (i <? s + n) then Some true else RtlTestBit bm i) /\
  (exists bm', RtlClearBits bm s n = Some bm' /\ wf_bitmap bm' /\
     SizeOfBitMap bm' = SizeOfBitMap bm /\
     RtlTestBit bm' i = if (s <=? i) && (i <? s + n) then Some false else RtlTestBit bm i).
Proof.
  intros Hwf Hs Hn Hle Hi. pose proof (wf_cover _ Hwf).
  split; [destruct (RtlSetBits_writes bm s n) as (bm' & -> & [W1 W2 W3 W4])
         |destruct (RtlClearBits_writes bm s n) as (bm' & -> & [W1 W2 W3 W4])]; auto;
    (eexists; split_and!; [done|done|done|]);
    rewrite !RtlTestBit_getbit, W4 by (done || lia); by destruct (_ && _).
Qed.

Lemma range_operations_test_witness :
  (exists bm', RtlSetBits sample 5 30 = Some bm' /\ wf_bitmap bm' /\
     SizeOfBitMap bm' = 40 /\ RtlTestBit bm' 34 = Some true) /\
  (exists bm', RtlClearBits sample 5 30 = Some bm' /\ wf_bitmap bm' /\
     SizeOfBitMap bm' = 40 /\ RtlTestBit bm' 34 = Some false).
Proof.
  exact (range_operations_test sample 5 30 34 sample_wf ltac:(lia) ltac:(lia)
    ltac:(simpl; lia) ltac:(simpl; lia)).
Defined.

(** setting a range of clear bits and clearing it again gives back the same bitmap,
    word for word, and so does clearing a range of set bits and setting it again. *)
Theorem set_clear_roundtrip bm s n v :
  wf_bitmap bm -> 0 <= s -> 0 <= n -> s + n <= SizeOfBitMap bm ->
  all_bits v (Buffer bm) s (s + n) ->
  (if v then bm' ← RtlClearBits bm s n; RtlSetBits bm' s n
   else bm' ← RtlSetBits bm s n; RtlClearBits bm' s n) = Some bm.
Proof.
  intros Hwf Hs Hn Hle Hall.
  assert (exists bm1 bm2, (if v then bm' ← RtlClearBits bm s n; RtlSetBits bm' s n
    else bm' ← RtlSetBits bm s n; RtlClearBits bm' s n) = Some bm2 /\
    writes bm bm1 s (s + n) (negb v) /\ writes bm1 bm2 s (s + n) v)
    as (bm1 & bm2 & -> & [A1 A2 A3 A4] & [B1 B2 B3 B4]).
  { destruct v.
    - destruct (RtlClearBits_writes bm s n) as (bm1 & -> & W1); auto.
      destruct (RtlSetBits_writes bm1 s n) as (bm2 & E & W2);
        [apply W1|done|done|by rewrite (writes_size _ _ _ _ _ W1)|]. eauto.
    - destruct (RtlSetBits_writes bm s n) as (bm1 & -> & W1); auto.
      destruct (RtlClearBits_writes bm1 s n) as (bm2 & E & W2);
        [apply W1|done|done|by rewrite (writes_size _ _ _ _ _ W1)|]. eauto. }
  f_equal. destruct bm as [sz buf], bm2 as [sz2 buf2]; simpl in *.
  rewrite B1, A1. f_equal. apply buffer_ext; [apply B3|apply Hwf|simpl; congruence|].
  intros i Hi. rewrite B4, A4 by lia.
  destruct ((s <=? i) && (i <? s + n)) eqn:E; [|done].
  apply andb_true_iff in E as [?%Z.leb_le ?%Z.ltb_lt]. symmetry. apply Hall. lia.
Qed.

Lemma set_clear_roundtrip_witness :
  (bm' ← RtlSetBits sample 9 24; RtlClearBits bm' 9 24) = Some sample.
Proof.
  apply (set_clear_roundtrip sample 9 24 false sample_wf); [lia|lia|simpl; lia|].
  intros i Hi. assert (9 <= i < 32 \/ i = 32) as [H| ->] by lia; [|done].
  unfold getbit. replace (i / 32) with 0 by dlia. replace (i mod 32) with i by dlia. simpl.
  apply (testbit_above 9); lia.
Defined.

(** [RtlAreBitsClear] and [RtlAreBitsSet] never fault and decide exactly whether a
    non-empty range lies inside the bitmap and has only clear (only set) bits, also for
    ranges whose end wraps around 32 bits. *)
Theorem are_bits_decide bm s len :
  scannable bm -> 0 <= s < 2 ^ 32 -> 0 <= len < 2 ^ 32 ->
  (exists b, RtlAreBitsClear bm s len = Some b /\
    (b = true <-> 0 < len /\ s + len <= SizeOfBitMap bm /\
                  all_bits false (Buffer bm) s (s + len))) /\
  (exists b, RtlAreBitsSet bm s len = Some b /\
    (b = true <-> 0 < len /\ s + len <= SizeOfBitMap bm /\
                  all_bits true (Buffer bm) s (s + len))).
Proof.
  intros Hsc Hs Hl. split.
  - apply (are_bits_spec (fun w => w) false); auto with nt.
  - apply (are_bits_spec not32 true); auto with nt.
Qed.

Lemma are_bits_decide_witness :
  (exists b, RtlAreBitsClear sample 9 24 = Some b /\
    (b = true <-> 0 < 24 /\ 9 + 24 <= 40 /\ all_bits false (Buffer sample) 9 33)) /\
  (exists b, RtlAreBitsSet sample 9 24 = Some b /\
    (b = true <-> 0 < 24 /\ 9 + 24 <= 40 /\ all_bits true (Buffer sample) 9 33)).
Proof. exact (are_bits_decide sample 9 24 sample_scannable ltac:(lia) ltac:(lia)). Defined.

(** the byte-table population count is the number of set bits below the bitmap's
    size, whatever the bits behind the size in the last ULONG, and
    [RtlNumberOfClearBits] is the number of the other bits. *)
Theorem number_of_bits bm :
  wf_bitmap bm ->
  RtlNumberOfSetBits bm = Some (count_set (Buffer bm) (Z.to_nat (SizeOfBitMap bm))) /\
  RtlNumberOfClearBits bm =
    Some (SizeOfBitMap bm - count_set (Buffer bm) (Z.to_nat (SizeOfBitMap bm))).
Proof.
  intros Hwf. pose proof (wf_size _ Hwf).
  pose proof (count_set_bounds (Buffer bm) (Z.to_nat (SizeOfBitMap bm))).
  unfold RtlNumberOfClearBits. rewrite RtlNumberOfSetBits_count by done.
  cbn [mbind option_bind]. rewrite u32_small by lia. done.
Qed.

Lemma number_of_bits_witness :
  RtlNumberOfSetBits sample = Some (count_set [0x10F; 0x0E] 40) /\
  RtlNumberOfClearBits sample = Some (40 - count_set [0x10F; 0x0E] 40).
Proof. exact (number_of_bits sample sample_wf). Defined.

(** C32: [RtlFindSetBits] terminates and is exact: it returns a position from which
    [N] bits inside the bitmap are set, the first one from the hint on when there is one
    there, and returns [MAXINDEX] only when no position has [N] set bits. *)
Theorem find_set_bits_exact bm N h :
  scannable bm -> 0 < N -> SizeOfBitMap bm + N < 2 ^ 32 -> 0 <= h ->
  exists p, RtlFindSetBits (Some bm) N h = Some p /\
    ((0 <= p /\ fits true bm N p /\
      ((exists q, h <= q /\ fits true bm N q) ->
       h <= p /\ forall q, h <= q < p -> ~ fits true bm N q)) \/
     (p = MAXINDEX /\ forall q, 0 <= q -> ~ fits true bm N q)).
Proof. apply RtlFindSetBits_spec. Qed.

Lemma find_set_bits_exact_witness :
  exists p, RtlFindSetBits (Some sample) 3 6 = Some p /\
    ((0 <= p /\ fits true sample 3 p /\
      ((exists q, 6 <= q /\ fits true sample 3 q) ->
       6 <= p /\ forall q, 6 <= q < p -> ~ fits true sample 3 q)) \/
     (p = MAXINDEX /\ forall q, 0 <= q -> ~ fits true sample 3 q)).
Proof.
  exact (find_set_bits_exact sample 3 6 sample_scannable ltac:(lia) ltac:(simpl; lia) ltac:(lia)).
Defined.

(** [RtlFindClearBits] terminates and is sound: a position it returns has [N] clear
    bits inside the bitmap, the first such from the hint on whenever one that ends before
    the last bit exists there; when it gives up, no position [q] with [q + N] below the
    size has [N] clear bits. *)
Theorem find_clear_bits_sound bm N h :
  scannable bm -> 0 < N -> SizeOfBitMap bm + N < 2 ^ 32 -> 0 <= h ->
  exists p, RtlFindClearBits (Some bm) N h = Some p /\
    ((0 <= p /\ fits false bm N p /\
      ((exists q, h <= q /\ q + N < SizeOfBitMap bm /\ fits false bm N q) ->
       h <= p /\ forall q, h <= q < p -> ~ fits false bm N q)) \/
     (p = MAXINDEX /\ forall q, 0 <= q -> q + N < SizeOfBitMap bm -> ~ fits false bm N q)).
Proof. apply RtlFindClearBits_spec. Qed.

Lemma find_clear_bits_sound_witness :
  exists p, RtlFindClearBits (Some sample) 4 2 = Some p /\
    ((0 <= p /\ fits false sample 4 p /\
      ((exists q, 2 <= q /\ q + 4 < 40 /\ fits false sample 4 q) ->
       2 <= p /\ forall q, 2 <= q < p -> ~ fits false sample 4 q)) \/
     (p = MAXINDEX /\ forall q, 0 <= q -> q + 4 < 40 -> ~ fits false sample 4 q)).
Proof.
  exact (find_clear_bits_sound sample 4 2 sample_scannable ltac:(lia) ltac:(simpl; lia)
    ltac:(lia)).
Defined.

(** the strict comparison of [RtlFindClearBits] loses the last position: a search
    for as many clear bits as the bitmap has returns [MAXINDEX] whatever the bits and the
    hint, also when every bit is clear, while [RtlFindSetBits] on the complement of such a
    bitmap finds the run at 0. *)
Theorem find_clear_bits_never_whole bm h :
  scannable bm -> 0 < SizeOfBitMap bm -> 2 * SizeOfBitMap bm < 2 ^ 32 -> 0 <= h ->
  RtlFindClearBits (Some bm) (SizeOfBitMap bm) h = Some MAXINDEX /\
  (all_bits true (Buffer bm) 0 (SizeOfBitMap bm) ->
   RtlFindSetBits (Some bm) (SizeOfBitMap bm) 0 = Some 0).
Proof.
  intros Hsc Hpos Hnw Hh. split.
  - unfold RtlFindClearBits. cbv zeta. rewrite Z.ltb_irrefl.
    destruct (Z.eqb_spec (SizeOfBitMap bm) 0); [lia|].
    set (h' := if SizeOfBitMap bm <=? h then 0 else h).
    assert (0 <= h' < SizeOfBitMap bm) as Hh' by (unfold h'; zcases; lia). clearbody h'.
    assert (forall cur m, 0 <= cur < SizeOfBitMap bm -> m <= SizeOfBitMap bm ->
      FindClearLoop (S (Z.to_nat (SizeOfBitMap bm))) bm (SizeOfBitMap bm) cur m = Some None) as E.
    { intros cur m Hc Hm. cbn [FindClearLoop]. rewrite u32_small by lia. zcases. done. }
    rewrite E by lia. cbn [mbind option_bind]. rewrite E by lia.
    destruct (negb (h' =? 0)); done.
  - intros Hall. destruct (RtlFindSetBits_spec bm (SizeOfBitMap bm) 0) as (p & -> & H);
      [done|lia|lia|lia|]. f_equal.
    assert (fits true bm (SizeOfBitMap bm) 0) as H0 by (by split; [lia|]).
    destruct H as [(Hp & [Hin _] & _)|[_ H]]; [lia|]. by destruct (H 0 ltac:(lia)).
Qed.

Lemma find_clear_bits_never_whole_witness :
  RtlFindClearBits (Some (mkBitmap 32 [0])) 32 0 = Some MAXINDEX /\
  (all_bits true [0] 0 32 -> RtlFindSetBits (Some (mkBitmap 32 [0])) 32 0 = Some 0).
Proof.
  apply (find_clear_bits_never_whole (mkBitmap 32 [0]) 0); simpl; try lia.
  split; [split; simpl; [lia|lia|]|simpl; lia]. repeat constructor; unfold is_ulong; lia.
Defined.

(** [RtlFindClearBitsAndSet] is an allocator: it returns [MAXINDEX] and leaves the
    bitmap alone, or returns a range that was entirely clear, which is entirely set
    afterwards with every other bit unchanged, and the population count grows by exactly
    the number of bits asked for. *)
Theorem find_clear_bits_and_set_allocates bm N h :
  scannable bm -> 0 < N -> SizeOfBitMap bm + N < 2 ^ 32 -> 0 <= h ->
  exists p bm', RtlFindClearBitsAndSet bm N h = Some (p, bm') /\
    ((p = MAXINDEX /\ bm' = bm) \/
     (fits false bm N p /\ writes bm bm' p (p + N) true /\
      exists c, RtlNumberOfSetBits bm = Some c /\ RtlNumberOfSetBits bm' = Some (c + N))).
Proof.
  intros Hsc HN Hnw Hh. pose proof (wf_cover _ (proj1 Hsc)). pose proof (wf_size _ (proj1 Hsc)).
  unfold RtlFindClearBitsAndSet.
  destruct (RtlFindClearBits_spec bm N h Hsc HN Hnw Hh) as (p & -> & H').
  cbn [mbind option_bind]. destruct (Z.eqb_spec p MAXINDEX) as [->|Hp]; cbn [negb].
  { eexists _, _. split; [done|by left]. }
  destruct H' as [(Hp0 & Hfit & _)|[? _]]; [|done].
  destruct (RtlSetBits_writes bm p N) as (bm' & -> & W); [apply Hsc|lia|lia|apply Hfit|].
  cbn [mbind option_bind]. eexists _, _. split; [done|]. right. split_and!; [done|done|].
  eexists. split; [apply RtlNumberOfSetBits_count, Hsc|].
  rewrite RtlNumberOfSetBits_count by apply W. destruct W as [W1 W2 W3 W4]. f_equal.
  destruct Hfit as [Hin Hall]. rewrite W1. replace N with (Z.of_nat (Z.to_nat N)) by lia.
  apply (count_set_writes _ _ p); rewrite ?Z2Nat.id by lia; [lia|done| |lia].
  intros i Hi. apply W4. lia.
Qed.

Lemma find_clear_bits_and_set_allocates_witness :
  exists p bm', RtlFindClearBitsAndSet sample 7 0 = Some (p, bm') /\
    ((p = MAXINDEX /\ bm' = sample) \/
     (fits false sample 7 p /\ writes sample bm' p (p + 7) true /\
      exists c, RtlNumberOfSetBits sample = Some c /\ RtlNumberOfSetBits bm' = Some (c + 7))).
Proof.
  exact (find_clear_bits_and_set_allocates sample 7 0 sample_scannable ltac:(lia)
    ltac:(simpl; lia) ltac:(lia)).
Defined.

(** [RtlFindSetBitsAndClear] releases: it returns [MAXINDEX] exactly when the bitmap
    has no [N] consecutive set bits, and otherwise clears [N] bits that were set and
    nothing else. *)
Theorem find_set_bits_and_clear_releases bm N h :
  scannable bm -> 0 < N -> SizeOfBitMap bm + N < 2 ^ 32 -> 0 <= h ->
  exists p bm', RtlFindSetBitsAndClear bm N h = Some (p, bm') /\
    ((p = MAXINDEX /\ bm' = bm /\ forall q, 0 <= q -> ~ fits true bm N q) \/
     (fits true bm N p /\ writes bm bm' p (p + N) false)).
Proof.
  intros Hsc HN Hnw Hh. pose proof (proj2 Hsc).
  unfold RtlFindSetBitsAndClear.
  destruct (RtlFindSetBits_spec bm N h Hsc HN Hnw Hh) as (p & -> & H').
  cbn [mbind option_bind]. destruct (Z.eqb_spec p MAXINDEX) as [->|Hp]; cbn [negb].
  - eexists _, _. split; [done|]. left. split_and!; [done|done|].
    destruct H' as [(_ & [Hin _] & _)|[_ H']]; [unfold MAXINDEX in Hin; lia|done].
  - destruct H' as [(Hp0 & Hfit & _)|[? _]]; [|done].
    destruct (RtlClearBits_writes bm p N) as (bm' & -> & W); [apply Hsc|lia|lia|apply Hfit|].
    eexists _, _. split; [done|by right].
Qed.

Lemma find_set_bits_and_clear_releases_witness :
  exists p bm', RtlFindSetBitsAndClear sample 2 20 = Some (p, bm') /\
    ((p = MAXINDEX /\ bm' = sample /\ forall q, 0 <= q -> ~ fits true sample 2 q) \/
     (fits true sample 2 p /\ writes sample bm' p (p + 2) false)).
Proof.
  exact (find_set_bits_and_clear_releases sample 2 20 sample_scannable ltac:(lia)
    ltac:(simpl; lia) ltac:(lia)).
Defined.

(** [RtlFindLongestRunClear] and [RtlFindLongestRunSet] terminate and return the
    length and the position of the first longest run of clear (of set) bits, although
    their loop advances by the length of the run and not to its end. *)
Theorem longest_runs bm i0 :
  scannable bm ->
  (exists m i, RtlFindLongestRunClear bm i0 = Some (m, i) /\ longest_run false bm i0 m i) /\
  (exists m i, RtlFindLongestRunSet bm i0 = Some (m, i) /\ longest_run true bm i0 m i).
Proof.
  split; [by apply RtlFindLongestRunClear_longest|by apply RtlFindLongestRunSet_longest].
Qed.

Lemma longest_runs_witness :
  (exists m i, RtlFindLongestRunClear sample 0 = Some (m, i) /\ longest_run false sample 0 m i) /\
  (exists m i, RtlFindLongestRunSet sample 0 = Some (m, i) /\ longest_run true sample 0 m i).
Proof. exact (longest_runs sample 0 sample_scannable). Defined.

(** [RtlFindLastBackwardRunClear] finds the last clear bit [e] up to the index and
    the start [s] of the run it ends, and returns [e - s], one less than the number of
    bits of that run; it returns 0 without storing a start when no bit is clear. *)
Theorem last_backward_run bm from :
  wf_bitmap bm -> 0 < SizeOfBitMap bm -> 0 <= from ->
  exists r, RtlFindLastBackwardRunClear bm from = Some r /\
    let F := Z.min from (SizeOfBitMap bm - 1) in
    (r = (0, None) /\ all_bits true (Buffer bm) 0 (F + 1) \/
     exists s e, r = (e - s, Some s) /\ last_clear_run bm F s e).
Proof. apply RtlFindLastBackwardRunClear_spec. Qed.

Lemma last_backward_run_witness :
  exists r, RtlFindLastBackwardRunClear sample 30 = Some r /\
    let F := Z.min 30 39 in
    (r = (0, None) /\ all_bits true (Buffer sample) 0 (F + 1) \/
     exists s e, r = (e - s, Some s) /\ last_clear_run sample F s e).
Proof. exact (last_backward_run sample 30 sample_wf ltac:(simpl; lia) ltac:(lia)). Defined.

(** [RtlFindClearRuns] without [LocateLongestRuns] stores the maximal clear runs of
    the bitmap in order, as many as the array has room for, leaves the rest of the array
    alone and returns how many it stored. *)
Theorem clear_runs_in_order bm arr n :
  scannable bm -> 0 <= n <= Z.of_nat (length arr) ->
  exists l, clear_runs bm l /\
    RtlFindClearRuns bm arr n false =
      let k := Nat.min (Z.to_nat n) (length l) in
      Some (Z.of_nat k, take k l ++ drop k arr).
Proof. apply RtlFindClearRuns_first. Qed.

Lemma clear_runs_in_order_witness :
  exists l, clear_runs sample l /\
    RtlFindClearRuns sample [mkRun 7 7; mkRun 7 7; mkRun 7 7] 2 false =
      let k := Nat.min 2 (length l) in
      Some (Z.of_nat k, take k l ++ drop k [mkRun 7 7; mkRun 7 7; mkRun 7 7]).
Proof.
  exact (clear_runs_in_order sample [mkRun 7 7; mkRun 7 7; mkRun 7 7] 2 sample_scannable
    ltac:(simpl; lia)).
Defined.

(** with [LocateLongestRuns] the array need not hold the longest runs: on the bitmap
    whose clear runs have lengths 1, 1, 4 and 2, a two-element array ends up with the runs
    of 4 and 1 bits, because the loop that looks for the new smallest run compares the
    entry just stored with itself. *)
Theorem clear_runs_longest_wrong :
  let bm := mkBitmap 32 [0xFFFFF90A] in
  clear_runs bm [mkRun 0 1; mkRun 2 1; mkRun 4 4; mkRun 9 2] /\
  RtlFindClearRuns bm [mkRun 0 0; mkRun 0 0] 2 true = Some (2, [mkRun 4 4; mkRun 2 1]).
Proof.
  intros bm. split; [|vm_compute; reflexivity].
  assert (forall i, 0 <= i < 32 -> getbit (Buffer bm) i =
    existsb (fun k => i =? k) [1; 3; 8; 11; 12; 13; 14; 15; 16; 17; 18; 19; 20; 21; 22; 23;
      24; 25; 26; 27; 28; 29; 30; 31]) as Hbits.
  { intros i Hi. replace i with (Z.of_nat (Z.to_nat i)) by lia.
    assert (Z.to_nat i < 32)%nat as Hn by lia. generalize dependent (Z.to_nat i).
    intros n Hn. do 32 (destruct n as [|n]; [vm_compute; reflexivity|]). lia. }
  split.
  - repeat constructor; try (vm_compute; done);
      intros i Hi; simpl in Hi; rewrite Hbits by lia; simpl; zcases; done.
  - repeat constructor.
  - intros i Hi Hb. simpl in Hi. rewrite Hbits in Hb by lia.
    assert (i = 0 \/ i = 2 \/ 4 <= i < 8 \/ 9 <= i < 11) as [->|[->|[?|?]]].
    { revert Hb. simpl. zcases; try done; lia. }
    + exists (mkRun 0 1). split; [by repeat constructor|simpl; lia].
    + exists (mkRun 2 1). split; [by repeat constructor|simpl; lia].
    + exists (mkRun 4 4). split; [by repeat constructor|simpl; lia].
    + exists (mkRun 9 2). split; [by repeat constructor|simpl; lia].
Qed.

(** ** Scanning a 64-bit value *)

Lemma halves_bits v j :
  0 <= v < 2 ^ 64 -> 0 <= j < 32 ->
  Z.testbit (u32 (Z.shiftr v 32)) j = Z.testbit v (j + 32) /\
  Z.testbit (u32 v) j = Z.testbit v j.
Proof. intros Hv Hj. bits_simpl. zcases. done. Qed.

Lemma half_zero v :
  u32 (Z.shiftr v 32) = 0 -> 0 <= v < 2 ^ 64 -> 0 <= v < 2 ^ 32.
Proof.
  intros E Hv. rewrite Z.shiftr_div_pow2 in E by lia. unfold u32 in E.
  rewrite Z.mod_small in E by dlia. dlia.
Qed.

Lemma BitScan_zero m : 0 <= m -> (BitScanReverse m = None \/ BitScanForward m = None) -> m = 0.
Proof. intros Hm. destruct m; simpl; [done|intros [?|?]; done|lia]. Qed.

Lemma RtlFindMostSignificantBit_spec v :
  0 <= v < 2 ^ 64 -> let m := RtlFindMostSignificantBit v in
  (v = 0 /\ m = -1) \/
  (0 < v /\ 0 <= m < 64 /\ Z.testbit v m = true /\ forall j, m < j -> Z.testbit v j = false).
Proof.
  intros Hv m. unfold m, RtlFindMostSignificantBit.
  pose proof (u32_range (Z.shiftr v 32)) as Hr.
  destruct (Z.eq_dec (u32 (Z.shiftr v 32)) 0) as [E|E].
  - pose proof (half_zero v E Hv). rewrite E, u32_small by done.
    cbn [BitScanReverse].
    destruct (Z.eq_dec v 0) as [->|Hnz]; [by left|]. right.
    destruct (BitScanReverse_spec v) as (p & -> & Hp & Ht & Hh); [lia|].
    split_and!; try done; try lia.
    assert (p < 32); [|lia]. eapply testbit_true_lt; [|exact H|done]. lia.
  - destruct (BitScanReverse_spec (u32 (Z.shiftr v 32))) as (p & -> & Hp & Ht & Hh); [lia|].
    assert (p < 32) as Hp32 by (eapply testbit_true_lt; [|exact Hr|done]; lia).
    right. destruct (halves_bits v p) as [Hb _]; [done|lia|]. rewrite Ht in Hb.
    split_and!; [|lia|lia|done|].
    + destruct (Z.eq_dec v 0) as [->|]; [by rewrite Z.bits_0 in Hb|lia].
    + intros j Hj. destruct (Z.lt_ge_cases j 64); [|by apply (testbit_above 64); lia].
      destruct (halves_bits v (j - 32)) as [Hb' _]; [done|lia|].
      rewrite Hh in Hb' by lia. by replace (j - 32 + 32) with j in Hb' by lia.
Qed.

Lemma RtlFindLeastSignificantBit_spec v :
  0 <= v < 2 ^ 64 -> let l := RtlFindLeastSignificantBit v in
  (v = 0 /\ l = -1) \/
  (0 < v /\ 0 <= l < 64 /\ Z.testbit v l = true /\
   forall j, 0 <= j < l -> Z.testbit v j = false).
Proof.
  intros Hv l. unfold l, RtlFindLeastSignificantBit.
  pose proof (u32_range v) as Hr. pose proof (u32_range (Z.shiftr v 32)) as Hr'.
  destruct (Z.eq_dec (u32 v) 0) as [E|E].
  - assert (forall j, 0 <= j < 32 -> Z.testbit v j = false) as Hlow.
    { intros j Hj. destruct (halves_bits v j Hv Hj) as [_ <-]. rewrite E. apply Z.bits_0. }
    rewrite E. cbn [BitScanForward]. destruct (Z.eq_dec (u32 (Z.shiftr v 32)) 0) as [E'|E'].
    + left. pose proof (half_zero v E' Hv). rewrite u32_small in E by lia.
      rewrite E'. split; [exact E|reflexivity].
    + destruct (BitScanForward_spec (u32 (Z.shiftr v 32))) as (p & -> & Hp & Ht & Hh); [lia|].
      assert (p < 32) as Hp32 by (eapply testbit_true_lt; [|exact Hr'|done]; lia).
      right. destruct (halves_bits v p) as [Hb _]; [done|lia|]. rewrite Ht in Hb.
      split_and!; [|lia|lia|done|].
      * destruct (Z.eq_dec v 0) as [->|]; [done|lia].
      * intros j Hj. destruct (Z.lt_ge_cases j 32); [apply Hlow; lia|].
        destruct (halves_bits v (j - 32)) as [Hb' _]; [done|lia|].
        rewrite Hh in Hb' by lia. by replace (j - 32 + 32) with j in Hb' by lia.
  - destruct (BitScanForward_spec (u32 v)) as (p & -> & Hp & Ht & Hh); [lia|].
    assert (p < 32) as Hp32 by (eapply testbit_true_lt; [|exact Hr|done]; lia).
    right. destruct (halves_bits v p) as [_ Hb]; [done|lia|]. rewrite Ht in Hb.
    split_and!; [|lia|lia|done|].
    + destruct (Z.eq_dec v 0) as [->|]; [done|lia].
    + intros j Hj. destruct (halves_bits v j) as [_ <-]; [done|lia|]. apply Hh. lia.
Qed.

(** for a 64-bit value, [RtlFindMostSignificantBit] and [RtlFindLeastSignificantBit]
    return the position of its highest and lowest set bit, and -1 exactly for 0. *)
Theorem significant_bits v :
  0 <= v < 2 ^ 64 ->
  let m := RtlFindMostSignificantBit v in
  let l := RtlFindLeastSignificantBit v in
  (v = 0 /\ m = -1 /\ l = -1) \/
  (0 < v /\ 0 <= l <= m /\ m < 64 /\
   Z.testbit v m = true /\ (forall j, m < j -> Z.testbit v j = false) /\
   Z.testbit v l = true /\ (forall j, 0 <= j < l -> Z.testbit v j = false)).
Proof.
  intros Hv m l.
  destruct (RtlFindMostSignificantBit_spec v Hv) as [[-> Em]|(Hpos & Hm & Hmt & Hmh)];
    [left; split_and!; reflexivity|].
  destruct (RtlFindLeastSignificantBit_spec v Hv) as [[? ?]|(_ & Hl & Hlt & Hlh)]; [lia|].
  fold m in Hm, Hmt, Hmh. fold l in Hl, Hlt, Hlh. clearbody m l.
  right. split_and!; try done; try lia.
  destruct (Z.le_gt_cases l m); [done|]. rewrite Hmh in Hlt by lia. done.
Qed.

Lemma significant_bits_witness :
  let m := RtlFindMostSignificantBit 0x100000020 in
  let l := RtlFindLeastSignificantBit 0x100000020 in
  (0x100000020 = 0 /\ m = -1 /\ l = -1) \/
  (0 < 0x100000020 /\ 0 <= l <= m /\ m < 64 /\
   Z.testbit 0x100000020 m = true /\
   (forall j, m < j -> Z.testbit 0x100000020 j = false) /\
   Z.testbit 0x100000020 l = true /\
   (forall j, 0 <= j < l -> Z.testbit 0x100000020 j = false)).
Proof. exact (significant_bits 0x100000020 ltac:(lia)). Defined.
