(* ===== verification/Time.v ===== *)
(** * Times (sdk/lib/rtl/time.c)

    Conversions between a system time, the number of 100 ns ticks since 1601-01-01, and its
    calendar fields, the seconds since 1970 or 1980, local times, and the cutover times of
    daylight saving.  [LARGE_INTEGER] is a signed 64-bit value, [CSHORT] a signed 16-bit
    one; the C operators [/] and [%] on signed values are [Z.quot] and [Z.rem]. *)

From Stdlib Require Import ZArith Lia Bool.
From stdpp Require Import base option list numbers.
From S2P Require Import Prelude.
Open Scope Z_scope.

Definition TICKSPERSEC : Z := 10000000.
Definition TICKSPERMSEC : Z := 10000.
Definition SECSPERDAY : Z := 86400.
Definition SECSPERHOUR : Z := 3600.
Definition SECSPERMIN : Z := 60.
Definition EPOCHWEEKDAY : Z := 1.
Definition DAYSPERWEEK : Z := 7.
Definition EPOCHYEAR : Z := 1601.
Definition DAYSPERNORMALYEAR : Z := 365.
Definition DAYSPERLEAPYEAR : Z := 366.
Definition TICKSTO1970 : Z := 0x019db1ded53e8000.
Definition TICKSTO1980 : Z := 0x01a8e79fe1d58000.

Definition YearLengths : list Z := [DAYSPERNORMALYEAR; DAYSPERLEAPYEAR].
Definition MonthLengths : list (list Z) :=
  [[31; 28; 31; 30; 31; 30; 31; 31; 30; 31; 30; 31];
   [31; 29; 31; 30; 31; 30; 31; 31; 30; 31; 30; 31]].

Record TIME_FIELDS := mkTime {
  Year : Z; Month : Z; Day : Z; Hour : Z; Minute : Z; Second : Z; Milliseconds : Z; Weekday : Z }.

Definition IsLeapYear (Year : Z) : Z :=
  if (Z.rem Year 4 =? 0) && (negb (Z.rem Year 100 =? 0) || (Z.rem Year 400 =? 0)) then 1 else 0.

Definition DaysSinceEpoch (Year : Z) : Z :=
  let Year := Year - 1 in
  let Days := s32 (Year * DAYSPERNORMALYEAR + Z.quot Year 4 - Z.quot Year 100 + Z.quot Year 400) in
  s32 (Days - ((EPOCHYEAR - 1) * DAYSPERNORMALYEAR + Z.quot (EPOCHYEAR - 1) 4
               - Z.quot (EPOCHYEAR - 1) 100 + Z.quot (EPOCHYEAR - 1) 400)).

(** [MonthLengths[leap][month]]; an index out of range is [None]. *)
Definition MonthLength (leap month : Z) : option Z :=
  Months ← rd MonthLengths leap; rd Months month.

(** ** Fields to time *)

(** The [for] loop over the months before [Month]. *)
Fixpoint AddMonths (fuel : nat) (Year Month CurMonth Time : Z) : option Z :=
  if CurMonth <? Month then
    match fuel with
    | O => None
    | S fuel' =>
        n ← MonthLength (IsLeapYear Year) (CurMonth - 1);
        AddMonths fuel' Year Month (u32 (CurMonth + 1)) (s64 (Time + n))
    end
  else Some Time.

(** The test of the fields, with its short circuits; [Some true] is the return of FALSE. *)
Definition InvalidFields (tf : TIME_FIELDS) : option bool :=
  if (Milliseconds tf <? 0) || (999 <? Milliseconds tf) ||
     (Second tf <? 0) || (59 <? Second tf) ||
     (Minute tf <? 0) || (59 <? Minute tf) ||
     (Hour tf <? 0) || (23 <? Hour tf) ||
     (Month tf <? 1) || (12 <? Month tf) ||
     (Day tf <? 1)
  then Some true else
  len ← MonthLength (IsLeapYear (Year tf)) (Month tf - 1);
  Some ((len <? Day tf) || (Year tf <? 1601)).

(** [None] is a faulting access, [Some None] the return of FALSE and [Some (Some t)] that
    of TRUE with the time [t]. *)
Definition RtlTimeFieldsToTime (tf : TIME_FIELDS) : option (option Z) :=
  invalid ← InvalidFields tf;
  if (invalid : bool) then Some None else
  let Time := DaysSinceEpoch (Year tf) in
  Time ← AddMonths 12 (Year tf) (Month tf) 1 Time;
  let Time := s64 (Time + (Day tf - 1)) in
  let Time := s64 (Time * SECSPERDAY) in
  let Time := s64 (Time + (Hour tf * SECSPERHOUR + Minute tf * SECSPERMIN + Second tf)) in
  let Time := s64 (Time * TICKSPERSEC) in
  let Time := s64 (Time + Milliseconds tf * TICKSPERMSEC) in
  Some (Some Time).

(** ** Time to fields *)

(** [Weekday] keeps the value the caller's structure had. *)
Definition RtlTimeToElapsedTimeFields (Time OldWeekday : Z) : TIME_FIELDS :=
  let ms := s16 (Z.quot (Z.rem Time TICKSPERSEC) TICKSPERMSEC) in
  let ElapsedSeconds := u64 Time / TICKSPERSEC in
  let SecondsInDay := u32 (ElapsedSeconds mod SECSPERDAY) in
  let SecondsInMinute := SecondsInDay mod SECSPERHOUR in
  mkTime 0 0 (s16 (ElapsedSeconds / SECSPERDAY))
    (s16 (SecondsInDay / SECSPERHOUR)) (s16 (SecondsInMinute / SECSPERMIN))
    (s16 (SecondsInMinute mod SECSPERMIN)) ms OldWeekday.

(** The [while] loop over the years. *)
Fixpoint YearLoop (fuel : nat) (CurYear Days : Z) : option (Z * Z) :=
  len ← rd YearLengths (IsLeapYear CurYear);
  if Days <? len then Some (CurYear, Days) else
  match fuel with
  | O => None
  | S fuel' => YearLoop fuel' (u32 (CurYear + 1)) (u32 (Days - len))
  end.

(** The [for] loop over the months. *)
Fixpoint MonthLoop (fuel : nat) (Months : list Z) (CurMonth Days : Z) : option (Z * Z) :=
  len ← rd Months CurMonth;
  if len <=? Days then
    match fuel with
    | O => None
    | S fuel' => MonthLoop fuel' Months (u32 (CurMonth + 1)) (u32 (Days - len))
    end
  else Some (CurMonth, Days).

Definition RtlTimeToTimeFields (Time : Z) : option TIME_FIELDS :=
  let IntTime := u64 Time in
  let ms := s16 ((IntTime mod TICKSPERSEC) / TICKSPERMSEC) in
  let IntTime := IntTime / TICKSPERSEC in
  let Days := u32 (IntTime / SECSPERDAY) in
  let SecondsInDay := u32 (IntTime mod SECSPERDAY) in
  let hour := s16 (SecondsInDay / SECSPERHOUR) in
  let SecondsInDay := SecondsInDay mod SECSPERHOUR in
  let minute := s16 (SecondsInDay / SECSPERMIN) in
  let second := s16 (SecondsInDay mod SECSPERMIN) in
  let weekday := s16 (u32 (EPOCHWEEKDAY + Days) mod DAYSPERWEEK) in
  let CurYear := u32 (EPOCHYEAR + Days / DAYSPERLEAPYEAR) in
  let Days := u32 (Days - DaysSinceEpoch CurYear) in
  '(CurYear, Days) ← YearLoop (Z.to_nat (Days / DAYSPERNORMALYEAR)) CurYear Days;
  Months ← rd MonthLengths (IsLeapYear CurYear);
  '(CurMonth, Days) ← MonthLoop 12 Months 0 Days;
  Some (mkTime (s16 CurYear) (s16 (CurMonth + 1)) (s16 (Days + 1)) hour minute second ms weekday).

(** ** Seconds since 1970 and 1980 *)

(** [IntTime.u.HighPart != 0] is FALSE, [IntTime.u.LowPart] the seconds. *)
Definition SecondsSince (Ticks Time : Z) : option Z :=
  let IntTime := s64 (Time - Ticks) in
  let IntTime := Z.quot IntTime TICKSPERSEC in
  if negb (Z.shiftr (u64 IntTime) 32 =? 0) then None else Some (u32 IntTime).

Definition RtlTimeToSecondsSince1970 (Time : Z) : option Z := SecondsSince TICKSTO1970 Time.
Definition RtlTimeToSecondsSince1980 (Time : Z) : option Z := SecondsSince TICKSTO1980 Time.

Definition RtlSecondsSince1970ToTime (Seconds : Z) : Z := s64 (Seconds * TICKSPERSEC + TICKSTO1970).
Definition RtlSecondsSince1980ToTime (Seconds : Z) : Z := s64 (Seconds * TICKSPERSEC + TICKSTO1980).

(** ** Local times *)

(** [query] is the answer of [ZwQuerySystemInformation]: its status and the time zone bias
    it filled in.  The results are the status and the time stored, [None] for none. *)
Definition RtlLocalTimeToSystemTime (query : NTSTATUS * Z) (LocalTime : Z) : NTSTATUS * option Z :=
  let '(Status, TimeZoneBias) := query in
  if negb (NT_SUCCESS Status) then (Status, None)
  else (STATUS_SUCCESS, Some (s64 (LocalTime + TimeZoneBias))).

Definition RtlSystemTimeToLocalTime (query : NTSTATUS * Z) (SystemTime : Z) : NTSTATUS * option Z :=
  let '(Status, TimeZoneBias) := query in
  if negb (NT_SUCCESS Status) then (Status, None)
  else (STATUS_SUCCESS, Some (s64 (SystemTime - TimeZoneBias))).

(** ** Cutover times *)

(** The body of the [while] loop up to the second conversion; the results are as those of
    [RtlTimeFieldsToTime]. *)
Definition CutoverTime (Cutover CurrentTimeFields : TIME_FIELDS) (NextYearsCutover : bool)
    : option (option Z) :=
  let year := if NextYearsCutover then s16 (Year CurrentTimeFields + 1)
              else Year CurrentTimeFields in
  let Adjusted d := mkTime year (Month Cutover) d (Hour Cutover) (Minute Cutover)
                           (Second Cutover) (Milliseconds Cutover) 0 in
  First ← RtlTimeFieldsToTime (Adjusted 1);
  match First with
  | None => Some None
  | Some CutoverSystemTime =>
      Fields ← RtlTimeToTimeFields CutoverSystemTime;
      let day :=
        if negb (Weekday Fields =? Weekday Cutover) then
          let Days := s16 (if Weekday Fields <? Weekday Cutover
                           then Weekday Cutover - Weekday Fields
                           else DAYSPERWEEK - (Weekday Fields - Weekday Cutover)) in
          s16 (1 + Days)
        else 1 in
      day ←
        if 1 <? Day Cutover then
          let Days := s16 (DAYSPERWEEK * (Day Cutover - 1)) in
          len ← MonthLength (IsLeapYear year) (Month Cutover - 1);
          let Days := if len <? day + Days then s16 (Days - DAYSPERWEEK) else Days in
          Some (s16 (day + Days))
        else Some day;
      RtlTimeFieldsToTime (Adjusted day)
  end.

(** The result is the returned BOOLEAN and the value of [*SystemTime].  The [while] loop
    runs at most twice, the second time for the next year. *)
Definition RtlCutoverTimeToSystemTime (Cutover : TIME_FIELDS) (SystemTime CurrentTime : Z)
    (ThisYearsCutoverOnly : bool) : option (bool * Z) :=
  if negb (Year Cutover =? 0) then
    t ← RtlTimeFieldsToTime Cutover;
    match t with
    | None => Some (false, SystemTime)
    | Some SystemTime =>
        if SystemTime <? CurrentTime then Some (false, SystemTime) else Some (true, SystemTime)
    end
  else
  if (Day Cutover =? 0) || (5 <? Day Cutover) then Some (false, SystemTime) else
  CurrentTimeFields ← RtlTimeToTimeFields CurrentTime;
  t ← CutoverTime Cutover CurrentTimeFields false;
  match t with
  | None => Some (false, SystemTime)
  | Some CutoverSystemTime =>
      if ThisYearsCutoverOnly || (CurrentTime <=? CutoverSystemTime)
      then Some (true, CutoverSystemTime) else
      t ← CutoverTime Cutover CurrentTimeFields true;
      match t with
      | None => Some (false, SystemTime)
      | Some CutoverSystemTime => Some (true, CutoverSystemTime)
      end
  end.
