(* ===== verification/TimeProps.v ===== *)
(** * Times: the calendar and the properties of the conversions

    The civil calendar as the code sees it (day numbers, leap years, months), the
    specification of both conversions against it, and the properties of
    [src/sdk/lib/rtl/time.c].  [date_of] is the Gregorian calendar by itself, day after day
    from 1601-01-01, without anything of the code. *)

From Stdlib Require Import ZArith Lia Bool.
From stdpp Require Import base option list numbers.
From S2P Require Import Prelude Time.
Open Scope Z_scope.

(** ** The calendar *)

Definition year_length (y : Z) : Z := DAYSPERNORMALYEAR + IsLeapYear y.

(** The months of the year [y]. *)
Definition months (y : Z) : list Z :=
  [31; 28 + IsLeapYear y; 31; 30; 31; 30; 31; 31; 30; 31; 30; 31].

Definition sum (l : list Z) : Z := foldr Z.add 0 l.

(** The day [d] of the month [m] of the year [y] is the day number [n] since the epoch. *)
Definition calendar_day (y m d n : Z) : Prop :=
  exists p len s, months y = p ++ len :: s /\ m = Z.of_nat (length p) + 1 /\
    1 <= d <= len /\ n = DaysSinceEpoch y + sum p + (d - 1).

(** The fields of a time of day. *)
Definition clock (tf : TIME_FIELDS) : Prop :=
  0 <= Hour tf <= 23 /\ 0 <= Minute tf <= 59 /\ 0 <= Second tf <= 59 /\
  0 <= Milliseconds tf <= 999.

Definition milliseconds_of_day (tf : TIME_FIELDS) : Z :=
  ((Hour tf * 60 + Minute tf) * 60 + Second tf) * 1000 + Milliseconds tf.

Definition MSPERDAY : Z := 86400000.

Lemma IsLeapYear_mod y :
  0 <= y ->
  IsLeapYear y = if (y mod 4 =? 0) && (negb (y mod 100 =? 0) || (y mod 400 =? 0)) then 1 else 0.
Proof. intros Hy. unfold IsLeapYear. by rewrite !Z.rem_mod_nonneg by lia. Qed.

Lemma IsLeapYear_range y : 0 <= IsLeapYear y <= 1.
Proof. unfold IsLeapYear. case_match; lia. Qed.

Lemma DaysSinceEpoch_closed y :
  1 <= y < 100000 ->
  DaysSinceEpoch y = (y - 1601) * 365 + (y - 1) / 4 - (y - 1) / 100 + (y - 1) / 400 - 388.
Proof.
  intros Hy. unfold DaysSinceEpoch, EPOCHYEAR, DAYSPERNORMALYEAR.
  rewrite !Z.quot_div_nonneg by lia. change ((1601 - 1) / 4) with 400.
  change ((1601 - 1) / 100) with 16. change ((1601 - 1) / 400) with 4.
  assert (0 <= (y - 1) / 4 <= y - 1) by dlia. assert (0 <= (y - 1) / 100 <= y - 1) by dlia.
  assert (0 <= (y - 1) / 400 <= y - 1) by dlia.
  rewrite (s32_small (_ * _ + _ - _ + _)), s32_small by lia. lia.
Qed.

Lemma DaysSinceEpoch_succ y :
  1 <= y < 99999 -> DaysSinceEpoch (y + 1) = DaysSinceEpoch y + year_length y.
Proof.
  intros Hy. rewrite !DaysSinceEpoch_closed by lia. unfold year_length, DAYSPERNORMALYEAR.
  rewrite IsLeapYear_mod by lia. replace (y + 1 - 1) with y by lia.
  destruct (Z.eqb_spec (y mod 4) 0), (Z.eqb_spec (y mod 100) 0), (Z.eqb_spec (y mod 400) 0);
    simpl; dlia.
Qed.

Lemma DaysSinceEpoch_mono y y' :
  1 <= y < y' -> y' < 99999 -> DaysSinceEpoch y + year_length y <= DaysSinceEpoch y'.
Proof.
  intros Hy Hy'. rewrite <- DaysSinceEpoch_succ by lia.
  rewrite !DaysSinceEpoch_closed by lia. dlia.
Qed.

Lemma sum_app l1 l2 : sum (l1 ++ l2) = sum l1 + sum l2.
Proof. induction l1; simpl; lia. Qed.

Lemma months_sum y : sum (months y) = year_length y.
Proof. unfold months, year_length, DAYSPERNORMALYEAR. simpl. lia. Qed.

Lemma months_pos y : Forall (fun n => 28 <= n <= 31) (months y).
Proof. pose proof (IsLeapYear_range y). repeat constructor; lia. Qed.

Lemma months_rd y : rd MonthLengths (IsLeapYear y) = Some (months y).
Proof. unfold months, IsLeapYear. case_match; reflexivity. Qed.

Lemma years_rd y : rd YearLengths (IsLeapYear y) = Some (year_length y).
Proof. unfold year_length, IsLeapYear. case_match; reflexivity. Qed.

Lemma rd_middle {A} (p : list A) x s : rd (p ++ x :: s) (Z.of_nat (length p)) = Some x.
Proof.
  unfold rd. rewrite (proj2 (Z.leb_le 0 _)) by lia. rewrite Nat2Z.id. by apply list_lookup_middle.
Qed.

Lemma sum_nonneg l : Forall (fun n => 28 <= n <= 31) l -> 0 <= sum l <= 31 * Z.of_nat (length l).
Proof. induction 1; simpl; lia. Qed.

(** A date is determined by its day number. *)
Lemma split_sum_unique p1 len1 s1 p2 len2 s2 d1 d2 :
  p1 ++ len1 :: s1 = p2 ++ len2 :: s2 -> Forall (fun n => 28 <= n <= 31) (p1 ++ len1 :: s1) ->
  0 <= d1 < len1 -> 0 <= d2 < len2 -> sum p1 + d1 = sum p2 + d2 -> p1 = p2 /\ d1 = d2.
Proof.
  revert p2. induction p1 as [|x p1 IH]; intros [|y p2] E Hf H1 H2 Hs; simplify_eq/=.
  - split; [done|lia].
  - inversion_clear Hf as [|? ? _ Hf']. apply Forall_app in Hf' as [Hf' _].
    apply sum_nonneg in Hf'. lia.
  - inversion_clear Hf as [|? ? _ Hf']. apply Forall_app in Hf' as [Hf' _].
    apply sum_nonneg in Hf'. lia.
  - inversion_clear Hf. destruct (IH p2) as [-> ->]; [done..|lia|done].
Qed.

Lemma calendar_day_bounds y m d n :
  calendar_day y m d n ->
  DaysSinceEpoch y <= n < DaysSinceEpoch y + year_length y /\ 1 <= m <= 12 /\ 1 <= d <= 31.
Proof.
  intros (p & len & s & E & -> & Hd & ->). pose proof (months_pos y) as Hp.
  pose proof (months_sum y) as Hs. assert (length (months y) = 12%nat) as Hl by done.
  rewrite E in Hp, Hs, Hl. rewrite sum_app in Hs. rewrite length_app in Hl. simpl in Hs, Hl.
  apply Forall_app in Hp as [Hp1 Hp2]. inversion_clear Hp2 as [|? ? Hp2' Hp3].
  apply sum_nonneg in Hp1, Hp3. lia.
Qed.

Lemma calendar_day_unique y m d y' m' d' n :
  1 <= y < 90000 -> 1 <= y' < 90000 -> calendar_day y m d n -> calendar_day y' m' d' n ->
  y = y' /\ m = m' /\ d = d'.
Proof.
  intros Hy Hy' H H'. pose proof (calendar_day_bounds _ _ _ _ H) as [B _].
  pose proof (calendar_day_bounds _ _ _ _ H') as [B' _].
  assert (y = y') as <-.
  { destruct (Z.lt_trichotomy y y') as [Hlt|[->|Hlt]]; [|done|].
    - pose proof (DaysSinceEpoch_mono y y'). lia.
    - pose proof (DaysSinceEpoch_mono y' y). lia. }
  destruct H as (p & len & s & E & -> & Hd & En), H' as (p' & len' & s' & E' & -> & Hd' & En').
  destruct (split_sum_unique p len s p' len' s' (d - 1) (d' - 1)) as [-> ?];
    [congruence|rewrite <- E; apply months_pos|lia|lia|lia|]. lia.
Qed.

(** ** The loops *)

Lemma YearLoop_spec fuel y d :
  1601 <= y -> 0 <= d -> y + d / 365 < 90000 -> d / 365 <= Z.of_nat fuel ->
  exists y' d', YearLoop fuel y d = Some (y', d') /\ y <= y' <= y + d / 365 /\
    0 <= d' < year_length y' /\ DaysSinceEpoch y + d = DaysSinceEpoch y' + d'.
Proof.
  revert y d. induction fuel as [|fuel IH]; intros y d Hy Hd Hb Hf; cbn [YearLoop];
    rewrite years_rd; cbn [mbind option_bind];
    pose proof (IsLeapYear_range y); unfold year_length, DAYSPERNORMALYEAR in *;
    destruct (Z.ltb_spec d (365 + IsLeapYear y)).
  - exists y, d. split_and!; try done; dlia.
  - dlia.
  - exists y, d. split_and!; try done; dlia.
  - assert (0 <= (d - (365 + IsLeapYear y)) / 365 <= d / 365 - 1) by dlia.
    assert (d < 90000 * 365) by dlia. rewrite !u32_small by lia.
    destruct (IH (y + 1) (d - (365 + IsLeapYear y))) as (y' & d' & E & K1 & K2 & K3);
      [lia|lia|lia|lia|].
    exists y', d'. split_and!; [done|lia|lia|lia|lia|].
    rewrite <- K3, DaysSinceEpoch_succ by lia. unfold year_length, DAYSPERNORMALYEAR. lia.
Qed.

Lemma MonthLoop_spec fuel pre suf d :
  Forall (fun n => 28 <= n <= 31) suf -> 0 <= d < sum suf -> (length suf <= fuel)%nat ->
  (length (pre ++ suf) <= 12)%nat ->
  exists s1 len s2 r, suf = s1 ++ len :: s2 /\ 0 <= r < len /\ d = sum s1 + r /\
    MonthLoop fuel (pre ++ suf) (Z.of_nat (length pre)) d
    = Some (Z.of_nat (length pre + length s1), r).
Proof.
  revert pre suf d. induction fuel as [|fuel IH]; intros pre suf d Hp Hd Hf Hl.
  { destruct suf; simpl in *; lia. }
  destruct suf as [|len suf]; [simpl in Hd; lia|]. inversion_clear Hp as [|? ? Hlen Hp'].
  cbn [MonthLoop]. rewrite rd_middle. cbn [mbind option_bind].
  pose proof (sum_nonneg _ Hp'). rewrite length_app in Hl. simpl in Hf, Hl, Hd.
  destruct (Z.leb_spec len d).
  - rewrite !u32_small by lia.
    destruct (IH (pre ++ [len]) suf (d - len)) as (s1 & len' & s2 & r & -> & Hr & Hs & E);
      [done|lia|lia|rewrite !length_app; simpl; lia|].
    exists (len :: s1), len', s2, r. split_and!; [done|lia|lia|simpl; lia|].
    rewrite <- app_assoc, length_app in E. simpl in E.
    replace (Z.of_nat (length pre) + 1) with (Z.of_nat (length pre + 1)) by lia. rewrite E.
    simpl. do 2 f_equal. lia.
  - exists [], len, suf, d. split_and!; [done|lia|lia|simpl; lia|].
    do 2 f_equal. simpl. lia.
Qed.

Lemma AddMonths_spec fuel y p q s t :
  months y = p ++ q ++ s -> (length q <= fuel)%nat -> 0 <= t < 2 ^ 40 - 31 * Z.of_nat (length q) ->
  AddMonths fuel y (Z.of_nat (length p + length q) + 1) (Z.of_nat (length p) + 1) t
  = Some (t + sum q).
Proof.
  revert p q t. induction fuel as [|fuel IH]; intros p q t E Hf Ht.
  { destruct q; [|simpl in Hf; lia]. cbn [AddMonths]. rewrite Nat.add_0_r, Z.ltb_irrefl.
    simpl. f_equal. lia. }
  destruct q as [|n q]; cbn [AddMonths].
  - rewrite Nat.add_0_r, Z.ltb_irrefl. simpl. f_equal. lia.
  - simpl in Hf. rewrite (proj2 (Z.ltb_lt _ _)) by (simpl; lia).
    unfold MonthLength. rewrite months_rd. cbn [mbind option_bind].
    replace (Z.of_nat (length p) + 1 - 1) with (Z.of_nat (length p)) by lia.
    pose proof (months_pos y) as Hp. assert (length (months y) = 12%nat) as Hl by done.
    rewrite E in Hp, Hl |- *. rewrite !length_app in Hl. simpl in Hl.
    cbn [app]. rewrite rd_middle.
    apply Forall_app in Hp as [_ Hp]. inversion_clear Hp as [|? ? Hn _]. 
    cbn [mbind option_bind]. simpl in Ht. rewrite u32_small, s64_small by lia.
    replace (Z.of_nat (length p) + 1 + 1) with (Z.of_nat (length (p ++ [n])) + 1)
      by (rewrite length_app; simpl; lia).
    replace (Z.of_nat (length p + length (n :: q)) + 1)
      with (Z.of_nat (length (p ++ [n]) + length q) + 1) by (rewrite length_app; simpl; lia).
    rewrite IH; [simpl; f_equal; lia|by rewrite <- app_assoc|lia|lia].
Qed.

(** ** The conversions *)

Lemma MonthLength_spec y p len s :
  months y = p ++ len :: s -> MonthLength (IsLeapYear y) (Z.of_nat (length p)) = Some len.
Proof. intros E. unfold MonthLength. rewrite months_rd, E. apply rd_middle. Qed.

Lemma calendar_day_exists y m d len :
  MonthLength (IsLeapYear y) (m - 1) = Some len -> 1 <= d <= len -> exists n, calendar_day y m d n.
Proof.
  unfold MonthLength. rewrite months_rd. cbn [mbind option_bind].
  intros [Hm Hl]%rd_Some_inv Hd. eexists _, _, len, _.
  split_and!; [symmetry; exact (take_drop_middle _ _ _ Hl)| |lia..|reflexivity].
  apply lookup_lt_Some in Hl. rewrite length_take. lia.
Qed.

Definition valid_fields (tf : TIME_FIELDS) : Prop :=
  clock tf /\ 1601 <= Year tf /\ exists n, calendar_day (Year tf) (Month tf) (Day tf) n.

Lemma InvalidFields_spec tf :
  exists b, InvalidFields tf = Some b /\ (b = false <-> valid_fields tf).
Proof.
  unfold InvalidFields, valid_fields, clock. 
  destruct (_ || _) eqn:Hc.
  - exists true. split; [done|]. split; [done|]. intros ((?&?&?&?) & _ & n & Hd).
    apply calendar_day_bounds in Hd as (_ & ? & ?).
    rewrite !orb_true_iff, !Z.ltb_lt in Hc. lia.
  - rewrite !orb_false_iff, !Z.ltb_ge in Hc.
    destruct (rd_in_range (months (Year tf)) (Month tf - 1)) as [len Hl].
    { simpl. lia. }
    assert (MonthLength (IsLeapYear (Year tf)) (Month tf - 1) = Some len) as Hm.
    { unfold MonthLength. by rewrite months_rd. }
    rewrite Hm. cbn [mbind option_bind]. eexists; split; [done|].
    rewrite orb_false_iff, !Z.ltb_ge. split.
    + intros [Hd Hy]. split_and!; try lia. eapply calendar_day_exists; [done|lia].
    + intros (_ & Hy & n & p & len' & s & E & Em & Hd & _). split; [|lia].
      pose proof (MonthLength_spec _ _ _ _ E) as Hm'.
      replace (Month tf - 1) with (Z.of_nat (length p)) in Hm by lia. simplify_eq. lia.
Qed.

Lemma RtlTimeFieldsToTime_spec tf n :
  clock tf -> 1601 <= Year tf < 90000 -> calendar_day (Year tf) (Month tf) (Day tf) n ->
  (n * MSPERDAY + milliseconds_of_day tf) * TICKSPERMSEC < 2 ^ 63 ->
  RtlTimeFieldsToTime tf = Some (Some ((n * MSPERDAY + milliseconds_of_day tf) * TICKSPERMSEC)).
Proof.
  intros Hc Hy Hd Hb. unfold RtlTimeFieldsToTime.
  destruct (InvalidFields_spec tf) as ([] & -> & Hv); cbn [mbind option_bind].
  { destruct Hv as [_ Hv]. discriminate Hv. by repeat split; try apply Hc; try lia; exists n. }
  pose proof (calendar_day_bounds _ _ _ _ Hd) as (B1 & _ & _).
  destruct Hd as (p & len & s & E & -> & Hd & En).
  assert (0 <= DaysSinceEpoch (Year tf) <= 90000 * 366) as HD.
  { rewrite DaysSinceEpoch_closed by lia. dlia. }
  assert (length p <= 11)%nat as Hp.
  { assert (length (months (Year tf)) = 12%nat) as Hl by done.
    rewrite E, length_app in Hl. simpl in Hl. lia. }
  replace 1 with (Z.of_nat (length (@nil Z)) + 1) at 2 by done.
  replace (Z.of_nat (length p) + 1) with (Z.of_nat (length (@nil Z) + length p) + 1) by done.
  rewrite (AddMonths_spec _ _ [] p (len :: s)); [|done|lia|lia].
  destruct Hc as (? & ? & ? & ?). cbn [mbind option_bind].
  unfold milliseconds_of_day, MSPERDAY, SECSPERDAY, SECSPERHOUR, SECSPERMIN, TICKSPERSEC,
    TICKSPERMSEC in *.
  rewrite (s64_small (_ + _ + (_ - 1))) by lia. rewrite (s64_small (_ * 86400)) by lia.
  rewrite (s64_small (_ * 86400 + _)) by lia. rewrite (s64_small (_ * 10000000)) by lia.
  rewrite s64_small by lia. do 2 f_equal. lia.
Qed.

(** The first guess of the year is not too late. *)
Lemma first_year k : 0 <= k < 60000 -> 0 <= DaysSinceEpoch (1601 + k) <= 366 * k.
Proof. intros Hk. rewrite DaysSinceEpoch_closed by lia. dlia. Qed.

(** The year and the month loops, from a day number. *)
Lemma date_of_day n :
  0 <= n <= 10675199 ->
  exists y p len s d,
    YearLoop (Z.to_nat (u32 (n - DaysSinceEpoch (1601 + n / 366)) / 365)) (1601 + n / 366)
      (u32 (n - DaysSinceEpoch (1601 + n / 366))) = Some (y, sum p + d) /\
    1601 <= y < 32768 /\ MonthLoop 12 (months y) 0 (sum p + d) = Some (Z.of_nat (length p), d) /\
    months y = p ++ len :: s /\ 0 <= d < len /\ n = DaysSinceEpoch y + sum p + d.
Proof.
  intros Hn. assert (0 <= n / 366 < 29168) as Hk by dlia.
  assert (366 * (n / 366) <= n) as Hk2 by dlia.
  pose proof (first_year (n / 366) ltac:(lia)) as HD. set (k := n / 366) in *. clearbody k.
  rewrite u32_small by lia. set (r := n - DaysSinceEpoch (1601 + k)).
  assert (0 <= r / 365 <= 29248) as Hr by (subst r; dlia).
  destruct (YearLoop_spec (Z.to_nat (r / 365)) (1601 + k) r) as (y & d & -> & Hy & Hd & Hs);
    [lia|lia|lia|lia|].
  rewrite <- months_sum in Hd.
  destruct (MonthLoop_spec 12 [] (months y) d (months_pos y) Hd)
    as (p & len & s & q & E & Hq & -> & Em); [done|done|].
  exists y, p, len, s, q. split_and!; [done|lia| |exact Em|done|lia|lia|lia].
  assert (365 * (y - 1601) <= DaysSinceEpoch y) by (rewrite DaysSinceEpoch_closed by lia; dlia).
  pose proof (sum_nonneg p). rewrite E in *. pose proof (months_pos y) as Hp. rewrite E in Hp.
  apply Forall_app in Hp as [Hp _]. lia.
Qed.

Lemma RtlTimeToTimeFields_spec t :
  0 <= t < 2 ^ 63 ->
  exists tf n, RtlTimeToTimeFields t = Some tf /\ clock tf /\ 1601 <= Year tf < 32768 /\
    calendar_day (Year tf) (Month tf) (Day tf) n /\ Weekday tf = (n + 1) mod 7 /\
    n * MSPERDAY + milliseconds_of_day tf = t / TICKSPERMSEC.
Proof.
  intros Ht. unfold RtlTimeToTimeFields. rewrite u64_small by lia.
  unfold TICKSPERSEC, TICKSPERMSEC, SECSPERDAY, SECSPERHOUR, SECSPERMIN, EPOCHWEEKDAY, EPOCHYEAR,
    DAYSPERWEEK, DAYSPERLEAPYEAR, DAYSPERNORMALYEAR, MSPERDAY.
  assert (t / 10000 = t / 10000000 * 1000 + t mod 10000000 / 10000) as Hms by dlia.
  assert (0 <= t mod 10000000 / 10000 < 1000) as Bms by dlia.
  assert (0 <= t / 10000000 < 922337203686) as HS by dlia.
  set (ms := t mod 10000000 / 10000) in *. set (S := t / 10000000) in *. clearbody ms S.
  assert (S = S / 86400 * 86400 + S mod 86400) as HSd by dlia.
  assert (0 <= S / 86400 <= 10675199) as Hn by dlia.
  assert (0 <= S mod 86400 < 86400) as Hsec by dlia.
  set (n := S / 86400) in *. set (sec := S mod 86400) in *. clearbody n sec.
  rewrite (u32_small n), (u32_small sec), (u32_small (1601 + n / 366)), (u32_small (1 + n)) by dlia.
  destruct (date_of_day n Hn) as (y & p & len & s & d & E1 & Hy & E2 & E3 & Hd & En).
  rewrite E1. cbn [mbind option_bind]. rewrite months_rd. cbn [mbind option_bind]. rewrite E2.
  cbn [mbind option_bind].
  assert (length p <= 11)%nat as Hp.
  { assert (length (months y) = 12%nat) as Hl by done. rewrite E3, length_app in Hl.
    simpl in Hl. lia. }
  assert (len <= 31) as Hlen.
  { pose proof (months_pos y) as Hm. rewrite E3 in Hm. apply Forall_app in Hm as [_ Hm].
    inversion_clear Hm. lia. }
  rewrite !s16_small by dlia.
  eexists _, n. split; [reflexivity|]. unfold clock, milliseconds_of_day.
  cbn [Year Month Day Hour Minute Second Milliseconds Weekday]. split_and!; try dlia.
  exists p, len, s. split_and!; [done|done|lia|lia|lia].
Qed.

Lemma clock_range tf : clock tf -> 0 <= milliseconds_of_day tf < MSPERDAY.
Proof. unfold clock, milliseconds_of_day, MSPERDAY. lia. Qed.

(** Up to the year 30827 every time fits in 63 bits. *)
Lemma calendar_day_fits y m d n :
  1601 <= y <= 30827 -> calendar_day y m d n -> 0 <= n <= 10674941.
Proof.
  intros Hy Hd. apply calendar_day_bounds in Hd as (B & _ & _).
  rewrite <- DaysSinceEpoch_succ in B by lia. rewrite !DaysSinceEpoch_closed in B by lia. dlia.
Qed.

Lemma time_fits y m d n tf :
  1601 <= y <= 30827 -> calendar_day y m d n -> clock tf ->
  0 <= (n * MSPERDAY + milliseconds_of_day tf) * TICKSPERMSEC < 2 ^ 63.
Proof.
  intros Hy Hd Hc%clock_range. pose proof (calendar_day_fits y m d n Hy Hd) as Hn.
  unfold MSPERDAY, TICKSPERMSEC in *. lia.
Qed.

(** ** Cutover times *)

(** The day [d] of a month of [len] days is the [k]-th one of its weekday, for [k = 5] the
    last one. *)
Definition occurrence (k d len : Z) : Prop :=
  if k <? 5 then 7 * (k - 1) < d <= 7 * k else d <= len < d + 7.

(** The time [t] is the cutover of the year [y] that the fields [c] describe. *)
Definition cutover_of (c : TIME_FIELDS) (y t : Z) : Prop :=
  exists n d len, calendar_day y (Month c) d n /\
    MonthLength (IsLeapYear y) (Month c - 1) = Some len /\
    (n + 1) mod 7 = Weekday c /\ occurrence (Day c) d len /\
    t = (n * MSPERDAY + milliseconds_of_day c) * TICKSPERMSEC.

Record recurring (c : TIME_FIELDS) : Prop := {
  rec_year : Year c = 0;
  rec_month : 1 <= Month c <= 12;
  rec_day : 1 <= Day c <= 5;
  rec_weekday : 0 <= Weekday c <= 6;
  rec_clock : clock c
}.

(** The day the code computes from the weekday [w] of the first of the month. *)
Definition cutover_day (w W k len : Z) : Z :=
  let first := if negb (w =? W) then 1 + (if w <? W then W - w else 7 - (w - W)) else 1 in
  if 1 <? k then
    let days := 7 * (k - 1) in first + (if len <? first + days then days - 7 else days)
  else first.

Lemma cutover_day_spec n w W k len :
  w = (n + 1) mod 7 -> 0 <= W <= 6 -> 1 <= k <= 5 -> 28 <= len <= 31 ->
  let d := cutover_day w W k len in
  1 <= d <= len /\ (n + (d - 1) + 1) mod 7 = W /\ occurrence k d len.
Proof.
  intros -> HW Hk Hlen. unfold cutover_day, occurrence.
  assert (0 <= (n + 1) mod 7 < 7) as Hw by (apply Z.mod_pos_bound; lia).
  zcases; cbv zeta; simpl; zcases; simpl; try lia; cbn [negb] in *; split_and!; try lia; dlia.
Qed.

Lemma CutoverTime_spec c cur (next : bool) y :
  recurring c -> y = (if next then Year cur + 1 else Year cur) -> 1601 <= y <= 30827 ->
  exists t, CutoverTime c cur next = Some (Some t) /\ cutover_of c y t.
Proof.
  intros [_ Hm Hk HW Hc] Ey Hy. unfold CutoverTime.
  replace (if next then s16 (Year cur + 1) else Year cur) with y
    by (destruct next; rewrite ?s16_small by lia; done).
  destruct (rd_in_range (months y) (Month c - 1)) as [len Hlen]; [simpl; lia|].
  assert (28 <= len <= 31) as Hl.
  { pose proof (months_pos y) as Hp. apply rd_Some_inv in Hlen as [_ Hlen].
    by apply (Forall_lookup_1 _ _ _ _ Hp Hlen). }
  assert (MonthLength (IsLeapYear y) (Month c - 1) = Some len) as HM
    by (unfold MonthLength; by rewrite months_rd).
  destruct (calendar_day_exists y (Month c) 1 len HM) as [n1 Hd1]; [lia|].
  assert (forall d n, calendar_day y (Month c) d n -> RtlTimeFieldsToTime
            (mkTime y (Month c) d (Hour c) (Minute c) (Second c) (Milliseconds c) 0)
            = Some (Some ((n * MSPERDAY + milliseconds_of_day c) * TICKSPERMSEC))) as Hadj.
  { intros d n Hd. apply (RtlTimeFieldsToTime_spec (mkTime y (Month c) d _ _ _ _ 0) n);
      [done|simpl; lia|done|]. by apply (time_fits y (Month c) d). }
  cbv beta zeta. rewrite (Hadj 1 n1 Hd1). cbn [mbind option_bind].
  destruct (RtlTimeToTimeFields_spec ((n1 * MSPERDAY + milliseconds_of_day c) * TICKSPERMSEC))
    as (tf & n & -> & Hc' & _ & _ & Hw & Hn); [by apply (time_fits y (Month c) 1)|].
  cbn [mbind option_bind].
  assert (n = n1) as ->.
  { rewrite Z.div_mul in Hn by done. pose proof (clock_range _ Hc). pose proof (clock_range _ Hc').
    unfold MSPERDAY in *. lia. }
  pose proof (cutover_day_spec n1 (Weekday tf) (Weekday c) (Day c) len Hw HW Hk Hl) as (D1 & D2 & D3).
  assert (exists n, calendar_day y (Month c) (cutover_day (Weekday tf) (Weekday c) (Day c) len) n /\
            n = n1 + (cutover_day (Weekday tf) (Weekday c) (Day c) len - 1)) as (n2 & Hd2 & En2).
  { destruct Hd1 as (p & len' & s & E & Em & _ & En). eexists. split; [|reflexivity].
    pose proof (MonthLength_spec _ _ _ _ E) as HM'. replace (Z.of_nat (length p)) with (Month c - 1)
      in HM' by lia. simplify_eq. eexists p, _, s. split_and!; [done|done|lia|lia|lia]. }
  assert (0 <= Weekday tf < 7) as Hw7 by (rewrite Hw; apply Z.mod_pos_bound; lia).
  exists ((n2 * MSPERDAY + milliseconds_of_day c) * TICKSPERMSEC). split.
  2:{ exists n2, (cutover_day (Weekday tf) (Weekday c) (Day c) len), len. by subst n2. }
  rewrite <- (Hadj _ _ Hd2), HM. cbn [mbind option_bind]. unfold cutover_day, DAYSPERWEEK.
  set (first := if negb (Weekday tf =? Weekday c) then 1 + _ else 1).
  replace (if negb (Weekday tf =? Weekday c)
           then s16 (1 + s16 (if Weekday tf <? Weekday c then Weekday c - Weekday tf
                              else 7 - (Weekday tf - Weekday c)))
           else 1) with first
    by (subst first; zcases; cbn [negb];
        rewrite ?(s16_small (Weekday c - _)), ?(s16_small (7 - _)) by lia;
        rewrite ?s16_small by lia; done).
  assert (1 <= first <= 7) as Hf by (subst first; zcases; simpl; lia).
  clearbody first. rewrite (s16_small (7 * _)) by lia.
  destruct (1 <? Day c); [|done]. cbn [mbind option_bind].
  destruct (Z.ltb_spec len (first + 7 * (Day c - 1))); rewrite ?(s16_small (7 * _ - 7)) by lia;
    by rewrite s16_small by lia.
Qed.

Lemma SecondsSince_spec ticks t :
  0 <= ticks < 2 ^ 58 -> - 2 ^ 63 <= t < 2 ^ 63 ->
  SecondsSince ticks t
  = if (ticks - TICKSPERSEC <? t) && (t <? ticks + 2 ^ 32 * TICKSPERSEC)
    then Some (Z.quot (t - ticks) TICKSPERSEC) else None.
Proof.
  intros Hk Ht. unfold SecondsSince, TICKSPERSEC. set (x := s64 (t - ticks)).
  assert (x = t - ticks \/ 2 ^ 62 < x < 2 ^ 63 /\ t < - 2 ^ 62) as Hx.
  { unfold x, s64, swrap. destruct (decide (- 2 ^ 63 <= t - ticks)); [left|right]; dlia. }
  assert (- 2 ^ 63 <= x < 2 ^ 63) as Hr.
  { destruct Hx; [|lia]. unfold x, s64, swrap. dlia. }
  clearbody x. rewrite Z.shiftr_div_pow2 by lia.
  pose proof (Z.quot_rem x 10000000 ltac:(lia)) as Eq.
  destruct (Z_le_gt_dec 0 x) as [Hp|Hp].
  - rewrite Z.quot_div_nonneg in * by lia. assert (0 <= x / 10000000 < 2 ^ 63) by dlia.
    rewrite u64_small by lia.
    destruct (Z.eqb_spec (x / 10000000 / 2 ^ 32) 0) as [E|E]; cbn [negb].
    + assert (x / 10000000 < 2 ^ 32) by dlia. rewrite u32_small by lia.
      destruct Hx as [->|?]; [|dlia]. rewrite Z.quot_div_nonneg by lia.
      zcases; simpl; try done; dlia.
    + destruct Hx as [->|?]; zcases; simpl; try done; try lia; exfalso; apply E;
        apply Z.div_small; dlia.
  - destruct Hx as [->|?]; [|lia].
    pose proof (Z.rem_bound_pos_neg (t - ticks) 10000000 ltac:(lia) ltac:(lia)).
    set (q := Z.quot (t - ticks) 10000000) in *. set (r := Z.rem (t - ticks) 10000000) in *.
    clearbody q r. destruct (decide (q = 0)) as [->|Hq].
    + simpl. zcases; simpl; try lia. reflexivity.
    + assert (u64 q = 2 ^ 64 + q) as -> by (unfold u64; dlia).
      rewrite (proj2 (Z.eqb_neq _ 0)) by dlia. simpl. zcases; simpl; try lia; done.
Qed.

(** ** The Gregorian calendar, day after day *)

Definition leap_year (y : Z) : bool := bool_decide (y mod 4 = 0 /\ (y mod 100 = 0 -> y mod 400 = 0)).

Definition days_in_month (y m : Z) : Z :=
  if bool_decide (m = 2) then if leap_year y then 29 else 28
  else if bool_decide (m ∈ [4; 6; 9; 11]) then 30 else 31.

Definition next_day (date : Z * Z * Z) : Z * Z * Z :=
  let '(y, m, d) := date in
  if d <? days_in_month y m then (y, m, d + 1)
  else if m <? 12 then (y, m + 1, 1) else (y + 1, 1, 1).

(** The date [n] days after 1601-01-01, which was a Monday. *)
Definition date_of (n : Z) : Z * Z * Z := Nat.iter (Z.to_nat n) next_day (1601, 1, 1).

Lemma leap_year_spec y : 0 <= y -> IsLeapYear y = if leap_year y then 1 else 0.
Proof.
  intros Hy. rewrite IsLeapYear_mod by done. unfold leap_year. case_bool_decide as H.
  - rewrite (proj2 (Z.eqb_eq _ _)) by apply H. destruct (Z.eqb_spec (y mod 100) 0); [|done].
    by rewrite (proj2 (Z.eqb_eq _ _)) by naive_solver.
  - destruct (Z.eqb_spec (y mod 4) 0), (Z.eqb_spec (y mod 100) 0), (Z.eqb_spec (y mod 400) 0);
      simpl; naive_solver.
Qed.

Lemma days_in_month_spec y p len s :
  0 <= y -> months y = p ++ len :: s -> days_in_month y (Z.of_nat (length p) + 1) = len.
Proof.
  intros Hy E. assert (months y !! length p = Some len) as L by (rewrite E; by apply list_lookup_middle).
  unfold months in L. rewrite leap_year_spec in L by done. unfold days_in_month.
  do 12 (destruct p as [|? p]; [simpl in L |- *; simplify_eq; by destruct (leap_year y)|]). done.
Qed.

Lemma calendar_day_next y m d n :
  1601 <= y < 90000 -> calendar_day y m d n ->
  let '(y', m', d') := next_day (y, m, d) in calendar_day y' m' d' (n + 1) /\ y <= y' <= y + 1.
Proof.
  intros Hy (p & len & s & E & -> & Hd & ->). unfold next_day. rewrite (days_in_month_spec y p len s) by (done || lia).
  destruct (Z.ltb_spec d len).
  { split; [|lia]. exists p, len, s. split_and!; [done|done|lia|lia|lia]. }
  assert (length (months y) = 12%nat) as L by done. rewrite E, length_app in L. simpl in L.
  destruct s as [|l2 s].
  - rewrite (proj2 (Z.ltb_ge _ _)) by (simpl in L; lia). split; [|lia].
    exists [], 31, (drop 1 (months (y + 1))). split_and!; [done|done|lia|lia|].
    rewrite DaysSinceEpoch_succ, <- months_sum, E, sum_app by lia. simpl. lia.
  - rewrite (proj2 (Z.ltb_lt _ _)) by (simpl in L; lia). split; [|lia].
    pose proof (months_pos y) as Hp. rewrite E in Hp. apply Forall_app in Hp as [_ Hp].
    inversion_clear Hp as [|? ? _ Hp']. inversion_clear Hp'.
    exists (p ++ [len]), l2, s. split_and!; [by rewrite <- app_assoc|rewrite length_app; simpl; lia|lia|lia|].
    rewrite sum_app. simpl. lia.
Qed.

Lemma date_of_calendar (n : nat) : Z.of_nat n <= 11000000 ->
  let '(y, m, d) := date_of (Z.of_nat n) in calendar_day y m d (Z.of_nat n) /\ 1601 <= y /\ 365 * (y - 1601) <= Z.of_nat n.
Proof.
  unfold date_of. rewrite Nat2Z.id. induction n as [|n IH]; intros Hn.
  - split; [|lia]. exists [], 31, (drop 1 (months 1601)). split_and!; [done|done|lia|lia|]. reflexivity.
  - specialize (IH ltac:(lia)). rewrite Nat.iter_succ. destruct (Nat.iter n next_day _) as [[y m] d].
    destruct IH as (Hc & Hy & Hb). pose proof (calendar_day_next y m d _ ltac:(lia) Hc) as Hnext.
    destruct (next_day (y, m, d)) as [[y' m'] d']. destruct Hnext as [Hc' Hy'].
    replace (Z.of_nat (S n)) with (Z.of_nat n + 1) by lia. split; [done|]. split; [lia|].
    apply calendar_day_bounds in Hc' as [B _]. rewrite DaysSinceEpoch_closed in B by lia. dlia.
Qed.

Lemma date_of_unique y m d n :
  0 <= n <= 11000000 -> 1601 <= y < 90000 -> calendar_day y m d n -> date_of n = (y, m, d).
Proof.
  intros Hn Hy Hc. pose proof (date_of_calendar (Z.to_nat n) ltac:(lia)) as H. rewrite Z2Nat.id in H by lia.
  destruct (date_of n) as [[y' m'] d']. destruct H as (Hc' & Hy1 & Hy2).
  destruct (calendar_day_unique y' m' d' y m d n) as (-> & -> & ->); by (done || lia).
Qed.

(** ** Properties *)

(** C34: every system time from 1601 on is converted to the date of the Gregorian calendar that
    lies its number of whole days after 1601-01-01, with the weekday counted from the Monday
    of that day, and to its time of day; converting the fields back gives the time rounded
    down to the millisecond. *)
Theorem time_to_fields_roundtrip t :
  0 <= t < 2 ^ 63 ->
  let n := t / 864000000000 in
  exists tf, RtlTimeToTimeFields t = Some tf /\
    (Year tf, Month tf, Day tf) = date_of n /\ Weekday tf = (n + 1) mod 7 /\
    clock tf /\ milliseconds_of_day tf = t mod 864000000000 / 10000 /\
    RtlTimeFieldsToTime tf = Some (Some (t - t mod TICKSPERMSEC)).
Proof.
  intros Ht n. destruct (RtlTimeToTimeFields_spec t Ht) as (tf & n' & E & Hc & Hy & Hd & Hw & Hm).
  assert (t / TICKSPERMSEC * TICKSPERMSEC = t - t mod TICKSPERMSEC) as Et
    by (unfold TICKSPERMSEC; dlia).
  pose proof (clock_range _ Hc) as Hr. unfold MSPERDAY, TICKSPERMSEC in *.
  assert (n' = n) as -> by (unfold n; dlia).
  exists tf. split_and!; [done| |done|done|unfold n in Hm; dlia|].
  - symmetry. apply date_of_unique; [unfold n; dlia|lia|done].
  - rewrite (RtlTimeFieldsToTime_spec tf n); unfold MSPERDAY, TICKSPERMSEC; rewrite ?Hm, ?Et; [done|done|lia|done|dlia].
Qed.

Lemma time_to_fields_roundtrip_witness :
  let n := 125911584000012345 / 864000000000 in
  exists tf, RtlTimeToTimeFields 125911584000012345 = Some tf /\
    (Year tf, Month tf, Day tf) = date_of n /\ Weekday tf = (n + 1) mod 7 /\
    clock tf /\ milliseconds_of_day tf = 125911584000012345 mod 864000000000 / 10000 /\
    RtlTimeFieldsToTime tf = Some (Some 125911584000010000).
Proof. apply (time_to_fields_roundtrip 125911584000012345). lia. Defined.

(** Tuesday 2000-02-29 in both calendars. *)
Lemma date_of_example :
  date_of 145790 = (2000, 2, 29) /\ (145790 + 1) mod 7 = 2 /\
  RtlTimeToTimeFields (145790 * 864000000000) = Some (mkTime 2000 2 29 0 0 0 0 2).
Proof. vm_compute. by repeat split. Qed.

(** the fields of a valid date up to the year 30827 are converted to a time that is
    converted back to the same fields (the weekday is computed, not read). *)
Theorem fields_to_time_roundtrip tf :
  valid_fields tf -> Year tf <= 30827 ->
  exists t w, RtlTimeFieldsToTime tf = Some (Some t) /\ 0 <= t < 2 ^ 63 /\
    RtlTimeToTimeFields t = Some (mkTime (Year tf) (Month tf) (Day tf) (Hour tf) (Minute tf)
                                         (Second tf) (Milliseconds tf) w).
Proof.
  intros (Hc & Hy & n & Hd) Hy'. pose proof (time_fits _ _ _ _ tf (conj Hy Hy') Hd Hc) as Ht.
  exists ((n * MSPERDAY + milliseconds_of_day tf) * TICKSPERMSEC).
  destruct (RtlTimeToTimeFields_spec _ Ht) as (tf' & n' & E & Hc' & Hz & Hd' & _ & Hm).
  exists (Weekday tf'). split_and!; [|lia|lia|].
  { apply RtlTimeFieldsToTime_spec; [done|lia|done|lia]. }
  rewrite E. rewrite Z.div_mul in Hm by done.
  pose proof (clock_range _ Hc). pose proof (clock_range _ Hc').
  assert (n' = n) as -> by (unfold MSPERDAY in *; lia).
  assert (milliseconds_of_day tf' = milliseconds_of_day tf) as Hms by lia.
  edestruct calendar_day_unique as (E1 & E2 & E3); [| |exact Hd'|exact Hd|]; [lia|lia|].
  destruct tf as [y m d h mi s ms w], tf' as [y' m' d' h' mi' s' ms' w'].
  unfold clock, milliseconds_of_day in *. simpl in *. subst. do 2 f_equal; lia.
Qed.

Lemma fields_to_time_roundtrip_witness :
  exists t w, RtlTimeFieldsToTime (mkTime 2000 2 29 23 59 59 999 0) = Some (Some t) /\
    0 <= t < 2 ^ 63 /\ RtlTimeToTimeFields t = Some (mkTime 2000 2 29 23 59 59 999 w).
Proof.
  apply (fields_to_time_roundtrip (mkTime 2000 2 29 23 59 59 999 0)); [|simpl; lia].
  split; [unfold clock; simpl; lia|]. split; [simpl; lia|].
  apply (calendar_day_exists 2000 2 29 29); [reflexivity|lia].
Defined.

(** [RtlTimeFieldsToTime] never faults and refuses exactly the fields that are not
    those of a valid date from 1601 on. *)
Theorem fields_to_time_total tf :
  Year tf < 2 ^ 15 ->
  exists r, RtlTimeFieldsToTime tf = Some r /\ (r = None <-> ~ valid_fields tf).
Proof.
  intros Hy. unfold RtlTimeFieldsToTime.
  destruct (InvalidFields_spec tf) as (b & -> & Hv). cbn [mbind option_bind]. destruct b.
  - exists None. split; [done|]. split; [|done]. intros _ [=]%Hv.
  - destruct (proj1 Hv eq_refl) as (_ & Hy' & n & p & len & s & E & Em & _).
    rewrite Em. replace 1 with (Z.of_nat (length (@nil Z)) + 1) at 2 by done.
    replace (Z.of_nat (length p) + 1) with (Z.of_nat (length (@nil Z) + length p) + 1) by done.
    assert (length (months (Year tf)) = 12%nat) as Hl by done.
    rewrite E, length_app in Hl. simpl in Hl.
    rewrite (AddMonths_spec _ _ [] p (len :: s)); [|done|lia|].
    + cbn [mbind option_bind]. eexists; split; [done|]. split; [done|]. intros Hn.
      destruct Hn. by apply Hv.
    + rewrite DaysSinceEpoch_closed by lia. dlia.
Qed.

Lemma fields_to_time_total_witness :
  exists r, RtlTimeFieldsToTime (mkTime 1900 2 29 0 0 0 0 0) = Some r /\
    (r = None <-> ~ valid_fields (mkTime 1900 2 29 0 0 0 0 0)).
Proof. apply (fields_to_time_total (mkTime 1900 2 29 0 0 0 0 0)). simpl. lia. Defined.

(** [RtlTimeFieldsToTime] accepts years whose time does not fit in a [LARGE_INTEGER]:
    the 64-bit arithmetic overflows and the time is negative although the call succeeds. *)
Theorem fields_to_time_overflow :
  exists tf t, valid_fields tf /\ Year tf < 2 ^ 15 /\
    RtlTimeFieldsToTime tf = Some (Some t) /\ t < 0.
Proof.
  exists (mkTime 32767 1 1 0 0 0 0 0), (-8611705065709551616). split_and!.
  - split; [unfold clock; simpl; lia|]. split; [simpl; lia|].
    apply (calendar_day_exists 32767 1 1 31); [reflexivity|lia].
  - simpl. lia.
  - vm_compute. reflexivity.
  - lia.
Qed.

(** a recurring cutover: for a current time before the year 30827,
    [RtlCutoverTimeToSystemTime] returns the cutover of the current year or, when that one
    is in the past and not the only one asked for, of the next year; a cutover is on the
    given weekday of the month, its first to fourth or its last occurrence, at the given
    time of day. *)
Theorem recurring_cutover c st now only tf :
  recurring c -> 0 <= now < 2 ^ 63 -> RtlTimeToTimeFields now = Some tf -> Year tf < 30827 ->
  exists t, RtlCutoverTimeToSystemTime c st now only = Some (true, t) /\
    (cutover_of c (Year tf) t /\ (only = true \/ now <= t) \/
     cutover_of c (Year tf + 1) t /\ only = false /\
       exists t0, cutover_of c (Year tf) t0 /\ t0 < now).
Proof.
  intros Hr Hn E Hy. unfold RtlCutoverTimeToSystemTime. pose proof Hr as [Hr1 _ Hr2 _ _].
  rewrite Hr1. simpl. rewrite (proj2 (Z.eqb_neq (Day c) 0)), (proj2 (Z.ltb_ge 5 (Day c))) by lia.
  simpl. rewrite E. cbn [mbind option_bind].
  destruct (RtlTimeToTimeFields_spec now Hn) as (tf2 & _ & E' & _ & Hy' & _).
  simplify_eq.
  destruct (CutoverTime_spec c tf false (Year tf)) as (t & -> & Ht); [done|done|lia|].
  cbn [mbind option_bind]. destruct only; simpl; [eauto 10|].
  destruct (Z.leb_spec now t); [eauto 10|].
  destruct (CutoverTime_spec c tf true (Year tf + 1)) as (t' & -> & Ht'); [done|done|lia|].
  cbn [mbind option_bind]. exists t'. split; [done|]. right. eauto 10.
Qed.

Lemma recurring_cutover_witness :
  exists t, RtlCutoverTimeToSystemTime (mkTime 0 10 5 3 0 0 0 0) 0 129000000000000000 false
              = Some (true, t).
Proof.
  destruct (recurring_cutover (mkTime 0 10 5 3 0 0 0 0) 0 129000000000000000 false
    (mkTime 2009 10 14 13 20 0 0 3)) as (t & E & _).
  - split; unfold clock; simpl; lia.
  - lia.
  - vm_compute. reflexivity.
  - simpl. lia.
  - exists t. exact E.
Defined.

(** the seconds since 1970 (1980) survive the conversion to a time and back, and a
    time is accepted exactly when it is less than one second before that date and less
    than [2^32] seconds behind it, its result being the truncated number of seconds. *)
Theorem seconds_since_roundtrip s t :
  0 <= s < 2 ^ 32 -> - 2 ^ 63 <= t < 2 ^ 63 ->
  RtlTimeToSecondsSince1970 (RtlSecondsSince1970ToTime s) = Some s /\
  RtlTimeToSecondsSince1980 (RtlSecondsSince1980ToTime s) = Some s /\
  RtlTimeToSecondsSince1970 t
    = (if (TICKSTO1970 - TICKSPERSEC <? t) && (t <? TICKSTO1970 + 2 ^ 32 * TICKSPERSEC)
       then Some (Z.quot (t - TICKSTO1970) TICKSPERSEC) else None) /\
  RtlTimeToSecondsSince1980 t
    = (if (TICKSTO1980 - TICKSPERSEC <? t) && (t <? TICKSTO1980 + 2 ^ 32 * TICKSPERSEC)
       then Some (Z.quot (t - TICKSTO1980) TICKSPERSEC) else None).
Proof.
  intros Hs Ht.
  assert (forall k, 0 <= k < 2 ^ 58 -> SecondsSince k (s64 (s * TICKSPERSEC + k)) = Some s) as Hrt.
  { intros k Hk. unfold TICKSPERSEC. rewrite s64_small, SecondsSince_spec by lia. unfold TICKSPERSEC.
    replace (s * 10000000 + k - k) with (s * 10000000) by lia. rewrite Z.quot_mul by lia.
    zcases; simpl; try lia. done. }
  split_and!; [apply Hrt|apply Hrt|apply SecondsSince_spec|apply SecondsSince_spec];
    unfold TICKSTO1970, TICKSTO1980; lia.
Qed.

Lemma seconds_since_roundtrip_witness :
  RtlTimeToSecondsSince1970 (RtlSecondsSince1970ToTime 1234567890) = Some 1234567890.
Proof. apply (seconds_since_roundtrip 1234567890 0); lia. Defined.

(** when the system answers the query of the time zone bias, converting a system time
    to local time and back is the identity, overflow included; otherwise both functions
    return the status of the query and store nothing. *)
Theorem local_time_roundtrip status bias t :
  - 2 ^ 63 <= t < 2 ^ 63 ->
  (NT_SUCCESS status = true -> exists l,
     RtlSystemTimeToLocalTime (status, bias) t = (STATUS_SUCCESS, Some l) /\
     RtlLocalTimeToSystemTime (status, bias) l = (STATUS_SUCCESS, Some t)) /\
  (NT_SUCCESS status = false ->
     RtlSystemTimeToLocalTime (status, bias) t = (status, None) /\
     RtlLocalTimeToSystemTime (status, bias) t = (status, None)).
Proof.
  intros Ht. unfold RtlSystemTimeToLocalTime, RtlLocalTimeToSystemTime.
  split; intros ->; simpl; [|done]. eexists; split; [done|]. do 2 f_equal.
  unfold s64, swrap. change (64 - 1) with 63.
  replace ((t - bias + 2 ^ 63) mod 2 ^ 64 - 2 ^ 63 + bias + 2 ^ 63)
    with ((t - bias + 2 ^ 63) mod 2 ^ 64 + bias) by lia.
  rewrite Z.add_mod_idemp_l by lia. rewrite Z.mod_small by lia. lia.
Qed.

Lemma local_time_roundtrip_witness :
  exists l, RtlSystemTimeToLocalTime (STATUS_SUCCESS, 36000000000) 0 = (STATUS_SUCCESS, Some l) /\
    RtlLocalTimeToSystemTime (STATUS_SUCCESS, 36000000000) l = (STATUS_SUCCESS, Some 0).
Proof. apply (local_time_roundtrip STATUS_SUCCESS 36000000000 0); [lia|reflexivity]. Defined.

(** [RtlTimeToElapsedTimeFields] splits a positive interval: its days (below 32768),
    hours, minutes, seconds and milliseconds add up to the interval rounded down to the
    millisecond; the months and years are 0. *)
Theorem elapsed_time_fields t w :
  0 <= t < 32768 * MSPERDAY * TICKSPERMSEC ->
  let tf := RtlTimeToElapsedTimeFields t w in
  clock tf /\ Year tf = 0 /\ Month tf = 0 /\ Weekday tf = w /\
  Day tf * MSPERDAY + milliseconds_of_day tf = t / TICKSPERMSEC.
Proof.
  unfold MSPERDAY, TICKSPERMSEC. intros Ht. unfold RtlTimeToElapsedTimeFields.
  unfold TICKSPERSEC, TICKSPERMSEC, SECSPERDAY, SECSPERHOUR, SECSPERMIN.
  rewrite Z.rem_mod_nonneg, Z.quot_div_nonneg, u64_small by dlia.
  rewrite (u32_small (_ mod 86400)) by dlia.
  assert (t / 10000 = t / 10000000 * 1000 + t mod 10000000 / 10000) as Hms by dlia.
  assert (0 <= t mod 10000000 / 10000 < 1000) as Bms by dlia.
  assert (0 <= t / 10000000 < 32768 * 86400) as HS by dlia.
  set (ms := t mod 10000000 / 10000) in *. set (S := t / 10000000) in *. clearbody ms S.
  assert (S = S / 86400 * 86400 + S mod 86400) as HSd by dlia.
  assert (0 <= S / 86400 < 32768) as Hn by dlia.
  assert (0 <= S mod 86400 < 86400) as Hsec by dlia.
  set (n := S / 86400) in *. set (sec := S mod 86400) in *. clearbody n sec.
  rewrite !s16_small by dlia. unfold clock, milliseconds_of_day. simpl.
  split_and!; try done; dlia.
Qed.

Lemma elapsed_time_fields_witness :
  let tf := RtlTimeToElapsedTimeFields 1000000000000 0 in
  Day tf * MSPERDAY + milliseconds_of_day tf = 100000000.
Proof. apply (elapsed_time_fields 1000000000000 0). vm_compute. split; [discriminate|reflexivity]. Defined.
