(* ===== verification/LargeInt.v ===== *)
(** * Large integers (sdk/lib/rtl/largeint.c)

    A [LARGE_INTEGER] is its signed 64-bit value [QuadPart].  The 64-bit products, shifts and
    negations wrap around; a division by zero is a fault.  A shift count is not negative. *)

From Stdlib Require Import ZArith Lia Bool.
From stdpp Require Import base option numbers.
From S2P Require Import Prelude.
Open Scope Z_scope.

Definition RtlConvertLongToLargeInteger (SignedInteger : Z) : Z := SignedInteger.
Definition RtlConvertUlongToLargeInteger (UnsignedInteger : Z) : Z := UnsignedInteger.

Definition RtlEnlargedIntegerMultiply (Multiplicand Multiplier : Z) : Z := s64 (Multiplicand * Multiplier).

(** The quotient and [*Remainder]. *)
Definition RtlEnlargedUnsignedDivide (Dividend Divisor : Z) : option (Z * Z) :=
  if Divisor =? 0 then None else Some (u32 (Dividend / Divisor), u32 (Dividend mod Divisor)).

Definition RtlEnlargedUnsignedMultiply (Multiplicand Multiplier : Z) : Z := s64 (Multiplicand * Multiplier).

Definition RtlExtendedIntegerMultiply (Multiplicand Multiplier : Z) : Z := s64 (Multiplicand * Multiplier).

Definition RtlExtendedLargeIntegerDivide (Dividend Divisor : Z) : option (Z * Z) :=
  if Divisor =? 0 then None else Some (Z.quot Dividend Divisor, u32 (Z.rem Dividend Divisor)).

Definition LOWER_32 (A : Z) : Z := Z.land A 0xffffffff.
Definition UPPER_32 (A : Z) : Z := Z.shiftr A 32.

Definition RtlExtendedMagicDivide (Dividend MagicDivisor ShiftCount : Z) : Z :=
  let '(dividend_high, dividend_low, positive) :=
    if Dividend <? 0 then (UPPER_32 (u64 (- Dividend)), LOWER_32 (u64 (- Dividend)), false)
    else (UPPER_32 (u64 Dividend), LOWER_32 (u64 Dividend), true) in
  let inverse_divisor_high := UPPER_32 (u64 MagicDivisor) in
  let inverse_divisor_low := LOWER_32 (u64 MagicDivisor) in
  let ah_bl := u64 (dividend_high * inverse_divisor_low) in
  let al_bh := u64 (dividend_low * inverse_divisor_high) in
  let result :=
    s64 (Z.shiftr
      (u64 (dividend_high * inverse_divisor_high + UPPER_32 ah_bl + UPPER_32 al_bh +
            UPPER_32 (u64 (LOWER_32 ah_bl + LOWER_32 al_bh + UPPER_32 (u64 (dividend_low * inverse_divisor_low))))))
      ShiftCount) in
  if (positive : bool) then result else s64 (- result).

Definition RtlLargeIntegerAdd (Addend1 Addend2 : Z) : Z := s64 (Addend1 + Addend2).

(** The high part is a LONG; the shift instruction of the processor takes the count modulo 32. *)
Definition RtlLargeIntegerArithmeticShift (LargeInteger ShiftCount : Z) : Z :=
  let Shift := Z.rem ShiftCount 64 in
  if Shift <? 32 then Z.shiftr LargeInteger Shift
  else
    let HighPart := s32 (Z.shiftr LargeInteger 32) in
    s64 (Z.lor (Z.shiftl (Z.land (u32 HighPart) 0x80000000) 32) (u32 (Z.shiftr HighPart (Shift mod 32)))).

Definition RtlLargeIntegerDivide (Dividend Divisor : Z) : option (Z * Z) :=
  if Divisor =? 0 then None else Some (s64 (Z.quot Dividend Divisor), Z.rem Dividend Divisor).

Definition RtlLargeIntegerNegate (Subtrahend : Z) : Z := s64 (- Subtrahend).

Definition RtlLargeIntegerShiftLeft (LargeInteger ShiftCount : Z) : Z :=
  s64 (Z.shiftl LargeInteger (Z.rem ShiftCount 64)).

Definition RtlLargeIntegerShiftRight (LargeInteger ShiftCount : Z) : Z :=
  Z.shiftr LargeInteger (Z.rem ShiftCount 64).

Definition RtlLargeIntegerSubtract (Minuend Subtrahend : Z) : Z := s64 (Minuend - Subtrahend).

(** ** The magic division *)

Lemma LOWER_32_mod a : LOWER_32 a = a mod 2 ^ 32.
Proof. unfold LOWER_32. change 0xffffffff with (Z.ones 32). apply Z.land_ones. lia. Qed.

Lemma UPPER_32_div a : UPPER_32 a = a / 2 ^ 32.
Proof. unfold UPPER_32. apply Z.shiftr_div_pow2. lia. Qed.

(** The high half of a product of 64-bit numbers from the products of their halves. *)
Lemma high_product a b :
  0 <= a -> 0 <= b ->
  let ah := a / 2 ^ 32 in let al := a mod 2 ^ 32 in
  let bh := b / 2 ^ 32 in let bl := b mod 2 ^ 32 in
  a * b / 2 ^ 64 =
  ah * bh + ah * bl / 2 ^ 32 + al * bh / 2 ^ 32 +
  ((ah * bl) mod 2 ^ 32 + (al * bh) mod 2 ^ 32 + al * bl / 2 ^ 32) / 2 ^ 32.
Proof.
  intros Ha Hb ah al bh bl.
  pose proof (Z.div_mod a (2 ^ 32)) as Ea. pose proof (Z.div_mod b (2 ^ 32)) as Eb.
  fold ah al in Ea. fold bh bl in Eb.
  pose proof (Z.div_mod (ah * bl) (2 ^ 32)) as E1. pose proof (Z.div_mod (al * bh) (2 ^ 32)) as E2.
  pose proof (Z.div_mod (al * bl) (2 ^ 32)) as E3.
  set (x := (ah * bl) mod 2 ^ 32 + (al * bh) mod 2 ^ 32 + al * bl / 2 ^ 32).
  pose proof (Z.div_mod x (2 ^ 32)) as E4. pose proof (Z.mod_pos_bound x (2 ^ 32)).
  pose proof (Z.mod_pos_bound (al * bl) (2 ^ 32)).
  symmetry. apply (Z.div_unique _ _ _ (2 ^ 32 * (x mod 2 ^ 32) + (al * bl) mod 2 ^ 32)); [lia|].
  change (2 ^ 64) with (2 ^ 32 * 2 ^ 32). rewrite Ea, Eb by lia. unfold x in *. nia.
Qed.

(** The quotient that [RtlExtendedMagicDivide] computes, for the magnitudes. *)
Definition magic (a b s : Z) : Z := a * b / 2 ^ (64 + s).

Lemma magic_range a b s : 0 <= a <= 2 ^ 63 -> 0 <= b < 2 ^ 64 -> 0 <= s -> 0 <= magic a b s < 2 ^ 63.
Proof.
  intros Ha Hb Hs. unfold magic. rewrite Z.pow_add_r by lia.
  pose proof (Z.pow_pos_nonneg 2 s ltac:(lia) Hs).
  split; [apply Z.div_pos; nia|]. apply Z.div_lt_upper_bound; nia.
Qed.

(** The four partial products do not overflow. *)
Lemma magic_parts a b s :
  0 <= a <= 2 ^ 63 -> 0 <= b < 2 ^ 64 -> 0 <= s ->
  let ah_bl := u64 (UPPER_32 a * LOWER_32 b) in let al_bh := u64 (LOWER_32 a * UPPER_32 b) in
  Z.shiftr
    (u64 (UPPER_32 a * UPPER_32 b + UPPER_32 ah_bl + UPPER_32 al_bh +
          UPPER_32 (u64 (LOWER_32 ah_bl + LOWER_32 al_bh + UPPER_32 (u64 (LOWER_32 a * LOWER_32 b)))))) s
  = magic a b s.
Proof.
  intros Ha Hb Hs ah_bl al_bh. subst ah_bl al_bh. rewrite !UPPER_32_div, !LOWER_32_mod.
  assert (0 <= a / 2 ^ 32 <= 2 ^ 31 /\ 0 <= b / 2 ^ 32 < 2 ^ 32) as [A B] by dlia.
  assert (0 <= a mod 2 ^ 32 < 2 ^ 32 /\ 0 <= b mod 2 ^ 32 < 2 ^ 32) as [A' B'] by dlia.
  rewrite (u64_small (a / 2 ^ 32 * _)), (u64_small (a mod 2 ^ 32 * (b / _))),
    (u64_small (a mod 2 ^ 32 * (b mod _))) by nia.
  pose proof (high_product a b ltac:(lia) ltac:(lia)) as E. cbn zeta in E.
  set (x := (a / 2 ^ 32 * (b mod 2 ^ 32)) mod 2 ^ 32 + _ + _) in *.
  assert (0 <= a mod 2 ^ 32 * (b mod 2 ^ 32) / 2 ^ 32 < 2 ^ 32)
    by (split; [apply Z.div_pos; nia|apply Z.div_lt_upper_bound; nia]).
  assert (0 <= x < 2 ^ 34).
  { unfold x. pose proof (Z.mod_pos_bound (a / 2 ^ 32 * (b mod 2 ^ 32)) (2 ^ 32)).
    pose proof (Z.mod_pos_bound (a mod 2 ^ 32 * (b / 2 ^ 32)) (2 ^ 32)). lia. }
  rewrite (u64_small x) by lia. rewrite <- E. rewrite u64_small.
  - unfold magic. rewrite Z.shiftr_div_pow2, Z.pow_add_r, Z.div_div by lia. done.
  - split; [apply Z.div_pos; nia|apply Z.div_lt_upper_bound; nia].
Qed.

Lemma magic_divide_run D M s :
  - 2 ^ 63 <= D < 2 ^ 63 -> 0 <= s < 64 ->
  RtlExtendedMagicDivide D M s = Z.sgn D * magic (Z.abs D) (u64 M) s.
Proof.
  intros HD Hs. unfold RtlExtendedMagicDivide. pose proof (u64_range M) as HM.
  pose proof (magic_range (Z.abs D) (u64 M) s ltac:(lia) HM ltac:(lia)) as Hr.
  destruct (Z.ltb_spec D 0).
  - rewrite (u64_small (- D)) by lia. rewrite (magic_parts (- D)) by lia.
    replace (Z.abs D) with (- D) in * by lia. rewrite !s64_small by (rewrite ?s64_small; lia).
    rewrite Z.sgn_neg by lia. lia.
  - rewrite (u64_small D) by lia. rewrite (magic_parts D) by lia.
    replace (Z.abs D) with D in * by lia. rewrite s64_small by lia.
    destruct (Z.eq_dec D 0) as [->|]; [done|]. rewrite Z.sgn_pos by lia. lia.
Qed.

(** ** When the magic number is that of a divisor *)

Lemma magic_exact a M d s :
  0 <= a <= 2 ^ 63 -> 0 < d -> 0 <= s -> 2 ^ (64 + s) <= M * d < 2 ^ (64 + s) + 2 ^ (1 + s) ->
  magic a M s = a / d.
Proof.
  intros Ha Hd Hs HM. unfold magic. pose proof (Z.pow_pos_nonneg 2 s ltac:(lia) Hs) as Hp.
  rewrite (Z.pow_add_r 2 64) in * by lia. rewrite (Z.pow_add_r 2 1) in HM by lia.
  change (2 ^ 1) with 2 in HM.
  set (P := 2 ^ 64 * 2 ^ s) in *.
  pose proof (Z.div_mod a d ltac:(lia)) as E. pose proof (Z.mod_pos_bound a d Hd) as Hm.
  set (q := a / d) in *. set (r := a mod d) in *.
  symmetry. apply (Z.div_unique _ _ _ (a * M - P * q)); [left|lia].
  assert (0 <= q) by (apply Z.div_pos; lia).
  assert (d * (a * M - P * q) = a * (M * d - P) + P * r) as Ed.
  { assert (d * q = a - r) as E' by lia.
    replace (d * (a * M - P * q)) with (a * (M * d) - P * (d * q)) by ring. rewrite E'. ring. }
  assert (0 <= a * (M * d - P) < P) by (unfold P; nia).
  assert (0 <= d * (a * M - P * q) < d * P) by nia. nia.
Qed.

(** C18: [RtlExtendedMagicDivide] is the product of dividend and magic number divided by a power
    of two, without overflow in any partial sum; if the magic number is the rounded up inverse
    of a positive divisor, within the given bound, this is the division of C for every dividend. *)
Theorem magic_divide_exact D M s :
  - 2 ^ 63 <= D < 2 ^ 63 -> 0 <= s < 64 ->
  RtlExtendedMagicDivide D M s = Z.sgn D * (Z.abs D * u64 M / 2 ^ (64 + s)) /\
  forall d, 0 < d -> 2 ^ (64 + s) <= u64 M * d < 2 ^ (64 + s) + 2 ^ (1 + s) ->
    RtlExtendedMagicDivide D M s = Z.quot D d.
Proof.
  intros HD Hs. rewrite magic_divide_run by done. split; [done|]. intros d Hd HM.
  rewrite (magic_exact _ _ d) by lia. rewrite <- (Z.abs_sgn D) at 3. rewrite Z.mul_comm.
  destruct (Z.lt_trichotomy D 0) as [Hn|[->|Hp]].
  - rewrite Z.sgn_neg by lia. replace (Z.abs D * -1) with (- Z.abs D) by lia.
    rewrite Z.quot_opp_l, Z.quot_div_nonneg by lia. lia.
  - by rewrite Z.mul_0_r.
  - rewrite Z.sgn_pos, !Z.mul_1_r, Z.quot_div_nonneg by lia. done.
Qed.

(** with the magic number that the description of the function asks for, the power of two
    divided by the divisor and rounded down, the quotient of the divisor by itself is 0 unless
    the division is exact. *)
Theorem magic_note_off_by_one d s :
  0 < d < 2 ^ 63 -> 0 <= s < 64 -> 2 ^ (64 + s) / d < 2 ^ 64 -> 2 ^ (64 + s) mod d <> 0 ->
  RtlExtendedMagicDivide d (2 ^ (64 + s) / d) s = 0.
Proof.
  intros Hd Hs HM Hr. rewrite magic_divide_run by lia. unfold magic.
  assert (0 <= 2 ^ (64 + s) / d) by (apply Z.div_pos; lia).
  rewrite u64_small by lia. rewrite Z.abs_eq by lia.
  pose proof (Z.div_mod (2 ^ (64 + s)) d ltac:(lia)). pose proof (Z.mod_pos_bound (2 ^ (64 + s)) d ltac:(lia)).
  rewrite (Z.div_small (d * _)) by lia. lia.
Qed.

(** ** Shifts *)

(** The sign bit of a 32-bit number. *)
Lemma land_sign h : - 2 ^ 31 <= h < 2 ^ 31 -> Z.land (u32 h) 0x80000000 = if h <? 0 then 2 ^ 31 else 0.
Proof.
  intros Hh. change 0x80000000 with (2 ^ 31).
  assert (Z.testbit (u32 h) 31 = (h <? 0)) as Hb.
  { rewrite testbit_u32 by lia. change ((31 <? 32) && Z.testbit h 31) with (Z.testbit h 31).
    rewrite Z.testbit_odd, Z.shiftr_div_pow2 by lia. destruct (Z.ltb_spec h 0).
    - replace (h / 2 ^ 31) with (-1) by dlia. done.
    - rewrite Z.div_small by lia. done. }
  apply Z.bits_inj'. intros i Hi. rewrite Z.land_spec, Z.pow2_bits_eqb by lia.
  destruct (Z.eqb_spec 31 i) as [<-|Hne].
  - rewrite Hb, andb_true_r. by destruct (h <? 0).
  - rewrite andb_false_r. destruct (h <? 0); [|by rewrite Z.bits_0].
    by rewrite Z.pow2_bits_eqb, (proj2 (Z.eqb_neq 31 i)) by lia.
Qed.

(** [RtlLargeIntegerArithmeticShift] is the arithmetic shift for counts below 32 and for
    numbers that are not negative; for a negative number and a count of 32 or more the high part
    is 0x80000000 where the shift has 0xFFFFFFFF. *)
Theorem arithmetic_shift_sign x s :
  - 2 ^ 63 <= x < 2 ^ 63 -> 0 <= s < 64 ->
  RtlLargeIntegerArithmeticShift x s =
  if (x <? 0) && (32 <=? s) then Z.shiftr x s - (2 ^ 63 - 2 ^ 32) else Z.shiftr x s.
Proof.
  intros Hx Hs. unfold RtlLargeIntegerArithmeticShift. rewrite Z.rem_small by lia.
  destruct (Z.ltb_spec s 32), (Z.leb_spec 32 s); try lia; [by rewrite andb_false_r|].
  rewrite andb_true_r. assert (- 2 ^ 31 <= Z.shiftr x 32 < 2 ^ 31) as HH
    by (rewrite Z.shiftr_div_pow2 by lia; dlia).
  rewrite s32_small by done. replace (s mod 32) with (s - 32) by dlia.
  rewrite Z.shiftr_shiftr by lia. replace (32 + (s - 32)) with s by lia.
  assert (- 2 ^ 31 <= Z.shiftr x s < 2 ^ 31) as Hv.
  { replace s with (32 + (s - 32)) by lia. rewrite <- Z.shiftr_shiftr by lia.
    set (h := Z.shiftr x 32) in *. rewrite Z.shiftr_div_pow2 by lia.
    pose proof (Z.pow_pos_nonneg 2 (s - 32)). split; [apply Z.div_le_lower_bound; nia|apply Z.div_lt_upper_bound; nia]. }
  rewrite land_sign by done. destruct (Z.ltb_spec x 0) as [Hn|Hn].
  - assert (Z.shiftr x 32 < 0) by (apply Z.shiftr_neg; lia).
    assert (Z.shiftr x s < 0) by (apply Z.shiftr_neg; lia).
    rewrite (proj2 (Z.ltb_lt _ _)) by done.
    replace (u32 (Z.shiftr x s)) with (Z.shiftr x s + 2 ^ 32)
      by (unfold u32; rewrite <- (Z.mod_add _ 1), Z.mod_small by lia; lia).
    rewrite lor_shiftl_add by lia. change (2 ^ 31 * 2 ^ 32) with (2 ^ 63).
    unfold s64, swrap. change (64 - 1) with 63.
    replace (2 ^ 63 + (Z.shiftr x s + 2 ^ 32) + 2 ^ 63) with (Z.shiftr x s + 2 ^ 32 + 1 * 2 ^ 64) by lia.
    rewrite Z.mod_add, Z.mod_small by lia. lia.
  - assert (0 <= Z.shiftr x 32) by (apply Z.shiftr_nonneg; lia).
    assert (0 <= Z.shiftr x s) by (apply Z.shiftr_nonneg; lia).
    rewrite (proj2 (Z.ltb_ge _ _)) by done. rewrite Z.shiftl_0_l, Z.lor_0_l, u32_small, s64_small by lia. done.
Qed.

(** ** Witnesses *)

Lemma magic_divide_exact_witness :
  RtlExtendedMagicDivide (-10000019) 0xD6BF94D5E57A42BD 23 = -1.
Proof.
  apply (proj2 (magic_divide_exact (-10000019) 0xD6BF94D5E57A42BD 23 ltac:(lia) ltac:(lia)) 10000000 ltac:(lia)).
  vm_compute. split; [discriminate|reflexivity].
Defined.

Lemma magic_note_off_by_one_witness : RtlExtendedMagicDivide 3 (2 ^ 64 / 3) 0 = 0.
Proof. apply (magic_note_off_by_one 3 0); [lia|lia|by vm_compute|by vm_compute]. Defined.

Lemma arithmetic_shift_sign_witness :
  RtlLargeIntegerArithmeticShift (-1) 40 = -1 - (2 ^ 63 - 2 ^ 32).
Proof. exact (arithmetic_shift_sign (-1) 40 ltac:(lia) ltac:(lia)). Defined.
