(* ===== verification/Random.v ===== *)
(** * Random numbers and run encoding (sdk/lib/rtl/random.c and encode.c)

    The generators keep a table and a seed, as a record and an argument.  The encoding works in
    place on the bytes of a string; an access outside of its buffer is a fault. *)

From Stdlib Require Import ZArith Lia Bool.
From stdpp Require Import base option list numbers.
From S2P Require Import Prelude.
Open Scope Z_scope.

(** ** Random numbers *)

Definition RtlpRandomConstantVector : list Z :=
  [0x4c8bc0aa; 0x4c022957; 0x2232827a; 0x2f1e7626; 0x7f8bdafb; 0x5c37d02a; 0x0ab48f72; 0x2f0c4ffa;
   0x290e1954; 0x6b635f23; 0x5d3885c0; 0x74b49ff8; 0x5155fa54; 0x6214ad3f; 0x111e9c29; 0x242a3a09;
   0x75932ae1; 0x40ac432e; 0x54f7ba7a; 0x585ccbd5; 0x6df5c727; 0x0374dad1; 0x7112b3f1; 0x735fc311;
   0x404331a9; 0x74d97781; 0x64495118; 0x323e04be; 0x5974b425; 0x4862e393; 0x62389c1d; 0x28a68b82;
   0x0f95da37; 0x7a50bbc6; 0x09b0091c; 0x22cdb7b4; 0x4faaed26; 0x66417ccd; 0x189e4bfa; 0x1ce4e8dd;
   0x5274c742; 0x3bdcf4dc; 0x2d94e907; 0x32eac016; 0x26d33ca3; 0x60415a8a; 0x31f57880; 0x68c8aa52;
   0x23eb16da; 0x6204f4a1; 0x373927c1; 0x0d24eb7c; 0x06dd7379; 0x2b3be507; 0x0f9c55b1; 0x2c7925eb;
   0x36d67c9a; 0x42f831d9; 0x5e3961cb; 0x65d637a8; 0x24bb3820; 0x4d08e33d; 0x2188754f; 0x147e409e;
   0x6a9620a0; 0x62e26657; 0x7bd8ce81; 0x11da0abb; 0x5f9e7b50; 0x23e444b6; 0x25920c78; 0x5fc894f0;
   0x5e338cbb; 0x404237fd; 0x1d60f80f; 0x320a1743; 0x76013d2b; 0x070294ee; 0x695e243b; 0x56b177fd;
   0x752492e1; 0x6decd52f; 0x125f5219; 0x139d2e78; 0x1898d11e; 0x2f7ee785; 0x4db405d8; 0x1a028a35;
   0x63f6f323; 0x1f6d0078; 0x307cfd67; 0x3f32a78a; 0x6980796c; 0x462b3d83; 0x34b639f2; 0x53fce379;
   0x74ba50f4; 0x1abc2c4b; 0x5eeaeb8d; 0x335a7a0d; 0x3973dd20; 0x0462d66b; 0x159813ff; 0x1e4643fd;
   0x06bc5c62; 0x3115e3fc; 0x09101613; 0x47af2515; 0x4f11ec54; 0x78b99911; 0x3db8dd44; 0x1ec10b9b;
   0x5b5506ca; 0x773ce092; 0x567be81a; 0x5475b975; 0x7a2cde1a; 0x494536f5; 0x34737bb4; 0x76d9750b;
   0x2a1f6232; 0x2e49644d; 0x7dddcbe7; 0x500cebdb; 0x619dab9e; 0x48c626fe; 0x1cda3193; 0x52dabe9d].

Definition RtlpRandomExConstantVector : list Z :=
  [0x4c8bc0aa; 0x51a0b326; 0x7112b3f1; 0x1b9ca4e1; 0x735fc311; 0x6fe48580; 0x320a1743; 0x494045ca;
   0x103ad1c5; 0x4ba26e25; 0x62f1d304; 0x280d5677; 0x070294ee; 0x7acef21a; 0x62a407d5; 0x2dd36af5;
   0x194f0f95; 0x1f21d7b4; 0x307cfd67; 0x66b9311e; 0x60415a8a; 0x5b264785; 0x3c28b0e4; 0x08faded7;
   0x556175ce; 0x29c44179; 0x666f23c9; 0x65c057d8; 0x72b97abc; 0x7c3be3d0; 0x478e1753; 0x3074449b;
   0x675ee842; 0x53f4c2de; 0x44d58949; 0x6426cf59; 0x111e9c29; 0x3aba68b9; 0x242a3a09; 0x50ddb118;
   0x7f8bdafb; 0x089ebf23; 0x5c37d02a; 0x27db8ca6; 0x0ab48f72; 0x34995a4e; 0x189e4bfa; 0x2c405c36;
   0x373927c1; 0x66c20c71; 0x5f991360; 0x67a38fa3; 0x4edc56aa; 0x25a59126; 0x34b639f2; 0x1679b2ce;
   0x54f7ba7a; 0x319d28b5; 0x5155fa54; 0x769e6b87; 0x323e04be; 0x4565a5aa; 0x5974b425; 0x5c56a104;
   0x25920c78; 0x362912dc; 0x7af3996f; 0x5feb9c87; 0x618361bf; 0x433fbe97; 0x0244da8e; 0x54e3c739;
   0x33183689; 0x3533f398; 0x0d24eb7c; 0x06428590; 0x09101613; 0x53ce5c5a; 0x47af2515; 0x2e003f35;
   0x15fb4ed5; 0x5e5925f4; 0x7f622ea7; 0x0bb6895f; 0x2173cdb6; 0x0467bb41; 0x2c4d19f1; 0x364712e1;
   0x78b99911; 0x0a39a380; 0x3db8dd44; 0x6b4793b8; 0x09b0091c; 0x47ef52b0; 0x293cdcb3; 0x707b9e7b;
   0x26d33ca3; 0x1e527faa; 0x3fe08625; 0x42560b04; 0x139d2e78; 0x0b558cdb; 0x28a68b82; 0x7ba3a51d;
   0x52dabe9d; 0x59c3da1d; 0x5676cf9c; 0x152e972f; 0x6d8ac746; 0x5eb33591; 0x78b30601; 0x0ab68db0;
   0x34737bb4; 0x1b6dd168; 0x76d9750b; 0x2ddc4ff2; 0x18a610cd; 0x2bacc08c; 0x422db55f; 0x169b89b6;
   0x5274c742; 0x615535dd; 0x46ad005d; 0x4128f8dd; 0x29f5875c; 0x62c6f3ef; 0x2b3be507; 0x4a8e003f].

Definition LCG_A : Z := 0x7fffffed.
Definition LCG_C : Z := 0x7fffffc3.
Definition LCG_M : Z := 0x7fffffff.

(** [(Seed * LCG_A + LCG_C) % LCG_M] on ULONGs. *)
Definition Lcg (Seed : Z) : Z := u32 (u32 (Seed * LCG_A) + LCG_C) mod LCG_M.

(** The number, [*Seed] and the table. *)
Definition RtlRandom (Vector : list Z) (Seed : Z) : option (Z * Z * list Z) :=
  let Rand := Lcg Seed in
  let Seed := Lcg Rand in
  let Pos := Z.land Seed 127 in
  Result ← rd Vector Pos;
  Vector ← wr Vector Pos Rand;
  Some (Result, Seed, Vector).

(** The number, [*Seed], the table and [RtlpRandomExAuxVarY]. *)
Definition RtlRandomEx (Vector : list Z) (AuxVarY Seed : Z) : option (Z * Z * list Z * Z) :=
  let Pos := Z.land AuxVarY 127 in
  AuxVarY ← rd Vector Pos;
  let Rand := Lcg Seed in
  Vector ← wr Vector Pos Rand;
  Some (Rand, Rand, Vector, AuxVarY).

(** The number, which is also [*Seed]. *)
Definition RtlUniform (Seed : Z) : Z := Lcg Seed.

(** ** Run encoding *)

(** The hash from the bytes of the system time, while it is 0. *)
Fixpoint HashLoop (bytes : list Z) (Hash : Z) : Z :=
  match bytes with
  | [] => Hash
  | b :: bytes' => if Hash =? 0 then HashLoop bytes' (Z.lor Hash b) else Hash
  end.

(** [CurrentTime] is the time, or [None] if the query fails. *)
Definition ChooseHash (CurrentTime : option Z) (Hash : Z) : Z :=
  if Hash =? 0 then
    let Hash :=
      match CurrentTime with
      | Some t => HashLoop ((fun i => u8 (Z.shiftr t (8 * i))) <$> [1; 2; 3; 4; 5; 6; 7]) Hash
      | None => Hash
      end in
    if Hash =? 0 then 1 else Hash
  else Hash.

(** The loop over the bytes from [i] on, [n] of them. *)
Fixpoint EncodeLoop (n : nat) (i Hash : Z) (ptr : list Z) : option (list Z) :=
  match n with
  | O => Some ptr
  | S n' =>
      x ← rd ptr i; y ← rd ptr (i - 1);
      ptr ← wr ptr i (Z.lxor x (Z.lxor y Hash));
      EncodeLoop n' (i + 1) Hash ptr
  end.

(** [*Hash] and the bytes of the string. *)
Definition RtlRunEncodeUnicodeString (CurrentTime : option Z) (Hash : Z) (ptr : list Z) (Length : Z)
    : option (Z * list Z) :=
  let Hash := ChooseHash CurrentTime Hash in
  if 1 <=? Length then
    x ← rd ptr 0;
    ptr ← wr ptr 0 (Z.lxor x (Z.lor Hash 0x43));
    ptr ← EncodeLoop (Z.to_nat (Length - 1)) 1 Hash ptr;
    Some (Hash, ptr)
  else Some (Hash, ptr).

(** The loop down from [i = n + 1]. *)
Fixpoint DecodeLoop (n : nat) (Hash : Z) (ptr : list Z) : option (list Z) :=
  match n with
  | O => Some ptr
  | S n' =>
      let i := Z.of_nat n + 1 in
      x ← rd ptr (i - 1); y ← rd ptr (i - 2);
      ptr ← wr ptr (i - 1) (Z.lxor x (Z.lxor y Hash));
      DecodeLoop n' Hash ptr
  end.

Definition RtlRunDecodeUnicodeString (Hash : Z) (ptr : list Z) (Length : Z) : option (list Z) :=
  ptr ← DecodeLoop (Z.to_nat (Length - 1)) Hash ptr;
  if 1 <=? Length then
    x ← rd ptr 0; wr ptr 0 (Z.lxor x (Z.lor Hash 0x43))
  else Some ptr.

(** ** Properties of the generators *)

(** A table of numbers below 2^31 - 1. *)
Definition good_vector (v : list Z) : Prop := length v = 128%nat /\ Forall (fun x => 0 <= x < LCG_M) v.

Lemma Lcg_range s : 0 <= Lcg s < LCG_M.
Proof. apply Z.mod_pos_bound. unfold LCG_M. lia. Qed.

Lemma pos_range x : 0 <= Z.land x 127 < 128.
Proof. change 127 with (Z.ones 7). rewrite Z.land_ones by lia. change 128 with (2 ^ 7). apply Z.mod_pos_bound. lia. Qed.

Lemma vector_step v i r :
  good_vector v -> 0 <= i < 128 -> 0 <= r < LCG_M ->
  exists x v', rd v i = Some x /\ 0 <= x < LCG_M /\ wr v i r = Some v' /\ good_vector v'.
Proof.
  intros [Hl Hf] Hi Hr. destruct (rd_in_range v i) as [x Hx]; [lia|].
  exists x, (<[Z.to_nat i := r]> v). split_and!; [done| | |by apply wr_in_range; lia|split].
  1-2: apply rd_Some_inv in Hx as [_ Hx]; by apply (Forall_lookup_1 _ _ _ _ Hf Hx).
  - by rewrite length_insert.
  - by apply Forall_insert.
Qed.

(** the tables start with, and keep, numbers from 0 to 2^31 - 2, and the generators return
    such a number for every seed; that of [RtlRandomEx] and its seed depend only on the seed, as
    those of [RtlUniform]. *)
Theorem random_range v y s :
  good_vector RtlpRandomConstantVector /\ good_vector RtlpRandomExConstantVector /\
  (good_vector v ->
   (exists r s' v', RtlRandom v s = Some (r, s', v') /\ 0 <= r < LCG_M /\ good_vector v') /\
   (exists v' y', RtlRandomEx v y s = Some (RtlUniform s, RtlUniform s, v', y') /\
      0 <= RtlUniform s < LCG_M /\ good_vector v')).
Proof.
  split; [by split; [|refine (bool_decide_unpack _ _); vm_compute]|].
  split; [by split; [|refine (bool_decide_unpack _ _); vm_compute]|]. intros Hv. split.
  - unfold RtlRandom. destruct (vector_step v (Z.land (Lcg (Lcg s)) 127) (Lcg s) Hv) as (x & v' & -> & Hx & E & Hv');
      [apply pos_range|apply Lcg_range|]. cbn [mbind option_bind]. rewrite E. eauto 10.
  - unfold RtlRandomEx. destruct (vector_step v (Z.land y 127) (Lcg s) Hv) as (x & v' & -> & Hx & E & Hv');
      [apply pos_range|apply Lcg_range|]. cbn [mbind option_bind]. rewrite E.
    exists v', x. split_and!; [done|apply Lcg_range..|done].
Qed.

(** ** Properties of the encoding *)

Fixpoint encoded (Hash prev : Z) (bs : list Z) : list Z :=
  match bs with
  | [] => []
  | b :: bs' => let e := Z.lxor b (Z.lxor prev Hash) in e :: encoded Hash e bs'
  end.

Lemma EncodeLoop_run h pre e bs post i :
  i = Z.of_nat (length pre) + 1 ->
  EncodeLoop (length bs) i h (pre ++ e :: bs ++ post) = Some (pre ++ e :: encoded h e bs ++ post).
Proof.
  revert pre e i. induction bs as [|b bs IH]; intros pre e i Hi; [done|]. cbn [length EncodeLoop encoded app].
  assert (pre ++ e :: b :: bs ++ post = (pre ++ [e]) ++ b :: bs ++ post) as E by (by rewrite <- app_assoc).
  assert (i = Z.of_nat (length (pre ++ [e]))) as Hi' by (rewrite length_app; simpl; lia).
  rewrite (rd_at pre e _ (i - 1)) by lia. rewrite E, (rd_at (pre ++ [e]) b _ i) by done.
  cbn [mbind option_bind]. rewrite wr_at by done. cbn [mbind option_bind].
  rewrite IH by (rewrite length_app; simpl; lia). by rewrite <- app_assoc.
Qed.

Lemma length_encoded h e bs : length (encoded h e bs) = length bs.
Proof. revert e. induction bs; intros; simpl; auto. Qed.

Lemma last_cons (l : list Z) a d : List.last (a :: l) d = List.last l a.
Proof. revert a d. induction l as [|b l IH]; intros a d; [done|]. by rewrite IH, <- (IH b d). Qed.

Lemma encoded_snoc h e bs b :
  encoded h e (bs ++ [b]) = encoded h e bs ++ [Z.lxor b (Z.lxor (List.last (encoded h e bs) e) h)].
Proof.
  revert e. induction bs as [|x bs IH]; intros e; [done|]. cbn [app encoded]. rewrite IH, last_cons. done.
Qed.

Lemma DecodeLoop_run h e bs post :
  DecodeLoop (length bs) h (e :: encoded h e bs ++ post) = Some (e :: bs ++ post).
Proof.
  revert post. induction bs as [|b bs IH] using rev_ind; intros post; [done|].
  rewrite length_app, Nat.add_comm. cbn [length Nat.add DecodeLoop]. rewrite encoded_snoc, <- app_assoc. cbn [app].
  set (last := List.last (encoded h e bs) e). set (c := Z.lxor b (Z.lxor last h)).
  change (e :: encoded h e bs ++ c :: post) with ((e :: encoded h e bs) ++ c :: post).
  rewrite (rd_at (e :: encoded h e bs) c post (Z.of_nat (S (length bs)) + 1 - 1))
    by (cbn [length]; rewrite length_encoded; lia).
  cbn [mbind option_bind]. assert (rd ((e :: encoded h e bs) ++ c :: post) (Z.of_nat (S (length bs)) + 1 - 2) = Some last) as ->.
  { pose proof (length_encoded h e bs) as E. unfold last. clear -E.
    destruct (encoded h e bs) as [|z l _] using rev_ind.
    - destruct bs; done.
    - rewrite List.last_last.
      replace ((e :: l ++ [z]) ++ c :: post) with ((e :: l) ++ z :: c :: post) by (simpl; by rewrite <- app_assoc).
      apply rd_at. rewrite length_app in E. simpl in *. lia. }
  cbn [mbind option_bind]. rewrite wr_at by (cbn [length]; rewrite length_encoded; lia). cbn [mbind option_bind].
  replace (Z.lxor c (Z.lxor last h)) with b
    by (unfold c; by rewrite Z.lxor_assoc, Z.lxor_nilpotent, Z.lxor_0_r).
  cbn [app]. rewrite IH. by rewrite <- app_assoc.
Qed.

Lemma ChooseHash_nonzero t h : ChooseHash t h <> 0.
Proof.
  unfold ChooseHash. destruct (Z.eqb_spec h 0); [|done].
  set (x := match t with Some _ => _ | None => _ end). by destruct (Z.eqb_spec x 0); [lia|].
Qed.

(** [RtlRunEncodeUnicodeString] leaves a hash that is not 0, the given one unless that was 0,
    and [RtlRunDecodeUnicodeString] with it gives the string back. *)
Theorem run_encode_roundtrip t h bs post :
  exists h' ptr,
    RtlRunEncodeUnicodeString t h (bs ++ post) (Z.of_nat (length bs)) = Some (h', ptr) /\
    h' <> 0 /\ (h <> 0 -> h' = h) /\ length ptr = length (bs ++ post) /\
    RtlRunDecodeUnicodeString h' ptr (Z.of_nat (length bs)) = Some (bs ++ post).
Proof.
  set (h' := ChooseHash t h). assert (h <> 0 -> h' = h) as Hh.
  { intros Hn. unfold h', ChooseHash. by rewrite (proj2 (Z.eqb_neq h 0)). }
  pose proof (ChooseHash_nonzero t h : h' <> 0).
  unfold RtlRunEncodeUnicodeString, RtlRunDecodeUnicodeString. fold h'. destruct bs as [|b bs].
  { exists h', post. split_and!; done. }
  exists h'. rewrite (proj2 (Z.leb_le 1 _)) by (simpl; lia).
  replace (Z.to_nat (Z.of_nat (length (b :: bs)) - 1)) with (length bs) by (simpl; lia).
  cbn [app]. set (e := Z.lxor b (Z.lor h' 0x43)).
  pose proof (EncodeLoop_run h' [] e bs post 1 eq_refl) as E. cbn [app] in E.
  exists (e :: encoded h' e bs ++ post).
  pose proof (rd_at [] b (bs ++ post) 0 eq_refl) as R1. pose proof (wr_at [] b e (bs ++ post) 0 eq_refl) as W1.
  pose proof (rd_at [] e (bs ++ post) 0 eq_refl) as R2. pose proof (wr_at [] e b (bs ++ post) 0 eq_refl) as W2.
  cbn [app] in *. split; [rewrite R1; cbn [mbind option_bind]; fold e; rewrite W1; cbn [mbind option_bind]; by rewrite E|].
  split_and!; [done|done|simpl; by rewrite !length_app, length_encoded|].
  rewrite DecodeLoop_run. cbn [mbind option_bind]. rewrite R2. cbn [mbind option_bind].
  replace (Z.lxor e (Z.lor h' 67)) with b; [done|].
  unfold e. by rewrite Z.lxor_assoc, Z.lxor_nilpotent, Z.lxor_0_r.
Qed.
