(* ===== verification/ListEntry.v ===== *)
(** * Doubly linked lists (LIST_ENTRY, sdk/include/ndk/rtlfuncs.h)

    The intrusive circular lists every NT component links its records with, at the
    level of pointers: a store maps an address to the two links kept there, reading or
    writing a link of an address that is not in the store faults.  [dlist m h l] says
    that the circular list with head [h] visits exactly the addresses [l], in order,
    in both directions; each operation is proved to turn one such list into another and
    to leave every other address of the store alone. *)

From Stdlib Require Import ZArith Lia Bool.
From stdpp Require Import base option list numbers gmap.
From S2P Require Import Prelude.
Open Scope Z_scope.

Record LIST_ENTRY := mkEntry { Flink : Z; Blink : Z }.

Abbreviation links := (gmap Z LIST_ENTRY).

Definition flink (m : links) (p : Z) : option Z := Flink <$> m !! p.
Definition blink (m : links) (p : Z) : option Z := Blink <$> m !! p.

(** [p->Flink = v] and [p->Blink = v]. *)
Definition set_flink (m : links) (p v : Z) : option links :=
  e ← m !! p; Some (<[p := mkEntry v (Blink e)]> m).
Definition set_blink (m : links) (p v : Z) : option links :=
  e ← m !! p; Some (<[p := mkEntry (Flink e) v]> m).

(** ** The operations *)

Definition InitializeListHead (m : links) (ListHead : Z) : option links :=
  m ← set_blink m ListHead ListHead;
  set_flink m ListHead ListHead.

Definition InsertHeadList (m : links) (ListHead Entry : Z) : option links :=
  OldFlink ← flink m ListHead;
  m ← set_flink m Entry OldFlink;
  m ← set_blink m Entry ListHead;
  m ← set_blink m OldFlink Entry;
  set_flink m ListHead Entry.

Definition InsertTailList (m : links) (ListHead Entry : Z) : option links :=
  OldBlink ← blink m ListHead;
  m ← set_flink m Entry ListHead;
  m ← set_blink m Entry OldBlink;
  m ← set_flink m OldBlink Entry;
  set_blink m ListHead Entry.

Definition IsListEmpty (m : links) (ListHead : Z) : option bool :=
  f ← flink m ListHead; Some (f =? ListHead).

Definition RemoveEntryList (m : links) (Entry : Z) : option (bool * links) :=
  OldFlink ← flink m Entry;
  OldBlink ← blink m Entry;
  m ← set_blink m OldFlink OldBlink;
  m ← set_flink m OldBlink OldFlink;
  Some (OldFlink =? OldBlink, m).

Definition RemoveHeadList (m : links) (ListHead : Z) : option (Z * links) :=
  Entry ← flink m ListHead;
  Flink ← flink m Entry;
  m ← set_flink m ListHead Flink;
  m ← set_blink m Flink ListHead;
  Some (Entry, m).

Definition RemoveTailList (m : links) (ListHead : Z) : option (Z * links) :=
  Entry ← blink m ListHead;
  Blink ← blink m Entry;
  m ← set_blink m ListHead Blink;
  m ← set_flink m Blink ListHead;
  Some (Entry, m).

(** The singly linked [SINGLE_LIST_ENTRY] lists: the store maps an address to [Next], with
    0 for NULL. *)
Definition PopEntryList (m : gmap Z Z) (ListHead : Z) : option (Z * gmap Z Z) :=
  FirstEntry ← m !! ListHead;
  if negb (FirstEntry =? 0) then
    next ← m !! FirstEntry;
    Some (FirstEntry, <[ListHead := next]> m)
  else Some (FirstEntry, m).

Definition PushEntryList (m : gmap Z Z) (ListHead Entry : Z) : option (gmap Z Z) :=
  next ← m !! ListHead;
  _ ← m !! Entry;
  let m := <[Entry := next]> m in
  Some (<[ListHead := Entry]> m).

(** ** Representation *)

(** The singly linked list from [x] on visits [l] and ends with NULL. *)
Fixpoint chain (m : gmap Z Z) (x : Z) (l : list Z) : Prop :=
  match l with
  | [] => m !! x = Some 0
  | y :: l' => m !! x = Some y /\ y <> 0 /\ chain m y l'
  end.

Definition slist (m : gmap Z Z) (h : Z) (l : list Z) : Prop := NoDup (h :: l) /\ chain m h l.

Definition linked (m : links) (x y : Z) : Prop :=
  flink m x = Some y /\ blink m y = Some x.

(** The links lead from [x] through [l] to [z], and back. *)
Fixpoint path (m : links) (x : Z) (l : list Z) (z : Z) : Prop :=
  match l with
  | [] => linked m x z
  | y :: l' => linked m x y /\ path m y l' z
  end.

Definition dlist (m : links) (h : Z) (l : list Z) : Prop :=
  NoDup (h :: l) /\ path m h l h.

(** The last address before the end of the path. *)
Fixpoint pred_of (x : Z) (l : list Z) : Z :=
  match l with
  | [] => x
  | y :: l' => pred_of y l'
  end.

(** [m'] differs from [m] at most on [l]. *)
Definition same_outside (l : list Z) (m m' : links) : Prop :=
  forall p, p ∉ l -> m' !! p = m !! p.

(** ** Links after updates *)

Lemma flink_Some m p v : flink m p = Some v <-> exists e, m !! p = Some e /\ Flink e = v.
Proof. unfold flink. rewrite fmap_Some. split; intros (e & ? & ?); eauto. Qed.

Lemma blink_Some m p v : blink m p = Some v <-> exists e, m !! p = Some e /\ Blink e = v.
Proof. unfold blink. rewrite fmap_Some. split; intros (e & ? & ?); eauto. Qed.

Lemma set_flink_spec m p v :
  is_Some (m !! p) -> exists m', set_flink m p v = Some m' /\
    (forall q, flink m' q = if decide (q = p) then Some v else flink m q) /\
    (forall q, blink m' q = blink m q) /\
    (forall q, q <> p -> m' !! q = m !! q) /\ (forall q, is_Some (m' !! q) <-> is_Some (m !! q)).
Proof.
  intros [e He]. unfold set_flink. rewrite He. simpl. eexists; split; [done|].
  split_and!; intros q; unfold flink, blink.
  - rewrite lookup_insert. repeat case_decide; simplify_eq; done.
  - rewrite lookup_insert. case_decide; simplify_eq; [|done]. by rewrite He.
  - intros Hq. by rewrite lookup_insert_ne.
  - rewrite lookup_insert. case_decide; simplify_eq; [|done]. rewrite He. by split; eauto.
Qed.

Lemma set_blink_spec m p v :
  is_Some (m !! p) -> exists m', set_blink m p v = Some m' /\
    (forall q, blink m' q = if decide (q = p) then Some v else blink m q) /\
    (forall q, flink m' q = flink m q) /\
    (forall q, q <> p -> m' !! q = m !! q) /\ (forall q, is_Some (m' !! q) <-> is_Some (m !! q)).
Proof.
  intros [e He]. unfold set_blink. rewrite He. simpl. eexists; split; [done|].
  split_and!; intros q; unfold flink, blink.
  - rewrite lookup_insert. repeat case_decide; simplify_eq; done.
  - rewrite lookup_insert. case_decide; simplify_eq; [|done]. by rewrite He.
  - intros Hq. by rewrite lookup_insert_ne.
  - rewrite lookup_insert. case_decide; simplify_eq; [|done]. rewrite He. by split; eauto.
Qed.

Lemma flink_is_Some m p v : flink m p = Some v -> is_Some (m !! p).
Proof. intros (e & -> & _)%flink_Some. eauto. Qed.

Lemma blink_is_Some m p v : blink m p = Some v -> is_Some (m !! p).
Proof. intros (e & -> & _)%blink_Some. eauto. Qed.

(** ** Paths *)

Lemma path_app m x l1 y l2 z :
  path m x (l1 ++ y :: l2) z <-> path m x l1 y /\ path m y l2 z.
Proof.
  revert x. induction l1 as [|a l1 IH]; intros x; simpl; [done|]. rewrite IH. tauto.
Qed.

Lemma pred_of_in x l : pred_of x l ∈ x :: l.
Proof.
  revert x. induction l as [|y l IH]; intros x; [apply list_elem_of_here|].
  apply list_elem_of_further, IH.
Qed.

Lemma path_last m x l z : path m x l z -> linked m (pred_of x l) z.
Proof.
  revert x. induction l as [|y l IH]; intros x; [done|]. intros [_ H].
  by apply IH.
Qed.

Lemma path_is_Some m x l z p : path m x l z -> p ∈ x :: l ++ [z] -> is_Some (m !! p).
Proof.
  revert x. induction l as [|y l IH]; intros x; simpl.
  - intros [H1 H2] [->|[->|[]%not_elem_of_nil]%elem_of_cons]%elem_of_cons.
    + by eapply flink_is_Some.
    + by eapply blink_is_Some.
  - intros [[H1 H2] H] [->|Hp]%elem_of_cons; [by eapply flink_is_Some|]. by eapply IH.
Qed.

(** A path survives any change that keeps its own links. *)
Lemma path_frame m m' x l z :
  path m x l z ->
  (forall p, p ∈ x :: l -> flink m' p = flink m p) ->
  (forall p, p ∈ l ++ [z] -> blink m' p = blink m p) -> path m' x l z.
Proof.
  revert x. induction l as [|y l IH]; intros x; simpl; unfold linked.
  - intros [H1 H2] Hf Hb. rewrite Hf, Hb by (apply list_elem_of_here). done.
  - intros [[H1 H2] H] Hf Hb. rewrite Hf, Hb by (apply list_elem_of_here). split; [done|].
    apply IH; [done|intros; apply Hf|intros; apply Hb]; by apply list_elem_of_further.
Qed.

(** A path may be redirected, at its last link, to another end. *)
Lemma path_redirect m m' x l z z' :
  path m x l z -> NoDup (x :: l) ->
  (forall p, p ∈ x :: l -> p <> pred_of x l -> flink m' p = flink m p) ->
  (forall p, p ∈ l -> blink m' p = blink m p) ->
  linked m' (pred_of x l) z' -> path m' x l z'.
Proof.
  revert x. induction l as [|y l IH]; intros x; simpl; [done|].
  intros [[H1 H2] H] [Hx Hnd]%NoDup_cons Hf Hb Hl. split.
  - split.
    + rewrite Hf; [done|apply list_elem_of_here|]. intros ->. apply Hx, pred_of_in.
    + rewrite Hb; [done|apply list_elem_of_here].
  - apply IH; try done.
    + intros p Hp. apply Hf. by apply list_elem_of_further.
    + intros p Hp. apply Hb. by apply list_elem_of_further.
Qed.

(** ** Splicing *)

(** The address that follows the first part of a list cut in two. *)
Definition next_of (l : list Z) (z : Z) : Z :=
  match l with
  | [] => z
  | y :: _ => y
  end.

(** [m'] is [m] with [e] linked in between [x] and [y]. *)
Record spliced (m m' : links) (x e y : Z) : Prop := {
  spliced_flink : forall q, flink m' q =
    if decide (q = x) then Some e else if decide (q = e) then Some y else flink m q;
  spliced_blink : forall q, blink m' q =
    if decide (q = y) then Some e else if decide (q = e) then Some x else blink m q;
  spliced_outside : same_outside [x; e; y] m m';
  spliced_dom : forall q, is_Some (m' !! q) <-> is_Some (m !! q)
}.

(** [m'] is [m] with [x] linked directly to [y]. *)
Record joined (m m' : links) (x y : Z) : Prop := {
  joined_flink : forall q, flink m' q = if decide (q = x) then Some y else flink m q;
  joined_blink : forall q, blink m' q = if decide (q = y) then Some x else blink m q;
  joined_outside : same_outside [x; y] m m';
  joined_dom : forall q, is_Some (m' !! q) <-> is_Some (m !! q)
}.

Lemma path_split m h l1 l2 :
  path m h (l1 ++ l2) h <-> path m h l1 (next_of l2 h) /\
    match l2 with [] => True | y :: l2' => path m y l2' h end.
Proof. destruct l2 as [|y l2]; simpl; [rewrite app_nil_r; tauto|apply path_app]. Qed.

Lemma NoDup_cut h l1 l2 :
  NoDup (h :: l1 ++ l2) -> NoDup (h :: l1) /\ (next_of l2 h ∉ l1) /\
  (forall p, p ∈ h :: l1 -> p ∉ l2) /\ NoDup l2 /\ h ∉ l2.
Proof.
  rewrite app_comm_cons, NoDup_app. intros (H1 & H2 & H3).
  split_and!; [done| |done|done|apply H2, list_elem_of_here].
  destruct l2 as [|y l2]; simpl.
  - by apply NoDup_cons in H1 as [? _].
  - intros Hy. eapply H2; [by apply list_elem_of_further|apply list_elem_of_here].
Qed.

Lemma splice_dlist m m' h l1 l2 e :
  dlist m h (l1 ++ l2) -> e ∉ h :: l1 ++ l2 ->
  spliced m m' (pred_of h l1) e (next_of l2 h) -> dlist m' h (l1 ++ e :: l2).
Proof.
  intros [Hnd Hp] He [Sf Sb _ _]. pose proof (NoDup_cut _ _ _ Hnd) as (N1 & N2 & N3 & N4 & N5).
  apply not_elem_of_cons in He as [Heh Hel]. apply not_elem_of_app in Hel as [He1 He2].
  pose proof (pred_of_in h l1) as Hx. set (x := pred_of h l1) in *.
  split.
  { rewrite app_comm_cons. apply NoDup_app. split_and!.
    - done.
    - intros p Hp1 [->|Hp2]%elem_of_cons; [|by eapply N3].
      apply elem_of_cons in Hp1 as [?|?]; [by subst|done].
    - by apply NoDup_cons. }
  apply path_split in Hp as [Hp1 Hp2]. apply path_app. split.
  - eapply path_redirect; [exact Hp1|done| | |].
    + intros p Hp Hpx. rewrite Sf. rewrite decide_False by done. rewrite decide_False; [done|].
      intros ->. apply elem_of_cons in Hp as [?|?]; [by subst|done].
    + intros p Hp. rewrite Sb. rewrite decide_False by (intros ->; done).
      rewrite decide_False; [done|]. by intros ->.
    + split; [by rewrite Sf, decide_True|].
      rewrite Sb. rewrite decide_False, decide_True; [done|done|].
      intros E. destruct l2 as [|y l2]; simpl in E; [congruence|].
      subst y. apply He2, list_elem_of_here.
  - assert (linked m' e (next_of l2 h)) as Hl.
    { split; [|by rewrite Sb, decide_True]. rewrite Sf.
      rewrite decide_False, decide_True; [done|done|]. intros E.
      rewrite <- E in Hx. apply elem_of_cons in Hx as [?|?]; done. }
    destruct l2 as [|y l2]; simpl in *; [done|]. split; [done|].
    eapply path_frame; [exact Hp2| |].
    + intros p Hp. rewrite Sf. rewrite decide_False by (intros ->; by eapply N3).
      rewrite decide_False; [done|]. by intros ->.
    + intros p Hp. rewrite Sb. rewrite decide_False; [rewrite decide_False; [done|]|].
      * intros ->. apply elem_of_app in Hp as [?|?%list_elem_of_singleton]; [|done].
        apply He2. by apply list_elem_of_further.
      * intros ->. apply NoDup_cons in N4 as [N4 _].
        apply elem_of_app in Hp as [?|?%list_elem_of_singleton]; [done|].
        subst. apply N5, list_elem_of_here.
Qed.

Lemma join_dlist m m' h l1 e l2 :
  dlist m h (l1 ++ e :: l2) -> joined m m' (pred_of h l1) (next_of l2 h) ->
  dlist m' h (l1 ++ l2) /\ m' !! e = m !! e.
Proof.
  intros [Hnd Hp] [Jf Jb Jo _].
  pose proof (NoDup_cut _ _ _ Hnd) as (N1 & N2 & N3 & N4 & N5).
  apply NoDup_cons in N4 as [N4 N6]. simpl in N2.
  pose proof (pred_of_in h l1) as Hx. set (x := pred_of h l1) in *.
  assert (NoDup (h :: l1 ++ l2)) as Hnd'.
  { rewrite app_comm_cons. apply NoDup_app. split_and!; [done| |done].
    intros p Hp1 Hp2. eapply N3; [done|]. by apply list_elem_of_further. }
  pose proof (NoDup_cut _ _ _ Hnd') as (_ & M2 & M3 & _ & M5).
  apply path_app in Hp as [Hp1 Hp2].
  assert (forall p, p ∈ h :: l1 -> p <> e) as Hne.
  { intros p Hp ->. eapply N3; [done|apply list_elem_of_here]. }
  split; [split; [done|]|].
  - apply path_split. split.
    + eapply path_redirect; [exact Hp1|done| | |].
      * intros p Hp Hpx. by rewrite Jf, decide_False.
      * intros p Hp. rewrite Jb, decide_False; [done|]. by intros ->.
      * by split; [rewrite Jf, decide_True|rewrite Jb, decide_True].
    + destruct l2 as [|y l2]; [done|]. destruct Hp2 as [_ Hp2]. simpl in *.
      eapply path_frame; [exact Hp2| |].
      * intros p Hp. rewrite Jf, decide_False; [done|]. intros ->. by eapply M3.
      * intros p Hp. rewrite Jb, decide_False; [done|]. intros ->.
        apply NoDup_cons in N6 as [N6 _].
        apply elem_of_app in Hp as [?|?%list_elem_of_singleton]; [done|].
        subst. apply M5, list_elem_of_here.
  - apply Jo. intros [E|[E|[]%not_elem_of_nil]%elem_of_cons]%elem_of_cons.
    + by eapply Hne.
    + destruct l2 as [|y l2]; simpl in E; subst.
      * by apply (Hne h); [apply list_elem_of_here|].
      * apply N4, list_elem_of_here.
Qed.

(** What the list operations do to the links. *)
Lemma InsertTailList_spliced m y e x :
  blink m y = Some x -> is_Some (m !! x) -> is_Some (m !! e) -> e <> x -> e <> y ->
  exists m', InsertTailList m y e = Some m' /\ spliced m m' x e y.
Proof.
  intros Hb Hx He Hex Hey. unfold InsertTailList. rewrite Hb. simpl.
  destruct (set_flink_spec m e y He) as (m1 & -> & F1 & B1 & O1 & D1). simpl.
  destruct (set_blink_spec m1 e x) as (m2 & -> & B2 & F2 & O2 & D2); [by apply D1|]. simpl.
  destruct (set_flink_spec m2 x e) as (m3 & -> & F3 & B3 & O3 & D3); [by apply D2, D1|]. simpl.
  destruct (set_blink_spec m3 y e) as (m4 & -> & B4 & F4 & O4 & D4).
  { apply D3, D2, D1. by eapply blink_is_Some. }
  eexists; split; [done|]. split.
  - intros q. rewrite F4, F3, F2, F1. repeat case_decide; congruence.
  - intros q. rewrite B4, B3, B2, B1. repeat case_decide; congruence.
  - intros q Hq. rewrite !not_elem_of_cons in Hq. destruct Hq as (? & ? & ? & _).
    by rewrite O4, O3, O2, O1.
  - intros q. by rewrite D4, D3, D2, D1.
Qed.

Lemma InsertHeadList_spliced m x e y :
  flink m x = Some y -> is_Some (m !! y) -> is_Some (m !! e) -> e <> x -> e <> y ->
  exists m', InsertHeadList m x e = Some m' /\ spliced m m' x e y.
Proof.
  intros Hb Hx He Hex Hey. unfold InsertHeadList. rewrite Hb. simpl.
  destruct (set_flink_spec m e y He) as (m1 & -> & F1 & B1 & O1 & D1). simpl.
  destruct (set_blink_spec m1 e x) as (m2 & -> & B2 & F2 & O2 & D2); [by apply D1|]. simpl.
  destruct (set_blink_spec m2 y e) as (m3 & -> & B3 & F3 & O3 & D3); [by apply D2, D1|]. simpl.
  destruct (set_flink_spec m3 x e) as (m4 & -> & F4 & B4 & O4 & D4).
  { apply D3, D2, D1. by eapply flink_is_Some. }
  eexists; split; [done|]. split.
  - intros q. rewrite F4, F3, F2, F1. repeat case_decide; congruence.
  - intros q. rewrite B4, B3, B2, B1. repeat case_decide; congruence.
  - intros q Hq. rewrite !not_elem_of_cons in Hq. destruct Hq as (? & ? & ? & _).
    by rewrite O4, O3, O2, O1.
  - intros q. by rewrite D4, D3, D2, D1.
Qed.

Lemma RemoveEntryList_joined m e x y :
  flink m e = Some y -> blink m e = Some x -> is_Some (m !! x) -> is_Some (m !! y) ->
  exists m', RemoveEntryList m e = Some (y =? x, m') /\ joined m m' x y.
Proof.
  intros Hf Hb Hx Hy. unfold RemoveEntryList. rewrite Hf, Hb. simpl.
  destruct (set_blink_spec m y x Hy) as (m1 & -> & B1 & F1 & O1 & D1). simpl.
  destruct (set_flink_spec m1 x y) as (m2 & -> & F2 & B2 & O2 & D2); [by apply D1|]. simpl.
  eexists; split; [done|]. split.
  - intros q. rewrite F2, F1. repeat case_decide; congruence.
  - intros q. rewrite B2, B1. repeat case_decide; congruence.
  - intros q Hq. rewrite !not_elem_of_cons in Hq. destruct Hq as (? & ? & _). by rewrite O2, O1.
  - intros q. by rewrite D2, D1.
Qed.

(** ** The operations on lists *)

Section Operations.
Context (m : links) (h : Z).

Lemma dlist_is_Some l p : dlist m h l -> p ∈ h :: l -> is_Some (m !! p).
Proof.
  intros [_ H] Hp. eapply path_is_Some; [exact H|]. rewrite app_comm_cons. set_solver.
Qed.

Lemma dlist_pred l1 l2 :
  dlist m h (l1 ++ l2) -> linked m (pred_of h l1) (next_of l2 h).
Proof. intros [_ [H _]%path_split]. by apply path_last. Qed.

Lemma dlist_next l1 y l2 :
  dlist m h (l1 ++ y :: l2) -> flink m y = Some (next_of l2 h).
Proof.
  intros [_ [_ H]%path_app]. destruct l2 as [|z l2]; [apply H|apply H].
Qed.

Lemma dlist_prev l1 y l2 :
  dlist m h (l1 ++ y :: l2) -> blink m y = Some (pred_of h l1).
Proof. intros H. by apply dlist_pred in H as [_ H]. Qed.

Lemma dlist_first l : dlist m h l -> flink m h = Some (next_of l h).
Proof. intros H. by apply (dlist_pred []) in H as [H _]. Qed.

Lemma dlist_last l : dlist m h l -> blink m h = Some (pred_of h l).
Proof. intros H. rewrite <- (app_nil_r l) in H. by apply dlist_pred in H as [_ H]. Qed.

Lemma next_of_in l2 z : next_of l2 z ∈ z :: l2.
Proof. destruct l2; simpl; set_solver. Qed.

Lemma dlist_ends_Some l1 l2 :
  dlist m h (l1 ++ l2) -> is_Some (m !! pred_of h l1) /\ is_Some (m !! next_of l2 h).
Proof.
  intros H. pose proof (pred_of_in h l1). pose proof (next_of_in l2 h).
  split; eapply dlist_is_Some; eauto; set_solver.
Qed.

Lemma InitializeListHead_dlist :
  is_Some (m !! h) -> exists m', InitializeListHead m h = Some m' /\ dlist m' h [] /\
    same_outside [h] m m'.
Proof.
  intros Hh. unfold InitializeListHead.
  destruct (set_blink_spec m h h Hh) as (m1 & -> & B1 & F1 & O1 & D1). simpl.
  destruct (set_flink_spec m1 h h) as (m2 & -> & F2 & B2 & O2 & D2); [by apply D1|].
  eexists; split_and!; [done| |].
  - split; [apply NoDup_singleton|]. split; [by rewrite F2, decide_True|].
    by rewrite B2, B1, decide_True.
  - intros q Hq. rewrite not_elem_of_cons in Hq. destruct Hq. by rewrite O2, O1.
Qed.

(** [InsertTailList] on any address of the circle inserts before that address; on the
    head this is the tail of the list. *)
Lemma InsertTailList_dlist l1 l2 e :
  dlist m h (l1 ++ l2) -> is_Some (m !! e) -> e ∉ h :: l1 ++ l2 ->
  exists m', InsertTailList m (next_of l2 h) e = Some m' /\ dlist m' h (l1 ++ e :: l2) /\
    same_outside (e :: h :: l1 ++ l2) m m' /\ (forall q, is_Some (m' !! q) <-> is_Some (m !! q)).
Proof.
  intros Hd He Hn. pose proof (dlist_pred _ _ Hd) as [_ Hb].
  pose proof (dlist_ends_Some _ _ Hd) as [Hx _].
  pose proof (pred_of_in h l1). pose proof (next_of_in l2 h).
  destruct (InsertTailList_spliced m (next_of l2 h) e (pred_of h l1)) as (m' & -> & Hs);
    [done|done|done|set_solver|set_solver|].
  eexists; split_and!; [done|by eapply splice_dlist| |apply Hs].
  intros q Hq. apply (spliced_outside _ _ _ _ _ Hs). set_solver.
Qed.

Lemma InsertHeadList_dlist l e :
  dlist m h l -> is_Some (m !! e) -> e ∉ h :: l ->
  exists m', InsertHeadList m h e = Some m' /\ dlist m' h (e :: l) /\
    same_outside (e :: h :: l) m m' /\ (forall q, is_Some (m' !! q) <-> is_Some (m !! q)).
Proof.
  intros Hd He Hn. pose proof (dlist_first _ Hd) as Hf. pose proof (next_of_in l h).
  pose proof (dlist_ends_Some [] l Hd) as [_ Hy].
  destruct (InsertHeadList_spliced m h e (next_of l h)) as (m' & -> & Hs);
    [done|done|done|set_solver|set_solver|].
  eexists; split_and!; [done|by apply (splice_dlist m m' h [] l e)| |apply Hs].
  intros q Hq. apply (spliced_outside _ _ _ _ _ Hs). set_solver.
Qed.

(** [RemoveEntryList] unlinks [e], which keeps its own links, and answers whether the
    list became empty. *)
Lemma RemoveEntryList_dlist l1 e l2 :
  dlist m h (l1 ++ e :: l2) ->
  exists m', RemoveEntryList m e = Some (bool_decide (l1 ++ l2 = []), m') /\
    dlist m' h (l1 ++ l2) /\ m' !! e = m !! e /\ same_outside (h :: l1 ++ l2) m m' /\
    (forall q, is_Some (m' !! q) <-> is_Some (m !! q)).
Proof.
  intros Hd. pose proof (dlist_next _ _ _ Hd) as Hf. pose proof (dlist_prev _ _ _ Hd) as Hb.
  pose proof (pred_of_in h l1) as Hx. pose proof (next_of_in l2 h) as Hy.
  destruct (RemoveEntryList_joined m e (pred_of h l1) (next_of l2 h)) as (m' & -> & Hj);
    [done|done|eapply dlist_is_Some; [done|set_solver]|eapply dlist_is_Some; [done|set_solver]|].
  destruct (join_dlist _ _ _ _ _ _ Hd Hj) as [Hd' He].
  eexists; split_and!; [|done|done| |apply Hj].
  - do 2 f_equal. apply Bool.eq_true_iff_eq. rewrite Z.eqb_eq, bool_decide_eq_true.
    destruct Hd' as [Hnd _]. pose proof (NoDup_cut _ _ _ Hnd) as (N1 & N2 & N3 & _ & N5).
    split.
    + intros E. destruct l2 as [|y l2]; simpl in E.
      * destruct l1 as [|a l1]; [done|]. simpl in *. exfalso. apply NoDup_cons in N1 as [N1 _].
        apply N1. rewrite E. apply pred_of_in.
      * subst. exfalso. by apply (N3 _ Hx), list_elem_of_here.
    + intros [-> ->]%app_eq_nil. done.
  - intros q Hq. apply (joined_outside _ _ _ _ Hj). set_solver.
Qed.

Lemma RemoveHeadList_dlist e l :
  dlist m h (e :: l) ->
  exists m', RemoveHeadList m h = Some (e, m') /\ dlist m' h l /\ m' !! e = m !! e /\
    same_outside (h :: l) m m' /\ (forall q, is_Some (m' !! q) <-> is_Some (m !! q)).
Proof.
  intros Hd. pose proof (dlist_first _ Hd) as Hf. pose proof (dlist_next [] _ _ Hd) as Hn.
  pose proof (next_of_in l h) as Hy. unfold RemoveHeadList. rewrite Hf. simpl. rewrite Hn. simpl.
  destruct (set_flink_spec m h (next_of l h)) as (m1 & -> & F1 & B1 & O1 & D1);
    [eapply dlist_is_Some; [done|set_solver]|]. simpl.
  destruct (set_blink_spec m1 (next_of l h) h) as (m2 & -> & B2 & F2 & O2 & D2);
    [apply D1; eapply dlist_is_Some; [done|set_solver]|]. simpl.
  assert (joined m m2 h (next_of l h)) as Hj.
  { split; [intros q; by rewrite F2, F1|intros q; rewrite B2; by rewrite B1| |].
    - intros q Hq. rewrite !not_elem_of_cons in Hq. destruct Hq as (? & ? & _).
      by rewrite O2, O1.
    - intros q. by rewrite D2, D1. }
  destruct (join_dlist m m2 h [] e l Hd Hj) as [Hd' He].
  eexists; split_and!; [done|done|done| |apply Hj].
  intros q Hq. apply (joined_outside _ _ _ _ Hj). set_solver.
Qed.

Lemma RemoveTailList_dlist l e :
  dlist m h (l ++ [e]) ->
  exists m', RemoveTailList m h = Some (e, m') /\ dlist m' h l /\ m' !! e = m !! e /\
    same_outside (h :: l) m m' /\ (forall q, is_Some (m' !! q) <-> is_Some (m !! q)).
Proof.
  intros Hd. pose proof (dlist_pred _ _ Hd) as [Hf _]. pose proof (dlist_prev _ _ _ Hd) as Hb.
  assert (blink m h = Some e) as Hl.
  { destruct Hd as [_ [_ [_ Hl]]%path_app]. done. }
  pose proof (pred_of_in h l) as Hx.
  unfold RemoveTailList. rewrite Hl. simpl. rewrite Hb. simpl.
  destruct (set_blink_spec m h (pred_of h l)) as (m1 & -> & B1 & F1 & O1 & D1);
    [eapply dlist_is_Some; [done|set_solver]|]. simpl.
  destruct (set_flink_spec m1 (pred_of h l) h) as (m2 & -> & F2 & B2 & O2 & D2);
    [apply D1; eapply dlist_is_Some; [done|set_solver]|]. simpl.
  assert (joined m m2 (pred_of h l) h) as Hj.
  { split; [intros q; rewrite F2; by rewrite F1|intros q; by rewrite B2, B1| |].
    - intros q Hq. rewrite !not_elem_of_cons in Hq. destruct Hq as (? & ? & _).
      by rewrite O2, O1.
    - intros q. by rewrite D2, D1. }
  destruct (join_dlist m m2 h l e [] Hd Hj) as [Hd' He]. rewrite app_nil_r in Hd'.
  eexists; split_and!; [done|done|done| |apply Hj].
  intros q Hq. apply (joined_outside _ _ _ _ Hj). set_solver.
Qed.

Lemma IsListEmpty_dlist l :
  dlist m h l -> IsListEmpty m h = Some (bool_decide (l = [])).
Proof.
  intros Hd. unfold IsListEmpty. rewrite (dlist_first _ Hd). simpl. f_equal.
  apply Bool.eq_true_iff_eq. rewrite Z.eqb_eq, bool_decide_eq_true.
  destruct l as [|y l]; simpl; [done|]. split; [|done]. intros ->.
  destruct Hd as [[Hn _]%NoDup_cons _]. exfalso. apply Hn, list_elem_of_here.
Qed.

(** A list is not disturbed by changes elsewhere. *)
Lemma dlist_frame m' l :
  dlist m h l -> (forall p, p ∈ h :: l -> m' !! p = m !! p) -> dlist m' h l.
Proof.
  intros [Hnd Hp] Heq. split; [done|]. eapply path_frame; [exact Hp| |];
    intros p Hin; unfold flink, blink; rewrite Heq; set_solver.
Qed.

End Operations.

(** ** Properties *)

Lemma chain_frame m m' x l :
  (forall p, p ∈ x :: l -> m' !! p = m !! p) -> chain m x l -> chain m' x l.
Proof.
  revert x. induction l as [|y l IH]; intros x Hf; simpl; rewrite Hf by apply list_elem_of_here;
    [done|]. intros (H1 & H2 & H3). split_and!; [done|done|].
  apply IH; [|done]. intros p Hp. apply Hf. by apply list_elem_of_further.
Qed.

(** [PushEntryList] puts an entry in front of a singly linked list, and [PopEntryList]
    takes that entry off again and leaves the list as it was; on an empty list
    [PopEntryList] returns NULL. *)
Theorem push_pop_single_list m h l e :
  slist m h l -> is_Some (m !! e) -> e <> 0 -> e ∉ h :: l ->
  (l = [] -> PopEntryList m h = Some (0, m)) /\
  exists m1 m2, PushEntryList m h e = Some m1 /\ slist m1 h (e :: l) /\
    PopEntryList m1 h = Some (e, m2) /\ slist m2 h l.
Proof.
  intros [Hnd Hc] [x0 He] Hz Hn. apply not_elem_of_cons in Hn as [Hneq Hn].
  apply NoDup_cons in Hnd as [Hh Hnd].
  split; [intros ->; unfold PopEntryList; simpl in Hc; by rewrite Hc|].
  assert (exists x, m !! h = Some x /\ forall m', m' !! e = Some x ->
            (forall p, p ∈ l -> m' !! p = m !! p) -> chain m' e l) as (x & Hx & Hch).
  { destruct l as [|y l]; simpl in Hc; [exists 0; by split|]. destruct Hc as (H1 & H2 & H3).
    exists y. split; [done|]. intros m' E Hf. split_and!; [done|done|].
    by apply (chain_frame m). }
  unfold PushEntryList. rewrite Hx, He. simpl. eexists _, _. split_and!; [reflexivity| | |].
  - split; [|split_and!; [by rewrite lookup_insert_eq|done|]].
    + repeat (apply NoDup_cons; split); [set_solver|done|done].
    + apply Hch; [by rewrite lookup_insert_ne, lookup_insert_eq|].
      intros p Hp. rewrite !lookup_insert_ne; [done|set_solver..].
  - unfold PopEntryList. rewrite lookup_insert_eq. simpl.
    rewrite (proj2 (Z.eqb_neq e 0)) by done. cbn [negb].
    rewrite lookup_insert_ne, lookup_insert_eq by done. reflexivity.
  - split; [by apply NoDup_cons|]. eapply chain_frame; [|exact Hc]. simpl.
    intros p Hp. destruct (decide (p = h)) as [->|Hph]; [by rewrite lookup_insert_eq|].
    rewrite !lookup_insert_ne; [done|set_solver..].
Qed.

Lemma push_pop_single_list_witness :
  let m : gmap Z Z := list_to_map [(1, 2); (2, 0); (3, 9)] in
  exists m1 m2, PushEntryList m 1 3 = Some m1 /\ slist m1 1 [3; 2] /\
    PopEntryList m1 1 = Some (3, m2) /\ slist m2 1 [2].
Proof.
  intros m. apply (push_pop_single_list m 1 [2] 3).
  - split; [refine (bool_decide_eq_true_1 _ _); vm_compute; reflexivity|].
    split; [reflexivity|]. split; [done|reflexivity].
  - by eexists.
  - done.
  - set_solver.
Defined.

(** inserting an entry anywhere in a doubly linked list (before the entry that starts
    [l2], or at the tail) and removing it again restores the list, and
    [RemoveEntryList] tells whether the list became empty; no address outside the list
    and the entry changes. *)
Theorem insert_remove_list_entry m h l1 l2 e :
  dlist m h (l1 ++ l2) -> is_Some (m !! e) -> e ∉ h :: l1 ++ l2 ->
  exists m1 m2, InsertTailList m (next_of l2 h) e = Some m1 /\ dlist m1 h (l1 ++ e :: l2) /\
    RemoveEntryList m1 e = Some (bool_decide (l1 ++ l2 = []), m2) /\ dlist m2 h (l1 ++ l2) /\
    forall p, p ∉ e :: h :: l1 ++ l2 -> m2 !! p = m !! p.
Proof.
  intros Hd He Hn. destruct (InsertTailList_dlist m h l1 l2 e Hd He Hn) as (m1 & E1 & D1 & O1 & _).
  destruct (RemoveEntryList_dlist m1 h l1 e l2 D1) as (m2 & E2 & D2 & _ & O2 & _).
  exists m1, m2. split_and!; [done|done|done|done|]. intros p Hp.
  rewrite O2, O1; [done|done|set_solver].
Qed.

Lemma insert_remove_list_entry_witness :
  let m : links := list_to_map [(1, mkEntry 2 2); (2, mkEntry 1 1); (3, mkEntry 0 0)] in
  exists m1 m2, InsertTailList m 2 3 = Some m1 /\ dlist m1 1 [3; 2] /\
    RemoveEntryList m1 3 = Some (false, m2) /\ dlist m2 1 [2].
Proof.
  intros m. destruct (insert_remove_list_entry m 1 [] [2] 3) as (m1 & m2 & E1 & D1 & E2 & D2 & _).
  - split; [refine (bool_decide_eq_true_1 _ _); vm_compute; reflexivity|].
    split; [split; reflexivity|]. split; reflexivity.
  - by eexists.
  - set_solver.
  - exists m1, m2. split; [exact E1|]. split; [exact D1|]. split; [exact E2|exact D2].
Defined.
