(* ===== verification/RangeList.v ===== *)
(** * Range lists (sdk/lib/rtl/rangelist.c)

    The lists of address ranges the resource arbiters use, on a heap: the links of the
    records ([ListEntry]), the ranges kept in the records, and the headers of the range
    lists.  The entry link is the first member of [RTL_RANGE_ENTRY] and the list head the
    first member of [RTL_RANGE_LIST], so [CONTAINING_RECORD] is the identity on addresses.
    Memory comes from an allocator interface ([RtlpAllocateMemory], a callback of the
    library's client); an access to an address that is not allocated faults, so a use of
    freed memory is a fault too.  The code is the i386 build: [ULONG_PTR] and [long] have
    32 bits, [ULONGLONG] has 64. *)

From Stdlib Require Import ZArith Lia Bool Sorted.
From stdpp Require Import base option list numbers gmap.
From S2P Require Import Prelude ListEntry.
Open Scope Z_scope.

Definition RTL_RANGE_LIST_ADD_SHARED : Z := 0x2.
Definition RTL_RANGE_SHARED : Z := 0x1.

(** The C member [End] is [End_] here. *)
Record RTL_RANGE := mkRange {
  Start : Z; End_ : Z; UserData : Z; Owner : Z; Attributes : Z; Flags : Z }.

(** The members of [RTL_RANGE_LIST] besides the list head. *)
Record RTL_RANGE_LIST := mkRangeList { ListFlags : Z; Count : Z; Stamp : Z }.

Record heap := mkHeap {
  entries : links;
  ranges : gmap Z RTL_RANGE;
  lists : gmap Z RTL_RANGE_LIST
}.

(** ** The fault and state monad *)

Definition M (A : Type) : Type := heap -> option (A * heap).

#[export] Instance M_ret : MRet M := fun A a σ => Some (a, σ).
#[export] Instance M_bind : MBind M := fun A B f c σ =>
  match c σ with
  | Some (a, σ') => f a σ'
  | None => None
  end.

Definition reads {A} (f : heap -> option A) : M A :=
  fun σ => a ← f σ; Some (a, σ).

(** A list operation on the links. *)
Definition on_links {A} (f : links -> option (A * links)) : M A :=
  fun σ => '(a, m) ← f (entries σ); Some (a, mkHeap m (ranges σ) (lists σ)).

Definition on_links_ (f : links -> option links) : M unit :=
  on_links (fun m => m ← f m; Some (tt, m)).

Definition get_flink (p : Z) : M Z := reads (fun σ => flink (entries σ) p).
Definition get_blink (p : Z) : M Z := reads (fun σ => blink (entries σ) p).
Definition get_range (p : Z) : M RTL_RANGE := reads (fun σ => ranges σ !! p).
Definition get_list (p : Z) : M RTL_RANGE_LIST := reads (fun σ => lists σ !! p).

Definition put_range (p : Z) (r : RTL_RANGE) : M unit := fun σ =>
  _ ← ranges σ !! p; Some (tt, mkHeap (entries σ) (<[p := r]> (ranges σ)) (lists σ)).

Definition put_list (p : Z) (hdr : RTL_RANGE_LIST) : M unit := fun σ =>
  _ ← lists σ !! p; Some (tt, mkHeap (entries σ) (ranges σ) (<[p := hdr]> (lists σ))).

(** ** Memory *)

(** The allocator: the address it answers with ([None] is a failed allocation) was not
    in use; what an allocated record holds is unspecified. *)
Class Allocator := {
  allocate : heap -> option Z;
  uninitialized : LIST_ENTRY * RTL_RANGE;
  allocate_fresh σ a : allocate σ = Some a ->
    entries σ !! a = None /\ ranges σ !! a = None /\ lists σ !! a = None
}.

Definition RtlpAllocateMemory `{Allocator} : M (option Z) := fun σ =>
  match allocate σ with
  | None => Some (None, σ)
  | Some a => Some (Some a, mkHeap (<[a := uninitialized.1]> (entries σ))
                                   (<[a := uninitialized.2]> (ranges σ)) (lists σ))
  end.

Definition RtlpFreeMemory (p : Z) : M unit := fun σ =>
  Some (tt, mkHeap (delete p (entries σ)) (delete p (ranges σ)) (lists σ)).

(** Loops visit each record at most once. *)
Definition fuel_of (σ : heap) : nat := S (size (entries σ)).
Definition get_fuel : M nat := reads (fun σ => Some (fuel_of σ)).

Definition out_of_fuel {A} : M A := fun _ => None.

(** [RangeList->Count++; RangeList->Stamp++]. *)
Definition CountUp (RangeList : Z) : M unit :=
  hdr ← get_list RangeList;
  put_list RangeList (mkRangeList (ListFlags hdr) (u32 (Count hdr + 1)) (u32 (Stamp hdr + 1))).

Definition CountDown (RangeList : Z) : M unit :=
  hdr ← get_list RangeList;
  put_list RangeList (mkRangeList (ListFlags hdr) (u32 (Count hdr - 1)) (u32 (Stamp hdr + 1))).

(** ** Initialisation *)

Definition RtlInitializeRangeList (RangeList : Z) : M unit :=
  on_links_ (fun m => InitializeListHead m RangeList);;
  put_list RangeList (mkRangeList 0 0 0).

(** ** Adding *)

(** The loop that looks for the first range behind the new one. *)
Fixpoint AddLoop (fuel : nat) (RangeList RangeEntry NewEnd Entry : Z) : M NTSTATUS :=
  if negb (Entry =? RangeList) then
    match fuel with
    | O => out_of_fuel
    | S fuel' =>
        Current ← get_range Entry;
        if NewEnd <? Start Current then
          on_links_ (fun m => InsertTailList m Entry RangeEntry);;
          CountUp RangeList;;
          mret STATUS_SUCCESS
        else
          Entry ← get_flink Entry;
          AddLoop fuel' RangeList RangeEntry NewEnd Entry
    end
  else
    on_links_ (fun m => InsertTailList m RangeList RangeEntry);;
    CountUp RangeList;;
    mret STATUS_SUCCESS.

Definition RtlAddRange `{Allocator} (RangeList Start End_ Attributes Flags UserData Owner : Z)
    : M NTSTATUS :=
  if End_ <? Start then mret STATUS_INVALID_PARAMETER else
  RangeEntry ← RtlpAllocateMemory;
  match RangeEntry with
  | None => mret STATUS_INSUFFICIENT_RESOURCES
  | Some RangeEntry =>
      put_range RangeEntry (mkRange Start End_ UserData Owner Attributes
        (if negb (Z.land Flags RTL_RANGE_LIST_ADD_SHARED =? 0) then RTL_RANGE_SHARED else 0));;
      hdr ← get_list RangeList;
      if Count hdr =? 0 then
        on_links_ (fun m => InsertTailList m RangeList RangeEntry);;
        CountUp RangeList;;
        mret STATUS_SUCCESS
      else
        Entry ← get_flink RangeList;
        fuel ← get_fuel;
        AddLoop fuel RangeList RangeEntry End_ Entry
  end.

(** ** Copying *)

Fixpoint CopyLoop `{Allocator} (fuel : nat) (CopyRangeList RangeList Entry : Z) : M NTSTATUS :=
  if negb (Entry =? RangeList) then
    match fuel with
    | O => out_of_fuel
    | S fuel' =>
        NewEntry ← RtlpAllocateMemory;
        match NewEntry with
        | None => mret STATUS_INSUFFICIENT_RESOURCES
        | Some NewEntry =>
            Current ← get_range Entry;
            put_range NewEntry Current;;
            on_links_ (fun m => InsertTailList m CopyRangeList NewEntry);;
            hdr ← get_list CopyRangeList;
            put_list CopyRangeList
              (mkRangeList (ListFlags hdr) (u32 (Count hdr + 1)) (Stamp hdr));;
            Entry ← get_flink Entry;
            CopyLoop fuel' CopyRangeList RangeList Entry
        end
    end
  else
    hdr ← get_list CopyRangeList;
    put_list CopyRangeList (mkRangeList (ListFlags hdr) (Count hdr) (u32 (Stamp hdr + 1)));;
    mret STATUS_SUCCESS.

Definition RtlCopyRangeList `{Allocator} (CopyRangeList RangeList : Z) : M NTSTATUS :=
  src ← get_list RangeList;
  hdr ← get_list CopyRangeList;
  put_list CopyRangeList (mkRangeList (ListFlags src) (Count hdr) (Stamp hdr));;
  Entry ← get_flink RangeList;
  fuel ← get_fuel;
  CopyLoop fuel CopyRangeList RangeList Entry.

(** ** Deleting *)

Fixpoint DeleteOwnersLoop (fuel : nat) (RangeList OwnerArg Entry : Z) : M NTSTATUS :=
  if negb (Entry =? RangeList) then
    match fuel with
    | O => out_of_fuel
    | S fuel' =>
        Current ← get_range Entry;
        (if Owner Current =? OwnerArg then
           on_links (fun m => RemoveEntryList m Entry);;
           RtlpFreeMemory Entry;;
           CountDown RangeList
         else mret tt);;
        Entry ← get_flink Entry;
        DeleteOwnersLoop fuel' RangeList OwnerArg Entry
    end
  else mret STATUS_SUCCESS.

Definition RtlDeleteOwnersRanges (RangeList OwnerArg : Z) : M NTSTATUS :=
  Entry ← get_flink RangeList;
  fuel ← get_fuel;
  DeleteOwnersLoop fuel RangeList OwnerArg Entry.

Fixpoint DeleteLoop (fuel : nat) (RangeList StartArg EndArg OwnerArg Entry : Z) : M NTSTATUS :=
  if negb (Entry =? RangeList) then
    match fuel with
    | O => out_of_fuel
    | S fuel' =>
        Current ← get_range Entry;
        if (Start Current =? StartArg) && (End_ Current =? EndArg) && (Owner Current =? OwnerArg)
        then
          on_links (fun m => RemoveEntryList m Entry);;
          RtlpFreeMemory Entry;;
          CountDown RangeList;;
          mret STATUS_SUCCESS
        else
          Entry ← get_flink Entry;
          DeleteLoop fuel' RangeList StartArg EndArg OwnerArg Entry
    end
  else mret STATUS_RANGE_NOT_FOUND.

Definition RtlDeleteRange (RangeList StartArg EndArg OwnerArg : Z) : M NTSTATUS :=
  Entry ← get_flink RangeList;
  fuel ← get_fuel;
  DeleteLoop fuel RangeList StartArg EndArg OwnerArg Entry.

Fixpoint FreeLoop (fuel : nat) (RangeList : Z) : M unit :=
  empty ← reads (fun σ => IsListEmpty (entries σ) RangeList);
  if negb empty then
    match fuel with
    | O => out_of_fuel
    | S fuel' =>
        Entry ← on_links (fun m => RemoveHeadList m RangeList);
        RtlpFreeMemory Entry;;
        FreeLoop fuel' RangeList
    end
  else mret tt.

Definition RtlFreeRangeList (RangeList : Z) : M unit :=
  fuel ← get_fuel;
  FreeLoop fuel RangeList;;
  hdr ← get_list RangeList;
  put_list RangeList (mkRangeList 0 0 (Stamp hdr)).

(** ** Finding *)

(** The bounds computed for the gap below [NextEntry]; [None] is the return of
    [STATUS_RANGE_NOT_FOUND]. *)
Definition GapCandidate (NextStart : option Z) (Minimum Maximum Length Alignment : Z)
    : option Z :=
  let RangeMax := match NextStart with Some s => u64 (s - 1) | None => Maximum end in
  if u64 (RangeMax + u32 (Length - 1)) <? Minimum then None else
  let RangeMin := ROUND_DOWN (u64 (RangeMax - u32 (Length - 1))) Alignment in
  if (RangeMin <? Minimum) || (u64 (RangeMax - RangeMin) <? u32 (Length - 1)) then None
  else Some RangeMin.

(** The loop from the last range to the first; the result is the status and the value
    stored in [*Start]. *)
Fixpoint FindLoop (fuel : nat) (RangeList Minimum Maximum Length Alignment : Z)
    (NextStart : option Z) (Entry : Z) : M (NTSTATUS * option Z) :=
  if negb (Entry =? RangeList) then
    match fuel with
    | O => out_of_fuel
    | S fuel' =>
        CurrentEntry ← get_range Entry;
        match GapCandidate NextStart Minimum Maximum Length Alignment with
        | None => mret (STATUS_RANGE_NOT_FOUND, None)
        | Some RangeMin =>
            if End_ CurrentEntry <? RangeMin then mret (STATUS_SUCCESS, Some RangeMin) else
            Entry ← get_blink Entry;
            FindLoop fuel' RangeList Minimum Maximum Length Alignment
              (Some (Start CurrentEntry)) Entry
        end
    end
  else
    match GapCandidate NextStart Minimum Maximum Length Alignment with
    | None => mret (STATUS_RANGE_NOT_FOUND, None)
    | Some RangeMin => mret (STATUS_SUCCESS, Some RangeMin)
    end.

Definition RtlFindRange (RangeList Minimum Maximum Length Alignment : Z)
    : M (NTSTATUS * option Z) :=
  if (Alignment =? 0) || (Length =? 0) then mret (STATUS_INVALID_PARAMETER, None) else
  empty ← reads (fun σ => IsListEmpty (entries σ) RangeList);
  if (empty : bool) then
    mret (STATUS_SUCCESS, Some (ROUND_DOWN (u64 (Maximum - u32 (Length - 1))) Alignment))
  else
    Entry ← get_blink RangeList;
    fuel ← get_fuel;
    FindLoop fuel RangeList Minimum Maximum Length Alignment None Entry.

(** ** Iterating *)

Record RTL_RANGE_LIST_ITERATOR := mkIterator {
  RangeListHead : Z; MergedHead : option Z; Current : option Z; IterStamp : Z }.

(** Returns the status, the iterator and the address of the range ([None] is NULL). *)
Definition RtlGetFirstRange (RangeList : Z)
    : M (NTSTATUS * RTL_RANGE_LIST_ITERATOR * option Z) :=
  hdr ← get_list RangeList;
  empty ← reads (fun σ => IsListEmpty (entries σ) RangeList);
  if (empty : bool) then
    mret (STATUS_NO_MORE_ENTRIES, mkIterator RangeList None None (Stamp hdr), None)
  else
    f ← get_flink RangeList;
    mret (STATUS_SUCCESS, mkIterator RangeList None (Some f) (Stamp hdr), Some f).

(** Dereferencing a NULL [Current] faults. *)
Definition RtlGetNextRange (Iterator : RTL_RANGE_LIST_ITERATOR) (MoveForwards : bool)
    : M (NTSTATUS * RTL_RANGE_LIST_ITERATOR * option Z) :=
  hdr ← get_list (RangeListHead Iterator);
  if negb (IterStamp Iterator =? Stamp hdr)
  then mret (STATUS_INVALID_PARAMETER, Iterator, None) else
  match Current Iterator with
  | None => fun _ => None
  | Some cur =>
      Next ← (if MoveForwards then get_flink cur else get_blink cur);
      if Next =? RangeListHead Iterator then mret (STATUS_NO_MORE_ENTRIES, Iterator, None)
      else mret (STATUS_SUCCESS,
                 mkIterator (RangeListHead Iterator) (MergedHead Iterator) (Some Next)
                   (IterStamp Iterator), Some Next)
  end.

(** ** Inverting *)

Fixpoint InvertLoop `{Allocator} (fuel : nat) (InvertedRangeList RangeList : Z)
    (Previous : option RTL_RANGE) (Entry : Z) : M NTSTATUS :=
  if negb (Entry =? RangeList) then
    match fuel with
    | O => out_of_fuel
    | S fuel' =>
        Current ← get_range Entry;
        Status ←
          match Previous with
          | None =>
              if negb (Start Current =? 0)
              then RtlAddRange InvertedRangeList 0 (u64 (Start Current - 1)) 0 0 0 0
              else mret STATUS_SUCCESS
          | Some Previous =>
              if negb (u64 (End_ Previous + 1) =? Start Current)
              then RtlAddRange InvertedRangeList (u64 (End_ Previous + 1))
                     (u64 (Start Current - 1)) 0 0 0 0
              else mret STATUS_SUCCESS
          end;
        if negb (NT_SUCCESS Status) then mret Status else
        Entry ← get_flink Entry;
        InvertLoop fuel' InvertedRangeList RangeList (Some Current) Entry
    end
  else
    match Previous with
    | None => mret STATUS_SUCCESS
    | Some Previous =>
        if negb (u64 (End_ Previous + 1) =? 2 ^ 64 - 1) then
          Status ← RtlAddRange InvertedRangeList (u64 (End_ Previous + 1)) (2 ^ 64 - 1) 0 0 0 0;
          if negb (NT_SUCCESS Status) then mret Status else mret STATUS_SUCCESS
        else mret STATUS_SUCCESS
    end.

Definition RtlInvertRangeList `{Allocator} (InvertedRangeList RangeList : Z) : M NTSTATUS :=
  Entry ← get_flink RangeList;
  fuel ← get_fuel;
  InvertLoop fuel InvertedRangeList RangeList None Entry.

(** ** Availability *)

(** The test of one range against the requested one. *)
Definition RangeConflicts (r : RTL_RANGE) (StartArg EndArg FlagsArg : Z) : bool :=
  negb (((EndArg <=? Start r) && (EndArg <? End_ r)) ||
        ((Start r <=? StartArg) && (End_ r <? StartArg) &&
         ((Z.land FlagsArg RTL_RANGE_SHARED =? 0) || (Z.land (Flags r) RTL_RANGE_SHARED =? 0)))).

Fixpoint AvailableLoop (fuel : nat) (RangeList StartArg EndArg FlagsArg : Z)
    (Callback : option (RTL_RANGE -> bool)) (Available : bool) (Entry : Z) : M (NTSTATUS * bool) :=
  if negb (Entry =? RangeList) then
    match fuel with
    | O => out_of_fuel
    | S fuel' =>
        Current ← get_range Entry;
        let Available :=
          if RangeConflicts Current StartArg EndArg FlagsArg then
            match Callback with
            | Some callback => callback Current
            | None => false
            end
          else Available in
        Entry ← get_flink Entry;
        AvailableLoop fuel' RangeList StartArg EndArg FlagsArg Callback Available Entry
    end
  else mret (STATUS_SUCCESS, Available).

(** [Callback] is the caller's conflict callback with its context; [None] is NULL. *)
Definition RtlIsRangeAvailable (RangeList StartArg EndArg FlagsArg : Z)
    (Callback : option (RTL_RANGE -> bool)) : M (NTSTATUS * bool) :=
  Entry ← get_flink RangeList;
  fuel ← get_fuel;
  AvailableLoop fuel RangeList StartArg EndArg FlagsArg Callback true Entry.

(** ** Merging *)

Fixpoint MergeLoop `{Allocator} (fuel : nat) (MergedRangeList FlagsArg : Z)
    (Iterator : RTL_RANGE_LIST_ITERATOR) (RangeAddr : Z) : M NTSTATUS :=
  match fuel with
  | O => out_of_fuel
  | S fuel' =>
      Range ← get_range RangeAddr;
      Status ← RtlAddRange MergedRangeList (Start Range) (End_ Range) (Attributes Range)
                 (Z.lor (Flags Range) FlagsArg) (UserData Range) (Owner Range);
      if negb (NT_SUCCESS Status) then mret Status else
      '(Status, Iterator, Next) ← RtlGetNextRange Iterator true;
      match NT_SUCCESS Status, Next with
      | true, Some Next => MergeLoop fuel' MergedRangeList FlagsArg Iterator Next
      | _, _ => mret Status
      end
  end.

Definition RtlMergeRangeLists `{Allocator} (MergedRangeList RangeList1 RangeList2 FlagsArg : Z)
    : M NTSTATUS :=
  Status ← RtlCopyRangeList MergedRangeList RangeList1;
  if negb (NT_SUCCESS Status) then mret Status else
  '(Status, Iterator, Range) ← RtlGetFirstRange RangeList2;
  match NT_SUCCESS Status, Range with
  | true, Some Range =>
      fuel ← get_fuel;
      Status ← MergeLoop fuel MergedRangeList FlagsArg Iterator Range;
      mret (if Status =? STATUS_NO_MORE_ENTRIES then STATUS_SUCCESS else Status)
  | _, _ => mret (if Status =? STATUS_NO_MORE_ENTRIES then STATUS_SUCCESS else Status)
  end.

