(* ===== verification/RangeListSpec.v ===== *)
(** * Range lists: representation and refinement

    The heap predicate [range_list], which relates the linked records of [RangeList] to a
    list of ranges, and for each operation of [src/sdk/lib/rtl/rangelist.c] the lemma that
    it computes a function on that list and leaves the rest of the heap alone. *)

From Stdlib Require Import ZArith Lia Bool.
From stdpp Require Import base option list numbers gmap fin_maps.
From S2P Require Import Prelude ListEntry RangeList.

Open Scope Z_scope.

(** ** Running the monad *)

Lemma bind_run {A B} (c : M A) (f : A -> M B) σ a σ' :
  c σ = Some (a, σ') -> (c ≫= f) σ = f a σ'.
Proof. intros H. unfold mbind, M_bind. by rewrite H. Qed.

Lemma get_flink_run p v σ : flink (entries σ) p = Some v -> get_flink p σ = Some (v, σ).
Proof. intros H. unfold get_flink, reads. by rewrite H. Qed.

Lemma get_blink_run p v σ : blink (entries σ) p = Some v -> get_blink p σ = Some (v, σ).
Proof. intros H. unfold get_blink, reads. by rewrite H. Qed.

Lemma get_range_run p r σ : ranges σ !! p = Some r -> get_range p σ = Some (r, σ).
Proof. intros H. unfold get_range, reads. by rewrite H. Qed.

Lemma get_list_run p hdr σ : lists σ !! p = Some hdr -> get_list p σ = Some (hdr, σ).
Proof. intros H. unfold get_list, reads. by rewrite H. Qed.

Lemma put_range_run p r0 r σ :
  ranges σ !! p = Some r0 ->
  put_range p r σ = Some (tt, mkHeap (entries σ) (<[p := r]> (ranges σ)) (lists σ)).
Proof. intros H. unfold put_range. by rewrite H. Qed.

Lemma put_list_run p h0 hdr σ :
  lists σ !! p = Some h0 ->
  put_list p hdr σ = Some (tt, mkHeap (entries σ) (ranges σ) (<[p := hdr]> (lists σ))).
Proof. intros H. unfold put_list. by rewrite H. Qed.

Lemma on_links_run {A} (f : links -> option (A * links)) σ a m :
  f (entries σ) = Some (a, m) ->
  on_links f σ = Some (a, mkHeap m (ranges σ) (lists σ)).
Proof. intros H. unfold on_links. by rewrite H. Qed.

Lemma on_links__run (f : links -> option links) σ m :
  f (entries σ) = Some m -> on_links_ f σ = Some (tt, mkHeap m (ranges σ) (lists σ)).
Proof. intros H. apply on_links_run. by rewrite H. Qed.

Lemma reads_run {A} (f : heap -> option A) σ a : f σ = Some a -> reads f σ = Some (a, σ).
Proof. intros H. unfold reads. by rewrite H. Qed.

Lemma get_fuel_run σ : get_fuel σ = Some (fuel_of σ, σ).
Proof. done. Qed.

(** [mrun H] runs the first action of a sequence whose result is given by [H]. *)
Ltac mrun H := erewrite bind_run by (eapply H; simpl; eauto).

(** ** Representation *)

(** The range list at [h] has the header [hdr] and the records [l], each an address and
    the range kept there, in list order. *)
Record range_list (σ : heap) (h : Z) (hdr : RTL_RANGE_LIST) (l : list (Z * RTL_RANGE)) : Prop := {
  rl_links : dlist (entries σ) h l.*1;
  rl_ranges : forall a r, (a, r) ∈ l -> ranges σ !! a = Some r;
  rl_list : lists σ !! h = Some hdr;
  rl_count : Count hdr = u32 (Z.of_nat (length l))
}.

(** What is allocated in [σ] outside the addresses [d] is the same in [σ']. *)
Definition preserves (d : list Z) (σ σ' : heap) : Prop :=
  forall p, p ∉ d -> is_Some (entries σ !! p) ->
    entries σ' !! p = entries σ !! p /\ ranges σ' !! p = ranges σ !! p /\
    lists σ' !! p = lists σ !! p.

Lemma preserves_refl d σ : preserves d σ σ.
Proof. by intros p _. Qed.

(** The second step may touch the addresses [d2], those of [d1] and ones that were not
    allocated at first. *)
Lemma preserves_trans d1 d2 σ1 σ2 σ3 :
  preserves d1 σ1 σ2 -> preserves d2 σ2 σ3 ->
  (forall p, p ∈ d2 -> p ∈ d1 \/ entries σ1 !! p = None) -> preserves d1 σ1 σ3.
Proof.
  intros H1 H2 Hd p Hp Hs. destruct (H1 p Hp Hs) as (E1 & E2 & E3).
  destruct (H2 p) as (F1 & F2 & F3).
  - intros [?|E]%Hd; [done|]. destruct Hs. congruence.
  - by rewrite E1.
  - by rewrite F1, F2, F3.
Qed.

Lemma range_list_preserved d σ σ' h hdr l :
  range_list σ h hdr l -> preserves d σ σ' -> (forall p, p ∈ h :: l.*1 -> p ∉ d) ->
  range_list σ' h hdr l.
Proof.
  intros [R1 R2 R3 R4] Ha Hd.
  assert (forall p, p ∈ h :: l.*1 -> is_Some (entries σ !! p)) as Hs.
  { intros p Hp. by eapply dlist_is_Some. }
  split; [| | |done].
  - eapply dlist_frame; [done|]. intros p Hp. apply Ha; auto.
  - intros a r Hin. assert (a ∈ h :: l.*1).
    { apply list_elem_of_further, list_elem_of_fmap. by exists (a, r). }
    destruct (Ha a) as (_ & -> & _); auto.
  - destruct (Ha h) as (_ & _ & ->); auto using list_elem_of_here.
Qed.

Lemma dlist_length m h l : dlist m h l -> (length l < size m)%nat.
Proof.
  intros Hd. assert (list_to_set (h :: l) ⊆ dom m) as Hsub.
  { intros p Hp. rewrite elem_of_list_to_set in Hp. apply elem_of_dom.
    by eapply dlist_is_Some. }
  apply subseteq_size in Hsub. rewrite size_list_to_set, size_dom in Hsub by apply Hd.
  simpl in Hsub. lia.
Qed.

Lemma range_list_fuel σ h hdr l : range_list σ h hdr l -> (length l < fuel_of σ)%nat.
Proof.
  intros [R1 _ _ _]. apply dlist_length in R1. rewrite length_fmap in R1. unfold fuel_of. lia.
Qed.

Lemma range_list_at σ h hdr l1 a r l2 :
  range_list σ h hdr (l1 ++ (a, r) :: l2) ->
  a <> h /\ ranges σ !! a = Some r /\
  flink (entries σ) a = Some (next_of l2.*1 h) /\ blink (entries σ) a = Some (pred_of h l1.*1).
Proof.
  intros [R1 R2 R3 R4]. rewrite fmap_app, fmap_cons in R1. simpl in R1. split_and!.
  - destruct R1 as [[Hn _]%NoDup_cons _]. intros ->. apply Hn. set_solver.
  - apply R2. set_solver.
  - by eapply dlist_next.
  - by eapply dlist_prev.
Qed.

Lemma range_list_first σ h hdr l :
  range_list σ h hdr l -> flink (entries σ) h = Some (next_of l.*1 h).
Proof. intros [R1 _ _ _]. by apply dlist_first. Qed.

Lemma range_list_last σ h hdr l :
  range_list σ h hdr l -> blink (entries σ) h = Some (pred_of h l.*1).
Proof. intros [R1 _ _ _]. by apply dlist_last. Qed.

Lemma range_list_empty σ h hdr l :
  range_list σ h hdr l -> IsListEmpty (entries σ) h = Some (bool_decide (l = [])).
Proof.
  intros [R1 _ _ _]. rewrite (IsListEmpty_dlist _ _ _ R1). f_equal.
  apply bool_decide_ext. by destruct l.
Qed.

Definition count_up (hdr : RTL_RANGE_LIST) : RTL_RANGE_LIST :=
  mkRangeList (ListFlags hdr) (u32 (Count hdr + 1)) (u32 (Stamp hdr + 1)).

Definition count_down (hdr : RTL_RANGE_LIST) : RTL_RANGE_LIST :=
  mkRangeList (ListFlags hdr) (u32 (Count hdr - 1)) (u32 (Stamp hdr + 1)).

Lemma CountUp_run h hdr σ :
  lists σ !! h = Some hdr ->
  CountUp h σ = Some (tt, mkHeap (entries σ) (ranges σ) (<[h := count_up hdr]> (lists σ))).
Proof. intros H. unfold CountUp. mrun @get_list_run. by eapply put_list_run. Qed.

Lemma CountDown_run h hdr σ :
  lists σ !! h = Some hdr ->
  CountDown h σ = Some (tt, mkHeap (entries σ) (ranges σ) (<[h := count_down hdr]> (lists σ))).
Proof. intros H. unfold CountDown. mrun @get_list_run. by eapply put_list_run. Qed.

(** ** Insertion *)

(** A record ready to be linked in. *)
Record detached (σ : heap) (a : Z) (r : RTL_RANGE) : Prop := {
  det_entry : is_Some (entries σ !! a);
  det_range : ranges σ !! a = Some r;
  det_list : lists σ !! a = None
}.

Lemma insert_run σ h hdr l1 l2 a r hdr' :
  range_list σ h hdr (l1 ++ l2) -> detached σ a r -> a ∉ (l1 ++ l2).*1 ->
  Count hdr' = u32 (Count hdr + 1) ->
  exists σ', on_links_ (fun m => InsertTailList m (next_of l2.*1 h) a) σ = Some (tt, σ') /\
    lists σ' !! h = Some hdr /\
    let σ'' := mkHeap (entries σ') (ranges σ') (<[h := hdr']> (lists σ')) in
    range_list σ'' h hdr' (l1 ++ (a, r) :: l2) /\ preserves (a :: h :: (l1 ++ l2).*1) σ σ''.
Proof.
  intros [R1 R2 R3 R4] [D1 D2 D3] Hn Hc.
  assert (a <> h) as Hah by (intros ->; congruence).
  rewrite fmap_app in R1, Hn.
  destruct (InsertTailList_dlist (entries σ) h l1.*1 l2.*1 a) as (m' & E & Hd & Ho & _);
    [done|done|set_solver|].
  eexists; split; [by apply on_links__run|]. simpl. split; [done|]. split.
  - split; simpl.
    + by rewrite fmap_app, fmap_cons.
    + intros b r' [Hin|[[= -> ->]|Hin]%elem_of_cons]%elem_of_app; [|done|]; apply R2; set_solver.
    + by rewrite lookup_insert_eq.
    + rewrite Hc, R4, u32_add_l, !length_app. simpl. f_equal. lia.
  - intros p Hp _. simpl. rewrite fmap_app in Hp. split_and!; [apply Ho; set_solver|done|].
    rewrite lookup_insert_ne; [done|set_solver].
Qed.

Lemma insert_count_run σ h hdr l1 l2 a r :
  range_list σ h hdr (l1 ++ l2) -> detached σ a r -> a ∉ (l1 ++ l2).*1 ->
  exists σ',
    (on_links_ (fun m => InsertTailList m (next_of l2.*1 h) a);;
     CountUp h;; (mret STATUS_SUCCESS : M NTSTATUS)) σ = Some (STATUS_SUCCESS, σ') /\
    range_list σ' h (count_up hdr) (l1 ++ (a, r) :: l2) /\
    preserves (a :: h :: (l1 ++ l2).*1) σ σ'.
Proof.
  intros HR HD Hn. destruct (insert_run σ h hdr l1 l2 a r (count_up hdr)) as (σ1 & E & H1 & H2);
    [done|done|done|done|].
  rewrite (bind_run _ _ _ _ _ E). rewrite (bind_run _ _ _ _ _ (CountUp_run _ _ _ H1)).
  eexists; split; [done|]. done.
Qed.

(** Where [RtlAddRange] puts a range: before the first range that starts behind it. *)
Fixpoint add_range (r : RTL_RANGE) (l : list RTL_RANGE) : list RTL_RANGE :=
  match l with
  | [] => [r]
  | c :: l' => if End_ r <? Start c then r :: c :: l' else c :: add_range r l'
  end.

Lemma AddLoop_run σ h hdr l1 l2 a r fuel :
  range_list σ h hdr (l1 ++ l2) -> detached σ a r -> a ∉ (l1 ++ l2).*1 ->
  (length l2 < fuel)%nat ->
  exists σ' k, AddLoop fuel h a (End_ r) (next_of l2.*1 h) σ = Some (STATUS_SUCCESS, σ') /\
    range_list σ' h (count_up hdr) (l1 ++ k) /\ k.*2 = add_range r l2.*2 /\
    (forall p, p ∈ k.*1 <-> p = a \/ p ∈ l2.*1) /\
    preserves (a :: h :: (l1 ++ l2).*1) σ σ'.
Proof.
  revert l1 l2. induction fuel as [|fuel IH]; intros l1 l2 HR HD Hn Hf; [lia|].
  destruct l2 as [|[b c] l2].
  - cbn [AddLoop next_of fmap list_fmap]. rewrite Z.eqb_refl. cbn [negb].
    destruct (insert_count_run σ h hdr l1 [] a r HR HD Hn) as (σ' & E & H1 & H2).
    exists σ', [(a, r)]. split_and!; [exact E|exact H1|reflexivity| |exact H2].
    intros p. cbn [fmap list_fmap fst]. rewrite !elem_of_cons. set_solver.
  - cbn [AddLoop next_of fmap list_fmap fst].
    destruct (range_list_at _ _ _ _ _ _ _ HR) as (Hb & Hr & Hfl & _).
    destruct (Z.eqb_spec b h); [done|]. cbn [negb]. mrun @get_range_run.
    cbn [add_range snd]. destruct (Z.ltb_spec (End_ r) (Start c)).
    + destruct (insert_count_run σ h hdr l1 ((b, c) :: l2) a r HR HD Hn) as (σ' & E & H1 & H2).
      exists σ', ((a, r) :: (b, c) :: l2). split_and!; [exact E|exact H1|reflexivity| |exact H2].
      intros p. cbn [fmap list_fmap fst]. rewrite !elem_of_cons. tauto.
    + mrun @get_flink_run.
      destruct (IH (l1 ++ [(b, c)]) l2) as (σ' & k & E & H1 & H2 & H3 & H4);
        rewrite <- ?app_assoc; [done|done|done|simpl in Hf; lia|].
      rewrite <- app_assoc in H1, H4.
      exists σ', ((b, c) :: k). split_and!; [exact E|exact H1| | |exact H4].
      2:{ intros p. cbn [fmap list_fmap fst]. rewrite !elem_of_cons, H3. tauto. }
      cbn [fmap list_fmap snd]. f_equal. exact H2.
Qed.

(** ** The operations *)

Section Operations.
Context `{Allocator}.

Lemma RtlInitializeRangeList_run σ h :
  is_Some (entries σ !! h) -> is_Some (lists σ !! h) ->
  exists σ', RtlInitializeRangeList h σ = Some (tt, σ') /\
    range_list σ' h (mkRangeList 0 0 0) [] /\ preserves [h] σ σ'.
Proof.
  intros He [h0 Hl].
  destruct (InitializeListHead_dlist (entries σ) h He) as (m & E & Hd & Ho).
  unfold RtlInitializeRangeList. erewrite bind_run by (by apply on_links__run).
  erewrite put_list_run by done. eexists; split; [done|]. split.
  - split; simpl; [done|set_solver|by rewrite lookup_insert_eq|done].
  - intros p Hp _. apply not_elem_of_cons in Hp as [Hp _]. simpl.
    rewrite lookup_insert_ne by done. split; [apply Ho; set_solver|done].
Qed.

(** An allocation and the initialisation of the record. *)
Definition fresh_heap (σ : heap) (a : Z) (r : RTL_RANGE) : heap :=
  mkHeap (<[a := uninitialized.1]> (entries σ)) (<[a := r]> (ranges σ)) (lists σ).

Lemma allocate_None_run {B} σ (f : option Z -> M B) :
  allocate σ = None -> (RtlpAllocateMemory ≫= f) σ = f None σ.
Proof. intros Ha. unfold RtlpAllocateMemory, mbind, M_bind. by rewrite Ha. Qed.

Lemma allocate_Some_run {B} σ a (f : option Z -> M B) :
  allocate σ = Some a ->
  (RtlpAllocateMemory ≫= f) σ = f (Some a) (fresh_heap σ a uninitialized.2).
Proof. intros Ha. unfold RtlpAllocateMemory, mbind, M_bind. by rewrite Ha. Qed.

Lemma put_fresh_run {B} σ a r0 r (k : M B) :
  (put_range a r;; k) (fresh_heap σ a r0) = k (fresh_heap σ a r).
Proof.
  erewrite bind_run by (eapply put_range_run; simpl; by rewrite lookup_insert_eq).
  unfold fresh_heap. simpl. by rewrite insert_insert_eq.
Qed.

Lemma fresh_detached σ a r : allocate σ = Some a -> detached (fresh_heap σ a r) a r.
Proof.
  intros (_ & _ & ?)%allocate_fresh. split; simpl; [|by rewrite lookup_insert_eq|done].
  rewrite lookup_insert_eq. by eexists.
Qed.

Lemma fresh_preserves d σ a r : allocate σ = Some a -> preserves d σ (fresh_heap σ a r).
Proof.
  intros (E & _ & _)%allocate_fresh p _ [x Hp]. simpl.
  rewrite !lookup_insert_ne by congruence. done.
Qed.

Lemma fresh_not_in σ a h hdr l :
  allocate σ = Some a -> range_list σ h hdr l -> a ∉ h :: l.*1.
Proof.
  intros (E & _ & _)%allocate_fresh [R1 _ _ _] Hin.
  destruct (dlist_is_Some _ _ _ _ R1 Hin). congruence.
Qed.

Lemma fresh_range_list σ a r h hdr l :
  allocate σ = Some a -> range_list σ h hdr l -> range_list (fresh_heap σ a r) h hdr l.
Proof.
  intros Ha HR. eapply range_list_preserved; [done|by apply fresh_preserves|].
  intros p Hp. apply not_elem_of_nil.
Qed.

(** The range that [RtlAddRange] stores. *)
Definition new_range (Start End_ Attributes Flags UserData Owner : Z) : RTL_RANGE :=
  mkRange Start End_ UserData Owner Attributes
    (if negb (Z.land Flags RTL_RANGE_LIST_ADD_SHARED =? 0) then RTL_RANGE_SHARED else 0).

(** The list at [h] got new records at most, at addresses that were not allocated, and
    nothing else changed. *)
Definition extends (σ σ' : heap) (h : Z) (l k : list (Z * RTL_RANGE)) : Prop :=
  (forall p, p ∈ k.*1 -> p ∈ l.*1 \/ entries σ !! p = None) /\ preserves (h :: l.*1) σ σ'.

(** The lists at [h] and [g] share no address. *)
Definition separate (h : Z) (l : list (Z * RTL_RANGE)) (g : Z) (m : list (Z * RTL_RANGE)) : Prop :=
  forall p, p ∈ h :: l.*1 -> p ∉ g :: m.*1.

Lemma extends_refl σ h l : extends σ σ h l l.
Proof. split; [auto|apply preserves_refl]. Qed.

Lemma extends_trans σ1 σ2 σ3 h hdr l1 l2 l3 :
  range_list σ2 h hdr l2 -> extends σ1 σ2 h l1 l2 -> extends σ2 σ3 h l2 l3 ->
  extends σ1 σ3 h l1 l3.
Proof.
  intros HR [A1 A2] [B1 B2]. split.
  - intros p [?|Hn]%B1; [by apply A1|].
    destruct (decide (p ∈ h :: l1.*1)) as [[->|?]%elem_of_cons|Hp]; [|by left|].
    + destruct (dlist_is_Some _ _ _ h (rl_links _ _ _ _ HR)); [apply list_elem_of_here|congruence].
    + right. apply eq_None_not_Some. intros Hs. destruct (A2 p Hp Hs) as (E & _).
      rewrite E in Hn. destruct Hs. congruence.
  - eapply preserves_trans; [done|done|]. intros p [->|Hp]%elem_of_cons.
    + left. apply list_elem_of_here.
    + apply A1 in Hp as [?|?]; [left|by right]. by apply list_elem_of_further.
Qed.

Lemma extends_other σ σ' h l k g hdr m :
  extends σ σ' h l k -> range_list σ g hdr m -> separate h l g m ->
  range_list σ' g hdr m /\ separate h k g m.
Proof.
  intros [A1 A2] HR Hs. split.
  - eapply range_list_preserved; [done|done|]. intros p Hp Hq. by apply (Hs p).
  - intros p [->|Hp]%elem_of_cons; [apply Hs, list_elem_of_here|].
    apply A1 in Hp as [Hp|Hp]; [by apply Hs, list_elem_of_further|]. intros Hg.
    destruct (dlist_is_Some _ _ _ p (rl_links _ _ _ _ HR) Hg). congruence.
Qed.

(** What a successful addition does to the heap. *)
Definition added σ σ' h hdr (l : list (Z * RTL_RANGE)) k r : Prop :=
  range_list σ' h (count_up hdr) k /\ k.*2 = add_range r l.*2 /\ extends σ σ' h l k.

Lemma RtlAddRange_run σ h hdr l S E At Fl U O :
  range_list σ h hdr l -> Z.of_nat (length l) < 2 ^ 32 -> S <= E ->
  match allocate σ with
  | None => RtlAddRange h S E At Fl U O σ = Some (STATUS_INSUFFICIENT_RESOURCES, σ)
  | Some a => exists σ' k, RtlAddRange h S E At Fl U O σ = Some (STATUS_SUCCESS, σ') /\
      added σ σ' h hdr l k (new_range S E At Fl U O)
  end.
Proof.
  intros HR Hlen HSE. unfold RtlAddRange. destruct (Z.ltb_spec E S); [lia|].
  destruct (allocate σ) as [a|] eqn:Ha.
  2:{ by rewrite allocate_None_run. }
  fold (new_range S E At Fl U O). set (r := new_range S E At Fl U O).
  rewrite (allocate_Some_run _ _ _ Ha), put_fresh_run.
  pose proof (fresh_range_list σ a r h hdr l Ha HR) as HR'.
  pose proof (fresh_not_in σ a h hdr l Ha HR) as Hn.
  pose proof (fresh_detached σ a r Ha) as HD.
  pose proof (fresh_preserves (h :: l.*1) σ a r Ha) as HP.
  pose proof (range_list_fuel _ _ _ _ HR') as Hf.
  assert (exists σ' k, AddLoop (fuel_of (fresh_heap σ a r)) h a E (next_of l.*1 h)
            (fresh_heap σ a r) = Some (STATUS_SUCCESS, σ') /\ added σ σ' h hdr l k r) as Hadd.
  { destruct (AddLoop_run (fresh_heap σ a r) h hdr [] l a r (fuel_of (fresh_heap σ a r)))
      as (σ' & k & E1 & H1 & H2 & H3 & H4); [done|done|set_solver|done|].
    destruct (allocate_fresh _ _ Ha) as (Fa & _ & _).
    exists σ', k. split; [exact E1|]. split; [done|]. split; [done|]. split.
    - intros p [->| ?]%H3; auto.
    - eapply preserves_trans; [exact HP|exact H4|]. intros p [->|?]%elem_of_cons; auto. }
  pose proof (rl_list _ _ _ _ HR'). pose proof (range_list_first _ _ _ _ HR').
  mrun @get_list_run. rewrite (rl_count _ _ _ _ HR). norm_int.
  destruct (Z.eqb_spec (Z.of_nat (length l)) 0) as [E0|E0].
  - destruct l; [|simpl in E0; lia]. destruct Hadd as (σ' & k & Ek & Hk). exists σ', k. split; [|exact Hk].
    rewrite <- Ek. unfold fuel_of. cbn [AddLoop next_of fmap list_fmap]. by rewrite Z.eqb_refl.
  - mrun @get_flink_run. mrun @get_fuel_run. done.
Qed.

(** *** Deletion *)

Lemma remove_run {B} σ h hdr l1 a r l2 (k : M B) :
  range_list σ h hdr (l1 ++ (a, r) :: l2) ->
  exists σ', (on_links (fun m => RemoveEntryList m a);; RtlpFreeMemory a;; CountDown h;; k) σ
               = k σ' /\
    range_list σ' h (count_down hdr) (l1 ++ l2) /\
    entries σ' !! a = None /\ ranges σ' !! a = None /\
    preserves (h :: (l1 ++ (a, r) :: l2).*1) σ σ'.
Proof.
  intros HR. pose proof HR as [R1 R2 R3 R4].
  rewrite fmap_app, fmap_cons in R1. simpl in R1.
  destruct (RemoveEntryList_dlist _ _ _ _ _ R1) as (m & E & Hd & _ & Ho & _).
  assert (a ∉ h :: l1.*1 ++ l2.*1) as Hn.
  { destruct R1 as [Hnd _]. rewrite app_comm_cons in Hnd. apply NoDup_app in Hnd as (_ & N1 & N2).
    apply NoDup_cons in N2 as [N2 _]. rewrite app_comm_cons. apply not_elem_of_app.
    split; [|done]. intros Hin. eapply N1; [done|apply list_elem_of_here]. }
  erewrite bind_run by (apply on_links_run, E). unfold RtlpFreeMemory.
  unfold mbind at 1, M_bind at 1. erewrite bind_run by (apply CountDown_run; exact R3). simpl.
  eexists; split; [reflexivity|]. simpl. split_and!.
  - split; simpl.
    + rewrite fmap_app. eapply dlist_frame; [done|]. intros p Hp.
      rewrite lookup_delete_ne; [done|]. intros ->. done.
    + intros b r' Hin. rewrite lookup_delete_ne.
      { apply R2. set_solver. }
      intros ->. apply Hn. rewrite <- fmap_app. apply list_elem_of_further, list_elem_of_fmap.
      by exists (b, r').
    + by rewrite lookup_insert_eq.
    + rewrite R4. unfold Z.sub. rewrite u32_add_l, !length_app. simpl. f_equal. lia.
  - by rewrite lookup_delete_eq.
  - by rewrite lookup_delete_eq.
  - intros p Hp _. simpl. rewrite fmap_app, fmap_cons in Hp. simpl in Hp.
    rewrite !lookup_delete_ne, lookup_insert_ne by set_solver. split; [|done].
    apply Ho. set_solver.
Qed.

(** The test of [RtlDeleteRange]. *)
Definition matches (S E O : Z) (r : RTL_RANGE) : bool :=
  (Start r =? S) && (End_ r =? E) && (Owner r =? O).

Lemma DeleteLoop_run σ h hdr l1 l2 S E O fuel :
  range_list σ h hdr (l1 ++ l2) -> (length l2 < fuel)%nat ->
  (exists k1 a r k2 σ', l2 = k1 ++ (a, r) :: k2 /\
    Forall (fun x => matches S E O x.2 = false) k1 /\ matches S E O r = true /\
    DeleteLoop fuel h S E O (next_of l2.*1 h) σ = Some (STATUS_SUCCESS, σ') /\
    range_list σ' h (count_down hdr) (l1 ++ k1 ++ k2) /\
    entries σ' !! a = None /\ ranges σ' !! a = None /\ preserves (h :: (l1 ++ l2).*1) σ σ') \/
  Forall (fun x => matches S E O x.2 = false) l2 /\
    DeleteLoop fuel h S E O (next_of l2.*1 h) σ = Some (STATUS_RANGE_NOT_FOUND, σ).
Proof.
  revert l1 l2. induction fuel as [|fuel IH]; intros l1 l2 HR Hf; [lia|].
  destruct l2 as [|[b c] l2]; cbn [DeleteLoop next_of fmap list_fmap fst].
  { right. rewrite Z.eqb_refl. done. }
  destruct (range_list_at _ _ _ _ _ _ _ HR) as (Hb & Hr & Hfl & _).
  destruct (Z.eqb_spec b h); [done|]. cbn [negb]. mrun @get_range_run.
  fold (matches S E O c). destruct (matches S E O c) eqn:Em.
  - left. destruct (remove_run σ h hdr l1 b c l2 (mret STATUS_SUCCESS) HR)
      as (σ' & E1 & H1 & H2 & H3 & H4).
    exists [], b, c, l2, σ'. split_and!; done.
  - mrun @get_flink_run.
    destruct (IH (l1 ++ [(b, c)]) l2) as [(k1 & a & r & k2 & σ' & -> & G1 & G2 & G3 & G4 & G5)|[G1 G2]];
      [by rewrite <- app_assoc|simpl in Hf; lia| |].
    + left. exists ((b, c) :: k1), a, r, k2, σ'. rewrite <- !app_assoc in G4, G5. simpl in G4, G5.
      split_and!; [done|by constructor|done|exact G3|exact G4|apply G5..].
    + right. split; [by constructor|exact G2].
Qed.

(** *** Freeing *)

Lemma FreeLoop_run fuel σ h l :
  dlist (entries σ) h l -> (length l < fuel)%nat ->
  exists σ', FreeLoop fuel h σ = Some (tt, σ') /\ dlist (entries σ') h [] /\
    lists σ' = lists σ /\ (forall p, p ∈ l -> entries σ' !! p = None /\ ranges σ' !! p = None) /\
    preserves (h :: l) σ σ' /\
    (forall p, entries σ !! p = None -> entries σ' !! p = None) /\
    (forall p, ranges σ !! p = None -> ranges σ' !! p = None).
Proof.
  revert σ l. induction fuel as [|fuel IH]; intros σ l Hd Hf; [lia|].
  cbn [FreeLoop]. erewrite bind_run by (apply reads_run, IsListEmpty_dlist, Hd).
  destruct l as [|e l].
  { rewrite bool_decide_true by done. exists σ. split_and!; [done|done|done|set_solver| |done|done].
    apply preserves_refl. }
  rewrite bool_decide_false by done. cbn [negb].
  destruct (RemoveHeadList_dlist _ _ _ _ Hd) as (m & E & Hd' & _ & Ho & Hiff).
  erewrite bind_run by (apply on_links_run, E). unfold RtlpFreeMemory.
  unfold mbind at 1, M_bind at 1. simpl.
  pose proof Hd as [[N1 [N2 N3]%NoDup_cons]%NoDup_cons _].
  destruct (IH (mkHeap (delete e m) (delete e (ranges σ)) (lists σ)) l)
    as (σ' & E' & G1 & G2 & G3 & G4 & G5 & G6); [|simpl in Hf; lia|].
  { eapply dlist_frame; [exact Hd'|]. intros p Hp. simpl. rewrite lookup_delete_ne; [done|].
    set_solver. }
  exists σ'. split_and!; [exact E'|exact G1|exact G2| | | |].
  - intros p [->|?]%elem_of_cons; [|by apply G3].
    split; [apply G5|apply G6]; simpl; apply lookup_delete_eq.
  - intros p Hp Hs. simpl in *. destruct (G4 p) as (-> & -> & ->); [set_solver| |].
    + simpl. rewrite lookup_delete_ne by set_solver. rewrite Ho by set_solver. done.
    + simpl. rewrite !lookup_delete_ne by set_solver. rewrite Ho by set_solver. done.
  - intros p Hp. apply G5. simpl. apply lookup_delete_None. right. apply eq_None_not_Some.
    rewrite Hiff, Hp. apply is_Some_None.
  - intros p Hp. apply G6. simpl. apply lookup_delete_None. by right.
Qed.

(** *** Finding *)

(** The search of [RtlFindRange] over the ranges from the last to the first. *)
Fixpoint find_gap (rl : list RTL_RANGE) (next : option Z) (Min Max Len Al : Z) : option Z :=
  match GapCandidate next Min Max Len Al with
  | None => None
  | Some m =>
      match rl with
      | [] => Some m
      | c :: rl' => if End_ c <? m then Some m else find_gap rl' (Some (Start c)) Min Max Len Al
      end
  end.

Definition find_result (o : option Z) : NTSTATUS * option Z :=
  match o with
  | Some m => (STATUS_SUCCESS, Some m)
  | None => (STATUS_RANGE_NOT_FOUND, None)
  end.

Lemma pred_of_snoc x l y : pred_of x (l ++ [y]) = y.
Proof. revert x. induction l; simpl; auto. Qed.

Lemma FindLoop_run fuel σ h hdr l1 l2 next Min Max Len Al :
  range_list σ h hdr (l1 ++ l2) -> (length l1 < fuel)%nat ->
  FindLoop fuel h Min Max Len Al next (pred_of h l1.*1) σ
  = Some (find_result (find_gap (reverse l1.*2) next Min Max Len Al), σ).
Proof.
  revert l1 l2 next. induction fuel as [|fuel IH]; intros l1 l2 next HR Hf; [lia|].
  destruct l1 as [|[b c] l1 _] using rev_ind; cbn [FindLoop].
  - simpl pred_of. rewrite Z.eqb_refl. cbn [negb]. simpl.
    by destruct (GapCandidate _ _ _ _ _).
  - rewrite <- app_assoc in HR. simpl in HR.
    destruct (range_list_at _ _ _ _ _ _ _ HR) as (Hb & Hr & _ & Hbl).
    rewrite !fmap_app, reverse_app. cbn [fmap list_fmap fst snd]. rewrite pred_of_snoc.
    destruct (Z.eqb_spec b h); [done|]. cbn [negb]. mrun @get_range_run.
    rewrite reverse_singleton. cbn [app find_gap].
    destruct (GapCandidate _ _ _ _ _); [|done]. destruct (_ <? _); [done|].
    mrun @get_blink_run. eapply IH; [done|]. rewrite length_app in Hf. simpl in Hf. lia.
Qed.

Lemma RtlFindRange_run σ h hdr l Min Max Len Al :
  range_list σ h hdr l -> l <> [] -> Al <> 0 -> Len <> 0 ->
  RtlFindRange h Min Max Len Al σ
  = Some (find_result (find_gap (reverse l.*2) None Min Max Len Al), σ).
Proof.
  intros HR Hl HA HL. unfold RtlFindRange.
  rewrite !(proj2 (Z.eqb_neq _ _)) by done. cbn [orb].
  erewrite bind_run by (eapply reads_run, range_list_empty, HR).
  rewrite bool_decide_false by done.
  pose proof (range_list_last _ _ _ _ HR). mrun @get_blink_run. mrun @get_fuel_run.
  eapply (FindLoop_run _ _ _ _ l []); [by rewrite app_nil_r|by eapply range_list_fuel].
Qed.

(** *** Availability *)

Definition available (S E F : Z) (cb : option (RTL_RANGE -> bool)) (av : bool) (r : RTL_RANGE)
    : bool :=
  if RangeConflicts r S E F then match cb with Some f => f r | None => false end else av.

Lemma AvailableLoop_run fuel σ h hdr l1 l2 S E F cb av :
  range_list σ h hdr (l1 ++ l2) -> (length l2 < fuel)%nat ->
  AvailableLoop fuel h S E F cb av (next_of l2.*1 h) σ
  = Some ((STATUS_SUCCESS, foldl (available S E F cb) av l2.*2), σ).
Proof.
  revert l1 l2 av. induction fuel as [|fuel IH]; intros l1 l2 av HR Hf; [lia|].
  destruct l2 as [|[b c] l2]; cbn [AvailableLoop next_of fmap list_fmap fst snd foldl].
  { by rewrite Z.eqb_refl. }
  destruct (range_list_at _ _ _ _ _ _ _ HR) as (Hb & Hr & Hfl & _).
  destruct (Z.eqb_spec b h); [done|]. cbn [negb]. mrun @get_range_run. mrun @get_flink_run.
  apply (IH (l1 ++ [(b, c)])); [by rewrite <- app_assoc|simpl in Hf; lia].
Qed.

Lemma RtlIsRangeAvailable_run σ h hdr l S E F cb :
  range_list σ h hdr l ->
  RtlIsRangeAvailable h S E F cb σ
  = Some ((STATUS_SUCCESS, foldl (available S E F cb) true l.*2), σ).
Proof.
  intros HR. unfold RtlIsRangeAvailable. pose proof (range_list_first _ _ _ _ HR).
  mrun @get_flink_run. mrun @get_fuel_run.
  eapply (AvailableLoop_run _ _ _ _ []); [done|by eapply range_list_fuel].
Qed.

(** *** Iteration *)

Lemma RtlGetFirstRange_run σ h hdr l :
  range_list σ h hdr l ->
  RtlGetFirstRange h σ
  = Some (match l with
          | [] => (STATUS_NO_MORE_ENTRIES, mkIterator h None None (Stamp hdr), None)
          | (a, _) :: _ => (STATUS_SUCCESS, mkIterator h None (Some a) (Stamp hdr), Some a)
          end, σ).
Proof.
  intros HR. unfold RtlGetFirstRange. pose proof (rl_list _ _ _ _ HR). mrun @get_list_run.
  erewrite bind_run by (eapply reads_run, range_list_empty, HR).
  pose proof (range_list_first _ _ _ _ HR) as Hf.
  destruct l as [|[a r] l]; [by rewrite bool_decide_true|].
  rewrite bool_decide_false by done. by mrun @get_flink_run.
Qed.

(** The answer of [RtlGetNextRange] when the range to move to is at [next]. *)
Definition next_result (h : Z) (it : RTL_RANGE_LIST_ITERATOR) (next : option Z) :=
  match next with
  | None => (STATUS_NO_MORE_ENTRIES, it, None)
  | Some b => (STATUS_SUCCESS, mkIterator h (MergedHead it) (Some b) (IterStamp it), Some b)
  end.

Lemma RtlGetNextRange_run σ h hdr l1 a r l2 stamp fwd :
  range_list σ h hdr (l1 ++ (a, r) :: l2) ->
  let it := mkIterator h None (Some a) stamp in
  RtlGetNextRange it fwd σ
  = Some (if stamp =? Stamp hdr
          then next_result h it (if fwd then head l2.*1 else last l1.*1)
          else (STATUS_INVALID_PARAMETER, it, None), σ).
Proof.
  intros HR it. unfold RtlGetNextRange. pose proof (rl_list _ _ _ _ HR).
  mrun @get_list_run. simpl. destruct (stamp =? Stamp hdr); [|done]. cbn [negb].
  destruct (range_list_at _ _ _ _ _ _ _ HR) as (_ & _ & Hf & Hb).
  destruct HR as [[Hnd _] _ _ _]. apply NoDup_cons in Hnd as [Hh _].
  rewrite fmap_app, fmap_cons in Hh. destruct fwd.
  - mrun @get_flink_run. destruct l2 as [|[b c] l2]; simpl; [by rewrite Z.eqb_refl|].
    destruct (Z.eqb_spec b h) as [->|]; [|done]. exfalso. set_solver.
  - mrun @get_blink_run. destruct l1 as [|[b c] l1 _] using rev_ind; simpl.
    { by rewrite Z.eqb_refl. }
    rewrite fmap_app. cbn [fmap list_fmap fst]. rewrite pred_of_snoc, last_snoc.
    destruct (Z.eqb_spec b h) as [->|]; [|done]. exfalso. apply Hh. rewrite fmap_app. set_solver.
Qed.


(** *** Copying *)

(** A record appended to the list at [c]. *)
Lemma append_run σ c hc lc a r :
  allocate σ = Some a -> range_list σ c hc lc ->
  exists σ', (forall B (k : M B),
    (on_links_ (fun m => InsertTailList m c a);;
     hdr ← get_list c;
     put_list c (mkRangeList (ListFlags hdr) (u32 (Count hdr + 1)) (Stamp hdr));; k)
      (fresh_heap σ a r) = k σ') /\
    range_list σ' c (mkRangeList (ListFlags hc) (u32 (Count hc + 1)) (Stamp hc)) (lc ++ [(a, r)]) /\
    extends σ σ' c lc (lc ++ [(a, r)]).
Proof.
  intros Ha HR. pose proof (fresh_range_list σ a r c hc lc Ha HR) as HR'.
  pose proof (fresh_not_in σ a c hc lc Ha HR) as Hn. pose proof (fresh_detached σ a r Ha) as HD.
  pose proof (fresh_preserves (c :: lc.*1) σ a r Ha) as HP.
  rewrite <- (app_nil_r lc) in HR'.
  destruct (insert_run (fresh_heap σ a r) c hc lc [] a r
    (mkRangeList (ListFlags hc) (u32 (Count hc + 1)) (Stamp hc))) as (σ1 & E & Hl & H1 & H2);
    [done|done|rewrite app_nil_r; set_solver|done|].
  simpl next_of in E. eexists; split.
  { intros B k. rewrite (bind_run _ _ _ _ _ E). mrun @get_list_run. mrun @put_list_run. done. } split; [exact H1|]. split.
  - intros p. rewrite fmap_app. intros [?|Hp%list_elem_of_singleton]%elem_of_app; [by left|].
    right. rewrite Hp. by apply allocate_fresh.
  - eapply preserves_trans; [exact HP|exact H2|]. rewrite app_nil_r.
    intros p [->|?]%elem_of_cons; [|by left]. right. by apply allocate_fresh.
Qed.

Lemma CopyLoop_run fuel σ c hc lc h hdr l1 l2 :
  range_list σ c hc lc -> range_list σ h hdr (l1 ++ l2) -> separate c lc h (l1 ++ l2) ->
  (length l2 < fuel)%nat ->
  exists st σ' hc' k n, CopyLoop fuel c h (next_of l2.*1 h) σ = Some (st, σ') /\
    range_list σ' c hc' k /\ extends σ σ' c lc k /\ ListFlags hc' = ListFlags hc /\
    k.*2 = lc.*2 ++ take n l2.*2 /\
    (st = STATUS_SUCCESS /\ n = length l2 /\ Stamp hc' = u32 (Stamp hc + 1) \/
     st = STATUS_INSUFFICIENT_RESOURCES /\ (n < length l2)%nat /\ exists σ1, allocate σ1 = None).
Proof.
  revert σ hc lc l1 l2. induction fuel as [|fuel IH]; intros σ hc lc l1 l2 HC HR Hs Hf; [lia|].
  destruct l2 as [|[b r] l2]; cbn [CopyLoop next_of fmap list_fmap fst snd].
  { rewrite Z.eqb_refl. cbn [negb]. pose proof (rl_list _ _ _ _ HC).
    mrun @get_list_run. mrun @put_list_run.
    set (hc' := mkRangeList _ _ _).
    exists STATUS_SUCCESS, (mkHeap (entries σ) (ranges σ) (<[c := hc']> (lists σ))), hc', lc, 0%nat.
    split_and!; [done| | |done|by rewrite app_nil_r|by left].
    - destruct HC as [C1 C2 C3 C4]. split; simpl; [done|done|by rewrite lookup_insert_eq|done].
    - split; [auto|]. intros p Hp _. simpl. rewrite lookup_insert_ne; [done|set_solver]. }
  destruct (range_list_at _ _ _ _ _ _ _ HR) as (Hb & Hr & Hfl & _).
  destruct (Z.eqb_spec b h); [done|]. cbn [negb]. destruct (allocate σ) as [a|] eqn:Ha.
  2:{ rewrite allocate_None_run by done.
      exists STATUS_INSUFFICIENT_RESOURCES, σ, hc, lc, 0%nat.
      split_and!; [done|done|apply extends_refl|done|by rewrite app_nil_r|right].
      split_and!; [done|simpl; lia|eauto]. }
  rewrite (allocate_Some_run _ _ _ Ha).
  pose proof (fresh_range_list σ a uninitialized.2 h hdr _ Ha HR) as HR1.
  destruct (range_list_at _ _ _ _ _ _ _ HR1) as (_ & Hr1 & _ & _).
  mrun @get_range_run. rewrite put_fresh_run.
  destruct (append_run σ c hc lc a r Ha HC) as (σ' & E & G1 & G2).
  rewrite E.
  destruct (extends_other _ _ _ _ _ _ _ _ G2 HR Hs) as [HR2 Hs2].
  destruct (range_list_at _ _ _ _ _ _ _ HR2) as (_ & _ & Hfl2 & _). mrun @get_flink_run.
  destruct (IH _ _ _ (l1 ++ [(b, r)]) l2 G1) as (st & σ2 & hc' & k & j & E2 & K1 & K2 & K3 & K4 & K5);
    [by rewrite <- app_assoc|by rewrite <- app_assoc|simpl in Hf; lia|].
  exists st, σ2, hc', k, (S j). split_and!; [exact E2|done|exact (extends_trans _ _ _ _ _ _ _ _ G1 G2 K2)|done| |].
  - rewrite K4, fmap_app, <- app_assoc. done.
  - simpl. destruct K5 as [(?&?&?)|(?&?&?)]; [left|right]; split_and!; simpl in *; auto; lia.
Qed.


Lemma RtlCopyRangeList_run σ c hc lc h hdr l :
  range_list σ c hc lc -> range_list σ h hdr l -> separate c lc h l ->
  exists st σ' hc' k n, RtlCopyRangeList c h σ = Some (st, σ') /\
    range_list σ' c hc' k /\ extends σ σ' c lc k /\ ListFlags hc' = ListFlags hdr /\
    k.*2 = lc.*2 ++ take n l.*2 /\
    (st = STATUS_SUCCESS /\ n = length l /\ Stamp hc' = u32 (Stamp hc + 1) \/
     st = STATUS_INSUFFICIENT_RESOURCES /\ (n < length l)%nat /\ exists σ1, allocate σ1 = None).
Proof.
  intros HC HR Hs. unfold RtlCopyRangeList. pose proof (rl_list _ _ _ _ HC) as Hlc.
  pose proof (rl_list _ _ _ _ HR) as Hlr. pose proof (range_list_first _ _ _ _ HR).
  do 2 mrun @get_list_run. mrun @put_list_run. mrun @get_flink_run. mrun @get_fuel_run.
  set (hc1 := mkRangeList _ _ _). set (σ1 := mkHeap _ _ _).
  assert (range_list σ1 c hc1 lc) as HC1.
  { destruct HC as [C1 C2 C3 C4]. split; simpl; [done|done|by rewrite lookup_insert_eq|done]. }
  assert (extends σ σ1 c lc lc) as HE.
  { split; [auto|]. intros p Hp _. simpl. rewrite lookup_insert_ne; [done|set_solver]. }
  destruct (extends_other _ _ _ _ _ _ _ _ HE HR Hs) as [HR1 Hs1].
  destruct (CopyLoop_run (fuel_of σ1) σ1 c hc1 lc h hdr [] l HC1 HR1 Hs1)
    as (st & σ' & hc' & k & n & E & K1 & K2 & K3 & K4 & K5); [by eapply range_list_fuel|].
  exists st, σ', hc', k, n. split_and!; [exact E|done|exact (extends_trans _ _ _ _ _ _ _ _ HC1 HE K2)|done|done|done].
Qed.

(** *** Adding several ranges *)

Lemma add_range_length r l : length (add_range r l) = S (length l).
Proof. induction l as [|c l IH]; simpl; [done|]. case_match; simpl; congruence. Qed.

(** One addition, whether or not memory is available. *)
Lemma add_step σ h hdr l S E At Fl U O :
  range_list σ h hdr l -> Z.of_nat (length l) < 2 ^ 32 -> S <= E ->
  exists st σ' hdr' k, RtlAddRange h S E At Fl U O σ = Some (st, σ') /\
    range_list σ' h hdr' k /\ extends σ σ' h l k /\
    (st = STATUS_SUCCESS /\ k.*2 = add_range (new_range S E At Fl U O) l.*2 /\
       length k = Datatypes.S (length l) \/
     st = STATUS_INSUFFICIENT_RESOURCES /\ exists σ1, allocate σ1 = None).
Proof.
  intros HR Hl HSE. pose proof (RtlAddRange_run σ h hdr l S E At Fl U O HR Hl HSE) as Ha.
  destruct (allocate σ) eqn:Hal.
  - destruct Ha as (σ' & k & E1 & H1 & H2 & H3). exists STATUS_SUCCESS, σ', (count_up hdr), k.
    split_and!; [done|done|done|left]. split_and!; [done|done|].
    by rewrite <- (length_fmap snd k), H2, add_range_length, length_fmap.
  - eexists _, σ, hdr, l. split_and!; [done|done|apply extends_refl|right; eauto].
Qed.

(** *** Inverting *)

Definition gap_range (g : Z * Z) : RTL_RANGE := new_range g.1 g.2 0 0 0 0.

(** The gap between the range [prev] and the next one, as a list of at most one pair of
    bounds. *)
Definition gap_before (prev : option RTL_RANGE) (c : RTL_RANGE) : list (Z * Z) :=
  match prev with
  | None => if negb (Start c =? 0) then [(0, u64 (Start c - 1))] else []
  | Some p => if negb (u64 (End_ p + 1) =? Start c)
              then [(u64 (End_ p + 1), u64 (Start c - 1))] else []
  end.

(** The gap behind the last range. *)
Definition gap_after (prev : option RTL_RANGE) : list (Z * Z) :=
  match prev with
  | None => []
  | Some p => if negb (u64 (End_ p + 1) =? 2 ^ 64 - 1)
              then [(u64 (End_ p + 1), 2 ^ 64 - 1)] else []
  end.

(** The gaps that [RtlInvertRangeList] finds. *)
Fixpoint gaps (prev : option RTL_RANGE) (l : list RTL_RANGE) : list (Z * Z) :=
  match l with
  | [] => gap_after prev
  | c :: l' => gap_before prev c ++ gaps (Some c) l'
  end.

Definition add_gaps (l : list RTL_RANGE) (gs : list (Z * Z)) : list RTL_RANGE :=
  foldl (fun l g => add_range (gap_range g) l) l gs.

(** The optional addition of one gap. *)
Definition gap_step (i : Z) (gs : list (Z * Z)) : M NTSTATUS :=
  match gs with
  | g :: _ => RtlAddRange i g.1 g.2 0 0 0 0
  | [] => mret STATUS_SUCCESS
  end.

Lemma gap_step_run σ i hi li gs :
  range_list σ i hi li -> (length gs <= 1)%nat ->
  Z.of_nat (length li + length gs) <= 2 ^ 32 -> Forall (fun g => g.1 <= g.2) gs ->
  exists st σ' hi' k, gap_step i gs σ = Some (st, σ') /\
    range_list σ' i hi' k /\ extends σ σ' i li k /\
    (st = STATUS_SUCCESS /\ k.*2 = add_gaps li.*2 gs /\ length k = (length li + length gs)%nat \/
     st = STATUS_INSUFFICIENT_RESOURCES /\ exists σ1, allocate σ1 = None).
Proof.
  intros HR H1 Hl Hg. destruct gs as [|g gs]; simpl in *.
  - exists STATUS_SUCCESS, σ, hi, li. split_and!; [done|done|apply extends_refl|left].
    split_and!; [done|done|lia].
  - destruct gs; [|simpl in H1; lia]. inversion_clear Hg as [|? ? Hg1 _].
    destruct (add_step σ i hi li g.1 g.2 0 0 0 0) as (st & σ' & hi' & k & K1 & K2 & K3 & K4);
      [done|lia|done|].
    exists st, σ', hi', k. split_and!; [done|done|done|].
    destruct K4 as [(?&?&?)|?]; [left|by right]. split_and!; [done|done|simpl; lia].
Qed.


Lemma gap_step_before i prev c :
  match prev with
  | None =>
      if negb (Start c =? 0) then RtlAddRange i 0 (u64 (Start c - 1)) 0 0 0 0
      else mret STATUS_SUCCESS
  | Some p =>
      if negb (u64 (End_ p + 1) =? Start c)
      then RtlAddRange i (u64 (End_ p + 1)) (u64 (Start c - 1)) 0 0 0 0
      else mret STATUS_SUCCESS
  end = gap_step i (gap_before prev c).
Proof. destruct prev; simpl; by case_match. Qed.

Lemma gap_before_length prev c : (length (gap_before prev c) <= 1)%nat.
Proof. destruct prev; simpl; case_match; simpl; lia. Qed.

Lemma gap_after_length prev : (length (gap_after prev) <= 1)%nat.
Proof. destruct prev; simpl; [case_match|]; simpl; lia. Qed.

Lemma InvertLoop_run fuel σ i hi li h hdr l1 l2 prev :
  range_list σ i hi li -> range_list σ h hdr (l1 ++ l2) -> separate i li h (l1 ++ l2) ->
  (length l2 < fuel)%nat -> let gs := gaps prev l2.*2 in
  Forall (fun g => g.1 <= g.2) gs -> Z.of_nat (length li + length gs) <= 2 ^ 32 ->
  exists st σ' hi' k, InvertLoop fuel i h prev (next_of l2.*1 h) σ = Some (st, σ') /\
    range_list σ' i hi' k /\ extends σ σ' i li k /\
    (st = STATUS_SUCCESS /\ k.*2 = add_gaps li.*2 gs \/
     st = STATUS_INSUFFICIENT_RESOURCES /\ exists σ1, allocate σ1 = None).
Proof.
  revert σ hi li l1 l2 prev.
  induction fuel as [|fuel IH]; intros σ hi li l1 l2 prev HI HR Hs Hf gs Hg Hl; [lia|].
  subst gs. destruct l2 as [|[b r] l2]; cbn [InvertLoop next_of fmap list_fmap fst snd gaps] in *.
  { rewrite Z.eqb_refl. cbn [negb].
    destruct (gap_step_run σ i hi li (gap_after prev)) as (st & σ' & hi' & k & E & K1 & K2 & K3);
      [done|apply gap_after_length|done|done|].
    exists st, σ', hi', k. split_and!; [|done|done|tauto].
    destruct prev as [p|]; simpl in E |- *; [|done].
    destruct (negb _); simpl in E |- *; [|done]. rewrite (bind_run _ _ _ _ _ E).
    by destruct K3 as [[-> _]|[-> _]]. }
  destruct (range_list_at _ _ _ _ _ _ _ HR) as (Hb & Hr & _ & _).
  destruct (Z.eqb_spec b h); [done|]. cbn [negb]. mrun @get_range_run.
  rewrite gap_step_before. apply Forall_app in Hg as [Hg1 Hg2]. rewrite length_app in Hl.
  destruct (gap_step_run σ i hi li (gap_before prev r)) as (st & σ1 & hi1 & k & E & K1 & K2 & K3);
    [done|apply gap_before_length|lia|done|]. rewrite (bind_run _ _ _ _ _ E).
  destruct K3 as [(-> & K3 & K4)|[-> K3]].
  2:{ simpl. exists STATUS_INSUFFICIENT_RESOURCES, σ1, hi1, k. split_and!; [done..|by right]. }
  cbn [NT_SUCCESS]. replace (negb (NT_SUCCESS STATUS_SUCCESS)) with false by done.
  destruct (extends_other _ _ _ _ _ _ _ _ K2 HR Hs) as [HR2 Hs2].
  destruct (range_list_at _ _ _ _ _ _ _ HR2) as (_ & _ & Hfl2 & _). mrun @get_flink_run.
  destruct (IH σ1 hi1 k (l1 ++ [(b, r)]) l2 (Some r)) as (st & σ2 & hi2 & k2 & E2 & M1 & M2 & M3);
    [done|by rewrite <- app_assoc|by rewrite <- app_assoc|simpl in Hf; lia|done|lia|].
  exists st, σ2, hi2, k2. split_and!; [exact E2|done|exact (extends_trans _ _ _ _ _ _ _ _ K1 K2 M2)|].
  destruct M3 as [[-> ->]|?]; [left|by right]. split; [done|]. unfold add_gaps.
  by rewrite foldl_app, K3.
Qed.

(** *** Merging *)

(** The range that [RtlMergeRangeLists] adds for [r]. *)
Definition merge_range (F : Z) (r : RTL_RANGE) : RTL_RANGE :=
  new_range (Start r) (End_ r) (Attributes r) (Z.lor (Flags r) F) (UserData r) (Owner r).

Definition merge_ranges (F : Z) (l l2 : list RTL_RANGE) : list RTL_RANGE :=
  foldl (fun l r => add_range (merge_range F r) l) l l2.

Lemma MergeLoop_run fuel σ m hm lm g hg l1 a r l2 F :
  range_list σ m hm lm -> range_list σ g hg (l1 ++ (a, r) :: l2) ->
  separate m lm g (l1 ++ (a, r) :: l2) -> (length l2 < fuel)%nat ->
  Forall (fun r => Start r <= End_ r) (r :: l2.*2) ->
  Z.of_nat (length lm + S (length l2)) <= 2 ^ 32 ->
  exists st σ' hm' k,
    MergeLoop fuel m F (mkIterator g None (Some a) (Stamp hg)) a σ = Some (st, σ') /\
    range_list σ' m hm' k /\ extends σ σ' m lm k /\
    (st = STATUS_NO_MORE_ENTRIES /\ k.*2 = merge_ranges F lm.*2 (r :: l2.*2) \/
     st = STATUS_INSUFFICIENT_RESOURCES /\ exists σ1, allocate σ1 = None).
Proof.
  revert σ hm lm l1 a r l2.
  induction fuel as [|fuel IH]; intros σ hm lm l1 a r l2 HM HR Hs Hf Hv Hl; [lia|].
  cbn [MergeLoop]. destruct (range_list_at _ _ _ _ _ _ _ HR) as (Hb & Hr & _ & _).
  mrun @get_range_run. apply Forall_cons in Hv as [Hv1 Hv2].
  destruct (add_step σ m hm lm (Start r) (End_ r) (Attributes r) (Z.lor (Flags r) F)
    (UserData r) (Owner r)) as (st & σ1 & hm1 & k & E & K1 & K2 & K3); [done|lia|done|].
  rewrite (bind_run _ _ _ _ _ E). destruct K3 as [(-> & K3 & K4)|[-> K3]].
  2:{ simpl. exists STATUS_INSUFFICIENT_RESOURCES, σ1, hm1, k. split_and!; [done..|by right]. }
  replace (negb (NT_SUCCESS STATUS_SUCCESS)) with false by done.
  destruct (extends_other _ _ _ _ _ _ _ _ K2 HR Hs) as [HR2 Hs2].
  rewrite (bind_run _ _ _ _ _ (RtlGetNextRange_run _ _ _ _ _ _ _ (Stamp hg) true HR2)).
  rewrite Z.eqb_refl. destruct l2 as [|[b c] l2]; cbn [fmap list_fmap head fst next_result].
  - exists STATUS_NO_MORE_ENTRIES, σ1, hm1, k. split_and!; [done|done|done|]. left. done.
  - replace (NT_SUCCESS STATUS_SUCCESS) with true by done.
    destruct (IH σ1 hm1 k (l1 ++ [(a, r)]) b c l2) as (st & σ2 & hm2 & k2 & E2 & M1 & M2 & M3);
      [done|by rewrite <- app_assoc|by rewrite <- app_assoc|simpl in Hf; lia|done|simpl in *; lia|].
    exists st, σ2, hm2, k2.
    split_and!; [exact E2|done|exact (extends_trans _ _ _ _ _ _ _ _ K1 K2 M2)|].
    destruct M3 as [[-> ->]|?]; [left|by right]. split; [done|]. rewrite K3. done.
Qed.


End Operations.
