(* ===== verification/RangeListProps.v ===== *)
(** * Range lists: order, coverage and the properties of the operations

    A range list is in order when its ranges are valid and each ends before the next one
    starts.  The properties say that the operations of [src/sdk/lib/rtl/rangelist.c] keep
    that order and what they do to the set of covered addresses, and record the inputs on
    which the code departs from what it is for. *)

From Stdlib Require Import ZArith Lia Bool Sorted.
From stdpp Require Import base option list numbers gmap fin_maps.
From S2P Require Import Prelude ListEntry RangeList RangeListSpec.

Open Scope Z_scope.

(** ** Ranges and coverage *)

Definition valid (r : RTL_RANGE) : Prop := Start r <= End_ r.

Definition before (r s : RTL_RANGE) : Prop := End_ r < Start s.

Definition disjoint_ranges (r s : RTL_RANGE) : Prop := before r s \/ before s r.

(** Valid ranges, each before all later ones. *)
Record in_order (l : list RTL_RANGE) : Prop := {
  io_valid : Forall valid l;
  io_sorted : StronglySorted before l
}.

(** The addresses of the ranges of [l]. *)
Definition covers (l : list RTL_RANGE) (x : Z) : Prop :=
  exists r, r ∈ l /\ Start r <= x <= End_ r.

(** The range [[m, m + Len - 1]] is aligned, inside [[Min, Max]] and free. *)
Definition fits (l : list RTL_RANGE) (Min Max Len Al m : Z) : Prop :=
  Min <= m /\ (Al | m) /\ m + (Len - 1) <= Max /\
  forall r, r ∈ l -> m + (Len - 1) < Start r \/ End_ r < m.

(** An allocator that never fails, and one that always does. *)
Program Definition bump : Allocator := {|
  allocate σ := Some (fresh (dom (entries σ) ∪ dom (ranges σ) ∪ dom (lists σ)));
  uninitialized := (mkEntry 0 0, mkRange 0 0 0 0 0 0) |}.
Next Obligation.
  intros σ a [= <-]. pose proof (is_fresh (dom (entries σ) ∪ dom (ranges σ) ∪ dom (lists σ))).
  rewrite <- !not_elem_of_dom. set_solver.
Qed.

Program Definition exhausted : Allocator := {|
  allocate σ := None;
  uninitialized := (mkEntry 0 0, mkRange 0 0 0 0 0 0) |}.
Next Obligation. done. Qed.

(** ** Order *)

Lemma Forall_elem {A} (P : A -> Prop) l : Forall P l <-> forall x, x ∈ l -> P x.
Proof. rewrite Forall_forall. by setoid_rewrite list_elem_of_In. Qed.

Lemma add_range_elem r l x : x ∈ add_range r l <-> x = r \/ x ∈ l.
Proof.
  induction l as [|c l IH]; simpl.
  - rewrite list_elem_of_singleton, elem_of_nil. tauto.
  - case_match; rewrite !elem_of_cons; [tauto|]. rewrite IH. tauto.
Qed.

Lemma add_range_split r l :
  exists l1 l2, l = l1 ++ l2 /\ add_range r l = l1 ++ r :: l2 /\
    Forall (fun c => Start c <= End_ r) l1 /\ (forall c, head l2 = Some c -> before r c).
Proof.
  induction l as [|c l IH]; simpl; [by exists [], []|].
  destruct (Z.ltb_spec (End_ r) (Start c)).
  - exists [], (c :: l). split_and!; [done|done|done|]. by intros ? [= <-].
  - destruct IH as (l1 & l2 & -> & -> & H1 & H2). exists (c :: l1), l2.
    split_and!; [done|done|by constructor|done].
Qed.

Lemma covers_add r l x : covers (add_range r l) x <-> Start r <= x <= End_ r \/ covers l x.
Proof.
  unfold covers. setoid_rewrite add_range_elem. split.
  - intros (s & [->|Hs] & Hx); eauto.
  - intros [Hx|(s & Hs & Hx)]; eauto.
Qed.

Lemma in_order_app l1 l2 :
  in_order (l1 ++ l2) <-> in_order l1 /\ in_order l2 /\ forall x y, x ∈ l1 -> y ∈ l2 -> before x y.
Proof.
  induction l1 as [|c l1 IH]; simpl.
  - split; [|tauto]. intros H. split_and!; [split; constructor|done|].
    intros x y Hx. by apply not_elem_of_nil in Hx.
  - split.
    + intros [[Hc H1]%Forall_cons H2]. inversion_clear H2 as [|? ? H3 H4].
      apply Forall_app in H4 as [H4 H5].
      destruct (proj1 IH (Build_in_order _ H1 H3)) as ([A1 A2] & B & C).
      split_and!; [split; by constructor|done|].
      intros x y [->|Hx]%elem_of_cons Hy; [|by apply C]. rewrite Forall_elem in H5. by apply H5.
    + intros ([[Hc H1]%Forall_cons H2] & H4 & H5). inversion_clear H2 as [|? ? H6 H7].
      destruct (proj2 IH) as [I1 I2].
      { split_and!; [done|done|]. intros x y Hx. apply H5. by apply list_elem_of_further. }
      split; [by constructor|]. constructor; [done|]. apply Forall_app; split; [done|].
      apply Forall_elem. intros y Hy. apply H5; [apply list_elem_of_here|done].
Qed.

Lemma in_order_cons r l :
  in_order (r :: l) <-> valid r /\ in_order l /\ forall y, y ∈ l -> before r y.
Proof.
  rewrite (in_order_app [r] l). split.
  - intros ([Hv _] & H & Hb). rewrite Forall_singleton in Hv. split_and!; [done|done|].
    intros y. apply Hb, list_elem_of_here.
  - intros (Hv & H & Hb). split_and!; [|done|].
    + split; [by apply Forall_singleton|by repeat constructor].
    + intros x y ->%list_elem_of_singleton. apply Hb.
Qed.

Lemma add_range_in_order r l :
  in_order l -> valid r -> (forall c, c ∈ l -> disjoint_ranges r c) -> in_order (add_range r l).
Proof.
  intros Ho Hv Hd. destruct (add_range_split r l) as (l1 & l2 & -> & -> & H1 & H2).
  apply in_order_app in Ho as (O1 & O2 & O3).
  assert (forall c, c ∈ l1 -> before c r) as B1.
  { intros c Hc. rewrite Forall_elem in H1. specialize (H1 c Hc).
    destruct (Hd c) as [Hb|Hb]; [set_solver| |done]. unfold before in Hb. simpl in H1. lia. }
  assert (forall c, c ∈ l2 -> before r c) as B2.
  { destruct l2 as [|d l2]; [set_solver|]. specialize (H2 d eq_refl).
    intros c [->|Hc]%elem_of_cons; [done|]. apply in_order_cons in O2 as (V & _ & O2).
    specialize (O2 c Hc). unfold before, valid in *. lia. }
  apply in_order_app. split_and!; [done| |].
  - apply in_order_cons. auto.
  - intros x y Hx [->|Hy]%elem_of_cons; auto.
Qed.

(** A range behind all others is added at the end. *)
Lemma add_range_snoc r l :
  valid r -> Forall valid l -> (forall c, c ∈ l -> before c r) -> add_range r l = l ++ [r].
Proof.
  intros Hv Hl Hb. destruct (add_range_split r l) as (l1 & l2 & E & -> & _ & H2).
  destruct l2 as [|c l2]; [by rewrite E, app_nil_r|]. exfalso.
  specialize (H2 c eq_refl). specialize (Hb c ltac:(subst; set_solver)).
  rewrite E in Hl. apply Forall_app in Hl as [_ Hl]. inversion_clear Hl.
  unfold before, valid in *. lia.
Qed.

Lemma StronglySorted_snoc {A} (R : A -> A -> Prop) l x :
  StronglySorted R l -> Forall (fun y => R y x) l -> StronglySorted R (l ++ [x]).
Proof.
  induction 1 as [|y l Hl IH Hy]; intros Hf; simpl; [by repeat constructor|].
  inversion_clear Hf. constructor; [by apply IH|]. apply Forall_app. split; [done|].
  by apply Forall_singleton.
Qed.

Lemma StronglySorted_reverse {A} (R : A -> A -> Prop) l :
  StronglySorted R l -> StronglySorted (fun a b => R b a) (reverse l).
Proof.
  induction 1 as [|y l Hl IH Hy]; [constructor|]. rewrite reverse_cons.
  apply StronglySorted_snoc; [done|]. by apply Forall_reverse.
Qed.

(** ** The search for a gap *)

Section Find.
Variables (Min Max Len k : Z).
Hypothesis Len_range : 0 < Len.
Hypothesis Max_range : Max < 2 ^ 32.
Hypothesis k_range : 0 <= k < 32.
Local Abbreviation Al := (2 ^ k).

(** The end of the gap below the range that starts at [next]. *)
Definition gap_end (next : option Z) : Z := match next with Some s => s - 1 | None => Max end.

Lemma GapCandidate_spec next :
  Len - 1 <= gap_end next <= Max -> 
  let m := Al * ((gap_end next - (Len - 1)) / Al) in
  GapCandidate next Min Max Len Al = if m <? Min then None else Some m.
Proof.
  intros HM m. unfold GapCandidate.
  replace (match next with Some s => u64 (s - 1) | None => Max end) with (gap_end next)
    by (destruct next; simpl in *; [rewrite u64_small|]; lia).
  set (M := gap_end next) in *. clearbody M.
  rewrite (u32_small (Len - 1)), !(u64_small (M + _)), (u64_small (M - (Len - 1))) by lia.
  rewrite ROUND_DOWN_spec by lia. fold m.
  assert (m <= M - (Len - 1)) by (apply Z.mul_div_le; lia).
  assert (0 <= m) by (apply Z.mul_nonneg_nonneg; [lia|apply Z.div_pos; lia]).
  rewrite u64_small by lia. zcases; try lia; done.
Qed.

Lemma aligned_le m x : (Al | m) -> m <= x -> m <= Al * (x / Al).
Proof.
  intros [q ->] H. rewrite Z.mul_comm. apply Z.mul_le_mono_nonneg_l; [lia|].
  apply Z.div_le_lower_bound; lia.
Qed.

Lemma find_gap_spec rl next :
  StronglySorted (fun a b => before b a) rl -> Forall valid rl ->
  (forall c, c ∈ rl -> Len <= Start c <= gap_end next + 1) -> Len - 1 <= gap_end next <= Max ->
  match find_gap rl next Min Max Len Al with
  | Some m => fits rl Min (gap_end next) Len Al m /\
              forall m', fits rl Min (gap_end next) Len Al m' -> m' <= m
  | None => forall m', ~ fits rl Min (gap_end next) Len Al m'
  end.
Proof.
  revert next. induction rl as [|c rl IH]; intros next Hs Hv Hb HM; cbn [find_gap];
    rewrite GapCandidate_spec by done; cbv zeta;
    set (m := Al * ((gap_end next - (Len - 1)) / Al));
    assert (m <= gap_end next - (Len - 1)) by (apply Z.mul_div_le; lia);
    assert (forall l m', fits l Min (gap_end next) Len Al m' -> m' <= m) as Hmax
      by (intros l m' (_ & Hd & Hm & _); apply aligned_le; [done|lia]);
    (destruct (Z.ltb_spec m Min);
      [intros m' Hf; pose proof (Hmax _ _ Hf); destruct Hf; lia|]).
  - split; [|apply Hmax]. split_and!; [done|apply Z.divide_factor_l|lia|set_solver].
  - inversion_clear Hs as [|? ? Hs1 Hs2]. apply Forall_cons in Hv as [Hv1 Hv2].
    destruct (Z.ltb_spec (End_ c) m).
    + split; [|apply Hmax]. split_and!; [done|apply Z.divide_factor_l|lia|].
      intros r [->|Hr]%elem_of_cons; [by right|]. right. rewrite Forall_elem in Hs2.
      specialize (Hs2 r Hr). unfold before, valid in *. lia.
    + pose proof (Hb c (list_elem_of_here _ _)) as Hc.
      assert (forall x, x ∈ rl -> Len <= Start x <= gap_end (Some (Start c)) + 1) as Hb'.
      { intros x Hx. pose proof (Hb x (list_elem_of_further _ _ _ Hx)).
        rewrite Forall_elem in Hs2, Hv2. specialize (Hs2 x Hx). specialize (Hv2 x Hx).
        unfold before, valid in *. simpl. lia. }
      specialize (IH (Some (Start c)) Hs1 Hv2 Hb' ltac:(simpl; lia)).
      assert (forall m', fits (c :: rl) Min (gap_end next) Len Al m' ->
                         fits rl Min (gap_end (Some (Start c))) Len Al m') as Hred.
      { intros m' Hf. pose proof (Hmax _ _ Hf). destruct Hf as (F1 & F2 & F3 & F4).
        split_and!; [done|done| |intros; apply F4; set_solver].
        destruct (F4 c) as [F5|F5]; [set_solver|simpl; lia|lia]. }
      destruct (find_gap rl (Some (Start c)) Min Max Len Al) as [m1|]; [|naive_solver].
      destruct IH as [(F1 & F2 & F3 & F4) IH2]. split; [|naive_solver].
      simpl in F3. split_and!; [done|done| |].
      * lia.
      * intros r [->|Hr]%elem_of_cons; [left; lia|by apply F4].
Qed.

End Find.

(** ** The gaps of a list *)

(** The first address behind [prev]. *)
Definition gap_start (prev : option RTL_RANGE) : Z :=
  match prev with Some p => End_ p + 1 | None => 0 end.

Lemma gap_before_spec prev c :
  0 <= gap_start prev <= Start c -> Start c < 2 ^ 64 ->
  gap_before prev c = if gap_start prev <? Start c then [(gap_start prev, Start c - 1)] else [].
Proof.
  intros H1 H2. destruct prev as [p|]; simpl in *.
  - rewrite u64_small by lia. zcases; simpl; try lia; [|done]. by rewrite u64_small by lia.
  - zcases; simpl; try lia; [|done]. by rewrite u64_small by lia.
Qed.

Lemma covers_cons r l x : covers (r :: l) x <-> Start r <= x <= End_ r \/ covers l x.
Proof.
  unfold covers. setoid_rewrite elem_of_cons. split.
  - intros (s & [->|Hs] & Hx); eauto.
  - intros [Hx|(s & Hs & Hx)]; eauto.
Qed.

Lemma covers_app l1 l2 x : covers (l1 ++ l2) x <-> covers l1 x \/ covers l2 x.
Proof. unfold covers. setoid_rewrite elem_of_app. naive_solver. Qed.

Lemma covers_nil x : ~ covers [] x.
Proof. intros (r & Hr & _). by apply not_elem_of_nil in Hr. Qed.

(** The gaps of a list in order: valid, in order, and the complement of the list. *)
Definition complement_from (lo : Z) (l gs : list RTL_RANGE) : Prop :=
  in_order gs /\ (forall g, g ∈ gs -> lo <= Start g) /\
  forall x, lo <= x < 2 ^ 64 -> covers gs x <-> ~ covers l x.

Lemma complement_step lo c l gs :
  valid c -> lo <= Start c -> (forall r, r ∈ l -> before c r) ->
  complement_from (End_ c + 1) l gs ->
  complement_from lo (c :: l)
    ((if lo <? Start c then [gap_range (lo, Start c - 1)] else []) ++ gs).
Proof.
  intros Hv Hlo Hc (G1 & G2 & G3). unfold valid in Hv.
  assert (forall x, x <= End_ c -> ~ covers gs x) as Gc.
  { intros x Hx (g & Hg & Hgx). specialize (G2 g Hg). lia. }
  assert (forall x, x <= End_ c -> ~ covers l x) as Lc.
  { intros x Hx (r & Hr & Hrx). specialize (Hc r Hr). unfold before in Hc. lia. }
  split_and!.
  - apply in_order_app. split_and!; [|done|].
    + destruct (Z.ltb_spec lo (Start c)); [|split; constructor]. apply in_order_cons.
      split_and!; [unfold valid; simpl; lia|split; constructor|set_solver].
    + intros x y Hx Hy. specialize (G2 y Hy). destruct (Z.ltb_spec lo (Start c)); [|set_solver].
      apply list_elem_of_singleton in Hx as ->. unfold before. simpl. lia.
  - intros g [Hg|Hg]%elem_of_app; [|specialize (G2 g Hg); lia].
    destruct (Z.ltb_spec lo (Start c)); [|set_solver].
    apply list_elem_of_singleton in Hg as ->. simpl. lia.
  - intros x Hx. rewrite covers_app, covers_cons.
    assert (covers (if lo <? Start c then [gap_range (lo, Start c - 1)] else []) x
            <-> lo <= x < Start c) as ->.
    { destruct (Z.ltb_spec lo (Start c)); [rewrite covers_cons; simpl|];
        pose proof (covers_nil x); naive_solver lia. }
    destruct (decide (x <= End_ c)); [specialize (Gc x); specialize (Lc x); naive_solver lia|].
    rewrite G3 by lia. naive_solver lia.
Qed.

Lemma gaps_spec prev l :
  in_order l -> (forall c, c ∈ l -> gap_start prev <= Start c /\ End_ c < 2 ^ 64 - 2) ->
  0 <= gap_start prev < 2 ^ 64 - 1 -> (prev = None -> l <> []) ->
  complement_from (gap_start prev) l (gap_range <$> gaps prev l).
Proof.
  revert prev. induction l as [|c l IH]; intros prev Ho Hb Hp Hn; cbn [gaps].
  - destruct prev as [p|]; [|by destruct Hn]. cbn [gap_after gap_start] in *.
    rewrite u64_small by lia. rewrite (proj2 (Z.eqb_neq _ _)) by lia. cbn [negb fmap list_fmap].
    split_and!.
    + apply in_order_cons. split_and!; [unfold valid; simpl; lia|split; constructor|set_solver].
    + intros g ->%list_elem_of_singleton. simpl. lia.
    + intros x Hx. rewrite covers_cons. pose proof (covers_nil x). simpl. split; [done|]. lia.
  - apply in_order_cons in Ho as (Hv & Ho & Hc).
    pose proof (Hb c (list_elem_of_here _ _)) as [Hc1 Hc2]. unfold valid in Hv.
    rewrite gap_before_spec, fmap_app by lia.
    replace (gap_range <$> (if gap_start prev <? Start c then _ else []))
      with (if gap_start prev <? Start c then [gap_range (gap_start prev, Start c - 1)] else [])
      by (by case_match).
    apply complement_step; [done|done|done|]. apply (IH (Some c)); [done| |simpl; lia|done].
    intros r Hr. specialize (Hc r Hr). unfold before in Hc. simpl.
    split; [lia|]. apply Hb. by apply list_elem_of_further.
Qed.

Lemma gaps_length prev l : (length (gaps prev l) <= S (length l))%nat.
Proof.
  revert prev. induction l as [|r l IH]; intros prev; simpl.
  - pose proof (gap_after_length prev). lia.
  - rewrite length_app. pose proof (gap_before_length prev r). specialize (IH (Some r)). lia.
Qed.

Lemma add_gaps_snoc l gs :
  in_order (l ++ (gap_range <$> gs)) -> add_gaps l gs = l ++ (gap_range <$> gs).
Proof.
  revert l. induction gs as [|g gs IH]; intros l Ho; simpl; [by rewrite app_nil_r|].
  assert (add_range (gap_range g) l = l ++ [gap_range g]) as E.
  { apply in_order_app in Ho as ([O1 _] & O2 & O3). apply in_order_cons in O2 as (O2 & _).
    apply add_range_snoc; [done|done|]. intros c Hc. apply O3; [done|apply list_elem_of_here]. }
  unfold add_gaps in *. simpl. rewrite E, IH; rewrite <- app_assoc; done.
Qed.

(** ** Several additions *)

Lemma merge_ranges_spec F l1 l2 :
  in_order l1 -> in_order l2 -> (forall r s, r ∈ l1 -> s ∈ l2 -> disjoint_ranges r s) ->
  in_order (merge_ranges F l1 l2) /\
  forall x, covers (merge_ranges F l1 l2) x <-> covers l1 x \/ covers l2 x.
Proof.
  revert l1. induction l2 as [|r l2 IH]; intros l1 H1 H2 Hd; simpl.
  { split; [done|]. intros x. pose proof (covers_nil x). tauto. }
  apply in_order_cons in H2 as (Hv & H2 & Hb).
  destruct (IH (add_range (merge_range F r) l1)) as [G1 G2]; [|done| |].
  - apply add_range_in_order; [done|done|]. intros c Hc.
    destruct (Hd c r Hc (list_elem_of_here _ _)); [by right|by left].
  - intros c s [->|Hc]%add_range_elem Hs; [left; by apply Hb|].
    apply Hd; [done|by apply list_elem_of_further].
  - split; [exact G1|]. intros x. unfold merge_ranges in *. simpl. rewrite G2, covers_add, covers_cons.
    simpl. tauto.
Qed.

(** ** Deletion, iteration and merging as a whole *)

Lemma RtlDeleteRange_run σ h hdr l S E O :
  range_list σ h hdr l ->
  (exists k1 a r k2 σ', l = k1 ++ (a, r) :: k2 /\
    Forall (fun x => matches S E O x.2 = false) k1 /\ matches S E O r = true /\
    RtlDeleteRange h S E O σ = Some (STATUS_SUCCESS, σ') /\
    range_list σ' h (count_down hdr) (k1 ++ k2) /\
    entries σ' !! a = None /\ ranges σ' !! a = None /\ preserves (h :: l.*1) σ σ') \/
  Forall (fun x => matches S E O x.2 = false) l /\
    RtlDeleteRange h S E O σ = Some (STATUS_RANGE_NOT_FOUND, σ).
Proof.
  intros HR. unfold RtlDeleteRange. pose proof (range_list_first _ _ _ _ HR).
  erewrite (bind_run (get_flink h)) by (by apply get_flink_run).
  erewrite (bind_run get_fuel) by apply get_fuel_run.
  apply (DeleteLoop_run _ _ _ []); [done|by eapply range_list_fuel].
Qed.

Lemma split_unique {A} (p : A -> bool) x u xs ys us vs :
  xs ++ x :: ys = us ++ u :: vs -> Forall (fun y => p y = false) xs ->
  Forall (fun y => p y = false) us -> p x = true -> p u = true -> xs ++ ys = us ++ vs.
Proof.
  revert us. induction xs as [|y xs IH]; intros [|z us] E Hx Hu Px Pu; simplify_eq/=.
  - done.
  - inversion_clear Hu. congruence.
  - inversion_clear Hx. congruence.
  - inversion_clear Hx. inversion_clear Hu. f_equal. by eapply IH.
Qed.

(** The caller's loop: follow the iterator until there are no more entries. *)
Fixpoint walk (fuel : nat) (it : RTL_RANGE_LIST_ITERATOR) (fwd : bool) : M (list Z) :=
  match fuel with
  | O => out_of_fuel
  | S fuel' =>
      '(Status, it, Range) ← RtlGetNextRange it fwd;
      match NT_SUCCESS Status, Range with
      | true, Some a => rest ← walk fuel' it fwd; mret (a :: rest)
      | _, _ => mret []
      end
  end.

Lemma walk_forward_run fuel σ h hdr l1 a r l2 :
  range_list σ h hdr (l1 ++ (a, r) :: l2) -> (length l2 < fuel)%nat ->
  walk fuel (mkIterator h None (Some a) (Stamp hdr)) true σ = Some (l2.*1, σ).
Proof.
  revert l1 a r l2. induction fuel as [|fuel IH]; intros l1 a r l2 HR Hf; [lia|]. cbn [walk].
  rewrite (bind_run _ _ _ _ _ (RtlGetNextRange_run _ _ _ _ _ _ _ (Stamp hdr) true HR)).
  rewrite Z.eqb_refl. destruct l2 as [|[b c] l2]; simpl; [done|].
  erewrite bind_run; [done|]. apply (IH (l1 ++ [(a, r)]) b c l2).
  - by rewrite <- app_assoc.
  - simpl in Hf. lia.
Qed.

Lemma RtlMergeRangeLists_run `{Allocator} σ m hm lm f hf lf g hg lg F :
  range_list σ m hm lm -> range_list σ f hf lf -> range_list σ g hg lg ->
  separate m lm f lf -> separate m lm g lg ->
  Forall valid lg.*2 -> Z.of_nat (length lm + length lf + length lg) <= 2 ^ 32 ->
  exists st σ' hm' k, RtlMergeRangeLists m f g F σ = Some (st, σ') /\
    range_list σ' m hm' k /\ extends σ σ' m lm k /\
    (st = STATUS_SUCCESS /\ k.*2 = merge_ranges F (lm.*2 ++ lf.*2) lg.*2 \/
     st = STATUS_INSUFFICIENT_RESOURCES /\ exists σ1, allocate σ1 = None).
Proof.
  intros HM HF HG S1 S2 Hv Hl. unfold RtlMergeRangeLists.
  destruct (RtlCopyRangeList_run σ m hm lm f hf lf HM HF S1)
    as (st & σ1 & h1 & k1 & n & E1 & K1 & K2 & _ & K4 & K5).
  rewrite (bind_run _ _ _ _ _ E1). destruct K5 as [(-> & -> & _)|(-> & _ & K5)].
  2:{ exists STATUS_INSUFFICIENT_RESOURCES, σ1, h1, k1. split_and!; [done..|]. right. auto. }
  replace (negb (NT_SUCCESS STATUS_SUCCESS)) with false by done.
  destruct (extends_other _ _ _ _ _ _ _ _ K2 HG S2) as [HG1 S3].
  rewrite <- (length_fmap snd lf), take_ge in K4 by done.
  rewrite (bind_run _ _ _ _ _ (RtlGetFirstRange_run _ _ _ _ HG1)).
  destruct lg as [|[a r] lg]; cbn [NT_SUCCESS].
  { exists STATUS_SUCCESS, σ1, h1, k1. split_and!; [done|done|done|]. left. done. }
  replace (NT_SUCCESS STATUS_SUCCESS) with true by done.
  erewrite (bind_run get_fuel) by apply get_fuel_run.
  assert (length k1 = (length lm + length lf)%nat) as Lk.
  { rewrite <- (length_fmap snd k1), K4, length_app, !length_fmap. done. }
  destruct (MergeLoop_run (fuel_of σ1) σ1 m h1 k1 g hg [] a r lg F K1 HG1 S3)
    as (st & σ2 & h2 & k2 & E2 & M1 & M2 & M3);
    [apply range_list_fuel in HG1; simpl in HG1; lia|done|simpl in Hl; lia|].
  rewrite (bind_run _ _ _ _ _ E2).
  eexists _, σ2, h2, k2.
  split_and!; [reflexivity|done|exact (extends_trans _ _ _ _ _ _ _ _ K1 K2 M2)|].
  destruct M3 as [[-> M3]|[-> M3]]; [left|right; auto]. split; [done|]. by rewrite M3, K4.
Qed.

Lemma DeleteOwnersLoop_run fuel σ h hdr l1 l2 O :
  range_list σ h hdr (l1 ++ l2) -> (length l2 < fuel)%nat ->
  DeleteOwnersLoop fuel h O (next_of l2.*1 h) σ
  = if existsb (fun r => Owner r =? O) l2.*2 then None else Some (STATUS_SUCCESS, σ).
Proof.
  revert l1 l2. induction fuel as [|fuel IH]; intros l1 l2 HR Hf; [lia|].
  destruct l2 as [|[b c] l2]; cbn [DeleteOwnersLoop next_of fmap list_fmap fst snd existsb].
  { by rewrite Z.eqb_refl. }
  destruct (range_list_at _ _ _ _ _ _ _ HR) as (Hb & Hr & Hfl & _).
  destruct (Z.eqb_spec b h); [done|]. cbn [negb].
  rewrite (bind_run _ _ _ _ _ (get_range_run _ _ _ Hr)). destruct (Owner c =? O).
  - destruct (remove_run σ h hdr l1 b c l2 (mret tt) HR) as (σ' & E & _ & Hn & _).
    assert ((on_links (fun m => RemoveEntryList m b);; RtlpFreeMemory b;; CountDown h) σ
            = Some (tt, σ')) as E'.
    { revert E. unfold mbind, M_bind, mret, M_ret. repeat (case_match; simplify_eq/=; try done).
      by destruct u. }
    rewrite (bind_run _ _ _ _ _ E'). unfold mbind, M_bind, get_flink, reads, flink.
    by rewrite Hn.
  - cbn [orb]. rewrite (bind_run _ _ σ tt σ) by done.
    rewrite (bind_run _ _ _ _ _ (get_flink_run _ _ _ Hfl)).
    apply (IH (l1 ++ [(b, c)])); [by rewrite <- app_assoc|simpl in Hf; lia].
Qed.

(** ** A heap with three lists *)

Definition sample_range (s e owner flags : Z) : RTL_RANGE := mkRange s e 0 owner 0 flags.

(** The list at 100 has two ranges, the one at 500 none, the one at 600 a shared range. *)
Definition sample : heap :=
  mkHeap
    (list_to_map [(100, mkEntry 200 300); (200, mkEntry 300 100); (300, mkEntry 100 200);
                  (500, mkEntry 500 500); (600, mkEntry 700 700); (700, mkEntry 600 600)])
    (list_to_map [(200, sample_range 0x100 0x1FF 1 0); (300, sample_range 0x400 0x4FF 2 0);
                  (700, sample_range 0x800 (2 ^ 64 - 1) 3 RTL_RANGE_SHARED)])
    (list_to_map [(100, mkRangeList 0 2 7); (500, mkRangeList 0 0 0); (600, mkRangeList 0 1 1)]).

Definition sample_l : list (Z * RTL_RANGE) :=
  [(200, sample_range 0x100 0x1FF 1 0); (300, sample_range 0x400 0x4FF 2 0)].

Ltac sample_tac :=
  split; [split; [refine (bool_decide_eq_true_1 _ _); vm_compute; reflexivity
                 |repeat (split; [split; vm_compute; reflexivity|]); split; vm_compute; reflexivity]
         |intros a r; unfold sample_l; rewrite ?elem_of_cons, ?elem_of_nil; intros; destruct_or?; simplify_eq;
          try done; vm_compute; reflexivity
         |vm_compute; reflexivity|vm_compute; reflexivity].

Lemma sample_list : range_list sample 100 (mkRangeList 0 2 7) sample_l.
Proof. sample_tac. Qed.

Lemma sample_empty : range_list sample 500 (mkRangeList 0 0 0) [].
Proof. sample_tac. Qed.

Lemma sample_other :
  range_list sample 600 (mkRangeList 0 1 1) [(700, sample_range 0x800 (2 ^ 64 - 1) 3 RTL_RANGE_SHARED)].
Proof. sample_tac. Qed.

Lemma sample_in_order : in_order sample_l.*2.
Proof. split; repeat constructor; unfold valid, before; simpl; lia. Qed.

(** ** Properties *)

(** C31: [RtlAddRange] on a list in order and a range disjoint from those of the list: a
    range that ends before it starts is [STATUS_INVALID_PARAMETER], a failed allocation
    [STATUS_INSUFFICIENT_RESOURCES], both with the heap unchanged; otherwise the list has
    the new range besides the old ones, is still in order, its count and its stamp go up
    and no allocated memory outside of the list changes. *)
Theorem add_range_keeps_order `{Allocator} σ h hdr l S E At Fl U O :
  range_list σ h hdr l -> Z.of_nat (length l) < 2 ^ 32 -> in_order l.*2 ->
  (forall r, r ∈ l.*2 -> E < Start r \/ End_ r < S) ->
  (E < S -> RtlAddRange h S E At Fl U O σ = Some (STATUS_INVALID_PARAMETER, σ)) /\
  (S <= E ->
   match allocate σ with
   | None => RtlAddRange h S E At Fl U O σ = Some (STATUS_INSUFFICIENT_RESOURCES, σ)
   | Some _ => exists σ' k, RtlAddRange h S E At Fl U O σ = Some (STATUS_SUCCESS, σ') /\
       range_list σ' h (count_up hdr) k /\ k.*2 ≡ₚ new_range S E At Fl U O :: l.*2 /\
       in_order k.*2 /\ preserves (h :: l.*1) σ σ'
   end).
Proof.
  intros HR Hl Ho Hd. split; intros HSE.
  - unfold RtlAddRange. by rewrite (proj2 (Z.ltb_lt _ _)).
  - pose proof (RtlAddRange_run σ h hdr l S E At Fl U O HR Hl HSE) as Ha.
    destruct (allocate σ); [|done]. destruct Ha as (σ' & k & E1 & K1 & K2 & K3).
    exists σ', k. split_and!; [done|done| | |apply K3]; rewrite K2.
    + destruct (add_range_split (new_range S E At Fl U O) l.*2) as (l1 & l2 & -> & -> & _).
      by rewrite Permutation_middle.
    + by apply add_range_in_order.
Qed.

(** [RtlDeleteRange] removes and frees the first range with the given bounds and owner
    and lowers the count; without such a range it answers [STATUS_RANGE_NOT_FOUND] and
    changes nothing. *)
Theorem delete_range_first_match σ h hdr l S E O :
  range_list σ h hdr l ->
  (exists k1 a r k2 σ', l = k1 ++ (a, r) :: k2 /\
    Forall (fun x => matches S E O x.2 = false) k1 /\ matches S E O r = true /\
    RtlDeleteRange h S E O σ = Some (STATUS_SUCCESS, σ') /\
    range_list σ' h (count_down hdr) (k1 ++ k2) /\
    entries σ' !! a = None /\ ranges σ' !! a = None /\ preserves (h :: l.*1) σ σ') \/
  Forall (fun x => matches S E O x.2 = false) l /\
    RtlDeleteRange h S E O σ = Some (STATUS_RANGE_NOT_FOUND, σ).
Proof. apply RtlDeleteRange_run. Qed.

(** deleting a range that was just added restores the ranges of the list. *)
Theorem add_delete_roundtrip `{Allocator} σ h hdr l S E At Fl U O a :
  range_list σ h hdr l -> Z.of_nat (length l) < 2 ^ 32 -> S <= E -> allocate σ = Some a ->
  Forall (fun r => matches S E O r = false) l.*2 ->
  exists σ' k, (RtlAddRange h S E At Fl U O;; RtlDeleteRange h S E O) σ
                 = Some (STATUS_SUCCESS, σ') /\
    range_list σ' h (count_down (count_up hdr)) k /\ k.*2 = l.*2.
Proof.
  intros HR Hl HSE Ha Hm. pose proof (RtlAddRange_run σ h hdr l S E At Fl U O HR Hl HSE) as Hadd.
  rewrite Ha in Hadd. destruct Hadd as (σ1 & k & E1 & K1 & K2 & _).
  rewrite (bind_run _ _ _ _ _ E1). set (r := new_range S E At Fl U O) in *.
  assert (matches S E O r = true) as Hr by (unfold matches; simpl; by rewrite !Z.eqb_refl).
  destruct (add_range_split r l.*2) as (l1 & l2 & El & Ea & _).
  rewrite El in Hm. apply Forall_app in Hm as [Hm1 Hm2]. rewrite Ea in K2.
  destruct (RtlDeleteRange_run σ1 h _ k S E O K1)
    as [(k1 & b & s & k2 & σ2 & -> & M1 & M2 & M3 & M4 & _)|[M1 _]].
  - exists σ2, (k1 ++ k2). split_and!; [done|done|]. rewrite El, fmap_app.
    rewrite fmap_app, fmap_cons in K2. 
    eapply (split_unique (matches S E O)); [exact K2|by apply Forall_fmap|done|done|done].
  - exfalso.
    assert (Forall (fun r => matches S E O r = false) (k.*2)) as M2 by (by apply Forall_fmap).
    rewrite K2 in M2. apply Forall_app in M2 as [_ M2]. inversion_clear M2. congruence.
Qed.

(** [RtlFreeRangeList] frees every record, leaves an empty list with no flags and its
    stamp, and no other allocated memory changes. *)
Theorem free_range_list_frees_all σ h hdr l :
  range_list σ h hdr l ->
  exists σ', RtlFreeRangeList h σ = Some (tt, σ') /\
    range_list σ' h (mkRangeList 0 0 (Stamp hdr)) [] /\
    (forall p, p ∈ l.*1 -> entries σ' !! p = None /\ ranges σ' !! p = None) /\
    preserves (h :: l.*1) σ σ'.
Proof.
  intros HR. unfold RtlFreeRangeList. erewrite (bind_run get_fuel) by apply get_fuel_run.
  pose proof (range_list_fuel _ _ _ _ HR) as Hf. destruct HR as [R1 R2 R3 R4].
  rewrite <- (length_fmap fst l) in Hf.
  destruct (FreeLoop_run _ σ h _ R1 Hf) as (σ1 & E & G1 & G2 & G3 & G4 & _).
  rewrite (bind_run _ _ _ _ _ E). rewrite <- G2 in R3.
  rewrite (bind_run _ _ _ _ _ (get_list_run _ _ _ R3)).
  rewrite (put_list_run _ _ _ _ R3). eexists; split; [done|]. split_and!.
  - split; simpl; [done|set_solver|by rewrite lookup_insert_eq|done].
  - exact G3.
  - intros p Hp Hs. destruct (G4 p Hp Hs) as (F1 & F2 & F3). simpl.
    rewrite lookup_insert_ne; [done|set_solver].
Qed.

(** C38: on a list in order whose ranges start at [Length] or above and at most one past
    [Maximum], with [Maximum] below 4 GB and a power of two as alignment, [RtlFindRange]
    returns the highest aligned block of [Length] addresses inside the bounds that meets
    no range of the list, and [STATUS_RANGE_NOT_FOUND] only when there is none. *)
Theorem find_range_highest σ h hdr l Min Max Len k :
  range_list σ h hdr l -> l <> [] -> in_order l.*2 ->
  0 < Len <= Max + 1 -> Max < 2 ^ 32 -> 0 <= k < 32 ->
  (forall r, r ∈ l.*2 -> Len <= Start r <= Max + 1) ->
  exists res, RtlFindRange h Min Max Len (2 ^ k) σ = Some (find_result res, σ) /\
    match res with
    | Some m => fits l.*2 Min Max Len (2 ^ k) m /\
                forall m', fits l.*2 Min Max Len (2 ^ k) m' -> m' <= m
    | None => forall m', ~ fits l.*2 Min Max Len (2 ^ k) m'
    end.
Proof.
  intros HR Hne [Hv Hs] HL HM Hk Hb. eexists. split; [apply (RtlFindRange_run _ _ hdr l); lia || done|].
  assert (forall m, fits (reverse l.*2) Min Max Len (2 ^ k) m <-> fits l.*2 Min Max Len (2 ^ k) m)
    as Hfits by (intros m; unfold fits; by setoid_rewrite elem_of_reverse).
  pose proof (find_gap_spec Min Max Len k ltac:(lia) HM Hk (reverse l.*2) None
    (StronglySorted_reverse _ _ Hs) (proj2 (Forall_reverse _ _) Hv)) as G.
  destruct (find_gap _ _ _ _ _ _) as [m|]; setoid_rewrite Hfits in G;
    (apply G; [intros c Hc; apply Hb; by apply elem_of_reverse|simpl; lia]).
Qed.

(** for a request that is not shared and does not end where a range of the list
    starts, [RtlIsRangeAvailable] without a callback answers whether the requested
    addresses meet no range of the list. *)
Theorem range_available_iff_disjoint σ h hdr l S E F :
  range_list σ h hdr l -> Forall valid l.*2 -> S <= E -> Z.land F RTL_RANGE_SHARED = 0 ->
  (forall r, r ∈ l.*2 -> Start r <> E) ->
  RtlIsRangeAvailable h S E F None σ
  = Some ((STATUS_SUCCESS, bool_decide (Forall (fun r => E < Start r \/ End_ r < S) l.*2)), σ).
Proof.
  intros HR Hv HSE HF Hne. rewrite (RtlIsRangeAvailable_run _ _ _ _ _ _ _ _ HR). do 3 f_equal.
  assert (forall r, r ∈ l.*2 -> forall av, available S E F None av r
            = av && bool_decide (E < Start r \/ End_ r < S)) as Hstep.
  { intros r Hr av. rewrite Forall_elem in Hv. specialize (Hv r Hr). specialize (Hne r Hr).
    unfold available, RangeConflicts, valid in *. rewrite HF. simpl.
    case_bool_decide; zcases; simpl; try lia; by destruct av. }
  assert (forall rs av, (forall r, r ∈ rs -> r ∈ l.*2) -> foldl (available S E F None) av rs
            = av && bool_decide (Forall (fun r => E < Start r \/ End_ r < S) rs)) as Hfold.
  { induction rs as [|r rs IH]; intros av Hin; simpl.
    - by rewrite andb_true_r.
    - rewrite IH, Hstep by set_solver. rewrite <- andb_assoc. f_equal.
      rewrite <- bool_decide_and. apply bool_decide_ext. by rewrite Forall_cons. }
  by rewrite Hfold.
Qed.

(** [RtlGetFirstRange] and then [RtlGetNextRange] until there are no more entries
    visit each range once, in list order; an iterator taken before the list changed its
    stamp is refused with [STATUS_INVALID_PARAMETER]. *)
Theorem iterator_visits_all σ h hdr a r l :
  range_list σ h hdr ((a, r) :: l) ->
  exists it, RtlGetFirstRange h σ = Some ((STATUS_SUCCESS, it, Some a), σ) /\
    walk (fuel_of σ) it true σ = Some (l.*1, σ) /\
    forall stamp fwd, stamp <> Stamp hdr ->
      let old := mkIterator h None (Some a) stamp in
      RtlGetNextRange old fwd σ = Some ((STATUS_INVALID_PARAMETER, old, None), σ).
Proof.
  intros HR. rewrite (RtlGetFirstRange_run _ _ _ _ HR). eexists. split; [done|]. split.
  - eapply (walk_forward_run _ _ _ _ []); [done|]. apply range_list_fuel in HR. simpl in HR. lia.
  - intros stamp fwd Hn old. subst old.
    rewrite (RtlGetNextRange_run _ _ _ [] _ _ _ stamp fwd HR).
    by rewrite (proj2 (Z.eqb_neq _ _)).
Qed.

(** [RtlCopyRangeList] appends a copy of every range of the source to the
    destination, in order and in new records, and takes over the flags; when an allocation
    fails it stops with [STATUS_INSUFFICIENT_RESOURCES] after a prefix.  The source is
    unchanged. *)
Theorem copy_range_list_appends `{Allocator} σ c hc lc h hdr l :
  range_list σ c hc lc -> range_list σ h hdr l -> separate c lc h l ->
  exists st σ' hc' k n, RtlCopyRangeList c h σ = Some (st, σ') /\
    range_list σ' c hc' k /\ ListFlags hc' = ListFlags hdr /\ k.*2 = lc.*2 ++ take n l.*2 /\
    range_list σ' h hdr l /\ separate c k h l /\
    (st = STATUS_SUCCESS /\ n = length l /\ Stamp hc' = u32 (Stamp hc + 1) \/
     st = STATUS_INSUFFICIENT_RESOURCES /\ (n < length l)%nat /\ exists σ1, allocate σ1 = None).
Proof.
  intros HC HR Hs. destruct (RtlCopyRangeList_run σ c hc lc h hdr l HC HR Hs)
    as (st & σ' & hc' & k & n & E & K1 & K2 & K3 & K4 & K5).
  destruct (extends_other _ _ _ _ _ _ _ _ K2 HR Hs). exists st, σ', hc', k, n. by split_and!.
Qed.

(** C35: with an allocator that does not fail, [RtlInvertRangeList] of a list in order, not
    empty and with its last address below [2^64 - 2], into an empty list, makes that list
    the ranges, in order, of exactly the addresses the source does not cover. *)
Theorem invert_range_list_complement `{Allocator} σ i hi h hdr l :
  range_list σ i hi [] -> range_list σ h hdr l -> separate i [] h l ->
  (forall σ1, is_Some (allocate σ1)) -> l <> [] -> in_order l.*2 ->
  (forall r, r ∈ l.*2 -> 0 <= Start r /\ End_ r < 2 ^ 64 - 2) -> Z.of_nat (length l) < 2 ^ 32 ->
  exists σ' hi' k, RtlInvertRangeList i h σ = Some (STATUS_SUCCESS, σ') /\
    range_list σ' i hi' k /\ range_list σ' h hdr l /\ in_order k.*2 /\
    forall x, 0 <= x < 2 ^ 64 -> covers k.*2 x <-> ~ covers l.*2 x.
Proof.
  intros HI HR Hs Hal Hne Ho Hb Hl. unfold RtlInvertRangeList.
  rewrite (bind_run _ _ _ _ _ (get_flink_run _ _ _ (range_list_first _ _ _ _ HR))).
  rewrite (bind_run _ _ _ _ _ (get_fuel_run σ)).
  destruct (gaps_spec None l.*2) as (G1 & G2 & G3); [done|exact Hb|simpl; lia|by destruct l|].
  pose proof (gaps_length None l.*2) as Hlen. rewrite length_fmap in Hlen.
  destruct (InvertLoop_run (fuel_of σ) σ i hi [] h hdr [] l None HI HR Hs)
    as (st & σ' & hi' & k & E & K1 & K2 & K3);
    [by eapply range_list_fuel|by apply (Forall_fmap gap_range valid), G1|simpl; lia|].
  destruct (extends_other _ _ _ _ _ _ _ _ K2 HR Hs) as [HR' _].
  destruct K3 as [[-> K3]|[_ [σ1 Hn]]]; [|destruct (Hal σ1); congruence].
  rewrite (add_gaps_snoc []) in K3 by done. simpl in K3.
  exists σ', hi', k. rewrite K3. by split_and!.
Qed.

(** with an allocator that does not fail, [RtlMergeRangeLists] into an empty list of
    two lists in order that share no address gives a list in order that covers exactly the
    addresses of both, and leaves both unchanged. *)
Theorem merge_range_lists_union `{Allocator} σ m hm f hf lf g hg lg F :
  range_list σ m hm [] -> range_list σ f hf lf -> range_list σ g hg lg ->
  separate m [] f lf -> separate m [] g lg -> (forall σ1, is_Some (allocate σ1)) ->
  in_order lf.*2 -> in_order lg.*2 ->
  (forall r s, r ∈ lf.*2 -> s ∈ lg.*2 -> disjoint_ranges r s) ->
  Z.of_nat (length lf + length lg) <= 2 ^ 32 ->
  exists σ' hm' k, RtlMergeRangeLists m f g F σ = Some (STATUS_SUCCESS, σ') /\
    range_list σ' m hm' k /\ range_list σ' f hf lf /\ range_list σ' g hg lg /\ in_order k.*2 /\
    forall x, covers k.*2 x <-> covers lf.*2 x \/ covers lg.*2 x.
Proof.
  intros HM HF HG S1 S2 Hal Of Og Hd Hl.
  destruct (RtlMergeRangeLists_run σ m hm [] f hf lf g hg lg F HM HF HG S1 S2 (io_valid _ Og))
    as (st & σ' & hm' & k & E & K1 & K2 & K3); [simpl; lia|].
  destruct (extends_other _ _ _ _ _ _ _ _ K2 HF S1) as [HF' _].
  destruct (extends_other _ _ _ _ _ _ _ _ K2 HG S2) as [HG' _].
  destruct K3 as [[-> K3]|[_ [σ1 Hn]]]; [|destruct (Hal σ1); congruence].
  destruct (merge_ranges_spec F lf.*2 lg.*2 Of Og Hd) as [M1 M2].
  exists σ', hm', k. rewrite K3. by split_and!.
Qed.

(** [RtlDeleteOwnersRanges] reads the forward link of a record it has just freed: as
    soon as a range of the list belongs to the owner, the call accesses freed memory; for
    another owner it succeeds and changes nothing. *)
Theorem delete_owners_use_after_free σ h hdr l O :
  range_list σ h hdr l ->
  RtlDeleteOwnersRanges h O σ
  = if existsb (fun r => Owner r =? O) l.*2 then None else Some (STATUS_SUCCESS, σ).
Proof.
  intros HR. unfold RtlDeleteOwnersRanges.
  rewrite (bind_run _ _ _ _ _ (get_flink_run _ _ _ (range_list_first _ _ _ _ HR))).
  rewrite (bind_run _ _ _ _ _ (get_fuel_run σ)).
  apply (DeleteOwnersLoop_run _ _ _ hdr []); [done|by eapply range_list_fuel].
Qed.

(** [RtlFindRange] does not clip the gaps to [Maximum]: when a range of the list
    starts above [Maximum], it can return a block above [Maximum]. *)
Theorem find_range_above_maximum :
  exists h Max Len m, RtlFindRange h 0 Max Len 1 sample
    = Some ((STATUS_SUCCESS, Some m), sample) /\ Max < m.
Proof. exists 100, 0x50, 0x10, 0x3F0. split; [vm_compute; reflexivity|lia]. Qed.

(** [RtlIsRangeAvailable] reports a request as available whose last address is the
    first one of a range of the list. *)
Theorem available_misses_last_address :
  exists h l r S E, range_list sample h (mkRangeList 0 2 7) l /\ r ∈ l.*2 /\
    Start r <= E <= End_ r /\
    RtlIsRangeAvailable h S E 0 None sample = Some ((STATUS_SUCCESS, true), sample).
Proof.
  exists 100, sample_l, (sample_range 0x400 0x4FF 2 0), 0x3F0, 0x400.
  split_and!; [apply sample_list|set_solver|simpl; lia..|vm_compute; reflexivity].
Qed.

(** two findings on the sample heap.  Inverting a list whose last range ends at
    [2^64 - 1] gives a list that also has a range over all addresses, the trailing test
    having wrapped.  Merging passes the flags of a range, [RTL_RANGE_SHARED], where the
    flags of an addition, [RTL_RANGE_LIST_ADD_SHARED], are expected, and so makes a
    shared range of the second list exclusive. *)
Theorem invert_wraps_and_merge_drops_shared :
  (exists σ' hi k, @RtlInvertRangeList bump 500 600 sample = Some (STATUS_SUCCESS, σ') /\
     range_list σ' 500 hi k /\ gap_range (0, 2 ^ 64 - 1) ∈ k.*2) /\
  (exists σ' hm k, @RtlMergeRangeLists bump 500 100 600 0 sample = Some (STATUS_SUCCESS, σ') /\
     range_list σ' 500 hm k /\ Forall (fun r => Flags r = 0) k.*2).
Proof.
  assert (forall h l, h <> 500 -> Forall (fun p => p.1 <> 500) l -> separate 500 [] h l) as Hsep.
  { intros h l Hh Hl p ->%list_elem_of_singleton [?|(x & Ex & Hx)%list_elem_of_fmap]%elem_of_cons;
      [done|]. rewrite Forall_elem in Hl. by apply (Hl x Hx). }
  pose proof sample_empty as H5. pose proof sample_list as H1. pose proof sample_other as H6.
  split.
  - set (r := sample_range 0x800 (2 ^ 64 - 1) 3 RTL_RANGE_SHARED) in *.
    destruct (@InvertLoop_run bump (fuel_of sample) _ _ _ _ _ _ [] _ None H5 H6)
      as (st & σ' & hi & k & E & K1 & _ & K3);
      [apply Hsep; [done|by repeat constructor]|apply (range_list_fuel _ _ _ _ H6)
      |repeat constructor; vm_compute; done|vm_compute; done|].
    destruct K3 as [[-> K3]|[_ [? [=]]]]. exists σ', hi, k. split_and!; [exact E|exact K1|].
    rewrite K3. vm_compute. do 2 constructor.
  - destruct (@RtlMergeRangeLists_run bump _ _ _ _ _ _ _ _ _ _ 0 H5 H1 H6)
      as (st & σ' & hm & k & E & K1 & _ & K3);
      [apply Hsep; [done|by repeat constructor]|apply Hsep; [done|by repeat constructor]
      |repeat constructor; vm_compute; done|vm_compute; done|].
    destruct K3 as [[-> K3]|[_ [? [=]]]]. exists σ', hm, k. split_and!; [exact E|exact K1|].
    rewrite K3. vm_compute. repeat constructor.
Qed.

(** ** Witnesses *)

Lemma sample_separate : separate 500 [] 100 sample_l.
Proof. intros p ->%list_elem_of_singleton. unfold sample_l. simpl. set_solver. Qed.

Lemma sample_disjoint r : r ∈ sample_l.*2 -> 0x2FF < Start r \/ End_ r < 0x200.
Proof.
  unfold sample_l. simpl. rewrite !elem_of_cons, elem_of_nil.
  intros [->|[->|[]]]; simpl; lia.
Qed.

Lemma sample_bounds r : r ∈ sample_l.*2 -> 0x10 <= Start r <= 0xFFFF + 1 /\ Start r <> 0x3FF.
Proof.
  unfold sample_l. simpl. rewrite !elem_of_cons, elem_of_nil.
  intros [->|[->|[]]]; simpl; lia.
Qed.

Lemma add_range_keeps_order_witness :
  exists σ' k, @RtlAddRange bump 100 0x200 0x2FF 0 0 0 5 sample = Some (STATUS_SUCCESS, σ') /\
    range_list σ' 100 (mkRangeList 0 3 8) k /\ in_order k.*2.
Proof.
  destruct (proj2 (@add_range_keeps_order bump sample 100 _ sample_l 0x200 0x2FF 0 0 0 5
    sample_list ltac:(vm_compute; reflexivity) sample_in_order sample_disjoint) ltac:(lia))
    as (σ' & k & E & K1 & _ & K3 & _).
  exists σ', k. split; [exact E|]. split; [exact K1|exact K3].
Defined.

Lemma delete_range_first_match_witness :
  RtlDeleteRange 100 0 1 2 sample = Some (STATUS_RANGE_NOT_FOUND, sample).
Proof.
  destruct (delete_range_first_match sample 100 _ sample_l 0 1 2 sample_list)
    as [(k1 & a & r & k2 & σ' & E & _ & M & _)|[_ E]]; [|exact E].
  destruct k1 as [|x [|y [|z k1]]]; simplify_eq; by vm_compute in M.
Defined.

Lemma add_delete_roundtrip_witness :
  exists σ' k, (@RtlAddRange bump 100 0x200 0x2FF 0 0 0 5;; RtlDeleteRange 100 0x200 0x2FF 5) sample
                 = Some (STATUS_SUCCESS, σ') /\
    range_list σ' 100 (mkRangeList 0 2 9) k /\ k.*2 = sample_l.*2.
Proof.
  eapply (@add_delete_roundtrip bump sample 100 (mkRangeList 0 2 7) sample_l 0x200 0x2FF 0 0 0 5); [apply sample_list|..].
  - vm_compute; reflexivity.
  - lia.
  - reflexivity.
  - repeat constructor.
Defined.

Lemma free_range_list_frees_all_witness :
  exists σ', RtlFreeRangeList 100 sample = Some (tt, σ') /\
    range_list σ' 100 (mkRangeList 0 0 7) [] /\ entries σ' !! 200 = None.
Proof.
  destruct (free_range_list_frees_all sample 100 _ sample_l sample_list) as (σ' & E & K1 & K2 & _).
  exists σ'. split; [exact E|]. split; [exact K1|]. apply K2. simpl. constructor.
Defined.

Lemma find_range_highest_witness :
  exists res, RtlFindRange 100 0x10 0xFFFF 0x10 (2 ^ 4) sample = Some (find_result res, sample) /\
    match res with
    | Some m => fits sample_l.*2 0x10 0xFFFF 0x10 (2 ^ 4) m /\
                forall m', fits sample_l.*2 0x10 0xFFFF 0x10 (2 ^ 4) m' -> m' <= m
    | None => forall m', ~ fits sample_l.*2 0x10 0xFFFF 0x10 (2 ^ 4) m'
    end.
Proof.
  apply (find_range_highest sample 100 _ sample_l 0x10 0xFFFF 0x10 4 sample_list).
  - done.
  - apply sample_in_order.
  - lia.
  - lia.
  - lia.
  - intros r Hr. by apply sample_bounds.
Defined.

Lemma range_available_iff_disjoint_witness :
  RtlIsRangeAvailable 100 0x200 0x3FF 0 None sample = Some ((STATUS_SUCCESS, true), sample).
Proof.
  rewrite (range_available_iff_disjoint sample 100 _ sample_l 0x200 0x3FF 0 sample_list).
  - vm_compute; reflexivity.
  - apply sample_in_order.
  - lia.
  - reflexivity.
  - intros r Hr. by apply sample_bounds.
Defined.

Lemma iterator_visits_all_witness :
  exists it, RtlGetFirstRange 100 sample = Some ((STATUS_SUCCESS, it, Some 200), sample) /\
    walk (fuel_of sample) it true sample = Some ([300], sample).
Proof.
  destruct (iterator_visits_all sample 100 _ _ _ _ sample_list) as (it & E & W & _).
  exists it. split; [exact E|exact W].
Defined.

Lemma copy_range_list_appends_witness :
  exists st σ' hc' k, @RtlCopyRangeList bump 500 100 sample = Some (st, σ') /\
    range_list σ' 500 hc' k /\ k.*2 = sample_l.*2.
Proof.
  destruct (@copy_range_list_appends bump sample 500 _ [] 100 _ sample_l
    sample_empty sample_list sample_separate)
    as (st & σ' & hc' & k & n & E & K1 & _ & K3 & _ & _ & [(_ & -> & _)|(_ & _ & [? [=]])]).
  exists st, σ', hc', k. split; [exact E|]. split; [exact K1|exact K3].
Defined.

Lemma invert_range_list_complement_witness :
  exists σ' hi' k, @RtlInvertRangeList bump 500 100 sample = Some (STATUS_SUCCESS, σ') /\
    range_list σ' 500 hi' k /\ covers k.*2 0x300.
Proof.
  destruct (@invert_range_list_complement bump sample 500 _ 100 _ sample_l
    sample_empty sample_list sample_separate) as (σ' & hi' & k & E & K1 & _ & _ & K2).
  - intros σ1. eexists. reflexivity.
  - done.
  - apply sample_in_order.
  - unfold sample_l. simpl. intros r. rewrite !elem_of_cons, elem_of_nil.
    intros [->|[->|[]]]; simpl; lia.
  - vm_compute; reflexivity.
  - exists σ', hi', k. split; [exact E|]. split; [exact K1|]. apply K2; [lia|].
    intros (r & Hr & Hx). revert Hr. unfold sample_l. simpl. rewrite !elem_of_cons, elem_of_nil.
    intros [->|[->|[]]]; simpl in Hx; lia.
Defined.

(** The heap after the initialisation of the list at 600. *)
Definition sample_reset : heap := mkHeap (<[600 := mkEntry 600 600]> (entries sample))
  (ranges sample) (<[600 := mkRangeList 0 0 0]> (lists sample)).

Lemma merge_range_lists_union_witness :
  exists σ' hm' k, @RtlMergeRangeLists bump 500 100 600 0 sample_reset = Some (STATUS_SUCCESS, σ') /\
    range_list σ' 500 hm' k /\ covers k.*2 0x100.
Proof.
  destruct (@merge_range_lists_union bump sample_reset 500 (mkRangeList 0 0 0) 100
    (mkRangeList 0 2 7) sample_l 600 (mkRangeList 0 0 0) [] 0)
    as (σ' & hm' & k & E & K1 & _ & _ & _ & K2).
  - sample_tac.
  - sample_tac.
  - sample_tac.
  - apply sample_separate.
  - intros p ->%list_elem_of_singleton. simpl. set_solver.
  - intros σ1. eexists. reflexivity.
  - apply sample_in_order.
  - split; constructor.
  - intros r s _ Hs. by apply not_elem_of_nil in Hs.
  - vm_compute. discriminate.
  - exists σ', hm', k. split; [exact E|]. split; [exact K1|]. apply K2. left.
    exists (sample_range 0x100 0x1FF 1 0). split; [apply list_elem_of_here|simpl; lia].
Defined.

Lemma delete_owners_use_after_free_witness : RtlDeleteOwnersRanges 100 1 sample = None.
Proof.
  rewrite (delete_owners_use_after_free sample 100 _ sample_l 1 sample_list). reflexivity.
Defined.
