(* ===== verification/Memory.v ===== *)
(** * Byte memory

    The memory that the packed structures of the security code live in: a finite map from
    addresses to bytes.  An access to an address that is not mapped faults ([None]).
    Multi-byte fields are little endian.  On i386 [memcpy] and [memmove] are one routine
    (sdk/lib/crt/mem/i386/memmove_asm.s), so [RtlCopyMemory] and [RtlMoveMemory] are the
    same function here. *)

From Stdlib Require Import ZArith Lia Bool.
From stdpp Require Import base option list numbers gmap.
From S2P Require Import Prelude.
Open Scope Z_scope.

Abbreviation mem := (gmap Z Z).

(** ** Bytes *)

(** The [n] low bytes of [v], and the value of a list of bytes. *)
Fixpoint enc (n : nat) (v : Z) : list Z :=
  match n with
  | O => []
  | S n' => u8 v :: enc n' (v / 2 ^ 8)
  end.

Fixpoint dec (bs : list Z) : Z :=
  match bs with
  | [] => 0
  | b :: bs' => b + 2 ^ 8 * dec bs'
  end.

(** ** Accesses *)

Fixpoint load (m : mem) (p : Z) (n : nat) : option (list Z) :=
  match n with
  | O => Some []
  | S n' => b ← m !! p; bs ← load m (p + 1) n'; Some (b :: bs)
  end.

Fixpoint store (m : mem) (p : Z) (bs : list Z) : option mem :=
  match bs with
  | [] => Some m
  | b :: bs' => _ ← m !! p; store (<[p := b]> m) (p + 1) bs'
  end.

Definition ld8 (m : mem) (p : Z) : option Z := dec <$> load m p 1.
Definition ld16 (m : mem) (p : Z) : option Z := dec <$> load m p 2.
Definition ld32 (m : mem) (p : Z) : option Z := dec <$> load m p 4.

Definition st8 (m : mem) (p v : Z) : option mem := store m p (enc 1 v).
Definition st16 (m : mem) (p v : Z) : option mem := store m p (enc 2 v).
Definition st32 (m : mem) (p v : Z) : option mem := store m p (enc 4 v).

Definition RtlMoveMemory (m : mem) (Destination Source Length : Z) : option mem :=
  bs ← load m Source (Z.to_nat Length); store m Destination bs.
Definition RtlCopyMemory := RtlMoveMemory.

Definition RtlZeroMemory (m : mem) (Destination Length : Z) : option mem :=
  store m Destination (replicate (Z.to_nat Length) 0).

Definition RtlEqualMemory (m : mem) (Destination Source Length : Z) : option bool :=
  a ← load m Destination (Z.to_nat Length);
  b ← load m Source (Z.to_nat Length);
  Some (bool_decide (a = b)).

(** ** Allocation *)

(** The allocator of the client: an address whose [n] bytes were not mapped. *)
Class ByteAllocator := {
  balloc : mem -> Z -> option Z;
  garbage : Z;
  balloc_fresh m n p q : balloc m n = Some p -> p <= q < p + n -> m !! q = None
}.

(** The memory with [n] new bytes at [p]. *)
Fixpoint map_bytes (n : nat) (p v : Z) (m : mem) : mem :=
  match n with
  | O => m
  | S n' => <[p := v]> (map_bytes n' (p + 1) v m)
  end.

(** The memory with the bytes [bs] at [p]. *)
Fixpoint lay (p : Z) (bs : list Z) (m : mem) : mem :=
  match bs with
  | [] => m
  | b :: bs' => <[p := b]> (lay (p + 1) bs' m)
  end.

(** Deallocation; the size is that of the allocation. *)
Fixpoint unmap_bytes (n : nat) (p : Z) (m : mem) : mem :=
  match n with
  | O => m
  | S n' => delete p (unmap_bytes n' (p + 1) m)
  end.

(** ** Contents *)

(** The bytes at [p] are [bs]. *)
Definition has (m : mem) (p : Z) (bs : list Z) : Prop := load m p (length bs) = Some bs.

(** [m'] differs from [m] at most in the [n] bytes at [p]. *)
Definition same_except (m m' : mem) (p n : Z) : Prop :=
  forall q, q < p \/ p + n <= q -> m' !! q = m !! q.

Definition is_byte (b : Z) : Prop := 0 <= b < 2 ^ 8.

Lemma length_enc n v : length (enc n v) = n.
Proof. revert v. induction n; simpl; auto. Qed.

Lemma enc_bytes n v : Forall is_byte (enc n v).
Proof. revert v. induction n; simpl; constructor; [apply u8_range|auto]. Qed.

Lemma dec_enc n v : 0 <= v < 2 ^ (8 * Z.of_nat n) -> dec (enc n v) = v.
Proof.
  revert v. induction n as [|n IH]; intros v Hv; [simpl in *; lia|].
  cbn [enc dec]. replace (8 * Z.of_nat (S n)) with (8 + 8 * Z.of_nat n) in Hv by lia.
  rewrite Z.pow_add_r in Hv by lia. rewrite IH.
  - unfold u8. pose proof (Z.div_mod v (2 ^ 8)). lia.
  - split; [apply Z.div_pos; lia|]. apply Z.div_lt_upper_bound; lia.
Qed.

Lemma dec_range bs : Forall is_byte bs -> 0 <= dec bs < 2 ^ (8 * Z.of_nat (length bs)).
Proof.
  induction 1 as [|b bs Hb _ IH]; [simpl; lia|]. cbn [dec length].
  replace (8 * Z.of_nat (S (length bs))) with (8 + 8 * Z.of_nat (length bs)) by lia.
  rewrite Z.pow_add_r by lia. unfold is_byte in Hb. nia.
Qed.

Lemma enc_dec bs : Forall is_byte bs -> enc (length bs) (dec bs) = bs.
Proof.
  induction 1 as [|b bs Hb Hbs IH]; [done|]. cbn [dec length enc]. unfold is_byte in Hb.
  f_equal.
  - unfold u8. rewrite Z.mul_comm, Z.mod_add by lia. by apply Z.mod_small.
  - rewrite Z.mul_comm, Z.div_add, (Z.div_small b) by lia. by rewrite Z.add_0_l.
Qed.

Lemma load_length m p n bs : load m p n = Some bs -> length bs = n.
Proof.
  revert p bs. induction n as [|n IH]; intros p bs; simpl; [by intros [= <-]|].
  destruct (m !! p); simpl; [|done]. destruct (load m (p + 1) n) eqn:E; simpl; [|done].
  intros [= <-]. simpl. f_equal. by eapply IH.
Qed.

Lemma has_cons m p b bs : has m p (b :: bs) <-> m !! p = Some b /\ has m (p + 1) bs.
Proof.
  unfold has. simpl. destruct (m !! p) as [c|]; simpl; [|naive_solver].
  destruct (load m (p + 1) (length bs)) eqn:E; simpl; naive_solver.
Qed.

Lemma has_nil m p : has m p [].
Proof. done. Qed.

Lemma has_app m p a b : has m p (a ++ b) <-> has m p a /\ has m (p + Z.of_nat (length a)) b.
Proof.
  revert p. induction a as [|x a IH]; intros p; simpl.
  - rewrite Z.add_0_r. pose proof (has_nil m p). tauto.
  - rewrite !has_cons, IH. replace (p + Z.of_nat (S (length a))) with (p + 1 + Z.of_nat (length a)) by lia.
    tauto.
Qed.

Lemma load_has m p n bs : load m p n = Some bs <-> has m p bs /\ length bs = n.
Proof.
  unfold has. split.
  - intros H. pose proof (load_length _ _ _ _ H). by subst.
  - intros [H <-]. done.
Qed.

Lemma has_lookup m p bs :
  has m p bs <-> forall i b, bs !! i = Some b -> m !! (p + Z.of_nat i) = Some b.
Proof.
  revert p. induction bs as [|x bs IH]; intros p.
  - split; [|done]. intros _ i b. by rewrite lookup_nil.
  - rewrite has_cons, IH. split.
    + intros [H1 H2] [|i] b Hi; simpl in Hi.
      * rewrite Z.add_0_r. congruence.
      * replace (p + Z.of_nat (S i)) with (p + 1 + Z.of_nat i) by lia. by apply H2.
    + intros H. split.
      * specialize (H 0%nat x eq_refl). by rewrite Z.add_0_r in H.
      * intros i b Hi. replace (p + 1 + Z.of_nat i) with (p + Z.of_nat (S i)) by lia. by apply H.
Qed.

Lemma has_frame m m' p n q bs :
  has m q bs -> same_except m m' p n -> q + Z.of_nat (length bs) <= p \/ p + n <= q -> has m' q bs.
Proof.
  rewrite !has_lookup. intros H Hs Hd i b Hi. pose proof (lookup_lt_Some _ _ _ Hi).
  rewrite Hs by lia. by apply H.
Qed.

(** Writing [b'] over the bytes [b] of a region. *)
Lemma store_at m p b b' :
  has m p b -> length b' = length b ->
  exists m', store m p b' = Some m' /\ has m' p b' /\
    same_except m m' p (Z.of_nat (length b)) /\ (forall q, is_Some (m' !! q) <-> is_Some (m !! q)).
Proof.
  revert m p b. induction b' as [|x b' IH]; intros m p [|y b] Hb Hl; try done.
  { exists m. split_and!; [done|done|by intros q|done]. }
  simpl in Hl. apply has_cons in Hb as [H1 H2]. simpl. rewrite H1. simpl.
  destruct (IH (<[p := x]> m) (p + 1) b) as (m' & E & K1 & K2 & K3); [|lia|].
  { eapply has_frame; [exact H2| |].
    - intros q Hq. apply lookup_insert_ne. instantiate (2 := p) in Hq. instantiate (1 := 1) in Hq. lia.
    - lia. }
  exists m'. split_and!; [done| | |].
  - apply has_cons. split; [|done]. rewrite K2 by lia. apply lookup_insert_eq.
  - intros q Hq. rewrite K2 by lia. apply lookup_insert_ne. lia.
  - intros q. rewrite K3. destruct (decide (q = p)) as [->|?].
    + rewrite lookup_insert_eq, H1. split; by eexists.
    + by rewrite lookup_insert_ne.
Qed.

Lemma same_except_weaken m m' p n p' n' :
  same_except m m' p n -> p' <= p -> p + n <= p' + n' -> same_except m m' p' n'.
Proof. intros H H1 H2 q Hq. apply H. lia. Qed.

Lemma same_except_trans m1 m2 m3 p n :
  same_except m1 m2 p n -> same_except m2 m3 p n -> same_except m1 m3 p n.
Proof. intros H1 H2 q Hq. by rewrite H2, H1. Qed.

Lemma has_is_Some m p bs q :
  has m p bs -> p <= q < p + Z.of_nat (length bs) -> is_Some (m !! q).
Proof.
  rewrite has_lookup. intros H Hq. destruct (lookup_lt_is_Some_2 bs (Z.to_nat (q - p))) as [b Hb].
  - lia.
  - specialize (H _ _ Hb). replace (p + Z.of_nat (Z.to_nat (q - p))) with q in H by lia. by eexists.
Qed.

(** The middle of a region. *)
Lemma has_middle m p a b c :
  has m p (a ++ b ++ c) -> has m (p + Z.of_nat (length a)) b.
Proof. intros [_ [H _]%has_app]%has_app. done. Qed.

Lemma store_middle m p a b b' c :
  has m p (a ++ b ++ c) -> length b' = length b ->
  exists m', store m (p + Z.of_nat (length a)) b' = Some m' /\ has m' p (a ++ b' ++ c) /\
    same_except m m' (p + Z.of_nat (length a)) (Z.of_nat (length b)).
Proof.
  intros H Hl. destruct (store_at m _ b b' (has_middle _ _ _ _ _ H) Hl) as (m' & E & K1 & K2 & _).
  exists m'. split_and!; [done| |done]. apply has_app in H as [H1 H2]. apply has_app in H2 as [_ H2].
  apply has_app. split; [eapply has_frame; [done|done|lia]|]. apply has_app. split; [done|].
  rewrite Hl. eapply has_frame; [done|done|lia].
Qed.

(** Reading and writing a field of [n] bytes in the middle of a region. *)
Lemma load_middle m p a b c :
  has m p (a ++ b ++ c) -> load m (p + Z.of_nat (length a)) (length b) = Some b.
Proof. intros H. by apply has_middle in H. Qed.

#[global] Arguments enc : simpl never.
#[global] Arguments dec : simpl never.

(** ** Fields *)

Lemma ld8_lookup m p b : m !! p = Some b -> ld8 m p = Some b.
Proof.
  intros H. transitivity (Some (dec [b])); [|unfold dec; f_equal; lia].
  unfold ld8. cbn [load]. by rewrite H.
Qed.

Lemma ld32_has m p v : 0 <= v < 2 ^ 32 -> has m p (enc 4 v) -> ld32 m p = Some v.
Proof.
  intros Hv H. unfold ld32, has in *. rewrite length_enc in H. rewrite H. simpl fmap.
  f_equal. by apply dec_enc.
Qed.

Lemma ld16_has m p v : 0 <= v < 2 ^ 16 -> has m p (enc 2 v) -> ld16 m p = Some v.
Proof.
  intros Hv H. unfold ld16, has in *. rewrite length_enc in H. rewrite H. simpl fmap.
  f_equal. by apply dec_enc.
Qed.

Lemma ld16_pair m p a b :
  m !! p = Some a -> m !! (p + 1) = Some b -> ld16 m p = Some (a + 2 ^ 8 * b).
Proof.
  intros H1 H2. transitivity (Some (dec [a; b])); [|unfold dec; f_equal; lia].
  unfold ld16. cbn [load]. rewrite H1. cbn [mbind option_bind]. by rewrite H2.
Qed.

Lemma map_bytes_has n p v m : has (map_bytes n p v m) p (replicate n v).
Proof.
  revert p. induction n as [|n IH]; intros p; [done|]. cbn [map_bytes replicate].
  apply has_cons. split; [apply lookup_insert_eq|].
  apply (has_frame (map_bytes n (p + 1) v m) _ p 1); [apply IH| |lia].
  intros q Hq. apply lookup_insert_ne. lia.
Qed.

Lemma map_bytes_same n p v m : same_except m (map_bytes n p v m) p (Z.of_nat n).
Proof.
  revert p. induction n as [|n IH]; intros p q Hq; [done|]. cbn [map_bytes].
  rewrite lookup_insert_ne by lia. apply IH. lia.
Qed.

Lemma lay_same p bs m : same_except m (lay p bs m) p (Z.of_nat (length bs)).
Proof.
  revert p. induction bs as [|b bs IH]; intros p q Hq; [done|]. cbn [lay length] in *.
  rewrite lookup_insert_ne by lia. apply IH. lia.
Qed.

Lemma lay_has p bs m : has (lay p bs m) p bs.
Proof.
  revert p. induction bs as [|b bs IH]; intros p; [apply has_nil|]. cbn [lay]. apply has_cons.
  split; [apply lookup_insert_eq|]. apply (has_frame (lay (p + 1) bs m) _ p 1); [apply IH| |lia].
  intros q Hq. apply lookup_insert_ne. lia.
Qed.

Lemma lay_other p bs m q cs : has m q cs -> q + Z.of_nat (length cs) <= p \/ p + Z.of_nat (length bs) <= q -> has (lay p bs m) q cs.
Proof. intros H D. eapply has_frame; [exact H|apply lay_same|done]. Qed.

(** A new block does not touch what was there. *)
Lemma has_fresh `{ByteAllocator} m n p q bs v :
  balloc m n = Some p -> has m q bs -> has (map_bytes (Z.to_nat n) p v m) q bs.
Proof.
  intros Hp Hq. rewrite has_lookup in *. intros i b Hi. specialize (Hq i b Hi).
  rewrite map_bytes_same; [done|]. destruct (Z.lt_ge_cases (q + Z.of_nat i) p); [by left|].
  destruct (Z.lt_ge_cases (q + Z.of_nat i) (p + n)); [|right; lia].
  rewrite (balloc_fresh m n p) in Hq by (done || lia). done.
Qed.

Lemma fresh_disjoint `{ByteAllocator} m n p q bs :
  balloc m n = Some p -> has m q bs -> 0 < n -> bs <> [] -> q + Z.of_nat (length bs) <= p \/ p + n <= q.
Proof.
  intros Hp Hq Hn Hne. assert (0 < Z.of_nat (length bs)) by (destruct bs; [done|simpl; lia]).
  destruct (Z.le_gt_cases (q + Z.of_nat (length bs)) p); [by left|].
  destruct (Z.le_gt_cases (p + n) q); [by right|]. exfalso.
  destruct (has_is_Some m q bs (Z.max p q) Hq) as [b Hb]; [lia|].
  rewrite (balloc_fresh m n p (Z.max p q) Hp) in Hb by lia. done.
Qed.

(** A store needs all of its bytes and maps no new ones. *)
Lemma store_mapped (m : mem) p bs m' : store m p bs = Some m' ->
  (forall q, p <= q < p + Z.of_nat (length bs) -> is_Some (m !! q)) /\ (forall q, is_Some (m' !! q) <-> is_Some (m !! q)).
Proof.
  revert m p. induction bs as [|b bs IH]; intros m p; cbn [store length].
  { intros [= <-]. split; [lia|done]. }
  destruct (m !! p) as [x|] eqn:E; [|done]. cbn [mbind option_bind]. intros H. apply IH in H as [H1 H2].
  assert (forall q, is_Some (<[p := b]> m !! q) <-> is_Some (m !! q)) as D.
  { intros q. destruct (decide (q = p)) as [->|N]; [rewrite lookup_insert_eq, E; split; by eexists|by rewrite lookup_insert_ne]. }
  split; [|intros q; by rewrite H2, D]. intros q Hq. destruct (decide (q = p)) as [->|N]; [by rewrite E; eexists|].
  apply D, H1. lia.
Qed.
