(* ===== verification/Nls.v ===== *)
(** * National language support (sdk/lib/rtl/nls.c)

    The tables come from the code page files: a pointer into a file is the list of the USHORTs
    from there on, NULL is [None], and an access outside of it is a fault ([None]).  The global
    variables are the record [NLS].  A conversion reads its source as a list of bytes or of
    WCHARs, as many as the size says, and returns what it stores, the result size ([None] if it
    does not set it) and always STATUS_SUCCESS; the buffers of a conversion are distinct. *)

From Stdlib Require Import ZArith Lia Bool.
From stdpp Require Import base option list numbers.
From S2P Require Import Prelude.
Open Scope Z_scope.

Definition s8 (z : Z) : Z := swrap 8 z.

Definition LOBYTE (w : Z) : Z := Z.land w 0xFF.
Definition HIBYTE (w : Z) : Z := Z.land (Z.shiftr w 8) 0xFF.

Definition MAXIMUM_LEADBYTES : nat := 12.

Record CPTABLEINFO := mkCp {
  CodePage : Z; MaximumCharacterSize : Z; DefaultChar : Z; UniDefaultChar : Z;
  TransDefaultChar : Z; TransUniDefaultChar : Z; DBCSCodePage : Z; LeadByte : list Z;
  MultiByteTable : list Z; WideCharTable : list Z; DBCSRanges : list Z; DBCSOffsets : option (list Z)
}.

Record NLSTABLEINFO := mkNlsTable {
  OemTableInfo : CPTABLEINFO; AnsiTableInfo : CPTABLEINFO;
  UpperCaseTable : list Z; LowerCaseTable : list Z
}.

Record NLS := mkNls {
  NlsUnicodeUpcaseTable : list Z; NlsUnicodeLowercaseTable : list Z;
  NlsAnsiCodePage : Z; NlsMbCodePageTag : bool;
  NlsAnsiToUnicodeTable : list Z; NlsUnicodeToMbAnsiTable : list Z; NlsLeadByteInfo : option (list Z);
  NlsOemCodePage : Z; NlsMbOemCodePageTag : bool;
  NlsOemToUnicodeTable : list Z; NlsUnicodeToMbOemTable : list Z; NlsOemLeadByteInfo : option (list Z);
  NlsOemDefaultChar : Z; NlsUnicodeDefaultChar : Z
}.

(** The two bytes of every USHORT: a table of USHORTs read as a table of CHARs. *)
Definition byte_of (table : list Z) (i : Z) : option Z :=
  w ← rd table (i / 2); Some (if Z.even i then LOBYTE w else HIBYTE w).

(** [p + n], a pointer into the same file. *)
Definition advance (table : list Z) (n : Z) : option (list Z) :=
  if (0 <=? n) && (n <=? Z.of_nat (length table)) then Some (drop (Z.to_nat n) table) else None.

Definition RtlInitCodePageTable (TableBase : list Z) : option CPTABLEINFO :=
  HeaderSize ← rd TableBase 0;
  CodePage ← rd TableBase 1;
  MaximumCharacterSize ← rd TableBase 2;
  DefaultChar ← rd TableBase 3;
  UniDefaultChar ← rd TableBase 4;
  TransDefaultChar ← rd TableBase 5;
  TransUniDefaultChar ← rd TableBase 6;
  LeadByte ← mapM (fun i => byte_of TableBase (14 + i)) (seqZ 0 12);
  offset ← rd TableBase HeaderSize;
  WideCharTable ← advance TableBase (HeaderSize + 1 + offset);
  MultiByteTable ← advance TableBase (HeaderSize + 1);
  glyphs ← rd MultiByteTable 256;
  DBCSRanges ← advance MultiByteTable (if glyphs =? 0 then 256 + 1 else 256 + 1 + 256);
  ranges ← rd DBCSRanges 0;
  DBCSOffsets ← (if negb (ranges =? 0) then Some <$> advance DBCSRanges 1 else Some None);
  Some (mkCp CodePage MaximumCharacterSize DefaultChar UniDefaultChar TransDefaultChar TransUniDefaultChar
          (if negb (ranges =? 0) then 1 else 0) LeadByte MultiByteTable WideCharTable DBCSRanges DBCSOffsets).

(** The table is left as it is if a pointer is NULL. *)
Definition RtlInitNlsTables (AnsiTableBase OemTableBase CaseTableBase : option (list Z)) (NlsTable : NLSTABLEINFO)
    : option NLSTABLEINFO :=
  match AnsiTableBase, OemTableBase, CaseTableBase with
  | Some Ansi, Some Oem, Some Case =>
      AnsiInfo ← RtlInitCodePageTable Ansi;
      OemInfo ← RtlInitCodePageTable Oem;
      Upper ← advance Case 2;
      offset ← rd Case 1;
      Lower ← advance Case (offset + 2);
      Some (mkNlsTable OemInfo AnsiInfo Upper Lower)
  | _, _, _ => Some NlsTable
  end.

Definition RtlResetRtlTranslations (NlsTable : NLSTABLEINFO) : NLS :=
  let Ansi := AnsiTableInfo NlsTable in
  let Oem := OemTableInfo NlsTable in
  mkNls (UpperCaseTable NlsTable) (LowerCaseTable NlsTable)
    (CodePage Ansi) (negb (DBCSCodePage Ansi =? 0)) (MultiByteTable Ansi) (WideCharTable Ansi) (DBCSOffsets Ansi)
    (CodePage Oem) (negb (DBCSCodePage Oem =? 0)) (MultiByteTable Oem) (WideCharTable Oem) (DBCSOffsets Oem)
    (DefaultChar Oem) (TransDefaultChar Oem).

Section Tables.

Variable N : NLS.

Definition RtlGetDefaultCodePage : Z * Z := (NlsAnsiCodePage N, NlsOemCodePage N).

(** ** Case *)

Definition RtlpDowncaseUnicodeChar (Source : Z) : option Z :=
  if Source <? 0x41 then Some Source else
  if Source <=? 0x5A then Some (u16 (Source + (0x61 - 0x41))) else
  if Source <? 0x80 then Some Source else
  Offset ← rd (NlsUnicodeLowercaseTable N) (Z.shiftr Source 8);
  Offset ← rd (NlsUnicodeLowercaseTable N) (u16 (Offset + Z.shiftr (Z.land Source 0xF0) 4));
  Offset ← rd (NlsUnicodeLowercaseTable N) (u16 (Offset + Z.land Source 0xF));
  Some (u16 (Source + s16 Offset)).

Definition RtlDowncaseUnicodeChar (Source : Z) : option Z := RtlpDowncaseUnicodeChar Source.

Definition RtlpUpcaseUnicodeChar (Source : Z) : option Z :=
  if Source <? 0x61 then Some Source else
  if Source <=? 0x7A then Some (u16 (Source - (0x61 - 0x41))) else
  Offset ← rd (NlsUnicodeUpcaseTable N) (Z.land (Z.shiftr Source 8) 0xFF);
  Offset ← rd (NlsUnicodeUpcaseTable N) (u16 (Offset + Z.land (Z.shiftr Source 4) 0xF));
  Offset ← rd (NlsUnicodeUpcaseTable N) (u16 (Offset + Z.land Source 0xF));
  Some (u16 (Source + s16 Offset)).

Definition RtlUpcaseUnicodeChar (Source : Z) : option Z := RtlpUpcaseUnicodeChar Source.

(** [Source] and the result are bytes; a CHAR is signed. *)
Definition RtlUpperChar (Source : Z) : option Z :=
  if s8 Source <=? 0x7A then
    if 0x61 <=? s8 Source then Some (Z.lxor Source (0x61 - 0x41)) else Some Source
  else if negb (NlsMbCodePageTag N) then
    Unicode ← rd (NlsAnsiToUnicodeTable N) Source;
    Unicode ← RtlpUpcaseUnicodeChar Unicode;
    byte_of (NlsUnicodeToMbAnsiTable N) Unicode
  else Some Source.

(** ** From bytes to WCHARs *)

(** A single-byte code page: [n] characters. *)
Definition Widen (table : list Z) (n : Z) (s : list Z) : option (list Z) :=
  if Z.of_nat (length s) <? n then None else mapM (fun c => rd table c) (take (Z.to_nat n) s).

(** The loop over a multi-byte string; [n] WCHARs have room.  The count includes a lead byte at
    the end, for which nothing is stored. *)
Fixpoint MultiByteLoop (LeadByteInfo : option (list Z)) (table : list Z) (n : nat) (s : list Z)
    : option (list Z * Z) :=
  match n, s with
  | S n', Char :: s' =>
      if Char <? 0x80 then
        '(l, i) ← MultiByteLoop LeadByteInfo table n' s'; Some (Char :: l, i + 1)
      else
      Info ← LeadByteInfo;
      Lead ← rd Info Char;
      if Lead =? 0 then
        w ← rd table Char;
        '(l, i) ← MultiByteLoop LeadByteInfo table n' s'; Some (w :: l, i + 1)
      else
      match s' with
      | Trail :: s'' =>
          w ← rd Info (Lead + Trail);
          '(l, i) ← MultiByteLoop LeadByteInfo table n' s''; Some (w :: l, i + 1)
      | [] => Some ([], 1)
      end
  | _, _ => Some ([], 0)
  end.

Definition ToUnicodeN (Mb : bool) (table : list Z) (LeadByteInfo : option (list Z))
    (UnicodeSize : Z) (s : list Z) : option (list Z * Z) :=
  let MbSize := Z.of_nat (length s) in
  if negb Mb then
    let Size := if UnicodeSize / 2 <? MbSize then UnicodeSize / 2 else MbSize in
    l ← Widen table Size s; Some (l, u32 (Size * 2))
  else
    '(l, i) ← MultiByteLoop LeadByteInfo table (Z.to_nat (UnicodeSize / 2)) s; Some (l, u32 (i * 2)).

Definition RtlMultiByteToUnicodeN (UnicodeSize : Z) (MbString : list Z) : option (list Z * Z) :=
  ToUnicodeN (NlsMbCodePageTag N) (NlsAnsiToUnicodeTable N) (NlsLeadByteInfo N) UnicodeSize MbString.

Definition RtlOemToUnicodeN (UnicodeSize : Z) (OemString : list Z) : option (list Z * Z) :=
  ToUnicodeN (NlsMbOemCodePageTag N) (NlsOemToUnicodeTable N) (NlsOemLeadByteInfo N) UnicodeSize OemString.

(** Also stores 1 in [*Unknown]. *)
Definition RtlConsoleMultiByteToUnicodeN (UnicodeSize : Z) (MbString : list Z) : option (list Z * Z * Z) :=
  '(l, Size) ← RtlMultiByteToUnicodeN UnicodeSize MbString; Some (l, Size, 1).

(** A multi-byte code page is an assertion, after which nothing is stored. *)
Definition RtlCustomCPToUnicodeN (CustomCP : CPTABLEINFO) (UnicodeSize : Z) (CustomString : list Z)
    : option (list Z * option Z) :=
  if DBCSCodePage CustomCP =? 0 then
    let CustomSize := Z.of_nat (length CustomString) in
    let Size := if UnicodeSize / 2 <? CustomSize then UnicodeSize / 2 else CustomSize in
    l ← Widen (MultiByteTable CustomCP) Size CustomString; Some (l, Some (u32 (Size * 2)))
  else Some ([], None).

Fixpoint SizeLoop (LeadByteInfo : option (list Z)) (s : list Z) : option Z :=
  match s with
  | [] => Some 0
  | Char :: s' =>
      lead ← (if 0x80 <=? Char then Info ← LeadByteInfo; Lead ← rd Info Char; Some (negb (Lead =? 0))
              else Some false);
      n ← (if (lead : bool) then match s' with Trail :: s'' => SizeLoop LeadByteInfo s'' | [] => Some 0 end
           else SizeLoop LeadByteInfo s');
      Some (n + 1)
  end.

Definition RtlMultiByteToUnicodeSize (MbString : list Z) : option Z :=
  if negb (NlsMbCodePageTag N) then Some (u32 (Z.of_nat (length MbString) * 2)) else
  n ← SizeLoop (NlsLeadByteInfo N) MbString; Some (u32 (n * 2)).

(** ** From WCHARs to bytes *)

(** A single-byte code page; [f] is applied to every character first. *)
Definition Narrow (f : Z -> option Z) (table : list Z) (n : Z) (s : list Z) : option (list Z) :=
  if Z.of_nat (length s) <? n then None
  else mapM (fun c => c ← f c; byte_of table c) (take (Z.to_nat n) s).

(** The loop for a multi-byte code page: [i] bytes have room; what is left of [i] is returned. *)
Fixpoint WideLoop (f : Z -> option Z) (table : list Z) (i : Z) (s : list Z) : option (list Z * Z) :=
  match s with
  | [] => Some ([], i)
  | c :: s' =>
      if i =? 0 then Some ([], i) else
      WideChar ← f c;
      if WideChar <? 0x80 then
        '(l, j) ← WideLoop f table (i - 1) s'; Some (LOBYTE WideChar :: l, j)
      else
      MbChar ← rd table WideChar;
      if HIBYTE MbChar =? 0 then
        '(l, j) ← WideLoop f table (i - 1) s'; Some (LOBYTE MbChar :: l, j)
      else if 2 <=? i then
        '(l, j) ← WideLoop f table (i - 2) s'; Some (HIBYTE MbChar :: LOBYTE MbChar :: l, j)
      else Some ([], i)
  end.

Definition FromUnicodeN (f : Z -> option Z) (Mb : bool) (table : list Z) (MbSize : Z) (s : list Z)
    : option (list Z * Z) :=
  let UnicodeSize := 2 * Z.of_nat (length s) in
  if negb Mb then
    let Size := if u32 (MbSize * 2) <? UnicodeSize then MbSize else UnicodeSize / 2 in
    l ← Narrow f table Size s; Some (l, Size)
  else
    '(l, i) ← WideLoop f table MbSize s; Some (l, MbSize - i).

Definition RtlUnicodeToMultiByteN (MbSize : Z) (UnicodeString : list Z) : option (list Z * Z) :=
  FromUnicodeN Some (NlsMbCodePageTag N) (NlsUnicodeToMbAnsiTable N) MbSize UnicodeString.

Definition RtlUnicodeToOemN (OemSize : Z) (UnicodeString : list Z) : option (list Z * Z) :=
  FromUnicodeN Some (NlsMbOemCodePageTag N) (NlsUnicodeToMbOemTable N) OemSize UnicodeString.

Definition RtlUpcaseUnicodeToOemN (OemSize : Z) (UnicodeString : list Z) : option (list Z * Z) :=
  FromUnicodeN RtlpUpcaseUnicodeChar (NlsMbOemCodePageTag N) (NlsUnicodeToMbOemTable N) OemSize UnicodeString.

(** A multi-byte code page is an assertion in the next three. *)
Definition RtlUpcaseUnicodeToMultiByteN (MbSize : Z) (UnicodeString : list Z) : option (list Z * option Z) :=
  if negb (NlsMbCodePageTag N) then
    '(l, Size) ← FromUnicodeN RtlpUpcaseUnicodeChar false (NlsUnicodeToMbAnsiTable N) MbSize UnicodeString;
    Some (l, Some Size)
  else Some ([], None).

Definition RtlUnicodeToCustomCPN (CustomCP : CPTABLEINFO) (CustomSize : Z) (UnicodeString : list Z)
    : option (list Z * option Z) :=
  if DBCSCodePage CustomCP =? 0 then
    '(l, Size) ← FromUnicodeN Some false (WideCharTable CustomCP) CustomSize UnicodeString; Some (l, Some Size)
  else Some ([], None).

Definition RtlUpcaseUnicodeToCustomCPN (CustomCP : CPTABLEINFO) (CustomSize : Z) (UnicodeString : list Z)
    : option (list Z * option Z) :=
  if DBCSCodePage CustomCP =? 0 then
    '(l, Size) ← FromUnicodeN RtlpUpcaseUnicodeChar false (WideCharTable CustomCP) CustomSize UnicodeString;
    Some (l, Some Size)
  else Some ([], None).

Fixpoint MbSizeLoop (table : list Z) (s : list Z) : option Z :=
  match s with
  | [] => Some 0
  | WideChar :: s' =>
      two ← (if 0x80 <=? WideChar then w ← rd table WideChar; Some (negb (HIBYTE w =? 0)) else Some false);
      n ← MbSizeLoop table s';
      Some (if (two : bool) then n + 2 else n + 1)
  end.

Definition RtlUnicodeToMultiByteSize (UnicodeString : list Z) : option Z :=
  if negb (NlsMbCodePageTag N) then Some (Z.of_nat (length UnicodeString))
  else MbSizeLoop (NlsUnicodeToMbAnsiTable N) UnicodeString.

End Tables.
