(* ===== verification/NlsProps.v ===== *)
(** * Conversions between code pages and Unicode

    [converts] relates a string in a code page to the WCHARs that the tables give for it and that
    they map back: on such strings the conversions are inverse to each other and the functions
    that compute sizes agree with them. *)

From Stdlib Require Import ZArith Lia Bool.
From stdpp Require Import base option list numbers.
From S2P Require Import Prelude Nls.
Open Scope Z_scope.

(** ** Strings that the tables map back *)

Section Converts.

Variables (Mb : bool) (table wide : list Z) (LeadByteInfo : option (list Z)).

Inductive converts : list Z -> list Z -> Prop :=
| converts_nil : converts [] []
| converts_byte c w s l : Mb = false ->
    rd table c = Some w -> byte_of wide w = Some c -> converts s l -> converts (c :: s) (w :: l)
| converts_ascii c s l : Mb = true -> 0 <= c < 0x80 -> converts s l -> converts (c :: s) (c :: l)
| converts_single c w info s l : Mb = true -> 0x80 <= c < 2 ^ 8 ->
    LeadByteInfo = Some info -> rd info c = Some 0 -> rd table c = Some w -> 0x80 <= w ->
    rd wide w = Some c -> converts s l -> converts (c :: s) (w :: l)
| converts_double c t lead w info s l : Mb = true -> 0x80 <= c < 2 ^ 8 -> 0 <= t < 2 ^ 8 ->
    LeadByteInfo = Some info -> rd info c = Some lead -> lead <> 0 -> rd info (lead + t) = Some w -> 0x80 <= w ->
    rd wide w = Some (c * 2 ^ 8 + t) -> converts s l -> converts (c :: t :: s) (w :: l).

Lemma byte_small c : 0 <= c < 2 ^ 8 -> LOBYTE c = c /\ HIBYTE c = 0.
Proof.
  intros H. unfold LOBYTE, HIBYTE. rewrite Z.shiftr_div_pow2 by lia. change 0xFF with (Z.ones 8).
  rewrite !Z.land_ones by lia. rewrite (Z.div_small c) by lia. split; [by rewrite Z.mod_small|done].
Qed.

Lemma byte_pair c t : 0 <= c < 2 ^ 8 -> 0 <= t < 2 ^ 8 ->
  LOBYTE (c * 2 ^ 8 + t) = t /\ HIBYTE (c * 2 ^ 8 + t) = c.
Proof.
  intros Hc Ht. unfold LOBYTE, HIBYTE. rewrite Z.shiftr_div_pow2 by lia. change 0xFF with (Z.ones 8).
  rewrite !Z.land_ones by lia. rewrite Z.add_comm, Z.div_add, (Z.div_small t), Z.mod_add by lia.
  by rewrite !Z.mod_small by lia.
Qed.

Lemma converts_length s l : converts s l -> (length l <= length s <= 2 * length l)%nat.
Proof. induction 1; simpl; lia. Qed.

Lemma MultiByteLoop_run s l n : converts s l -> Mb = true -> (length l <= n)%nat ->
  MultiByteLoop LeadByteInfo table n s = Some (l, Z.of_nat (length l)).
Proof.
  intros H HM. revert n. induction H; intros n Hn; try congruence; [by destruct n|..];
    (destruct n as [|n]; [simpl in Hn; lia|]); cbn [MultiByteLoop length] in *.
  - rewrite (proj2 (Z.ltb_lt _ _)) by lia. rewrite IHconverts by lia. cbn [mbind option_bind]. do 2 f_equal. lia.
  - rewrite (proj2 (Z.ltb_ge _ _)) by lia. rewrite IHconverts, H1 by lia. cbn [mbind option_bind].
    rewrite H2. cbn [mbind option_bind Z.eqb]. rewrite H3. cbn. do 2 f_equal. lia.
  - rewrite (proj2 (Z.ltb_ge _ _)) by lia. rewrite IHconverts, H2 by lia. cbn [mbind option_bind]. rewrite H3. cbn [mbind option_bind].
    rewrite (proj2 (Z.eqb_neq _ _)) by done. rewrite H5. cbn. do 2 f_equal. lia.
Qed.

Lemma WideLoop_run s l i : converts s l -> Mb = true -> Z.of_nat (length s) <= i ->
  WideLoop Some wide i l = Some (s, i - Z.of_nat (length s)).
Proof.
  intros H HM. revert i. induction H; intros i Hi; try congruence; cbn [WideLoop length] in *.
  - do 2 f_equal. lia.
  - rewrite (proj2 (Z.eqb_neq _ _)) by lia. cbn [mbind option_bind]. rewrite (proj2 (Z.ltb_lt _ _)) by lia.
    rewrite IHconverts by lia. cbn. destruct (byte_small c) as [-> _]; [lia|]. do 2 f_equal. lia.
  - rewrite (proj2 (Z.eqb_neq _ _)) by lia. cbn [mbind option_bind]. rewrite (proj2 (Z.ltb_ge _ _)) by lia.
    rewrite H5. cbn [mbind option_bind]. destruct (byte_small c) as [-> ->]; [lia|]. cbn [Z.eqb].
    rewrite IHconverts by lia. cbn. do 2 f_equal. lia.
  - rewrite (proj2 (Z.eqb_neq _ _)) by lia. cbn [mbind option_bind]. rewrite (proj2 (Z.ltb_ge _ _)) by lia.
    rewrite H7. cbn [mbind option_bind]. destruct (byte_pair c t) as [-> ->]; [lia..|].
    rewrite (proj2 (Z.eqb_neq _ _)), (proj2 (Z.leb_le _ _)) by lia. rewrite IHconverts by lia. cbn. do 2 f_equal. lia.
Qed.

Lemma Widen_run s l : converts s l -> Mb = false -> Widen table (Z.of_nat (length s)) s = Some l.
Proof.
  intros H HM. unfold Widen. rewrite Z.ltb_irrefl, Nat2Z.id, take_ge by lia.
  induction H; try congruence; [done|]. cbn [mapM]. rewrite H0. cbn. by rewrite IHconverts.
Qed.

Lemma Narrow_run s l : converts s l -> Mb = false -> Narrow Some wide (Z.of_nat (length l)) l = Some s.
Proof.
  intros H HM. unfold Narrow. rewrite Z.ltb_irrefl, Nat2Z.id, take_ge by lia.
  induction H; try congruence; [done|]. cbn [mapM mbind option_bind] in IHconverts |- *.
  rewrite H1. cbn. by rewrite IHconverts.
Qed.

Lemma converts_single_length s l : converts s l -> Mb = false -> length l = length s.
Proof. intros H HM. induction H; try congruence; simpl; auto. Qed.

Lemma ToUnicodeN_run s l UnicodeSize : converts s l -> Z.of_nat (length s) < 2 ^ 31 ->
  2 * Z.of_nat (length l) <= UnicodeSize ->
  ToUnicodeN Mb table LeadByteInfo UnicodeSize s = Some (l, 2 * Z.of_nat (length l)).
Proof.
  intros H Hs Hu. pose proof (converts_length s l H). unfold ToUnicodeN.
  assert (Z.of_nat (length l) <= UnicodeSize / 2) by (apply Z.div_le_lower_bound; lia).
  destruct Mb eqn:HM; cbn [negb].
  - rewrite MultiByteLoop_run with (l := l) by (try done; lia). cbn [mbind option_bind]. do 2 f_equal.
    rewrite Z.mul_comm. apply u32_small. lia.
  - rewrite (converts_single_length s l H HM) in *. rewrite (proj2 (Z.ltb_ge _ _)) by lia.
    rewrite (Widen_run s l H HM). cbn [mbind option_bind]. do 2 f_equal. rewrite Z.mul_comm. apply u32_small. lia.
Qed.

Lemma FromUnicodeN_run s l MbSize : converts s l -> Z.of_nat (length s) < 2 ^ 31 ->
  Z.of_nat (length s) <= MbSize < 2 ^ 31 ->
  FromUnicodeN Some Mb wide MbSize l = Some (s, Z.of_nat (length s)).
Proof.
  intros H Hs Hm. unfold FromUnicodeN. destruct Mb eqn:HM; cbn [negb].
  - rewrite WideLoop_run with (s := s) by (try done; lia). cbn [mbind option_bind]. do 2 f_equal. lia.
  - pose proof (converts_single_length s l H HM) as Hl. rewrite u32_small by lia.
    rewrite (proj2 (Z.ltb_ge _ _)) by lia. rewrite Z.mul_comm, Z.div_mul, (Narrow_run s l H HM), Hl by lia. done.
Qed.

Lemma SizeLoop_run s l : converts s l -> Mb = true -> SizeLoop LeadByteInfo s = Some (Z.of_nat (length l)).
Proof.
  intros H HM. induction H; try congruence; cbn [SizeLoop length].
  - done.
  - rewrite (proj2 (Z.leb_gt _ _)) by lia. cbn [mbind option_bind]. rewrite IHconverts by done. cbn. f_equal. lia.
  - rewrite (proj2 (Z.leb_le _ _)) by lia. rewrite IHconverts, H1 by done. cbn [mbind option_bind]. rewrite H2. cbn. f_equal. lia.
  - rewrite (proj2 (Z.leb_le 0x80 c)) by lia. rewrite IHconverts, H2 by done. cbn [mbind option_bind]. rewrite H3.
    cbn [mbind option_bind]. rewrite (proj2 (Z.eqb_neq _ _)) by done. cbn. f_equal. lia.
Qed.

Lemma MbSizeLoop_run s l : converts s l -> Mb = true -> MbSizeLoop wide l = Some (Z.of_nat (length s)).
Proof.
  intros H HM. induction H; try congruence; cbn [MbSizeLoop length].
  - done.
  - rewrite (proj2 (Z.leb_gt _ _)) by lia. cbn [mbind option_bind]. rewrite IHconverts by done. cbn. f_equal. lia.
  - rewrite (proj2 (Z.leb_le _ _)) by lia. rewrite H5. cbn [mbind option_bind]. destruct (byte_small c) as [_ ->]; [lia|].
    rewrite IHconverts by done. cbn. f_equal. lia.
  - rewrite (proj2 (Z.leb_le _ _)) by lia. rewrite H7. cbn [mbind option_bind]. destruct (byte_pair c t) as [_ ->]; [lia..|].
    rewrite (proj2 (Z.eqb_neq _ _)), IHconverts by (done || lia). cbn. f_equal. lia.
Qed.

End Converts.

(** The tables of the ANSI code page. *)
Definition ansi (N : NLS) : list Z -> list Z -> Prop :=
  converts (NlsMbCodePageTag N) (NlsAnsiToUnicodeTable N) (NlsUnicodeToMbAnsiTable N) (NlsLeadByteInfo N).

Definition oem (N : NLS) : list Z -> list Z -> Prop :=
  converts (NlsMbOemCodePageTag N) (NlsOemToUnicodeTable N) (NlsUnicodeToMbOemTable N) (NlsOemLeadByteInfo N).

(** round trip of the ANSI code page, single-byte or multi-byte: a string whose characters
    the tables map back becomes its WCHARs and these become the string again, in any buffers that
    are large enough, and the two size functions return exactly the sizes that the conversions
    report. *)
Theorem multi_byte_roundtrip N s l UnicodeSize MbSize :
  ansi N s l -> Z.of_nat (length s) < 2 ^ 31 ->
  2 * Z.of_nat (length l) <= UnicodeSize -> Z.of_nat (length s) <= MbSize < 2 ^ 31 ->
  RtlMultiByteToUnicodeN N UnicodeSize s = Some (l, 2 * Z.of_nat (length l)) /\
  RtlUnicodeToMultiByteN N MbSize l = Some (s, Z.of_nat (length s)) /\
  RtlMultiByteToUnicodeSize N s = Some (2 * Z.of_nat (length l)) /\
  RtlUnicodeToMultiByteSize N l = Some (Z.of_nat (length s)).
Proof.
  intros H Hs Hu Hm. unfold ansi in H. split; [by eapply ToUnicodeN_run|]. split; [by eapply FromUnicodeN_run|].
  pose proof (converts_length _ _ _ _ s l H). unfold RtlMultiByteToUnicodeSize, RtlUnicodeToMultiByteSize.
  destruct (NlsMbCodePageTag N) eqn:HM; cbn [negb].
  - erewrite SizeLoop_run by done. erewrite MbSizeLoop_run by done. cbn [mbind option_bind].
    split; [|done]. f_equal. rewrite Z.mul_comm. apply u32_small. lia.
  - pose proof (converts_single_length _ _ _ _ s l H eq_refl) as ->. split; [|done].
    f_equal. rewrite Z.mul_comm. apply u32_small. lia.
Qed.

(** The same for the OEM code page. *)
Theorem oem_roundtrip N s l UnicodeSize OemSize :
  oem N s l -> Z.of_nat (length s) < 2 ^ 31 ->
  2 * Z.of_nat (length l) <= UnicodeSize -> Z.of_nat (length s) <= OemSize < 2 ^ 31 ->
  RtlOemToUnicodeN N UnicodeSize s = Some (l, 2 * Z.of_nat (length l)) /\
  RtlUnicodeToOemN N OemSize l = Some (s, Z.of_nat (length s)).
Proof. intros H Hs Hu Hm. unfold oem in H. split; [by eapply ToUnicodeN_run|by eapply FromUnicodeN_run]. Qed.

(** a lead byte at the end of a multi-byte string is counted in the result size, but no WCHAR
    is stored for it: the caller takes a character that nobody has written. *)
Theorem trailing_lead_byte_counted N info c lead :
  NlsMbCodePageTag N = true -> NlsLeadByteInfo N = Some info ->
  0x80 <= c -> rd info c = Some lead -> lead <> 0 ->
  RtlMultiByteToUnicodeN N 2 [c] = Some ([], 2).
Proof.
  intros HM Hi Hc Hl Hn. unfold RtlMultiByteToUnicodeN, ToUnicodeN. rewrite HM, Hi. cbn [negb].
  change (Z.to_nat (2 / 2)) with 1%nat. cbn [MultiByteLoop mbind option_bind].
  rewrite (proj2 (Z.ltb_ge _ _)) by lia. rewrite Hl. cbn [mbind option_bind].
  by rewrite (proj2 (Z.eqb_neq _ _)).
Qed.

(** [RtlUpperChar] returns every character above the ASCII range as it is, whatever the code
    page says about it, because a CHAR is signed; below it changes exactly the small letters. *)
Theorem upper_char_ascii_only N c :
  0 <= c < 2 ^ 8 -> c <= 0x7A \/ 0x80 <= c ->
  RtlUpperChar N c = Some (if (0x61 <=? c) && (c <=? 0x7A) then c - 0x20 else c).
Proof.
  intros Hc Hr. unfold RtlUpperChar, s8, swrap. change (2 ^ (8 - 1)) with 128.
  destruct (Z.le_gt_cases 0x80 c) as [H|H].
  - replace ((c + 128) mod 2 ^ 8 - 128) with (c - 256)
      by (replace (c + 128) with (c - 128 + 1 * 2 ^ 8) by lia; rewrite Z.mod_add, Z.mod_small; lia).
    rewrite (proj2 (Z.leb_le _ _)), (proj2 (Z.leb_gt _ _)) by lia.
    rewrite (proj2 (Z.leb_gt c 0x7A)) by lia. by rewrite andb_false_r.
  - rewrite Z.mod_small by lia. replace (c + 128 - 128) with c by lia.
    rewrite (proj2 (Z.leb_le c 0x7A)) by lia. rewrite andb_true_r.
    destruct (Z.leb_spec 0x61 c) as [L|L]; [|done]. f_equal.
    assert (forallb (fun c => Z.lxor c (0x61 - 0x41) =? c - 0x20) (seqZ 0x61 26) = true) as T by reflexivity.
    rewrite forallb_forall in T. apply Z.eqb_eq, T, list_elem_of_In, elem_of_seqZ. lia.
Qed.

(** ** Code page files *)

(** A code page: its number, the largest size of a character, the default characters, the words
    of lead bytes, the WCHARs of the 256 bytes, the glyph table (256 WCHARs or none), the number
    of ranges of lead bytes, for every lead byte the WCHARs of the 256 trail bytes, and the code
    of every WCHAR. *)
Record code_page := mkPage {
  number : Z; char_size : Z; defaults : Z * Z * Z * Z; lead_words : list Z;
  chars : list Z; glyphs : list Z; ranges : Z; rows : list (Z * list Z); codes : list Z
}.

(** The row of a lead byte and its place. *)
Definition row_of (P : code_page) (c : Z) : option (nat * (Z * list Z)) := list_find (fun r => r.1 = c) (rows P).

(** The codes as bytes, two in a USHORT. *)
Fixpoint pack (l : list Z) : list Z :=
  match l with
  | a :: b :: l' => a + b * 2 ^ 8 :: pack l'
  | [a] => [a]
  | [] => []
  end.

(** The table for the lead bytes, then the rows. *)
Definition offsets (P : code_page) : list Z :=
  (fun c => match row_of P c with Some (i, _) => 256 + 256 * Z.of_nat i | None => 0 end) <$> seqZ 0 256.

Definition double_byte (P : code_page) : list Z := offsets P ++ concat ((rows P).*2).

Definition wide_table (P : code_page) : list Z := match rows P with [] => pack (codes P) | _ => codes P end.

Definition tables (P : code_page) : list Z :=
  chars P ++ [Z.of_nat (length (glyphs P))] ++ glyphs P ++ [ranges P] ++
  match rows P with [] => [] | _ => double_byte P end.

(** The file: the header of 13 words, the distance to the table for WCHARs, and the tables. *)
Definition page_file (P : code_page) : list Z :=
  (let '(d1, d2, d3, d4) := defaults P in [13; number P; char_size P; d1; d2; d3; d4]) ++ lead_words P ++
  [Z.of_nat (length (tables P))] ++ tables P ++ wide_table P.

(** A file of USHORTs with tables of the right sizes; the ASCII characters of a double-byte page
    are themselves. *)
Record wf_page (P : code_page) : Prop := {
  page_words : Forall (fun w => 0 <= w < 2 ^ 16) (page_file P);
  page_leads : length (lead_words P) = 6%nat;
  page_chars : length (chars P) = 256%nat;
  page_glyphs : length (glyphs P) = 0%nat \/ length (glyphs P) = 256%nat;
  page_ranges : ranges P = 0 <-> rows P = [];
  page_rows : Forall (fun r => 0x80 <= r.1 < 2 ^ 8 /\ length r.2 = 256%nat) (rows P);
  page_codes : rows P = [] -> Forall (fun c => 0 <= c < 2 ^ 8) (codes P);
  page_ascii : rows P <> [] -> forall c, 0 <= c < 0x80 -> rd (chars P) c = Some c /\ rd (codes P) c = Some c
}.

(** A string of characters that the page has and whose WCHARs it maps back. *)
Inductive page_converts (P : code_page) : list Z -> list Z -> Prop :=
| page_nil : page_converts P [] []
| page_one c w s l : 0 <= c < 2 ^ 8 -> row_of P c = None -> rd (chars P) c = Some w -> rd (codes P) w = Some c ->
    page_converts P s l -> page_converts P (c :: s) (w :: l)
| page_two c t i row w s l : row_of P c = Some (i, (c, row)) -> 0 <= t < 2 ^ 8 -> rd row t = Some w ->
    rd (codes P) w = Some (c * 2 ^ 8 + t) -> page_converts P s l -> page_converts P (c :: t :: s) (w :: l).

Lemma advance_app a b : advance (a ++ b) (Z.of_nat (length a)) = Some b.
Proof.
  unfold advance. rewrite length_app, !(proj2 (Z.leb_le _ _)) by lia. cbn [andb].
  by rewrite Nat2Z.id, drop_app_length.
Qed.

Lemma rd_lookup (l : list Z) i x : rd l i = Some x <-> 0 <= i /\ l !! Z.to_nat i = Some x.
Proof. unfold rd. destruct (Z.leb_spec 0 i); [split; [done|by intros [_ ?]]|split; [done|lia]]. Qed.

Lemma rd_app_l (l k : list Z) i x : rd l i = Some x -> rd (l ++ k) i = Some x.
Proof. rewrite !rd_lookup. intros [? ?]. split; [done|by apply lookup_app_l_Some]. Qed.

Lemma pack_lookup l n a : Forall (fun c => 0 <= c < 2 ^ 8) l ->
  (l !! (2 * n)%nat = Some a -> exists w, pack l !! n = Some w /\ LOBYTE w = a) /\
  (l !! (2 * n + 1)%nat = Some a -> exists w, pack l !! n = Some w /\ HIBYTE w = a).
Proof.
  revert l. induction n as [|n IH]; intros l Hl.
  - destruct l as [|x [|y l]]; [done| |]; cbn [pack lookup list_lookup Nat.mul Nat.add].
    + apply Forall_cons_1 in Hl as [Hx _]. split; [|done]. intros [= ->]. exists a. split; [done|]. by apply byte_small.
    + apply Forall_cons_1 in Hl as [Hx Hl]. apply Forall_cons_1 in Hl as [Hy _].
      destruct (byte_pair y x Hy Hx) as [B1 B2]. rewrite Z.add_comm in B1, B2. split; intros [= <-]; eauto.
  - destruct l as [|x [|y l]].
    + split; intros H; by rewrite lookup_nil in H.
    + split; intros H; apply lookup_lt_Some in H; cbn in H; lia.
    + apply Forall_cons_1 in Hl as [_ Hl]. apply Forall_cons_1 in Hl as [_ Hl]. destruct (IH l Hl) as [I1 I2].
      replace (2 * S n)%nat with (S (S (2 * n))) by lia. exact (conj I1 I2).
Qed.

Lemma byte_of_pack l i a : Forall (fun c => 0 <= c < 2 ^ 8) l -> rd l i = Some a -> byte_of (pack l) i = Some a.
Proof.
  intros Hl [Hi H]%rd_lookup. destruct (Z_of_nat_complete i Hi) as [k ->]. rewrite Nat2Z.id in H. unfold byte_of.
  pose proof (Nat.div_mod_eq k 2) as E. pose proof (Nat.mod_upper_bound k 2 ltac:(lia)) as U.
  destruct (pack_lookup l (k / 2) a Hl) as [I1 I2].
  change 2 with (Z.of_nat 2) at 1. rewrite <- Nat2Z.inj_div. unfold rd. rewrite (proj2 (Z.leb_le _ _)), Nat2Z.id by lia.
  destruct (Z.even (Z.of_nat k)) eqn:Ev.
  - apply Z.even_spec in Ev as [j Ej]. destruct I1 as (w & -> & <-); [rewrite <- H; f_equal; lia|done].
  - rewrite <- Z.negb_odd, negb_false_iff in Ev. apply Z.odd_spec in Ev as [j Ej].
    destruct I2 as (w & -> & <-); [rewrite <- H; f_equal; lia|done].
Qed.

(** The row [i] begins at 256 times [i]. *)
Lemma rows_lookup (rs : list (Z * list Z)) i r t x :
  Forall (fun r => 0x80 <= r.1 < 2 ^ 8 /\ length r.2 = 256%nat) rs ->
  rs !! i = Some r -> r.2 !! t = Some x -> concat (rs.*2) !! (256 * i + t)%nat = Some x.
Proof.
  intros Hr. revert i. induction Hr as [|r0 rs [_ L] Hr IH]; intros i Hi Ht; [by rewrite lookup_nil in Hi|].
  rewrite fmap_cons. cbn [concat]. destruct i as [|i].
  - injection Hi as ->. apply lookup_app_l_Some. by rewrite Nat.mul_0_r.
  - rewrite lookup_app_r by lia. rewrite L. replace (256 * S i + t - 256)%nat with (256 * i + t)%nat by lia. by apply IH.
Qed.

Lemma offsets_rd P c : 0 <= c < 2 ^ 8 ->
  rd (double_byte P) c = Some (match row_of P c with Some (i, _) => 256 + 256 * Z.of_nat i | None => 0 end).
Proof.
  intros Hc. unfold double_byte. apply rd_app_l, rd_lookup. split; [lia|]. unfold offsets. rewrite list_lookup_fmap.
  rewrite (proj2 (lookup_seqZ 0 256 (Z.to_nat c) c)) by lia. done.
Qed.

Lemma double_byte_rd P c i row t w : wf_page P -> row_of P c = Some (i, (c, row)) -> 0 <= t < 2 ^ 8 ->
  rd row t = Some w -> 0x80 <= c < 2 ^ 8 /\ rd (double_byte P) (256 + 256 * Z.of_nat i + t) = Some w.
Proof.
  intros W R Ht [_ Hw]%rd_lookup. apply list_find_Some in R as (Hi & _ & _).
  pose proof (Forall_lookup_1 _ _ _ _ (page_rows P W) Hi) as [Hc _]. split; [done|].
  apply rd_lookup. split; [lia|]. unfold double_byte.
  assert (length (offsets P) = 256%nat) as L by (unfold offsets; by rewrite length_fmap, length_seqZ).
  rewrite lookup_app_r by lia. rewrite L.
  replace (Z.to_nat (256 + 256 * Z.of_nat i + t) - 256)%nat with (256 * i + Z.to_nat t)%nat by lia.
  by apply (rows_lookup _ _ (c, row)); [apply page_rows| |].
Qed.

(** ** Reading a file *)

(** The table of a page starts with the 256 WCHARs, and the lead bytes have theirs. *)
Definition reads_page (P : code_page) (info : CPTABLEINFO) : Prop :=
  CodePage info = number P /\ WideCharTable info = wide_table P /\
  (exists rest, MultiByteTable info = chars P ++ rest) /\
  match rows P with
  | [] => DBCSCodePage info = 0
  | _ => DBCSCodePage info = 1 /\ exists rest, DBCSOffsets info = Some (double_byte P ++ rest)
  end.

Lemma lead_bytes h6 rest d0 d1 d2 d3 d4 d5 d6 : length h6 = 6%nat ->
  exists lb, mapM (fun i => byte_of ([d0; d1; d2; d3; d4; d5; d6] ++ h6 ++ rest) (14 + i)) (seqZ 0 12) = Some lb.
Proof.
  intros L. do 6 (destruct h6 as [|? h6]; [done|]). destruct h6; [|done]. eexists. reflexivity.
Qed.

Lemma RtlInitCodePageTable_file P : wf_page P ->
  exists info, RtlInitCodePageTable (page_file P) = Some info /\ reads_page P info.
Proof.
  intros W. unfold RtlInitCodePageTable, page_file. destruct (defaults P) as [[[d1 d2] d3] d4].
  destruct (lead_bytes (lead_words P) ([Z.of_nat (length (tables P))] ++ tables P ++ wide_table P)
    13 (number P) (char_size P) d1 d2 d3 d4 (page_leads P W)) as [lb Hlb].
  set (f := [13; number P; char_size P; d1; d2; d3; d4] ++ _) in *.
  change (rd f 0) with (Some 13). change (rd f 1) with (Some (number P)). change (rd f 2) with (Some (char_size P)).
  change (rd f 3) with (Some d1). change (rd f 4) with (Some d2). change (rd f 5) with (Some d3).
  change (rd f 6) with (Some d4). cbn [mbind option_bind]. rewrite Hlb. cbn [mbind option_bind]. clear Hlb.
  set (h := [13; number P; char_size P; d1; d2; d3; d4] ++ lead_words P).
  assert (length h = 13%nat) as Lh by (unfold h; rewrite length_app, (page_leads P W); done).
  assert (f = h ++ Z.of_nat (length (tables P)) :: tables P ++ wide_table P) as Ef by (unfold f, h; by rewrite <- app_assoc).
  clearbody h f. subst f. rewrite (rd_at h) by (rewrite Lh; done). cbn [mbind option_bind].
  assert (h ++ Z.of_nat (length (tables P)) :: tables P ++ wide_table P
          = (h ++ [Z.of_nat (length (tables P))]) ++ tables P ++ wide_table P) as -> by (by rewrite <- app_assoc).
  set (g := h ++ [_]). assert (length g = 14%nat) as Lg by (unfold g; rewrite length_app, Lh; done). clearbody g.
  assert (advance (g ++ tables P ++ wide_table P) (13 + 1 + Z.of_nat (length (tables P))) = Some (wide_table P)) as ->.
  { rewrite app_assoc, <- (advance_app (g ++ tables P) (wide_table P)). f_equal. rewrite length_app, Lg. lia. }
  assert (advance (g ++ tables P ++ wide_table P) (13 + 1) = Some (tables P ++ wide_table P)) as ->.
  { rewrite <- (advance_app g (tables P ++ wide_table P)). by rewrite Lg. }
  cbn [mbind option_bind]. unfold tables. rewrite <- !app_assoc. cbn [app]. rewrite (rd_at (chars P)) by (by rewrite (page_chars P W)).
  cbn [mbind option_bind].
  set (more := match rows P with [] => [] | _ => double_byte P end ++ wide_table P).
  assert (advance (chars P ++ Z.of_nat (length (glyphs P)) :: glyphs P ++ ranges P :: more)
    (if Z.of_nat (length (glyphs P)) =? 0 then 256 + 1 else 256 + 1 + 256) = Some (ranges P :: more)) as ->.
  { rewrite <- (advance_app (chars P ++ Z.of_nat (length (glyphs P)) :: glyphs P) (ranges P :: more)).
    rewrite <- app_assoc. cbn [app]. f_equal. rewrite length_app, (page_chars P W). cbn [length].
    destruct (page_glyphs P W) as [-> | ->]; reflexivity. }
  cbn [mbind option_bind]. change (rd (ranges P :: more) 0) with (Some (ranges P)). cbn [mbind option_bind].
  pose proof (page_ranges P W) as [R1 R2]. unfold reads_page. unfold more at 2. destruct (rows P) eqn:Er.
  - rewrite (R2 eq_refl). cbn [Z.eqb negb mbind option_bind]. eexists. split; [done|]. cbn. split_and!; eauto.
  - rewrite (proj2 (Z.eqb_neq _ _)) by (intros ?; by discriminate R1). cbn [negb].
    rewrite (advance_app [ranges P] more : advance (ranges P :: more) 1 = _). cbn. eexists. split; [done|]. cbn. split_and!; eauto.
Qed.

(** The tables that are read convert what the page says. *)
Lemma reads_page_converts P info s l : wf_page P -> reads_page P info -> page_converts P s l ->
  converts (negb (DBCSCodePage info =? 0)) (MultiByteTable info) (WideCharTable info) (DBCSOffsets info) s l.
Proof.
  intros W (_ & Hw & (rest & Hm) & Hr). rewrite Hw, Hm. destruct (rows P) as [|r rs] eqn:Er.
  - rewrite Hr. pose proof (page_codes P W Er) as Hc. unfold wide_table. rewrite Er.
    induction 1 as [|c w s l Hb _ H1 H2 _ IH|c t i row w s l R]; [constructor| |by unfold row_of in R; rewrite Er in R].
    apply converts_byte; [done|by apply rd_app_l|by apply byte_of_pack|done].
  - destruct Hr as [-> (more & ->)]. change (negb (1 =? 0)) with true. unfold wide_table. rewrite Er.
    assert (rows P <> []) as Hne by (by rewrite Er).
    assert (forall c w, 0x80 <= c -> rd (codes P) w = Some c -> 0x80 <= w) as Hhigh.
    { intros c w Hc Hw'. destruct (Z.le_gt_cases 0x80 w) as [|Lt]; [done|].
      pose proof (proj1 (rd_lookup _ _ _) Hw') as [? _].
      destruct (page_ascii P W Hne w) as [_ E]; [lia|]. rewrite E in Hw'. injection Hw' as ->. lia. }
    induction 1 as [|c w s l Hb R H1 H2 _ IH|c t i row w s l R Ht H1 H2 _ IH]; [constructor| |].
    + destruct (Z.lt_ge_cases c 0x80) as [Lt|Ge].
      * destruct (page_ascii P W Hne c) as [E _]; [lia|]. rewrite E in H1. injection H1 as ->. by apply converts_ascii; [|lia|].
      * eapply converts_single; [done|lia|done| |by apply rd_app_l|by eapply Hhigh|done|done].
        apply rd_app_l. rewrite offsets_rd, R by lia. done.
    + destruct (double_byte_rd P c i row t w W R Ht H1) as [Hc Hd].
      eapply converts_double; [done|done|done|done| | |apply rd_app_l, Hd|eapply Hhigh; [|exact H2]; lia|done|done]; [|lia].
      apply rd_app_l. rewrite offsets_rd, R by lia. done.
Qed.

(** The case file: a length, the distance to the lower case table, and the two tables. *)
Definition case_file (upper lower : list Z) : list Z := [0; Z.of_nat (length upper)] ++ upper ++ lower.

Lemma RtlInitNlsTables_files A O upper lower T0 : wf_page A -> wf_page O ->
  exists T, RtlInitNlsTables (Some (page_file A)) (Some (page_file O)) (Some (case_file upper lower)) T0 = Some T /\
    reads_page A (AnsiTableInfo T) /\ reads_page O (OemTableInfo T).
Proof.
  intros WA WO. destruct (RtlInitCodePageTable_file A WA) as (a & Ha & Ra).
  destruct (RtlInitCodePageTable_file O WO) as (o & Ho & Ro).
  unfold RtlInitNlsTables. rewrite Ha, Ho. cbn [mbind option_bind].
  rewrite (advance_app [0; Z.of_nat (length upper)] (upper ++ lower) : advance (case_file upper lower) 2 = _).
  cbn [mbind option_bind]. change (rd (case_file upper lower) 1) with (Some (Z.of_nat (length upper))).
  cbn [mbind option_bind].
  assert (advance (case_file upper lower) (Z.of_nat (length upper) + 2) = Some lower) as ->.
  { unfold case_file. rewrite app_assoc, <- (advance_app ([0; Z.of_nat (length upper)] ++ upper) lower).
    f_equal. rewrite length_app. simpl. lia. }
  eexists. split; [done|]. done.
Qed.

(** C14: from the files to the conversions.  For an ANSI and an OEM code page, each a single-byte or
    a double-byte page, [RtlInitNlsTables] on the three files and [RtlResetRtlTranslations] set
    the numbers of the two pages, and the conversions of either page take every string of
    characters that the page has to their WCHARs and, where the page maps these back, to the same
    bytes again, in all buffers that are large enough. *)
Theorem code_page_file_roundtrip A O upper lower T0 :
  wf_page A -> wf_page O ->
  exists T,
    RtlInitNlsTables (Some (page_file A)) (Some (page_file O)) (Some (case_file upper lower)) T0 = Some T /\
    let N := RtlResetRtlTranslations T in
    RtlGetDefaultCodePage N = (number A, number O) /\
    forall s l UnicodeSize MbSize,
      Z.of_nat (length s) < 2 ^ 31 -> 2 * Z.of_nat (length l) <= UnicodeSize -> Z.of_nat (length s) <= MbSize < 2 ^ 31 ->
      (page_converts A s l ->
       RtlMultiByteToUnicodeN N UnicodeSize s = Some (l, 2 * Z.of_nat (length l)) /\
       RtlUnicodeToMultiByteN N MbSize l = Some (s, Z.of_nat (length s)) /\
       RtlMultiByteToUnicodeSize N s = Some (2 * Z.of_nat (length l)) /\
       RtlUnicodeToMultiByteSize N l = Some (Z.of_nat (length s))) /\
      (page_converts O s l ->
       RtlOemToUnicodeN N UnicodeSize s = Some (l, 2 * Z.of_nat (length l)) /\
       RtlUnicodeToOemN N MbSize l = Some (s, Z.of_nat (length s))).
Proof.
  intros WA WO. destruct (RtlInitNlsTables_files A O upper lower T0 WA WO) as (T & HT & RA & RO).
  exists T. split; [done|]. intros N. split.
  { destruct RA as [EA _], RO as [EO _]. unfold RtlGetDefaultCodePage, N. cbn. by rewrite EA, EO. }
  intros s l UnicodeSize MbSize Hs Hu Hm. split; intros H.
  - apply multi_byte_roundtrip; [|done..]. by apply (reads_page_converts A).
  - apply oem_roundtrip; [|done..]. by apply (reads_page_converts O).
Qed.

Module NlsExample.

(** A single-byte page in which the character [c] is the WCHAR [c], below 256, with glyphs. *)
Definition page_1252 : code_page :=
  mkPage 1252 1 (0x3F, 0x3F, 0x3F, 0x3F) (replicate 6 0) (seqZ 0 256) (seqZ 0 256) 0 [] (seqZ 0 256).

(** A double-byte page with one lead byte, 0x81, with one character behind it, and another
    character of one byte. *)
Definition page_932 : code_page :=
  mkPage 932 2 (0x3F, 0x30FB, 0x3F, 0x30FB) (0x8181 :: replicate 5 0)
    (<[Z.to_nat 0xB1 := 0x100]> (seqZ 0 128 ++ replicate 128 0x3F)) [] 1
    [(0x81, <[Z.to_nat 0x41 := 0x101]> (replicate 256 0x3F))] (seqZ 0 128 ++ replicate 128 0x3F ++ [0xB1; 0x8141]).

Lemma words_dec (b : Z) l : forallb (fun w => (0 <=? w) && (w <? b)) l = true -> Forall (fun w => 0 <= w < b) l.
Proof.
  rewrite forallb_forall, Forall_forall. intros H w Hw. apply H in Hw. apply andb_true_iff in Hw as [H1 H2].
  apply Z.leb_le in H1. apply Z.ltb_lt in H2. done.
Qed.

Lemma page_1252_wf : wf_page page_1252.
Proof.
  split; [by apply words_dec; vm_compute|done..|by right|done|constructor|intros _; by apply words_dec; vm_compute|done].
Qed.

Lemma page_932_wf : wf_page page_932.
Proof.
  split; [by apply words_dec; vm_compute|done..|by left|done| |done|].
  - constructor; [split; [by vm_compute|done]|constructor].
  - intros _ c Hc.
    assert (forallb (fun c => bool_decide (rd (chars page_932) c = Some c /\ rd (codes page_932) c = Some c)) (seqZ 0 128) = true) as T
      by (vm_compute; reflexivity).
    rewrite forallb_forall in T. specialize (T c). apply bool_decide_eq_true in T; [done|].
    apply list_elem_of_In, elem_of_seqZ. lia.
Qed.

Lemma string_1252 : page_converts page_1252 [0x41; 0xE9] [0x41; 0xE9].
Proof. do 2 (apply page_one; [lia|done|vm_compute; reflexivity|vm_compute; reflexivity|]). constructor. Qed.

Lemma string_932 : page_converts page_932 [0x61; 0x81; 0x41; 0xB1] [0x61; 0x101; 0x100].
Proof.
  apply page_one; [lia|done|vm_compute; reflexivity|vm_compute; reflexivity|].
  eapply page_two; [vm_compute; reflexivity|lia|vm_compute; reflexivity|vm_compute; reflexivity|].
  apply page_one; [lia|done|vm_compute; reflexivity|vm_compute; reflexivity|]. constructor.
Qed.

Lemma code_page_file_roundtrip_witness :
  exists T,
    RtlInitNlsTables (Some (page_file page_1252)) (Some (page_file page_932)) (Some (case_file [] []))
      (mkNlsTable (mkCp 0 0 0 0 0 0 0 [] [] [] [] None) (mkCp 0 0 0 0 0 0 0 [] [] [] [] None) [] []) = Some T /\
    let N := RtlResetRtlTranslations T in
    RtlGetDefaultCodePage N = (1252, 932) /\
    RtlMultiByteToUnicodeN N 4 [0x41; 0xE9] = Some ([0x41; 0xE9], 4) /\
    RtlOemToUnicodeN N 8 [0x61; 0x81; 0x41; 0xB1] = Some ([0x61; 0x101; 0x100], 6) /\
    RtlUnicodeToOemN N 9 [0x61; 0x101; 0x100] = Some ([0x61; 0x81; 0x41; 0xB1], 4).
Proof.
  destruct (code_page_file_roundtrip page_1252 page_932 [] []
    (mkNlsTable (mkCp 0 0 0 0 0 0 0 [] [] [] [] None) (mkCp 0 0 0 0 0 0 0 [] [] [] [] None) [] [])
    page_1252_wf page_932_wf) as (T & HT & Hn & Hc).
  exists T. split; [exact HT|]. intros N. split; [exact Hn|].
  destruct (Hc [0x41; 0xE9] [0x41; 0xE9] 4 2) as [HA _]; [done|done|done|].
  destruct (Hc [0x61; 0x81; 0x41; 0xB1] [0x61; 0x101; 0x100] 8 9) as [_ HO]; [done|done|done|].
  split; [apply HA, string_1252|apply HO, string_932].
Defined.

(** A multi-byte code page with one lead byte, 0x81, and one character behind it. *)
Definition multi : NLS :=
  let info := replicate 0x81 0 ++ [0x100] ++ replicate 0x7E 0 ++ replicate 0x41 0x3F ++ [0x101] in
  let wide := replicate 0x100 0x3F ++ [0xB1; 0x8141] in
  mkNls [] [] 932 true (<[Z.to_nat 0xB1 := 0x100]> (replicate 256 0x3F)) wide (Some info)
    932 true [] [] None 0x3F 0x3F.

Lemma multi_byte_roundtrip_witness :
  RtlMultiByteToUnicodeN multi 8 [0x61; 0x81; 0x41; 0xB1] = Some ([0x61; 0x101; 0x100], 6) /\
  RtlUnicodeToMultiByteN multi 9 [0x61; 0x101; 0x100] = Some ([0x61; 0x81; 0x41; 0xB1], 4) /\
  RtlMultiByteToUnicodeSize multi [0x61; 0x81; 0x41; 0xB1] = Some 6 /\
  RtlUnicodeToMultiByteSize multi [0x61; 0x101; 0x100] = Some 4.
Proof.
  apply (multi_byte_roundtrip multi [0x61; 0x81; 0x41; 0xB1] [0x61; 0x101; 0x100] 8 9); [|by vm_compute..].
  unfold ansi. apply converts_ascii; [reflexivity|lia|].
  eapply (converts_double _ _ _ _ 0x81 0x41 0x100); [reflexivity|lia|lia|reflexivity|vm_compute; reflexivity|done|vm_compute; reflexivity|lia|vm_compute; reflexivity|].
  eapply (converts_single _ _ _ _ 0xB1); [reflexivity|lia|reflexivity|vm_compute; reflexivity|vm_compute; reflexivity|lia|vm_compute; reflexivity|].
  apply converts_nil.
Defined.

Lemma trailing_lead_byte_counted_witness : RtlMultiByteToUnicodeN multi 2 [0x81] = Some ([], 2).
Proof.
  eapply (trailing_lead_byte_counted multi _ 0x81 0x100); [reflexivity|reflexivity|lia|vm_compute; reflexivity|done].
Defined.

Lemma upper_char_ascii_only_witness :
  RtlUpperChar multi 0xE9 = Some 0xE9 /\ RtlUpperChar multi 0x61 = Some 0x41.
Proof.
  split; [apply (upper_char_ascii_only multi 0xE9); lia|apply (upper_char_ascii_only multi 0x61); lia].
Defined.

End NlsExample.
