(* ===== verification/Unicode.v ===== *)
(** * Counted strings (sdk/lib/rtl/unicode.c)

    A UNICODE_STRING, or a STRING of bytes, is its two lengths in bytes and the address of its
    characters in byte memory; NULL is the address 0, or [None] for a string that the code
    compares with NULL.  An allocation is that of [ByteAllocator]; a heap knows the size of a
    block that is freed.  The tables of nls.c are the argument [N].  This file holds the
    functions on strings of one kind; the conversions are in [UnicodeConvert], the numbers and
    GUIDs in [UnicodeNumber]. *)

From Stdlib Require Import ZArith Lia Bool.
From stdpp Require Import base option list numbers gmap.
From S2P Require Import Prelude Memory Nls.
Open Scope Z_scope.

Record UNICODE_STRING := mkString { Length : Z; MaximumLength : Z; Buffer : Z }.
Abbreviation STRING := UNICODE_STRING (only parsing).

Definition MAXUSHORT : Z := 0xFFFF.

(** ** The C library *)

(** Both end at the latest when all of the memory has been read. *)
Fixpoint StrLoop (fuel : nat) (m : mem) (p : Z) : option Z :=
  match fuel with
  | O => None
  | S fuel' => c ← ld8 m p; if c =? 0 then Some 0 else n ← StrLoop fuel' m (p + 1); Some (n + 1)
  end.

Fixpoint WcsLoop (fuel : nat) (m : mem) (p : Z) : option Z :=
  match fuel with
  | O => None
  | S fuel' => c ← ld16 m p; if c =? 0 then Some 0 else n ← WcsLoop fuel' m (p + 2); Some (n + 1)
  end.

Definition strlen (m : mem) (p : Z) : option Z := StrLoop (S (size m)) m p.
Definition wcslen (m : mem) (p : Z) : option Z := WcsLoop (S (size m)) m p.

(** The [n] WCHARs at [p], and the bytes of WCHARs. *)
Fixpoint ldw (m : mem) (p : Z) (n : nat) : option (list Z) :=
  match n with
  | O => Some []
  | S n' => c ← ld16 m p; cs ← ldw m (p + 2) n'; Some (c :: cs)
  end.

Definition wide_bytes (cs : list Z) : list Z := concat (map (enc 2) cs).

(** ** Initialisation *)

Definition RtlInitAnsiString (m : mem) (SourceString : Z) : option STRING :=
  if SourceString =? 0 then Some (mkString 0 0 0) else
  Size ← strlen m SourceString;
  let Size := if MAXUSHORT - 1 <? Size then MAXUSHORT - 1 else Size in
  Some (mkString (u16 Size) (u16 (u16 Size + 1)) SourceString).

Definition RtlInitAnsiStringEx (m : mem) (DestinationString : STRING) (SourceString : Z)
    : option (NTSTATUS * STRING) :=
  if SourceString =? 0 then Some (STATUS_SUCCESS, mkString 0 0 0) else
  Size ← strlen m SourceString;
  if MAXUSHORT - 1 <? Size then Some (STATUS_NAME_TOO_LONG, DestinationString) else
  Some (STATUS_SUCCESS, mkString (u16 Size) (u16 (u16 Size + 1)) SourceString).

Definition RtlInitString (m : mem) (SourceString : Z) : option STRING := RtlInitAnsiString m SourceString.

Definition MaxSize : Z := Z.land MAXUSHORT (Z.lnot 1) - 2.

Definition RtlInitUnicodeString (m : mem) (SourceString : Z) : option UNICODE_STRING :=
  if SourceString =? 0 then Some (mkString 0 0 0) else
  n ← wcslen m SourceString;
  let Size := if MaxSize <? n * 2 then MaxSize else n * 2 in
  Some (mkString (u16 Size) (u16 (u16 Size + 2)) SourceString).

Definition RtlInitUnicodeStringEx (m : mem) (DestinationString : UNICODE_STRING) (SourceString : Z)
    : option (NTSTATUS * UNICODE_STRING) :=
  if SourceString =? 0 then Some (STATUS_SUCCESS, mkString 0 0 0) else
  n ← wcslen m SourceString;
  if MaxSize <? n * 2 then Some (STATUS_NAME_TOO_LONG, DestinationString) else
  Some (STATUS_SUCCESS, mkString (u16 (n * 2)) (u16 (u16 (n * 2) + 2)) SourceString).

(** ** Memory of strings *)

(** [size] is the size of the allocation. *)
Definition RtlFreeAnsiString (m : mem) (size : nat) (AnsiString : STRING) : STRING * mem :=
  if Buffer AnsiString =? 0 then (AnsiString, m)
  else (mkString 0 0 0, unmap_bytes size (Buffer AnsiString) m).

Definition RtlFreeOemString (m : mem) (size : nat) (OemString : STRING) : mem :=
  if Buffer OemString =? 0 then m else unmap_bytes size (Buffer OemString) m.

Definition RtlFreeUnicodeString (m : mem) (size : nat) (UnicodeString : UNICODE_STRING) : UNICODE_STRING * mem :=
  if Buffer UnicodeString =? 0 then (UnicodeString, m)
  else (mkString 0 0 0, unmap_bytes size (Buffer UnicodeString) m).

(** [RtlCreateUnicodeString] (unicode.c) on a source of the characters [Source], given
    without the NUL; the result is the BOOLEAN and the destination. *)
Definition RtlCreateUnicodeString `{ByteAllocator} (m : mem) (UniDest : UNICODE_STRING)
    (Source : list Z) : option (bool * UNICODE_STRING * mem) :=
  let Size := 2 * (Z.of_nat (length Source) + 1) in
  if 0xFFFF <? Size then Some (false, UniDest, m) else
  match balloc m Size with
  | None => Some (false, mkString (Length UniDest) (MaximumLength UniDest) 0, m)
  | Some p =>
      let m := map_bytes (Z.to_nat Size) p garbage m in
      m ← store m p (concat (map (enc 2) (Source ++ [0])));
      Some (true, mkString (u16 (u16 Size - 2)) (u16 Size) p, m)
  end.

Definition RTL_DUPLICATE_UNICODE_STRING_NULL_TERMINATE : Z := 1.
Definition RTL_DUPLICATE_UNICODE_STRING_ALLOCATE_NULL_STRING : Z := 2.

Definition RtlDuplicateUnicodeString `{ByteAllocator} (m : mem) (Flags : Z) (SourceString : option UNICODE_STRING)
    (DestinationString : option UNICODE_STRING) : option (NTSTATUS * option UNICODE_STRING * mem) :=
  match SourceString, DestinationString with
  | Some Source, Some Destination =>
      if (MaximumLength Source <? Length Source) ||
         ((Length Source =? 0) && (0 <? MaximumLength Source) && (Buffer Source =? 0)) ||
         (Flags =? RTL_DUPLICATE_UNICODE_STRING_ALLOCATE_NULL_STRING) || (4 <=? Flags)
      then Some (STATUS_INVALID_PARAMETER, DestinationString, m) else
      if (Length Source =? 0) &&
         negb (Flags =? Z.lor RTL_DUPLICATE_UNICODE_STRING_NULL_TERMINATE
                              RTL_DUPLICATE_UNICODE_STRING_ALLOCATE_NULL_STRING)
      then Some (STATUS_SUCCESS, Some (mkString 0 0 0), m) else
      let NullTerminate := negb (Z.land Flags RTL_DUPLICATE_UNICODE_STRING_NULL_TERMINATE =? 0) in
      let DestMaxLength := if NullTerminate then Length Source + 2 else Length Source in
      match balloc m DestMaxLength with
      | None => Some (STATUS_NO_MEMORY, Some (mkString (Length Destination) (MaximumLength Destination) 0), m)
      | Some p =>
          let m := map_bytes (Z.to_nat DestMaxLength) p garbage m in
          m ← RtlCopyMemory m p (Buffer Source) (Length Source);
          m ← (if NullTerminate then st16 m (p + 2 * (Length Source / 2)) 0 else Some m);
          Some (STATUS_SUCCESS, Some (mkString (Length Source) (u16 DestMaxLength) p), m)
      end
  | _, _ => Some (STATUS_INVALID_PARAMETER, DestinationString, m)
  end.

(** ** Copying and appending *)

Definition RtlAppendStringToString (m : mem) (Destination Source : STRING) : option (NTSTATUS * STRING * mem) :=
  let SourceLength := Length Source in
  if negb (SourceLength =? 0) then
    if MaximumLength Destination <? Length Destination + SourceLength
    then Some (STATUS_BUFFER_TOO_SMALL, Destination, m) else
    m ← RtlMoveMemory m (Buffer Destination + Length Destination) (Buffer Source) SourceLength;
    Some (STATUS_SUCCESS, mkString (u16 (Length Destination + SourceLength)) (MaximumLength Destination)
            (Buffer Destination), m)
  else Some (STATUS_SUCCESS, Destination, m).

Definition RtlAppendUnicodeStringToString (m : mem) (Destination Source : UNICODE_STRING)
    : option (NTSTATUS * UNICODE_STRING * mem) :=
  let SourceLength := Length Source in
  let p := Buffer Destination + 2 * (Length Destination / 2) in
  if negb (SourceLength =? 0) then
    if MaximumLength Destination <? SourceLength + Length Destination
    then Some (STATUS_BUFFER_TOO_SMALL, Destination, m) else
    m ← RtlMoveMemory m p (Buffer Source) SourceLength;
    let Length' := u16 (Length Destination + SourceLength) in
    m ← (if Length' <? MaximumLength Destination then st16 m (p + 2 * (SourceLength / 2)) 0 else Some m);
    Some (STATUS_SUCCESS, mkString Length' (MaximumLength Destination) (Buffer Destination), m)
  else Some (STATUS_SUCCESS, Destination, m).

Definition RtlAppendUnicodeToString (m : mem) (Destination : UNICODE_STRING) (Source : Z)
    : option (NTSTATUS * UNICODE_STRING * mem) :=
  if Source =? 0 then Some (STATUS_SUCCESS, Destination, m) else
  UnicodeSource ← RtlInitUnicodeString m Source;
  let Length1 := Length UnicodeSource in
  if MaximumLength Destination <? Length Destination + Length1
  then Some (STATUS_BUFFER_TOO_SMALL, Destination, m) else
  let DestBuffer := Buffer Destination + 2 * (Length Destination / 2) in
  m ← RtlMoveMemory m DestBuffer Source Length1;
  let Length' := u16 (Length Destination + Length1) in
  m ← (if Length' <? MaximumLength Destination then st16 m (DestBuffer + 2 * (Length1 / 2)) 0 else Some m);
  Some (STATUS_SUCCESS, mkString Length' (MaximumLength Destination) (Buffer Destination), m).

Definition RtlAppendAsciizToString (m : mem) (Destination : STRING) (Source : Z)
    : option (NTSTATUS * STRING * mem) :=
  if Source =? 0 then Some (STATUS_SUCCESS, Destination, m) else
  Size ← strlen m Source;
  if MaximumLength Destination <? Length Destination + Size
  then Some (STATUS_BUFFER_TOO_SMALL, Destination, m) else
  m ← RtlMoveMemory m (Buffer Destination + Length Destination) Source Size;
  Some (STATUS_SUCCESS, mkString (u16 (Length Destination + u16 Size)) (MaximumLength Destination)
          (Buffer Destination), m).

(** [while (SourceLength)]. *)
Fixpoint CopyChars (n : nat) (m : mem) (p1 p2 : Z) : option mem :=
  match n with
  | O => Some m
  | S n' => c ← ld8 m p2; m ← st8 m p1 c; CopyChars n' m (p1 + 1) (p2 + 1)
  end.

Definition RtlCopyString (m : mem) (DestinationString : STRING) (SourceString : option STRING)
    : option (STRING * mem) :=
  match SourceString with
  | None => Some (mkString 0 (MaximumLength DestinationString) (Buffer DestinationString), m)
  | Some Source =>
      let SourceLength := Z.min (MaximumLength DestinationString) (Length Source) in
      m ← CopyChars (Z.to_nat SourceLength) m (Buffer DestinationString) (Buffer Source);
      Some (mkString SourceLength (MaximumLength DestinationString) (Buffer DestinationString), m)
  end.

Definition RtlCopyUnicodeString (m : mem) (DestinationString : UNICODE_STRING) (SourceString : option UNICODE_STRING)
    : option (UNICODE_STRING * mem) :=
  match SourceString with
  | None => Some (mkString 0 (MaximumLength DestinationString) (Buffer DestinationString), m)
  | Some Source =>
      let SourceLength := Z.min (MaximumLength DestinationString) (Length Source) in
      m ← RtlCopyMemory m (Buffer DestinationString) (Buffer Source) SourceLength;
      m ← (if SourceLength <? MaximumLength DestinationString
           then st16 m (Buffer DestinationString + 2 * (SourceLength / 2)) 0 else Some m);
      Some (mkString SourceLength (MaximumLength DestinationString) (Buffer DestinationString), m)
  end.

Definition RtlEraseUnicodeString (m : mem) (String : UNICODE_STRING) : option (UNICODE_STRING * mem) :=
  if negb (Buffer String =? 0) && negb (MaximumLength String =? 0) then
    m ← RtlZeroMemory m (Buffer String) (MaximumLength String);
    Some (mkString 0 (MaximumLength String) (Buffer String), m)
  else Some (String, m).

Definition RtlValidateUnicodeString (DBG : bool) (Flags : Z) (UnicodeString : option UNICODE_STRING) : option NTSTATUS :=
  _ ← checked DBG (Flags =? 0);
  Some (if (Flags =? 0) &&
     match UnicodeString with
     | None => true
     | Some s => negb (Length s =? 0) && negb (Buffer s =? 0) && (Length s mod 2 =? 0) &&
                 (MaximumLength s mod 2 =? 0) && (Length s <=? MaximumLength s)
     end
  then STATUS_SUCCESS else STATUS_INVALID_PARAMETER).

(** The members of RTL_BUFFER that are used. *)
Record RTL_BUFFER := mkBuffer { BufferPtr : Z; StaticBuffer : Z; Size : Z; StaticSize : Z }.

Definition RTL_SKIP_BUFFER_COPY : Z := 1.

(** [old] is the size of the allocation that [Buffer->Buffer] points to. *)
Definition RtlpEnsureBufferSize `{ByteAllocator} (m : mem) (old : nat) (Flags : Z) (Buffer : option RTL_BUFFER)
    (RequiredSize : Z) : option (NTSTATUS * option RTL_BUFFER * mem) :=
  if negb (Z.land Flags (not32 RTL_SKIP_BUFFER_COPY) =? 0) then Some (STATUS_INVALID_PARAMETER, Buffer, m) else
  match Buffer with
  | None => Some (STATUS_INVALID_PARAMETER, Buffer, m)
  | Some b =>
      if RequiredSize <=? Size b then Some (STATUS_SUCCESS, Buffer, m) else
      if (BufferPtr b =? StaticBuffer b) && (RequiredSize <=? StaticSize b)
      then Some (STATUS_SUCCESS, Some (mkBuffer (BufferPtr b) (StaticBuffer b) RequiredSize (StaticSize b)), m) else
      match balloc m RequiredSize with
      | None => Some (STATUS_NO_MEMORY, Buffer, m)
      | Some NewBuffer =>
          let m := map_bytes (Z.to_nat RequiredSize) NewBuffer garbage m in
          m ← (if Z.land Flags RTL_SKIP_BUFFER_COPY =? 0
               then RtlMoveMemory m NewBuffer (BufferPtr b) (Size b) else Some m);
          let m := if BufferPtr b =? StaticBuffer b then m else unmap_bytes old (BufferPtr b) m in
          Some (STATUS_SUCCESS, Some (mkBuffer NewBuffer (StaticBuffer b) RequiredSize (StaticSize b)), m)
      end
  end.

Section Nls.

Variable N : NLS.

(** ** Comparing *)

(** [while (!ret && len--)]; [f] is applied to the characters first. *)
Fixpoint CompareLoop (f : Z -> option Z) (n : nat) (m : mem) (p1 p2 : Z) : option Z :=
  match n with
  | O => Some 0
  | S n' =>
      a ← ld8 m p1; b ← ld8 m p2; a ← f a; b ← f b;
      let ret := s8 a - s8 b in
      if ret =? 0 then CompareLoop f n' m (p1 + 1) (p2 + 1) else Some ret
  end.

Definition RtlCompareString (m : mem) (s1 s2 : STRING) (CaseInsensitive : bool) : option Z :=
  let len := Z.min (Length s1) (Length s2) in
  ret ← CompareLoop (if CaseInsensitive then RtlUpperChar N else Some) (Z.to_nat len) m (Buffer s1) (Buffer s2);
  Some (if ret =? 0 then Length s1 - Length s2 else ret).

Definition RtlEqualString (m : mem) (s1 s2 : STRING) (CaseInsensitive : bool) : option bool :=
  if negb (Length s1 =? Length s2) then Some false else
  ret ← RtlCompareString m s1 s2 CaseInsensitive; Some (ret =? 0).

Fixpoint CompareUnicodeLoop (f : Z -> option Z) (n : nat) (m : mem) (p1 p2 : Z) : option Z :=
  match n with
  | O => Some 0
  | S n' =>
      a ← ld16 m p1; b ← ld16 m p2; a ← f a; b ← f b;
      let ret := a - b in
      if ret =? 0 then CompareUnicodeLoop f n' m (p1 + 2) (p2 + 2) else Some ret
  end.

Definition RtlCompareUnicodeString (m : mem) (s1 s2 : UNICODE_STRING) (CaseInsensitive : bool) : option Z :=
  let len := Z.min (Length s1) (Length s2) / 2 in
  ret ← CompareUnicodeLoop (if CaseInsensitive then RtlpUpcaseUnicodeChar N else Some) (Z.to_nat len) m
          (Buffer s1) (Buffer s2);
  Some (if ret =? 0 then Length s1 - Length s2 else ret).

Definition RtlEqualUnicodeString (m : mem) (s1 s2 : UNICODE_STRING) (CaseInsensitive : bool) : option bool :=
  if negb (Length s1 =? Length s2) then Some false else
  ret ← RtlCompareUnicodeString m s1 s2 CaseInsensitive; Some (ret =? 0).

(** [while (NumChars--)]. *)
Fixpoint PrefixChars (f : Z -> option Z) (ld : mem -> Z -> option Z) (width : Z) (n : nat) (m : mem) (pc1 pc2 : Z)
    : option bool :=
  match n with
  | O => Some true
  | S n' =>
      a ← ld m pc1; b ← ld m pc2; a ← f a; b ← f b;
      if negb (a =? b) then Some false else PrefixChars f ld width n' m (pc1 + width) (pc2 + width)
  end.

Definition RtlPrefixString (m : mem) (String1 String2 : STRING) (CaseInsensitive : bool) : option bool :=
  if Length String2 <? Length String1 then Some false else
  if negb (Buffer String1 =? 0) && negb (Buffer String2 =? 0) then
    PrefixChars (if CaseInsensitive then RtlUpperChar N else Some) ld8 1 (Z.to_nat (Length String1)) m
      (Buffer String1) (Buffer String2)
  else Some false.

Definition RtlPrefixUnicodeString (m : mem) (String1 String2 : UNICODE_STRING) (CaseInsensitive : bool) : option bool :=
  if Length String2 <? Length String1 then Some false else
  if negb (Buffer String1 =? 0) && negb (Buffer String2 =? 0) then
    PrefixChars (if CaseInsensitive then RtlpUpcaseUnicodeChar N else Some) ld16 2
      (Z.to_nat (Length String1 / 2)) m (Buffer String1) (Buffer String2)
  else Some false.

Definition HASH_STRING_ALGORITHM_DEFAULT : Z := 0.
Definition HASH_STRING_ALGORITHM_X65599 : Z := 1.

Fixpoint HashChars (upper : bool) (n : nat) (m : mem) (c HashValue : Z) : option Z :=
  match n with
  | O => Some HashValue
  | S n' =>
      w ← ld16 m c;
      let w := if upper && (0x61 <=? w) && (w <=? 0x7A) then w - 0x61 + 0x41 else w in
      HashChars upper n' m (c + 2) (u32 (u32 (65599 * HashValue) + w))
  end.

(** [store] says that [HashValue] is not NULL; [None] for a value that is not stored. *)
Definition RtlHashUnicodeString (m : mem) (String : option UNICODE_STRING) (CaseInSensitive : bool)
    (HashAlgorithm : Z) (store : bool) : option (NTSTATUS * option Z) :=
  match String with
  | Some s =>
      if store && ((HashAlgorithm =? HASH_STRING_ALGORITHM_DEFAULT) || (HashAlgorithm =? HASH_STRING_ALGORITHM_X65599))
      then h ← HashChars CaseInSensitive (Z.to_nat (Length s / 2)) m (Buffer s) 0; Some (STATUS_SUCCESS, Some h)
      else Some (STATUS_INVALID_PARAMETER, None)
  | None => Some (STATUS_INVALID_PARAMETER, None)
  end.

(** ** Case *)

Fixpoint CaseLoop (f : Z -> option Z) (n : nat) (m : mem) (Dest Source : Z) : option mem :=
  match n with
  | O => Some m
  | S n' =>
      c ← ld16 m Source; c ← f c; m ← st16 m Dest c;
      CaseLoop f n' m (Dest + 2) (Source + 2)
  end.

Definition RtlUpcaseUnicodeString `{ByteAllocator} (m : mem) (UniDest UniSource : UNICODE_STRING)
    (AllocateDestinationString : bool) : option (NTSTATUS * UNICODE_STRING * mem) :=
  if AllocateDestinationString then
    match balloc m (Length UniSource) with
    | None => Some (STATUS_NO_MEMORY, mkString (Length UniDest) (Length UniSource) 0, m)
    | Some p =>
        let m := map_bytes (Z.to_nat (Length UniSource)) p garbage m in
        m ← CaseLoop (RtlpUpcaseUnicodeChar N) (Z.to_nat (Length UniSource / 2)) m p (Buffer UniSource);
        Some (STATUS_SUCCESS, mkString (Length UniSource) (Length UniSource) p, m)
    end
  else if MaximumLength UniDest <? Length UniSource then Some (STATUS_BUFFER_OVERFLOW, UniDest, m) else
  m ← CaseLoop (RtlpUpcaseUnicodeChar N) (Z.to_nat (Length UniSource / 2)) m (Buffer UniDest) (Buffer UniSource);
  Some (STATUS_SUCCESS, mkString (Length UniSource) (MaximumLength UniDest) (Buffer UniDest), m).

(** The loop has its own test for the letters A to Z. *)
Definition DowncaseChar (c : Z) : option Z :=
  if c <? 0x41 then Some c else
  if c <=? 0x5A then Some (u16 (c + (0x61 - 0x41))) else RtlpDowncaseUnicodeChar N c.

Definition RtlDowncaseUnicodeString `{ByteAllocator} (m : mem) (UniDest UniSource : UNICODE_STRING)
    (AllocateDestinationString : bool) : option (NTSTATUS * UNICODE_STRING * mem) :=
  if AllocateDestinationString then
    match balloc m (Length UniSource) with
    | None => Some (STATUS_NO_MEMORY, mkString (Length UniDest) (Length UniSource) 0, m)
    | Some p =>
        let m := map_bytes (Z.to_nat (Length UniSource)) p garbage m in
        m ← CaseLoop DowncaseChar (Z.to_nat (Length UniSource / 2)) m p (Buffer UniSource);
        Some (STATUS_SUCCESS, mkString (Length UniSource) (Length UniSource) p, m)
    end
  else if MaximumLength UniDest <? Length UniSource then Some (STATUS_BUFFER_OVERFLOW, UniDest, m) else
  m ← CaseLoop DowncaseChar (Z.to_nat (Length UniSource / 2)) m (Buffer UniDest) (Buffer UniSource);
  Some (STATUS_SUCCESS, mkString (Length UniSource) (MaximumLength UniDest) (Buffer UniDest), m).

Fixpoint UpperLoop (n : nat) (m : mem) (Dest Src : Z) : option mem :=
  match n with
  | O => Some m
  | S n' => c ← ld8 m Src; c ← RtlUpperChar N c; m ← st8 m Dest c; UpperLoop n' m (Dest + 1) (Src + 1)
  end.

Definition RtlUpperString (m : mem) (DestinationString SourceString : STRING) : option (STRING * mem) :=
  let Length1 := Z.min (Length SourceString) (MaximumLength DestinationString) in
  m ← UpperLoop (Z.to_nat Length1) m (Buffer DestinationString) (Buffer SourceString);
  Some (mkString Length1 (MaximumLength DestinationString) (Buffer DestinationString), m).

(** ** Searching *)

(** [for (i = 0; i < MatchString->Length / sizeof(WCHAR); i++)]. *)
Fixpoint MatchCharLoop (CaseInSensitive : bool) (n : nat) (m : mem) (p Char : Z) : option bool :=
  match n with
  | O => Some false
  | S n' =>
      OtherChar ← ld16 m p;
      OtherChar ← (if CaseInSensitive then RtlpUpcaseUnicodeChar N OtherChar else Some OtherChar);
      if Char =? OtherChar then Some true else MatchCharLoop CaseInSensitive n' m (p + 2) Char
  end.

Definition RtlpIsCharInUnicodeString (m : mem) (Char : Z) (MatchString : UNICODE_STRING) (CaseInSensitive : bool)
    : option bool :=
  Char ← (if CaseInSensitive then RtlpUpcaseUnicodeChar N Char else Some Char);
  MatchCharLoop CaseInSensitive (Z.to_nat (Length MatchString / 2)) m (Buffer MatchString) Char.

Definition RTL_FIND_CHAR_IN_UNICODE_STRING_START_AT_END : Z := 1.
Definition RTL_FIND_CHAR_IN_UNICODE_STRING_COMPLEMENT_CHAR_SET : Z := 2.
Definition RTL_FIND_CHAR_IN_UNICODE_STRING_CASE_INSENSITIVE : Z := 4.

(** [for (i = Length - 1; (SHORT)i >= 0; i--)], with the position of the character. *)
Fixpoint FindBackward (fuel : nat) (m : mem) (Search Match : UNICODE_STRING) (Want Case : bool) (i : Z)
    : option (option Z) :=
  if 0 <=? s16 i then
    match fuel with
    | O => None
    | S fuel' =>
        c ← ld16 m (Buffer Search + 2 * i);
        Found ← RtlpIsCharInUnicodeString m c Match Case;
        if Bool.eqb Found Want then Some (Some (u16 (i * 2))) else FindBackward fuel' m Search Match Want Case (u16 (i - 1))
    end
  else Some None.

(** [for (i = 0; i < Length; i++)], with the position behind the character. *)
Fixpoint FindForward (fuel : nat) (m : mem) (Search Match : UNICODE_STRING) (Want Case : bool) (i : Z)
    : option (option Z) :=
  if i <? Length Search / 2 then
    match fuel with
    | O => None
    | S fuel' =>
        c ← ld16 m (Buffer Search + 2 * i);
        Found ← RtlpIsCharInUnicodeString m c Match Case;
        if Bool.eqb Found Want then Some (Some (u16 ((i + 1) * 2))) else FindForward fuel' m Search Match Want Case (u16 (i + 1))
    end
  else Some None.

(** [store] says that [Position] is not NULL; the result is the status and [*Position]. *)
Definition RtlFindCharInUnicodeString (m : mem) (Flags : Z) (SearchString MatchString : UNICODE_STRING) (store : bool)
    : option (NTSTATUS * option Z) :=
  let WantToFind := Z.land Flags RTL_FIND_CHAR_IN_UNICODE_STRING_COMPLEMENT_CHAR_SET =? 0 in
  let CaseInSensitive := negb (Z.land Flags RTL_FIND_CHAR_IN_UNICODE_STRING_CASE_INSENSITIVE =? 0) in
  if negb store then Some (STATUS_INVALID_PARAMETER, None) else
  if negb (Z.land Flags (not32 7) =? 0) then Some (STATUS_INVALID_PARAMETER, Some 0) else
  let Length1 := Length SearchString / 2 in
  r ← (if negb (Z.land Flags RTL_FIND_CHAR_IN_UNICODE_STRING_START_AT_END =? 0)
       then FindBackward (S (Z.to_nat Length1)) m SearchString MatchString WantToFind CaseInSensitive (u16 (Length1 - 1))
       else FindForward (S (Z.to_nat Length1)) m SearchString MatchString WantToFind CaseInSensitive 0);
  match r with
  | Some Position => Some (STATUS_SUCCESS, Some Position)
  | None => Some (STATUS_NOT_FOUND, Some 0)
  end.

End Nls.
