(* ===== verification/UnicodeConvert.v ===== *)
(** * Conversions of counted strings (sdk/lib/rtl/unicode.c)

    The functions that convert between UNICODE_STRINGs and strings in the ANSI or the OEM code
    page, and what is built from them.  The status of a conversion of nls.c is always
    STATUS_SUCCESS, so that the branches for its failure do not occur.  In the checked build
    ([DBG]) an assertion that does not hold is a fault. *)

From Stdlib Require Import ZArith Lia Bool.
From stdpp Require Import base option list numbers gmap.
From S2P Require Import Prelude Memory Nls Unicode.
Open Scope Z_scope.

(** The bytes of a string, and its WCHARs. *)
Definition bytes_of (m : mem) (s : STRING) : option (list Z) := load m (Buffer s) (Z.to_nat (Length s)).
Definition chars_of (m : mem) (s : UNICODE_STRING) : option (list Z) := ldw m (Buffer s) (Z.to_nat (Length s / 2)).

Section Convert.

Variables (N : NLS) (DBG : bool).

(** ** Sizes, with the terminating NUL *)

Definition RtlxAnsiStringToUnicodeSize (m : mem) (AnsiString : STRING) : option Z :=
  s ← bytes_of m AnsiString; Size ← RtlMultiByteToUnicodeSize N s; Some (u32 (Size + 2)).

Definition RtlxUnicodeStringToAnsiSize (m : mem) (UnicodeString : UNICODE_STRING) : option Z :=
  _ ← checked DBG (Z.even (Length UnicodeString));
  s ← chars_of m UnicodeString; Size ← RtlUnicodeToMultiByteSize N s; Some (u32 (Size + 1)).

(** The sizes for OEM strings come from the ANSI code page. *)
Definition RtlxUnicodeStringToOemSize (m : mem) (UnicodeString : UNICODE_STRING) : option Z :=
  s ← chars_of m UnicodeString; Size ← RtlUnicodeToMultiByteSize N s; Some (u32 (Size + 1)).

Definition RtlxOemStringToUnicodeSize (m : mem) (OemString : STRING) : option Z :=
  s ← bytes_of m OemString; Size ← RtlMultiByteToUnicodeSize N s; Some (u32 (Size + 2)).

(** The macros of rtlfuncs.h. *)
Definition RtlUnicodeStringToAnsiSize (m : mem) (String : UNICODE_STRING) : option Z :=
  if NlsMbCodePageTag N then RtlxUnicodeStringToAnsiSize m String else Some ((Length String + 2) / 2).

Definition RtlUnicodeStringToOemSize (m : mem) (String : UNICODE_STRING) : option Z :=
  if NlsMbOemCodePageTag N then RtlxUnicodeStringToOemSize m String else Some ((Length String + 2) / 2).

Definition RtlUnicodeStringToCountedOemSize (m : mem) (String : UNICODE_STRING) : option Z :=
  n ← RtlUnicodeStringToOemSize m String; Some (u32 (n - 1)).

Definition RtlOemStringToUnicodeSize (m : mem) (String : STRING) : option Z :=
  if NlsMbOemCodePageTag N then RtlxOemStringToUnicodeSize m String else Some ((Length String + 1) * 2).

Definition RtlOemStringToCountedUnicodeSize (m : mem) (String : STRING) : option Z :=
  n ← RtlOemStringToUnicodeSize m String; Some (u32 (n - 2)).

(** ** The destination *)

(** The destination of [Size] bytes, with the length [Length1]: allocated, or checked against
    its maximum by [room].  [Some] is the status of a failure, with the string. *)
Definition Destination `{ByteAllocator} (m : mem) (Dest : STRING) (Size Length1 : Z) (Allocate : bool)
    (room : Z -> Z -> bool) : (NTSTATUS * STRING + STRING) * mem :=
  if Allocate then
    match balloc m Size with
    | None => (inl (STATUS_NO_MEMORY, mkString Length1 (u16 Size) 0), m)
    | Some p => (inr (mkString Length1 (u16 Size) p), map_bytes (Z.to_nat Size) p garbage m)
    end
  else
    let Dest := mkString Length1 (MaximumLength Dest) (Buffer Dest) in
    if room Length1 (MaximumLength Dest) then (inr Dest, m) else (inl (STATUS_BUFFER_OVERFLOW, Dest), m).

(** ** ANSI strings *)

Definition RtlAnsiCharToUnicodeChar (m : mem) (AnsiChar : Z) : option (Z * Z) :=
  Size ← match NlsLeadByteInfo N with
         | Some Info => c ← ld8 m AnsiChar; Lead ← rd Info c; Some (if Lead =? 0 then 1 else 2)
         | None => Some 1
         end;
  s ← load m AnsiChar (Z.to_nat Size);
  '(l, _) ← RtlMultiByteToUnicodeN N 2 s;
  Some (match l with UnicodeChar :: _ => UnicodeChar | [] => 0x20 end, AnsiChar + Size).

Definition RtlAnsiStringToUnicodeString `{ByteAllocator} (m : mem) (UniDest : UNICODE_STRING) (AnsiSource : STRING)
    (AllocateDestinationString : bool) : option (NTSTATUS * UNICODE_STRING * mem) :=
  Size ← (if negb (NlsMbCodePageTag N) then Some (Length AnsiSource * 2 + 2)
          else RtlxAnsiStringToUnicodeSize m AnsiSource);
  if MAXUSHORT <? Size then Some (STATUS_INVALID_PARAMETER_2, UniDest, m) else
  match Destination m UniDest Size (u16 (u16 Size - 2)) AllocateDestinationString Z.ltb with
  | (inl (Status, UniDest), m) => Some (Status, UniDest, m)
  | (inr UniDest, m) =>
      _ ← checked DBG (Z.even (MaximumLength UniDest) && (Length UniDest <=? MaximumLength UniDest));
      s ← bytes_of m AnsiSource;
      '(l, Index) ← RtlMultiByteToUnicodeN N (Length UniDest) s;
      m ← store m (Buffer UniDest) (wide_bytes l);
      m ← st16 m (Buffer UniDest + 2 * (Index / 2)) 0;
      Some (STATUS_SUCCESS, UniDest, m)
  end.

Definition RtlUnicodeStringToAnsiString `{ByteAllocator} (m : mem) (AnsiDest : STRING) (UniSource : UNICODE_STRING)
    (AllocateDestinationString : bool) : option (NTSTATUS * STRING * mem) :=
  _ ← checked DBG (Z.even (Length UniSource));
  Size ← (if negb (NlsMbCodePageTag N) then Some ((Length UniSource + 2) / 2)
          else RtlxUnicodeStringToAnsiSize m UniSource);
  if MAXUSHORT <? Size then Some (STATUS_INVALID_PARAMETER_2, AnsiDest, m) else
  let Length1 := u16 (u16 Size - 1) in
  '(dest, m) ←
    (if AllocateDestinationString then
       match Destination m AnsiDest Size Length1 true Z.ltb with
       | (inl failure, m) => Some (inl failure, m)
       | (inr AnsiDest, m) => Some (inr (STATUS_SUCCESS, AnsiDest), m)
       end
     else if MaximumLength AnsiDest <=? Length1 then
       if MaximumLength AnsiDest =? 0
       then Some (inl (STATUS_BUFFER_OVERFLOW, mkString Length1 (MaximumLength AnsiDest) (Buffer AnsiDest)), m)
       else Some (inr (STATUS_BUFFER_OVERFLOW,
                       mkString (MaximumLength AnsiDest - 1) (MaximumLength AnsiDest) (Buffer AnsiDest)), m)
     else Some (inr (STATUS_SUCCESS, mkString Length1 (MaximumLength AnsiDest) (Buffer AnsiDest)), m));
  match dest with
  | inl (Status, AnsiDest) => Some (Status, AnsiDest, m)
  | inr (Status, AnsiDest) =>
      s ← chars_of m UniSource;
      '(l, Index) ← RtlUnicodeToMultiByteN N (Length AnsiDest) s;
      m ← store m (Buffer AnsiDest) l;
      m ← st8 m (Buffer AnsiDest + Index) 0;
      Some (Status, AnsiDest, m)
  end.

(** A destination that is too small is refused only if it is empty.  In a multi-byte code page
    [Index] is not set. *)
Definition RtlUpcaseUnicodeStringToAnsiString `{ByteAllocator} (m : mem) (AnsiDest : STRING) (UniSource : UNICODE_STRING)
    (AllocateDestinationString : bool) : option (NTSTATUS * STRING * mem) :=
  Size ← RtlUnicodeStringToAnsiSize m UniSource;
  if MAXUSHORT <? Size then Some (STATUS_INVALID_PARAMETER_2, AnsiDest, m) else
  match Destination m AnsiDest Size (u16 (u16 Size - 1)) AllocateDestinationString
          (fun Length1 Maximum => (Length1 <? Maximum) || negb (Maximum =? 0)) with
  | (inl (Status, AnsiDest), m) => Some (Status, AnsiDest, m)
  | (inr AnsiDest, m) =>
      s ← chars_of m UniSource;
      '(l, Result) ← RtlUpcaseUnicodeToMultiByteN N (Length AnsiDest) s;
      Index ← Result;
      m ← store m (Buffer AnsiDest) l;
      m ← st8 m (Buffer AnsiDest + Index) 0;
      Some (STATUS_SUCCESS, AnsiDest, m)
  end.

Definition RtlCreateUnicodeStringFromAsciiz `{ByteAllocator} (m : mem) (UniDest : UNICODE_STRING) (Source : Z)
    : option (bool * UNICODE_STRING * mem) :=
  AnsiString ← RtlInitAnsiString m Source;
  '(Status, UniDest, m) ← RtlAnsiStringToUnicodeString m UniDest AnsiString true;
  Some (NT_SUCCESS Status, UniDest, m).

(** ** OEM strings *)

(** [while (i < OemString->Length)]; the characters of the two strings are compared with the
    default characters.  A CHAR is signed. *)
Fixpoint DefaultLoop (n : nat) (m : mem) (Oem Uni : Z) : option bool :=
  match n with
  | O => Some true
  | S n' =>
      c ← ld8 m Oem;
      bad ← (if s8 c =? NlsOemDefaultChar N
             then w ← ld16 m Uni; Some (negb (w =? NlsUnicodeDefaultChar N)) else Some false);
      if (bad : bool) then Some false else DefaultLoop n' m (Oem + 1) (Uni + 2)
  end.

Definition RtlpDidUnicodeToOemWork (m : mem) (UnicodeString : UNICODE_STRING) (OemString : STRING) : option bool :=
  if negb (NlsMbOemCodePageTag N)
  then DefaultLoop (Z.to_nat (Length OemString)) m (Buffer OemString) (Buffer UnicodeString)
  else Some true.

(** The result is the BOOLEAN and [*Char]. *)
Definition RtlIsValidOemCharacter (Char : Z) : option (bool * Z) :=
  '(UnicodeChar, OemChar) ←
    (if NlsMbOemCodePageTag N then
       OemChar ← rd (NlsUnicodeToMbOemTable N) Char;
       Info ← NlsOemLeadByteInfo N;
       Offset ← rd Info (HIBYTE OemChar);
       w ← rd (NlsOemToUnicodeTable N) (LOBYTE OemChar + Offset);
       UnicodeChar ← RtlpUpcaseUnicodeChar N w;
       OemChar ← rd (NlsUnicodeToMbOemTable N) UnicodeChar;
       Some (UnicodeChar, OemChar)
     else
       c ← byte_of (NlsUnicodeToMbOemTable N) Char;
       w ← rd (NlsOemToUnicodeTable N) c;
       UnicodeChar ← RtlpUpcaseUnicodeChar N w;
       OemChar ← byte_of (NlsUnicodeToMbOemTable N) UnicodeChar;
       Some (UnicodeChar, u16 (s8 OemChar)));
  if OemChar =? NlsOemDefaultChar N then Some (false, Char) else Some (true, UnicodeChar).

Definition RtlOemStringToUnicodeString `{ByteAllocator} (m : mem) (UniDest : UNICODE_STRING) (OemSource : STRING)
    (AllocateDestinationString : bool) : option (NTSTATUS * UNICODE_STRING * mem) :=
  Size ← RtlOemStringToUnicodeSize m OemSource;
  if MAXUSHORT <? Size then Some (STATUS_INVALID_PARAMETER_2, UniDest, m) else
  match Destination m UniDest Size (u16 (u16 Size - 2)) AllocateDestinationString Z.ltb with
  | (inl (Status, UniDest), m) => Some (Status, UniDest, m)
  | (inr UniDest, m) =>
      s ← bytes_of m OemSource;
      '(l, Index) ← RtlOemToUnicodeN N (Length UniDest) s;
      m ← store m (Buffer UniDest) (wide_bytes l);
      m ← st16 m (Buffer UniDest + 2 * (Index / 2)) 0;
      Some (STATUS_SUCCESS, UniDest, m)
  end.

Definition RtlOemStringToCountedUnicodeString `{ByteAllocator} (m : mem) (UniDest : UNICODE_STRING) (OemSource : STRING)
    (AllocateDestinationString : bool) : option (NTSTATUS * UNICODE_STRING * mem) :=
  Size ← RtlOemStringToCountedUnicodeSize m OemSource;
  if Size =? 0 then Some (STATUS_SUCCESS, mkString 0 0 0, m) else
  if MAXUSHORT <? Size then Some (STATUS_INVALID_PARAMETER_2, UniDest, m) else
  match Destination m UniDest Size (u16 Size) AllocateDestinationString Z.leb with
  | (inl (Status, UniDest), m) => Some (Status, UniDest, m)
  | (inr UniDest, m) =>
      s ← bytes_of m OemSource;
      '(l, _) ← RtlOemToUnicodeN N (Length UniDest) s;
      m ← store m (Buffer UniDest) (wide_bytes l);
      Some (STATUS_SUCCESS, UniDest, m)
  end.

Definition RtlUnicodeStringToOemString `{ByteAllocator} (m : mem) (OemDest : STRING) (UniSource : UNICODE_STRING)
    (AllocateDestinationString : bool) : option (NTSTATUS * STRING * mem) :=
  Size ← RtlUnicodeStringToOemSize m UniSource;
  if MAXUSHORT <? Size then Some (STATUS_INVALID_PARAMETER_2, OemDest, m) else
  match Destination m OemDest Size (u16 (u16 Size - 1)) AllocateDestinationString Z.ltb with
  | (inl (Status, OemDest), m) => Some (Status, OemDest, m)
  | (inr OemDest, m) =>
      s ← chars_of m UniSource;
      '(l, Index) ← RtlUnicodeToOemN N (Length OemDest) s;
      m ← store m (Buffer OemDest) l;
      m ← st8 m (Buffer OemDest + Index) 0;
      Some (STATUS_SUCCESS, OemDest, m)
  end.

(** What the last three have in common after the conversion: the check for characters that could
    not be converted, and the memory that is freed if there are any. *)
Definition CheckUnmapped (m : mem) (UniSource : UNICODE_STRING) (OemDest : STRING) (Size : Z) (Allocated : bool)
    : option (NTSTATUS * STRING * mem) :=
  ok ← RtlpDidUnicodeToOemWork m UniSource OemDest;
  if (ok : bool) then Some (STATUS_SUCCESS, OemDest, m) else
  if Allocated
  then Some (STATUS_UNMAPPABLE_CHARACTER, mkString (Length OemDest) (MaximumLength OemDest) 0,
             unmap_bytes (Z.to_nat Size) (Buffer OemDest) m)
  else Some (STATUS_UNMAPPABLE_CHARACTER, OemDest, m).

Definition RtlUnicodeStringToCountedOemString `{ByteAllocator} (m : mem) (OemDest : STRING) (UniSource : UNICODE_STRING)
    (AllocateDestinationString : bool) : option (NTSTATUS * STRING * mem) :=
  Size ← RtlUnicodeStringToCountedOemSize m UniSource;
  if Size =? 0 then Some (STATUS_SUCCESS, mkString 0 0 0, m) else
  if MAXUSHORT <? Size then Some (STATUS_INVALID_PARAMETER_2, OemDest, m) else
  match Destination m OemDest Size (u16 Size) AllocateDestinationString Z.leb with
  | (inl (Status, OemDest), m) => Some (Status, OemDest, m)
  | (inr OemDest, m) =>
      s ← chars_of m UniSource;
      '(l, _) ← RtlUnicodeToOemN N (Length OemDest) s;
      m ← store m (Buffer OemDest) l;
      CheckUnmapped m UniSource OemDest Size AllocateDestinationString
  end.

(** An empty source clears the destination and goes on. *)
Definition RtlUpcaseUnicodeStringToCountedOemString `{ByteAllocator} (m : mem) (OemDest : STRING)
    (UniSource : UNICODE_STRING) (AllocateDestinationString : bool) : option (NTSTATUS * STRING * mem) :=
  Size ← RtlUnicodeStringToCountedOemSize m UniSource;
  let OemDest := if Size =? 0 then mkString 0 0 0 else OemDest in
  if MAXUSHORT <? Size then Some (STATUS_INVALID_PARAMETER_2, OemDest, m) else
  match Destination m OemDest Size (u16 Size) AllocateDestinationString Z.leb with
  | (inl (Status, OemDest), m) => Some (Status, OemDest, m)
  | (inr OemDest, m) =>
      s ← chars_of m UniSource;
      '(l, _) ← RtlUpcaseUnicodeToOemN N (Length OemDest) s;
      m ← store m (Buffer OemDest) l;
      CheckUnmapped m UniSource OemDest Size AllocateDestinationString
  end.

(** The NUL is stored behind what is left after the check. *)
Definition RtlUpcaseUnicodeStringToOemString `{ByteAllocator} (m : mem) (OemDest : STRING) (UniSource : UNICODE_STRING)
    (AllocateDestinationString : bool) : option (NTSTATUS * STRING * mem) :=
  Size ← RtlUnicodeStringToOemSize m UniSource;
  if MAXUSHORT <? Size then Some (STATUS_INVALID_PARAMETER_2, OemDest, m) else
  match Destination m OemDest Size (u16 (u16 Size - 1)) AllocateDestinationString Z.ltb with
  | (inl (Status, OemDest), m) => Some (Status, OemDest, m)
  | (inr OemDest, m) =>
      s ← chars_of m UniSource;
      '(l, Index) ← RtlUpcaseUnicodeToOemN N (Length OemDest) s;
      m ← store m (Buffer OemDest) l;
      '(Status, OemDest, m) ← CheckUnmapped m UniSource OemDest Size AllocateDestinationString;
      if negb (NT_SUCCESS Status) && AllocateDestinationString then Some (Status, OemDest, m) else
      m ← st8 m (Buffer OemDest + Index) 0;
      Some (Status, OemDest, m)
  end.

(** Both OEM strings are freed; their sizes are those of the allocations. *)
Definition RtlEqualComputerName `{ByteAllocator} (m : mem) (ComputerName1 ComputerName2 : UNICODE_STRING)
    : option (bool * mem) :=
  '(Status, OemString1, m) ← RtlUpcaseUnicodeStringToOemString m (mkString 0 0 0) ComputerName1 true;
  if negb (NT_SUCCESS Status) then Some (false, m) else
  '(Status, OemString2, m) ← RtlUpcaseUnicodeStringToOemString m (mkString 0 0 0) ComputerName2 true;
  '(Result, m) ←
    (if negb (NT_SUCCESS Status) then Some (false, m) else
     Result ← RtlEqualString N m OemString1 OemString2 false;
     Some (Result, RtlFreeOemString m (Z.to_nat (MaximumLength OemString2)) OemString2));
  Some (Result, RtlFreeOemString m (Z.to_nat (MaximumLength OemString1)) OemString1).

Definition RtlEqualDomainName `{ByteAllocator} (m : mem) (DomainName1 DomainName2 : UNICODE_STRING)
    : option (bool * mem) := RtlEqualComputerName m DomainName1 DomainName2.

Definition MAX_COMPUTERNAME_LENGTH : Z := 15.

(** [for (Length = 0; ...; Length++)]: the length in bytes up to the first dot. *)
Fixpoint FirstDot (s : list Z) (i : Z) : option Z :=
  match s with
  | [] => None
  | c :: s' => if c =? 0x2E then Some (i * 2) else FirstDot s' (i + 1)
  end.

(** [Oem] is the address of the buffer of sixteen bytes on the stack. *)
Definition RtlDnsHostNameToComputerName `{ByteAllocator} (m : mem) (Oem : Z) (ComputerName DnsHostName : UNICODE_STRING)
    (AllocateComputerNameString : bool) : option (NTSTATUS * UNICODE_STRING * mem) :=
  s ← chars_of m DnsHostName;
  let ComputerNameLength := match FirstDot s 0 with Some n => n | None => Length DnsHostName end in
  if ComputerNameLength <=? 0 then Some (STATUS_INVALID_COMPUTER_NAME, ComputerName, m) else
  '(l, OemLength) ← RtlUpcaseUnicodeToOemN N MAX_COMPUTERNAME_LENGTH (take (Z.to_nat (ComputerNameLength / 2)) s);
  m ← store m Oem l;
  m ← st8 m (Oem + MAX_COMPUTERNAME_LENGTH) 0;
  let ComputerNameOem := mkString (u16 OemLength) (MAX_COMPUTERNAME_LENGTH + 1) Oem in
  ok ← RtlpDidUnicodeToOemWork m DnsHostName ComputerNameOem;
  if (ok : bool) then RtlOemStringToUnicodeString m ComputerName ComputerNameOem AllocateComputerNameString
  else Some (STATUS_INVALID_COMPUTER_NAME, ComputerName, m).

End Convert.
