(* ===== verification/UnicodeNumber.v ===== *)
(** * Numbers and GUIDs in strings (sdk/lib/rtl/unicode.c)

    Parsing and printing of integers and GUIDs.  The arrays
    in which digits are collected have room for all digits of a 32-bit or a 64-bit number in base
    2: a loop that would leave its array is a fault. *)

From Stdlib Require Import ZArith Lia Bool.
From stdpp Require Import base option list numbers gmap.
From S2P Require Import Prelude Memory Nls Unicode UnicodeConvert.
Open Scope Z_scope.

Definition valid_base (base : Z) : bool := (base =? 2) || (base =? 8) || (base =? 10) || (base =? 16).

(** ** Parsing *)

(** The value of a digit or letter, -1 for other characters. *)
Definition DigitOf (c : Z) : Z :=
  if (0x30 <=? c) && (c <=? 0x39) then c - 0x30 else
  if (0x41 <=? c) && (c <=? 0x5A) then c - 0x41 + 10 else
  if (0x61 <=? c) && (c <=? 0x7A) then c - 0x61 + 10 else -1.

(** The loop over leading white space; a CHAR is signed. *)
Fixpoint SkipSpaces (fuel : nat) (m : mem) (str : Z) : option Z :=
  match fuel with
  | O => None
  | S fuel' =>
      c ← ld8 m str;
      if negb (c =? 0) && (s8 c <=? 0x20) then SkipSpaces fuel' m (str + 1) else Some str
  end.

Fixpoint DigitLoop (fuel : nat) (m : mem) (str base RunningTotal : Z) : option Z :=
  match fuel with
  | O => None
  | S fuel' =>
      chCurrent ← ld8 m str;
      if chCurrent =? 0 then Some RunningTotal else
      let digit := DigitOf (s8 chCurrent) in
      if (digit <? 0) || (base <=? digit) then Some RunningTotal else
      DigitLoop fuel' m (str + 1) base (u32 (u32 (RunningTotal * base) + digit))
  end.

(** The status and [*value]; [store] says that [value] is not NULL. *)
Definition RtlCharToInteger (m : mem) (str base : Z) (store : bool) : option (NTSTATUS * option Z) :=
  str ← SkipSpaces (S (size m)) m str;
  c ← ld8 m str;
  let bMinus := c =? 0x2D in
  let str := if (c =? 0x2B) || bMinus then str + 1 else str in
  '(str, base) ←
    (if base =? 0 then
       c0 ← ld8 m str;
       if c0 =? 0x30 then
         c1 ← ld8 m (str + 1);
         Some (if c1 =? 0x62 then (str + 2, 2) else if c1 =? 0x6F then (str + 2, 8)
               else if c1 =? 0x78 then (str + 2, 16) else (str, 10))
       else Some (str, 10)
     else Some (str, base));
  if negb (valid_base base) then Some (STATUS_INVALID_PARAMETER, None) else
  if negb store then Some (STATUS_ACCESS_VIOLATION, None) else
  RunningTotal ← DigitLoop (S (size m)) m str base 0;
  Some (STATUS_SUCCESS, Some (if bMinus then u32 (0 - RunningTotal) else RunningTotal)).

(** The loops over [lpwstr] and [CharsRemaining] go over the list of the characters that remain. *)
Fixpoint SkipWideSpaces (s : list Z) : list Z :=
  match s with
  | c :: s' => if c <=? 0x20 then SkipWideSpaces s' else s
  | [] => []
  end.

Fixpoint WideDigitLoop (s : list Z) (base RunningTotal : Z) : Z :=
  match s with
  | [] => RunningTotal
  | wchCurrent :: s' =>
      let digit := DigitOf wchCurrent in
      if (digit <? 0) || (base <=? digit) then RunningTotal else
      WideDigitLoop s' base (u32 (u32 (RunningTotal * base) + digit))
  end.

Definition WideSign (s : list Z) : bool * list Z :=
  match s with
  | c :: s' => if c =? 0x2B then (false, s') else if c =? 0x2D then (true, s') else (false, s)
  | [] => (false, [])
  end.

Definition WideBase (s : list Z) (base : Z) : list Z * Z :=
  if base =? 0 then
    match s with
    | c0 :: c1 :: s' =>
        if c0 =? 0x30 then
          if c1 =? 0x62 then (s', 2) else if c1 =? 0x6F then (s', 8) else if c1 =? 0x78 then (s', 16) else (s, 10)
        else (s, 10)
    | _ => (s, 10)
    end
  else (s, base).

Definition RtlUnicodeStringToInteger (m : mem) (str : UNICODE_STRING) (base : Z) (store : bool)
    : option (NTSTATUS * option Z) :=
  s ← chars_of m str;
  let '(bMinus, s) := WideSign (SkipWideSpaces s) in
  let '(s, base) := WideBase s base in
  if negb (valid_base base) then Some (STATUS_INVALID_PARAMETER, None) else
  if negb store then Some (STATUS_ACCESS_VIOLATION, None) else
  let RunningTotal := WideDigitLoop s base 0 in
  Some (STATUS_SUCCESS, Some (if bMinus then u32 (0 - RunningTotal) else RunningTotal)).

(** ** Printing *)

(** The digits of [value] before [acc]; [letter] is the digit ten.  The fuel is the room. *)
Fixpoint DigitsOf (fuel : nat) (letter base value : Z) (acc : list Z) : option (list Z) :=
  match fuel with
  | O => None
  | S fuel' =>
      let digit := value mod base in
      let acc := (if digit <? 10 then 0x30 + digit else letter + digit - 10) :: acc in
      if value / base =? 0 then Some acc else DigitsOf fuel' letter base (value / base) acc
  end.

Definition RtlIntegerToChar (m : mem) (value base length1 str : Z) : option (NTSTATUS * mem) :=
  let base := if base =? 0 then 10 else base in
  if negb (valid_base base) then Some (STATUS_INVALID_PARAMETER, m) else
  digits ← DigitsOf 32 0x41 base value [];
  let len := Z.of_nat (length digits) in
  if length1 <? len then Some (STATUS_BUFFER_OVERFLOW, m) else
  if str =? 0 then Some (STATUS_ACCESS_VIOLATION, m) else
  m ← store m str (if len =? length1 then digits else digits ++ [0]);
  Some (STATUS_SUCCESS, m).

(** [Length] is compared with the size of the digits in bytes. *)
Definition RtlIntegerToUnicode (m : mem) (Value Base Length1 String : Z) : option (NTSTATUS * mem) :=
  let Radix := if Base =? 0 then 10 else Base in
  if negb (valid_base Radix) then Some (STATUS_INVALID_PARAMETER, m) else
  digits ← DigitsOf 33 0x61 Radix Value [];
  if Length1 <=? 2 * Z.of_nat (length digits) then Some (STATUS_BUFFER_TOO_SMALL, m) else
  m ← store m String (wide_bytes (digits ++ [0]));
  Some (STATUS_SUCCESS, m).

(** [RtlpSafeCopyMemory]: the bytes in ascending order, until one is not mapped. *)
Fixpoint SafeStore (m : mem) (p : Z) (bs : list Z) : NTSTATUS * mem :=
  match bs with
  | [] => (STATUS_SUCCESS, m)
  | b :: bs' => match m !! p with Some _ => SafeStore (<[p := b]> m) (p + 1) bs' | None => (STATUS_ACCESS_VIOLATION, m) end
  end.

Definition RtlLargeIntegerToChar (m : mem) (Value Base Length1 String : Z) : option (NTSTATUS * mem) :=
  let Val := u64 Value in
  let Base := if Base =? 0 then 10 else Base in
  if negb (valid_base Base) then Some (STATUS_INVALID_PARAMETER, m) else
  digits ← DigitsOf 64 0x41 Base Val [];
  let Len := Z.of_nat (length digits) in
  if Length1 <? Len then Some (STATUS_BUFFER_OVERFLOW, m) else
  Some (SafeStore m String (if Len <? Length1 then digits ++ [0] else digits)).

(** [Stack] is the address of the buffer of 33 bytes, or of 65 bytes. *)
Definition RtlIntegerToUnicodeString `{ByteAllocator} (N : NLS) (DBG : bool) (m : mem) (Stack Value Base : Z) (String : UNICODE_STRING)
    : option (NTSTATUS * UNICODE_STRING * mem) :=
  '(Status, m) ← RtlIntegerToChar m Value Base 33 Stack;
  if NT_SUCCESS Status then
    n ← strlen m Stack;
    RtlAnsiStringToUnicodeString N DBG m String (mkString (u16 n) 33 Stack) false
  else Some (Status, String, m).

Definition RtlInt64ToUnicodeString `{ByteAllocator} (N : NLS) (DBG : bool) (m : mem) (Stack Value Base : Z) (String : UNICODE_STRING)
    : option (NTSTATUS * UNICODE_STRING * mem) :=
  '(Status, m) ← RtlLargeIntegerToChar m Value Base 65 Stack;
  if NT_SUCCESS Status then
    n ← strlen m Stack;
    RtlAnsiStringToUnicodeString N DBG m String (mkString (u16 n) 65 Stack) false
  else Some (Status, String, m).

(** ** GUIDs *)

(** The value of a hexadecimal digit. *)
Definition HexOf (ch : Z) : option Z :=
  if (0x30 <=? ch) && (ch <=? 0x39) then Some (ch - 0x30) else
  if (0x61 <=? ch) && (ch <=? 0x66) then Some (ch - 0x61 + 10) else
  if (0x41 <=? ch) && (ch <=? 0x46) then Some (ch - 0x41 + 10) else None.

(** The inner [switch]: the offset from [lpOut] of the byte, and how far [lpOut] moves. *)
Definition GuidPlace (i : Z) : Z * Z :=
  if i =? 1 then (3, 0) else if i =? 3 then (2, 0) else if i =? 5 then (1, 0) else if i =? 7 then (0, 4) else
  if (i =? 10) || (i =? 15) then (1, 0) else if (i =? 12) || (i =? 17) then (0, 2) else (0, 1).

Fixpoint GuidLoop (fuel : nat) (m : mem) (lpszCLSID lpOut i : Z) : option (NTSTATUS * mem) :=
  if 37 <? i then Some (STATUS_SUCCESS, m) else
  match fuel with
  | O => None
  | S fuel' =>
      c ← ld16 m lpszCLSID;
      if (i =? 0) || (i =? 9) || (i =? 14) || (i =? 19) || (i =? 24) || (i =? 37) then
        if c =? (if i =? 0 then 0x7B else if i =? 37 then 0x7D else 0x2D)
        then GuidLoop fuel' m (lpszCLSID + 2) lpOut (i + 1) else Some (STATUS_INVALID_PARAMETER, m)
      else
        c2 ← ld16 m (lpszCLSID + 2);
        match HexOf c, HexOf c2 with
        | Some ch, Some ch2 =>
            let '(place, step) := GuidPlace i in
            m ← st8 m (lpOut + place) (u8 (Z.lor (Z.shiftl ch 4) ch2));
            GuidLoop fuel' m (lpszCLSID + 4) (lpOut + step) (i + 2)
        | _, _ => Some (STATUS_INVALID_PARAMETER, m)
        end
  end.

(** The length of the string is not looked at. *)
Definition RtlGUIDFromString (m : mem) (str : UNICODE_STRING) (guid : Z) : option (NTSTATUS * mem) :=
  GuidLoop 38 m (Buffer str) guid 0.

(** [%0nx]. *)
Fixpoint print_hex (n : nat) (v : Z) : list Z :=
  match n with
  | O => []
  | S n' => print_hex n' (v / 16) ++ [if v mod 16 <? 10 then 0x30 + v mod 16 else 0x61 + v mod 16 - 10]
  end.

(** What [swprintf] prints, without the NUL. *)
Definition GuidChars (Data1 Data2 Data3 : Z) (Data4 : list Z) : list Z :=
  [0x7B] ++ print_hex 8 Data1 ++ [0x2D] ++ print_hex 4 Data2 ++ [0x2D] ++ print_hex 4 Data3 ++ [0x2D]
  ++ concat (map (print_hex 2) (take 2 Data4)) ++ [0x2D] ++ concat (map (print_hex 2) (drop 2 Data4)) ++ [0x7D].

Definition RtlStringFromGUID `{ByteAllocator} (m : mem) (Guid : Z) (GuidString : UNICODE_STRING)
    : option (NTSTATUS * UNICODE_STRING * mem) :=
  match balloc m 78 with
  | None => Some (STATUS_NO_MEMORY, mkString 76 78 0, m)
  | Some p =>
      let m := map_bytes 78 p garbage m in
      Data1 ← ld32 m Guid;
      Data2 ← ld16 m (Guid + 4);
      Data3 ← ld16 m (Guid + 6);
      Data4 ← load m (Guid + 8) 8;
      m ← store m p (wide_bytes (GuidChars Data1 Data2 Data3 Data4 ++ [0]));
      Some (STATUS_SUCCESS, mkString 76 78 p, m)
  end.
