(* ===== verification/UnicodeProps.v ===== *)
(** * What the functions on counted strings compute

    [holds m s cs]: the string [s] has the characters [cs].  Comparison, equality and prefix are
    those of the lists of upper case characters; copying and appending are those of lists, cut to
    what fits, and change nothing but the buffer of the destination. *)

From Stdlib Require Import ZArith Lia Bool.
From stdpp Require Import base option list numbers gmap.
From S2P Require Import Prelude Memory Nls NlsProps Unicode UnicodeConvert.
Open Scope Z_scope.

Definition holds (m : mem) (s : UNICODE_STRING) (cs : list Z) : Prop :=
  Length s = 2 * Z.of_nat (length cs) /\ Forall is_wchar cs /\ has m (Buffer s) (wide_bytes cs).

(** ** WCHARs in memory *)

Lemma wide_bytes_cons c cs : wide_bytes (c :: cs) = enc 2 c ++ wide_bytes cs.
Proof. done. Qed.

Lemma wide_bytes_app a b : wide_bytes (a ++ b) = wide_bytes a ++ wide_bytes b.
Proof. unfold wide_bytes. by rewrite map_app, concat_app. Qed.

Lemma length_wide_bytes cs : length (wide_bytes cs) = (2 * length cs)%nat.
Proof. induction cs as [|c cs IH]; [done|]. rewrite wide_bytes_cons, length_app, length_enc, IH. simpl. lia. Qed.

Lemma ld16_wide m p c cs : is_wchar c -> has m p (wide_bytes (c :: cs)) ->
  ld16 m p = Some c /\ has m (p + 2) (wide_bytes cs).
Proof.
  intros Hc H. rewrite wide_bytes_cons in H. apply has_app in H as [H1 H2]. rewrite length_enc in H2.
  split; [by apply ld16_has|done].
Qed.

Lemma ldw_run m p cs : Forall is_wchar cs -> has m p (wide_bytes cs) -> ldw m p (length cs) = Some cs.
Proof.
  intros Hc. revert p. induction Hc as [|c cs Hc _ IH]; intros p H; [done|].
  destruct (ld16_wide m p c cs Hc H) as [E H']. cbn [length ldw]. rewrite E. cbn [mbind option_bind].
  by rewrite (IH _ H').
Qed.

Lemma holds_count m s cs : holds m s cs -> Z.to_nat (Length s / 2) = length cs.
Proof. intros (-> & _ & _). rewrite Z.mul_comm, Z.div_mul by lia. lia. Qed.

Lemma chars_of_run m s cs : holds m s cs -> chars_of m s = Some cs.
Proof. intros H. unfold chars_of. rewrite (holds_count m s cs H). destruct H as (_ & W & H). by apply ldw_run. Qed.

(** ** Order *)

(** The lexicographic order, as the sign of a difference. *)
Fixpoint order (a b : list Z) : Z :=
  match a, b with
  | [], [] => 0
  | [], _ :: _ => -1
  | _ :: _, [] => 1
  | x :: a', y :: b' => if x =? y then order a' b' else Z.sgn (x - y)
  end.

Lemma order_zero a b : order a b = 0 <-> a = b.
Proof.
  revert b. induction a as [|x a IH]; intros [|y b]; simpl; [done|done|done|].
  destruct (Z.eqb_spec x y) as [->|N]; [rewrite IH; naive_solver|]. split; [lia|]. intros [= ? ?]. done.
Qed.

Lemma order_flip a b : order b a = - order a b.
Proof.
  revert b. induction a as [|x a IH]; intros [|y b]; simpl; [done|done|done|].
  rewrite (Z.eqb_sym y x). destruct (x =? y); [apply IH|]. rewrite <- Z.sgn_opp. f_equal. lia.
Qed.

Lemma order_trans a b c : order a b <= 0 -> order b c <= 0 -> order a c <= 0.
Proof.
  revert b c. induction a as [|x a IH]; intros [|y b] [|z c]; simpl; try lia.
  destruct (Z.eqb_spec x y) as [->|N1], (Z.eqb_spec y z) as [->|N2]; try lia.
  - apply IH.
  - destruct (Z.eqb_spec x z) as [->|]; lia.
  - intros. destruct (Z.eqb_spec x z) as [->|]; lia.
Qed.

Section Upcase.

Variables (N : NLS) (up : Z -> Z).

(** The upper case of every WCHAR. *)
Definition upcases : Prop := forall c, is_wchar c -> RtlpUpcaseUnicodeChar N c = Some (up c).

Hypothesis tables : upcases.

Definition key (CaseInsensitive : bool) (c : Z) : Z := if CaseInsensitive then up c else c.

Lemma key_run (CaseInsensitive : bool) c : is_wchar c ->
  (if CaseInsensitive then RtlpUpcaseUnicodeChar N else Some) c = Some (key CaseInsensitive c).
Proof. intros Hc. destruct CaseInsensitive; [by apply tables|done]. Qed.

Lemma CompareUnicodeLoop_run m p q a b (ci : bool) n :
  Forall is_wchar a -> Forall is_wchar b -> has m p (wide_bytes a) -> has m q (wide_bytes b) ->
  n = Nat.min (length a) (length b) ->
  exists r, CompareUnicodeLoop (if ci then RtlpUpcaseUnicodeChar N else Some) n m p q = Some r /\
    (r <> 0 -> Z.sgn r = order (key ci <$> a) (key ci <$> b)) /\
    (r = 0 -> order (key ci <$> a) (key ci <$> b) = Z.sgn (Z.of_nat (length a) - Z.of_nat (length b))).
Proof.
  intros Ha. revert b p q n. induction Ha as [|x a Hx Ha IH]; intros b p q n Hb Hp Hq ->.
  { exists 0. cbn. split; [done|]. split; [done|]. intros _. destruct b; simpl; lia. }
  destruct Hb as [|y b Hy Hb]; [exists 0; cbn; split_and!; [done|done|intros _; simpl; lia]|].
  destruct (ld16_wide m p x a Hx Hp) as [E1 Hp']. destruct (ld16_wide m q y b Hy Hq) as [E2 Hq'].
  cbn [length Nat.min CompareUnicodeLoop]. rewrite E1, E2. cbn [mbind option_bind].
  rewrite !key_run by done. cbn [mbind option_bind]. rewrite !fmap_cons. cbn [order].
  destruct (Z.eqb_spec (key ci x - key ci y) 0) as [D|D].
  - destruct (IH b (p + 2) (q + 2) _ Hb Hp' Hq' eq_refl) as (r & -> & H1 & H2). exists r. split; [done|].
    rewrite (proj2 (Z.eqb_eq _ _)) by lia. split; [done|]. intros Hr. rewrite (H2 Hr). f_equal. lia.
  - eexists. split; [done|]. rewrite (proj2 (Z.eqb_neq _ _)) by lia. split; [done|lia].
Qed.

Lemma RtlCompareUnicodeString_run m s1 s2 a b ci :
  holds m s1 a -> holds m s2 b ->
  exists r, RtlCompareUnicodeString N m s1 s2 ci = Some r /\ Z.sgn r = order (key ci <$> a) (key ci <$> b).
Proof.
  intros (L1 & W1 & H1) (L2 & W2 & H2). unfold RtlCompareUnicodeString. rewrite L1, L2.
  destruct (CompareUnicodeLoop_run m (Buffer s1) (Buffer s2) a b ci
    (Z.to_nat (Z.min (2 * Z.of_nat (length a)) (2 * Z.of_nat (length b)) / 2))) as (r & -> & Hr & Hz); [done..| |].
  { rewrite Z.mul_min_distr_nonneg_l, Z.mul_comm, Z.div_mul by lia. lia. }
  cbn [mbind option_bind]. eexists. split; [done|]. destruct (Z.eqb_spec r 0) as [->|Nr]; [|by apply Hr].
  rewrite (Hz eq_refl). lia.
Qed.

Lemma RtlEqualUnicodeString_run m s1 s2 a b ci :
  holds m s1 a -> holds m s2 b ->
  RtlEqualUnicodeString N m s1 s2 ci = Some (bool_decide (key ci <$> a = key ci <$> b)).
Proof.
  intros Ha Hb. unfold RtlEqualUnicodeString.
  destruct (RtlCompareUnicodeString_run m s1 s2 a b ci Ha Hb) as (r & -> & Hr).
  destruct Ha as (L1 & _), Hb as (L2 & _). rewrite L1, L2.
  destruct (Z.eqb_spec (2 * Z.of_nat (length a)) (2 * Z.of_nat (length b))) as [L|L]; cbn [negb mbind option_bind].
  - f_equal. apply eq_true_iff_eq. rewrite Z.eqb_eq, bool_decide_eq_true, <- order_zero, <- Hr. lia.
  - rewrite bool_decide_false; [done|]. intros E. apply (f_equal length) in E. rewrite !length_fmap in E. lia.
Qed.

Lemma PrefixChars_run m p q a b (ci : bool) :
  Forall is_wchar a -> Forall is_wchar b -> has m p (wide_bytes a) -> has m q (wide_bytes b) ->
  (length a <= length b)%nat ->
  PrefixChars (if ci then RtlpUpcaseUnicodeChar N else Some) ld16 2 (length a) m p q
  = Some (bool_decide (key ci <$> a = key ci <$> take (length a) b)).
Proof.
  intros Ha. revert b p q. induction Ha as [|x a Hx Ha IH]; intros b p q Hb Hp Hq L.
  { cbn [length PrefixChars]. by rewrite bool_decide_true. }
  destruct Hb as [|y b Hy Hb]; [simpl in L; lia|].
  destruct (ld16_wide m p x a Hx Hp) as [E1 Hp']. destruct (ld16_wide m q y b Hy Hq) as [E2 Hq'].
  cbn [length PrefixChars]. rewrite E1, E2. cbn [mbind option_bind].
  rewrite !key_run by done. cbn [mbind option_bind take]. rewrite !fmap_cons.
  destruct (Z.eqb_spec (key ci x) (key ci y)) as [->|D]; cbn [negb].
  - rewrite (IH b) by (try done; simpl in L; lia). f_equal. apply bool_decide_ext. split; [by intros ->|by intros [= ->]].
  - rewrite bool_decide_false; [done|]. by intros [= ? _].
Qed.

(** C24: [RtlCompareUnicodeString] is a total order, with and without regard to case: the sign of
    its result is that of the lexicographic comparison of the upper case characters; exchanging
    the strings changes the sign; not greater is transitive; and zero, the answer of
    [RtlEqualUnicodeString], means that the upper case characters are the same. *)
Theorem compare_total_order m s1 s2 s3 a b c ci :
  holds m s1 a -> holds m s2 b -> holds m s3 c ->
  exists r12 r21 r23 r13,
    RtlCompareUnicodeString N m s1 s2 ci = Some r12 /\ RtlCompareUnicodeString N m s2 s1 ci = Some r21 /\
    RtlCompareUnicodeString N m s2 s3 ci = Some r23 /\ RtlCompareUnicodeString N m s1 s3 ci = Some r13 /\
    Z.sgn r12 = order (key ci <$> a) (key ci <$> b) /\ Z.sgn r21 = - Z.sgn r12 /\
    (r12 <= 0 -> r23 <= 0 -> r13 <= 0) /\
    RtlEqualUnicodeString N m s1 s2 ci = Some (r12 =? 0) /\
    (r12 = 0 <-> key ci <$> a = key ci <$> b).
Proof.
  intros Ha Hb Hc.
  destruct (RtlCompareUnicodeString_run m s1 s2 a b ci Ha Hb) as (r12 & E12 & H12).
  destruct (RtlCompareUnicodeString_run m s2 s1 b a ci Hb Ha) as (r21 & E21 & H21).
  destruct (RtlCompareUnicodeString_run m s2 s3 b c ci Hb Hc) as (r23 & E23 & H23).
  destruct (RtlCompareUnicodeString_run m s1 s3 a c ci Ha Hc) as (r13 & E13 & H13).
  assert (r12 = 0 <-> key ci <$> a = key ci <$> b) as Z12 by (rewrite <- order_zero, <- H12; lia).
  exists r12, r21, r23, r13. split_and!; try done.
  - rewrite H21, H12. apply order_flip.
  - intros L1 L2. pose proof (order_trans (key ci <$> a) (key ci <$> b) (key ci <$> c)). lia.
  - rewrite (RtlEqualUnicodeString_run m s1 s2 a b ci Ha Hb). f_equal.
    apply eq_true_iff_eq. by rewrite Z.eqb_eq, bool_decide_eq_true.
Qed.

(** [RtlPrefixUnicodeString] answers whether the upper case characters of the first string
    begin those of the second, for strings with buffers. *)
Theorem prefix_decides m s1 s2 a b ci :
  holds m s1 a -> holds m s2 b -> Buffer s1 <> 0 -> Buffer s2 <> 0 ->
  exists r, RtlPrefixUnicodeString N m s1 s2 ci = Some r /\
    (r = true <-> (key ci <$> a) `prefix_of` (key ci <$> b)).
Proof.
  intros Ha Hb B1 B2. unfold RtlPrefixUnicodeString. rewrite (holds_count m s1 a Ha).
  destruct Ha as (L1 & W1 & H1), Hb as (L2 & W2 & H2). rewrite L1, L2, !(proj2 (Z.eqb_neq _ _)) by done. cbn [negb andb].
  destruct (Z.ltb_spec (2 * Z.of_nat (length b)) (2 * Z.of_nat (length a))) as [L|L].
  { exists false. split; [done|]. split; [done|]. intros P. apply prefix_length in P. rewrite !length_fmap in P. lia. }
  rewrite (PrefixChars_run m _ _ a b ci W1 W2 H1 H2) by lia. eexists. split; [done|]. rewrite bool_decide_eq_true.
  split.
  - intros E. rewrite E, fmap_take. apply prefix_take.
  - intros [r E]. rewrite fmap_take, E.
    rewrite (take_app_le (key ci <$> a)), take_ge by (rewrite length_fmap; lia). done.
Qed.

End Upcase.

(** ** Copying and appending *)

(** Moving the characters [cs] over the bytes [b] between [a] and [c], and a NUL behind them if
    there is room: what copying and appending have in common.  The source may overlap. *)
Lemma move_chars m p a b q cs (limit : Z) :
  has m p (a ++ b) -> has m q (wide_bytes cs) ->
  limit = Z.of_nat (length a + length b) -> (2 * length cs <= length b)%nat ->
  Nat.Even (length b) ->
  exists m1 m',
    RtlMoveMemory m (p + Z.of_nat (length a)) q (2 * Z.of_nat (length cs)) = Some m1 /\
    (if Z.of_nat (length a) + 2 * Z.of_nat (length cs) <? limit
     then st16 m1 (p + Z.of_nat (length a) + 2 * Z.of_nat (length cs)) 0 else Some m1) = Some m' /\
    has m' p (a ++ wide_bytes cs) /\
    (Z.of_nat (length a) + 2 * Z.of_nat (length cs) < limit -> has m' p (a ++ wide_bytes (cs ++ [0]))) /\
    same_except m m' (p + Z.of_nat (length a)) (Z.of_nat (length b)).
Proof.
  intros Hp Hq -> Hfit Eb. unfold RtlMoveMemory.
  replace (Z.to_nat (2 * Z.of_nat (length cs))) with (length (wide_bytes cs)) by (rewrite length_wide_bytes; lia).
  unfold has in Hq. rewrite Hq. cbn [mbind option_bind].
  assert (b = take (2 * length cs) b ++ drop (2 * length cs) b) as Sb by (by rewrite take_drop).
  rewrite Sb in Hp. set (b1 := take (2 * length cs) b) in *. set (b2 := drop (2 * length cs) b) in *.
  assert (length b1 = 2 * length cs)%nat as L1 by (unfold b1; rewrite length_take; lia).
  assert (length b = length b1 + length b2)%nat as L2 by (rewrite Sb at 1; apply length_app).
  destruct (store_middle m p a b1 (wide_bytes cs) b2 Hp) as (m1 & E1 & K1 & S1); [rewrite length_wide_bytes; lia|].
  exists m1. rewrite E1.
  destruct (Z.ltb_spec (Z.of_nat (length a) + 2 * Z.of_nat (length cs)) (Z.of_nat (length a + length b))) as [H|H].
  - destruct b2 as [|x [|y b2]]; [simpl in L2; lia| |].
    { destruct Eb as [k Eb]. simpl in L2. lia. }
    replace (a ++ wide_bytes cs ++ x :: y :: b2) with ((a ++ wide_bytes cs) ++ [x; y] ++ b2) in K1
      by (by rewrite <- app_assoc).
    destruct (store_middle m1 p (a ++ wide_bytes cs) [x; y] (enc 2 0) b2 K1) as (m' & E2 & K2 & S2); [by rewrite length_enc|].
    rewrite length_app, length_wide_bytes in E2, S2.
    replace (p + Z.of_nat (length a + 2 * length cs)) with (p + Z.of_nat (length a) + 2 * Z.of_nat (length cs)) in E2, S2 by lia.
    exists m'. unfold st16. split_and!; [done|done| | |].
    + apply has_app in K2 as [K2 _]. done.
    + intros _. rewrite wide_bytes_app. rewrite app_assoc in K2. apply has_app in K2 as [K2 _].
      by rewrite <- app_assoc in K2.
    + intros z Hz. rewrite S2, S1 by (simpl in *; lia). done.
  - exists m1. split_and!; [done|done| |lia|].
    + rewrite app_assoc in K1. by apply has_app in K1 as [K1 _].
    + intros z Hz. apply S1. lia.
Qed.

Lemma nul_behind m p a cs : has m p (a ++ wide_bytes (cs ++ [0])) ->
  ld16 m (p + Z.of_nat (length a) + 2 * Z.of_nat (length cs)) = Some 0.
Proof.
  intros H. apply has_app in H as [_ H]. rewrite wide_bytes_app in H. apply has_app in H as [_ H].
  rewrite length_wide_bytes in H. apply ld16_has; [lia|].
  by replace (p + Z.of_nat (length a) + 2 * Z.of_nat (length cs))
    with (p + Z.of_nat (length a) + Z.of_nat (2 * length cs)) by lia.
Qed.

(** C27: [RtlCopyUnicodeString] copies as many characters as fit, sets the length to theirs, puts
    a NUL behind them if there is room, and changes nothing outside of the destination buffer,
    whose size must be even. *)
Theorem copy_unicode_string m d s cs old :
  holds m s cs -> has m (Buffer d) old -> MaximumLength d = Z.of_nat (length old) -> Nat.Even (length old) ->
  exists d' m',
    RtlCopyUnicodeString m d (Some s) = Some (d', m') /\
    holds m' d' (take (Z.to_nat (MaximumLength d / 2)) cs) /\
    Buffer d' = Buffer d /\ MaximumLength d' = MaximumLength d /\ Length d' <= MaximumLength d' /\
    (Length d' < MaximumLength d' -> ld16 m' (Buffer d' + Length d') = Some 0) /\
    same_except m m' (Buffer d) (MaximumLength d).
Proof.
  intros (L & W & H) Hold HM [k Hk]. unfold RtlCopyUnicodeString. rewrite HM, L, Hk in *.
  replace (Z.of_nat (2 * k) / 2) with (Z.of_nat k) by (rewrite Nat2Z.inj_mul, Z.mul_comm, Z.div_mul; lia).
  rewrite Nat2Z.id. set (t := take k cs).
  assert (length t = Nat.min k (length cs)) as Lt by (unfold t; apply length_take).
  assert (Z.min (Z.of_nat (2 * k)) (2 * Z.of_nat (length cs)) = 2 * Z.of_nat (length t)) as -> by lia.
  assert (has m (Buffer s) (wide_bytes t)) as Ht.
  { rewrite <- (take_drop k cs), wide_bytes_app in H. by apply has_app in H as [H _]. }
  destruct (move_chars m (Buffer d) [] old (Buffer s) t (Z.of_nat (2 * k))) as (m1 & m' & E1 & E2 & K & KN & S);
    try done; cbn [length] in *; [by rewrite Hk|lia|by exists k|].
  change (Z.of_nat 0) with 0 in *. rewrite Z.add_0_r, ?Z.add_0_l in *. unfold RtlCopyMemory. rewrite E1. cbn [mbind option_bind].
  replace (2 * (2 * Z.of_nat (length t) / 2)) with (2 * Z.of_nat (length t)) by (rewrite (Z.mul_comm 2 (Z.of_nat (length t))), Z.div_mul; lia).
  rewrite E2. cbn [mbind option_bind]. do 2 eexists. split; [done|]. cbn [Buffer MaximumLength Length].
  split_and!; try done; [|lia| |by rewrite Hk in S].
  2:{ intros Hlt. specialize (KN Hlt). apply nul_behind in KN. cbn [length] in KN. by rewrite Z.add_0_r in KN. }
  split; [done|]. split; [by apply Forall_take|done].
Qed.

(** C28: [RtlAppendUnicodeStringToString] refuses what does not fit and leaves everything as it
    was; otherwise the destination has its characters and those of the source, a NUL behind them
    if there is room, and nothing outside of the unused part of its buffer has changed.  The
    source may be the destination itself. *)
Theorem append_unicode_string m d s ds cs room :
  holds m d ds -> has m (Buffer d) (wide_bytes ds ++ room) -> holds m s cs ->
  MaximumLength d = Length d + Z.of_nat (length room) -> Nat.Even (length room) -> MaximumLength d < 2 ^ 16 ->
  exists Status d' m',
    RtlAppendUnicodeStringToString m d s = Some (Status, d', m') /\
    if 2 * Z.of_nat (length cs) <=? Z.of_nat (length room) then
      Status = STATUS_SUCCESS /\ holds m' d' (ds ++ cs) /\
      Buffer d' = Buffer d /\ MaximumLength d' = MaximumLength d /\ Length d' <= MaximumLength d' /\
      (cs <> [] -> Length d' < MaximumLength d' -> ld16 m' (Buffer d' + Length d') = Some 0) /\
      same_except m m' (Buffer d + Length d) (Z.of_nat (length room))
    else Status = STATUS_BUFFER_TOO_SMALL /\ d' = d /\ m' = m.
Proof.
  intros (L & W & H) Hroom (Ls & Ws & Hs) HM Hev H16. unfold RtlAppendUnicodeStringToString. rewrite Ls.
  rewrite HM, L in *. destruct (Z.eqb_spec (2 * Z.of_nat (length cs)) 0) as [Z0|N0]; cbn [negb].
  { destruct cs; [|simpl in Z0; lia]. do 3 eexists. split; [done|]. rewrite (proj2 (Z.leb_le _ _)) by (simpl; lia).
    rewrite app_nil_r, HM, L. split_and!; try done; lia. }
  destruct (Z.leb_spec (2 * Z.of_nat (length cs)) (Z.of_nat (length room))) as [F|F].
  2:{ rewrite (proj2 (Z.ltb_lt _ _)) by lia. by do 3 eexists. }
  rewrite (proj2 (Z.ltb_ge _ _)) by lia.
  destruct (move_chars m (Buffer d) (wide_bytes ds) room (Buffer s) cs (2 * Z.of_nat (length ds) + Z.of_nat (length room)))
    as (m1 & m' & E1 & E2 & K & KN & S); try done; rewrite ?length_wide_bytes in *; [lia..|].
  replace (Z.of_nat (2 * length ds)) with (2 * Z.of_nat (length ds)) in * by lia.
  replace (2 * (2 * Z.of_nat (length ds) / 2)) with (2 * Z.of_nat (length ds)) by (rewrite (Z.mul_comm 2 (Z.of_nat (length ds))), Z.div_mul; lia).
  replace (2 * (2 * Z.of_nat (length cs) / 2)) with (2 * Z.of_nat (length cs)) by (rewrite (Z.mul_comm 2 (Z.of_nat (length cs))), Z.div_mul; lia).
  rewrite E1. cbn [mbind option_bind]. rewrite u16_small by lia. rewrite E2. cbn [mbind option_bind].
  do 3 eexists. split; [done|]. cbn [Length MaximumLength Buffer].
  split_and!; try done; [|lia|].
  2:{ intros _ Hlt. specialize (KN ltac:(lia)). apply nul_behind in KN. rewrite length_wide_bytes in KN.
      rewrite <- KN. f_equal. lia. }
  split; [rewrite length_app; cbn; lia|]. split; [by apply Forall_app|]. by rewrite wide_bytes_app.
Qed.

(** ** Duplicates *)

Lemma RtlDuplicateUnicodeString_run `{ByteAllocator} m s cs d p :
  holds m s cs -> Length s <= MaximumLength s -> (Length s = 0 -> Buffer s <> 0) -> cs <> [] ->
  balloc m (Length s + 2) = Some p ->
  exists m',
    RtlDuplicateUnicodeString m RTL_DUPLICATE_UNICODE_STRING_NULL_TERMINATE (Some s) (Some d)
    = Some (STATUS_SUCCESS, Some (mkString (Length s) (u16 (Length s + 2)) p), m') /\
    has m' p (wide_bytes (cs ++ [0])) /\ same_except m m' p (Length s + 2).
Proof.
  intros (L & W & Hs) HM HB Hne Hp. unfold RtlDuplicateUnicodeString.
  assert (0 < Length s) as Lpos by (rewrite L; destruct cs; [done|simpl; lia]).
  rewrite (proj2 (Z.ltb_ge (MaximumLength s) _)), (proj2 (Z.eqb_neq (Length s) 0)) by lia.
  cbn [andb orb]. change (RTL_DUPLICATE_UNICODE_STRING_NULL_TERMINATE =? RTL_DUPLICATE_UNICODE_STRING_ALLOCATE_NULL_STRING) with false.
  change (4 <=? RTL_DUPLICATE_UNICODE_STRING_NULL_TERMINATE) with false.
  change (Z.land RTL_DUPLICATE_UNICODE_STRING_NULL_TERMINATE RTL_DUPLICATE_UNICODE_STRING_NULL_TERMINATE =? 0) with false.
  cbn [negb orb]. rewrite Hp. set (m0 := map_bytes _ p garbage m).
  assert (has m0 (Buffer s) (wide_bytes cs)) as Hs0 by (by apply has_fresh).
  assert (Z.to_nat (Length s + 2) = 2 * length cs + 2)%nat as Ln by lia.
  pose proof (map_bytes_has (Z.to_nat (Length s + 2)) p garbage m) as G.
  pose proof (map_bytes_same (Z.to_nat (Length s + 2)) p garbage m) as S0. fold m0 in G, S0. clearbody m0.
  rewrite Ln in G. rewrite Z2Nat.id in S0 by lia.
  destruct (move_chars m0 p [] (replicate (2 * length cs + 2) garbage) (Buffer s) cs (Length s + 2))
    as (m1 & m' & E1 & E2 & K & KN & S1); try done; rewrite ?length_replicate; cbn [length]; [lia|lia|exists (length cs + 1)%nat; lia|].
  change (Z.of_nat 0) with 0 in *. rewrite Z.add_0_r, ?Z.add_0_l in *. rewrite length_replicate in S1.
  rewrite (proj2 (Z.ltb_lt _ _)) in E2 by lia. specialize (KN ltac:(lia)).
  unfold RtlCopyMemory. rewrite L in *. rewrite E1. cbn [mbind option_bind].
  replace (2 * (2 * Z.of_nat (length cs) / 2)) with (2 * Z.of_nat (length cs)) by (rewrite (Z.mul_comm 2 (Z.of_nat (length cs))), Z.div_mul; lia).
  rewrite E2. cbn [mbind option_bind]. exists m'. split; [done|]. split.
  - done.
  - intros q Hq. rewrite S1, S0 by lia. done.
Qed.

(** the copy of [RtlDuplicateUnicodeString] with a NUL has the characters of the source and a
    NUL in a new block and leaves the memory as it was; for a source of 32767 characters, the
    longest there is, its maximum length wraps to zero, below its length, and
    [RtlValidateUnicodeString] refuses it. *)
Theorem duplicate_copies `{ByteAllocator} DBG m s cs d p :
  holds m s cs -> Length s <= MaximumLength s -> Length s < 2 ^ 16 -> cs <> [] ->
  balloc m (Length s + 2) = Some p ->
  exists d' m',
    RtlDuplicateUnicodeString m RTL_DUPLICATE_UNICODE_STRING_NULL_TERMINATE (Some s) (Some d)
    = Some (STATUS_SUCCESS, Some d', m') /\
    holds m' d' cs /\ Buffer d' = p /\ ld16 m' (p + Length d') = Some 0 /\ same_except m m' p (Length s + 2) /\
    if Length s =? 0xFFFE
    then MaximumLength d' = 0 /\ RtlValidateUnicodeString DBG 0 (Some d') = Some STATUS_INVALID_PARAMETER
    else MaximumLength d' = Length s + 2.
Proof.
  intros Hs HM H16 Hne Hp.
  destruct (RtlDuplicateUnicodeString_run m s cs d p Hs HM) as (m' & E & K & S); [|done|done|].
  { destruct Hs as (L & _). rewrite L. destruct cs; [done|simpl; lia]. }
  do 2 eexists. split; [exact E|]. destruct Hs as (L & W & _). cbn [Length MaximumLength Buffer].
  split; [|split; [done|split; [|split; [done|]]]].
  - split; [done|]. split; [done|]. rewrite wide_bytes_app in K. by apply has_app in K as [K _].
  - apply (nul_behind m' p [] cs) in K. cbn [length] in K. by rewrite Z.add_0_r, <- L in K.
  - destruct (Z.eqb_spec (Length s) 0xFFFE) as [E1|E1]; [|apply u16_small; lia]. rewrite E1. split; [done|].
    unfold RtlValidateUnicodeString, checked. cbn [Length MaximumLength Buffer Z.eqb negb]. rewrite andb_false_r.
    change (0xFFFE <=? u16 (0xFFFE + 2)) with false. by rewrite !andb_false_r.
Qed.
