(* ===== verification/UnicodeNumberProps.v ===== *)
(** * Printing and parsing numbers

    The digits of a number, most significant first, have the value of the number, and the loops
    that parse digits compute their value. *)

From Stdlib Require Import ZArith Lia Bool.
From stdpp Require Import base option list numbers gmap.
From S2P Require Import Prelude Memory Nls NlsProps Unicode UnicodeConvert UnicodeProps UnicodeNumber.
Open Scope Z_scope.

Lemma has_size (m : mem) p bs : has m p bs -> (length bs <= size m)%nat.
Proof.
  intros H. assert (NoDup ((fun i => p + Z.of_nat i) <$> seq 0 (length bs))) as ND.
  { apply NoDup_fmap_2; [intros i j; lia|apply NoDup_seq]. }
  rewrite <- (length_seq (length bs) 0), <- (length_fmap (fun i => p + Z.of_nat i)), <- size_dom.
  rewrite <- (size_list_to_set (C := gset Z) _ ND). apply subseteq_size. intros q Hq.
  apply elem_of_list_to_set, list_elem_of_fmap in Hq as (i & -> & Hi). apply elem_of_seq in Hi.
  apply elem_of_dom. apply (has_is_Some m p bs); [done|lia].
Qed.

(** ** Digits *)

(** A character that is a digit below [base]. *)
Definition is_digit (base c : Z) : Prop := 0x30 <= c <= 0x7A /\ 0 <= DigitOf c < base.

(** The value of digits behind [t]. *)
Definition value (base t : Z) (ds : list Z) : Z := foldl (fun t c => t * base + DigitOf c) t ds.

Lemma digit_char letter d base : letter = 0x41 \/ letter = 0x61 -> 0 <= d < base -> base <= 16 ->
  let c := if d <? 10 then 0x30 + d else letter + d - 10 in is_digit base c /\ DigitOf c = d.
Proof.
  intros Hl Hd Hb c. assert (DigitOf c = d /\ 0x30 <= c <= 0x7A) as [E R].
  { unfold c, DigitOf. destruct (Z.ltb_spec d 10), Hl as [-> | ->];
      repeat match goal with |- context [?a <=? ?b] => destruct (Z.leb_spec a b) end; cbn [andb]; lia. }
  split; [|done]. split; [done|lia].
Qed.

Lemma value_app base t a b : value base t (a ++ b) = value base (value base t a) b.
Proof. apply foldl_app. Qed.

Lemma DigitsOf_run letter base fuel v acc :
  letter = 0x41 \/ letter = 0x61 -> 2 <= base <= 16 -> 0 <= v < base ^ Z.of_nat fuel -> (0 < fuel)%nat ->
  exists ds, DigitsOf fuel letter base v acc = Some (ds ++ acc) /\ (1 <= length ds <= fuel)%nat /\
    Forall (is_digit base) ds /\ value base 0 ds = v.
Proof.
  intros Hl Hb. revert v acc. induction fuel as [|fuel IH]; intros v acc Hv Hf; [lia|].
  cbn [DigitsOf]. set (c := if v mod base <? 10 then _ else _).
  destruct (digit_char letter (v mod base) base Hl) as [Dc Vc]; [by apply Z.mod_pos_bound; lia|lia|]. fold c in Dc, Vc.
  pose proof (Z.div_mod v base ltac:(lia)) as Ev.
  destruct (Z.eqb_spec (v / base) 0) as [D0|D0].
  { exists [c]. split; [done|]. split; [simpl; lia|]. split; [by constructor|]. cbn. rewrite Vc. lia. }
  assert (0 <= v / base) by (apply Z.div_pos; lia).
  destruct fuel as [|fuel']; [rewrite Z.pow_1_r in Hv; rewrite Z.div_small in D0; lia|].
  destruct (IH (v / base) (c :: acc)) as (ds & -> & L & F & V).
  { split; [done|]. apply Z.div_lt_upper_bound; [lia|]. rewrite <- Z.pow_succ_r by lia.
    replace (Z.succ (Z.of_nat (S fuel'))) with (Z.of_nat (S (S fuel'))) by lia. apply Hv. }
  { lia. }
  exists (ds ++ [c]). rewrite <- app_assoc. split; [done|]. split; [rewrite length_app; simpl; lia|].
  split; [by apply Forall_app; split; [|constructor]|]. rewrite value_app, V. cbn. rewrite Vc. lia.
Qed.

(** One more digit modulo 2^32. *)
Lemma digit_step t base d : u32 (u32 (u32 t * base) + d) = u32 (t * base + d).
Proof.
  unfold u32. rewrite Zmult_mod_idemp_l, Zplus_mod_idemp_l. done.
Qed.

Lemma s8_ascii c : 0 <= c < 0x80 -> s8 c = c.
Proof. intros H. unfold s8, swrap. change (2 ^ (8 - 1)) with 128. rewrite Z.mod_small; lia. Qed.

Lemma DigitLoop_run m p base ds fuel t :
  Forall (is_digit base) ds -> has m p (ds ++ [0]) -> (length ds < fuel)%nat ->
  DigitLoop fuel m p base (u32 t) = Some (u32 (value base t ds)).
Proof.
  intros Hd. revert p fuel t. induction Hd as [|c ds [Rc Dc] Hd IH]; intros p fuel t H Hf;
    (destruct fuel as [|fuel]; [lia|]); cbn [app] in H; apply has_cons in H as [H1 H2];
    cbn [DigitLoop]; rewrite (ld8_lookup _ _ _ H1); cbn [mbind option_bind].
  - done.
  - rewrite (proj2 (Z.eqb_neq _ _)) by lia. rewrite s8_ascii by lia.
    rewrite (proj2 (Z.ltb_ge (DigitOf c) 0)), (proj2 (Z.leb_gt base _)) by lia. cbn [orb].
    rewrite digit_step, IH; [done|done|simpl in Hf; lia].
Qed.

Lemma WideDigitLoop_run base ds t : Forall (is_digit base) ds ->
  WideDigitLoop ds base (u32 t) = u32 (value base t ds).
Proof.
  intros Hd. revert t. induction Hd as [|c ds [Rc Dc] Hd IH]; intros t; [done|]. cbn [WideDigitLoop].
  rewrite (proj2 (Z.ltb_ge (DigitOf c) 0)), (proj2 (Z.leb_gt base _)) by lia. cbn [orb].
  rewrite digit_step. apply IH.
Qed.
