(* ===== verification/UnicodeClaims.v ===== *)
(** * Round trips of numbers and GUIDs, and where the string functions go wrong *)

From Stdlib Require Import ZArith Lia Bool.
From stdpp Require Import base option list numbers gmap.
From S2P Require Import Prelude Memory Nls NlsProps Unicode UnicodeConvert UnicodeProps UnicodeNumber UnicodeNumberProps.
Open Scope Z_scope.

(** ** Integers *)

(** The bases that are accepted; 0 prints in base 10 and lets a prefix decide when parsing. *)
Definition accepted (base : Z) : Prop := base = 0 \/ base = 2 \/ base = 8 \/ base = 10 \/ base = 16.
Definition effective (base : Z) : Z := if base =? 0 then 10 else base.

Lemma effective_base base : accepted base -> 2 <= effective base <= 16 /\ valid_base (effective base) = true.
Proof. intros [->|[->|[->|[->| ->]]]]; split; (reflexivity || (cbn; lia)). Qed.

(** A digit of base 10 is no letter. *)
Lemma is_digit_10 c : is_digit 10 c -> 0x30 <= c <= 0x39.
Proof.
  unfold is_digit, DigitOf. intros [R D].
  repeat match goal with H : context [?a <=? ?b] |- _ => destruct (Z.leb_spec a b) end; cbn [andb] in D; lia.
Qed.

Lemma print_digits m v base str old :
  0 <= v < 2 ^ 32 -> accepted base -> has m str old -> length old = 33%nat -> str <> 0 ->
  exists ds m', RtlIntegerToChar m v base 33 str = Some (STATUS_SUCCESS, m') /\
    has m' str (ds ++ [0]) /\ (1 <= length ds <= 32)%nat /\ Forall (is_digit (effective base)) ds /\
    value (effective base) 0 ds = v /\ same_except m m' str 33.
Proof.
  intros Hv Hb Hold Lold Hs. destruct (effective_base base Hb) as [Rb Vb].
  unfold RtlIntegerToChar. fold (effective base). rewrite Vb. cbn [negb].
  destruct (DigitsOf_run 0x41 (effective base) 32 v []) as (ds & -> & L & F & V); [by left|done| |lia|].
  { split; [lia|]. apply (Z.lt_le_trans _ (2 ^ 32)); [lia|]. apply Z.pow_le_mono_l. lia. }
  rewrite app_nil_r. cbn [mbind option_bind].
  rewrite (proj2 (Z.ltb_ge _ _)), (proj2 (Z.eqb_neq str 0)), (proj2 (Z.eqb_neq _ 33)) by lia.
  rewrite <- (take_drop (length (ds ++ [0])) old) in Hold.
  destruct (store_middle m str [] (take (length (ds ++ [0])) old) (ds ++ [0]) (drop (length (ds ++ [0])) old))
    as (m' & E & K & S); [done|rewrite length_take, !length_app; simpl; lia|].
  cbn [length app] in E, S. change (Z.of_nat 0) with 0 in *. rewrite Z.add_0_r in E, S. rewrite E. cbn [mbind option_bind].
  exists ds, m'. split; [done|]. cbn [app] in K. apply has_app in K as [K _]. split_and!; try done; try lia.
  intros q Hq. apply S. rewrite length_take, length_app. simpl. lia.
Qed.

Lemma RtlCharToInteger_run m str base ds :
  accepted base -> Forall (is_digit (effective base)) ds -> ds <> [] -> has m str (ds ++ [0]) ->
  RtlCharToInteger m str base true = Some (STATUS_SUCCESS, Some (u32 (value (effective base) 0 ds))).
Proof.
  intros Hb F Hne H. destruct (effective_base base Hb) as [Rb Vb].
  pose proof (has_size _ _ _ H) as Hsz. rewrite length_app in Hsz. simpl in Hsz.
  destruct ds as [|c ds]; [done|]. inversion F as [|? ? [Rc Dc] F']; subst.
  assert (H' := H). cbn [app] in H'. apply has_cons in H' as [Hc Ht].
  unfold RtlCharToInteger. cbn [SkipSpaces]. rewrite (ld8_lookup _ _ _ Hc). cbn [mbind option_bind].
  rewrite (s8_ascii c) by lia. rewrite (proj2 (Z.leb_gt c 0x20)) by lia. rewrite andb_false_r. cbn [mbind option_bind].
  rewrite (ld8_lookup _ _ _ Hc). cbn [mbind option_bind].
  rewrite (proj2 (Z.eqb_neq c 0x2D)), (proj2 (Z.eqb_neq c 0x2B)) by lia. cbn [orb].
  assert ((if base =? 0 then
       c0 ← ld8 m str;
       if c0 =? 0x30 then
         c1 ← ld8 m (str + 1);
         Some (if c1 =? 0x62 then (str + 2, 2) else if c1 =? 0x6F then (str + 2, 8)
               else if c1 =? 0x78 then (str + 2, 16) else (str, 10))
       else Some (str, 10)
     else Some (str, base)) = Some (str, effective base)) as ->.
  { unfold effective. destruct (Z.eqb_spec base 0) as [->|]; [|done]. rewrite (ld8_lookup _ _ _ Hc). cbn [mbind option_bind].
    destruct (c =? 0x30); [|done].
    assert (exists c1, m !! (str + 1) = Some c1 /\ c1 <= 0x39) as (c1 & H1 & R1).
    { destruct ds as [|c1 ds]; cbn [app] in Ht; apply has_cons in Ht as [Ht _]; eexists; (split; [exact Ht|]); [lia|].
      inversion F' as [|? ? D1 _]; subst. apply is_digit_10 in D1. lia. }
    rewrite (ld8_lookup _ _ _ H1). cbn [mbind option_bind]. by rewrite !(proj2 (Z.eqb_neq c1 _)) by lia. }
  cbn [mbind option_bind]. rewrite Vb. cbn [negb].
  change 0 with (u32 0) at 1. rewrite (DigitLoop_run m str (effective base) (c :: ds)); [done|done|done|simpl in *; lia].
Qed.

(** round trip of [RtlIntegerToChar] and [RtlCharToInteger]: every 32-bit value, printed in
    base 0, 2, 8, 10 or 16 into a buffer of 33 bytes, is parsed to the same value with the same
    base, and printing changes nothing but the buffer. *)
Theorem integer_char_roundtrip m v base str old :
  0 <= v < 2 ^ 32 -> accepted base -> has m str old -> length old = 33%nat -> str <> 0 ->
  exists m',
    RtlIntegerToChar m v base 33 str = Some (STATUS_SUCCESS, m') /\
    RtlCharToInteger m' str base true = Some (STATUS_SUCCESS, Some v) /\
    same_except m m' str 33.
Proof.
  intros Hv Hb Hold Lold Hs. destruct (print_digits m v base str old Hv Hb Hold Lold Hs) as (ds & m' & E & K & L & F & V & S).
  exists m'. split; [done|]. split; [|done].
  rewrite (RtlCharToInteger_run m' str base ds Hb F); [|intros ->; simpl in L; lia|done].
  rewrite V. by rewrite u32_small.
Qed.

(** ** Integers as Unicode strings *)

Lemma StrLoop_run m p bs fuel :
  Forall (fun b => b <> 0) bs -> has m p (bs ++ [0]) -> (length bs < fuel)%nat ->
  StrLoop fuel m p = Some (Z.of_nat (length bs)).
Proof.
  intros Hb. revert p fuel. induction Hb as [|b bs Hb _ IH]; intros p fuel H Hf;
    (destruct fuel as [|fuel]; [lia|]); cbn [app] in H; apply has_cons in H as [H1 H2];
    cbn [StrLoop]; rewrite (ld8_lookup _ _ _ H1); cbn [mbind option_bind]; [done|].
  rewrite (proj2 (Z.eqb_neq _ _)) by done. rewrite (IH _ _ H2) by (simpl in Hf; lia). cbn. f_equal. lia.
Qed.

Lemma strlen_run m p bs : Forall (fun b => b <> 0) bs -> has m p (bs ++ [0]) -> strlen m p = Some (Z.of_nat (length bs)).
Proof.
  intros Hb H. pose proof (has_size _ _ _ H) as L. rewrite length_app in L. simpl in L.
  unfold strlen. apply StrLoop_run; [done|done|lia].
Qed.

(** A string in a single-byte code page, into a buffer with room for it and a NUL. *)
Lemma RtlAnsiStringToUnicodeString_run `{ByteAllocator} N DBG m d a s l old :
  NlsMbCodePageTag N = false -> Length a = Z.of_nat (length s) -> has m (Buffer a) s ->
  Widen (NlsAnsiToUnicodeTable N) (Length a) s = Some l -> length l = length s ->
  has m (Buffer d) old -> MaximumLength d = Z.of_nat (length old) ->
  2 * Z.of_nat (length s) + 2 <= MaximumLength d -> MaximumLength d <= MAXUSHORT ->
  (DBG = true -> Z.even (MaximumLength d) = true) ->
  exists m', RtlAnsiStringToUnicodeString N DBG m d a false
    = Some (STATUS_SUCCESS, mkString (2 * Z.of_nat (length s)) (MaximumLength d) (Buffer d), m') /\
    has m' (Buffer d) (wide_bytes (l ++ [0])) /\ same_except m m' (Buffer d) (MaximumLength d).
Proof.
  intros HN La Ha HW Hl Hold HM Hroom HX Hev. unfold RtlAnsiStringToUnicodeString, MAXUSHORT in *. rewrite HN. cbn [negb mbind option_bind].
  rewrite La in *. set (n := Z.of_nat (length s)) in *.
  rewrite (proj2 (Z.ltb_ge 0xFFFF _)) by lia. rewrite (u16_small (n * 2 + 2)), (u16_small (n * 2 + 2 - 2)) by lia.
  unfold Destination. cbn [MaximumLength]. rewrite (proj2 (Z.ltb_lt _ _)) by lia. cbn [MaximumLength Length].
  rewrite (proj2 (Z.leb_le (n * 2 + 2 - 2) _)), andb_true_r by lia.
  assert (checked DBG (Z.even (MaximumLength d)) = Some tt) as ->
    by (unfold checked; destruct DBG; [by rewrite Hev|done]).
  cbn [mbind option_bind].
  assert (bytes_of m a = Some s) as -> by (unfold bytes_of; rewrite La; unfold n; rewrite Nat2Z.id; exact Ha).
  cbn [mbind option_bind].
  unfold RtlMultiByteToUnicodeN, ToUnicodeN. rewrite HN. cbn [negb Length]. fold n.
  replace ((n * 2 + 2 - 2) / 2) with n by (replace (n * 2 + 2 - 2) with (n * 2) by lia; by rewrite Z.div_mul by lia).
  rewrite Z.ltb_irrefl, HW. cbn [mbind option_bind Buffer].
  rewrite <- (take_drop (2 * length s + 2) old) in Hold.
  rewrite <- (take_drop (2 * length s) (take (2 * length s + 2) old)) in Hold. rewrite <- app_assoc in Hold.
  set (o1 := take (2 * length s) _) in Hold. set (o2 := drop (2 * length s) _) in Hold. set (o3 := drop _ old) in Hold.
  assert (length o1 = 2 * length s)%nat as L1 by (unfold o1; rewrite !length_take; lia).
  assert (length o2 = 2)%nat as L2 by (unfold o2; rewrite length_drop, length_take; lia).
  destruct (store_middle m (Buffer d) [] o1 (wide_bytes l) (o2 ++ o3)) as (m1 & E1 & K1 & S1);
    [done|rewrite length_wide_bytes; lia|].
  cbn [length app] in E1, S1, K1. change (Z.of_nat 0) with 0 in *. rewrite Z.add_0_r in E1, S1. rewrite E1. cbn [mbind option_bind].
  destruct (store_middle m1 (Buffer d) (wide_bytes l) o2 (enc 2 0) o3 K1) as (m' & E2 & K2 & S2); [by rewrite length_enc|].
  rewrite length_wide_bytes, Hl in E2, S2. rewrite u32_small, Z.div_mul by lia. unfold st16.
  replace (Buffer d + 2 * n) with (Buffer d + Z.of_nat (2 * length s)) by lia. rewrite E2. cbn [mbind option_bind].
  exists m'. split; [do 4 f_equal; lia|]. split.
  - rewrite wide_bytes_app. rewrite app_assoc in K2. by apply has_app in K2 as [K2 _].
  - intros q Hq. rewrite S2, S1 by lia. done.
Qed.

(** A single-byte code page in which the digits and letters are themselves. *)
Definition ascii_page (N : NLS) : Prop :=
  NlsMbCodePageTag N = false /\ forall c, 0x30 <= c <= 0x7A -> rd (NlsAnsiToUnicodeTable N) c = Some c.

Lemma Widen_digits N base ds : ascii_page N -> Forall (is_digit base) ds ->
  Widen (NlsAnsiToUnicodeTable N) (Z.of_nat (length ds)) ds = Some ds.
Proof.
  intros [_ HT] F. unfold Widen. rewrite Z.ltb_irrefl, Nat2Z.id, take_ge by lia.
  induction F as [|c ds [Rc _] F IH]; [done|]. cbn [mapM]. rewrite HT by lia. cbn. by rewrite IH.
Qed.

Lemma RtlUnicodeStringToInteger_run m s base ds :
  accepted base -> Forall (is_digit (effective base)) ds -> ds <> [] -> holds m s ds ->
  RtlUnicodeStringToInteger m s base true = Some (STATUS_SUCCESS, Some (u32 (value (effective base) 0 ds))).
Proof.
  intros Hb F Hne H. destruct (effective_base base Hb) as [Rb Vb].
  unfold RtlUnicodeStringToInteger. rewrite (chars_of_run m s ds H). cbn [mbind option_bind].
  destruct ds as [|c ds]; [done|]. inversion F as [|? ? [Rc Dc] F']; subst.
  cbn [SkipWideSpaces]. rewrite (proj2 (Z.leb_gt c 0x20)) by lia. cbn [WideSign].
  rewrite (proj2 (Z.eqb_neq c 0x2B)), (proj2 (Z.eqb_neq c 0x2D)) by lia.
  assert (WideBase (c :: ds) base = (c :: ds, effective base)) as ->.
  { unfold WideBase, effective. destruct (Z.eqb_spec base 0) as [->|]; [|done]. destruct ds as [|c1 ds]; [done|].
    destruct (c =? 0x30); [|done]. inversion F' as [|? ? D1 _]; subst. apply is_digit_10 in D1.
    by rewrite !(proj2 (Z.eqb_neq c1 _)) by lia. }
  rewrite Vb. cbn [negb]. change 0 with (u32 0) at 1. by rewrite WideDigitLoop_run.
Qed.

(** C16: round trip of [RtlIntegerToUnicodeString] and [RtlUnicodeStringToInteger] through the
    buffer on the stack and the code page: every 32-bit value is parsed from the string it was
    printed to, in every accepted base, if the string has room for 33 characters, its maximum
    length is even as the checked build asserts, and the single-byte code page keeps digits and
    letters. *)
Theorem integer_unicode_roundtrip `{ByteAllocator} N DBG m v base Stack String stack old :
  0 <= v < 2 ^ 32 -> accepted base -> ascii_page N ->
  has m Stack stack -> length stack = 33%nat -> Stack <> 0 ->
  has m (Buffer String) old -> MaximumLength String = Z.of_nat (length old) ->
  66 <= MaximumLength String <= MAXUSHORT -> (DBG = true -> Z.even (MaximumLength String) = true) ->
  Stack + 33 <= Buffer String \/ Buffer String + MaximumLength String <= Stack ->
  exists String' m',
    RtlIntegerToUnicodeString N DBG m Stack v base String = Some (STATUS_SUCCESS, String', m') /\
    Buffer String' = Buffer String /\ MaximumLength String' = MaximumLength String /\
    RtlUnicodeStringToInteger m' String' base true = Some (STATUS_SUCCESS, Some v).
Proof.
  intros Hv Hb HN Hst Lst Hs Hold HM Hroom Hev Hd.
  destruct (print_digits m v base Stack stack Hv Hb Hst Lst Hs) as (ds & m1 & E1 & K1 & L & F & V & S1).
  unfold RtlIntegerToUnicodeString. rewrite E1. cbn [mbind option_bind]. change (NT_SUCCESS STATUS_SUCCESS) with true. cbv iota.
  rewrite (strlen_run m1 Stack ds); [|eapply Forall_impl; [exact F|]; intros c [Rc _]; lia|done]. cbn [mbind option_bind].
  rewrite u16_small by lia.
  destruct (RtlAnsiStringToUnicodeString_run N DBG m1 String (mkString (Z.of_nat (length ds)) 33 Stack) ds ds old)
    as (m' & E2 & K2 & S2); cbn [Length Buffer]; try done; try lia.
  - apply HN.
  - by apply has_app in K1 as [K1 _].
  - by eapply Widen_digits.
  - eapply has_frame; [exact Hold|exact S1|lia].
  - do 2 eexists. split; [exact E2|]. split; [done|]. split; [done|].
    rewrite (RtlUnicodeStringToInteger_run m' _ base ds Hb F); [by rewrite V, u32_small|intros ->; simpl in L; lia|].
    split; [done|]. split.
    + eapply Forall_impl; [exact F|]. intros c [Rc _]. unfold is_wchar. lia.
    + rewrite wide_bytes_app in K2. by apply has_app in K2 as [K2 _].
Qed.

(** ** Hashes *)

(** [RtlHashUnicodeString] without regard to case does not go with [RtlEqualUnicodeString]:
    it changes only the letters a to z.  Two strings of one accented letter, small and capital,
    are equal without regard to case in every table that maps the one to the other, and have
    different hashes. *)
Theorem hash_misses_equal N m s1 s2 :
  RtlpUpcaseUnicodeChar N 0xE9 = Some 0xC9 -> RtlpUpcaseUnicodeChar N 0xC9 = Some 0xC9 ->
  holds m s1 [0xE9] -> holds m s2 [0xC9] ->
  RtlEqualUnicodeString N m s1 s2 true = Some true /\
  RtlHashUnicodeString m (Some s1) true HASH_STRING_ALGORITHM_DEFAULT true = Some (STATUS_SUCCESS, Some 0xE9) /\
  RtlHashUnicodeString m (Some s2) true HASH_STRING_ALGORITHM_DEFAULT true = Some (STATUS_SUCCESS, Some 0xC9).
Proof.
  intros U1 U2 H1 H2. pose proof (holds_count _ _ _ H1) as C1. pose proof (holds_count _ _ _ H2) as C2. cbn [length] in *.
  destruct H1 as (L1 & W1 & H1), H2 as (L2 & W2 & H2). cbn [length] in *.
  inversion W1; subst. inversion W2; subst.
  destruct (ld16_wide m (Buffer s1) 0xE9 [] ltac:(done) H1) as [E1 _].
  destruct (ld16_wide m (Buffer s2) 0xC9 [] ltac:(done) H2) as [E2 _].
  unfold RtlEqualUnicodeString, RtlCompareUnicodeString, RtlHashUnicodeString. rewrite C1, C2, L1, L2. cbn [Z.eqb].
  change (Z.to_nat (Z.min (2 * Z.of_nat 1) (2 * Z.of_nat 1) / 2)) with 1%nat.
  cbn [CompareUnicodeLoop HashChars]. rewrite E1, E2. cbn [mbind option_bind]. rewrite U1, U2. done.
Qed.

(** ** A destination that is too small *)

(** [RtlUpcaseUnicodeStringToAnsiString] writes past its destination: in a single-byte code
    page, a destination that is too small but not empty is not refused, and the byte behind it is
    written: if it is not mapped the function faults. *)
Theorem upcase_to_ansi_overruns `{ByteAllocator} N DBG m d s cs bs :
  NlsMbCodePageTag N = false -> holds m s cs -> Length s < 2 ^ 16 ->
  Narrow (RtlpUpcaseUnicodeChar N) (NlsUnicodeToMbAnsiTable N) (Z.of_nat (length cs)) cs = Some bs ->
  length bs = length cs -> 0 < MaximumLength d <= Z.of_nat (length cs) ->
  m !! (Buffer d + MaximumLength d) = None ->
  RtlUpcaseUnicodeStringToAnsiString N DBG m d s false = None.
Proof.
  intros HN Hs H16 HW Hl HM Hun. unfold RtlUpcaseUnicodeStringToAnsiString, RtlUnicodeStringToAnsiSize. rewrite HN.
  cbn [mbind option_bind]. assert (Length s = 2 * Z.of_nat (length cs)) as L by apply Hs. unfold MAXUSHORT. rewrite L in *.
  replace ((2 * Z.of_nat (length cs) + 2) / 2) with (Z.of_nat (length cs) + 1)
    by (replace (2 * Z.of_nat (length cs) + 2) with ((Z.of_nat (length cs) + 1) * 2) by lia; by rewrite Z.div_mul by lia).
  rewrite (proj2 (Z.ltb_ge 0xFFFF _)) by lia. rewrite (u16_small (Z.of_nat (length cs) + 1)), u16_small by lia.
  unfold Destination. cbn [MaximumLength]. rewrite (proj2 (Z.eqb_neq (MaximumLength d) 0)) by lia. rewrite orb_true_r.
  rewrite (chars_of_run m s cs Hs). cbn [mbind option_bind Length].
  unfold RtlUpcaseUnicodeToMultiByteN, FromUnicodeN. rewrite HN. cbn [negb].
  replace (Z.of_nat (length cs) + 1 - 1) with (Z.of_nat (length cs)) by lia.
  rewrite u32_small, (proj2 (Z.ltb_ge _ _)), (Z.mul_comm 2), Z.div_mul, HW by lia. cbn [mbind option_bind Buffer].
  destruct (store m (Buffer d) bs) as [m1|] eqn:E1; [|done]. cbn [mbind option_bind].
  apply store_mapped in E1 as [D1 D2]. rewrite Hl in D1.
  destruct (decide (MaximumLength d = Z.of_nat (length cs))) as [<-|Nm].
  - destruct (st8 m1 _ 0) as [m2|] eqn:E2; [|done]. apply store_mapped in E2 as [D3 _].
    destruct (D3 (Buffer d + MaximumLength d)) as [x Hx]; [rewrite length_enc; lia|].
    destruct (proj1 (D2 _) (ex_intro _ x Hx)) as [y Hy]. congruence.
  - destruct (D1 (Buffer d + MaximumLength d)) as [x Hx]; [lia|]. congruence.
Qed.
