(* ===== verification/GuidClaims.v ===== *)
(** * GUIDs as strings

    [RtlStringFromGUID] prints the sixteen bytes of a GUID, [RtlGUIDFromString] reads them back. *)

From Stdlib Require Import ZArith Lia Bool.
From stdpp Require Import base option list numbers gmap.
From S2P Require Import Prelude Memory Nls NlsProps Unicode UnicodeConvert UnicodeProps UnicodeNumber.
Open Scope Z_scope.

(** ** Hexadecimal digits *)

Definition hex_char (d : Z) : Z := if d <? 10 then 0x30 + d else 0x61 + d - 10.

Lemma HexOf_char d : 0 <= d < 16 -> HexOf (hex_char d) = Some d.
Proof.
  intros H. assert (forallb (fun d => bool_decide (HexOf (hex_char d) = Some d)) (seqZ 0 16) = true) as T
    by (vm_compute; reflexivity).
  rewrite forallb_forall in T. specialize (T d). apply bool_decide_eq_true in T; [done|].
  apply list_elem_of_In, elem_of_seqZ. lia.
Qed.

Lemma hex_char_wchar d : 0 <= d < 16 -> is_wchar (hex_char d).
Proof. intros H. unfold is_wchar, hex_char. destruct (d <? 10); lia. Qed.

Lemma print_hex_2 b : is_byte b -> print_hex 2 b = [hex_char (b / 16); hex_char (b mod 16)].
Proof.
  intros Hb. unfold is_byte in Hb. cbn [print_hex app]. fold (hex_char (b mod 16)).
  rewrite (Z.mod_small (b / 16)); [done|]. split; [apply Z.div_pos; lia|apply Z.div_lt_upper_bound; lia].
Qed.

(** A byte below the others is printed last. *)
Lemma print_hex_byte n b r : is_byte b -> print_hex (S (S n)) (b + 2 ^ 8 * r) = print_hex n r ++ print_hex 2 b.
Proof.
  intros Hb. unfold is_byte in Hb. cbn [print_hex app].
  replace ((b + 2 ^ 8 * r) mod 16) with (b mod 16)
    by (replace (b + 2 ^ 8 * r) with (b + 2 ^ 4 * r * 16) by lia; by rewrite Z.mod_add by lia).
  replace ((b + 2 ^ 8 * r) / 16) with (b / 16 + r * 16)
    by (replace (b + 2 ^ 8 * r) with (b + 16 * r * 16) by lia; rewrite Z.div_add by lia; lia).
  assert (0 <= b / 16 < 16) by (split; [apply Z.div_pos; lia|apply Z.div_lt_upper_bound; lia]).
  rewrite Z.mod_add, Z.div_add, (Z.div_small (b / 16)), Z.add_0_l, <- app_assoc by lia. done.
Qed.

(** ** One step of the parser *)

Definition is_mark (i : Z) : bool :=
  (i =? 0) || (i =? 9) || (i =? 14) || (i =? 19) || (i =? 24) || (i =? 37).
Definition mark (i : Z) : Z := if i =? 0 then 0x7B else if i =? 37 then 0x7D else 0x2D.

Lemma GuidLoop_mark fuel m p out i rest :
  is_mark i = true -> i <= 37 -> has m p (wide_bytes (mark i :: rest)) ->
  GuidLoop (S fuel) m p out i = GuidLoop fuel m (p + 2) out (i + 1) /\ has m (p + 2) (wide_bytes rest).
Proof.
  intros Hm Hi H. assert (is_wchar (mark i)) as W by (unfold mark, is_wchar; repeat case_match; lia).
  destruct (ld16_wide m p _ _ W H) as [E H']. split; [|done]. cbn [GuidLoop].
  rewrite (proj2 (Z.ltb_ge 37 i)) by lia. rewrite E. cbn [mbind option_bind]. fold (is_mark i). rewrite Hm.
  fold (mark i). by rewrite Z.eqb_refl.
Qed.

Lemma has_insert m p bs q (b : Z) : has m p bs -> q < p \/ p + Z.of_nat (length bs) <= q -> has (<[q := b]> m) p bs.
Proof.
  intros H Hq. apply (has_frame m _ q 1 p); [done| |lia]. intros z Hz. apply lookup_insert_ne. lia.
Qed.

Lemma st8_mapped (m : mem) p v x : m !! p = Some x -> st8 m p v = Some (<[p := u8 v]> m).
Proof. intros H. unfold st8. change (enc 1 v) with [u8 v]. cbn [store]. by rewrite H. Qed.

Lemma GuidLoop_byte fuel m p out i b rest place step :
  is_byte b -> GuidPlace i = (place, step) -> is_mark i = false -> i <= 37 ->
  has m p (wide_bytes (print_hex 2 b ++ rest)) -> is_Some (m !! (out + place)) ->
  out + place < p \/ p + 2 * Z.of_nat (2 + length rest) <= out + place ->
  GuidLoop (S fuel) m p out i = GuidLoop fuel (<[out + place := b]> m) (p + 4) (out + step) (i + 2) /\
  has (<[out + place := b]> m) (p + 4) (wide_bytes rest).
Proof.
  intros Hb HP Hm Hi H [x Hx] Hd. rewrite print_hex_2 in H by done. cbn [app] in H.
  assert (0 <= b / 16 < 16 /\ 0 <= b mod 16 < 16) as [R1 R2].
  { unfold is_byte in Hb. split; [split; [apply Z.div_pos; lia|apply Z.div_lt_upper_bound; lia]|by apply Z.mod_pos_bound]. }
  destruct (ld16_wide m p _ _ (hex_char_wchar _ R1) H) as [E1 H1].
  destruct (ld16_wide m (p + 2) _ _ (hex_char_wchar _ R2) H1) as [E2 H2].
  replace (p + 2 + 2) with (p + 4) in H2 by lia. split.
  - cbn [GuidLoop]. rewrite (proj2 (Z.ltb_ge 37 i)) by lia. rewrite E1. cbn [mbind option_bind]. fold (is_mark i). rewrite Hm, E2.
    cbn [mbind option_bind]. rewrite !HexOf_char, HP by done. rewrite (st8_mapped _ _ _ _ Hx). cbn [mbind option_bind].
    assert (Z.lor (Z.shiftl (b / 16) 4) (b mod 16) = b) as ->.
    { rewrite lor_shiftl_add by (change (2 ^ 4) with 16; lia). change (2 ^ 4) with 16. pose proof (Z.div_mod b 16 ltac:(lia)). lia. }
    unfold is_byte in Hb. by rewrite !(u8_small b).
  - apply has_insert; [done|]. rewrite length_wide_bytes. lia.
Qed.

(** ** The whole GUID *)

Definition guid_chars (b : list Z) : list Z :=
  match b with
  | [b0; b1; b2; b3; b4; b5; b6; b7; b8; b9; b10; b11; b12; b13; b14; b15] =>
      [mark 0] ++ print_hex 2 b3 ++ print_hex 2 b2 ++ print_hex 2 b1 ++ print_hex 2 b0
      ++ [mark 9] ++ print_hex 2 b5 ++ print_hex 2 b4 ++ [mark 14] ++ print_hex 2 b7 ++ print_hex 2 b6
      ++ [mark 19] ++ print_hex 2 b8 ++ print_hex 2 b9
      ++ [mark 24] ++ print_hex 2 b10 ++ print_hex 2 b11 ++ print_hex 2 b12 ++ print_hex 2 b13
      ++ print_hex 2 b14 ++ print_hex 2 b15 ++ [mark 37]
  | _ => []
  end.

Lemma GuidChars_bytes b0 b1 b2 b3 b4 b5 b6 b7 b8 b9 b10 b11 b12 b13 b14 b15 :
  let b := [b0; b1; b2; b3; b4; b5; b6; b7; b8; b9; b10; b11; b12; b13; b14; b15] in
  Forall is_byte b ->
  GuidChars (dec [b0; b1; b2; b3]) (dec [b4; b5]) (dec [b6; b7]) [b8; b9; b10; b11; b12; b13; b14; b15] = guid_chars b.
Proof.
  intros b Hb. subst b. repeat match goal with H : Forall is_byte (_ :: _) |- _ => inversion H; clear H; subst end.
  unfold GuidChars, guid_chars. cbn [take drop map concat].
  assert (print_hex 8 (dec [b0; b1; b2; b3]) = print_hex 2 b3 ++ print_hex 2 b2 ++ print_hex 2 b1 ++ print_hex 2 b0) as ->.
  { change (dec [b0; b1; b2; b3]) with (b0 + 2 ^ 8 * (b1 + 2 ^ 8 * (b2 + 2 ^ 8 * (b3 + 2 ^ 8 * 0)))).
    rewrite !print_hex_byte by done. cbn [print_hex]. by rewrite <- !app_assoc. }
  assert (forall x y, is_byte x -> is_byte y -> print_hex 4 (dec [x; y]) = print_hex 2 y ++ print_hex 2 x) as W.
  { intros x y Hx Hy. change (dec [x; y]) with (x + 2 ^ 8 * (y + 2 ^ 8 * 0)). by rewrite !print_hex_byte. }
  rewrite !W by done. rewrite <- !app_assoc. reflexivity.
Qed.

(** The string as a list of marks and bytes, the parser on it, and what it writes from the offset
    [o] on. *)
Inductive item := Mark | Byte (b : Z).

Fixpoint item_chars (prog : list item) (i : Z) : list Z :=
  match prog with
  | [] => []
  | Mark :: r => mark i :: item_chars r (i + 1)
  | Byte b :: r => print_hex 2 b ++ item_chars r (i + 2)
  end.

(** Marks where they belong, the end at 38, and all bytes inside of the sixteen. *)
Fixpoint well_placed (prog : list item) (i o : Z) : bool :=
  match prog with
  | [] => i =? 38
  | Mark :: r => is_mark i && (i <=? 37) && well_placed r (i + 1) o
  | Byte b :: r =>
      let '(place, step) := GuidPlace i in
      negb (is_mark i) && (i <=? 37) && (0 <=? o + place) && (o + place <? 16) && well_placed r (i + 2) (o + step)
  end.

Fixpoint item_writes (prog : list item) (i out : Z) (m : mem) : mem :=
  match prog with
  | [] => m
  | Mark :: r => item_writes r (i + 1) out m
  | Byte b :: r => let '(place, step) := GuidPlace i in item_writes r (i + 2) (out + step) (<[out + place := b]> m)
  end.

Lemma GuidLoop_items prog fuel m p out i o :
  well_placed prog i o = true -> Forall (fun x => match x with Byte b => is_byte b | Mark => True end) prog ->
  (length prog <= fuel)%nat -> has m p (wide_bytes (item_chars prog i)) ->
  (forall k, 0 <= k < 16 -> is_Some (m !! (out + k))) ->
  p + 2 * Z.of_nat (length (item_chars prog i)) <= out \/ out + 16 <= p ->
  GuidLoop fuel m p (out + o) i = Some (STATUS_SUCCESS, item_writes prog i (out + o) m).
Proof.
  revert fuel m p i o. induction prog as [|[|b] prog IH]; intros fuel m p i o Hw Hb Hf H Dom Hd; cbn [well_placed] in Hw.
  { apply Z.eqb_eq in Hw as ->. by destruct fuel. }
  - destruct fuel as [|fuel]; [simpl in Hf; lia|]. inversion Hb; subst. cbn [item_chars length] in *.
    apply andb_true_iff in Hw as [[Hm Hi]%andb_true_iff Hw]. apply Z.leb_le in Hi.
    destruct (GuidLoop_mark fuel m p (out + o) i _ Hm Hi H) as [-> H']. cbn [item_writes].
    apply IH; try done; simpl in *; lia.
  - destruct fuel as [|fuel]; [simpl in Hf; lia|]. inversion Hb; subst. cbn [item_chars item_writes length] in *.
    destruct (GuidPlace i) as [place step] eqn:HP.
    apply andb_true_iff in Hw as [[[[Hm Hi]%andb_true_iff Ho]%andb_true_iff Ho']%andb_true_iff Hw].
    apply negb_true_iff in Hm. apply Z.leb_le in Hi, Ho. apply Z.ltb_lt in Ho'.
    rewrite length_app in Hd. rewrite print_hex_2 in Hd by done. cbn [length] in Hd.
    destruct (GuidLoop_byte fuel m p (out + o) i b _ place step ltac:(done) HP Hm Hi H) as [-> H'].
    { replace (out + o + place) with (out + (o + place)) by lia. apply Dom. lia. }
    { cbn [length]. lia. }
    replace (out + o + step) with (out + (o + step)) by lia. apply IH; try done; [simpl in Hf; lia| |lia].
    intros k Hk. destruct (decide (out + k = out + o + place)) as [->|N]; [rewrite lookup_insert_eq; by eexists|].
    rewrite lookup_insert_ne by done. by apply Dom.
Qed.

Definition guid_items (b : list Z) : list item :=
  match b with
  | [b0; b1; b2; b3; b4; b5; b6; b7; b8; b9; b10; b11; b12; b13; b14; b15] =>
      [Mark; Byte b3; Byte b2; Byte b1; Byte b0; Mark; Byte b5; Byte b4; Mark; Byte b7; Byte b6; Mark; Byte b8; Byte b9;
       Mark; Byte b10; Byte b11; Byte b12; Byte b13; Byte b14; Byte b15; Mark]
  | _ => []
  end.

Lemma guid_items_chars b : length b = 16%nat -> item_chars (guid_items b) 0 = guid_chars b.
Proof. intros Lb. do 16 (destruct b as [|? b]; [discriminate Lb|]). destruct b; [reflexivity|discriminate Lb]. Qed.

(** The offsets that the bytes are written to. *)
Fixpoint item_places (prog : list item) (i o : Z) : list (Z * Z) :=
  match prog with
  | [] => []
  | Mark :: r => item_places r (i + 1) o
  | Byte b :: r => let '(place, step) := GuidPlace i in (o + place, b) :: item_places r (i + 2) (o + step)
  end.

Definition write_places (out : Z) (m : mem) (l : list (Z * Z)) : mem := foldl (fun m '(k, b) => <[out + k := b]> m) m l.

Lemma item_writes_places prog i out o m :
  item_writes prog i (out + o) m = write_places out m (item_places prog i o).
Proof.
  revert i o m. induction prog as [|[|b] prog IH]; intros i o m; cbn [item_writes item_places]; [done|apply IH|].
  destruct (GuidPlace i) as [place step]. replace (out + o + step) with (out + (o + step)) by lia.
  replace (out + o + place) with (out + (o + place)) by lia. apply IH.
Qed.

Lemma guid_places b0 b1 b2 b3 b4 b5 b6 b7 b8 b9 b10 b11 b12 b13 b14 b15 :
  item_places (guid_items [b0; b1; b2; b3; b4; b5; b6; b7; b8; b9; b10; b11; b12; b13; b14; b15]) 0 0 =
  [(3, b3); (2, b2); (1, b1); (0, b0); (5, b5); (4, b4); (7, b7); (6, b6); (8, b8); (9, b9); (10, b10); (11, b11);
   (12, b12); (13, b13); (14, b14); (15, b15)].
Proof. vm_compute. reflexivity. Qed.

Ltac look_up :=
  repeat first
    [ rewrite lookup_insert_ne by lia
    | apply lookup_insert_Some; left; split; [lia|reflexivity] ];
  try reflexivity.

Lemma GuidLoop_all m p out b old :
  Forall is_byte b -> length b = 16%nat -> has m p (wide_bytes (guid_chars b)) ->
  has m out old -> length old = 16%nat -> p + 76 <= out \/ out + 16 <= p ->
  exists m', GuidLoop 38 m p out 0 = Some (STATUS_SUCCESS, m') /\ has m' out b /\ same_except m m' out 16.
Proof.
  intros Hb Lb H Hold Lold Hd. rewrite <- guid_items_chars in H by done.
  do 16 (destruct b as [|? b]; [discriminate Lb|]). destruct b; [|discriminate Lb]. clear Lb.
  repeat match goal with H : Forall is_byte (_ :: _) |- _ => inversion H; clear H; subst end.
  set (b := [z; _; _; _; _; _; _; _; _; _; _; _; _; _; _; _]) in *.
  exists (item_writes (guid_items b) 0 (out + 0) m). split.
  { rewrite <- (Z.add_0_r out) at 1. apply (GuidLoop_items (guid_items b)); [reflexivity| |simpl; lia|exact H| |].
    - unfold guid_items, b. repeat (apply List.Forall_cons; [done|]). apply List.Forall_nil.
    - intros k Hk. apply (has_is_Some m out old); [done|lia].
    - unfold guid_items, b. cbn [item_chars length app]. rewrite !print_hex_2 by done. cbn [app length]. lia. }
  rewrite item_writes_places. unfold b. rewrite guid_places. unfold write_places. cbn [foldl]. split.
  - repeat (apply has_cons; split; [look_up|]). apply has_nil.
  - intros q Hq. look_up.
Qed.

Lemma guid_chars_spec b : Forall is_byte b -> length b = 16%nat ->
  length (guid_chars b) = 38%nat /\ Forall is_wchar (guid_chars b).
Proof.
  intros Hb Lb. do 16 (destruct b as [|? b]; [discriminate Lb|]). destruct b; [|discriminate Lb]. clear Lb.
  repeat match goal with H : Forall is_byte (_ :: _) |- _ => inversion H; clear H; subst end.
  assert (forall c, is_byte c -> length (print_hex 2 c) = 2%nat /\ Forall is_wchar (print_hex 2 c)) as P.
  { intros c Hc. rewrite print_hex_2 by done. split; [done|]. unfold is_byte in Hc.
    constructor; [apply hex_char_wchar; split; [apply Z.div_pos; lia|apply Z.div_lt_upper_bound; lia]|].
    constructor; [by apply hex_char_wchar, Z.mod_pos_bound|constructor]. }
  unfold guid_chars. split.
  - rewrite !length_app. cbn [length]. rewrite !(fun c Hc => proj1 (P c Hc)) by done. done.
  - assert (forall i, Forall is_wchar [mark i]) as M by (intros i; constructor; [unfold mark, is_wchar; repeat case_match; lia|constructor]).
    repeat (apply Forall_app; split; [first [apply M|by apply P]|]). apply M.
Qed.

(** The fields of a GUID are read from its bytes. *)
Lemma guid_fields m p b : has m p b -> length b = 16%nat ->
  exists b0 b1 b2 b3 b4 b5 b6 b7 r, b = [b0; b1; b2; b3; b4; b5; b6; b7] ++ r /\ length r = 8%nat /\
    ld32 m p = Some (dec [b0; b1; b2; b3]) /\ ld16 m (p + 4) = Some (dec [b4; b5]) /\
    ld16 m (p + 6) = Some (dec [b6; b7]) /\ load m (p + 8) 8 = Some r.
Proof.
  intros H Lb. do 8 (destruct b as [|? b]; [discriminate Lb|]). do 8 eexists. exists b. split; [done|].
  assert (length b = 8%nat) as Lr by (simpl in Lb; lia). split; [done|]. unfold ld32, ld16.
  pose proof (load_middle m p [] [z; z0; z1; z2] ([z3; z4; z5; z6] ++ b) H) as E1.
  pose proof (load_middle m p [z; z0; z1; z2] [z3; z4] ([z5; z6] ++ b) H) as E2.
  pose proof (load_middle m p [z; z0; z1; z2; z3; z4] [z5; z6] b H) as E3.
  pose proof (load_middle m p [z; z0; z1; z2; z3; z4; z5; z6] b []) as E4. rewrite app_nil_r in E4. specialize (E4 H).
  cbn [length] in *. rewrite Lr in E4. change (Z.of_nat 0) with 0 in E1. rewrite Z.add_0_r in E1.
  change (Z.of_nat 4) with 4 in E2. change (Z.of_nat 6) with 6 in E3. change (Z.of_nat 8) with 8 in E4.
  by rewrite E1, E2, E3, E4.
Qed.

(** C15: round trip of GUIDs: [RtlStringFromGUID] prints the sixteen bytes of any GUID as a string
    of 38 characters in a new block and changes nothing else, and [RtlGUIDFromString] reads the
    same sixteen bytes from it into any other place. *)
Theorem guid_roundtrip `{ByteAllocator} m Guid GuidString b p out old :
  Forall is_byte b -> length b = 16%nat -> has m Guid b -> balloc m 78 = Some p ->
  has m out old -> length old = 16%nat ->
  exists String m1 m2,
    RtlStringFromGUID m Guid GuidString = Some (STATUS_SUCCESS, String, m1) /\
    holds m1 String (guid_chars b) /\ Length String = 76 /\ MaximumLength String = 78 /\ same_except m m1 p 78 /\
    RtlGUIDFromString m1 String out = Some (STATUS_SUCCESS, m2) /\ has m2 out b /\ same_except m1 m2 out 16.
Proof.
  intros Hb Lb Hg Hp Hold Lold. unfold RtlStringFromGUID. rewrite Hp.
  assert (out + 16 <= p \/ p + 78 <= out) as Do.
  { pose proof (fresh_disjoint m 78 p out old Hp Hold ltac:(lia)) as D. rewrite Lold in D. apply D. by intros ->. }
  pose proof (has_fresh m 78 p Guid b garbage Hp Hg) as Hg0. pose proof (has_fresh m 78 p out old garbage Hp Hold) as Ho0.
  pose proof (map_bytes_has 78 p garbage m) as G. pose proof (map_bytes_same 78 p garbage m) as S0.
  change (Z.to_nat 78) with 78%nat in *. set (m0 := map_bytes 78 p garbage m) in *. clearbody m0.
  destruct (guid_fields m0 Guid b Hg0 Lb) as (b0 & b1 & b2 & b3 & b4 & b5 & b6 & b7 & r & Eb & Lr & E1 & E2 & E3 & E4).
  rewrite E1. cbn [mbind option_bind]. rewrite E2. cbn [mbind option_bind]. rewrite E3. cbn [mbind option_bind]. rewrite E4.
  cbn [mbind option_bind].
  assert (GuidChars (dec [b0; b1; b2; b3]) (dec [b4; b5]) (dec [b6; b7]) r = guid_chars b) as ->.
  { subst b. do 8 (destruct r as [|? r]; [discriminate Lr|]). destruct r; [|discriminate Lr]. by apply GuidChars_bytes. }
  destruct (guid_chars_spec b Hb Lb) as [Lc Wc].
  destruct (store_at m0 p (replicate 78 garbage) (wide_bytes (guid_chars b ++ [0])) G) as (m1 & -> & K1 & S1 & _).
  { rewrite length_wide_bytes, length_app, Lc. done. }
  rewrite length_replicate in S1. cbn [mbind option_bind]. rewrite wide_bytes_app in K1. apply has_app in K1 as [K1 _].
  destruct (GuidLoop_all m1 p out b old Hb Lb K1) as (m2 & E5 & K2 & S2); [|done|lia|].
  { eapply has_frame; [exact Ho0|exact S1|]. rewrite Lold. lia. }
  exists (mkString 76 78 p), m1, m2. split; [done|]. split; [split; [by rewrite Lc|done]|]. split_and!; try done.
  intros q Hq. rewrite S1, S0 by lia. done.
Qed.
