(* ===== verification/UnicodeExamples.v ===== *)
(** * Strings in a concrete memory

    The theorems on counted strings at concrete strings, tables and memories. *)

From Stdlib Require Import ZArith Lia Bool.
From stdpp Require Import base option list numbers gmap.
From S2P Require Import Prelude Memory Nls NlsProps Unicode UnicodeConvert UnicodeProps UnicodeNumber UnicodeNumberProps UnicodeClaims GuidClaims.
Open Scope Z_scope.

Module StringExample.

(** Tables in which only the letters a to z have another upper case, and a single-byte code page
    in which every character is itself. *)
Definition flat : NLS :=
  mkNls (replicate 256 256 ++ replicate 16 272 ++ replicate 16 0) [] 1252 false (seqZ 0 256)
    ((fun i => 2 * i + (2 * i + 1) * 2 ^ 8) <$> seqZ 0 128) None 437 false [] [] None 0x3F 0x3F.

Definition up (c : Z) : Z := if (0x61 <=? c) && (c <=? 0x7A) then c - 0x20 else c.

Lemma rd_replicate {A} (x : A) n a i : 0 <= i < Z.of_nat n -> rd (replicate n x ++ a) i = Some x.
Proof.
  intros H. unfold rd. rewrite (proj2 (Z.leb_le _ _)) by lia.
  apply lookup_app_l_Some. apply lookup_replicate. split; [done|lia].
Qed.

Lemma flat_upcases : upcases flat up.
Proof.
  intros c Hc. unfold is_wchar in Hc. unfold RtlpUpcaseUnicodeChar, up, flat. cbn [NlsUnicodeUpcaseTable].
  destruct (Z.ltb_spec c 0x61) as [H|H]; [by rewrite (proj2 (Z.leb_gt 0x61 c)) by lia|].
  rewrite (proj2 (Z.leb_le 0x61 c)) by lia. cbn [andb].
  destruct (Z.leb_spec c 0x7A) as [H'|H']; [f_equal; unfold u16; rewrite Z.mod_small; lia|].
  change 0xFF with (Z.ones 8). change 0xF with (Z.ones 4). rewrite !Z.land_ones by lia.
  pose proof (Z.mod_pos_bound (Z.shiftr c 8) (2 ^ 8) ltac:(lia)) as B1.
  pose proof (Z.mod_pos_bound (Z.shiftr c 4) (2 ^ 4) ltac:(lia)) as B2. pose proof (Z.mod_pos_bound c (2 ^ 4) ltac:(lia)) as B3.
  rewrite (rd_replicate 256 256) by lia. cbn [mbind option_bind].
  assert (forall k, 0 <= k < 16 -> rd (replicate 256 256 ++ replicate 16 272 ++ replicate 16 0) (u16 (256 + k)) = Some 272) as R2.
  { intros k Hk. unfold u16. rewrite Z.mod_small by lia. unfold rd. rewrite (proj2 (Z.leb_le _ _)) by lia.
    rewrite lookup_app_r by (rewrite length_replicate; lia). apply lookup_app_l_Some, lookup_replicate.
    rewrite length_replicate. split; [done|lia]. }
  assert (forall k, 0 <= k < 16 -> rd (replicate 256 256 ++ replicate 16 272 ++ replicate 16 0) (u16 (272 + k)) = Some 0) as R3.
  { intros k Hk. unfold u16. rewrite Z.mod_small by lia. unfold rd. rewrite (proj2 (Z.leb_le _ _)) by lia.
    rewrite lookup_app_r by (rewrite length_replicate; lia). rewrite lookup_app_r by (rewrite !length_replicate; lia).
    apply lookup_replicate. rewrite !length_replicate. split; [done|lia]. }
  rewrite R2 by lia. cbn [mbind option_bind]. rewrite R3 by lia. cbn [mbind option_bind].
  change (s16 0) with 0. rewrite Z.add_0_r. f_equal. apply u16_small. lia.
Qed.

(** The strings ab, AB and b, a buffer of eight bytes, and room for 33 and 66 bytes. *)
Definition memory : mem :=
  lay 100 (wide_bytes [0x61; 0x62]) (lay 200 (wide_bytes [0x41; 0x42]) (lay 300 (wide_bytes [0x62])
    (lay 400 (replicate 8 0xBA) (lay 500 (replicate 33 0) (lay 600 (replicate 66 0) ∅))))).

Definition ab : UNICODE_STRING := mkString 4 4 100.
Definition AB : UNICODE_STRING := mkString 4 4 200.
Definition b : UNICODE_STRING := mkString 2 2 300.

Lemma ab_holds : holds memory ab [0x61; 0x62].
Proof. split; [done|]. split; [by repeat (constructor; [split; [lia|reflexivity]|])|vm_compute; reflexivity]. Qed.
Lemma AB_holds : holds memory AB [0x41; 0x42].
Proof. split; [done|]. split; [by repeat (constructor; [split; [lia|reflexivity]|])|vm_compute; reflexivity]. Qed.
Lemma b_holds : holds memory b [0x62].
Proof. split; [done|]. split; [by repeat (constructor; [split; [lia|reflexivity]|])|vm_compute; reflexivity]. Qed.

Lemma compare_total_order_witness :
  exists r12 r21 r23 r13,
    RtlCompareUnicodeString flat memory ab AB true = Some r12 /\ RtlCompareUnicodeString flat memory AB ab true = Some r21 /\
    RtlCompareUnicodeString flat memory AB b true = Some r23 /\ RtlCompareUnicodeString flat memory ab b true = Some r13 /\
    Z.sgn r12 = 0 /\ Z.sgn r21 = - Z.sgn r12 /\ (r12 <= 0 -> r23 <= 0 -> r13 <= 0) /\
    RtlEqualUnicodeString flat memory ab AB true = Some (r12 =? 0) /\
    (r12 = 0 <-> [0x41; 0x42] = [0x41; 0x42]).
Proof.
  exact (compare_total_order flat up flat_upcases memory ab AB b _ _ _ true ab_holds AB_holds b_holds).
Defined.

Lemma prefix_decides_witness :
  exists r, RtlPrefixUnicodeString flat memory b ab true = Some r /\ (r = true <-> [0x42] `prefix_of` [0x41; 0x42]).
Proof. apply (prefix_decides flat up flat_upcases memory b ab _ _ true b_holds ab_holds); done. Defined.

Lemma copy_unicode_string_witness :
  exists d' m',
    RtlCopyUnicodeString memory (mkString 0 8 400) (Some ab) = Some (d', m') /\
    holds m' d' [0x61; 0x62] /\ Buffer d' = 400 /\ MaximumLength d' = 8 /\ Length d' <= MaximumLength d' /\
    (Length d' < MaximumLength d' -> ld16 m' (Buffer d' + Length d') = Some 0) /\ same_except memory m' 400 8.
Proof.
  apply (copy_unicode_string memory (mkString 0 8 400) ab [0x61; 0x62] (replicate 8 0xBA)); [apply ab_holds|vm_compute; reflexivity|done|by exists 4%nat].
Defined.

Lemma append_unicode_string_witness :
  exists Status d' m',
    RtlAppendUnicodeStringToString memory (mkString 0 8 400) ab = Some (Status, d', m') /\
    Status = STATUS_SUCCESS /\ holds m' d' [0x61; 0x62] /\ Buffer d' = 400 /\ MaximumLength d' = 8 /\
    Length d' <= MaximumLength d' /\
    ([0x61; 0x62] <> [] -> Length d' < MaximumLength d' -> ld16 m' (Buffer d' + Length d') = Some 0) /\
    same_except memory m' 400 8.
Proof.
  apply (append_unicode_string memory (mkString 0 8 400) ab [] [0x61; 0x62] (replicate 8 0xBA));
    [split; [done|split; [constructor|done]]|vm_compute; reflexivity|apply ab_holds|done|by exists 4%nat|done].
Defined.

(** An allocator that places every block at address 1000 when that is free. *)
Program Definition at_1000 : ByteAllocator := {|
  balloc m n := if decide (Forall (fun q => m !! q = None) (seqZ 1000 n)) then Some 1000 else None;
  garbage := 0xBA |}.
Next Obligation.
  intros m n p q. simpl. case_decide as H; [|done]. intros [= <-] Hq.
  apply (Forall_lookup_1 _ _ (Z.to_nat (q - 1000)) q H). rewrite lookup_seqZ. lia.
Qed.

Lemma duplicate_copies_witness :
  exists d' m',
    @RtlDuplicateUnicodeString at_1000 memory RTL_DUPLICATE_UNICODE_STRING_NULL_TERMINATE (Some ab) (Some b)
    = Some (STATUS_SUCCESS, Some d', m') /\
    holds m' d' [0x61; 0x62] /\ Buffer d' = 1000 /\ ld16 m' (1000 + Length d') = Some 0 /\
    same_except memory m' 1000 6 /\ MaximumLength d' = 6.
Proof.
  apply (@duplicate_copies at_1000 true memory ab [0x61; 0x62] b 1000); [apply ab_holds|done|done|done|vm_compute; reflexivity].
Defined.

Lemma integer_char_roundtrip_witness :
  exists m',
    RtlIntegerToChar memory 0xDEADBEEF 16 33 500 = Some (STATUS_SUCCESS, m') /\
    RtlCharToInteger m' 500 16 true = Some (STATUS_SUCCESS, Some 0xDEADBEEF) /\ same_except memory m' 500 33.
Proof.
  apply (integer_char_roundtrip memory 0xDEADBEEF 16 500 (replicate 33 0)); [lia|by do 4 right|vm_compute; reflexivity|done|done].
Defined.

Lemma integer_unicode_roundtrip_witness :
  exists String' m',
    @RtlIntegerToUnicodeString at_1000 flat true memory 500 0xDEADBEEF 0 (mkString 0 66 600) = Some (STATUS_SUCCESS, String', m') /\
    Buffer String' = 600 /\ MaximumLength String' = 66 /\
    RtlUnicodeStringToInteger m' String' 0 true = Some (STATUS_SUCCESS, Some 0xDEADBEEF).
Proof.
  apply (@integer_unicode_roundtrip at_1000 flat true memory 0xDEADBEEF 0 500 (mkString 0 66 600) (replicate 33 0) (replicate 66 0));
    [lia|by left| |vm_compute; reflexivity|done|done|vm_compute; reflexivity|done|done|done|cbn; lia].
  split; [done|]. intros c Hc. unfold flat, rd. cbn [NlsAnsiToUnicodeTable]. rewrite (proj2 (Z.leb_le _ _)) by lia.
  apply lookup_seqZ. lia.
Defined.

(** Tables in which the letter 0xE9 has the upper case 0xC9. *)
Definition accented : NLS :=
  mkNls (288 :: replicate 255 256 ++ replicate 16 272 ++ replicate 16 0
         ++ replicate 14 272 ++ [304; 272] ++ replicate 9 0 ++ [0xFFE0] ++ replicate 6 0) [] 1252 false [] [] None
    437 false [] [] None 0x3F 0x3F.

Lemma hash_misses_equal_witness :
  let m := lay 100 (wide_bytes [0xE9]) (lay 200 (wide_bytes [0xC9]) ∅) in
  RtlEqualUnicodeString accented m (mkString 2 2 100) (mkString 2 2 200) true = Some true /\
  RtlHashUnicodeString m (Some (mkString 2 2 100)) true HASH_STRING_ALGORITHM_DEFAULT true = Some (STATUS_SUCCESS, Some 0xE9) /\
  RtlHashUnicodeString m (Some (mkString 2 2 200)) true HASH_STRING_ALGORITHM_DEFAULT true = Some (STATUS_SUCCESS, Some 0xC9).
Proof.
  apply hash_misses_equal; [vm_compute; reflexivity|vm_compute; reflexivity| |];
    (split; [done|split; [constructor; [split; [lia|reflexivity]|constructor]|vm_compute; reflexivity]]).
Defined.

Lemma upcase_to_ansi_overruns_witness :
  @RtlUpcaseUnicodeStringToAnsiString flat true at_1000 (lay 100 (wide_bytes [0x61; 0x62]) (lay 200 [0] ∅))
    (mkString 0 1 200) ab false = None.
Proof.
  apply (@upcase_to_ansi_overruns at_1000 flat true _ (mkString 0 1 200) ab [0x61; 0x62] [0x41; 0x42]);
    [done| |done|vm_compute; reflexivity|done|cbn; lia|vm_compute; reflexivity].
  split; [done|split; [by repeat (constructor; [split; [lia|reflexivity]|])|vm_compute; reflexivity]].
Defined.

(** The bytes of a GUID at 100, and room for another one at 200. *)
Definition guid : list Z := [0x12; 0x34; 0x56; 0x78; 0x9A; 0xBC; 0xDE; 0xF0; 1; 2; 3; 4; 5; 6; 7; 8].

Lemma guid_roundtrip_witness :
  let m := lay 100 guid (lay 200 (replicate 16 0) ∅) in
  exists String m1 m2,
    @RtlStringFromGUID at_1000 m 100 (mkString 0 0 0) = Some (STATUS_SUCCESS, String, m1) /\
    holds m1 String (guid_chars guid) /\ Length String = 76 /\ MaximumLength String = 78 /\ same_except m m1 1000 78 /\
    RtlGUIDFromString m1 String 200 = Some (STATUS_SUCCESS, m2) /\ has m2 200 guid /\ same_except m1 m2 200 16.
Proof.
  intros m. apply (@guid_roundtrip at_1000 m 100 (mkString 0 0 0) guid 1000 200 (replicate 16 0));
    [by repeat (constructor; [split; [lia|reflexivity]|])|done|vm_compute; reflexivity|vm_compute; reflexivity|vm_compute; reflexivity|done].
Defined.

End StringExample.

(** [RtlGUIDFromString] does not look at the length of the string: it reads behind a string
    of 37 characters that only lacks the closing brace, and faults if nothing is mapped there. *)
Theorem guid_reads_past_string :
  let chars := take 37 (guid_chars (replicate 16 0)) in
  let m := lay 100 (wide_bytes chars) (lay 200 (replicate 16 0) ∅) in
  holds m (mkString 74 74 100) chars /\ RtlGUIDFromString m (mkString 74 74 100) 200 = None.
Proof.
  cbv zeta. split; [|vm_compute; reflexivity]. split; [vm_compute; reflexivity|]. split; [|vm_compute; reflexivity].
  refine (bool_decide_unpack _ _). vm_compute. reflexivity.
Qed.
