(* ===== verification/UnicodeGuess.v ===== *)
(** * The guess of RtlIsTextUnicode (sdk/lib/rtl/unicode.c)

    The flags of the tests are collected in [out_flags].  [pf] is [None] for NULL; otherwise the
    flags asked for, and the result has the flags found. *)

From Stdlib Require Import ZArith Lia Bool.
From stdpp Require Import base option list numbers gmap.
From S2P Require Import Prelude Memory Nls Unicode UnicodeProps.
Open Scope Z_scope.

Definition IS_TEXT_UNICODE_ASCII16 : Z := 1.
Definition IS_TEXT_UNICODE_REVERSE_ASCII16 : Z := 16.
Definition IS_TEXT_UNICODE_STATISTICS : Z := 2.
Definition IS_TEXT_UNICODE_REVERSE_STATISTICS : Z := 32.
Definition IS_TEXT_UNICODE_CONTROLS : Z := 4.
Definition IS_TEXT_UNICODE_REVERSE_CONTROLS : Z := 64.
Definition IS_TEXT_UNICODE_SIGNATURE : Z := 8.
Definition IS_TEXT_UNICODE_REVERSE_SIGNATURE : Z := 128.
Definition IS_TEXT_UNICODE_ILLEGAL_CHARS : Z := 256.
Definition IS_TEXT_UNICODE_ODD_LENGTH : Z := 512.
Definition IS_TEXT_UNICODE_DBCS_LEADBYTE : Z := 1024.
Definition IS_TEXT_UNICODE_NULL_BYTES : Z := 4096.
Definition IS_TEXT_UNICODE_UNICODE_MASK : Z := 15.
Definition IS_TEXT_UNICODE_REVERSE_MASK : Z := 240.
Definition IS_TEXT_UNICODE_NOT_UNICODE_MASK : Z := 3840.
Definition IS_TEXT_UNICODE_NOT_ASCII_MASK : Z := 61440.

(** The characters that [strchrW] finds, the NUL at the end included. *)
Definition std_control_chars : list Z := [0x0D; 0x0A; 0x09; 0x20; 0x3000; 0].
Definition byterev_control_chars : list Z := [0x0D00; 0x0A00; 0x0900; 0x2000; 0].

Definition has_flag (flags f : Z) : bool := negb (Z.land flags f =? 0).
Definition set_if (b : bool) (f out_flags : Z) : Z := if b then Z.lor out_flags f else out_flags.

(** The loop over the characters: the sums of the differences, and whether one is illegal. *)
Fixpoint DiffLoop (s : list Z) (last_lo last_hi lo_diff hi_diff : Z) (illegal : bool) : Z * Z * bool :=
  match s with
  | [] => (lo_diff, hi_diff, illegal)
  | c :: s' =>
      let lo := LOBYTE c in
      let hi := HIBYTE c in
      DiffLoop s' lo hi (u32 (lo_diff + (Z.max lo last_lo - Z.min lo last_lo)))
        (u32 (hi_diff + (Z.max hi last_hi - Z.min hi last_hi)))
        (illegal || (c =? 0xFFFE) || (c =? 0) || (c =? 0x0A0D) || (c =? 0xFFFF))
  end.

Section Guess.

Variable N : NLS.

(** A lead byte skips the character behind it; the table is indexed with the WCHAR. *)
Fixpoint LeadLoop (table : list Z) (s : list Z) (lead_byte : Z) : option Z :=
  match s with
  | [] => Some lead_byte
  | c :: s' =>
      info ← rd table c;
      if negb (info =? 0)
      then match s' with [] => Some (u32 (lead_byte + 1)) | _ :: s'' => LeadLoop table s'' (u32 (lead_byte + 1)) end
      else LeadLoop table s' lead_byte
  end.

Definition RtlIsTextUnicode (m : mem) (buf len : Z) (pf : option Z) : option (bool * option Z) :=
  if u32 len <? 2 then Some (false, (fun _ => 0) <$> pf) else
  let flags := default (2 ^ 32 - 1) pf in
  let out_flags := set_if (Z.odd len) IS_TEXT_UNICODE_ODD_LENGTH 0 in
  last ← ld8 m (buf + len - 1);
  let len := if last =? 0 then len - 1 else len in
  let len := Z.min (u32 len / 2) 256 in
  first ← ld16 m buf;
  let out_flags := set_if (first =? 0xFEFF) IS_TEXT_UNICODE_SIGNATURE out_flags in
  let out_flags := set_if (first =? 0xFFFE) IS_TEXT_UNICODE_REVERSE_SIGNATURE out_flags in
  s ← ldw m buf (Z.to_nat len);
  let '(lo_byte_diff, hi_byte_diff, illegal) := DiffLoop s 0 0 0 0 false in
  let out_flags := set_if illegal IS_TEXT_UNICODE_ILLEGAL_CHARS out_flags in
  lead_byte ← (if NlsMbCodePageTag N then table ← NlsLeadByteInfo N; LeadLoop table s 0 else Some 0);
  let weight :=
    if lead_byte =? 0 then 3 else
    let weight := u32 (len / 2 - 1) in
    if lead_byte <? weight / 3 then 3 else if lead_byte <? u32 (weight * 2) / 3 then 2 else 1 in
  let asked := match pf with Some f => has_flag f IS_TEXT_UNICODE_DBCS_LEADBYTE | None => false end in
  let out_flags := set_if (negb (lead_byte =? 0) && asked) IS_TEXT_UNICODE_DBCS_LEADBYTE out_flags in
  let out_flags := set_if ((lo_byte_diff <? 127) && (hi_byte_diff =? 0)) IS_TEXT_UNICODE_ASCII16 out_flags in
  let out_flags :=
    set_if (negb (hi_byte_diff =? 0) && (lo_byte_diff =? 0)) IS_TEXT_UNICODE_REVERSE_ASCII16 out_flags in
  let out_flags :=
    set_if (u32 (weight * lo_byte_diff) <? hi_byte_diff) IS_TEXT_UNICODE_REVERSE_STATISTICS out_flags in
  let out_flags :=
    set_if (has_flag flags IS_TEXT_UNICODE_STATISTICS && (u32 (weight * hi_byte_diff) <? lo_byte_diff))
      IS_TEXT_UNICODE_STATISTICS out_flags in
  let out_flags :=
    set_if (has_flag flags IS_TEXT_UNICODE_NULL_BYTES &&
            existsb (fun c => (Z.land c 0xFF =? 0) || (Z.shiftr c 8 =? 0)) s) IS_TEXT_UNICODE_NULL_BYTES out_flags in
  let out_flags :=
    set_if (has_flag flags IS_TEXT_UNICODE_CONTROLS && existsb (fun c => existsb (Z.eqb c) std_control_chars) s)
      IS_TEXT_UNICODE_CONTROLS out_flags in
  let out_flags :=
    set_if (has_flag flags IS_TEXT_UNICODE_REVERSE_CONTROLS &&
            existsb (fun c => existsb (Z.eqb c) byterev_control_chars) s)
      IS_TEXT_UNICODE_REVERSE_CONTROLS out_flags in
  let out_flags := match pf with Some f => Z.land out_flags f | None => out_flags end in
  let result :=
    if has_flag out_flags (Z.lor IS_TEXT_UNICODE_REVERSE_MASK IS_TEXT_UNICODE_NOT_UNICODE_MASK) then false
    else if has_flag out_flags IS_TEXT_UNICODE_NOT_ASCII_MASK then true
    else has_flag out_flags IS_TEXT_UNICODE_UNICODE_MASK in
  Some (result, (fun _ => out_flags) <$> pf).

(** with a double-byte code page [RtlIsTextUnicode] looks for lead bytes with whole WCHARs:
    any text of two or more characters, the first above 0xFF, reads outside of the table of 256
    lead bytes. *)
Theorem lead_byte_of_wchar m buf c cs info pf :
  NlsMbCodePageTag N = true -> NlsLeadByteInfo N = Some info -> length info = 256%nat ->
  is_wchar c -> has m buf (wide_bytes (c :: cs)) -> 0xFF < c -> 0 < Z.of_nat (length cs) < 2 ^ 30 ->
  RtlIsTextUnicode m buf (2 * Z.of_nat (length (c :: cs))) pf = None.
Proof.
  intros HT HI HL Hc Hm Hb Hn. unfold RtlIsTextUnicode. cbn [length].
  rewrite (u32_small (2 * _)) by lia. rewrite (proj2 (Z.ltb_ge _ 2)) by lia.
  destruct (ld8 _ _) as [last|]; [|done]. cbn [mbind option_bind]. destruct (ld16_wide _ _ _ _ Hc Hm) as [E _].
  rewrite E. cbn [mbind option_bind].
  assert (exists n, Z.to_nat (Z.min (u32 (if last =? 0 then 2 * Z.of_nat (S (length cs)) - 1 else 2 * Z.of_nat (S (length cs))) / 2) 256) = S n)
    as [n Hl].
  { assert (1 <= u32 (if last =? 0 then 2 * Z.of_nat (S (length cs)) - 1 else 2 * Z.of_nat (S (length cs))) / 2) as B
      by (destruct (last =? 0); rewrite u32_small by lia; apply Z.div_le_lower_bound; lia).
    eexists (pred (Z.to_nat (Z.min _ 256))). symmetry. apply Nat.lt_succ_pred with 0%nat. lia. }
  rewrite Hl. cbn [ldw]. rewrite E. cbn [mbind option_bind]. destruct (ldw m _ n) as [s|]; [|done]. cbn [mbind option_bind].
  destruct (DiffLoop _ _ _ _ _ _) as [[lo hi] il]. rewrite HT, HI. cbn [mbind option_bind LeadLoop].
  replace (rd info c) with (@None Z); [done|]. symmetry. unfold rd. rewrite (proj2 (Z.leb_le _ _)) by lia.
  apply lookup_ge_None. lia.
Qed.

End Guess.

(** Two characters above 0xFF and a table without lead bytes. *)
Lemma lead_byte_of_wchar_witness :
  RtlIsTextUnicode (mkNls [] [] 932 true [] [] (Some (replicate 256 0)) 437 false [] [] None 0x3F 0x3F)
    (lay 100 (wide_bytes [0x3042; 0x3044]) ∅) 100 4 None = None.
Proof.
  apply (lead_byte_of_wchar _ _ 100 0x3042 [0x3044] (replicate 256 0) None);
    [reflexivity|reflexivity|reflexivity|split; [lia|reflexivity]|vm_compute; reflexivity|lia|cbn; lia].
Defined.
