(* ===== verification/Crc32.v ===== *)
(** * CRC-32 (sdk/lib/rtl/crc32.c)

    The table-driven checksum of the bytes at an address, and the bit-by-bit division by the
    polynomial that it implements. *)

From Stdlib Require Import ZArith Lia Bool.
From stdpp Require Import base option list numbers gmap.
From S2P Require Import Prelude Memory.
Open Scope Z_scope.

Definition CrcTable : list Z :=
  [0x00000000; 0x77073096; 0xee0e612c; 0x990951ba; 0x076dc419; 0x706af48f; 0xe963a535; 0x9e6495a3;
   0x0edb8832; 0x79dcb8a4; 0xe0d5e91e; 0x97d2d988; 0x09b64c2b; 0x7eb17cbd; 0xe7b82d07; 0x90bf1d91;
   0x1db71064; 0x6ab020f2; 0xf3b97148; 0x84be41de; 0x1adad47d; 0x6ddde4eb; 0xf4d4b551; 0x83d385c7;
   0x136c9856; 0x646ba8c0; 0xfd62f97a; 0x8a65c9ec; 0x14015c4f; 0x63066cd9; 0xfa0f3d63; 0x8d080df5;
   0x3b6e20c8; 0x4c69105e; 0xd56041e4; 0xa2677172; 0x3c03e4d1; 0x4b04d447; 0xd20d85fd; 0xa50ab56b;
   0x35b5a8fa; 0x42b2986c; 0xdbbbc9d6; 0xacbcf940; 0x32d86ce3; 0x45df5c75; 0xdcd60dcf; 0xabd13d59;
   0x26d930ac; 0x51de003a; 0xc8d75180; 0xbfd06116; 0x21b4f4b5; 0x56b3c423; 0xcfba9599; 0xb8bda50f;
   0x2802b89e; 0x5f058808; 0xc60cd9b2; 0xb10be924; 0x2f6f7c87; 0x58684c11; 0xc1611dab; 0xb6662d3d;
   0x76dc4190; 0x01db7106; 0x98d220bc; 0xefd5102a; 0x71b18589; 0x06b6b51f; 0x9fbfe4a5; 0xe8b8d433;
   0x7807c9a2; 0x0f00f934; 0x9609a88e; 0xe10e9818; 0x7f6a0dbb; 0x086d3d2d; 0x91646c97; 0xe6635c01;
   0x6b6b51f4; 0x1c6c6162; 0x856530d8; 0xf262004e; 0x6c0695ed; 0x1b01a57b; 0x8208f4c1; 0xf50fc457;
   0x65b0d9c6; 0x12b7e950; 0x8bbeb8ea; 0xfcb9887c; 0x62dd1ddf; 0x15da2d49; 0x8cd37cf3; 0xfbd44c65;
   0x4db26158; 0x3ab551ce; 0xa3bc0074; 0xd4bb30e2; 0x4adfa541; 0x3dd895d7; 0xa4d1c46d; 0xd3d6f4fb;
   0x4369e96a; 0x346ed9fc; 0xad678846; 0xda60b8d0; 0x44042d73; 0x33031de5; 0xaa0a4c5f; 0xdd0d7cc9;
   0x5005713c; 0x270241aa; 0xbe0b1010; 0xc90c2086; 0x5768b525; 0x206f85b3; 0xb966d409; 0xce61e49f;
   0x5edef90e; 0x29d9c998; 0xb0d09822; 0xc7d7a8b4; 0x59b33d17; 0x2eb40d81; 0xb7bd5c3b; 0xc0ba6cad;
   0xedb88320; 0x9abfb3b6; 0x03b6e20c; 0x74b1d29a; 0xead54739; 0x9dd277af; 0x04db2615; 0x73dc1683;
   0xe3630b12; 0x94643b84; 0x0d6d6a3e; 0x7a6a5aa8; 0xe40ecf0b; 0x9309ff9d; 0x0a00ae27; 0x7d079eb1;
   0xf00f9344; 0x8708a3d2; 0x1e01f268; 0x6906c2fe; 0xf762575d; 0x806567cb; 0x196c3671; 0x6e6b06e7;
   0xfed41b76; 0x89d32be0; 0x10da7a5a; 0x67dd4acc; 0xf9b9df6f; 0x8ebeeff9; 0x17b7be43; 0x60b08ed5;
   0xd6d6a3e8; 0xa1d1937e; 0x38d8c2c4; 0x4fdff252; 0xd1bb67f1; 0xa6bc5767; 0x3fb506dd; 0x48b2364b;
   0xd80d2bda; 0xaf0a1b4c; 0x36034af6; 0x41047a60; 0xdf60efc3; 0xa867df55; 0x316e8eef; 0x4669be79;
   0xcb61b38c; 0xbc66831a; 0x256fd2a0; 0x5268e236; 0xcc0c7795; 0xbb0b4703; 0x220216b9; 0x5505262f;
   0xc5ba3bbe; 0xb2bd0b28; 0x2bb45a92; 0x5cb36a04; 0xc2d7ffa7; 0xb5d0cf31; 0x2cd99e8b; 0x5bdeae1d;
   0x9b64c2b0; 0xec63f226; 0x756aa39c; 0x026d930a; 0x9c0906a9; 0xeb0e363f; 0x72076785; 0x05005713;
   0x95bf4a82; 0xe2b87a14; 0x7bb12bae; 0x0cb61b38; 0x92d28e9b; 0xe5d5be0d; 0x7cdcefb7; 0x0bdbdf21;
   0x86d3d2d4; 0xf1d4e242; 0x68ddb3f8; 0x1fda836e; 0x81be16cd; 0xf6b9265b; 0x6fb077e1; 0x18b74777;
   0x88085ae6; 0xff0f6a70; 0x66063bca; 0x11010b5c; 0x8f659eff; 0xf862ae69; 0x616bffd3; 0x166ccf45;
   0xa00ae278; 0xd70dd2ee; 0x4e048354; 0x3903b3c2; 0xa7672661; 0xd06016f7; 0x4969474d; 0x3e6e77db;
   0xaed16a4a; 0xd9d65adc; 0x40df0b66; 0x37d83bf0; 0xa9bcae53; 0xdebb9ec5; 0x47b2cf7f; 0x30b5ffe9;
   0xbdbdf21c; 0xcabac28a; 0x53b39330; 0x24b4a3a6; 0xbad03605; 0xcdd70693; 0x54de5729; 0x23d967bf;
   0xb3667a2e; 0xc4614ab8; 0x5d681b02; 0x2a6f2b94; 0xb40bbe37; 0xc30c8ea1; 0x5a05df1b; 0x2d02ef8d].

(** The loop of [RtlComputeCrc32] with [n] bytes left. *)
Fixpoint CrcLoop (n : nat) (m : mem) (Data CrcValue : Z) : option Z :=
  match n with
  | O => Some CrcValue
  | S n' =>
      b ← ld8 m Data;
      t ← rd CrcTable (Z.land (Z.lxor CrcValue b) 0xff);
      CrcLoop n' m (Data + 1) (Z.lxor t (Z.shiftr CrcValue 8))
  end.

Definition RtlComputeCrc32 (m : mem) (Initial Data Length : Z) : option Z :=
  CrcValue ← CrcLoop (Z.to_nat Length) m Data (not32 Initial);
  Some (not32 CrcValue).

(** ** The division by the polynomial *)

Definition polynomial : Z := 0xedb88320.

(** One bit: the lowest bit is shifted out and the polynomial subtracted if it was set. *)
Definition bit_step (c : Z) : Z :=
  if Z.odd c then Z.lxor (Z.shiftr c 1) polynomial else Z.shiftr c 1.

Fixpoint bit_steps (n : nat) (c : Z) : Z :=
  match n with
  | O => c
  | S n' => bit_steps n' (bit_step c)
  end.

Definition byte_step (c b : Z) : Z := bit_steps 8 (Z.lxor c b).

(** The checksum of a list of bytes. *)
Definition crc (Initial : Z) (bs : list Z) : Z := not32 (foldl byte_step (not32 Initial) bs).

Lemma bit_step_lxor a b : bit_step (Z.lxor a b) = Z.lxor (bit_step a) (bit_step b).
Proof.
  unfold bit_step. rewrite <- !Z.bit0_odd, Z.lxor_spec, Z.shiftr_lxor.
  destruct (Z.testbit a 0), (Z.testbit b 0); simpl;
    apply Z.bits_inj'; intros i Hi; rewrite ?Z.lxor_spec;
    by destruct (Z.testbit (Z.shiftr a 1) i), (Z.testbit (Z.shiftr b 1) i), (Z.testbit polynomial i).
Qed.

Lemma bit_steps_lxor n a b : bit_steps n (Z.lxor a b) = Z.lxor (bit_steps n a) (bit_steps n b).
Proof. revert a b. induction n as [|n IH]; intros a b; simpl; [done|]. by rewrite bit_step_lxor, IH. Qed.

Lemma bit_steps_add n k c : bit_steps (n + k) c = bit_steps k (bit_steps n c).
Proof. revert c. induction n as [|n IH]; intros c; simpl; auto. Qed.

Lemma bit_steps_shiftl n h : bit_steps n (Z.shiftl h (Z.of_nat n)) = h.
Proof.
  induction n as [|n IH]; [by rewrite Z.shiftl_0_r|]. cbn [bit_steps].
  replace (bit_step (Z.shiftl h (Z.of_nat (S n)))) with (Z.shiftl h (Z.of_nat n)); [done|].
  unfold bit_step. replace (Z.shiftl h (Z.of_nat (S n))) with (Z.shiftl (Z.shiftl h (Z.of_nat n)) 1)
    by (rewrite Z.shiftl_shiftl by lia; f_equal; lia).
  rewrite (Z.shiftl_mul_pow2 _ 1), Z.odd_mul, andb_false_r by lia.
  by rewrite <- Z.shiftl_mul_pow2, Z.shiftr_shiftl_l, Z.shiftl_0_r by lia.
Qed.

Lemma bit_step_range c : 0 <= c < 2 ^ 32 -> 0 <= bit_step c < 2 ^ 32.
Proof.
  intros Hc. assert (0 <= Z.shiftr c 1 < 2 ^ 31) by (rewrite Z.shiftr_div_pow2 by lia; dlia).
  unfold bit_step. destruct (Z.odd c); [|lia].
  apply bits_range; [lia|apply Z.lxor_nonneg; unfold polynomial; lia|].
  intros i Hi. rewrite Z.lxor_spec, (testbit_above 31), (testbit_above 32 polynomial); unfold polynomial; try lia; done.
Qed.

Lemma bit_steps_range n c : 0 <= c < 2 ^ 32 -> 0 <= bit_steps n c < 2 ^ 32.
Proof. revert c. induction n as [|n IH]; intros c Hc; simpl; [done|]. by apply IH, bit_step_range. Qed.

Lemma lxor_range a b : 0 <= a < 2 ^ 32 -> 0 <= b < 2 ^ 32 -> 0 <= Z.lxor a b < 2 ^ 32.
Proof.
  intros Ha Hb. apply bits_range; [lia|apply Z.lxor_nonneg; lia|].
  intros i Hi. by rewrite Z.lxor_spec, (testbit_above 32 a), (testbit_above 32 b) by lia.
Qed.

Lemma byte_step_range c b : 0 <= c < 2 ^ 32 -> is_byte b -> 0 <= byte_step c b < 2 ^ 32.
Proof. unfold is_byte. intros Hc Hb. apply bit_steps_range, lxor_range; lia. Qed.

(** *** The table *)

Lemma CrcTable_entry i : 0 <= i < 256 -> rd CrcTable i = Some (bit_steps 8 i).
Proof.
  intros Hi. assert (Forall (fun i => rd CrcTable i = Some (bit_steps 8 i)) (seqZ 0 256)) as F.
  { refine (bool_decide_unpack _ _). vm_compute. done. }
  rewrite Forall_forall in F. apply F. apply elem_of_seqZ. lia.
Qed.

Lemma low_byte c : 0 <= c -> c = Z.lxor (Z.shiftl (Z.shiftr c 8) 8) (Z.land c 0xff).
Proof.
  intros Hc. apply Z.bits_inj'. intros i Hi. change 0xff with (Z.ones 8).
  rewrite Z.lxor_spec, Z.land_spec, Z.testbit_ones_nonneg, Z.shiftl_spec by lia.
  destruct (Z.ltb_spec i 8).
  - rewrite (Z.testbit_neg_r _ (i - 8)) by lia. by rewrite andb_true_r.
  - rewrite Z.shiftr_spec, andb_false_r, xorb_false_r by lia. f_equal. lia.
Qed.

(** A table lookup is eight steps. *)
Lemma table_step c b :
  0 <= c < 2 ^ 32 -> is_byte b ->
  rd CrcTable (Z.land (Z.lxor c b) 0xff) = Some (bit_steps 8 (Z.land (Z.lxor c b) 0xff)) /\
  Z.lxor (bit_steps 8 (Z.land (Z.lxor c b) 0xff)) (Z.shiftr c 8) = byte_step c b.
Proof.
  unfold is_byte. intros Hc Hb. pose proof (lxor_range c b Hc ltac:(lia)) as Hx. split.
  { apply CrcTable_entry. change 0xff with (Z.ones 8). rewrite Z.land_ones by lia. dlia. }
  unfold byte_step. rewrite (low_byte (Z.lxor c b)) at 2 by lia. rewrite bit_steps_lxor, (bit_steps_shiftl 8).
  rewrite Z.lxor_comm. f_equal. rewrite Z.shiftr_lxor.
  replace (Z.shiftr b 8) with 0 by (rewrite Z.shiftr_div_pow2 by lia; dlia). by rewrite Z.lxor_0_r.
Qed.

Lemma CrcLoop_run m p bs c :
  has m p bs -> Forall is_byte bs -> 0 <= c < 2 ^ 32 ->
  CrcLoop (length bs) m p c = Some (foldl byte_step c bs).
Proof.
  intros Hb Hf. revert p c Hb. induction Hf as [|b bs Hb _ IH]; intros p c Hm Hc; [done|].
  apply has_cons in Hm as [H1 H2]. cbn [length CrcLoop foldl].
  rewrite (ld8_lookup _ _ _ H1). cbn [mbind option_bind]. destruct (table_step c b Hc Hb) as [-> E]. cbn [mbind option_bind].
  rewrite E. apply IH; [done|]. by apply byte_step_range.
Qed.

(** *** Differences *)

Lemma bit_step_inj a b : 0 <= a < 2 ^ 32 -> 0 <= b < 2 ^ 32 -> bit_step a = bit_step b -> a = b.
Proof.
  intros Ha Hb E. assert (Z.testbit (Z.shiftr a 1) 31 = false /\ Z.testbit (Z.shiftr b 1) 31 = false) as [A B]
    by (rewrite !Z.shiftr_spec by lia; split; apply (testbit_above 32); lia).
  assert (Z.odd a = Z.odd b /\ Z.shiftr a 1 = Z.shiftr b 1) as [Eo Es].
  { unfold bit_step in E. pose proof (f_equal (fun z => Z.testbit z 31) E) as E31.
    destruct (Z.odd a), (Z.odd b); rewrite ?Z.lxor_spec, ?A, ?B in E31; simpl in E31; try done.
    split; [done|]. apply (f_equal (fun z => Z.lxor z polynomial)) in E.
    by rewrite !Z.lxor_assoc, !Z.lxor_nilpotent, !Z.lxor_0_r in E. }
  rewrite (Z.div2_odd a), (Z.div2_odd b), !Z.div2_spec. by rewrite Es, Eo.
Qed.

Lemma bit_steps_inj n a b :
  0 <= a < 2 ^ 32 -> 0 <= b < 2 ^ 32 -> bit_steps n a = bit_steps n b -> a = b.
Proof.
  revert a b. induction n as [|n IH]; intros a b Ha Hb E; [done|].
  apply bit_step_inj; [done..|]. apply IH; [by apply bit_step_range..|done].
Qed.

Lemma dec_cons_lxor b w : is_byte b -> 0 <= dec w -> dec (b :: w) = Z.lxor (Z.shiftl (dec w) 8) b.
Proof.
  unfold is_byte. intros Hb Hd. change (dec (b :: w)) with (b + 2 ^ 8 * dec w).
  rewrite (low_byte (b + 2 ^ 8 * dec w)) by lia. f_equal.
  - f_equal. rewrite Z.shiftr_div_pow2 by lia. dlia.
  - change 0xff with (Z.ones 8). rewrite Z.land_ones by lia. dlia.
Qed.

(** The steps of some bytes are those of the bytes as one number. *)
Lemma window_steps c w :
  Forall is_byte w -> foldl byte_step c w = bit_steps (8 * length w) (Z.lxor c (dec w)).
Proof.
  intros Hf. revert c. induction Hf as [|b w Hb Hf IH]; intros c.
  { simpl. by rewrite Z.lxor_0_r. }
  cbn [foldl length]. rewrite IH, dec_cons_lxor by (done || apply dec_range, Hf).
  replace (8 * S (length w))%nat with (8 + 8 * length w)%nat by lia. rewrite bit_steps_add. f_equal.
  unfold byte_step. rewrite <- (bit_steps_shiftl 8 (dec w)) at 1. rewrite <- bit_steps_lxor. f_equal.
  by rewrite Z.lxor_assoc, (Z.lxor_comm b).
Qed.

Lemma foldl_byte_step_range bs c :
  Forall is_byte bs -> 0 <= c < 2 ^ 32 -> 0 <= foldl byte_step c bs < 2 ^ 32.
Proof.
  intros Hf. revert c. induction Hf as [|b bs Hb _ IH]; intros c Hc; [done|]. by apply IH, byte_step_range.
Qed.

Lemma foldl_byte_step_inj bs c c' :
  Forall is_byte bs -> 0 <= c < 2 ^ 32 -> 0 <= c' < 2 ^ 32 ->
  foldl byte_step c bs = foldl byte_step c' bs -> c = c'.
Proof.
  intros Hf. revert c c'. induction Hf as [|b bs Hb _ IH]; intros c c' Hc Hc' E; [done|]. cbn [foldl] in E.
  apply IH in E; [|by apply byte_step_range..]. unfold is_byte in Hb.
  apply bit_steps_inj in E; [|apply lxor_range; lia..].
  apply (f_equal (fun z => Z.lxor z b)) in E. by rewrite !Z.lxor_assoc, Z.lxor_nilpotent, !Z.lxor_0_r in E.
Qed.

Lemma dec_inj u v : Forall is_byte u -> Forall is_byte v -> length u = length v -> dec u = dec v -> u = v.
Proof. intros Hu Hv Hl E. rewrite <- (enc_dec u), <- (enc_dec v) by done. by rewrite Hl, E. Qed.

Lemma window_inj c u v :
  Forall is_byte u -> Forall is_byte v -> length u = length v -> (length u <= 4)%nat -> 0 <= c < 2 ^ 32 ->
  foldl byte_step c u = foldl byte_step c v -> u = v.
Proof.
  intros Hu Hv Hl H4 Hc. rewrite !window_steps, <- Hl by done. intros E.
  pose proof (dec_range u Hu). pose proof (dec_range v Hv).
  assert (2 ^ (8 * Z.of_nat (length u)) <= 2 ^ 32) by (apply Z.pow_le_mono_r; lia).
  assert (2 ^ (8 * Z.of_nat (length v)) <= 2 ^ 32) by (apply Z.pow_le_mono_r; lia).
  apply bit_steps_inj in E; [|apply lxor_range; lia..]. apply dec_inj; [done..|].
  apply (f_equal (Z.lxor c)) in E. by rewrite <- !Z.lxor_assoc, Z.lxor_nilpotent, !Z.lxor_0_l in E.
Qed.

Lemma not32_inj a b : 0 <= a < 2 ^ 32 -> 0 <= b < 2 ^ 32 -> not32 a = not32 b -> a = b.
Proof.
  intros Ha Hb E. apply Z.bits_inj'. intros i Hi.
  destruct (Z.ltb_spec i 32); [|by rewrite !(testbit_above 32) by lia].
  apply (f_equal (fun z => Z.testbit z i)) in E. rewrite !testbit_not32 in E by lia.
  rewrite (proj2 (Z.ltb_lt i 32)) in E by done. by destruct (Z.testbit a i), (Z.testbit b i).
Qed.

Lemma not32_not32 a : 0 <= a < 2 ^ 32 -> not32 (not32 a) = a.
Proof.
  intros Ha. apply Z.bits_inj'. intros i Hi. rewrite !testbit_not32 by lia.
  destruct (Z.ltb_spec i 32); [by destruct (Z.testbit a i)|]. by rewrite (testbit_above 32 a) by lia.
Qed.

(** ** Properties *)

(** C17: [RtlComputeCrc32] is the bit-by-bit division by the polynomial, and the checksum of two
    blocks one after the other is computed by continuing with the checksum of the first. *)
Theorem crc32_is_division m p q i bs cs :
  has m p bs -> Forall is_byte bs -> has m q cs -> Forall is_byte cs -> 0 <= i < 2 ^ 32 ->
  RtlComputeCrc32 m i p (Z.of_nat (length bs)) = Some (crc i bs) /\
  RtlComputeCrc32 m (crc i bs) q (Z.of_nat (length cs)) = Some (crc i (bs ++ cs)).
Proof.
  intros Hp Fb Hq Fc Hi. unfold RtlComputeCrc32, crc. rewrite !Nat2Z.id.
  rewrite (CrcLoop_run _ _ _ _ Hp) by (done || apply not32_range). cbn [mbind option_bind].
  split; [done|]. rewrite (CrcLoop_run _ _ _ _ Hq) by (done || apply not32_range). cbn [mbind option_bind].
  rewrite foldl_app, not32_not32; [done|]. apply foldl_byte_step_range; [done|apply not32_range].
Qed.

(** blocks that differ in a window of at most four bytes, with the same bytes before and
    behind it, have different checksums. *)
Theorem crc32_detects_burst m p q i pre u v post :
  has m p (pre ++ u ++ post) -> has m q (pre ++ v ++ post) ->
  Forall is_byte (pre ++ u ++ post) -> Forall is_byte (pre ++ v ++ post) ->
  length u = length v -> (length u <= 4)%nat -> u <> v -> 0 <= i < 2 ^ 32 ->
  RtlComputeCrc32 m i p (Z.of_nat (length (pre ++ u ++ post))) <>
  RtlComputeCrc32 m i q (Z.of_nat (length (pre ++ v ++ post))).
Proof.
  intros Hp Hq Fu Fv Hl H4 Hne Hi. unfold RtlComputeCrc32. rewrite !Nat2Z.id.
  rewrite (CrcLoop_run _ _ _ _ Hp), (CrcLoop_run _ _ _ _ Hq) by (done || apply not32_range).
  cbn [mbind option_bind]. intros [= E]. apply not32_inj in E;
    [|apply foldl_byte_step_range; [done|apply not32_range]..].
  rewrite !foldl_app in E. apply Forall_app in Fu as [F1 [F2 F3]%Forall_app].
  apply Forall_app in Fv as [_ [F4 _]%Forall_app]. set (c := foldl byte_step (not32 i) pre) in *.
  assert (0 <= c < 2 ^ 32) by (apply foldl_byte_step_range; [done|apply not32_range]).
  apply foldl_byte_step_inj in E; [|done|by apply foldl_byte_step_range..].
  apply Hne. by eapply window_inj.
Qed.

(** ** Witnesses *)

Module CrcExample.

Definition data : list Z := [0x31; 0x32; 0x33; 0x34; 0x35; 0x36; 0x37; 0x38; 0x39].
Definition flipped : list Z := [0x31; 0x32; 0x33; 0x35; 0x25; 0x36; 0x37; 0x38; 0x39].
Definition memory : mem := list_to_map (zip (seqZ 100 9) data ++ zip (seqZ 200 9) flipped).

Lemma bytes_ok : Forall is_byte data /\ Forall is_byte flipped.
Proof. by split; repeat (constructor; [unfold is_byte; lia|]). Qed.

Lemma crc32_is_division_witness :
  RtlComputeCrc32 memory 0 100 9 = Some 0xCBF43926 /\
  RtlComputeCrc32 memory 0xCBF43926 200 9 = Some (crc 0 (data ++ flipped)).
Proof.
  exact (crc32_is_division memory 100 200 0 data flipped eq_refl (proj1 bytes_ok) eq_refl (proj2 bytes_ok)
    ltac:(lia)).
Defined.

Lemma crc32_detects_burst_witness : RtlComputeCrc32 memory 0 100 9 <> RtlComputeCrc32 memory 0 200 9.
Proof.
  exact (crc32_detects_burst memory 100 200 0 [0x31; 0x32; 0x33] [0x34; 0x35] [0x35; 0x25]
    [0x36; 0x37; 0x38; 0x39] eq_refl eq_refl (proj1 bytes_ok) (proj2 bytes_ok) eq_refl ltac:(simpl; lia)
    ltac:(discriminate) ltac:(lia)).
Defined.

End CrcExample.
