(* ===== verification/Compress.v ===== *)
(** * Compression (sdk/lib/rtl/compress.c)

    The LZNT1 format on byte memory.  Data is a sequence of chunks of up to 4096 bytes, each
    behind a header of two bytes; a chunk is stored as it is, or compressed as groups of a byte
    of flags and up to eight entities, a byte or a reference backward to bytes of the chunk.
    The compressor of the source stores every chunk.  Pointers do not wrap.  The functions that
    are stubs in the source are left out. *)

From Stdlib Require Import ZArith Lia Bool.
From stdpp Require Import base option list numbers gmap.
From S2P Require Import Prelude Memory.
Open Scope Z_scope.

Definition COMPRESSION_FORMAT_MASK : Z := 0x00FF.
Definition COMPRESSION_ENGINE_MASK : Z := 0xFF00.
Definition COMPRESSION_FORMAT_NONE : Z := 0.
Definition COMPRESSION_FORMAT_DEFAULT : Z := 1.
Definition COMPRESSION_FORMAT_LZNT1 : Z := 2.
Definition COMPRESSION_ENGINE_STANDARD : Z := 0.
Definition COMPRESSION_ENGINE_MAXIMUM : Z := 0x100.

(** ** One chunk *)

(** [for (displacement_bits = 12; displacement_bits > 4; displacement_bits--)]. *)
Fixpoint BitsLoop (n : nat) (displacement_bits used : Z) : Z :=
  match n with
  | O => displacement_bits
  | S n' => if Z.shiftl 1 (displacement_bits - 1) <? used then displacement_bits
            else BitsLoop n' (displacement_bits - 1) used
  end.

(** What a loop ends with: a return of a pointer ([None] for NULL), or its end. *)
Inductive leave :=
| Return (ptr : option Z) (m : mem)
| Through (src_cur dst_cur : Z) (m : mem).

(** [while (code_length--)]. *)
Fixpoint CopyBack (n : nat) (m : mem) (src_cur dst_cur dst_end code_displacement : Z) : option leave :=
  match n with
  | O => Some (Through src_cur dst_cur m)
  | S n' =>
      if dst_end <=? dst_cur then Some (Return (Some dst_cur) m) else
      b ← ld8 m (dst_cur - code_displacement);
      m ← st8 m dst_cur b;
      CopyBack n' m src_cur (dst_cur + 1) dst_end code_displacement
  end.

(** A reference backward. *)
Definition BackReference (m : mem) (dst src_cur src_end dst_cur dst_end : Z) : option leave :=
  if src_end <? src_cur + 2 then Some (Return None m) else
  code ← ld16 m src_cur;
  let displacement_bits := BitsLoop 8 12 (dst_cur - dst) in
  let length_bits := 16 - displacement_bits in
  let code_length := Z.land code (Z.shiftl 1 length_bits - 1) + 3 in
  let code_displacement := Z.shiftr code length_bits + 1 in
  if dst_cur <? dst + code_displacement then Some (Return None m) else
  CopyBack (Z.to_nat code_length) m (src_cur + 2) dst_cur dst_end code_displacement.

(** An uncompressed byte. *)
Definition PlainByte (m : mem) (src_cur dst_cur dst_end : Z) : option leave :=
  if dst_end <=? dst_cur then Some (Return (Some dst_cur) m) else
  b ← ld8 m src_cur; m ← st8 m dst_cur b; Some (Through (src_cur + 1) (dst_cur + 1) m).

(** The entities behind a byte of flags. *)
Fixpoint EntityLoop (fuel : nat) (m : mem) (dst flags src_cur src_end dst_cur dst_end : Z) : option leave :=
  if negb (Z.land flags 0xFF00 =? 0) && (src_cur <? src_end) then
    match fuel with
    | O => None
    | S fuel' =>
        r ← (if negb (Z.land flags 1 =? 0) then BackReference m dst src_cur src_end dst_cur dst_end
             else PlainByte m src_cur dst_cur dst_end);
        match r with
        | Return ptr m => Some (Return ptr m)
        | Through src_cur dst_cur m => EntityLoop fuel' m dst (Z.shiftr flags 1) src_cur src_end dst_cur dst_end
        end
    end
  else Some (Through src_cur dst_cur m).

Fixpoint GroupLoop (fuel : nat) (m : mem) (dst src_cur src_end dst_cur dst_end : Z) : option (option Z * mem) :=
  if (src_cur <? src_end) && (dst_cur <? dst_end) then
    match fuel with
    | O => None
    | S fuel' =>
        b ← ld8 m src_cur;
        r ← EntityLoop 8 m dst (Z.lor 0x8000 b) (src_cur + 1) src_end dst_cur dst_end;
        match r with
        | Return ptr m => Some (ptr, m)
        | Through src_cur dst_cur m => GroupLoop fuel' m dst src_cur src_end dst_cur dst_end
        end
    end
  else Some (Some dst_cur, m).

(** Every group takes a byte of the source. *)
Definition lznt1_decompress_chunk (m : mem) (dst dst_size src src_size : Z) : option (option Z * mem) :=
  GroupLoop (Z.to_nat src_size) m dst src (src + src_size) dst (dst + dst_size).

(** ** All chunks *)

Inductive header :=
| NoChunk                                    (** a header of 0 *)
| BadChunk                                   (** the chunk ends behind the buffer *)
| Chunk (chunk_header chunk_size src_cur : Z).

Definition ReadHeader (m : mem) (src_cur src_end : Z) : option header :=
  chunk_header ← ld16 m src_cur;
  let src_cur := src_cur + 2 in
  if chunk_header =? 0 then Some NoChunk else
  let chunk_size := Z.land chunk_header 0xFFF + 1 in
  if src_end <? src_cur + chunk_size then Some BadChunk else
  Some (Chunk chunk_header chunk_size src_cur).

(** [Out dst_cur m] is [goto out], [Fail Status m] the return of an error. *)
Inductive progress :=
| Out (dst_cur : Z) (m : mem)
| Fail (Status : NTSTATUS) (m : mem)
| Continue (src_cur dst_cur offset : Z) (m : mem).

(** The chunks far before the offset. *)
Fixpoint SkipChunks (fuel : nat) (m : mem) (src_cur src_end dst_cur offset : Z) : option progress :=
  if (0x1000 <=? offset) && (src_cur + 2 <=? src_end) then
    match fuel with
    | O => None
    | S fuel' =>
        h ← ReadHeader m src_cur src_end;
        match h with
        | NoChunk => Some (Out dst_cur m)
        | BadChunk => Some (Fail STATUS_BAD_COMPRESSION_BUFFER m)
        | Chunk _ chunk_size src_cur => SkipChunks fuel' m (src_cur + chunk_size) src_end dst_cur (offset - 0x1000)
        end
    end
  else Some (Continue src_cur dst_cur offset m).

(** The chunk with the offset in it; [workspace] is 0 for NULL. *)
Definition PartialChunk (m : mem) (src_cur src_end dst_cur dst_end offset workspace : Z) : option progress :=
  if negb (offset =? 0) && (src_cur + 2 <=? src_end) then
    h ← ReadHeader m src_cur src_end;
    match h with
    | NoChunk => Some (Out dst_cur m)
    | BadChunk => Some (Fail STATUS_BAD_COMPRESSION_BUFFER m)
    | Chunk chunk_header chunk_size src_cur =>
        if dst_end <=? dst_cur then Some (Out dst_cur m) else
        if negb (Z.land chunk_header 0x8000 =? 0) then
          if workspace =? 0 then Some (Fail STATUS_ACCESS_VIOLATION m) else
          '(ptr, m) ← lznt1_decompress_chunk m workspace 0x1000 src_cur chunk_size;
          match ptr with
          | None => Some (Fail STATUS_BAD_COMPRESSION_BUFFER m)
          | Some ptr =>
              if offset <? ptr - workspace then
                let block_size := Z.min (ptr - workspace - offset) (dst_end - dst_cur) in
                m ← RtlCopyMemory m dst_cur (workspace + offset) block_size;
                Some (Continue (src_cur + chunk_size) (dst_cur + block_size) offset m)
              else Some (Continue (src_cur + chunk_size) dst_cur offset m)
          end
        else if offset <? chunk_size then
          let block_size := Z.min (chunk_size - offset) (dst_end - dst_cur) in
          m ← RtlCopyMemory m dst_cur (src_cur + offset) block_size;
          Some (Continue (src_cur + chunk_size) (dst_cur + block_size) offset m)
        else Some (Continue (src_cur + chunk_size) dst_cur offset m)
    end
  else Some (Continue src_cur dst_cur offset m).

(** The padding before a chunk, up to the next multiple of 4096; [None] is [goto out]. *)
Definition Padding (m : mem) (dst dst_cur dst_end offset : Z) : option (option Z * mem) :=
  let block_size := Z.land (u32 (dst_cur - dst + offset)) 0xFFF in
  if negb (block_size =? 0) then
    let block_size := 0x1000 - block_size in
    if dst_end <=? dst_cur + block_size then Some (None, m) else
    m ← RtlZeroMemory m dst_cur block_size; Some (Some (dst_cur + block_size), m)
  else Some (Some dst_cur, m).

Fixpoint ChunkLoop (fuel : nat) (m : mem) (dst src_cur src_end dst_cur dst_end offset : Z) : option progress :=
  if src_cur + 2 <=? src_end then
    match fuel with
    | O => None
    | S fuel' =>
        h ← ReadHeader m src_cur src_end;
        match h with
        | NoChunk => Some (Out dst_cur m)
        | BadChunk => Some (Fail STATUS_BAD_COMPRESSION_BUFFER m)
        | Chunk chunk_header chunk_size src_cur =>
            '(padded, m) ← Padding m dst dst_cur dst_end offset;
            match padded with
            | None => Some (Out dst_cur m)
            | Some dst_cur =>
                if dst_end <=? dst_cur then Some (Out dst_cur m) else
                if negb (Z.land chunk_header 0x8000 =? 0) then
                  '(ptr, m) ← lznt1_decompress_chunk m dst_cur (dst_end - dst_cur) src_cur chunk_size;
                  match ptr with
                  | None => Some (Fail STATUS_BAD_COMPRESSION_BUFFER m)
                  | Some dst_cur => ChunkLoop fuel' m dst (src_cur + chunk_size) src_end dst_cur dst_end offset
                  end
                else
                  let block_size := Z.min chunk_size (dst_end - dst_cur) in
                  m ← RtlCopyMemory m dst_cur src_cur block_size;
                  ChunkLoop fuel' m dst (src_cur + chunk_size) src_end (dst_cur + block_size) dst_end offset
            end
        end
    end
  else Some (Out dst_cur m).

(** The result is the status, the value of [*final_size] if it is set, and the memory. *)
Definition Finish (dst : Z) (p : progress) : NTSTATUS * option Z * mem :=
  match p with
  | Out dst_cur m | Continue _ dst_cur _ m => (STATUS_SUCCESS, Some (dst_cur - dst), m)
  | Fail Status m => (Status, None, m)
  end.

Definition lznt1_decompress (m : mem) (dst dst_size src src_size offset workspace : Z) : option (NTSTATUS * option Z * mem) :=
  let src_end := src + src_size in
  let dst_end := dst + dst_size in
  if src_end <? src + 2 then Some (STATUS_BAD_COMPRESSION_BUFFER, None, m) else
  p ← SkipChunks (Z.to_nat src_size) m src src_end dst offset;
  match p with
  | Continue src_cur dst_cur offset m =>
      p ← PartialChunk m src_cur src_end dst_cur dst_end offset workspace;
      match p with
      | Continue src_cur dst_cur offset m =>
          p ← ChunkLoop (Z.to_nat src_size) m dst src_cur src_end dst_cur dst_end offset;
          Some (Finish dst p)
      | _ => Some (Finish dst p)
      end
  | _ => Some (Finish dst p)
  end.

(** ** The compressor *)

Fixpoint StoreLoop (fuel : nat) (m : mem) (src_cur src_end dst_cur dst_end : Z) : option (option Z * mem) :=
  if src_cur <? src_end then
    match fuel with
    | O => None
    | S fuel' =>
        let block_size := Z.min 0x1000 (src_end - src_cur) in
        if dst_end <? dst_cur + 2 + block_size then Some (None, m) else
        m ← st16 m dst_cur (Z.lor 0x3000 (block_size - 1));
        m ← RtlCopyMemory m (dst_cur + 2) src_cur block_size;
        StoreLoop fuel' m (src_cur + block_size) src_end (dst_cur + 2 + block_size) dst_end
    end
  else Some (Some dst_cur, m).

Definition RtlpCompressBufferLZNT1 (m : mem) (src src_size dst dst_size : Z) : option (NTSTATUS * option Z * mem) :=
  '(dst_cur, m) ← StoreLoop (Z.to_nat src_size) m src (src + src_size) dst (dst + dst_size);
  match dst_cur with
  | None => Some (STATUS_BUFFER_TOO_SMALL, None, m)
  | Some dst_cur => Some (STATUS_SUCCESS, Some (dst_cur - dst), m)
  end.

Definition RtlpWorkSpaceSizeLZNT1 (Engine : Z) : NTSTATUS * option (Z * Z) :=
  if Engine =? COMPRESSION_ENGINE_STANDARD then (STATUS_SUCCESS, Some (0x8010, 0x1000))
  else if Engine =? COMPRESSION_ENGINE_MAXIMUM then (STATUS_SUCCESS, Some (0x10, 0x1000))
  else (STATUS_NOT_SUPPORTED, None).

(** ** The exported functions *)

Definition RtlCompressBuffer (m : mem) (CompressionFormatAndEngine UncompressedBuffer UncompressedBufferSize
    CompressedBuffer CompressedBufferSize : Z) : option (NTSTATUS * option Z * mem) :=
  let Format := Z.land CompressionFormatAndEngine COMPRESSION_FORMAT_MASK in
  if (Format =? COMPRESSION_FORMAT_NONE) || (Format =? COMPRESSION_FORMAT_DEFAULT)
  then Some (STATUS_INVALID_PARAMETER, None, m) else
  if Format =? COMPRESSION_FORMAT_LZNT1
  then RtlpCompressBufferLZNT1 m UncompressedBuffer UncompressedBufferSize CompressedBuffer CompressedBufferSize
  else Some (STATUS_UNSUPPORTED_COMPRESSION, None, m).

Definition RtlDecompressFragment (m : mem) (format uncompressed uncompressed_size compressed compressed_size offset
    workspace : Z) : option (NTSTATUS * option Z * mem) :=
  let f := Z.land format (Z.lnot COMPRESSION_ENGINE_MAXIMUM) in
  if f =? COMPRESSION_FORMAT_LZNT1
  then lznt1_decompress m uncompressed uncompressed_size compressed compressed_size offset workspace
  else if (f =? COMPRESSION_FORMAT_NONE) || (f =? COMPRESSION_FORMAT_DEFAULT)
  then Some (STATUS_INVALID_PARAMETER, None, m)
  else Some (STATUS_UNSUPPORTED_COMPRESSION, None, m).

Definition RtlDecompressBuffer (m : mem) (CompressionFormat UncompressedBuffer UncompressedBufferSize CompressedBuffer
    CompressedBufferSize : Z) : option (NTSTATUS * option Z * mem) :=
  RtlDecompressFragment m CompressionFormat UncompressedBuffer UncompressedBufferSize CompressedBuffer
    CompressedBufferSize 0 0.

Definition RtlGetCompressionWorkSpaceSize (CompressionFormatAndEngine : Z) : NTSTATUS * option (Z * Z) :=
  let Format := Z.land CompressionFormatAndEngine COMPRESSION_FORMAT_MASK in
  let Engine := Z.land CompressionFormatAndEngine COMPRESSION_ENGINE_MASK in
  if (Format =? COMPRESSION_FORMAT_NONE) || (Format =? COMPRESSION_FORMAT_DEFAULT)
  then (STATUS_INVALID_PARAMETER, None)
  else if Format =? COMPRESSION_FORMAT_LZNT1 then RtlpWorkSpaceSizeLZNT1 Engine
  else (STATUS_UNSUPPORTED_COMPRESSION, None).
