(* ===== verification/CompressProps.v ===== *)
(** * Decompression decodes the format

    A reference definition of the LZNT1 format: tokens, groups of tokens, chunks and streams,
    with what they expand to and the bytes they are written as.  The lemmas follow the loops of
    the decompressor over the bytes of such a stream, for every size of the destination. *)

From Stdlib Require Import ZArith Lia Bool.
From stdpp Require Import base option list numbers gmap.
From S2P Require Import Prelude Memory Compress.
Open Scope Z_scope.

(** ** The format *)

Inductive token :=
| Literal (b : Z)
| Reference (displacement count : nat).

(** A position of up to 2^k bytes has k bits for the displacement. *)
Definition bits_at (used : Z) : Z := Z.max 4 (Z.min 12 (Z.log2_up used)).

(** [n] bytes, each the one [d] bytes before it. *)
Fixpoint copy_back (n : nat) (out : list Z) (d : nat) : list Z :=
  match n with
  | O => out
  | S n' => copy_back n' (out ++ [default 0 (out !! (length out - d)%nat)]) d
  end.

Definition apply_token (out : list Z) (t : token) : list Z :=
  match t with
  | Literal b => out ++ [b]
  | Reference d c => copy_back c out d
  end.

Definition expand (out : list Z) (ts : list token) : list Z := foldl apply_token out ts.

Definition token_bytes (used : Z) (t : token) : list Z :=
  match t with
  | Literal b => [b]
  | Reference d c => enc 2 ((Z.of_nat d - 1) * 2 ^ (16 - bits_at used) + (Z.of_nat c - 3))
  end.

Definition valid_token (used : Z) (t : token) : Prop :=
  match t with
  | Literal b => is_byte b
  | Reference d c =>
      1 <= Z.of_nat d <= used /\ Z.of_nat d <= 2 ^ bits_at used /\ 3 <= Z.of_nat c <= 2 ^ (16 - bits_at used) + 2
  end.

Fixpoint valid_tokens (out : list Z) (ts : list token) : Prop :=
  match ts with
  | [] => True
  | t :: ts' => valid_token (Z.of_nat (length out)) t /\ valid_tokens (apply_token out t) ts'
  end.

Fixpoint tokens_bytes (out : list Z) (ts : list token) : list Z :=
  match ts with
  | [] => []
  | t :: ts' => token_bytes (Z.of_nat (length out)) t ++ tokens_bytes (apply_token out t) ts'
  end.

(** The byte of flags: bit [i] is set if token [i] is a reference. *)
Fixpoint flags (ts : list token) : Z :=
  match ts with
  | [] => 0
  | Literal _ :: ts' => 2 * flags ts'
  | Reference _ _ :: ts' => 1 + 2 * flags ts'
  end.

Fixpoint groups_bytes (out : list Z) (gs : list (list token)) : list Z :=
  match gs with
  | [] => []
  | g :: gs' => flags g :: tokens_bytes out g ++ groups_bytes (expand out g) gs'
  end.

(** Eight tokens in every group but the last one. *)
Fixpoint valid_groups (out : list Z) (gs : list (list token)) : Prop :=
  match gs with
  | [] => True
  | g :: gs' =>
      (1 <= length g <= 8)%nat /\ (gs' = [] \/ length g = 8%nat) /\ valid_tokens out g /\
      valid_groups (expand out g) gs'
  end.

Definition expand_groups (out : list Z) (gs : list (list token)) : list Z := foldl expand out gs.

(** ** Facts on the format *)

Lemma BitsLoop_bits used : 0 <= used -> BitsLoop 8 12 used = bits_at used.
Proof.
  intros H. assert (forall k, 0 <= k -> (Z.shiftl 1 k <? used) = (k <? Z.log2_up used)) as E.
  { intros k Hk. rewrite Z.shiftl_1_l. destruct (Z.eq_dec used 0) as [->|N].
    - rewrite Z.log2_up_nonpos by lia. rewrite !(proj2 (Z.ltb_ge _ _)); [done|lia|]. apply Z.pow_nonneg. lia.
    - apply eq_true_iff_eq. rewrite !Z.ltb_lt. apply Z.log2_up_lt_pow2. lia. }
  cbn [BitsLoop]. rewrite !E by lia. unfold bits_at.
  repeat match goal with |- context [?a <? ?b] => destruct (Z.ltb_spec a b) end; lia.
Qed.

Lemma bits_at_range used : 4 <= bits_at used <= 12.
Proof. unfold bits_at. lia. Qed.

Lemma copy_back_app n out d : exists more, copy_back n out d = out ++ more /\ length more = n.
Proof.
  revert out. induction n as [|n IH]; intros out; cbn [copy_back]; [exists []; by rewrite app_nil_r|].
  destruct (IH (out ++ [default 0 (out !! (length out - d)%nat)])) as (more & -> & L).
  eexists (_ :: more). rewrite <- app_assoc. split; [done|]. cbn. lia.
Qed.

Lemma apply_token_app out t : exists more, apply_token out t = out ++ more.
Proof.
  destruct t as [b|d c]; cbn [apply_token]; [by eexists|]. destruct (copy_back_app c out d) as (more & -> & _). by eexists.
Qed.

Lemma expand_app out ts : exists more, expand out ts = out ++ more.
Proof.
  revert out. induction ts as [|t ts IH]; intros out; [exists []; by rewrite app_nil_r|].
  destruct (IH (apply_token out t)) as (more & E). destruct (apply_token_app out t) as (more' & E').
  exists (more' ++ more). change (expand out (t :: ts)) with (expand (apply_token out t) ts). by rewrite E, E', <- app_assoc.
Qed.

Lemma expand_groups_app out gs : exists more, expand_groups out gs = out ++ more.
Proof.
  revert out. induction gs as [|g gs IH]; intros out; [exists []; by rewrite app_nil_r|].
  destruct (IH (expand out g)) as (more & E). destruct (expand_app out g) as (more' & E').
  exists (more' ++ more). change (expand_groups out (g :: gs)) with (expand_groups (expand out g) gs). by rewrite E, E', <- app_assoc.
Qed.

Lemma copy_back_bytes n out d : Forall is_byte out -> (1 <= d <= length out)%nat -> Forall is_byte (copy_back n out d).
Proof.
  revert out. induction n as [|n IH]; intros out H Hd; cbn [copy_back]; [done|]. apply IH; [|rewrite length_app; lia].
  apply Forall_app. split; [done|]. constructor; [|constructor].
  destruct (out !! (length out - d)%nat) as [b|] eqn:E; [by eapply Forall_lookup_1|].
  apply lookup_ge_None in E. lia.
Qed.

Lemma apply_token_bytes out t : Forall is_byte out -> valid_token (Z.of_nat (length out)) t -> Forall is_byte (apply_token out t).
Proof.
  intros H Ht. destruct t as [b|d c]; cbn [apply_token valid_token] in *.
  - apply Forall_app. split; [done|]. by constructor.
  - apply copy_back_bytes; [done|lia].
Qed.

Lemma expand_bytes out ts : Forall is_byte out -> valid_tokens out ts -> Forall is_byte (expand out ts).
Proof.
  revert out. induction ts as [|t ts IH]; intros out H Ht; [done|]. destruct Ht as [Ht Hts].
  apply (IH (apply_token out t)); [by apply apply_token_bytes|done].
Qed.

Lemma flags_range ts : 0 <= flags ts < 2 ^ Z.of_nat (length ts).
Proof.
  induction ts as [|[b|d c] ts IH]; cbn [flags length]; [done|..];
    rewrite Nat2Z.inj_succ, Z.pow_succ_r by lia; lia.
Qed.

Lemma token_bytes_length used t : (1 <= length (token_bytes used t) <= 2)%nat.
Proof. destruct t; cbn [token_bytes]; [cbn; lia|rewrite length_enc; lia]. Qed.

(** ** The destination *)

(** The [size] bytes at [dst] start with as much of [out] as fits. *)
Definition region (m : mem) (dst : Z) (size : nat) (out : list Z) : Prop :=
  exists rest, has m dst (take size out ++ rest) /\ length (take size out ++ rest) = size.

Lemma region_prefix m dst size out more : (size <= length out)%nat -> region m dst size out -> region m dst size (out ++ more).
Proof. intros L (rest & H & E). exists rest. by rewrite take_app_le by done. Qed.

Lemma region_lookup m dst size out i b : region m dst size out -> (length out <= size)%nat ->
  out !! i = Some b -> m !! (dst + Z.of_nat i) = Some b.
Proof.
  intros (rest & H & _) L Hi. rewrite has_lookup in H. apply H. rewrite take_ge by done. by apply lookup_app_l_Some.
Qed.

(** Writing the next byte. *)
Lemma region_push m dst size out b : region m dst size out -> (length out < size)%nat -> is_byte b ->
  exists m', st8 m (dst + Z.of_nat (length out)) b = Some m' /\ region m' dst size (out ++ [b]) /\
    same_except m m' dst (Z.of_nat size).
Proof.
  intros (rest & H & E) L Hb. rewrite take_ge in H, E by lia. rewrite length_app in E.
  destruct rest as [|x rest]; [cbn in E; lia|]. change (out ++ x :: rest) with (out ++ [x] ++ rest) in H.
  destruct (store_middle m dst out [x] (enc 1 b) rest H) as (m' & E1 & K & S); [by rewrite length_enc|].
  exists m'. split; [done|]. split.
  - exists rest. rewrite take_ge by (rewrite length_app; cbn; lia). cbn in E. rewrite <- app_assoc. split.
    + change (enc 1 b) with [u8 b] in K. by rewrite u8_small in K.
    + rewrite !length_app. cbn. lia.
  - eapply same_except_weaken; [exact S|lia|cbn; lia].
Qed.

(** Where the pointer stands. *)
Definition stop (dst : Z) (size : nat) (out : list Z) : Z := dst + Z.of_nat (Nat.min size (length out)).

(** What a loop that makes [out] from the source up to [src_cur] ends with. *)
Definition made (dst : Z) (size : nat) (out : list Z) (src_cur : Z) (m : mem) : leave :=
  if decide (length out <= size)%nat then Through src_cur (dst + Z.of_nat (length out)) m
  else Return (Some (dst + Z.of_nat size)) m.

Lemma made_full dst size out src_cur m more : length out = size -> more <> [] ->
  made dst size (out ++ more) src_cur m = Return (Some (dst + Z.of_nat size)) m.
Proof.
  intros L N. unfold made. rewrite decide_False; [done|]. rewrite length_app. destruct more; [done|]. cbn. lia.
Qed.

Lemma CopyBack_run n m src_cur dst size out d :
  region m dst size out -> Forall is_byte out -> (length out <= size)%nat -> (1 <= d <= length out)%nat ->
  exists m',
    CopyBack n m src_cur (dst + Z.of_nat (length out)) (dst + Z.of_nat size) (Z.of_nat d)
    = Some (made dst size (copy_back n out d) src_cur m') /\
    region m' dst size (copy_back n out d) /\ same_except m m' dst (Z.of_nat size).
Proof.
  revert m out. induction n as [|n IH]; intros m out HR HB L Hd.
  { exists m. cbn [CopyBack copy_back]. unfold made. rewrite decide_True by done. split; [done|]. split; [done|by intros q]. }
  destruct (decide (length out = size)) as [E|N].
  - exists m. destruct (copy_back_app (S n) out d) as (more & Em & Lm). rewrite Em.
    rewrite made_full by (done || (intros ->; cbn in Lm; lia)). cbn [CopyBack].
    rewrite (proj2 (Z.leb_le _ _)) by lia. rewrite E. split; [done|]. split; [apply region_prefix; [lia|done]|by intros q].
  - cbn [CopyBack copy_back]. rewrite (proj2 (Z.leb_gt _ _)) by lia.
    destruct (out !! (length out - d)%nat) as [b|] eqn:Eb; [|apply lookup_ge_None in Eb; lia].
    replace (dst + Z.of_nat (length out) - Z.of_nat d) with (dst + Z.of_nat (length out - d)) by lia.
    rewrite (ld8_lookup m _ b) by (by eapply region_lookup). cbn [mbind option_bind default].
    assert (is_byte b) as Hb by (by eapply Forall_lookup_1).
    destruct (region_push m dst size out b HR ltac:(lia) Hb) as (m1 & -> & R1 & S1). cbn [mbind option_bind].
    replace (dst + Z.of_nat (length out) + 1) with (dst + Z.of_nat (length (out ++ [b]))) by (rewrite length_app; cbn; lia).
    destruct (IH m1 (out ++ [b]) R1) as (m' & E' & R' & S'); [apply Forall_app; split; [done|by constructor]|rewrite length_app; cbn; lia..|].
    exists m'. split; [exact E'|]. split; [exact R'|]. by eapply same_except_trans.
Qed.

(** ** Entities *)

Lemma code_fields used d c :
  valid_token used (Reference d c) ->
  let code := (Z.of_nat d - 1) * 2 ^ (16 - bits_at used) + (Z.of_nat c - 3) in
  0 <= code < 2 ^ 16 /\ Z.land code (Z.shiftl 1 (16 - bits_at used) - 1) = Z.of_nat c - 3 /\
  Z.shiftr code (16 - bits_at used) = Z.of_nat d - 1.
Proof.
  intros (H1 & H2 & H3). pose proof (bits_at_range used) as B. set (k := 16 - bits_at used) in *.
  assert (0 < 2 ^ k) by (apply Z.pow_pos_nonneg; lia).
  assert (2 ^ 16 = 2 ^ bits_at used * 2 ^ k) as P by (rewrite <- Z.pow_add_r by lia; f_equal; lia).
  intros code. rewrite Z.shiftl_1_l. change (2 ^ k - 1) with (Z.pred (2 ^ k)). rewrite <- Z.ones_equiv, Z.land_ones, Z.shiftr_div_pow2 by lia.
  unfold code. split; [nia|]. split.
  - rewrite Z.add_comm, Z.mod_add by lia. apply Z.mod_small. lia.
  - rewrite Z.add_comm, Z.div_add, Z.div_small by lia. lia.
Qed.

Lemma BackReference_run m dst size out d c src_cur src_end :
  region m dst size out -> Forall is_byte out -> (length out <= size)%nat ->
  valid_token (Z.of_nat (length out)) (Reference d c) ->
  has m src_cur (token_bytes (Z.of_nat (length out)) (Reference d c)) -> src_cur + 2 <= src_end ->
  exists m',
    BackReference m dst src_cur src_end (dst + Z.of_nat (length out)) (dst + Z.of_nat size)
    = Some (made dst size (copy_back c out d) (src_cur + 2) m') /\
    region m' dst size (copy_back c out d) /\ same_except m m' dst (Z.of_nat size).
Proof.
  intros HR HB L V Hs He. unfold BackReference. rewrite (proj2 (Z.ltb_ge _ _)) by lia.
  destruct (code_fields _ _ _ V) as (C1 & C2 & C3). cbn [token_bytes] in Hs.
  rewrite (ld16_has m src_cur _ C1 Hs). cbn [mbind option_bind].
  replace (dst + Z.of_nat (length out) - dst) with (Z.of_nat (length out)) by lia.
  rewrite BitsLoop_bits by lia. cbv zeta. rewrite C2, C3. destruct V as (V1 & _ & V3).
  replace (Z.of_nat d - 1 + 1) with (Z.of_nat d) by lia. replace (Z.of_nat c - 3 + 3) with (Z.of_nat c) by lia.
  rewrite Nat2Z.id, (proj2 (Z.ltb_ge _ _)) by lia. apply CopyBack_run; [done|done|done|lia].
Qed.

Lemma PlainByte_run m dst size out b src_cur :
  region m dst size out -> (length out <= size)%nat -> is_byte b -> has m src_cur [b] ->
  exists m',
    PlainByte m src_cur (dst + Z.of_nat (length out)) (dst + Z.of_nat size)
    = Some (made dst size (out ++ [b]) (src_cur + 1) m') /\
    region m' dst size (out ++ [b]) /\ same_except m m' dst (Z.of_nat size).
Proof.
  intros HR L Hb Hs. unfold PlainByte. destruct (decide (length out = size)) as [E|N].
  - exists m. rewrite (proj2 (Z.leb_le _ _)), made_full by (done || lia). rewrite E. split; [done|].
    split; [apply region_prefix; [lia|done]|by intros q].
  - rewrite (proj2 (Z.leb_gt _ _)) by lia. apply has_cons in Hs as [Hs _]. rewrite (ld8_lookup m _ b Hs). cbn [mbind option_bind].
    destruct (region_push m dst size out b HR ltac:(lia) Hb) as (m1 & -> & R1 & S1). cbn [mbind option_bind].
    exists m1. split; [|done]. unfold made. rewrite length_app, decide_True by (cbn; lia). do 2 f_equal. cbn. lia.
Qed.

(** ** Groups *)

Lemma sentinel r f : (1 <= r <= 8)%nat -> 0 <= f < 2 ^ Z.of_nat r -> Z.land (2 ^ (7 + Z.of_nat r) + f) 0xFF00 <> 0.
Proof.
  intros Hr Hf E. apply (f_equal (fun x => Z.testbit x (7 + Z.of_nat r))) in E. rewrite Z.land_spec, Z.bits_0 in E.
  assert (2 ^ Z.of_nat r <= 2 ^ (7 + Z.of_nat r)) by (apply Z.pow_le_mono_r; lia).
  assert (Z.testbit (2 ^ (7 + Z.of_nat r) + f) (7 + Z.of_nat r) = true) as T.
  { apply Z.testbit_true; [lia|]. rewrite <- (Z.mul_1_l (2 ^ _)) at 1. rewrite Z.add_comm, Z.div_add, Z.div_small by lia. done. }
  rewrite T in E. cbn [andb] in E. do 9 (destruct r as [|r]; [try lia; discriminate E|]). lia.
Qed.

Lemma sentinel_bit (b : bool) x f : 0 <= x ->
  negb (Z.land (2 ^ (8 + x) + (Z.b2z b + 2 * f)) 1 =? 0) = b /\
  Z.shiftr (2 ^ (8 + x) + (Z.b2z b + 2 * f)) 1 = 2 ^ (7 + x) + f.
Proof.
  intros Hx. replace (8 + x) with (Z.succ (7 + x)) by lia. rewrite Z.pow_succ_r by lia.
  replace (2 * 2 ^ (7 + x) + (Z.b2z b + 2 * f)) with (Z.b2z b + (2 ^ (7 + x) + f) * 2) by lia.
  change 1 with (Z.ones 1) at 1. rewrite Z.land_ones, Z.shiftr_div_pow2 by lia. change (2 ^ 1) with 2.
  rewrite Z.mod_add, Z.div_add by lia. by destruct b.
Qed.

Definition is_reference (t : token) : bool := match t with Reference _ _ => true | Literal _ => false end.

Lemma flags_cons t ts : flags (t :: ts) = Z.b2z (is_reference t) + 2 * flags ts.
Proof. by destruct t. Qed.

Lemma Token_run m dst size out t src_cur src_end :
  region m dst size out -> Forall is_byte out -> (length out <= size)%nat -> valid_token (Z.of_nat (length out)) t ->
  has m src_cur (token_bytes (Z.of_nat (length out)) t) ->
  src_cur + Z.of_nat (length (token_bytes (Z.of_nat (length out)) t)) <= src_end ->
  exists m',
    (if is_reference t then BackReference m dst src_cur src_end (dst + Z.of_nat (length out)) (dst + Z.of_nat size)
     else PlainByte m src_cur (dst + Z.of_nat (length out)) (dst + Z.of_nat size))
    = Some (made dst size (apply_token out t) (src_cur + Z.of_nat (length (token_bytes (Z.of_nat (length out)) t))) m') /\
    region m' dst size (apply_token out t) /\ same_except m m' dst (Z.of_nat size).
Proof.
  intros HR HB L V Hs He. destruct t as [b|d c]; cbn [is_reference apply_token].
  - apply PlainByte_run; done.
  - cbn [token_bytes] in He |- *. rewrite length_enc in *. apply BackReference_run; [done..|lia].
Qed.

Lemma EntityLoop_run ts r fuel m dst size out src_cur src_end :
  (length ts <= r <= 8)%nat -> (r <= fuel)%nat -> region m dst size out -> Forall is_byte out -> (length out <= size)%nat ->
  valid_tokens out ts -> has m src_cur (tokens_bytes out ts) ->
  let next := src_cur + Z.of_nat (length (tokens_bytes out ts)) in
  next <= src_end -> length ts = r \/ next = src_end -> src_end <= dst \/ dst + Z.of_nat size <= src_cur ->
  exists m',
    EntityLoop fuel m dst (2 ^ (7 + Z.of_nat r) + flags ts) src_cur src_end (dst + Z.of_nat (length out)) (dst + Z.of_nat size)
    = Some (made dst size (expand out ts) next m') /\
    region m' dst size (expand out ts) /\ same_except m m' dst (Z.of_nat size).
Proof.
  revert r fuel m out src_cur. induction ts as [|t ts IH]; intros r fuel m out src_cur Hr Hf HR HB L V Hs next He Hend Dis.
  { exists m. subst next. cbn [tokens_bytes length] in *. split; [|split; [done|by intros q]].
    assert (negb (Z.land (2 ^ (7 + Z.of_nat r) + flags []) 0xFF00 =? 0) && (src_cur <? src_end) = false) as C.
    { destruct Hend as [<-|E]; [done|]. rewrite (proj2 (Z.ltb_ge _ _)) by lia. apply andb_false_r. }
    unfold made. rewrite decide_True by done. change (Z.of_nat 0) with 0. rewrite (Z.add_0_r src_cur). destruct fuel; cbn [EntityLoop]; by rewrite C. }
  destruct r as [|r]; [cbn in Hr; lia|]. destruct fuel as [|fuel]; [lia|]. cbn [valid_tokens tokens_bytes length] in *.
  destruct V as [Vt Vts]. apply has_app in Hs as [Hs1 Hs2]. pose proof (token_bytes_length (Z.of_nat (length out)) t) as TL.
  subst next. rewrite length_app in *. cbn [EntityLoop].
  rewrite (proj2 (Z.eqb_neq _ _)); [|apply sentinel; [lia|]; pose proof (flags_range (t :: ts)) as FR; cbn [length] in FR;
    assert (2 ^ Z.of_nat (S (length ts)) <= 2 ^ Z.of_nat (S r)) by (apply Z.pow_le_mono_r; lia); lia].
  rewrite (proj2 (Z.ltb_lt _ _)) by lia. cbn [negb andb]. rewrite flags_cons.
  replace (7 + Z.of_nat (S r)) with (8 + Z.of_nat r) by lia. destruct (sentinel_bit (is_reference t) (Z.of_nat r) (flags ts)) as [-> ->]; [lia|].
  destruct (Token_run m dst size out t src_cur src_end) as (m1 & -> & R1 & S1); try done; [lia|]. cbn [mbind option_bind].
  change (expand out (t :: ts)) with (expand (apply_token out t) ts). unfold made at 1.
  destruct (decide (length (apply_token out t) <= size)%nat) as [L1|L1].
  - destruct (IH r fuel m1 (apply_token out t) (src_cur + Z.of_nat (length (token_bytes (Z.of_nat (length out)) t)))) as (m' & E & R' & S');
      [lia|lia|done|by apply apply_token_bytes|done|done|eapply has_frame; [exact Hs2|exact S1|lia]|lia|lia|lia|].
    exists m'. rewrite E. split; [|split; [done|by eapply same_except_trans]]. do 2 f_equal. lia.
  - exists m1. destruct (expand_app (apply_token out t) ts) as (more & ->). split; [|split; [apply region_prefix; [lia|done]|done]].
    unfold made. rewrite decide_False; [done|]. rewrite length_app. lia.
Qed.

Lemma GroupLoop_run gs fuel m dst size out src_cur :
  (length (groups_bytes out gs) <= fuel)%nat -> region m dst size out -> Forall is_byte out -> (length out <= size)%nat ->
  valid_groups out gs -> has m src_cur (groups_bytes out gs) ->
  let src_end := src_cur + Z.of_nat (length (groups_bytes out gs)) in
  src_end <= dst \/ dst + Z.of_nat size <= src_cur ->
  exists m',
    GroupLoop fuel m dst src_cur src_end (dst + Z.of_nat (length out)) (dst + Z.of_nat size)
    = Some (Some (stop dst size (expand_groups out gs)), m') /\
    region m' dst size (expand_groups out gs) /\ same_except m m' dst (Z.of_nat size).
Proof.
  revert fuel m out src_cur. induction gs as [|g gs IH]; intros fuel m out src_cur Hf HR HB L V Hs src_end Dis.
  { exists m. subst src_end. cbn [groups_bytes length] in *. split; [|split; [done|by intros q]]. unfold stop.
    rewrite Nat.min_r by done. destruct fuel; cbn [GroupLoop]; by rewrite (proj2 (Z.ltb_ge _ _)) by lia. }
  destruct V as (Hg & Hfull & Vt & Vg). subst src_end. cbn [groups_bytes length] in *. rewrite length_app in *.
  destruct fuel as [|fuel]; [lia|]. cbn [GroupLoop]. rewrite (proj2 (Z.ltb_lt src_cur _)) by lia. cbn [andb].
  destruct (Z.ltb_spec (dst + Z.of_nat (length out)) (dst + Z.of_nat size)) as [L'|L'].
  2:{ exists m. destruct (expand_groups_app out (g :: gs)) as (more & ->). split; [|split; [apply region_prefix; [lia|done]|by intros q]].
      unfold stop. rewrite length_app. do 3 f_equal. lia. }
  apply has_cons in Hs as [H1 Hs]. apply has_app in Hs as [Hs1 Hs2]. rewrite (ld8_lookup _ _ _ H1). cbn [mbind option_bind].
  pose proof (flags_range g) as FR. assert (2 ^ Z.of_nat (length g) <= 2 ^ 8) by (apply Z.pow_le_mono_r; lia).
  assert (Z.lor 0x8000 (flags g) = 2 ^ (7 + Z.of_nat 8) + flags g) as ->.
  { change 0x8000 with (Z.shiftl 1 15). rewrite lor_shiftl_add; lia. }
  destruct (EntityLoop_run g 8 8 m dst size out (src_cur + 1)
    (src_cur + Z.of_nat (S (length (tokens_bytes out g) + length (groups_bytes (expand out g) gs))))) as (m1 & -> & R1 & S1);
    [lia|lia|done|done|done|done|done|lia| |lia|].
  { destruct Hfull as [->|?]; [right; cbn; lia|by left]. }
  cbn [mbind option_bind]. change (expand_groups out (g :: gs)) with (expand_groups (expand out g) gs). unfold made.
  destruct (decide (length (expand out g) <= size)%nat) as [L1|L1].
  - destruct (IH fuel m1 (expand out g) (src_cur + 1 + Z.of_nat (length (tokens_bytes out g)))) as (m' & E & R' & S');
      [lia|done|by apply expand_bytes|done|done|eapply has_frame; [exact Hs2|exact S1|lia]|lia|].
    exists m'. split; [|split; [done|by eapply same_except_trans]]. rewrite <- E. f_equal. lia.
  - exists m1. destruct (expand_groups_app (expand out g) gs) as (more & ->). split; [|split; [apply region_prefix; [lia|done]|done]].
    unfold stop. rewrite length_app. do 3 f_equal. lia.
Qed.

(** A compressed chunk. *)
Lemma lznt1_decompress_chunk_run m dst size gs src old :
  has m dst old -> length old = size -> valid_groups [] gs -> has m src (groups_bytes [] gs) ->
  src + Z.of_nat (length (groups_bytes [] gs)) <= dst \/ dst + Z.of_nat size <= src ->
  exists m',
    lznt1_decompress_chunk m dst (Z.of_nat size) src (Z.of_nat (length (groups_bytes [] gs)))
    = Some (Some (stop dst size (expand_groups [] gs)), m') /\
    region m' dst size (expand_groups [] gs) /\ same_except m m' dst (Z.of_nat size).
Proof.
  intros Hd Ho V Hs Dis. unfold lznt1_decompress_chunk. rewrite Nat2Z.id.
  destruct (GroupLoop_run gs (length (groups_bytes [] gs)) m dst size [] src) as (m' & E & R & S);
    [done|exists old; by rewrite take_nil|constructor|cbn; lia|done|done|done|].
  exists m'. split; [|done]. rewrite <- E. f_equal. cbn. lia.
Qed.
