(* ===== verification/CompressStream.v ===== *)
(** * Streams of chunks

    A stream is a sequence of chunks; in the data every chunk but the last one takes 4096 bytes,
    a shorter one being filled up with zeros.  The lemmas follow the loop of the decompressor over
    the chunks, into a destination with room for the data, or of any size if nothing is filled up. *)

From Stdlib Require Import ZArith Lia Bool.
From stdpp Require Import base option list numbers gmap.
From S2P Require Import Prelude Memory Compress CompressProps.
Open Scope Z_scope.

Inductive chunk :=
| Stored (bs : list Z)
| Packed (gs : list (list token)).

Definition chunk_body (c : chunk) : list Z :=
  match c with Stored bs => bs | Packed gs => groups_bytes [] gs end.

Definition chunk_data (c : chunk) : list Z :=
  match c with Stored bs => bs | Packed gs => expand_groups [] gs end.

Definition chunk_head (c : chunk) : Z :=
  (match c with Stored _ => 3 | Packed _ => 11 end) * 2 ^ 12 + (Z.of_nat (length (chunk_body c)) - 1).

Definition wf_chunk (c : chunk) : Prop :=
  (1 <= length (chunk_body c) <= 4096)%nat /\ (length (chunk_data c) <= 4096)%nat /\
  match c with Stored bs => Forall is_byte bs | Packed gs => valid_groups [] gs end.

Definition stream (cs : list chunk) : list Z := concat (map (fun c => enc 2 (chunk_head c) ++ chunk_body c) cs).

(** A chunk that is not the last one is filled up with zeros. *)
Fixpoint data (cs : list chunk) : list Z :=
  match cs with
  | [] => []
  | c :: cs' =>
      chunk_data c ++ match cs' with [] => [] | _ => replicate (4096 - length (chunk_data c)) 0 ++ data cs' end
  end.

Definition wf_stream (cs : list chunk) : Prop := Forall wf_chunk cs.

(** 4096 bytes in every chunk but the last one. *)
Fixpoint full (cs : list chunk) : Prop :=
  match cs with
  | [] => True
  | c :: cs' => (cs' = [] \/ length (chunk_data c) = 4096%nat) /\ full cs'
  end.

(** What the chunks [cs] add to the data behind [gap] missing bytes. *)
Definition more (gap : nat) (cs : list chunk) : list Z :=
  match cs with [] => [] | _ => replicate gap 0 ++ data cs end.

Lemma stream_cons c cs : stream (c :: cs) = enc 2 (chunk_head c) ++ chunk_body c ++ stream cs.
Proof. unfold stream. cbn [map concat]. by rewrite <- app_assoc. Qed.

Lemma length_stream_cons c cs : length (stream (c :: cs)) = (2 + length (chunk_body c) + length (stream cs))%nat.
Proof. rewrite stream_cons, !length_app, length_enc. lia. Qed.

Lemma data_cons c cs : data (c :: cs) = chunk_data c ++ more (4096 - length (chunk_data c)) cs.
Proof. done. Qed.

Lemma copy_back_length n out d : length (copy_back n out d) = (length out + n)%nat.
Proof. destruct (copy_back_app n out d) as (l & -> & L). rewrite length_app. lia. Qed.

(** The first token of a compressed chunk is a byte. *)
Lemma chunk_data_pos c : wf_chunk c -> (1 <= length (chunk_data c) <= 4096)%nat.
Proof.
  intros ((L & _) & U & V). split; [|done]. destruct c as [bs|gs]; [done|]. cbn [chunk_body chunk_data] in *.
  destruct gs as [|[|t g] gs]; cbn [groups_bytes length] in L; [lia|by destruct V as [[? _] _]; cbn in *; lia|].
  destruct (expand_groups_app (expand (apply_token [] t) g) gs) as (l & E).
  change (expand_groups [] ((t :: g) :: gs)) with (expand_groups (expand (apply_token [] t) g) gs). rewrite E.
  destruct (expand_app (apply_token [] t) g) as (l' & ->). rewrite !length_app.
  destruct V as (_ & _ & [Vt _] & _). destruct t as [b|d k]; cbn [apply_token valid_token] in *; [cbn; lia|].
  rewrite copy_back_length. cbn in *. lia.
Qed.

(** ** Headers *)

Lemma head_fields k x : 0 <= x < 2 ^ 12 -> k = 3 \/ k = 11 ->
  0 < k * 2 ^ 12 + x < 2 ^ 16 /\ Z.land (k * 2 ^ 12 + x) 0xFFF = x /\ negb (Z.land (k * 2 ^ 12 + x) 0x8000 =? 0) = (k =? 11).
Proof.
  intros Hx Hk. split; [lia|]. split.
  - change 0xFFF with (Z.ones 12). rewrite Z.land_ones, Z.add_comm, Z.mod_add, Z.mod_small by lia. done.
  - rewrite Z.add_comm. assert (Z.land (x + k * 2 ^ 12) 0x8000 = Z.shiftl (Z.land (Z.shiftr (x + k * 2 ^ 12) 12) 8) 12) as ->.
    { rewrite Z.shiftl_land, <- Z.ldiff_ones_r by lia. change (Z.shiftl 8 12) with 0x8000. rewrite Z.ldiff_land, <- Z.land_assoc. done. }
    rewrite Z.shiftr_div_pow2, Z.div_add, Z.div_small by lia. by destruct Hk as [-> | ->].
Qed.

Lemma ReadHeader_run m src_cur src_end c :
  wf_chunk c -> has m src_cur (enc 2 (chunk_head c)) -> src_cur + 2 + Z.of_nat (length (chunk_body c)) <= src_end ->
  ReadHeader m src_cur src_end = Some (Chunk (chunk_head c) (Z.of_nat (length (chunk_body c))) (src_cur + 2)) /\
  negb (Z.land (chunk_head c) 0x8000 =? 0) = match c with Packed _ => true | Stored _ => false end.
Proof.
  intros (Hb & _ & _) Hs He. unfold ReadHeader.
  destruct (head_fields (match c with Stored _ => 3 | Packed _ => 11 end) (Z.of_nat (length (chunk_body c)) - 1)) as (R & F1 & F2);
    [lia|destruct c; tauto|]. fold (chunk_head c) in R, F1, F2.
  rewrite (ld16_has m src_cur (chunk_head c)) by (done || lia). cbn [mbind option_bind].
  rewrite (proj2 (Z.eqb_neq _ _)) by lia. rewrite F1. replace (Z.of_nat (length (chunk_body c)) - 1 + 1) with (Z.of_nat (length (chunk_body c))) by lia.
  cbv zeta. rewrite (proj2 (Z.ltb_ge _ _)) by lia. split; [done|]. rewrite F2. by destruct c.
Qed.

(** ** Parts of the destination *)

Lemma region_rest m dst size out : region m dst size out -> (length out <= size)%nat ->
  exists old, has m (dst + Z.of_nat (length out)) old /\ length old = (size - length out)%nat.
Proof.
  intros (rest & H & E) L. rewrite take_ge in H, E by done. apply has_app in H as [_ H]. exists rest.
  rewrite length_app in E. split; [done|lia].
Qed.

Lemma region_join m m' dst size out more : region m dst size out -> (length out <= size)%nat ->
  same_except m m' (dst + Z.of_nat (length out)) (Z.of_nat (size - length out)) ->
  region m' (dst + Z.of_nat (length out)) (size - length out) more -> region m' dst size (out ++ more).
Proof.
  intros (rest & H & E) L S (rest' & H' & E'). rewrite take_ge in H, E by done. apply has_app in H as [H _].
  exists rest'. rewrite take_app, (take_ge out) by done. rewrite <- app_assoc. split.
  - apply has_app. split; [|done]. eapply has_frame; [exact H|exact S|lia].
  - rewrite length_app, E'. lia.
Qed.

(** Copying as much as fits. *)
Lemma copy_region m d s bs old : has m d old -> has m s bs ->
  exists m', RtlCopyMemory m d s (Z.min (Z.of_nat (length bs)) (Z.of_nat (length old))) = Some m' /\
    region m' d (length old) bs /\ same_except m m' d (Z.of_nat (length old)).
Proof.
  intros Hd Hs. unfold RtlCopyMemory, RtlMoveMemory.
  replace (Z.to_nat (Z.min (Z.of_nat (length bs)) (Z.of_nat (length old)))) with (length (take (length old) bs)) by (rewrite length_take; lia).
  rewrite <- (take_drop (length old) bs) in Hs. apply has_app in Hs as [Hs _]. unfold has in Hs. rewrite Hs. cbn [mbind option_bind].
  rewrite <- (take_drop (length (take (length old) bs)) old) in Hd.
  destruct (store_middle m d [] (take (length (take (length old) bs)) old) (take (length old) bs) _ Hd) as (m' & E & K & S).
  { rewrite !length_take. lia. }
  cbn [length app] in *. rewrite Z.add_0_r in *. rewrite E. exists m'. split; [done|]. split.
  - eexists. split; [exact K|]. rewrite length_app, length_drop, length_take. lia.
  - eapply same_except_weaken; [exact S|lia|rewrite !length_take; lia].
Qed.

(** ** Whole chunks *)

(** The data of one chunk, written at [dst]. *)
Lemma chunk_run m dst old c src :
  has m dst old -> wf_chunk c -> has m src (chunk_body c) ->
  src + Z.of_nat (length (chunk_body c)) <= dst \/ dst + Z.of_nat (length old) <= src ->
  exists m',
    (if match c with Packed _ => true | Stored _ => false end
     then lznt1_decompress_chunk m dst (Z.of_nat (length old)) src (Z.of_nat (length (chunk_body c)))
     else let block_size := Z.min (Z.of_nat (length (chunk_body c))) (Z.of_nat (length old)) in
          m ← RtlCopyMemory m dst src block_size; Some (Some (dst + block_size), m))
    = Some (Some (stop dst (length old) (chunk_data c)), m') /\
    region m' dst (length old) (chunk_data c) /\ same_except m m' dst (Z.of_nat (length old)).
Proof.
  intros Hd (Hb & Hl & V) Hs Dis. destruct c as [bs|gs]; cbn [chunk_body chunk_data] in *.
  - destruct (copy_region m dst src bs old Hd Hs) as (m' & -> & R & S). exists m'. split; [|done].
    cbn [mbind option_bind]. unfold stop. do 3 f_equal. lia.
  - by apply (lznt1_decompress_chunk_run m dst (length old) gs src old).
Qed.

Lemma stop_app dst size out more : (length out <= size)%nat ->
  stop (dst + Z.of_nat (length out)) (size - length out) more = stop dst size (out ++ more).
Proof. intros L. unfold stop. rewrite length_app. lia. Qed.

Lemma stop_full dst size out : (size <= length out)%nat -> stop dst size out = dst + Z.of_nat size.
Proof. intros L. unfold stop. by rewrite Nat.min_l. Qed.

(** The zeros in front of a chunk: as many as are missing up to a multiple of 4096. *)
Lemma block_size_gap x gap : 0 <= x -> 0 <= gap < 4096 -> (x + gap) mod 4096 = 0 ->
  Z.land (u32 x) 0xFFF = if gap =? 0 then 0 else 4096 - gap.
Proof.
  intros Hx Hg E. change 0xFFF with (Z.ones 12). rewrite Z.land_ones by lia. unfold u32.
  rewrite Z.mod_mod_divide by (by exists (2 ^ 20)). change (2 ^ 12) with 4096.
  destruct (Z.eqb_spec gap 0); dlia.
Qed.

Lemma Padding_run m dst size out offset gap :
  region m dst size out -> 0 <= offset -> (gap < 4096)%nat ->
  (Z.of_nat (length out) + offset + Z.of_nat gap) mod 4096 = 0 -> (length out + gap < size)%nat ->
  exists m', Padding m dst (dst + Z.of_nat (length out)) (dst + Z.of_nat size) offset
    = Some (Some (dst + Z.of_nat (length (out ++ replicate gap 0))), m') /\
    region m' dst size (out ++ replicate gap 0) /\ same_except m m' dst (Z.of_nat size).
Proof.
  intros (rest & H & E) Ho Hg A L. unfold Padding.
  replace (dst + Z.of_nat (length out) - dst + offset) with (Z.of_nat (length out) + offset) by lia.
  rewrite (block_size_gap _ (Z.of_nat gap)), length_app, length_replicate by lia.
  destruct gap as [|gap].
  { exists m. cbn [negb Z.eqb]. rewrite app_nil_r, Nat.add_0_r. split; [done|]. split; [by exists rest|by intros q]. }
  rewrite (proj2 (Z.eqb_neq (Z.of_nat (S gap)) 0)) by lia. rewrite (proj2 (Z.eqb_neq (4096 - _) 0)) by lia. cbn [negb].
  replace (0x1000 - (4096 - Z.of_nat (S gap))) with (Z.of_nat (S gap)) by lia.
  rewrite (proj2 (Z.leb_gt _ _)) by lia. rewrite take_ge in H, E by lia. rewrite length_app in E.
  rewrite <- (take_drop (S gap) rest) in H.
  assert (length (take (S gap) rest) = S gap) as Lt by (rewrite length_take; lia).
  destruct (store_middle m dst out (take (S gap) rest) (replicate (S gap) 0) (drop (S gap) rest) H) as (m' & E1 & K & S');
    [by rewrite length_replicate|].
  unfold RtlZeroMemory. rewrite Nat2Z.id. rewrite E1. cbn [mbind option_bind]. exists m'. split; [do 3 f_equal; lia|]. split.
  - exists (drop (S gap) rest). rewrite take_ge by (rewrite length_app, length_replicate; lia). rewrite <- app_assoc.
    split; [done|]. rewrite !length_app, length_replicate, length_drop. lia.
  - eapply same_except_weaken; [exact S'|lia|lia].
Qed.

(** A full destination, with the chunks at multiples of 4096. *)
Lemma Padding_full m dst size out offset : 0 <= offset -> (size <= length out)%nat ->
  exists r, Padding m dst (stop dst size out) (dst + Z.of_nat size) offset = Some (r, m) /\
    (r = Some (stop dst size out) \/ r = None).
Proof.
  intros Ho L. unfold Padding. rewrite stop_full by done.
  destruct (Z.eqb_spec (Z.land (u32 (dst + Z.of_nat size - dst + offset)) 0xFFF) 0); cbn [negb]; [eexists; split; [done|by left]|].
  rewrite (proj2 (Z.leb_le _ _)); [eexists; split; [done|by right]|].
  assert (Z.land (u32 (dst + Z.of_nat size - dst + offset)) 0xFFF < 0x1000); [|lia].
  change 0xFFF with (Z.ones 12). rewrite Z.land_ones by lia. apply Z.mod_pos_bound. lia.
Qed.

(** The destination has room for all that the chunks add, or no chunk has to be filled up. *)
Definition room (size gap : nat) (out : list Z) (cs : list chunk) : Prop :=
  (length (out ++ more gap cs) <= size)%nat \/ (full cs /\ (cs = [] \/ gap = 0%nat)).

Lemma room_next size gap out c cs :
  room size gap out (c :: cs) -> wf_chunk c ->
  room size (4096 - length (chunk_data c)) ((out ++ replicate gap 0) ++ chunk_data c) cs.
Proof.
  intros [L|[[Hc F] G]] W.
  - left. cbn [more] in L. by rewrite data_cons, !app_assoc in L.
  - right. split; [done|]. destruct Hc as [->|Hc]; [by left|right; lia].
Qed.

Lemma ChunkLoop_run cs fuel m dst size out src_cur offset gap :
  (length (stream cs) <= fuel)%nat -> region m dst size out -> wf_stream cs -> has m src_cur (stream cs) -> 0 <= offset ->
  (gap < 4096)%nat -> (cs = [] \/ (Z.of_nat (length out) + offset + Z.of_nat gap) mod 4096 = 0) -> room size gap out cs ->
  let src_end := src_cur + Z.of_nat (length (stream cs)) in
  src_end <= dst \/ dst + Z.of_nat size <= src_cur ->
  exists m',
    ChunkLoop fuel m dst src_cur src_end (stop dst size out) (dst + Z.of_nat size) offset
    = Some (Out (stop dst size (out ++ more gap cs)) m') /\
    region m' dst size (out ++ more gap cs) /\ same_except m m' dst (Z.of_nat size).
Proof.
  revert fuel m out src_cur gap. induction cs as [|c cs IH]; intros fuel m out src_cur gap Hf HR HW Hs Ho Hg Al Rm src_end Dis; subst src_end.
  { exists m. cbn [more]. rewrite app_nil_r. split; [|split; [done|by intros q]].
    destruct fuel; cbn [ChunkLoop]; cbn [stream map concat length]; by rewrite (proj2 (Z.leb_gt _ _)) by lia. }
  apply Forall_cons in HW as [Wc Wcs]. rewrite length_stream_cons in *. destruct fuel as [|fuel]; [lia|]. cbn [ChunkLoop].
  rewrite (proj2 (Z.leb_le _ _)) by lia. rewrite stream_cons in Hs. apply has_app in Hs as [H1 Hs]. rewrite length_enc in Hs.
  apply has_app in Hs as [H2 H3]. destruct (ReadHeader_run m src_cur
    (src_cur + Z.of_nat (2 + length (chunk_body c) + length (stream cs))) c Wc H1) as [-> P8]; [lia|]. cbn [mbind option_bind].
  destruct Al as [?|Al]; [done|]. pose proof (chunk_data_pos c Wc) as Lc. destruct (decide (size <= length out)%nat) as [L|L].
  { destruct (Padding_full m dst size out offset Ho L) as (r & -> & Hr). cbn [mbind option_bind].
    exists m. assert (region m dst size (out ++ more gap (c :: cs))) by (by apply region_prefix).
    rewrite (stop_full _ _ (out ++ _)) by (rewrite length_app; lia).
    rewrite (stop_full _ _ out L) in *. split; [|split; [done|by intros q]].
    destruct Hr as [->| ->]; [by rewrite (proj2 (Z.leb_le _ _)) by lia|done]. }
  assert (length out + gap < size)%nat as Lg.
  { destruct Rm as [Rm|[_ [?|?]]]; [|done|lia]. cbn [more] in Rm. rewrite data_cons, !length_app, length_replicate in Rm. lia. }
  assert (stop dst size out = dst + Z.of_nat (length out)) as -> by (unfold stop; lia).
  destruct (Padding_run m dst size out offset gap HR Ho Hg Al Lg) as (m0 & -> & R0 & S0). cbn [mbind option_bind].
  pose proof (room_next _ _ _ _ _ Rm Wc) as Rm'. set (out0 := out ++ replicate gap 0) in *.
  assert (length out0 = length out + gap)%nat as L0 by (unfold out0; by rewrite length_app, length_replicate).
  rewrite (proj2 (Z.leb_gt _ _)), P8 by lia. destruct (region_rest m0 dst size out0 R0 ltac:(lia)) as (old & Hold & Lold).
  assert (has m0 (src_cur + 2) (chunk_body c)) as H2' by (eapply has_frame; [exact H2|exact S0|lia]).
  destruct (chunk_run m0 (dst + Z.of_nat (length out0)) old c (src_cur + 2) Hold Wc H2') as (m1 & E1 & R1 & S1); [lia|].
  rewrite Lold in *. rewrite (stop_app dst size out0) in E1 by lia.
  pose proof (region_join m0 m1 dst size out0 _ R0 ltac:(lia) S1 R1) as R1'.
  replace (dst + Z.of_nat size - (dst + Z.of_nat (length out0))) with (Z.of_nat (size - length out0)) by lia.
  assert (same_except m m1 dst (Z.of_nat size)) as S01.
  { eapply same_except_trans; [exact S0|]. eapply same_except_weaken; [exact S1|lia|lia]. }
  destruct (IH fuel m1 (out0 ++ chunk_data c) (src_cur + 2 + Z.of_nat (length (chunk_body c))) (4096 - length (chunk_data c))%nat)
    as (m' & E & R' & S'); [lia|done|done| |done|lia| |done|lia|].
  - eapply has_frame; [exact H3|exact S01|lia].
  - right. rewrite length_app, L0.
    replace (Z.of_nat (length out + gap + length (chunk_data c)) + offset + Z.of_nat (4096 - length (chunk_data c)))
      with (Z.of_nat (length out) + offset + Z.of_nat gap + 1 * 4096) by lia. by rewrite Z.mod_add by lia.
  - exists m'. assert (out ++ more gap (c :: cs) = (out0 ++ chunk_data c) ++ more (4096 - length (chunk_data c)) cs) as ->.
    { cbn [more]. unfold out0. by rewrite data_cons, <- !app_assoc. }
    split; [|split; [done|by eapply same_except_trans]].
    replace (src_cur + Z.of_nat (2 + length (chunk_body c) + length (stream cs)))
      with (src_cur + 2 + Z.of_nat (length (chunk_body c)) + Z.of_nat (length (stream cs))) by lia. rewrite <- E. clear E.
    destruct c as [bs|gs]; cbn [chunk_body chunk_data] in *.
    + destruct (RtlCopyMemory m0 _ _ _) as [m2|]; [|done]. cbn [mbind option_bind] in *. injection E1 as E1 ->. by rewrite E1.
    + rewrite E1. done.
Qed.
