(* ===== verification/CompressSafety.v ===== *)
(** * The decompressor on arbitrary input

    Whatever the bytes of the compressed buffer are, the decompressor ends, reads only the
    compressed buffer, the destination and the workspace, and writes only the latter two. *)

From Stdlib Require Import ZArith Lia Bool.
From stdpp Require Import base option list numbers gmap.
From S2P Require Import Prelude Memory Compress.
Open Scope Z_scope.

Section Safety.

(** The memory at the start, what may be read and what may be written. *)
Variables (m0 : mem) (readable writable : Z -> Prop).

Hypothesis readable_mapped : forall q, readable q -> is_Some (m0 !! q).
Hypothesis writable_readable : forall q, writable q -> readable q.

Definition safe (m : mem) : Prop :=
  (forall q b, m !! q = Some b -> is_byte b) /\ (forall q, is_Some (m !! q) <-> is_Some (m0 !! q)) /\
  (forall q, ~ writable q -> m !! q = m0 !! q).

(** [n] bytes at [p]. *)
Definition span (P : Z -> Prop) (p n : Z) : Prop := forall q, p <= q < p + n -> P q.

Lemma span_sub P p n p' n' : span P p n -> p <= p' -> p' + n' <= p + n -> span P p' n'.
Proof. intros H H1 H2 q Hq. apply H. lia. Qed.

Lemma load_safe m p n : safe m -> span readable p (Z.of_nat n) ->
  exists bs, load m p n = Some bs /\ length bs = n /\ Forall is_byte bs.
Proof.
  intros Hm. revert p. induction n as [|n IH]; intros p Hr; [by exists []|].
  assert (is_Some (m !! p)) as [b Hb] by (apply Hm, readable_mapped, Hr; lia).
  destruct (IH (p + 1)) as (bs & E & L & B); [eapply span_sub; [exact Hr|lia|lia]|].
  exists (b :: bs). cbn [load]. rewrite Hb. cbn [mbind option_bind]. rewrite E. split; [done|]. split; [cbn; lia|].
  constructor; [by eapply Hm|done].
Qed.

Lemma store_safe m p bs : safe m -> Forall is_byte bs -> span writable p (Z.of_nat (length bs)) ->
  exists m', store m p bs = Some m' /\ safe m'.
Proof.
  intros Hm Hb. revert m p Hm. induction Hb as [|b bs Hb _ IH]; intros m p Hm Hw; [by exists m|]. cbn [length] in Hw.
  assert (writable p) as Wp by (apply Hw; lia).
  assert (is_Some (m !! p)) as [x Hx] by (by apply Hm, readable_mapped, writable_readable).
  cbn [store]. rewrite Hx. cbn [mbind option_bind]. apply IH; [|eapply span_sub; [exact Hw|lia|lia]].
  destruct Hm as (M1 & M2 & M3). split; [|split].
  - intros q y. destruct (decide (q = p)) as [->|N]; [rewrite lookup_insert_eq; by intros [= <-]|].
    rewrite lookup_insert_ne by done. apply M1.
  - intros q. rewrite <- M2. destruct (decide (q = p)) as [->|N]; [rewrite lookup_insert_eq, Hx; split; by eexists|].
    by rewrite lookup_insert_ne.
  - intros q Hq. rewrite lookup_insert_ne by (by intros <-). by apply M3.
Qed.

Lemma ld8_safe m p : safe m -> readable p -> exists b, ld8 m p = Some b /\ is_byte b.
Proof.
  intros Hm Hr. assert (is_Some (m !! p)) as [b Hb] by (by apply Hm, readable_mapped). exists b.
  split; [by apply ld8_lookup|by eapply Hm].
Qed.

Lemma ld16_safe m p : safe m -> span readable p 2 -> exists v, ld16 m p = Some v /\ 0 <= v < 2 ^ 16.
Proof.
  intros Hm Hr. destruct (load_safe m p 2 Hm Hr) as (bs & E & L & B). exists (dec bs). unfold ld16. rewrite E. split; [done|].
  pose proof (dec_range bs B) as D. by rewrite L in D.
Qed.

Lemma st8_safe m p v : safe m -> writable p -> exists m', st8 m p v = Some m' /\ safe m'.
Proof.
  intros Hm Hw. apply store_safe; [done|apply enc_bytes|]. intros q Hq. rewrite length_enc in Hq. by replace q with p by lia.
Qed.

Lemma copy_safe m d s n : safe m -> 0 <= n -> span readable s n -> span writable d n ->
  exists m', RtlCopyMemory m d s n = Some m' /\ safe m'.
Proof.
  intros Hm Hn Hr Hw. unfold RtlCopyMemory, RtlMoveMemory. destruct (load_safe m s (Z.to_nat n) Hm) as (bs & -> & L & B).
  { by rewrite Z2Nat.id. }
  cbn [mbind option_bind]. apply store_safe; [done|done|]. rewrite L, Z2Nat.id by done. done.
Qed.

(** ** One chunk *)

Section Chunk.

Variables (dst src_cur0 src_end dst_end : Z).
Hypothesis source : span readable src_cur0 (src_end - src_cur0).
Hypothesis target : span writable dst (dst_end - dst).

(** Where a loop can leave the pointers. *)
Definition in_range (low : Z) (r : leave) : Prop :=
  match r with
  | Return ptr m => safe m /\ match ptr with Some p => dst <= p <= dst_end | None => True end
  | Through src_cur dst_cur m => safe m /\ low < src_cur <= src_end /\ dst <= dst_cur <= dst_end
  end.

Lemma CopyBack_safe n m src_cur dst_cur d low : safe m -> low < src_cur <= src_end -> dst + d <= dst_cur <= dst_end -> 1 <= d ->
  exists r, CopyBack n m src_cur dst_cur dst_end d = Some r /\ in_range low r.
Proof.
  revert m dst_cur. induction n as [|n IH]; intros m dst_cur Hm Hs Hd H1; cbn [CopyBack].
  { eexists. split; [done|]. cbn. split; [done|]. lia. }
  destruct (Z.leb_spec dst_end dst_cur); [eexists; split; [done|]; cbn; split; [done|lia]|].
  destruct (ld8_safe m (dst_cur - d)) as (b & -> & Hb); [done|apply writable_readable, target; lia|]. cbn [mbind option_bind].
  destruct (st8_safe m dst_cur b) as (m1 & -> & Hm1); [done|apply target; lia|]. cbn [mbind option_bind]. apply IH; [done|done|lia|done].
Qed.

Lemma BackReference_safe m src_cur dst_cur : safe m -> src_cur0 <= src_cur < src_end -> dst <= dst_cur <= dst_end ->
  exists r, BackReference m dst src_cur src_end dst_cur dst_end = Some r /\ in_range src_cur r.
Proof.
  intros Hm Hs Hd. unfold BackReference. destruct (Z.ltb_spec src_end (src_cur + 2)); [eexists; split; [done|]; by cbn|].
  destruct (ld16_safe m src_cur) as (code & -> & Hc); [done|eapply span_sub; [exact source|lia|lia]|]. cbn [mbind option_bind].
  set (k := 16 - _). assert (0 <= Z.shiftr code k) by (apply Z.shiftr_nonneg; lia).
  destruct (Z.ltb_spec dst_cur (dst + (Z.shiftr code k + 1))); [eexists; split; [done|]; by cbn|].
  apply CopyBack_safe; [done|lia|lia|lia].
Qed.

Lemma PlainByte_safe m src_cur dst_cur : safe m -> src_cur0 <= src_cur < src_end -> dst <= dst_cur <= dst_end ->
  exists r, PlainByte m src_cur dst_cur dst_end = Some r /\ in_range src_cur r.
Proof.
  intros Hm Hs Hd. unfold PlainByte. destruct (Z.leb_spec dst_end dst_cur); [eexists; split; [done|]; cbn; split; [done|lia]|].
  destruct (ld8_safe m src_cur) as (b & -> & Hb); [done|apply source; lia|]. cbn [mbind option_bind].
  destruct (st8_safe m dst_cur b) as (m1 & -> & Hm1); [done|apply target; lia|]. cbn [mbind option_bind].
  eexists. split; [done|]. cbn. split; [done|]. lia.
Qed.

Lemma EntityLoop_safe fuel m f src_cur dst_cur low :
  safe m -> src_cur0 <= src_cur <= src_end -> low < src_cur -> dst <= dst_cur <= dst_end -> 0 <= f < 2 ^ (8 + Z.of_nat fuel) ->
  exists r, EntityLoop fuel m dst f src_cur src_end dst_cur dst_end = Some r /\ in_range low r.
Proof.
  revert m f src_cur dst_cur. induction fuel as [|fuel IH]; intros m f src_cur dst_cur Hm Hs Hlow Hd Hf; cbn [EntityLoop].
  { assert (Z.land f 0xFF00 = 0) as ->.
    { change 0xFF00 with (Z.shiftl (Z.ones 8) 8). rewrite <- (Z.mod_small f (2 ^ 8)) by (cbn in Hf; lia).
      apply Z.bits_inj'. intros i Hi. rewrite Z.bits_0, Z.land_spec, Z.shiftl_spec, <- Z.land_ones, Z.land_spec by lia.
      destruct (Z.ltb_spec i 8); [rewrite (Z.testbit_neg_r _ (i - 8)) by lia; apply andb_false_r|].
      rewrite (Z.ones_spec_high 8 i) by lia. by rewrite andb_false_r. }
    eexists. split; [done|]. cbn. split; [done|]. lia. }
  destruct (_ && _) eqn:C; [|eexists; split; [done|]; cbn; split; [done|lia]]. apply andb_true_iff in C as [_ C%Z.ltb_lt].
  assert (exists r, (if negb (Z.land f 1 =? 0) then BackReference m dst src_cur src_end dst_cur dst_end
    else PlainByte m src_cur dst_cur dst_end) = Some r /\ in_range src_cur r) as (r & -> & Hr).
  { destruct (negb _); [apply BackReference_safe|apply PlainByte_safe]; done || lia. }
  cbn [mbind option_bind]. destruct r as [ptr m1|s1 d1 m1]; [by eexists|]. destruct Hr as (Hm1 & Hs1 & Hd1). apply IH; try done; [lia|lia|].
  rewrite Z.shiftr_div_pow2 by lia. change (2 ^ 1) with 2. split; [apply Z.div_pos; lia|]. apply Z.div_lt_upper_bound; [lia|].
  rewrite <- Z.pow_succ_r by lia. replace (Z.succ (8 + Z.of_nat fuel)) with (8 + Z.of_nat (S fuel)) by lia. lia.
Qed.

Lemma GroupLoop_safe fuel m src_cur dst_cur :
  safe m -> src_cur0 <= src_cur <= src_end -> src_end - src_cur <= Z.of_nat fuel -> dst <= dst_cur <= dst_end ->
  exists ptr m', GroupLoop fuel m dst src_cur src_end dst_cur dst_end = Some (ptr, m') /\ safe m' /\
    match ptr with Some p => dst <= p <= dst_end | None => True end.
Proof.
  revert m src_cur dst_cur. induction fuel as [|fuel IH]; intros m src_cur dst_cur Hm Hs Hf Hd; cbn [GroupLoop].
  { rewrite (proj2 (Z.ltb_ge _ _)) by lia. by eexists _, _. }
  destruct (_ && _) eqn:C; [|by eexists _, _]. apply andb_true_iff in C as [C%Z.ltb_lt C'%Z.ltb_lt].
  destruct (ld8_safe m src_cur) as (b & -> & Hb); [done|apply source; lia|]. cbn [mbind option_bind].
  destruct (EntityLoop_safe 8 m (Z.lor 0x8000 b) (src_cur + 1) dst_cur src_cur) as (r & -> & Hr); [done|lia|lia|done|..].
  { apply (lor_range 16); [lia|lia|]. unfold is_byte in Hb. lia. }
  cbn [mbind option_bind]. destruct r as [ptr m1|s1 d1 m1]; [destruct Hr; by eexists _, _|].
  destruct Hr as (Hm1 & Hs1 & Hd1). apply IH; [done|lia|lia|done].
Qed.

End Chunk.

Lemma lznt1_decompress_chunk_safe m dst n src k : safe m -> 0 <= n -> 0 <= k -> span readable src k -> span writable dst n ->
  exists ptr m', lznt1_decompress_chunk m dst n src k = Some (ptr, m') /\ safe m' /\
    match ptr with Some p => dst <= p <= dst + n | None => True end.
Proof.
  intros Hm Hn Hk Hr Hw. unfold lznt1_decompress_chunk. apply (GroupLoop_safe dst src); try lia; [|by replace (dst + n - dst) with n by lia|done].
  by replace (src + k - src) with k by lia.
Qed.

(** ** All chunks *)

Section Chunks.

Variables (dst dst_end src src_end workspace : Z).
Hypothesis source : span readable src (src_end - src).
Hypothesis target : span writable dst (dst_end - dst).
Hypothesis scratch : workspace = 0 \/ span writable workspace 0x1000.

Definition progress_in_range (p : progress) : Prop :=
  match p with
  | Out dst_cur m => safe m /\ dst <= dst_cur <= dst_end
  | Fail _ m => safe m
  | Continue src_cur dst_cur offset m => safe m /\ src <= src_cur <= src_end /\ dst <= dst_cur <= dst_end /\ 0 <= offset
  end.

Lemma ReadHeader_safe m src_cur : safe m -> src <= src_cur -> src_cur + 2 <= src_end ->
  exists h, ReadHeader m src_cur src_end = Some h /\
    match h with Chunk _ k s => s = src_cur + 2 /\ 1 <= k /\ s + k <= src_end | _ => True end.
Proof.
  intros Hm H1 H2. unfold ReadHeader. destruct (ld16_safe m src_cur) as (v & -> & Hv); [done|eapply span_sub; [exact source|lia|lia]|].
  cbn [mbind option_bind]. destruct (v =? 0); [by eexists|].
  destruct (Z.ltb_spec src_end (src_cur + 2 + (Z.land v 0xFFF + 1))); [by eexists|]. eexists. split; [done|].
  change 0xFFF with (Z.ones 12) in *. rewrite Z.land_ones in * by lia. pose proof (Z.mod_pos_bound v (2 ^ 12) ltac:(lia)). lia.
Qed.

Lemma SkipChunks_safe fuel m src_cur dst_cur offset :
  safe m -> src <= src_cur <= src_end -> src_end - src_cur <= Z.of_nat fuel -> dst <= dst_cur <= dst_end -> 0 <= offset ->
  exists p, SkipChunks fuel m src_cur src_end dst_cur offset = Some p /\ progress_in_range p.
Proof.
  revert src_cur offset. induction fuel as [|fuel IH]; intros src_cur offset Hm Hs Hf Hd Ho; cbn [SkipChunks].
  { rewrite (proj2 (Z.leb_gt (src_cur + 2) _)), andb_false_r by lia. by eexists. }
  destruct (_ && _) eqn:C; [|by eexists]. apply andb_true_iff in C as [C%Z.leb_le C'%Z.leb_le].
  destruct (ReadHeader_safe m src_cur) as (h & -> & Hh); [done|lia|lia|]. cbn [mbind option_bind].
  destruct h as [| |hd k s]; [by eexists|by eexists|]. apply IH; [done|lia|lia|done|lia].
Qed.

Lemma PartialChunk_safe m src_cur dst_cur offset :
  safe m -> src <= src_cur <= src_end -> dst <= dst_cur <= dst_end -> 0 <= offset ->
  exists p, PartialChunk m src_cur src_end dst_cur dst_end offset workspace = Some p /\ progress_in_range p.
Proof.
  intros Hm Hs Hd Ho. unfold PartialChunk. destruct (_ && _) eqn:C; [|by eexists]. apply andb_true_iff in C as [_ C%Z.leb_le].
  destruct (ReadHeader_safe m src_cur) as (h & -> & Hh); [done|lia|lia|]. cbn [mbind option_bind].
  destruct h as [| |hd k s]; [by eexists|by eexists|]. destruct Hh as (-> & Hk1 & Hk2).
  destruct (Z.leb_spec dst_end dst_cur); [by eexists|]. destruct (negb _).
  - destruct (Z.eqb_spec workspace 0) as [W0|W0]; [by eexists|]. destruct scratch as [?|Hw]; [done|].
    destruct (lznt1_decompress_chunk_safe m workspace 0x1000 (src_cur + 2) k) as (ptr & m1 & -> & Hm1 & Hp);
      [done|lia|lia|eapply span_sub; [exact source|lia|lia]|done|]. cbn [mbind option_bind]. destruct ptr as [ptr|]; [|by eexists].
    destruct (Z.ltb_spec offset (ptr - workspace)); [|eexists; split; [done|]; cbn; split; [done|lia]].
    destruct (copy_safe m1 dst_cur (workspace + offset) (Z.min (ptr - workspace - offset) (dst_end - dst_cur))) as (m2 & -> & Hm2);
      [done|lia| |eapply span_sub; [exact target|lia|lia]|]; [intros q Hq; apply writable_readable, Hw; lia|].
    cbn [mbind option_bind]. eexists. split; [done|]. cbn. split; [done|lia].
  - destruct (Z.ltb_spec offset k); [|eexists; split; [done|]; cbn; split; [done|lia]].
    destruct (copy_safe m dst_cur (src_cur + 2 + offset) (Z.min (k - offset) (dst_end - dst_cur))) as (m2 & -> & Hm2);
      [done|lia|eapply span_sub; [exact source|lia|lia]|eapply span_sub; [exact target|lia|lia]|].
    cbn [mbind option_bind]. eexists. split; [done|]. cbn. split; [done|lia].
Qed.

Lemma Padding_safe m dst_cur offset : safe m -> dst <= dst_cur <= dst_end ->
  exists r m', Padding m dst dst_cur dst_end offset = Some (r, m') /\ safe m' /\
    match r with Some d => dst <= d <= dst_end | None => True end.
Proof.
  intros Hm Hd. unfold Padding. destruct (negb _); [|by eexists _, _]. set (b := Z.land _ _).
  assert (0 <= b < 2 ^ 12).
  { unfold b. change 0xFFF with (Z.ones 12). rewrite Z.land_ones by lia. apply Z.mod_pos_bound. lia. }
  destruct (Z.leb_spec dst_end (dst_cur + (0x1000 - b))); [by eexists _, _|]. unfold RtlZeroMemory.
  destruct (store_safe m dst_cur (replicate (Z.to_nat (0x1000 - b)) 0)) as (m' & -> & Hm'); [done|apply Forall_replicate; split; lia| |].
  - rewrite length_replicate. eapply span_sub; [exact target|lia|lia].
  - cbn [mbind option_bind]. eexists _, _. split; [done|]. split; [done|lia].
Qed.

Lemma ChunkLoop_safe fuel m src_cur dst_cur offset :
  safe m -> src <= src_cur <= src_end -> src_end - src_cur <= Z.of_nat fuel -> dst <= dst_cur <= dst_end ->
  exists p, ChunkLoop fuel m dst src_cur src_end dst_cur dst_end offset = Some p /\ progress_in_range p.
Proof.
  revert m src_cur dst_cur. induction fuel as [|fuel IH]; intros m src_cur dst_cur Hm Hs Hf Hd; cbn [ChunkLoop].
  { rewrite (proj2 (Z.leb_gt (src_cur + 2) _)) by lia. by eexists. }
  destruct (Z.leb_spec (src_cur + 2) src_end); [|by eexists].
  destruct (ReadHeader_safe m src_cur) as (h & -> & Hh); [done|lia|lia|]. cbn [mbind option_bind].
  destruct h as [| |hd k s]; [by eexists|by eexists|]. destruct Hh as (-> & Hk1 & Hk2).
  destruct (Padding_safe m dst_cur offset) as (r & m1 & -> & Hm1 & Hr); [done|done|]. cbn [mbind option_bind].
  destruct r as [d|]; [|by eexists]. destruct (Z.leb_spec dst_end d); [by eexists|]. destruct (negb _).
  - destruct (lznt1_decompress_chunk_safe m1 d (dst_end - d) (src_cur + 2) k) as (ptr & m2 & -> & Hm2 & Hp);
      [done|lia|lia|eapply span_sub; [exact source|lia|lia]|eapply span_sub; [exact target|lia|lia]|].
    cbn [mbind option_bind]. destruct ptr as [ptr|]; [|by eexists]. apply IH; [done|lia|lia|lia].
  - destruct (copy_safe m1 d (src_cur + 2) (Z.min k (dst_end - d))) as (m2 & -> & Hm2);
      [done|lia|eapply span_sub; [exact source|lia|lia]|eapply span_sub; [exact target|lia|lia]|].
    cbn [mbind option_bind]. apply IH; [done|lia|lia|lia].
Qed.

End Chunks.

Lemma Finish_safe dst n p src src_end : progress_in_range dst (dst + n) src src_end p ->
  exists Status final m', Finish dst p = (Status, final, m') /\ safe m' /\ forall f, final = Some f -> 0 <= f <= n.
Proof.
  destruct p as [d m|st m|s d o m]; cbn; intros Hp; (eexists _, _, _; split; [done|]).
  - split; [apply Hp|]. intros f [= <-]. lia.
  - by split.
  - split; [apply Hp|]. intros f [= <-]. lia.
Qed.

Lemma lznt1_decompress_safe dst n src k offset workspace :
  safe m0 -> 0 <= n -> 0 <= k -> 0 <= offset -> span readable src k -> span writable dst n ->
  workspace = 0 \/ span writable workspace 0x1000 ->
  exists Status final m', lznt1_decompress m0 dst n src k offset workspace = Some (Status, final, m') /\
    safe m' /\ forall f, final = Some f -> 0 <= f <= n.
Proof.
  intros Hm Hn Hk Ho Hr Hw Hs. unfold lznt1_decompress. destruct (src + k <? src + 2); [eexists _, _, _; split; [done|by split]|].
  assert (span readable src (src + k - src)) as Hr' by (by replace (src + k - src) with k by lia).
  assert (span writable dst (dst + n - dst)) as Hw' by (by replace (dst + n - dst) with n by lia).
  assert (forall p, progress_in_range dst (dst + n) src (src + k) p ->
    exists Status final m', Some (Finish dst p) = Some (Status, final, m') /\ safe m' /\ forall f, final = Some f -> 0 <= f <= n) as Fin.
  { intros p Hp. destruct (Finish_safe dst n p src (src + k) Hp) as (a & b & c & -> & H). by eexists _, _, _. }
  destruct (SkipChunks_safe dst (dst + n) src (src + k) Hr' (Z.to_nat k) m0 src dst offset) as (p & -> & Hp); [done|lia|lia|lia|done|].
  cbn [mbind option_bind]. destruct p as [d m|st m|s d o m]; [by apply Fin|by apply Fin|]. destruct Hp as (Hm1 & Hs1 & Hd1 & Ho1).
  destruct (PartialChunk_safe dst (dst + n) src (src + k) workspace Hr' Hw' Hs m s d o) as (p & -> & Hp); [done..|].
  cbn [mbind option_bind]. destruct p as [d1 m1|st m1|s1 d1 o1 m1]; [by apply Fin|by apply Fin|]. destruct Hp as (Hm2 & Hs2 & Hd2 & Ho2).
  destruct (ChunkLoop_safe dst (dst + n) src (src + k) Hr' Hw' (Z.to_nat k) m1 s1 d1 o1) as (p & -> & Hp); [done|done|lia|done|].
  cbn [mbind option_bind]. by apply Fin.
Qed.

End Safety.
