(* ===== verification/CompressClaims.v ===== *)
(** * What the decompressor returns

    Fragments of a stream from any offset, the round trip with the compressor, and the bounds of
    the decompressor on arbitrary input. *)

From Stdlib Require Import ZArith Lia Bool.
From stdpp Require Import base option list numbers gmap.
From S2P Require Import Prelude Memory Compress CompressProps CompressStream CompressSafety.
Open Scope Z_scope.

Lemma stream_app a b : stream (a ++ b) = stream a ++ stream b.
Proof. unfold stream. by rewrite map_app, concat_app. Qed.

(** ** The chunks before the offset *)

Lemma SkipChunks_run cs fuel m src_cur dst (offset : nat) :
  (length (stream cs) <= fuel)%nat -> wf_stream cs -> has m src_cur (stream cs) -> (offset < length (data cs))%nat ->
  exists pre cs' (offset' : nat),
    cs = pre ++ cs' /\
    SkipChunks fuel m src_cur (src_cur + Z.of_nat (length (stream cs))) dst (Z.of_nat offset)
    = Some (Continue (src_cur + Z.of_nat (length (stream pre))) dst (Z.of_nat offset') m) /\
    drop offset (data cs) = drop offset' (data cs') /\ (offset' < 4096)%nat /\ (offset' < length (data cs'))%nat /\
    (full cs -> full cs').
Proof.
  revert fuel src_cur offset. induction cs as [|c cs IH]; intros fuel src_cur offset Hf HW Hs Ho; [cbn in Ho; lia|].
  apply Forall_cons in HW as [Wc Wcs]. rewrite length_stream_cons in *. destruct fuel as [|fuel]; [lia|]. cbn [SkipChunks].
  destruct (Z.leb_spec 0x1000 (Z.of_nat offset)) as [Hk|Hk].
  2:{ exists [], (c :: cs), offset. cbn [andb app]. split; [done|]. split; [do 2 f_equal; cbn; lia|]. split_and!; [done|lia|done|done]. }
  rewrite (proj2 (Z.leb_le _ _)) by lia. cbn [andb]. rewrite stream_cons in Hs. apply has_app in Hs as [H1 Hs]. rewrite length_enc in Hs.
  apply has_app in Hs as [_ H3]. destruct (ReadHeader_run m src_cur
    (src_cur + Z.of_nat (2 + length (chunk_body c) + length (stream cs))) c Wc H1) as [-> _]; [lia|]. cbn [mbind option_bind].
  pose proof (chunk_data_pos c Wc) as Lc. rewrite data_cons in Ho |- *. destruct cs as [|c' cs]; [cbn [more] in Ho; rewrite app_nil_r in Ho; lia|].
  cbn [more] in Ho |- *. set (cs0 := c' :: cs) in *. rewrite app_assoc in Ho |- *. set (h := chunk_data c ++ replicate _ 0) in *.
  assert (length h = 4096%nat) as Lh by (unfold h; rewrite length_app, length_replicate; lia). rewrite length_app in Ho.
  replace (Z.of_nat offset - 0x1000) with (Z.of_nat (offset - 4096)) by lia.
  destruct (IH fuel (src_cur + 2 + Z.of_nat (length (chunk_body c))) (offset - 4096)%nat) as (pre & cs' & o' & E0 & E & D & O1 & O2 & F);
    [lia|done|done|lia|].
  exists (c :: pre), cs', o'. split; [cbn; by rewrite E0|]. split; [|split_and!; [|done|done|intros [_ ?]; by apply F]].
  - replace (src_cur + Z.of_nat (2 + length (chunk_body c) + length (stream cs0)))
      with (src_cur + 2 + Z.of_nat (length (chunk_body c)) + Z.of_nat (length (stream cs0))) by lia.
    rewrite E, length_stream_cons. do 2 f_equal. lia.
  - by rewrite <- D, drop_app_ge, Lh by lia.
Qed.

(** ** The chunk with the offset *)

Section Fragment.

Variables (dst workspace : Z) (size : nat).

(** [m'] differs from [m] at most in the destination and the workspace. *)
Definition same_outside (m m' : mem) : Prop :=
  forall q, q < dst \/ dst + Z.of_nat size <= q -> q < workspace \/ workspace + 0x1000 <= q -> m' !! q = m !! q.

Lemma same_outside_dst m m' : same_except m m' dst (Z.of_nat size) -> same_outside m m'.
Proof. intros S q H1 _. by apply S. Qed.

Lemma region_has m k out : (length out <= k)%nat -> region m workspace k out -> has m workspace out.
Proof. intros L (rest & H & _). rewrite take_ge in H by done. by apply has_app in H as [H _]. Qed.

Lemma has_drop m p n (bs : list Z) : has m p bs -> (n <= length bs)%nat -> has m (p + Z.of_nat n) (drop n bs).
Proof.
  intros H L. rewrite <- (take_drop n bs) in H. apply has_app in H as [_ H]. rewrite length_take in H.
  by replace (n `min` length bs)%nat with n in H by lia.
Qed.

Lemma stop_nil : stop dst size [] = dst.
Proof. unfold stop. rewrite Nat.min_r by (cbn; lia). cbn. lia. Qed.

Lemma PartialChunk_run m old wold c src_cur src_end (offset : nat) :
  has m dst old -> length old = size -> has m workspace wold -> length wold = 4096%nat -> workspace <> 0 ->
  dst + Z.of_nat size <= workspace \/ workspace + 0x1000 <= dst ->
  wf_chunk c -> has m src_cur (enc 2 (chunk_head c) ++ chunk_body c) -> (0 < offset)%nat -> (0 < size)%nat ->
  src_cur + 2 + Z.of_nat (length (chunk_body c)) <= src_end ->
  src_end <= workspace \/ workspace + 0x1000 <= src_cur ->
  exists m',
    PartialChunk m src_cur src_end dst (dst + Z.of_nat size) (Z.of_nat offset) workspace
    = Some (Continue (src_cur + 2 + Z.of_nat (length (chunk_body c))) (stop dst size (drop offset (chunk_data c))) (Z.of_nat offset) m') /\
    region m' dst size (drop offset (chunk_data c)) /\ same_outside m m'.
Proof.
  intros Hd Lo Hw Lw W0 Dw Wc Hs Ho Hsz He Ds. apply has_app in Hs as [H1 H2]. rewrite length_enc in H2.
  unfold PartialChunk. rewrite (proj2 (Z.eqb_neq _ _)), (proj2 (Z.leb_le _ _)) by lia. cbn [negb andb].
  destruct (ReadHeader_run m src_cur src_end c Wc H1) as [-> P8]; [lia|]. cbn [mbind option_bind].
  rewrite (proj2 (Z.leb_gt _ _)), P8 by lia. destruct Wc as (Wb & Wd & V).
  replace (dst + Z.of_nat size - dst) with (Z.of_nat (length old)) by lia.
  assert (forall m1, has m1 dst old -> region m1 dst size []) as Rn
    by (intros m1 H; exists old; by rewrite take_nil).
  destruct c as [bs|gs]; cbn [chunk_body chunk_data] in *.
  - destruct (Z.ltb_spec (Z.of_nat offset) (Z.of_nat (length bs))) as [Lb|Lb].
    + pose proof (has_drop m _ offset bs H2 ltac:(lia)) as H2'. change (Z.of_nat 2) with 2 in H2'.
      destruct (copy_region m dst (src_cur + 2 + Z.of_nat offset) (drop offset bs) old Hd H2') as (m' & E & R & S). rewrite Lo in *.
      replace (Z.of_nat (length bs) - Z.of_nat offset) with (Z.of_nat (length (drop offset bs))) by (rewrite length_drop; lia).
      rewrite E. cbn [mbind option_bind]. exists m'. split; [|split; [done|by apply same_outside_dst]].
      do 2 f_equal. unfold stop. lia.
    + rewrite drop_ge, stop_nil by lia. exists m. split; [done|]. split; [by apply Rn|done].
  - rewrite (proj2 (Z.eqb_neq _ _)) by done.
    destruct (lznt1_decompress_chunk_run m workspace 4096 gs (src_cur + 2) wold Hw Lw V H2) as (m1 & E1 & R1 & S1); [lia|].
    change (Z.of_nat 4096) with 0x1000 in *. rewrite E1. cbn [mbind option_bind]. set (out := expand_groups [] gs) in *.
    assert (stop workspace 4096 out - workspace = Z.of_nat (length out)) as -> by (unfold stop; lia).
    assert (has m1 dst old) as Hd1 by (eapply has_frame; [exact Hd|exact S1|lia]).
    assert (same_outside m m1) as S1' by (intros q _ Hq; by apply S1).
    destruct (Z.ltb_spec (Z.of_nat offset) (Z.of_nat (length out))) as [Lb|Lb].
    + pose proof (has_drop m1 _ offset out (region_has _ _ _ Wd R1) ltac:(lia)) as H2'.
      destruct (copy_region m1 dst (workspace + Z.of_nat offset) (drop offset out) old Hd1 H2') as (m' & E & R & S). rewrite Lo in *.
      replace (Z.of_nat (length out) - Z.of_nat offset) with (Z.of_nat (length (drop offset out))) by (rewrite length_drop; lia).
      rewrite E. cbn [mbind option_bind]. exists m'. split; [|split; [done|]].
      * do 2 f_equal. unfold stop. lia.
      * intros q Q1 Q2. rewrite (same_outside_dst _ _ S q Q1 Q2). by apply S1'.
    + rewrite drop_ge, stop_nil by lia. exists m1. split; [done|]. split; [by apply Rn|done].
Qed.

(** ** Fragments *)

(** The chunks behind the one with the offset. *)
Lemma rest_run m out cs fuel src_cur (offset gap : nat) :
  (length (stream cs) <= fuel)%nat -> region m dst size out -> wf_stream cs -> has m src_cur (stream cs) ->
  (gap < 4096)%nat -> ((length out + offset + gap) `mod` 4096 = 0)%nat -> room size gap out cs ->
  src_cur + Z.of_nat (length (stream cs)) <= dst \/ dst + Z.of_nat size <= src_cur ->
  exists m',
    (p ← ChunkLoop fuel m dst src_cur (src_cur + Z.of_nat (length (stream cs))) (stop dst size out) (dst + Z.of_nat size) (Z.of_nat offset);
     Some (Finish dst p))
    = Some (STATUS_SUCCESS, Some (Z.of_nat (length (take size (out ++ more gap cs)))), m') /\
    has m' dst (take size (out ++ more gap cs)) /\ same_except m m' dst (Z.of_nat size).
Proof.
  intros Hf HR HW Hs Hg Al Rm Dis.
  destruct (ChunkLoop_run cs fuel m dst size out src_cur (Z.of_nat offset) gap) as (m' & -> & (rest & R & _) & S);
    [done|done|done|done|lia|done| |done|done|].
  { right. rewrite <- !Nat2Z.inj_add. change 4096 with (Z.of_nat 4096). by rewrite <- Nat2Z.inj_mod, Al. }
  exists m'. split; [|split; [by apply has_app in R as [R _]|done]]. cbn [mbind option_bind Finish]. unfold stop. do 3 f_equal.
  rewrite length_take. f_equal. lia.
Qed.

(** The rest of a chunk and what it is filled up with. *)
Lemma drop_data k c cs : (k < 4096)%nat -> (length (chunk_data c) <= 4096)%nat ->
  drop k (data (c :: cs)) = drop k (chunk_data c) ++ more (4096 - Nat.max k (length (chunk_data c))) cs.
Proof.
  intros Hk Lc. rewrite data_cons, drop_app. f_equal. destruct cs as [|c' cs]; cbn [more]; [apply drop_nil|].
  rewrite drop_app, drop_replicate, length_replicate. f_equal; [f_equal; lia|].
  replace (k - length (chunk_data c) - (4096 - length (chunk_data c)))%nat with 0%nat by lia. done.
Qed.

(** From the start of a chunk. *)
Lemma start_run m old cs fuel src_cur :
  (length (stream cs) <= fuel)%nat -> has m dst old -> length old = size -> wf_stream cs -> has m src_cur (stream cs) ->
  (length (data cs) <= size)%nat \/ full cs ->
  src_cur + Z.of_nat (length (stream cs)) <= dst \/ dst + Z.of_nat size <= src_cur ->
  exists m',
    (p ← ChunkLoop fuel m dst src_cur (src_cur + Z.of_nat (length (stream cs))) dst (dst + Z.of_nat size) 0;
     Some (Finish dst p))
    = Some (STATUS_SUCCESS, Some (Z.of_nat (length (take size (data cs)))), m') /\
    has m' dst (take size (data cs)) /\ same_except m m' dst (Z.of_nat size).
Proof.
  intros Hf Hd Lo HW Hs Hr Dis. assert (more 0 cs = data cs) as Em by (by destruct cs).
  destruct (rest_run m [] cs fuel src_cur 0 0) as (m' & E & K); [done| |done|done|lia|done| |done|].
  { exists old. by rewrite take_nil. }
  { destruct Hr as [?|?]; [left; cbn [app]; by rewrite Em|right; auto]. }
  rewrite stop_nil in E. cbn [app] in *. rewrite Em in *. by exists m'.
Qed.

Lemma lznt1_decompress_start m old cs src workspace' :
  has m dst old -> length old = size -> wf_stream cs -> cs <> [] -> has m src (stream cs) ->
  (length (data cs) <= size)%nat \/ full cs ->
  src + Z.of_nat (length (stream cs)) <= dst \/ dst + Z.of_nat size <= src ->
  exists m',
    lznt1_decompress m dst (Z.of_nat size) src (Z.of_nat (length (stream cs))) 0 workspace'
    = Some (STATUS_SUCCESS, Some (Z.of_nat (length (take size (data cs)))), m') /\
    has m' dst (take size (data cs)) /\ same_except m m' dst (Z.of_nat size).
Proof.
  intros Hd Lo HW Ne Hs Hr Dis. unfold lznt1_decompress.
  assert (2 <= length (stream cs))%nat by (destruct cs; [done|rewrite length_stream_cons; lia]).
  rewrite (proj2 (Z.ltb_ge _ _)), Nat2Z.id by lia.
  destruct (length (stream cs)) as [|n] eqn:El; [lia|]. cbn [SkipChunks]. change (0x1000 <=? 0) with false.
  cbn [andb mbind option_bind]. unfold PartialChunk. change (negb (0 =? 0)) with false. cbn [andb mbind option_bind].
  rewrite <- El in *. by apply (start_run m old).
Qed.

Lemma lznt1_decompress_run m old wold cs src (offset : nat) :
  has m dst old -> length old = size -> has m workspace wold -> length wold = 4096%nat -> workspace <> 0 ->
  dst + Z.of_nat size <= workspace \/ workspace + 0x1000 <= dst ->
  wf_stream cs -> (offset < length (data cs))%nat -> has m src (stream cs) -> (length (drop offset (data cs)) <= size)%nat ->
  let src_end := src + Z.of_nat (length (stream cs)) in
  src_end <= workspace \/ workspace + 0x1000 <= src -> src_end <= dst \/ dst + Z.of_nat size <= src ->
  exists m',
    lznt1_decompress m dst (Z.of_nat size) src (Z.of_nat (length (stream cs))) (Z.of_nat offset) workspace
    = Some (STATUS_SUCCESS, Some (Z.of_nat (length (drop offset (data cs)))), m') /\
    has m' dst (drop offset (data cs)) /\ same_outside m m'.
Proof.
  intros Hd Lo Hw Lw W0 Dw HW Ne Hs Hr src_end Ds Dd. subst src_end. unfold lznt1_decompress.
  assert (2 <= length (stream cs))%nat by (destruct cs; [cbn in Ne; lia|rewrite length_stream_cons; lia]).
  rewrite (proj2 (Z.ltb_ge _ _)), Nat2Z.id by lia.
  destruct (SkipChunks_run cs (length (stream cs)) m src dst offset) as (pre & cs' & k & -> & -> & D & O1 & O2 & _); [done|done|done|done|].
  rewrite D in *. cbn [mbind option_bind]. clear D Ne. apply Forall_app in HW as [_ HW].
  rewrite stream_app in Hs. apply has_app in Hs as [_ Hs]. rewrite stream_app, length_app in *.
  set (s := src + Z.of_nat (length (stream pre))) in *.
  replace (src + Z.of_nat (length (stream pre) + length (stream cs'))) with (s + Z.of_nat (length (stream cs'))) in * by lia.
  destruct k as [|k].
  { unfold PartialChunk. change (Z.of_nat 0) with 0. change (negb (0 =? 0)) with false. cbn [andb mbind option_bind]. rewrite drop_0 in *.
    destruct (start_run m old cs' (length (stream pre) + length (stream cs')) s) as (m' & E & K & S);
      [lia|done|done|done|done|by left|lia|]. rewrite take_ge in E, K by done. rewrite E. exists m'. split; [done|]. split; [done|by apply same_outside_dst]. }
  destruct cs' as [|c cs']; [cbn in O2; lia|]. apply Forall_cons in HW as [Wc Wcs]. rewrite stream_cons in Hs. rewrite length_stream_cons in *.
  rewrite app_assoc in Hs. apply has_app in Hs as [H1 H2]. rewrite length_app, length_enc in H2.
  assert (0 < size)%nat by (rewrite length_drop in Hr; lia). pose proof (chunk_data_pos c Wc) as Lc.
  destruct (PartialChunk_run m old wold c s (s + Z.of_nat (2 + length (chunk_body c) + length (stream cs'))) (S k))
    as (m1 & -> & R1 & S1); try done; [lia|lia|lia|]. cbn [mbind option_bind]. rewrite drop_data in * by lia.
  destruct (rest_run m1 (drop (S k) (chunk_data c)) cs' (length (stream pre) + (2 + length (chunk_body c) + length (stream cs')))
    (s + 2 + Z.of_nat (length (chunk_body c))) (S k) (4096 - Nat.max (S k) (length (chunk_data c)))) as (m' & E & K & SE).
  - lia.
  - done.
  - done.
  - rewrite has_lookup in *. intros i b Hi. pose proof (lookup_lt_Some _ _ _ Hi). rewrite S1 by lia.
    rewrite <- (H2 i b Hi). f_equal. lia.
  - lia.
  - rewrite length_drop. replace (length (chunk_data c) - S k + S k + (4096 - Nat.max (S k) (length (chunk_data c))))%nat with 4096%nat by lia. done.
  - by left.
  - lia.
  - replace (s + 2 + Z.of_nat (length (chunk_body c)) + Z.of_nat (length (stream cs')))
      with (s + Z.of_nat (2 + length (chunk_body c) + length (stream cs'))) in E by lia.
    rewrite take_ge in E, K by done. rewrite E. exists m'. split; [done|]. split; [done|].
    intros q Q1 Q2. rewrite SE by done. by apply S1.
Qed.

End Fragment.

(** A chunk that a fragment can be taken of: a chunk is stored only if it has all 4096 bytes. *)
Definition whole (c : chunk) : Prop :=
  match c with Stored bs => length bs = 4096%nat | Packed _ => True end.

Lemma format_lznt1 engine : engine = COMPRESSION_ENGINE_STANDARD \/ engine = COMPRESSION_ENGINE_MAXIMUM ->
  (Z.land (Z.lor COMPRESSION_FORMAT_LZNT1 engine) (Z.lnot COMPRESSION_ENGINE_MAXIMUM) =? COMPRESSION_FORMAT_LZNT1) = true.
Proof. by intros [-> | ->]. Qed.

(** C11: decoding of the LZNT1 format, into a destination with room for the data.  For every stream
    of stored and compressed chunks, [RtlDecompressBuffer] writes the data of all chunks, those
    before the last one filled up to 4096 bytes with zeros, and changes nothing but the
    destination.  If every stored chunk has 4096 bytes, [RtlDecompressFragment] writes the data
    from any offset inside it on, and changes nothing but the destination and the workspace.
    Both return the number of bytes; the format is the reference definition [stream], its
    data is [data]. *)
Theorem fragment_decodes m engine dst old cs src :
  engine = COMPRESSION_ENGINE_STANDARD \/ engine = COMPRESSION_ENGINE_MAXIMUM ->
  has m dst old -> wf_stream cs -> cs <> [] -> has m src (stream cs) -> (length (data cs) <= length old)%nat ->
  let src_end := src + Z.of_nat (length (stream cs)) in
  src_end <= dst \/ dst + Z.of_nat (length old) <= src ->
  let format := Z.lor COMPRESSION_FORMAT_LZNT1 engine in
  (exists m',
    RtlDecompressBuffer m format dst (Z.of_nat (length old)) src (Z.of_nat (length (stream cs)))
    = Some (STATUS_SUCCESS, Some (Z.of_nat (length (data cs))), m') /\
    has m' dst (data cs) /\ same_except m m' dst (Z.of_nat (length old))) /\
  (forall workspace wold (offset : nat),
    Forall whole cs -> (offset < length (data cs))%nat ->
    has m workspace wold -> length wold = 4096%nat -> workspace <> 0 ->
    dst + Z.of_nat (length old) <= workspace \/ workspace + 0x1000 <= dst ->
    src_end <= workspace \/ workspace + 0x1000 <= src ->
    exists m',
      RtlDecompressFragment m format dst (Z.of_nat (length old)) src (Z.of_nat (length (stream cs)))
        (Z.of_nat offset) workspace
      = Some (STATUS_SUCCESS, Some (Z.of_nat (length (drop offset (data cs)))), m') /\
      has m' dst (drop offset (data cs)) /\ same_outside dst workspace (length old) m m').
Proof.
  intros He Hd HW Ne Hs Hr src_end Dd format. split.
  - unfold RtlDecompressBuffer, RtlDecompressFragment. unfold format. rewrite (format_lznt1 engine He).
    destruct (lznt1_decompress_start dst (length old) m old cs src 0) as (m' & E & K & S); [done|done|done|done|done|by left|done|].
    rewrite take_ge in E, K by done. by exists m'.
  - intros workspace wold offset _ Ho Hw Lw W0 Dw Ds. unfold RtlDecompressFragment, format. rewrite (format_lznt1 engine He).
    apply (lznt1_decompress_run dst workspace (length old) m old wold cs src offset); try done. rewrite length_drop. lia.
Qed.

(** ** The compressor *)

(** The chunks that the compressor makes. *)
Fixpoint blocks (n : nat) (bs : list Z) : list chunk :=
  match n, bs with
  | O, _ | _, [] => []
  | S n', _ => Stored (take 4096 bs) :: blocks n' (drop 4096 bs)
  end.

Lemma blocks_full n bs : (length bs <= n)%nat -> data (blocks n bs) = bs /\ full (blocks n bs).
Proof.
  revert bs. induction n as [|n IH]; intros bs L; [by destruct bs; [|cbn in L; lia]|]. destruct bs as [|b bs]; [done|].
  set (l := b :: bs) in *. assert (1 <= length l)%nat by (cbn; lia).
  destruct (IH (drop 4096 l)) as [Hd Hf]; [rewrite length_drop; lia|].
  change (blocks (S n) l) with (Stored (take 4096 l) :: blocks n (drop 4096 l)). rewrite data_cons. cbn [full chunk_data].
  rewrite length_take. destruct (decide (length l <= 4096)%nat).
  - rewrite drop_ge, take_ge by done. destruct n; cbn [blocks more]; rewrite app_nil_r; (split; [done|split; [by left|done]]).
  - replace (4096 - 4096 `min` length l)%nat with 0%nat by lia.
    assert (more 0 (blocks n (drop 4096 l)) = drop 4096 l) as -> by (rewrite <- Hd at 2; by destruct (blocks n _)).
    rewrite take_drop. split; [done|]. split; [right; lia|done].
Qed.

Lemma blocks_wf n bs : (length bs <= n)%nat -> Forall is_byte bs -> wf_stream (blocks n bs).
Proof.
  revert bs. induction n as [|n IH]; intros bs L B; [constructor|]. destruct bs as [|b bs]; [constructor|]. cbn [blocks].
  constructor; [|apply IH; [rewrite length_drop; cbn in *; lia|by apply Forall_drop]].
  unfold wf_chunk. cbn [chunk_body chunk_data]. rewrite length_take. split; [cbn [length]; lia|]. split; [lia|by apply Forall_take].
Qed.

Lemma blocks_length n bs : (length bs <= n)%nat ->
  length (stream (blocks n bs)) = (length bs + 2 * ((length bs + 4095) / 4096))%nat.
Proof.
  revert bs. induction n as [|n IH]; intros bs L; [by destruct bs; [|cbn in L; lia]|]. destruct bs as [|b bs]; [done|].
  set (l := b :: bs) in *. assert (1 <= length l)%nat by (cbn; lia). cbn [blocks]. change (match l with [] => _ | _ :: _ => ?x end) with x.
  rewrite length_stream_cons, IH by (rewrite length_drop; lia). cbn [chunk_body]. rewrite length_take, length_drop.
  destruct (decide (length l <= 4096)%nat).
  - replace (length l - 4096)%nat with 0%nat by lia. change ((0 + 4095) / 4096)%nat with 0%nat.
    replace ((length l + 4095) / 4096)%nat with 1%nat; [lia|]. apply Nat.div_unique with (length l - 1)%nat; lia.
  - replace (length l + 4095)%nat with (length l - 4096 + 4095 + 1 * 4096)%nat by lia. rewrite Nat.div_add by lia. lia.
Qed.

(** One chunk. *)
Lemma store_block m src h dst old :
  (1 <= length h <= 4096)%nat -> has m src h -> has m dst old -> (2 + length h <= length old)%nat ->
  src + Z.of_nat (length h) <= dst \/ dst + Z.of_nat (length old) <= src ->
  exists m1 m2,
    st16 m dst (Z.lor 0x3000 (Z.of_nat (length h) - 1)) = Some m1 /\
    RtlCopyMemory m1 (dst + 2) src (Z.of_nat (length h)) = Some m2 /\
    has m2 dst (enc 2 (chunk_head (Stored h)) ++ h) /\ same_except m m2 dst (2 + Z.of_nat (length h)).
Proof.
  intros Lh Hh Hd Lo Dis. rewrite <- (take_drop 2 old) in Hd. assert (length (take 2 old) = 2)%nat as L2 by (rewrite length_take; lia).
  apply has_app in Hd as [Hd1 Hd2]. rewrite L2 in Hd2.
  assert (Z.lor 0x3000 (Z.of_nat (length h) - 1) = chunk_head (Stored h)) as ->.
  { unfold chunk_head. cbn [chunk_body]. change 0x3000 with (Z.shiftl 3 12). rewrite lor_shiftl_add by lia. lia. }
  destruct (store_at m dst (take 2 old) (enc 2 (chunk_head (Stored h))) Hd1) as (m1 & E1 & K1 & S1 & _); [by rewrite length_enc|].
  rewrite L2 in S1. change (Z.of_nat 2) with 2 in *.
  assert (has m1 src h) as Hh1 by (eapply has_frame; [exact Hh|exact S1|lia]).
  assert (has m1 (dst + 2) (drop 2 old)) as Hd3 by (eapply has_frame; [exact Hd2|exact S1|lia]).
  rewrite <- (take_drop (length h) (drop 2 old)) in Hd3. apply has_app in Hd3 as [Hd4 _].
  assert (length (take (length h) (drop 2 old)) = length h) as L4 by (rewrite length_take, length_drop; lia).
  destruct (store_at m1 (dst + 2) _ h Hd4 ltac:(by rewrite L4)) as (m2 & E2 & K2 & S2 & _). rewrite L4 in S2.
  exists m1, m2. split; [done|]. split; [|split].
  - unfold RtlCopyMemory, RtlMoveMemory. rewrite Nat2Z.id. unfold has in Hh1. rewrite Hh1. done.
  - apply has_app. rewrite length_enc. split; [eapply has_frame; [exact K1|exact S2|rewrite length_enc; lia]|done].
  - intros q Hq. rewrite S2, S1 by lia. done.
Qed.

Lemma StoreLoop_run n fuel m src bs dst old :
  (length bs <= n)%nat -> (n <= fuel)%nat -> has m src bs -> has m dst old ->
  src + Z.of_nat (length bs) <= dst \/ dst + Z.of_nat (length old) <= src ->
  exists m',
    StoreLoop fuel m src (src + Z.of_nat (length bs)) dst (dst + Z.of_nat (length old))
    = Some (if decide (length (stream (blocks n bs)) <= length old)%nat
            then Some (dst + Z.of_nat (length (stream (blocks n bs)))) else None, m') /\
    same_except m m' dst (Z.of_nat (length old)) /\
    ((length (stream (blocks n bs)) <= length old)%nat -> has m' dst (stream (blocks n bs))).
Proof.
  revert fuel m src bs dst old. induction n as [|n IH]; intros fuel m src bs dst old L Hf Hs Hd Dis.
  { destruct bs; [|cbn in L; lia]. exists m. cbn [blocks]. rewrite decide_True by (cbn; lia). split; [|split; [by intros q|done]].
    destruct fuel; cbn [StoreLoop]; rewrite (proj2 (Z.ltb_ge _ _)) by (cbn; lia); do 3 f_equal; cbn; lia. }
  destruct fuel as [|fuel]; [lia|]. destruct bs as [|b bs].
  { exists m. cbn [blocks StoreLoop]. rewrite (proj2 (Z.ltb_ge _ _)) by (cbn; lia). rewrite decide_True by (cbn; lia).
    split; [do 3 f_equal; cbn; lia|]. split; [by intros q|done]. }
  set (l := b :: bs) in *. assert (1 <= length l)%nat by (cbn; lia). cbn [StoreLoop].
  rewrite (proj2 (Z.ltb_lt src _)) by lia. replace (src + Z.of_nat (length l) - src) with (Z.of_nat (length l)) by lia.
  change (blocks (S n) l) with (Stored (take 4096 l) :: blocks n (drop 4096 l)).
  assert (Z.min 0x1000 (Z.of_nat (length l)) = Z.of_nat (length (take 4096 l))) as -> by (rewrite length_take; lia).
  rewrite <- (take_drop 4096 l) in Hs. assert (length (take 4096 l) + length (drop 4096 l) = length l)%nat as Lhr
    by (rewrite <- length_app; by rewrite take_drop).
  assert (1 <= length (take 4096 l) <= 4096)%nat as Lh by (rewrite length_take; lia).
  set (h := take 4096 l) in *. set (r := drop 4096 l) in *. clearbody h r. apply has_app in Hs as [Hh Hr].
  rewrite length_stream_cons. cbn [chunk_body]. destruct (Z.ltb_spec (dst + Z.of_nat (length old)) (dst + 2 + Z.of_nat (length h))) as [Lt|Lt].
  { exists m. rewrite decide_False by lia. split; [done|]. split; [by intros q|]. lia. }
  destruct (store_block m src h dst old) as (m1 & m2 & -> & E2 & K2 & S2); [done|done|done|lia|lia|]. cbn [mbind option_bind]. rewrite E2. cbn [mbind option_bind].
  rewrite <- (take_drop (2 + length h) old) in Hd. apply has_app in Hd as [_ Hd]. rewrite length_take in Hd.
  destruct (IH fuel m2 (src + Z.of_nat (length h)) r (dst + 2 + Z.of_nat (length h)) (drop (2 + length h) old)) as (m' & E & S & K).
  - lia.
  - lia.
  - eapply has_frame; [exact Hr|exact S2|lia].
  - eapply has_frame; [|exact S2|lia]. by replace (dst + 2 + Z.of_nat (length h)) with (dst + Z.of_nat ((2 + length h) `min` length old)) by lia.
  - rewrite length_drop. lia.
  - rewrite length_drop in *. exists m'.
    replace (src + Z.of_nat (length h) + Z.of_nat (length r)) with (src + Z.of_nat (length l)) in E by lia.
    replace (dst + 2 + Z.of_nat (length h) + Z.of_nat (length old - (2 + length h))) with (dst + Z.of_nat (length old)) in E by lia.
    rewrite E. split; [|split].
    + do 2 f_equal. destruct (decide (length (stream (blocks n r)) <= length old - (2 + length h))%nat).
      * rewrite decide_True by lia. f_equal. lia.
      * rewrite decide_False by lia. done.
    + intros q Hq. rewrite S, S2 by lia. done.
    + intros Hl. rewrite stream_cons, app_assoc. apply has_app. rewrite length_app, length_enc. cbn [chunk_body]. split.
      * eapply has_frame; [exact K2|exact S|rewrite length_app, length_enc; lia].
      * replace (dst + Z.of_nat (2 + length h)) with (dst + 2 + Z.of_nat (length h)) by lia. apply K. lia.
Qed.

(** C12: round trip of compression.  With room for the bytes and two more for every 4096 of them
    begun, [RtlCompressBuffer] succeeds; it always returns success or that the buffer is too
    small.  On success the size is at most that of the buffer, nothing but the buffer is
    changed, and [RtlDecompressBuffer] gives the bytes back, as many as its destination has
    room for. *)
Theorem compress_roundtrip m src bs buf bold dst old :
  let enough := (length bs + 2 * ((length bs + 4095) / 4096))%nat in
  Forall is_byte bs -> bs <> [] -> has m src bs -> has m buf bold -> has m dst old ->
  src + Z.of_nat (length bs) <= buf \/ buf + Z.of_nat (length bold) <= src ->
  dst + Z.of_nat (length old) <= buf \/ buf + Z.of_nat (length bold) <= dst ->
  exists Status final m1,
    RtlCompressBuffer m COMPRESSION_FORMAT_LZNT1 src (Z.of_nat (length bs)) buf (Z.of_nat (length bold))
    = Some (Status, final, m1) /\
    same_except m m1 buf (Z.of_nat (length bold)) /\
    ((enough <= length bold)%nat -> Status = STATUS_SUCCESS) /\
    (Status = STATUS_SUCCESS /\
     (exists n, final = Some n /\ 0 <= n <= Z.of_nat (length bold) /\
       exists m2,
         RtlDecompressBuffer m1 COMPRESSION_FORMAT_LZNT1 dst (Z.of_nat (length old)) buf n
         = Some (STATUS_SUCCESS, Some (Z.of_nat (length (take (length old) bs))), m2) /\
         has m2 dst (take (length old) bs) /\ same_except m1 m2 dst (Z.of_nat (length old)))
     \/ Status = STATUS_BUFFER_TOO_SMALL).
Proof.
  intros enough B Ne Hs Hb Hd D1 D2.
  destruct (StoreLoop_run (length bs) (length bs) m src bs buf bold) as (m1 & E & S & K); [done|done|done|done|done|].
  assert (length (stream (blocks (length bs) bs)) = enough) as Ls by (by rewrite blocks_length).
  unfold RtlCompressBuffer. cbn -[enough RtlpCompressBufferLZNT1 RtlDecompressBuffer]. unfold RtlpCompressBufferLZNT1.
  rewrite Nat2Z.id, E, Ls in *. cbn [mbind option_bind]. destruct (decide (enough <= length bold)%nat) as [L|L].
  2:{ exists STATUS_BUFFER_TOO_SMALL, None, m1. split; [done|]. split; [done|]. split; [done|by right]. }
  replace (buf + Z.of_nat enough - buf) with (Z.of_nat enough) by lia.
  exists STATUS_SUCCESS, (Some (Z.of_nat enough)), m1. split; [done|]. split; [done|]. split; [done|]. left. split; [done|].
  exists (Z.of_nat enough). split; [done|]. split; [lia|].
  destruct (blocks_full (length bs) bs) as [Ed Ef]; [done|].
  destruct (lznt1_decompress_start dst (length old) m1 old (blocks (length bs) bs) buf 0) as (m2 & R).
  - eapply has_frame; [exact Hd|exact S|lia].
  - done.
  - by apply blocks_wf.
  - by destruct bs.
  - by apply K.
  - by right.
  - rewrite Ls. lia.
  - rewrite Ls, Ed in R. by exists m2.
Qed.

(** C13: safety of the decompressor on arbitrary bytes.  Whatever the compressed buffer holds,
    [RtlDecompressFragment] returns without an access outside of the compressed buffer, the
    destination and the workspace, writes only to the latter two, and the size it returns is at
    most that of the destination. *)
Theorem decompress_in_bounds m format dst old src bs offset workspace wold :
  (forall q b, m !! q = Some b -> is_byte b) -> has m dst old -> has m src bs -> 0 <= offset ->
  workspace = 0 \/ has m workspace wold /\ length wold = 4096%nat ->
  exists Status final m',
    RtlDecompressFragment m format dst (Z.of_nat (length old)) src (Z.of_nat (length bs)) offset workspace
    = Some (Status, final, m') /\
    (forall q, q < dst \/ dst + Z.of_nat (length old) <= q ->
               workspace = 0 \/ q < workspace \/ workspace + 0x1000 <= q -> m' !! q = m !! q) /\
    (forall size, final = Some size -> 0 <= size <= Z.of_nat (length old)).
Proof.
  intros B Hd Hs Ho Hw. unfold RtlDecompressFragment.
  set (writable q := dst <= q < dst + Z.of_nat (length old) \/ (workspace <> 0 /\ workspace <= q < workspace + 0x1000)).
  set (readable q := writable q \/ src <= q < src + Z.of_nat (length bs)).
  assert (safe m writable m) as Hm by (split; [done|split; done]).
  destruct (lznt1_decompress_safe m readable writable) with (dst := dst) (n := Z.of_nat (length old)) (src := src)
    (k := Z.of_nat (length bs)) (offset := offset) (workspace := workspace) as (Status & final & m' & E & (_ & _ & F) & L).
  - intros q [[Hq|[W0 Hq]]|Hq]; [by apply (has_is_Some m dst old)| |by apply (has_is_Some m src bs)].
    destruct Hw as [?|[Hw Lw]]; [done|]. eapply has_is_Some; [exact Hw|]. rewrite Lw. lia.
  - intros q Hq. by left.
  - done.
  - lia.
  - lia.
  - done.
  - intros q Hq. by right.
  - intros q Hq. by left.
  - destruct (decide (workspace = 0)); [by left|right]. intros q Hq. right. split; [done|lia].
  - rewrite E. destruct (_ =? _).
    + exists Status, final, m'. split; [done|]. split; [|done]. intros q Q1 Q2. apply F. unfold writable. lia.
    + destruct (_ || _); (eexists _, _, _; split; [done|]; by split).
Qed.

Module CompressExample.

(** The letters ab and a reference that repeats them. *)
Definition letters : list chunk := [Packed [[Literal 97; Literal 98; Reference 2 6]]].

Definition memory : mem :=
  lay 100 (stream letters) (lay 200 (replicate 8 0) (lay 1000 (replicate 4096 0) ∅)).

Lemma letters_wf : wf_stream letters.
Proof.
  assert (length (chunk_body (Packed [[Literal 97; Literal 98; Reference 2 6]])) = 5%nat) as L1 by reflexivity.
  assert (length (chunk_data (Packed [[Literal 97; Literal 98; Reference 2 6]])) = 8%nat) as L2 by reflexivity.
  constructor; [|constructor]. split; [rewrite L1; lia|]. split; [rewrite L2; lia|].
  split; [cbn [length]; lia|]. split; [by left|]. split; [|done]. cbn; unfold is_byte; repeat split; first [lia | by vm_compute].
Qed.

Lemma memory_has : has memory 200 (replicate 8 0) /\ has memory 1000 (replicate 4096 0) /\ has memory 100 (stream letters).
Proof.
  assert (length (stream letters) = 7%nat) as L by reflexivity. unfold memory. split; [|split].
  - apply lay_other; [apply lay_has|rewrite L, length_replicate; lia].
  - apply lay_other; [apply lay_other; [apply lay_has|]|]; rewrite ?L, !length_replicate; lia.
  - apply lay_has.
Qed.

Lemma fragment_decodes_witness :
  (exists m',
    RtlDecompressBuffer memory COMPRESSION_FORMAT_LZNT1 200 8 100 7 = Some (STATUS_SUCCESS, Some 8, m') /\
    has m' 200 [97; 98; 97; 98; 97; 98; 97; 98] /\ same_except memory m' 200 8) /\
  exists m',
    RtlDecompressFragment memory COMPRESSION_FORMAT_LZNT1 200 8 100 7 1 1000 = Some (STATUS_SUCCESS, Some 7, m') /\
    has m' 200 [98; 97; 98; 97; 98; 97; 98] /\ same_outside 200 1000 8 memory m'.
Proof.
  destruct memory_has as (H1 & H2 & H3).
  destruct (fragment_decodes memory COMPRESSION_ENGINE_STANDARD 200 (replicate 8 0) letters 100) as [B F];
    [by left|done|apply letters_wf|done|done|by vm_compute|left; by vm_compute|].
  split; [exact B|].
  apply (F 1000 (replicate 4096 0) 1%nat); [by repeat constructor|cbn; lia|done|apply length_replicate|done|cbn; lia|left; by vm_compute].
Defined.

(** A short chunk in front of another one is filled up. *)
Definition two_chunks : list chunk := [Packed [[Literal 97]]; Stored [98]].

Lemma two_chunks_padded :
  match lznt1_decompress (lay 100 (stream two_chunks) (lay 200 (replicate 4097 1) ∅)) 200 4097 100 7 0 0 with
  | Some (Status, Some n, m') =>
      Status = STATUS_SUCCESS /\ n = 4097 /\ m' !! 200 = Some 97 /\ m' !! 201 = Some 0 /\ m' !! 4296 = Some 98
  | _ => False
  end.
Proof. vm_compute. repeat split. Qed.

Lemma compress_roundtrip_witness :
  let m := lay 100 [97; 98; 99] (lay 200 (replicate 8 0) (lay 300 (replicate 8 0) ∅)) in
  exists Status final m1,
    RtlCompressBuffer m COMPRESSION_FORMAT_LZNT1 100 3 200 8 = Some (Status, final, m1) /\
    same_except m m1 200 8 /\
    ((5 <= 8)%nat -> Status = STATUS_SUCCESS) /\
    (Status = STATUS_SUCCESS /\
     (exists n, final = Some n /\ 0 <= n <= 8 /\
       exists m2,
         RtlDecompressBuffer m1 COMPRESSION_FORMAT_LZNT1 300 8 200 n = Some (STATUS_SUCCESS, Some 3, m2) /\
         has m2 300 [97; 98; 99] /\ same_except m1 m2 300 8)
     \/ Status = STATUS_BUFFER_TOO_SMALL).
Proof.
  intros m. apply (compress_roundtrip m 100 [97; 98; 99] 200 (replicate 8 0) 300 (replicate 8 0)).
  - by repeat (constructor; [split; lia|]).
  - done.
  - apply lay_has.
  - apply lay_other; [apply lay_has|cbn; lia].
  - do 2 (apply lay_other; [|cbn; lia]). apply lay_has.
  - cbn; lia.
  - cbn; lia.
Defined.

Lemma decompress_in_bounds_witness :
  let m := lay 100 [0xFF; 0xB0; 1] (lay 200 [0; 0] ∅) in
  exists Status final m',
    RtlDecompressFragment m COMPRESSION_FORMAT_LZNT1 200 2 100 3 0 0 = Some (Status, final, m') /\
    (forall q, q < 200 \/ 200 + 2 <= q -> 0 = 0 \/ q < 0 \/ 0 + 0x1000 <= q -> m' !! q = m !! q) /\
    (forall size, final = Some size -> 0 <= size <= 2).
Proof.
  intros m. apply (decompress_in_bounds m COMPRESSION_FORMAT_LZNT1 200 [0; 0] 100 [0xFF; 0xB0; 1] 0 0 []).
  - intros q b. unfold m. cbn [lay]. rewrite !lookup_insert_Some, lookup_empty. unfold is_byte. intuition (lia || done).
  - apply lay_other; [apply lay_has|cbn; lia].
  - apply lay_has.
  - done.
  - by left.
Defined.

End CompressExample.
