(* ===== verification/Sid.v ===== *)
(** * Security identifiers (sdk/lib/rtl/sid.c)

    A SID is a packed structure in byte memory: the revision, the number of
    subauthorities, six bytes of identifier authority, and the subauthorities.  NULL is
    the address 0; an access violation inside a [_SEH2_TRY] block takes the block's
    handler. *)

From Stdlib Require Import ZArith Lia Bool.
From stdpp Require Import base option list numbers gmap.
From S2P Require Import Prelude Memory Nls Unicode.
Open Scope Z_scope.

Definition SID_REVISION : Z := 1.
Definition SID_MAX_SUB_AUTHORITIES : Z := 15.

Definition RtlValidSid (m : mem) (Sid : Z) : bool :=
  if Sid =? 0 then true else
  match
    (Revision ← ld8 m Sid;
     if negb (Z.land Revision 0xF =? SID_REVISION) then Some false else
     SubAuthorityCount ← ld8 m (Sid + 1);
     Some (negb (SID_MAX_SUB_AUTHORITIES <? SubAuthorityCount)))
  with
  | Some valid => valid
  | None => false
  end.

Definition RtlLengthRequiredSid (SubAuthorityCount : Z) : Z := u32 (8 + 4 * SubAuthorityCount).

(** The three assignments to the header of a new SID. *)
Definition StoreHeader (m : mem) (Sid IdentifierAuthority SubAuthorityCount : Z) : option mem :=
  m ← st8 m Sid SID_REVISION;
  m ← st8 m (Sid + 1) SubAuthorityCount;
  authority ← load m IdentifierAuthority 6;
  store m (Sid + 2) authority.

Definition RtlInitializeSid (m : mem) (Sid IdentifierAuthority SubAuthorityCount : Z)
    : option (NTSTATUS * mem) :=
  m ← StoreHeader m Sid IdentifierAuthority SubAuthorityCount;
  Some (STATUS_SUCCESS, m).

Definition RtlSubAuthoritySid (Sid SubAuthority : Z) : Z := u32 (Sid + 8 + 4 * SubAuthority).
Definition RtlSubAuthorityCountSid (Sid : Z) : Z := u32 (Sid + 1).
Definition RtlIdentifierAuthoritySid (Sid : Z) : Z := u32 (Sid + 2).

Definition RtlLengthSid (m : mem) (Sid : Z) : option Z :=
  SubAuthorityCount ← ld8 m (Sid + 1);
  Some (8 + 4 * SubAuthorityCount).

Definition RtlEqualSid (m : mem) (Sid1 Sid2 : Z) : option bool :=
  a ← ld16 m Sid1;
  b ← ld16 m Sid2;
  if negb (a =? b) then Some false else
  len ← RtlLengthSid m Sid1;
  RtlEqualMemory m Sid1 Sid2 len.

Definition RtlCopySid (m : mem) (BufferLength Dest Src : Z) : option (NTSTATUS * mem) :=
  SidLength ← RtlLengthSid m Src;
  if BufferLength <? SidLength then Some (STATUS_BUFFER_TOO_SMALL, m) else
  m ← RtlMoveMemory m Dest Src SidLength;
  Some (STATUS_SUCCESS, m).

(** The comparison of the identifier authorities, byte by byte up to the first difference. *)
Fixpoint EqualAuthority (n : nat) (m : mem) (a b : Z) : option bool :=
  match n with
  | O => Some true
  | S n' =>
      x ← ld8 m a;
      y ← ld8 m b;
      if x =? y then EqualAuthority n' m (a + 1) (b + 1) else Some false
  end.

(** The [for] loop of [RtlEqualPrefixSid] over all subauthorities but the last; the count
    is read again in every iteration and does not change. *)
Fixpoint PrefixLoop (fuel : nat) (m : mem) (Sid1 Sid2 i : Z) : option bool :=
  c ← ld8 m (Sid1 + 1);
  if i + 1 <? c then
    match fuel with
    | O => None
    | S fuel' =>
        x ← ld32 m (Sid1 + 8 + 4 * i);
        y ← ld32 m (Sid2 + 8 + 4 * i);
        if negb (x =? y) then Some false else PrefixLoop fuel' m Sid1 Sid2 (i + 1)
    end
  else Some true.

Definition RtlEqualPrefixSid (m : mem) (Sid1 Sid2 : Z) : option bool :=
  r1 ← ld8 m Sid1;
  r2 ← ld8 m Sid2;
  if negb (r1 =? r2) then Some false else
  auth ← EqualAuthority 6 m (Sid1 + 2) (Sid2 + 2);
  if (auth : bool) then
    c1 ← ld8 m (Sid1 + 1);
    c2 ← ld8 m (Sid2 + 1);
    if c1 =? c2 then
      if c1 =? 0 then Some true else PrefixLoop 256 m Sid1 Sid2 0
    else Some false
  else Some false.

(** The [for] loop over the array of [SID_AND_ATTRIBUTES] (two 32-bit members); it yields
    the status, the memory, the remaining area and its size. *)
Fixpoint CopyArrayLoop (n : nat) (m : mem) (Src Dest SidAreaSize SidArea : Z)
    : option (NTSTATUS * mem * Z * Z) :=
  match n with
  | O => Some (STATUS_SUCCESS, m, SidArea, SidAreaSize)
  | S n' =>
      SrcSid ← ld32 m Src;
      SidLength ← RtlLengthSid m SrcSid;
      if SidAreaSize <? SidLength then Some (STATUS_BUFFER_TOO_SMALL, m, SidArea, SidAreaSize) else
      m ← st32 m Dest SidArea;
      Attributes ← ld32 m (Src + 4);
      m ← st32 m (Dest + 4) Attributes;
      SrcSid ← ld32 m Src;
      '(_, m) ← RtlCopySid m SidLength SidArea SrcSid;
      CopyArrayLoop n' m (Src + 8) (Dest + 8) (SidAreaSize - SidLength) (u32 (SidArea + SidLength))
  end.

(** The result is the status, the memory, and [*RemainingSidArea] and
    [*RemainingSidAreaSize] when they are stored. *)
Definition RtlCopySidAndAttributesArray (m : mem) (Count Src SidAreaSize Dest SidArea : Z)
    : option (NTSTATUS * mem * option (Z * Z)) :=
  '(Status, m, area, size) ← CopyArrayLoop (Z.to_nat Count) m Src Dest SidAreaSize SidArea;
  Some (Status, m, if Status =? STATUS_SUCCESS then Some (area, size) else None).

(** [RtlFreeSid] returns NULL; [size] is the size of the allocation, which the heap knows. *)
Definition RtlFreeSid (m : mem) (size : nat) (Sid : Z) : Z * mem := (0, unmap_bytes size Sid m).

(** The [switch] that falls through from the highest subauthority to the first. *)
Fixpoint StoreSubAuthorities (m : mem) (Sid : Z) (i : nat) (subs : list Z) : option mem :=
  match i with
  | O => Some m
  | S i' =>
      v ← subs !! i';
      m ← st32 m (Sid + 8 + 4 * Z.of_nat i') v;
      StoreSubAuthorities m Sid i' subs
  end.

(** [subs] is the list of the eight arguments [SubAuthority0] to [SubAuthority7]. *)
Definition RtlAllocateAndInitializeSid `{ByteAllocator} (m : mem)
    (IdentifierAuthority SubAuthorityCount : Z) (subs : list Z)
    : option (NTSTATUS * mem * option Z) :=
  if 8 <? SubAuthorityCount then Some (STATUS_INVALID_SID, m, None) else
  match balloc m (RtlLengthRequiredSid SubAuthorityCount) with
  | None => Some (STATUS_NO_MEMORY, m, None)
  | Some pSid =>
      let m := map_bytes (Z.to_nat (RtlLengthRequiredSid SubAuthorityCount)) pSid garbage m in
      m ← StoreHeader m pSid IdentifierAuthority SubAuthorityCount;
      m ← StoreSubAuthorities m pSid (Z.to_nat SubAuthorityCount) subs;
      Some (STATUS_SUCCESS, m, Some pSid)
  end.

(** ** The string form *)

(** [%lu] and [%u]: the decimal digits of a 32-bit value. *)
Fixpoint decimal_digits (fuel : nat) (v : Z) (acc : list Z) : list Z :=
  match fuel with
  | O => acc
  | S fuel' =>
      let acc := (0x30 + v mod 10) :: acc in
      if v / 10 =? 0 then acc else decimal_digits fuel' (v / 10) acc
  end.

Definition print_decimal (v : Z) : list Z := decimal_digits 10 v [].

(** [%02hx] of a byte: two lower case hexadecimal digits. *)
Definition hex_digit (d : Z) : Z := if d <? 10 then 0x30 + d else 0x61 + (d - 10).
Definition print_hex2 (b : Z) : list Z := [hex_digit (b / 16); hex_digit (b mod 16)].

Fixpoint PrintSubAuthorities (fuel : nat) (m : mem) (Sid i : Z) : option (list Z) :=
  c ← ld8 m (Sid + 1);
  if i <? c then
    match fuel with
    | O => None
    | S fuel' =>
        v ← ld32 m (Sid + 8 + 4 * i);
        rest ← PrintSubAuthorities fuel' m Sid (i + 1);
        Some (0x2D :: print_decimal v ++ rest)
    end
  else Some [].

(** The characters that [RtlConvertSidToUnicodeString] prints into its 256-character
    buffer, without the final NUL. *)
Definition SidString (m : mem) (Sid : Z) : option (list Z) :=
  v ← load m (Sid + 2) 6;
  authority ←
    match v with
    | [v0; v1; v2; v3; v4; v5] =>
        Some (if (v0 =? 0) && (v1 =? 0)
              then print_decimal (Z.lor (Z.lor (Z.lor (Z.shiftl v2 24) (Z.shiftl v3 16))
                                                (Z.shiftl v4 8)) v5)
              else [0x30; 0x78] ++ concat (map print_hex2 v))
    | _ => None
    end;
  rest ← PrintSubAuthorities 256 m Sid 0;
  Some ([0x53; 0x2D; 0x31; 0x2D] ++ authority ++ rest).

(** More than 255 characters overrun the buffer on the stack, which is a fault. *)
Definition RtlConvertSidToUnicodeString `{ByteAllocator}
    (m : mem) (String : UNICODE_STRING) (Sid : Z) (AllocateBuffer : bool)
    : option (NTSTATUS * UNICODE_STRING * mem) :=
  if negb (RtlValidSid m Sid) then Some (STATUS_INVALID_SID, String, m) else
  chars ← SidString m Sid;
  if 256 <=? Z.of_nat (length chars) then None else
  if AllocateBuffer then
    '(ok, String, m) ← RtlCreateUnicodeString m String chars;
    if negb ok then Some (STATUS_NO_MEMORY, String, m) else Some (STATUS_SUCCESS, String, m)
  else
    let len := 2 * Z.of_nat (length chars) in
    if MaximumLength String <? len then Some (STATUS_BUFFER_TOO_SMALL, String, m) else
    m ← store m (Buffer String) (concat (map (enc 2) chars));
    m ← (if len <? MaximumLength String then st16 m (Buffer String + len) 0 else Some m);
    Some (STATUS_SUCCESS, mkString (u16 len) (MaximumLength String) (Buffer String), m).
