(* ===== verification/SidProps.v ===== *)
(** * Security identifiers: their contents and the properties of the operations

    [sid_at m p s] says that the structure at [p] is the SID [s]; the operations of
    [src/sdk/lib/rtl/sid.c] are related to SIDs as values. *)

From Stdlib Require Import ZArith Lia Bool.
From stdpp Require Import base option list numbers gmap fin_maps.
From S2P Require Import Prelude Memory Nls Unicode Sid.
Open Scope Z_scope.

(** ** SIDs as values *)

Record sid := mkSid { Revision : Z; IdentifierAuthority : list Z; SubAuthority : list Z }.

#[export] Instance sid_eq_dec : EqDecision sid.
Proof. solve_decision. Defined.

Record wf_sid (s : sid) : Prop := {
  wf_revision : is_byte (Revision s);
  wf_authority : Forall is_byte (IdentifierAuthority s) /\ length (IdentifierAuthority s) = 6%nat;
  wf_subs : Forall (fun v => 0 <= v < 2 ^ 32) (SubAuthority s);
  wf_count : Z.of_nat (length (SubAuthority s)) < 2 ^ 8
}.

Definition sub_bytes (subs : list Z) : list Z := concat (map (enc 4) subs).

(** The packed structure. *)
Definition sid_bytes (s : sid) : list Z :=
  Revision s :: Z.of_nat (length (SubAuthority s)) :: IdentifierAuthority s
    ++ sub_bytes (SubAuthority s).

Definition sid_at (m : mem) (p : Z) (s : sid) : Prop := wf_sid s /\ has m p (sid_bytes s).

(** The SIDs agree in everything but the last subauthority. *)
Definition same_prefix (s t : sid) : Prop :=
  Revision s = Revision t /\ IdentifierAuthority s = IdentifierAuthority t /\
  length (SubAuthority s) = length (SubAuthority t) /\
  removelast (SubAuthority s) = removelast (SubAuthority t).

(** ** Reading a SID *)

Lemma sub_bytes_cons v subs : sub_bytes (v :: subs) = enc 4 v ++ sub_bytes subs.
Proof. done. Qed.

Lemma length_sub_bytes subs : length (sub_bytes subs) = (4 * length subs)%nat.
Proof.
  induction subs as [|v subs IH]; [done|].
  rewrite sub_bytes_cons, length_app, length_enc. cbn [length]. lia.
Qed.

Lemma sub_bytes_at m p subs i v :
  has m p (sub_bytes subs) -> subs !! i = Some v -> has m (p + 4 * Z.of_nat i) (enc 4 v).
Proof.
  revert p i. induction subs as [|x subs IH]; intros p i; [done|]. rewrite sub_bytes_cons.
  intros [H1 H2]%has_app Hi. rewrite length_enc in H2. destruct i as [|i]; simpl in Hi.
  - simplify_eq. by rewrite Z.add_0_r.
  - replace (p + 4 * Z.of_nat (S i)) with (p + Z.of_nat 4 + 4 * Z.of_nat i) by lia. by apply IH.
Qed.

Section Read.
Context {m : mem} {p : Z} {s : sid} (Hs : sid_at m p s).

Lemma sid_parts :
  m !! p = Some (Revision s) /\ m !! (p + 1) = Some (Z.of_nat (length (SubAuthority s))) /\
  has m (p + 2) (IdentifierAuthority s) /\ has m (p + 8) (sub_bytes (SubAuthority s)).
Proof.
  destruct Hs as [W H]. unfold sid_bytes in H.
  apply has_cons in H as [H1 H]. apply has_cons in H as [H2 H]. apply has_app in H as [H3 H4].
  destruct W as [_ [_ Hl] _ _]. rewrite Hl in H4. replace (p + 1 + 1) with (p + 2) in * by lia.
  replace (p + 2 + Z.of_nat 6) with (p + 8) in H4 by lia. done.
Qed.

Lemma sid_count : ld8 m (p + 1) = Some (Z.of_nat (length (SubAuthority s))).
Proof. apply ld8_lookup, sid_parts. Qed.

Lemma RtlLengthSid_at : RtlLengthSid m p = Some (Z.of_nat (length (sid_bytes s))).
Proof.
  unfold RtlLengthSid. rewrite sid_count. cbn [mbind option_bind]. f_equal. unfold sid_bytes.
  destruct Hs as [[_ [_ Hl] _ _] _]. simpl. rewrite length_app, length_sub_bytes. lia.
Qed.

Lemma sid_sub i v :
  SubAuthority s !! i = Some v -> ld32 m (p + 8 + 4 * Z.of_nat i) = Some v.
Proof.
  intros Hi. pose proof sid_parts as (_ & _ & _ & H).
  apply ld32_has; [|by eapply sub_bytes_at].
  destruct Hs as [[_ _ Hv _] _]. by apply (Forall_lookup_1 _ _ _ _ Hv Hi).
Qed.

Lemma sid_load : load m p (length (sid_bytes s)) = Some (sid_bytes s).
Proof. apply Hs. Qed.

End Read.

Lemma sub_bytes_inj a b :
  Forall (fun v => 0 <= v < 2 ^ 32) a -> Forall (fun v => 0 <= v < 2 ^ 32) b ->
  length a = length b -> sub_bytes a = sub_bytes b -> a = b.
Proof.
  intros Ha. revert b. induction Ha as [|x a Hx _ IH]; intros [|y b] Hb Hl E; try done.
  inversion_clear Hb. rewrite !sub_bytes_cons in E.
  apply app_inj_1 in E as [E1 E2]; [|by rewrite !length_enc]. f_equal.
  - rewrite <- (dec_enc 4 x), <- (dec_enc 4 y) by done. by rewrite E1.
  - apply IH; [done|simpl in Hl; lia|done].
Qed.

Lemma sid_bytes_inj s t : wf_sid s -> wf_sid t -> sid_bytes s = sid_bytes t -> s = t.
Proof.
  intros [_ [_ L1] S1 _] [_ [_ L2] S2 _] E. unfold sid_bytes in E.
  destruct s as [r1 a1 l1], t as [r2 a2 l2]; simpl in *. injection E as -> Ec E.
  apply app_inj_1 in E as [-> E]; [|lia]. f_equal. apply sub_bytes_inj; [done|done|lia|done].
Qed.

Lemma sid_bytes_length_eq s t :
  wf_sid s -> wf_sid t -> length (SubAuthority s) = length (SubAuthority t) ->
  length (sid_bytes s) = length (sid_bytes t).
Proof.
  intros [_ [_ L1] _ _] [_ [_ L2] _ _] E. unfold sid_bytes. simpl.
  rewrite !length_app, !length_sub_bytes. lia.
Qed.

Lemma EqualAuthority_run m a b l1 l2 :
  has m a l1 -> has m b l2 -> length l1 = length l2 ->
  EqualAuthority (length l1) m a b = Some (bool_decide (l1 = l2)).
Proof.
  revert a b l2. induction l1 as [|x l1 IH]; intros a b [|y l2] H1 H2 Hl; try done; simpl.
  apply has_cons in H1 as [X1 H1]. apply has_cons in H2 as [X2 H2].
  rewrite (ld8_lookup _ _ _ X1), (ld8_lookup _ _ _ X2). cbn [mbind option_bind].
  destruct (Z.eqb_spec x y) as [->|Hn].
  - rewrite (IH _ _ l2) by (simpl in Hl; done || lia). f_equal. apply bool_decide_ext. split; congruence.
  - f_equal. symmetry. apply bool_decide_eq_false. congruence.
Qed.

Lemma drop_removelast_cons (l : list Z) i x y :
  l !! i = Some x -> l !! S i = Some y -> drop i (removelast l) = x :: drop (S i) (removelast l).
Proof.
  intros Hx Hy. apply drop_S.
  revert i Hx Hy. induction l as [|a l IH]; intros i Hx Hy; [done|].
  destruct l as [|b l]; [by destruct i|]. change (removelast (a :: b :: l)) with (a :: removelast (b :: l)).
  destruct i as [|i]; [done|]. apply (IH i); done.
Qed.

Lemma PrefixLoop_run m p q s t fuel i :
  sid_at m p s -> sid_at m q t -> length (SubAuthority s) = length (SubAuthority t) ->
  (length (SubAuthority s) <= fuel + i)%nat ->
  PrefixLoop fuel m p q (Z.of_nat i)
  = Some (bool_decide (drop i (removelast (SubAuthority s)) = drop i (removelast (SubAuthority t)))).
Proof.
  intros Hs Ht Hl. revert i. induction fuel as [|fuel IH]; intros i Hf; cbn [PrefixLoop];
    rewrite (sid_count Hs); cbn [mbind option_bind];
    (destruct (Z.ltb_spec (Z.of_nat i + 1) (Z.of_nat (length (SubAuthority s)))) as [Hi|Hi];
     [|f_equal; symmetry; apply bool_decide_eq_true;
       rewrite !drop_ge by (rewrite removelast_firstn_len, length_take; lia); done]).
  { lia. }
  destruct (lookup_lt_is_Some_2 (SubAuthority s) i) as [x Hx]; [lia|].
  destruct (lookup_lt_is_Some_2 (SubAuthority t) i) as [y Hy]; [lia|].
  destruct (lookup_lt_is_Some_2 (SubAuthority s) (S i)) as [x' Hx']; [lia|].
  destruct (lookup_lt_is_Some_2 (SubAuthority t) (S i)) as [y' Hy']; [lia|].
  rewrite (sid_sub Hs i x Hx), (sid_sub Ht i y Hy). cbn [mbind option_bind].
  rewrite (drop_removelast_cons _ _ _ _ Hx Hx'), (drop_removelast_cons _ _ _ _ Hy Hy').
  destruct (Z.eqb_spec x y) as [->|Hn]; cbn [negb].
  - replace (Z.of_nat i + 1) with (Z.of_nat (S i)) by lia. rewrite IH by lia.
    f_equal. apply bool_decide_ext. split; congruence.
  - f_equal. symmetry. apply bool_decide_eq_false. congruence.
Qed.

(** ** Printing *)

Definition digit (c : Z) : Prop := 0x30 <= c <= 0x39.

Definition undecimal (a : Z) (l : list Z) : Z := foldl (fun a c => 10 * a + (c - 0x30)) a l.

Lemma decimal_digits_value fuel v acc :
  0 <= v < 10 ^ Z.of_nat fuel -> undecimal 0 (decimal_digits fuel v acc) = undecimal v acc.
Proof.
  revert v acc. induction fuel as [|fuel IH]; intros v acc Hv.
  { simpl. f_equal. change (10 ^ Z.of_nat 0) with 1 in Hv. lia. }
  cbn [decimal_digits]. destruct (Z.eqb_spec (v / 10) 0) as [E|E].
  - unfold undecimal. cbn [foldl]. f_equal. dlia.
  - rewrite IH.
    + unfold undecimal. cbn [foldl]. f_equal. dlia.
    + rewrite Nat2Z.inj_succ, Z.pow_succ_r in Hv by lia. dlia.
Qed.

Lemma decimal_digits_chars fuel v acc :
  0 <= v -> Forall digit acc -> Forall digit (decimal_digits fuel v acc) /\
  (length (decimal_digits fuel v acc) <= fuel + length acc)%nat.
Proof.
  revert v acc. induction fuel as [|fuel IH]; intros v acc Hv Ha; [simpl; auto|].
  cbn [decimal_digits]. assert (Forall digit ((0x30 + v mod 10) :: acc)) as Ha'.
  { constructor; [unfold digit; dlia|done]. }
  case_match; [split; [done|simpl; lia]|]. destruct (IH (v / 10) ((0x30 + v mod 10) :: acc));
    [dlia|done|]. split; [done|simpl in *; lia].
Qed.

Lemma print_decimal_inj v w :
  0 <= v < 2 ^ 32 -> 0 <= w < 2 ^ 32 -> print_decimal v = print_decimal w -> v = w.
Proof.
  intros Hv Hw E. apply (f_equal (undecimal 0)) in E. unfold print_decimal in E.
  rewrite !decimal_digits_value in E by (change (10 ^ Z.of_nat 10) with 10000000000; lia). done.
Qed.

Lemma print_decimal_chars v :
  0 <= v -> Forall digit (print_decimal v) /\ (length (print_decimal v) <= 10)%nat.
Proof. intros Hv. by apply (decimal_digits_chars 10 v []). Qed.

Lemma hex_digit_inj a b : 0 <= a < 16 -> 0 <= b < 16 -> hex_digit a = hex_digit b -> a = b.
Proof. unfold hex_digit. intros Ha Hb. zcases; lia. Qed.

Lemma print_hex2_inj a b : is_byte a -> is_byte b -> print_hex2 a = print_hex2 b -> a = b.
Proof.
  unfold is_byte, print_hex2. intros Ha Hb [= E1 E2].
  apply hex_digit_inj in E1, E2; dlia.
Qed.

Lemma hex_bytes_inj l1 l2 :
  Forall is_byte l1 -> Forall is_byte l2 -> length l1 = length l2 ->
  concat (map print_hex2 l1) = concat (map print_hex2 l2) -> l1 = l2.
Proof.
  intros H1. revert l2. induction H1 as [|a l1 Ha _ IH]; intros [|b l2] H2 Hl E; try done.
  inversion_clear H2. cbn [map concat] in E. apply app_inj_1 in E as [E1 E2]; [|done].
  f_equal; [by apply print_hex2_inj|]. apply IH; [done|simpl in Hl; lia|done].
Qed.

Definition authority_value (v2 v3 v4 v5 : Z) : Z :=
  Z.lor (Z.lor (Z.lor (Z.shiftl v2 24) (Z.shiftl v3 16)) (Z.shiftl v4 8)) v5.

Lemma authority_value_sum v2 v3 v4 v5 :
  is_byte v2 -> is_byte v3 -> is_byte v4 -> is_byte v5 ->
  authority_value v2 v3 v4 v5 = ((v2 * 2 ^ 8 + v3) * 2 ^ 8 + v4) * 2 ^ 8 + v5.
Proof.
  unfold is_byte, authority_value. intros H2 H3 H4 H5.
  replace (Z.shiftl v2 24) with (Z.shiftl (Z.shiftl v2 8) 16) by (by rewrite Z.shiftl_shiftl by lia).
  rewrite <- Z.shiftl_lor, (lor_shiftl_add v2 v3 8) by lia.
  replace (Z.shiftl (v2 * 2 ^ 8 + v3) 16) with (Z.shiftl (Z.shiftl (v2 * 2 ^ 8 + v3) 8) 8)
    by (by rewrite Z.shiftl_shiftl by lia).
  rewrite <- Z.shiftl_lor, !lor_shiftl_add by lia. lia.
Qed.

(** The string form of a SID. *)
Definition authority_string (a : list Z) : list Z :=
  match a with
  | [v0; v1; v2; v3; v4; v5] =>
      if (v0 =? 0) && (v1 =? 0) then print_decimal (authority_value v2 v3 v4 v5)
      else [0x30; 0x78] ++ concat (map print_hex2 a)
  | _ => []
  end.

Definition subs_string (subs : list Z) : list Z :=
  concat (map (fun v => 0x2D :: print_decimal v) subs).

Definition sid_string (s : sid) : list Z :=
  [0x53; 0x2D; 0x31; 0x2D] ++ authority_string (IdentifierAuthority s)
    ++ subs_string (SubAuthority s).

Lemma PrintSubAuthorities_run m p s fuel i :
  sid_at m p s -> (length (SubAuthority s) <= fuel + i)%nat ->
  PrintSubAuthorities fuel m p (Z.of_nat i) = Some (subs_string (drop i (SubAuthority s))).
Proof.
  intros Hs. revert i. induction fuel as [|fuel IH]; intros i Hf; cbn [PrintSubAuthorities];
    rewrite (sid_count Hs); cbn [mbind option_bind];
    (destruct (Z.ltb_spec (Z.of_nat i) (Z.of_nat (length (SubAuthority s)))) as [Hi|Hi];
     [|by rewrite drop_ge by lia]).
  { lia. }
  destruct (lookup_lt_is_Some_2 (SubAuthority s) i) as [x Hx]; [lia|].
  rewrite (sid_sub Hs i x Hx). cbn [mbind option_bind].
  replace (Z.of_nat i + 1) with (Z.of_nat (S i)) by lia. rewrite IH by lia.
  cbn [mbind option_bind]. by rewrite (drop_S _ _ _ Hx).
Qed.

Lemma SidString_run m p s : sid_at m p s -> SidString m p = Some (sid_string s).
Proof.
  intros Hs. unfold SidString. pose proof (sid_parts Hs) as (_ & _ & Ha & _).
  pose proof (proj1 Hs) as [_ [_ Hl] _ Hc]. unfold has in Ha. rewrite Hl in Ha. rewrite Ha.
  cbn [mbind option_bind]. change 0 with (Z.of_nat 0).
  rewrite (PrintSubAuthorities_run _ _ _ _ _ Hs) by lia. unfold sid_string, authority_string.
  destruct (IdentifierAuthority s) as [|v0 [|v1 [|v2 [|v3 [|v4 [|v5 [|v6 l]]]]]]]; try done.
Qed.

Lemma authority_string_chars a :
  Forall is_byte a -> length a = 6%nat ->
  Forall (fun c => c <> 0x2D) (authority_string a) /\ (length (authority_string a) <= 14)%nat.
Proof.
  intros Hb Hl. destruct a as [|v0 [|v1 [|v2 [|v3 [|v4 [|v5 [|v6 l]]]]]]]; try done.
  unfold authority_string. case_match.
  - assert (0 <= authority_value v2 v3 v4 v5) as Hv.
    { rewrite !Forall_cons in Hb. destruct Hb as (_ & _ & ? & ? & ? & ? & _).
      rewrite authority_value_sum by done. unfold is_byte in *. lia. }
    destruct (print_decimal_chars _ Hv) as [H1 H2]. split; [|lia].
    eapply Forall_impl; [exact H1|]. unfold digit. intros c. lia.
  - split; [|simpl; lia]. cbn [map concat print_hex2 app]. unfold hex_digit.
    repeat (constructor; [zcases; try lia|]); try constructor.
    all: rewrite !Forall_cons in Hb; unfold is_byte in Hb; dlia.
Qed.

Lemma subs_string_length subs :
  Forall (fun v => 0 <= v < 2 ^ 32) subs -> (length (subs_string subs) <= 11 * length subs)%nat.
Proof.
  induction 1 as [|v subs Hv _ IH]; [done|]. unfold subs_string in *. cbn [map concat].
  rewrite length_app. cbn [length]. pose proof (print_decimal_chars v). lia.
Qed.

(** A string up to a separator is determined. *)
Lemma separator_inj (c : Z) a b r1 r2 :
  Forall (fun x => x <> c) a -> Forall (fun x => x <> c) b ->
  (forall x, head r1 = Some x -> x = c) -> (forall x, head r2 = Some x -> x = c) ->
  a ++ r1 = b ++ r2 -> a = b /\ r1 = r2.
Proof.
  intros Ha. revert b. induction Ha as [|x a Hx _ IH]; intros [|y b] Hb H1 H2 E; simpl in E.
  - done.
  - exfalso. inversion_clear Hb. subst r1. by specialize (H1 _ eq_refl).
  - exfalso. subst r2. by specialize (H2 _ eq_refl).
  - inversion_clear Hb. injection E as -> E. destruct (IH b) as [-> ->]; done.
Qed.

Lemma subs_string_head subs x : head (subs_string subs) = Some x -> x = 0x2D.
Proof. destruct subs; simpl; congruence. Qed.

Lemma subs_string_inj a b :
  Forall (fun v => 0 <= v < 2 ^ 32) a -> Forall (fun v => 0 <= v < 2 ^ 32) b ->
  subs_string a = subs_string b -> a = b.
Proof.
  intros Ha. revert b. induction Ha as [|v a Hv _ IH]; intros [|w b] Hb E; try done.
  inversion_clear Hb as [|? ? Hw Hb']. unfold subs_string in E. cbn [map concat app] in E.
  injection E as E. fold (subs_string a) in E. fold (subs_string b) in E.
  assert (forall z, 0 <= z -> Forall (fun c => c <> 0x2D) (print_decimal z)) as Hd.
  { intros z Hz. eapply Forall_impl; [apply (print_decimal_chars z Hz)|].
    unfold digit. intros c. lia. }
  apply (separator_inj 0x2D) in E as [E1 E2];
    [|apply Hd; lia|apply Hd; lia|apply subs_string_head|apply subs_string_head].
  f_equal; [by apply print_decimal_inj|by apply IH].
Qed.

Lemma authority_string_inj a b :
  Forall is_byte a -> length a = 6%nat -> Forall is_byte b -> length b = 6%nat ->
  authority_string a = authority_string b -> a = b.
Proof.
  intros Ha La Hb Lb. destruct a as [|v0 [|v1 [|v2 [|v3 [|v4 [|v5 [|v6 l]]]]]]]; try done.
  destruct b as [|w0 [|w1 [|w2 [|w3 [|w4 [|w5 [|w6 l']]]]]]]; try done.
  pose proof Ha as Ha'. pose proof Hb as Hb'. rewrite !Forall_cons in Ha', Hb'.
  destruct Ha' as (? & ? & ? & ? & ? & ? & _), Hb' as (? & ? & ? & ? & ? & ? & _).
  assert (forall x y z t l, is_byte x -> is_byte y -> is_byte z -> is_byte t ->
            print_decimal (authority_value x y z t) <> 0x30 :: 0x78 :: l) as Hno.
  { intros x y z t l Hx Hy Hz Ht E.
    destruct (print_decimal_chars (authority_value x y z t)) as [Hd _].
    - rewrite authority_value_sum by done. unfold is_byte in *. lia.
    - rewrite E, !Forall_cons in Hd. unfold digit in Hd. lia. }
  unfold authority_string.
  destruct (Z.eqb_spec v0 0), (Z.eqb_spec v1 0), (Z.eqb_spec w0 0), (Z.eqb_spec w1 0);
    cbn [andb]; intros E; try (by apply Hno in E); try (by symmetry in E; apply Hno in E);
    try (apply hex_bytes_inj; [done|done|done|by injection E as E; simpl; congruence]).
  apply print_decimal_inj in E; rewrite !authority_value_sum in * by done; unfold is_byte in *;
    [|lia|lia]. subst. repeat f_equal; lia.
Qed.

(** ** New SIDs *)

Lemma sub_bytes_snoc subs v : sub_bytes (subs ++ [v]) = sub_bytes subs ++ enc 4 v.
Proof. unfold sub_bytes. rewrite map_app, concat_app. cbn [map concat]. by rewrite app_nil_r. Qed.

Lemma StoreHeader_run m p ia auth count x y :
  has m p (x ++ y) -> length x = 8%nat -> has m ia auth -> length auth = 6%nat ->
  ia + 6 <= p \/ p + 8 <= ia -> 0 <= count < 2 ^ 8 ->
  exists m', StoreHeader m p ia count = Some m' /\ has m' p (1 :: count :: auth ++ y) /\
    same_except m m' p 8.
Proof.
  intros H Hx Ha Hl Hd Hc. destruct x as [|x0 [|x1 x]]; try done.
  destruct (store_middle m p [] [x0] (enc 1 1) (x1 :: x ++ y) H) as (m1 & E1 & G1 & S1); [done|].
  destruct (store_middle m1 p (enc 1 1) [x1] (enc 1 count) (x ++ y) G1) as (m2 & E2 & G2 & S2);
    [done|].
  rewrite app_assoc in G2.
  destruct (store_middle m2 p (enc 1 1 ++ enc 1 count) x auth y G2) as (m3 & E3 & G3 & S3);
    [simpl in Hx; lia|].
  rewrite ?length_app, ?length_enc in *. simpl length in *.
  change (Z.of_nat 0) with 0 in *. rewrite Z.add_0_r in E1, S1.
  change (Z.of_nat 1) with 1 in *. change (Z.of_nat (1 + 1)) with 2 in *.
  assert (has m2 ia auth) as Ha2.
  { eapply has_frame; [eapply has_frame; [exact Ha|exact S1|lia]|exact S2|lia]. }
  unfold StoreHeader, st8, SID_REVISION. rewrite E1. cbn [mbind option_bind]. rewrite E2.
  cbn [mbind option_bind]. unfold has in Ha2. rewrite Hl in Ha2. rewrite Ha2.
  cbn [mbind option_bind]. exists m3. split_and!; [done| |].
  - replace (1 :: count :: auth ++ y) with ((enc 1 1 ++ enc 1 count) ++ auth ++ y); [done|].
    unfold enc. simpl. by rewrite (u8_small count) by done.
  - intros q Hq. rewrite S3, S2, S1 by lia. done.
Qed.

Lemma StoreSubAuthorities_run m p i subs x y :
  has m (p + 8) (x ++ y) -> length x = (4 * i)%nat -> (i <= length subs)%nat ->
  exists m', StoreSubAuthorities m p i subs = Some m' /\
    has m' (p + 8) (sub_bytes (take i subs) ++ y) /\ same_except m m' (p + 8) (4 * Z.of_nat i).
Proof.
  revert m x y. induction i as [|i IH]; intros m x y H Hx Hi.
  { destruct x; [|done]. exists m. split_and!; [done|done|by intros q]. }
  cbn [StoreSubAuthorities]. destruct (lookup_lt_is_Some_2 subs i) as [v Hv]; [lia|].
  rewrite Hv. cbn [mbind option_bind].
  rewrite <- (take_drop (4 * i) x), <- app_assoc in H.
  destruct (store_middle m (p + 8) (take (4 * i) x) (drop (4 * i) x) (enc 4 v) y H)
    as (m1 & E & K1 & K2).
  { rewrite length_enc, length_drop. lia. }
  rewrite length_take, Nat.min_l in E, K2 by lia. rewrite length_drop in K2.
  unfold st32. replace (p + 8 + 4 * Z.of_nat i) with (p + 8 + Z.of_nat (4 * i)) by lia. rewrite E.
  cbn [mbind option_bind].
  destruct (IH m1 (take (4 * i) x) (enc 4 v ++ y)) as (m2 & E2 & L1 & L2);
    [done|rewrite length_take; lia|lia|].
  exists m2. split_and!; [done| |].
  - by rewrite (take_S_r _ _ _ Hv), sub_bytes_snoc, <- app_assoc.
  - eapply same_except_trans; [eapply same_except_weaken; [exact K2|lia|lia]|].
    eapply same_except_weaken; [exact L2|lia|lia].
Qed.

Lemma RtlCopySid_run m p q s old n :
  sid_at m p s -> has m q old -> length old = length (sid_bytes s) ->
  Z.of_nat (length (sid_bytes s)) <= n ->
  exists m', RtlCopySid m n q p = Some (STATUS_SUCCESS, m') /\ has m' q (sid_bytes s) /\
    same_except m m' q (Z.of_nat (length (sid_bytes s))).
Proof.
  intros Hs Ho Hl Hn. unfold RtlCopySid. rewrite (RtlLengthSid_at Hs). cbn [mbind option_bind].
  rewrite (proj2 (Z.ltb_ge _ _)) by lia. unfold RtlMoveMemory. rewrite Nat2Z.id, (sid_load Hs).
  cbn [mbind option_bind].
  destruct (store_at m q old (sid_bytes s) Ho) as (m' & E & K1 & K2 & _); [done|].
  rewrite E. exists m'. rewrite Hl in K2. done.
Qed.

(** ** Comparing SIDs *)

(** The revision and the count, read as one 16-bit word. *)
Definition meta (s : sid) : Z := Revision s + 2 ^ 8 * Z.of_nat (length (SubAuthority s)).

Lemma meta_at m p s : sid_at m p s -> ld16 m p = Some (meta s).
Proof. intros Hs. pose proof (sid_parts Hs) as (P1 & P2 & _). by apply ld16_pair. Qed.

Lemma RtlEqualMemory_sids m p q s t :
  sid_at m p s -> sid_at m q t -> meta s = meta t ->
  RtlEqualMemory m p q (Z.of_nat (length (sid_bytes s))) = Some (bool_decide (s = t)).
Proof.
  intros Hs Ht E. unfold meta in E.
  pose proof (proj1 Hs) as [[? ?] _ _ C1]. pose proof (proj1 Ht) as [[? ?] _ _ C2].
  unfold RtlEqualMemory. rewrite Nat2Z.id, (sid_load Hs). cbn [mbind option_bind].
  rewrite (sid_bytes_length_eq s t), (sid_load Ht) by (apply Hs || apply Ht || lia).
  cbn [mbind option_bind]. f_equal. apply bool_decide_ext. split; [|congruence].
  apply sid_bytes_inj; [apply Hs|apply Ht].
Qed.

Lemma RtlEqualSid_run m p q s t :
  sid_at m p s -> sid_at m q t -> RtlEqualSid m p q = Some (bool_decide (s = t)).
Proof.
  intros Hs Ht. unfold RtlEqualSid. rewrite (meta_at _ _ _ Hs), (meta_at _ _ _ Ht).
  cbn [mbind option_bind]. destruct (Z.eqb_spec (meta s) (meta t)) as [E|E]; cbn [negb].
  - rewrite (RtlLengthSid_at Hs). cbn [mbind option_bind]. by apply RtlEqualMemory_sids.
  - f_equal. symmetry. apply bool_decide_eq_false. congruence.
Qed.

(** ** Properties *)

(** [RtlEqualSid] decides whether two SIDs are equal, and [RtlEqualPrefixSid] whether
    they agree in revision, identifier authority, number of subauthorities and all
    subauthorities but the last. *)
Theorem equal_sid_decides m p q s t :
  sid_at m p s -> sid_at m q t ->
  RtlEqualSid m p q = Some (bool_decide (s = t)) /\
  exists b, RtlEqualPrefixSid m p q = Some b /\ (b = true <-> same_prefix s t).
Proof.
  intros Hs Ht. pose proof (sid_parts Hs) as (P1 & P2 & P3 & _).
  pose proof (sid_parts Ht) as (Q1 & Q2 & Q3 & _).
  pose proof (proj1 Hs) as [[? ?] [_ L1] _ C1]. pose proof (proj1 Ht) as [[? ?] [_ L2] _ C2]. split.
  - by apply RtlEqualSid_run.
  - unfold RtlEqualPrefixSid. rewrite (ld8_lookup _ _ _ P1), (ld8_lookup _ _ _ Q1).
    cbn [mbind option_bind]. unfold same_prefix.
    destruct (Z.eqb_spec (Revision s) (Revision t)); cbn [negb]; [|eexists; split; [done|naive_solver]].
    replace 6%nat with (length (IdentifierAuthority s)).
    rewrite (EqualAuthority_run _ _ _ _ _ P3 Q3) by lia. cbn [mbind option_bind].
    case_bool_decide; [|eexists; split; [done|naive_solver]].
    rewrite (sid_count Hs), (sid_count Ht). cbn [mbind option_bind].
    destruct (Z.eqb_spec (Z.of_nat (length (SubAuthority s))) (Z.of_nat (length (SubAuthority t)))) as [E|E];
      [|eexists; split; [done|]; split; [done|]; intros (_ & _ & ? & _); lia].
    destruct (Z.eqb_spec (Z.of_nat (length (SubAuthority s))) 0) as [E0|E0].
    { exists true. split; [done|]. split; [|done]. intros _.
      destruct (SubAuthority s), (SubAuthority t); simpl in *; try lia. done. }
    change 0 with (Z.of_nat 0). rewrite (PrefixLoop_run _ _ _ _ _ _ _ Hs Ht) by lia.
    eexists; split; [done|]. rewrite bool_decide_eq_true, !drop_0. split; [|naive_solver].
    intros ?. split_and!; [done|done|lia|done].
Qed.

Definition everyone : sid := mkSid 1 [0; 0; 0; 0; 0; 1] [0].
Definition administrators : sid := mkSid 1 [0; 0; 0; 0; 0; 5] [32; 544].

Lemma everyone_wf : wf_sid everyone /\ wf_sid administrators.
Proof. split; (split; [split; done|split; [by repeat constructor|done]|by repeat constructor|done]). Qed.

(** A memory with one SID at 100 and another at 200. *)
Definition sid_memory : mem :=
  list_to_map (zip (seqZ 100 12) (sid_bytes everyone) ++ zip (seqZ 200 16) (sid_bytes administrators)
               ++ zip (seqZ 300 16) (replicate 16 0)).

Lemma sid_memory_at : sid_at sid_memory 100 everyone /\ sid_at sid_memory 200 administrators.
Proof. split; (split; [apply everyone_wf|vm_compute; reflexivity]). Qed.

Lemma equal_sid_decides_witness : RtlEqualSid sid_memory 100 200 = Some false.
Proof.
  destruct (equal_sid_decides sid_memory 100 200 everyone administrators
    (proj1 sid_memory_at) (proj2 sid_memory_at)) as [E _].
  rewrite E. vm_compute. reflexivity.
Defined.

(** [RtlCopySid] to a buffer of at least the length of the SID stores the same SID
    there and changes no byte outside of it; a shorter buffer is refused and left alone. *)
Theorem copy_sid_copies m p q s old n :
  sid_at m p s -> has m q old -> n <= Z.of_nat (length old) ->
  (n < Z.of_nat (length (sid_bytes s)) -> RtlCopySid m n q p = Some (STATUS_BUFFER_TOO_SMALL, m)) /\
  (Z.of_nat (length (sid_bytes s)) <= n -> exists m',
     RtlCopySid m n q p = Some (STATUS_SUCCESS, m') /\ sid_at m' q s /\
     same_except m m' q (Z.of_nat (length (sid_bytes s)))).
Proof.
  intros Hs Ho Hn. split; intros Hl.
  - unfold RtlCopySid. rewrite (RtlLengthSid_at Hs). cbn [mbind option_bind].
    by rewrite (proj2 (Z.ltb_lt _ _)).
  - rewrite <- (take_drop (length (sid_bytes s)) old) in Ho. apply has_app in Ho as [Ho _].
    destruct (RtlCopySid_run m p q s _ n Hs Ho) as (m' & E & K1 & K2);
      [rewrite length_take; lia|lia|].
    exists m'. split_and!; [done|split; [apply Hs|exact K1]|exact K2].
Qed.

Lemma copy_sid_copies_witness :
  exists m', RtlCopySid sid_memory 16 300 200 = Some (STATUS_SUCCESS, m') /\
    sid_at m' 300 administrators.
Proof.
  destruct (copy_sid_copies sid_memory 200 300 administrators (replicate 16 0) 16) as [_ H].
  - apply sid_memory_at.
  - vm_compute. reflexivity.
  - vm_compute. discriminate.
  - destruct H as (m' & E & K & _); [vm_compute; discriminate|]. exists m'. split; [exact E|exact K].
Defined.

(** [RtlAllocateAndInitializeSid] refuses more than eight subauthorities, reports a
    failed allocation, and otherwise stores in the new memory, and only there, the SID of
    revision 1 with the given authority and the first [count] subauthorities. *)
Theorem allocate_sid_builds `{ByteAllocator} m ia auth subs count :
  has m ia auth -> Forall is_byte auth -> length auth = 6%nat -> 0 <= count < 2 ^ 8 ->
  length subs = 8%nat -> Forall (fun v => 0 <= v < 2 ^ 32) subs ->
  (8 < count -> RtlAllocateAndInitializeSid m ia count subs = Some (STATUS_INVALID_SID, m, None)) /\
  (count <= 8 ->
   match balloc m (8 + 4 * count) with
   | None => RtlAllocateAndInitializeSid m ia count subs = Some (STATUS_NO_MEMORY, m, None)
   | Some p => exists m', RtlAllocateAndInitializeSid m ia count subs
                            = Some (STATUS_SUCCESS, m', Some p) /\
       sid_at m' p (mkSid 1 auth (take (Z.to_nat count) subs)) /\
       same_except m m' p (8 + 4 * count)
   end).
Proof.
  intros Ha Hb Hl Hc Hsl Hsv. unfold RtlAllocateAndInitializeSid. split; intros Hc8.
  { by rewrite (proj2 (Z.ltb_lt _ _)). }
  rewrite (proj2 (Z.ltb_ge _ _)) by lia. unfold RtlLengthRequiredSid.
  rewrite u32_small by lia. destruct (balloc m (8 + 4 * count)) as [p|] eqn:Hp; [|done].
  set (n := Z.to_nat count). replace (Z.to_nat (8 + 4 * count)) with (8 + 4 * n)%nat by lia.
  pose proof (map_bytes_has (8 + 4 * n) p garbage m) as G.
  pose proof (map_bytes_same (8 + 4 * n) p garbage m) as S0.
  set (m0 := map_bytes (8 + 4 * n) p garbage m) in *. clearbody m0. rewrite replicate_add in G.
  assert (ia + 6 <= p \/ p + (8 + 4 * count) <= ia) as Hd.
  { destruct (Z_le_gt_dec (ia + 6) p), (Z_le_gt_dec (p + (8 + 4 * count)) ia); try lia.
    exfalso. destruct (has_is_Some m ia auth (Z.max ia p) Ha) as [b Eb]; [lia|].
    rewrite (balloc_fresh _ _ _ (Z.max ia p) Hp) in Eb; [done|lia]. }
  destruct (StoreHeader_run m0 p ia auth count _ _ G) as (m1 & E1 & G1 & S1);
    [done|eapply has_frame; [exact Ha|exact S0|lia]|done|lia|lia|].
  assert (has m1 (p + 8) (replicate (4 * n) garbage)) as G1'.
  { apply has_cons in G1 as [_ G1]. apply has_cons in G1 as [_ G1]. apply has_app in G1 as [_ G1].
    replace (p + 8) with (p + 1 + 1 + Z.of_nat (length auth)) by lia. exact G1. }
  rewrite <- (app_nil_r (replicate _ _)) in G1'.
  destruct (StoreSubAuthorities_run m1 p n subs _ _ G1') as (m2 & E2 & G2 & S2);
    [apply length_replicate|lia|].
  rewrite app_nil_r in G2. exists m2. split_and!.
  - rewrite E1. cbn [mbind option_bind]. by rewrite E2.
  - split; [split; simpl; [done|done|by apply Forall_take|rewrite length_take; lia]|].
    unfold sid_bytes. cbn [Revision SubAuthority IdentifierAuthority].
    rewrite length_take, Nat.min_l by lia. replace (Z.of_nat n) with count by lia.
    apply has_cons in G1 as [X1 G1]. apply has_cons in G1 as [X2 G1]. apply has_app in G1 as [G1 _].
    apply has_cons. split; [rewrite S2 by lia; exact X1|].
    apply has_cons. split; [rewrite S2 by lia; exact X2|].
    apply has_app. split; [eapply has_frame; [exact G1|exact S2|lia]|].
    replace (p + 1 + 1 + Z.of_nat (length auth)) with (p + 8) by lia. exact G2.
  - intros q Hq. rewrite S2, S1, S0 by lia. done.
Qed.

(** An allocator that places every block at address 1000 when that is free. *)
Program Definition block_allocator : ByteAllocator := {|
  balloc m n := if decide (Forall (fun q => m !! q = None) (seqZ 1000 n)) then Some 1000 else None;
  garbage := 0xBA |}.
Next Obligation.
  intros m n p q. simpl. case_decide as H; [|done]. intros [= <-] Hq.
  apply (Forall_lookup_1 _ _ (Z.to_nat (q - 1000)) q H). rewrite lookup_seqZ. lia.
Qed.

Lemma allocate_sid_builds_witness :
  exists m', @RtlAllocateAndInitializeSid block_allocator sid_memory 202 2
               [32; 544; 0; 0; 0; 0; 0; 0] = Some (STATUS_SUCCESS, m', Some 1000) /\
    sid_at m' 1000 administrators.
Proof.
  destruct (@allocate_sid_builds block_allocator sid_memory 202 [0; 0; 0; 0; 0; 5]
    [32; 544; 0; 0; 0; 0; 0; 0] 2) as [_ H].
  - vm_compute. reflexivity.
  - by repeat constructor.
  - reflexivity.
  - lia.
  - reflexivity.
  - by repeat constructor.
  - assert (@balloc block_allocator sid_memory (8 + 4 * 2) = Some 1000) as Hb
      by (vm_compute; reflexivity).
    rewrite Hb in H. destruct H as (m' & E & K & _); [lia|]. exists m'. split; [exact E|exact K].
Defined.

Lemma length_wide a : length (concat (map (enc 2) a)) = (2 * length a)%nat.
Proof. induction a as [|c a IH]; [done|]. cbn [map concat length]. rewrite length_app, length_enc, IH. lia. Qed.

Lemma sid_string_length s : wf_sid s -> (length (SubAuthority s) <= 15)%nat -> (length (sid_string s) <= 183)%nat.
Proof.
  intros [_ [A1 A2] A3 _] Hl. pose proof (authority_string_chars _ A1 A2) as [_ C2]. pose proof (subs_string_length _ A3).
  unfold sid_string. rewrite !length_app. simpl length at 1. lia.
Qed.

(** The string of a valid SID in a buffer of the caller. *)
Lemma RtlConvertSidToUnicodeString_run `{ByteAllocator} m p s String old :
  sid_at m p s -> RtlValidSid m p = true -> (length (SubAuthority s) <= 15)%nat ->
  has m (Buffer String) old -> Z.of_nat (length old) = MaximumLength String -> Z.even (MaximumLength String) = true ->
  512 <= MaximumLength String < 2 ^ 16 ->
  exists m',
    RtlConvertSidToUnicodeString m String p false
    = Some (STATUS_SUCCESS,
            mkString (2 * Z.of_nat (length (sid_string s))) (MaximumLength String) (Buffer String), m') /\
    has m' (Buffer String) (concat (map (enc 2) (sid_string s ++ [0]))) /\
    same_except m m' (Buffer String) (MaximumLength String).
Proof.
  intros Hs Hv Hc Ho Hl He Hmax. pose proof (sid_string_length s (proj1 Hs) Hc) as Ls.
  unfold RtlConvertSidToUnicodeString. rewrite Hv, (SidString_run _ _ _ Hs). cbn [negb mbind option_bind].
  set (a := sid_string s) in *. set (bs := concat (map (enc 2) a)).
  assert (length bs = 2 * length a)%nat as Lb by apply length_wide.
  rewrite (proj2 (Z.leb_gt _ _)), (proj2 (Z.ltb_ge _ _)), (proj2 (Z.ltb_lt _ _)) by lia.
  rewrite <- (take_drop (length bs) old) in Ho.
  destruct (store_middle m (Buffer String) [] (take (length bs) old) bs (drop (length bs) old) Ho) as (m1 & E1 & K1 & S1);
    [rewrite length_take; lia|].
  cbn [length app] in *. rewrite Z.add_0_r in *. rewrite E1. cbn [mbind option_bind].
  rewrite <- (take_drop 2 (drop (length bs) old)) in K1.
  destruct (store_middle m1 (Buffer String) bs (take 2 (drop (length bs) old)) (enc 2 0) _ K1) as (m2 & E2 & K2 & S2);
    [rewrite length_enc, length_take, length_drop; lia|].
  unfold st16. replace (Buffer String + 2 * Z.of_nat (length a)) with (Buffer String + Z.of_nat (length bs)) by lia.
  rewrite E2. cbn [mbind option_bind]. exists m2. split_and!.
  - unfold u16. by rewrite Z.mod_small by lia.
  - rewrite map_app, concat_app. rewrite app_assoc in K2. apply has_app in K2 as [K2 _]. exact K2.
  - intros r Hr. rewrite S2, S1; [done|..]; rewrite ?length_take, ?length_drop; lia.
Qed.

Lemma sid_string_inj s t :
  wf_sid s -> wf_sid t -> Revision s = Revision t -> sid_string s = sid_string t -> s = t.
Proof.
  intros [_ [A1 A2] A3 _] [_ [B1 B2] B3 _] Hr E. unfold sid_string in E. simpl in E. injection E as E.
  apply (separator_inj 0x2D) in E as [E1 E2];
    [|by apply authority_string_chars|by apply authority_string_chars|apply subs_string_head|apply subs_string_head].
  apply authority_string_inj in E1; [|done..]. apply subs_string_inj in E2; [|done..].
  destruct s, t; simpl in *; congruence.
Qed.

(** C39: [RtlConvertSidToUnicodeString] for SIDs that [RtlValidSid] accepts, with at most 15 sub
    authorities, and a buffer of the caller of at least 256 characters: it succeeds without
    overrunning its own buffer, leaves the string and a final NUL in the buffer of the caller,
    changes nothing else, and different SIDs of the same revision get different strings.  (The
    revision itself is not printed.) *)
Theorem sid_string_bounded_injective `{ByteAllocator} m p q s t String1 String2 old1 old2 :
  sid_at m p s -> sid_at m q t -> RtlValidSid m p = true -> RtlValidSid m q = true -> Revision s = Revision t ->
  (length (SubAuthority s) <= 15)%nat -> (length (SubAuthority t) <= 15)%nat ->
  has m (Buffer String1) old1 -> Z.of_nat (length old1) = MaximumLength String1 ->
  Z.even (MaximumLength String1) = true -> 512 <= MaximumLength String1 < 2 ^ 16 ->
  has m (Buffer String2) old2 -> Z.of_nat (length old2) = MaximumLength String2 ->
  Z.even (MaximumLength String2) = true -> 512 <= MaximumLength String2 < 2 ^ 16 ->
  exists a b m1 m2,
    RtlConvertSidToUnicodeString m String1 p false
    = Some (STATUS_SUCCESS, mkString (2 * Z.of_nat (length a)) (MaximumLength String1) (Buffer String1), m1) /\
    has m1 (Buffer String1) (concat (map (enc 2) (a ++ [0]))) /\
    same_except m m1 (Buffer String1) (MaximumLength String1) /\
    RtlConvertSidToUnicodeString m String2 q false
    = Some (STATUS_SUCCESS, mkString (2 * Z.of_nat (length b)) (MaximumLength String2) (Buffer String2), m2) /\
    has m2 (Buffer String2) (concat (map (enc 2) (b ++ [0]))) /\
    same_except m m2 (Buffer String2) (MaximumLength String2) /\
    (a = b -> s = t).
Proof.
  intros Hs Ht Vs Vt Hr Ls Lt H1 L1 E1 M1 H2 L2 E2 M2. exists (sid_string s), (sid_string t).
  destruct (RtlConvertSidToUnicodeString_run m p s String1 old1) as (m1 & R1 & K1 & S1); try done.
  destruct (RtlConvertSidToUnicodeString_run m q t String2 old2) as (m2 & R2 & K2 & S2); try done.
  exists m1, m2. split_and!; try done. apply sid_string_inj; [apply Hs|apply Ht|done].
Qed.

Definition string_memory : mem := lay 1000 (replicate 512 0xFF) (lay 2000 (replicate 600 0xFF) sid_memory).

Lemma sid_string_bounded_injective_witness :
  exists a b m1 m2,
    @RtlConvertSidToUnicodeString block_allocator string_memory (mkString 0 512 1000) 100 false
    = Some (STATUS_SUCCESS, mkString (2 * Z.of_nat (length a)) 512 1000, m1) /\
    has m1 1000 (concat (map (enc 2) (a ++ [0]))) /\
    same_except string_memory m1 1000 512 /\
    @RtlConvertSidToUnicodeString block_allocator string_memory (mkString 0 600 2000) 200 false
    = Some (STATUS_SUCCESS, mkString (2 * Z.of_nat (length b)) 600 2000, m2) /\
    has m2 2000 (concat (map (enc 2) (b ++ [0]))) /\
    same_except string_memory m2 2000 600 /\
    (a = b -> everyone = administrators).
Proof.
  apply (@sid_string_bounded_injective block_allocator string_memory 100 200 everyone administrators
    (mkString 0 512 1000) (mkString 0 600 2000) (replicate 512 0xFF) (replicate 600 0xFF)).
  - split; [apply everyone_wf|vm_compute; reflexivity].
  - split; [apply everyone_wf|vm_compute; reflexivity].
  - vm_compute. reflexivity.
  - vm_compute. reflexivity.
  - reflexivity.
  - simpl. lia.
  - simpl. lia.
  - vm_compute. reflexivity.
  - reflexivity.
  - reflexivity.
  - simpl. lia.
  - vm_compute. reflexivity.
  - reflexivity.
  - reflexivity.
  - simpl. lia.
Defined.

Lemma sid_string_example :
  SidString sid_memory 200 = Some [0x53; 0x2D; 0x31; 0x2D; 0x35; 0x2D; 0x33; 0x32; 0x2D; 0x35; 0x34; 0x34].
Proof. vm_compute. reflexivity. Qed.
