(* ===== verification/Acl.v ===== *)
(** * Access control lists (sdk/lib/rtl/acl.c)

    An ACL is a packed structure in byte memory: a header of eight bytes (revision, a zero
    byte, the size, the number of ACEs, two zero bytes), the ACEs one after the other, each
    with a header of four bytes (type, flags, size), and free space up to the size.
    Pointers are 32-bit addresses, and [ULONG_PTR] arithmetic wraps; NULL is 0. *)

From Stdlib Require Import ZArith Lia Bool.
From stdpp Require Import base option list numbers gmap.
From S2P Require Import Prelude Memory Sid.
Open Scope Z_scope.

Definition ACL_REVISION3 : Z := 3.
Definition ACL_REVISION4 : Z := 4.
Definition MIN_ACL_REVISION : Z := 2.
Definition MAX_ACL_REVISION : Z := 4.

Definition ACCESS_ALLOWED_ACE_TYPE : Z := 0x0.
Definition ACCESS_DENIED_ACE_TYPE : Z := 0x1.
Definition SYSTEM_AUDIT_ACE_TYPE : Z := 0x2.
Definition ACCESS_MAX_MS_V2_ACE_TYPE : Z := 0x3.
Definition ACCESS_ALLOWED_COMPOUND_ACE_TYPE : Z := 0x4.
Definition ACCESS_MAX_MS_V3_ACE_TYPE : Z := 0x4.
Definition ACCESS_MIN_MS_OBJECT_ACE_TYPE : Z := 0x5.
Definition ACCESS_ALLOWED_OBJECT_ACE_TYPE : Z := 0x5.
Definition ACCESS_DENIED_OBJECT_ACE_TYPE : Z := 0x6.
Definition SYSTEM_AUDIT_OBJECT_ACE_TYPE : Z := 0x7.
Definition ACCESS_MAX_MS_OBJECT_ACE_TYPE : Z := 0x8.
Definition ACCESS_MAX_MS_ACE_TYPE : Z := 0x8.
Definition SYSTEM_AUDIT_CALLBACK_OBJECT_ACE_TYPE : Z := 0xF.

Definition VALID_INHERIT_FLAGS : Z := 0x1F.
Definition SUCCESSFUL_ACCESS_ACE_FLAG : Z := 0x40.
Definition FAILED_ACCESS_ACE_FLAG : Z := 0x80.
Definition ACE_OBJECT_TYPE_PRESENT : Z := 0x1.
Definition ACE_INHERITED_OBJECT_TYPE_PRESENT : Z := 0x2.

(** The members of the headers of an ACL and of an ACE. *)
Definition AclRevision (m : mem) (Acl : Z) : option Z := ld8 m Acl.
Definition AclSize (m : mem) (Acl : Z) : option Z := ld16 m (Acl + 2).
Definition AceCount (m : mem) (Acl : Z) : option Z := ld16 m (Acl + 4).
Definition AceType (m : mem) (Ace : Z) : option Z := ld8 m Ace.
Definition AceSize (m : mem) (Ace : Z) : option Z := ld16 m (Ace + 2).

(** ** Walking *)

(** The [for] loop of [RtlFirstFreeAce]; [Some None] is the return of FALSE. *)
Fixpoint FirstFreeLoop (n : nat) (m : mem) (Current AclEnd : Z) : option (option Z) :=
  match n with
  | O => Some (Some Current)
  | S n' =>
      if AclEnd <=? Current then Some None else
      size ← AceSize m Current;
      FirstFreeLoop n' m (u32 (Current + size)) AclEnd
  end.

(** The result is the BOOLEAN and [*FirstFreeAce]. *)
Definition RtlFirstFreeAce (m : mem) (Acl : Z) : option (bool * Z) :=
  size ← AclSize m Acl;
  count ← AceCount m Acl;
  let AclEnd := u32 (Acl + size) in
  r ← FirstFreeLoop (Z.to_nat count) m (u32 (Acl + 8)) AclEnd;
  match r with
  | None => Some (false, 0)
  | Some Current => Some (true, if Current <=? AclEnd then Current else 0)
  end.

(** The checks on one ACE in [RtlValidAcl], [AclEnd] being the end of the ACL; a fault
    takes the handler of the [_SEH2_TRY] block. *)
Definition ValidAce (m : mem) (Ace AclEnd : Z) : option bool :=
  if AclEnd <=? u32 (Ace + 4) then Some false else
  size ← AceSize m Ace;
  if negb (ROUND_DOWN size 2 =? size) then Some false else
  if AclEnd <? u32 (Ace + size) then Some false else
  type ← AceType m Ace;
  if type <=? ACCESS_MAX_MS_V2_ACE_TYPE then
    if negb (ROUND_DOWN size 4 =? size) then Some false else
    if size <? 4 then Some false else
    let Sid := Ace + 8 in
    rev ← ld8 m Sid;
    if negb (rev =? SID_REVISION) then Some false else
    count ← ld8 m (Sid + 1);
    if SID_MAX_SUB_AUTHORITIES <? count then Some false else
    len ← RtlLengthSid m Sid;
    Some (negb (size <? 4 + len))
  else if type =? ACCESS_ALLOWED_COMPOUND_ACE_TYPE then Some true
  else if (ACCESS_MIN_MS_OBJECT_ACE_TYPE <=? type) && (type <=? ACCESS_MAX_MS_OBJECT_ACE_TYPE)
  then Some true
  else Some (negb (size <? 4)).

Fixpoint ValidAclLoop (n : nat) (m : mem) (Ace AclEnd : Z) : option bool :=
  match n with
  | O => Some true
  | S n' =>
      valid ← ValidAce m Ace AclEnd;
      if (valid : bool) then
        size ← AceSize m Ace;
        ValidAclLoop n' m (u32 (Ace + size)) AclEnd
      else Some false
  end.

Definition RtlValidAcl (m : mem) (Acl : Z) : bool :=
  match
    (rev ← AclRevision m Acl;
     if (rev <? MIN_ACL_REVISION) || (MAX_ACL_REVISION <? rev) then Some false else
     size ← AclSize m Acl;
     if negb (ROUND_DOWN size 2 =? size) then Some false else
     if size <? 8 then Some false else
     count ← AceCount m Acl;
     ValidAclLoop (Z.to_nat count) m (u32 (Acl + 8)) (u32 (Acl + size)))
  with
  | Some valid => valid
  | None => false
  end.

(** ** Adding an ACE *)

(** The header and common fields of a new ACE. *)
Definition StoreAceHeader (m : mem) (Ace Flags Type_ size AccessMask : Z) : option mem :=
  m ← st8 m (Ace + 1) Flags;
  m ← st8 m Ace Type_;
  m ← st16 m (Ace + 2) size;
  st32 m (Ace + 4) AccessMask.

(** The ACL header after an ACE was added: one more ACE, the new revision. *)
Definition CloseAcl (m : mem) (Acl Revision : Z) : option mem :=
  count ← AceCount m Acl;
  m ← st16 m (Acl + 4) (count + 1);
  st8 m Acl Revision.

(** The end of [RtlpAddKnownAce], after the checks: the ACE, its SID, the ACL header. *)
Definition WriteKnownAce (m : mem) (Acl Ace Revision Flags AccessMask Sid Type_ size : Z)
    : option (NTSTATUS * mem) :=
  m ← StoreAceHeader m Ace Flags Type_ size AccessMask;
  SidLength ← RtlLengthSid m Sid;
  '(_, m) ← RtlCopySid m SidLength (Ace + 8) Sid;
  m ← CloseAcl m Acl Revision;
  Some (STATUS_SUCCESS, m).

Definition RtlpAddKnownAce (m : mem) (Acl Revision Flags AccessMask Sid Type_ : Z)
    : option (NTSTATUS * mem) :=
  if negb (RtlValidSid m Sid) then Some (STATUS_INVALID_SID, m) else
  rev ← AclRevision m Acl;
  if (ACL_REVISION4 <? rev) || (ACL_REVISION4 <? Revision)
  then Some (STATUS_REVISION_MISMATCH, m) else
  let Revision := if Revision <? rev then rev else Revision in
  let InvalidFlags :=
    if Type_ =? SYSTEM_AUDIT_ACE_TYPE
    then Z.land Flags (not32 (Z.lor VALID_INHERIT_FLAGS
                                (Z.lor SUCCESSFUL_ACCESS_ACE_FLAG FAILED_ACCESS_ACE_FLAG)))
    else Z.land Flags (not32 VALID_INHERIT_FLAGS) in
  if negb (InvalidFlags =? 0) then Some (STATUS_INVALID_PARAMETER, m) else
  if negb (RtlValidAcl m Acl) then Some (STATUS_INVALID_ACL, m) else
  '(ok, Ace) ← RtlFirstFreeAce m Acl;
  if negb ok then Some (STATUS_INVALID_ACL, m) else
  SidLength ← RtlLengthSid m Sid;
  let size := SidLength + 8 in
  aclsize ← AclSize m Acl;
  if (Ace =? 0) || (u32 (Acl + aclsize) <? u32 (Ace + size))
  then Some (STATUS_ALLOTTED_SPACE_EXCEEDED, m) else
  WriteKnownAce m Acl Ace Revision Flags AccessMask Sid Type_ size.

(** The optional copy of a GUID to [SidStart], which then moves behind it. *)
Definition CopyGuid (m : mem) (SidStart Guid : Z) : option (Z * mem) :=
  if Guid =? 0 then Some (SidStart, m) else
  m ← RtlCopyMemory m SidStart Guid 16;
  Some (u32 (SidStart + 16), m).

Definition RtlpAddKnownObjectAce (m : mem) (Acl Revision Flags AccessMask ObjectTypeGuid
    InheritedObjectTypeGuid Sid Type_ : Z) : option (NTSTATUS * mem) :=
  if negb (RtlValidSid m Sid) then Some (STATUS_INVALID_SID, m) else
  rev ← AclRevision m Acl;
  if (ACL_REVISION4 <? rev) || (ACL_REVISION4 <? Revision)
  then Some (STATUS_REVISION_MISMATCH, m) else
  let Revision := if Revision <? rev then rev else Revision in
  let InvalidFlags :=
    if (Type_ =? SYSTEM_AUDIT_OBJECT_ACE_TYPE) || (Type_ =? SYSTEM_AUDIT_CALLBACK_OBJECT_ACE_TYPE)
    then Z.land Flags (not32 (Z.lor VALID_INHERIT_FLAGS
                                (Z.lor SUCCESSFUL_ACCESS_ACE_FLAG FAILED_ACCESS_ACE_FLAG)))
    else Z.land Flags (not32 VALID_INHERIT_FLAGS) in
  if negb (InvalidFlags =? 0) then Some (STATUS_INVALID_PARAMETER, m) else
  if negb (RtlValidAcl m Acl) then Some (STATUS_INVALID_ACL, m) else
  '(ok, Ace) ← RtlFirstFreeAce m Acl;
  if negb ok then Some (STATUS_INVALID_ACL, m) else
  SidLength ← RtlLengthSid m Sid;
  let size := SidLength + 8 + 4 in
  let '(AceObjectFlags, size) :=
    if negb (ObjectTypeGuid =? 0) then (ACE_OBJECT_TYPE_PRESENT, size + 16) else (0, size) in
  let '(AceObjectFlags, size) :=
    if negb (InheritedObjectTypeGuid =? 0)
    then (Z.lor AceObjectFlags ACE_INHERITED_OBJECT_TYPE_PRESENT, size + 16)
    else (AceObjectFlags, size) in
  aclsize ← AclSize m Acl;
  if (Ace =? 0) || (u32 (Acl + aclsize) <? u32 (Ace + size))
  then Some (STATUS_ALLOTTED_SPACE_EXCEEDED, m) else
  m ← StoreAceHeader m Ace Flags Type_ size AccessMask;
  m ← st32 m (Ace + 8) AceObjectFlags;
  '(SidStart, m) ← CopyGuid m (u32 (Ace + 12)) ObjectTypeGuid;
  '(SidStart, m) ← CopyGuid m SidStart InheritedObjectTypeGuid;
  SidLength ← RtlLengthSid m Sid;
  '(_, m) ← RtlCopySid m SidLength SidStart Sid;
  m ← CloseAcl m Acl Revision;
  Some (STATUS_SUCCESS, m).

Definition RtlAddAccessAllowedAce (m : mem) (Acl Revision AccessMask Sid : Z) :=
  RtlpAddKnownAce m Acl Revision 0 AccessMask Sid ACCESS_ALLOWED_ACE_TYPE.

Definition RtlAddAccessAllowedAceEx (m : mem) (Acl Revision Flags AccessMask Sid : Z) :=
  RtlpAddKnownAce m Acl Revision Flags AccessMask Sid ACCESS_ALLOWED_ACE_TYPE.

Definition RtlAddAccessAllowedObjectAce (m : mem) (Acl Revision Flags AccessMask ObjectTypeGuid
    InheritedObjectTypeGuid Sid : Z) :=
  if (ObjectTypeGuid =? 0) && (InheritedObjectTypeGuid =? 0)
  then RtlpAddKnownAce m Acl Revision Flags AccessMask Sid ACCESS_ALLOWED_ACE_TYPE
  else RtlpAddKnownObjectAce m Acl Revision Flags AccessMask ObjectTypeGuid
         InheritedObjectTypeGuid Sid ACCESS_ALLOWED_OBJECT_ACE_TYPE.

Definition RtlAddAccessDeniedAce (m : mem) (Acl Revision AccessMask Sid : Z) :=
  RtlpAddKnownAce m Acl Revision 0 AccessMask Sid ACCESS_DENIED_ACE_TYPE.

Definition RtlAddAccessDeniedAceEx (m : mem) (Acl Revision Flags AccessMask Sid : Z) :=
  RtlpAddKnownAce m Acl Revision Flags AccessMask Sid ACCESS_DENIED_ACE_TYPE.

Definition RtlAddAccessDeniedObjectAce (m : mem) (Acl Revision Flags AccessMask ObjectTypeGuid
    InheritedObjectTypeGuid Sid : Z) :=
  if (ObjectTypeGuid =? 0) && (InheritedObjectTypeGuid =? 0)
  then RtlpAddKnownAce m Acl Revision Flags AccessMask Sid ACCESS_DENIED_ACE_TYPE
  else RtlpAddKnownObjectAce m Acl Revision Flags AccessMask ObjectTypeGuid
         InheritedObjectTypeGuid Sid ACCESS_DENIED_OBJECT_ACE_TYPE.

(** The flags with the audit bits of [Success] and [Failure]. *)
Definition AuditFlags (Flags : Z) (Success Failure : bool) : Z :=
  let Flags := if Success then Z.lor Flags SUCCESSFUL_ACCESS_ACE_FLAG else Flags in
  if Failure then Z.lor Flags FAILED_ACCESS_ACE_FLAG else Flags.

Definition RtlAddAuditAccessAce (m : mem) (Acl Revision AccessMask Sid : Z)
    (Success Failure : bool) :=
  RtlpAddKnownAce m Acl Revision (AuditFlags 0 Success Failure) AccessMask Sid
    SYSTEM_AUDIT_ACE_TYPE.

Definition RtlAddAuditAccessAceEx (m : mem) (Acl Revision Flags AccessMask Sid : Z)
    (Success Failure : bool) :=
  RtlpAddKnownAce m Acl Revision (AuditFlags Flags Success Failure) AccessMask Sid
    SYSTEM_AUDIT_ACE_TYPE.

Definition RtlAddAuditAccessObjectAce (m : mem) (Acl Revision Flags AccessMask ObjectTypeGuid
    InheritedObjectTypeGuid Sid : Z) (Success Failure : bool) :=
  let Flags := AuditFlags Flags Success Failure in
  if (ObjectTypeGuid =? 0) && (InheritedObjectTypeGuid =? 0)
  then RtlpAddKnownAce m Acl Revision Flags AccessMask Sid SYSTEM_AUDIT_ACE_TYPE
  else RtlpAddKnownObjectAce m Acl Revision Flags AccessMask ObjectTypeGuid
         InheritedObjectTypeGuid Sid SYSTEM_AUDIT_OBJECT_ACE_TYPE.

(** ** Looking up, inserting and deleting *)

(** The [for] loop of [RtlGetAce]; the result is whether it was left by the return of
    STATUS_INVALID_PARAMETER, and [*Ace]. *)
Fixpoint GetAceLoop (n : nat) (m : mem) (AclEnd Ace : Z) : option (bool * Z) :=
  match n with
  | O => Some (false, Ace)
  | S n' =>
      if AclEnd <=? Ace then Some (true, Ace) else
      size ← AceSize m Ace;
      GetAceLoop n' m AclEnd (u32 (Ace + size))
  end.

(** The result is the status and [*Ace], [None] when it is not stored. *)
Definition RtlGetAce (m : mem) (Acl AceIndex : Z) : option (NTSTATUS * option Z) :=
  rev ← AclRevision m Acl;
  if (rev <? MIN_ACL_REVISION) || (MAX_ACL_REVISION <? rev)
  then Some (STATUS_INVALID_PARAMETER, None) else
  count ← AceCount m Acl;
  if count <=? AceIndex then Some (STATUS_INVALID_PARAMETER, None) else
  size ← AclSize m Acl;
  '(bad, Ace) ← GetAceLoop (Z.to_nat AceIndex) m (u32 (Acl + size)) (u32 (Acl + 8));
  if bad || (u32 (Acl + size) <=? Ace) then Some (STATUS_INVALID_PARAMETER, Some Ace)
  else Some (STATUS_SUCCESS, Some Ace).

(** Memory to memory moves of [RtlpAddData] and [RtlpDeleteData]. *)
Definition RtlpAddData (m : mem) (AceList AceListLength Ace Offset : Z) : option mem :=
  m ← (if 0 <? Offset then RtlCopyMemory m (u32 (Ace + AceListLength)) Ace Offset else Some m);
  if negb (AceListLength =? 0) then RtlCopyMemory m Ace AceList AceListLength else Some m.

Definition RtlpDeleteData (m : mem) (Ace AceSize Offset : Z) : option mem :=
  m ← (if AceSize <? Offset
       then RtlMoveMemory m Ace (u32 (Ace + AceSize)) (u32 (Offset - AceSize)) else Some m);
  if u32 (Offset - AceSize) <? Offset
  then RtlZeroMemory m (u32 (Ace + Offset - AceSize)) AceSize else Some m.

(** The loop over the ACEs to add: [Some None] is the return of STATUS_INVALID_PARAMETER,
    otherwise the final pointer and the count.  An ACE of size 0 makes the C loop run
    forever; here it runs out of fuel. *)
Fixpoint AddAceScan (fuel : nat) (m : mem) (AclRevision End_ Ace NewAceCount : Z)
    : option (option (Z * Z)) :=
  if Ace <? End_ then
    match fuel with
    | O => None
    | S fuel' =>
        type ← AceType m Ace;
        if (type <=? ACCESS_MAX_MS_ACE_TYPE) &&
           (if ACCESS_MAX_MS_V3_ACE_TYPE <? type then AclRevision <? ACL_REVISION4
            else if ACCESS_MAX_MS_V2_ACE_TYPE <? type then AclRevision <? ACL_REVISION3
            else false)
        then Some None else
        size ← AceSize m Ace;
        AddAceScan fuel' m AclRevision End_ (u32 (Ace + size)) (u16 (NewAceCount + 1))
    end
  else Some (Some (Ace, NewAceCount)).

(** [n] steps over ACEs. *)
Fixpoint SkipAces (n : nat) (m : mem) (Ace : Z) : option Z :=
  match n with
  | O => Some Ace
  | S n' => size ← AceSize m Ace; SkipAces n' m (u32 (Ace + size))
  end.

Definition RtlAddAce (m : mem) (Acl AclRevisionArg StartingIndex AceList AceListLength : Z)
    : option (NTSTATUS * mem) :=
  if negb (RtlValidAcl m Acl) then Some (STATUS_INVALID_PARAMETER, m) else
  '(ok, FreeAce) ← RtlFirstFreeAce m Acl;
  if negb ok then Some (STATUS_INVALID_PARAMETER, m) else
  let End_ := u32 (AceList + AceListLength) in
  scan ← AddAceScan (S (Z.to_nat AceListLength)) m AclRevisionArg End_ AceList 0;
  match scan with
  | None => Some (STATUS_INVALID_PARAMETER, m)
  | Some (Ace, NewAceCount) =>
      if End_ <? Ace then Some (STATUS_INVALID_PARAMETER, m) else
      size ← AclSize m Acl;
      if (FreeAce =? 0) || (u32 (Acl + size) <? u32 (FreeAce + AceListLength))
      then Some (STATUS_BUFFER_TOO_SMALL, m) else
      count ← AceCount m Acl;
      Ace ← SkipAces (Z.to_nat (Z.min StartingIndex count)) m (u32 (Acl + 8));
      m ← RtlpAddData m AceList AceListLength Ace (u32 (FreeAce - Ace));
      count ← AceCount m Acl;
      m ← st16 m (Acl + 4) (count + NewAceCount);
      rev ← AclRevision m Acl;
      m ← st8 m Acl (Z.min rev AclRevisionArg);
      Some (STATUS_SUCCESS, m)
  end.

Definition RtlDeleteAce (m : mem) (Acl AceIndex : Z) : option (NTSTATUS * mem) :=
  if negb (RtlValidAcl m Acl) then Some (STATUS_INVALID_PARAMETER, m) else
  count ← AceCount m Acl;
  if count <=? AceIndex then Some (STATUS_INVALID_PARAMETER, m) else
  '(ok, FreeAce) ← RtlFirstFreeAce m Acl;
  if negb ok then Some (STATUS_INVALID_PARAMETER, m) else
  Ace ← SkipAces (Z.to_nat AceIndex) m (u32 (Acl + 8));
  size ← AceSize m Ace;
  m ← RtlpDeleteData m Ace size (u32 (FreeAce - Ace));
  count ← AceCount m Acl;
  m ← st16 m (Acl + 4) (count - 1);
  Some (STATUS_SUCCESS, m).

(** ** The ACL itself *)

Definition RtlCreateAcl (m : mem) (Acl AclSize AclRevision : Z) : option (NTSTATUS * mem) :=
  if AclSize <? 8 then Some (STATUS_BUFFER_TOO_SMALL, m) else
  if (AclRevision <? MIN_ACL_REVISION) || (MAX_ACL_REVISION <? AclRevision) || (0xFFFF <? AclSize)
  then Some (STATUS_INVALID_PARAMETER, m) else
  m ← st16 m (Acl + 2) (ROUND_UP AclSize 4);
  m ← st8 m Acl AclRevision;
  m ← st16 m (Acl + 4) 0;
  m ← st8 m (Acl + 1) 0;
  m ← st16 m (Acl + 6) 0;
  Some (STATUS_SUCCESS, m).

Definition AclRevisionInformation : Z := 1.
Definition AclSizeInformation : Z := 2.

Definition RtlQueryInformationAcl (m : mem) (Acl Information InformationLength InformationClass : Z)
    : option (NTSTATUS * mem) :=
  rev ← AclRevision m Acl;
  if (rev <? MIN_ACL_REVISION) || (MAX_ACL_REVISION <? rev)
  then Some (STATUS_INVALID_PARAMETER, m) else
  if InformationClass =? AclRevisionInformation then
    if InformationLength <? 4 then Some (STATUS_BUFFER_TOO_SMALL, m) else
    m ← st32 m Information rev;
    Some (STATUS_SUCCESS, m)
  else if InformationClass =? AclSizeInformation then
    if InformationLength <? 12 then Some (STATUS_BUFFER_TOO_SMALL, m) else
    '(ok, Ace) ← RtlFirstFreeAce m Acl;
    if negb ok then Some (STATUS_INVALID_PARAMETER, m) else
    count ← AceCount m Acl;
    m ← st32 m Information count;
    if negb (Ace =? 0) then
      m ← st32 m (Information + 4) (u32 (Ace - Acl));
      size ← AclSize m Acl;
      inuse ← ld32 m (Information + 4);
      m ← st32 m (Information + 8) (u32 (size - inuse));
      Some (STATUS_SUCCESS, m)
    else
      size ← AclSize m Acl;
      m ← st32 m (Information + 4) size;
      m ← st32 m (Information + 8) 0;
      Some (STATUS_SUCCESS, m)
  else Some (STATUS_INVALID_INFO_CLASS, m).

Definition RtlSetInformationAcl (m : mem) (Acl Information InformationLength InformationClass : Z)
    : option (NTSTATUS * mem) :=
  rev ← AclRevision m Acl;
  if (rev <? MIN_ACL_REVISION) || (MAX_ACL_REVISION <? rev)
  then Some (STATUS_INVALID_PARAMETER, m) else
  if InformationClass =? AclRevisionInformation then
    if InformationLength <? 4 then Some (STATUS_BUFFER_TOO_SMALL, m) else
    new ← ld32 m Information;
    if new <=? rev then Some (STATUS_INVALID_PARAMETER, m) else
    m ← st8 m Acl new;
    Some (STATUS_SUCCESS, m)
  else Some (STATUS_INVALID_INFO_CLASS, m).
