(* ===== verification/AclProps.v ===== *)
(** * Access control lists: their contents and the properties of the operations

    [acl_at m p a] says that the structure at [p] is the ACL [a], a header, a list of ACEs
    as byte strings, and free space.  The operations of [src/sdk/lib/rtl/acl.c] are related
    to ACLs as values. *)

From Stdlib Require Import ZArith Lia Bool.
From stdpp Require Import base option list numbers gmap.
From S2P Require Import Prelude Memory Sid SidProps Acl.
Open Scope Z_scope.

(** ** ACLs as values *)

Record acl := mkAcl { rev : Z; sbz1 : Z; sbz2 : Z; aces : list (list Z); free : list Z }.

Definition used (a : acl) : Z := 8 + Z.of_nat (length (concat (aces a))).
Definition size (a : acl) : Z := used a + Z.of_nat (length (free a)).

(** An ACE: type and flags, its length, and the rest. *)
Definition ace_bytes (t f : Z) (body : list Z) : list Z :=
  t :: f :: enc 2 (4 + Z.of_nat (length body)) ++ body.

Definition is_ace (x : list Z) : Prop :=
  exists t f body, x = ace_bytes t f body /\ is_byte t /\ Z.of_nat (length x) < 2 ^ 16.

(** The body of an ACE that [RtlpAddKnownAce] builds. *)
Definition known_body (mask : Z) (s : sid) : list Z := enc 4 mask ++ sid_bytes s.

(** A SID that may be in an ACE. *)
Definition good_sid (s : sid) : Prop :=
  wf_sid s /\ Revision s = SID_REVISION /\ Z.of_nat (length (SubAuthority s)) <= SID_MAX_SUB_AUTHORITIES.

(** An ACE of one of the types 0 to 3 with a good SID. *)
Definition known_ace (x : list Z) : Prop :=
  exists t f mask s, x = ace_bytes t f (known_body mask s) /\
    0 <= t <= ACCESS_MAX_MS_V2_ACE_TYPE /\ good_sid s.

(** The ACL at [p] is [a]; it is not within 64 KB of the end of the address space. *)
Record acl_at (m : mem) (p : Z) (a : acl) : Prop := {
  acl_pos : 0 < p /\ p + size a + 2 ^ 16 <= 2 ^ 32;
  acl_size : size a < 2 ^ 16;
  acl_rev : MIN_ACL_REVISION <= rev a <= MAX_ACL_REVISION;
  acl_aces : Forall is_ace (aces a);
  acl_header : m !! p = Some (rev a) /\ m !! (p + 1) = Some (sbz1 a) /\
    has m (p + 2) (enc 2 (size a)) /\ has m (p + 4) (enc 2 (Z.of_nat (length (aces a)))) /\
    has m (p + 6) (enc 2 (sbz2 a));
  acl_body : has m (p + 8) (concat (aces a) ++ free a)
}.

Definition acl_bytes (a : acl) : list Z :=
  [rev a; sbz1 a] ++ enc 2 (size a) ++ enc 2 (Z.of_nat (length (aces a))) ++ enc 2 (sbz2 a)
  ++ concat (aces a) ++ free a.

(** What an address of an ACL and the ACL itself have to satisfy. *)
Record acl_ok (p : Z) (a : acl) : Prop := {
  ok_pos : 0 < p /\ p + size a + 2 ^ 16 <= 2 ^ 32;
  ok_size : size a < 2 ^ 16;
  ok_rev : MIN_ACL_REVISION <= rev a <= MAX_ACL_REVISION;
  ok_aces : Forall is_ace (aces a)
}.

Lemma length_acl_bytes a : Z.of_nat (length (acl_bytes a)) = size a.
Proof. unfold acl_bytes, size, used. rewrite !length_app, !length_enc. simpl length. lia. Qed.

Lemma acl_at_bytes m p a : acl_at m p a <-> acl_ok p a /\ has m p (acl_bytes a).
Proof.
  unfold acl_bytes. rewrite !has_app, !has_cons, !length_enc. cbn [length].
  change (Z.of_nat 2) with 2. rewrite <- !Z.add_assoc. change (2 + 2) with 4.
  change (2 + 4) with 6. change (2 + (2 + 4)) with 8.
  replace (2 + (2 + (2 + (2 + Z.of_nat (length (concat (aces a)))))))
    with (8 + Z.of_nat (length (concat (aces a)))) by lia.
  split.
  - intros [A1 A2 A3 A4 (H1 & H2 & H3 & H4 & H5) A6]. split; [by split|].
    apply has_app in A6 as [A6 A7]. rewrite <- ?Z.add_assoc in *. split_and!; try done.
  - intros [[A1 A2 A3 A4] ((H1 & H2 & _) & H3 & H4 & H5 & H6 & H7)]. split; try done.
    apply has_app. rewrite <- ?Z.add_assoc in *. done.
Qed.

(** ** ACEs *)

Lemma length_ace_bytes t f body : length (ace_bytes t f body) = (4 + length body)%nat.
Proof. unfold ace_bytes. cbn [length]. rewrite length_app, length_enc. lia. Qed.

Lemma is_ace_length x : is_ace x -> 4 <= Z.of_nat (length x) < 2 ^ 16.
Proof. intros (t & f & body & -> & _ & H). rewrite length_ace_bytes in *. lia. Qed.

Lemma length_sid_bytes s : wf_sid s -> length (sid_bytes s) = (8 + 4 * length (SubAuthority s))%nat.
Proof.
  intros [_ [_ Hl] _ _]. unfold sid_bytes. cbn [length]. rewrite length_app, length_sub_bytes. lia.
Qed.

Lemma known_ace_length x :
  known_ace x -> exists n, (n <= 15)%nat /\ length x = (16 + 4 * n)%nat.
Proof.
  intros (t & f & mask & s & -> & _ & Hw & _ & Hc). exists (length (SubAuthority s)).
  unfold SID_MAX_SUB_AUTHORITIES in Hc. split; [lia|]. unfold known_body.
  rewrite length_ace_bytes, length_app, length_enc, length_sid_bytes by done. lia.
Qed.

Lemma known_is_ace x : known_ace x -> is_ace x.
Proof.
  intros H. destruct (known_ace_length x H) as (n & Hn & Hl).
  destruct H as (t & f & mask & s & -> & Ht & _). exists t, f, (known_body mask s).
  unfold is_byte, ACCESS_MAX_MS_V2_ACE_TYPE in *. split_and!; [done|lia|lia|lia].
Qed.

Lemma ace_type m q x : is_ace x -> has m q x -> exists t, AceType m q = Some t /\ head x = Some t.
Proof.
  intros (t & f & body & -> & _ & _) H. apply has_cons in H as [H _]. exists t.
  split; [by apply ld8_lookup|done].
Qed.

Lemma ace_size m q x : is_ace x -> has m q x -> AceSize m q = Some (Z.of_nat (length x)).
Proof.
  intros (t & f & body & -> & _ & Hl) H. rewrite length_ace_bytes in *. unfold AceSize, ace_bytes in *.
  apply has_cons in H as [_ H]. apply has_cons in H as [_ H]. apply has_app in H as [H _].
  replace (q + 1 + 1) with (q + 2) in H by lia.
  replace (Z.of_nat (4 + length body)) with (4 + Z.of_nat (length body)) by lia.
  apply ld16_has; [lia|done].
Qed.

Lemma concat_snoc {A} (l : list (list A)) x : concat (l ++ [x]) = concat l ++ x.
Proof. rewrite concat_app. simpl. by rewrite app_nil_r. Qed.

(** ** Reading an ACL *)

Section Read.
Context {m : mem} {p : Z} {a : acl} (Ha : acl_at m p a).

Lemma acl_bounds : 8 <= used a /\ used a <= size a.
Proof. unfold size, used. lia. Qed.

Lemma acl_count_range : 0 <= Z.of_nat (length (aces a)) < 2 ^ 16.
Proof.
  split; [lia|]. destruct Ha as [_ Hs _ Hf _ _]. unfold size, used in Hs.
  assert (length (aces a) <= length (concat (aces a)))%nat; [|lia].
  clear -Hf. induction Hf as [|x l Hx _ IH]; [done|]. cbn [concat length]. rewrite length_app.
  apply is_ace_length in Hx. lia.
Qed.

Lemma AclRevision_at : AclRevision m p = Some (rev a).
Proof. apply ld8_lookup, Ha. Qed.

Lemma AclSize_at : AclSize m p = Some (size a).
Proof. pose proof acl_bounds. apply ld16_has; [split; [lia|apply Ha]|apply Ha]. Qed.

Lemma AceCount_at : AceCount m p = Some (Z.of_nat (length (aces a))).
Proof. apply ld16_has; [apply acl_count_range|apply Ha]. Qed.

(** The ACE behind the ACEs [l1]. *)
Lemma ace_here l1 x l2 :
  aces a = l1 ++ x :: l2 ->
  is_ace x /\ has m (p + 8 + Z.of_nat (length (concat l1))) x /\
  8 + Z.of_nat (length (concat l1)) + Z.of_nat (length x) <= used a.
Proof.
  intros E. destruct Ha as [_ _ _ Hf _ Hb]. rewrite E in Hf, Hb. unfold used. rewrite E.
  apply Forall_app in Hf as [_ Hf]. inversion_clear Hf as [|? ? Hx _].
  rewrite concat_app in *. cbn [concat] in *. rewrite !length_app. split_and!; [done| |lia].
  rewrite <- !app_assoc in Hb. by apply has_middle in Hb.
Qed.

Lemma end_range : u32 (p + size a) = p + size a.
Proof. pose proof acl_bounds. destruct (acl_pos _ _ _ Ha). apply u32_small. lia. Qed.

Lemma start_range : u32 (p + 8) = p + 8.
Proof. pose proof acl_bounds. destruct (acl_pos _ _ _ Ha). apply u32_small. lia. Qed.

(** A step from one ACE to the next. *)
Lemma ace_step l1 x l2 :
  aces a = l1 ++ x :: l2 ->
  AceSize m (p + 8 + Z.of_nat (length (concat l1))) = Some (Z.of_nat (length x)) /\
  u32 (p + 8 + Z.of_nat (length (concat l1)) + Z.of_nat (length x))
    = p + 8 + Z.of_nat (length (concat (l1 ++ [x]))).
Proof.
  intros E. destruct (ace_here _ _ _ E) as (Hx & Hh & Hu). split; [by apply ace_size|].
  rewrite concat_snoc, length_app. pose proof acl_bounds. destruct (acl_pos _ _ _ Ha).
  rewrite u32_small; lia.
Qed.

Lemma FirstFreeLoop_run l1 l2 :
  aces a = l1 ++ l2 ->
  FirstFreeLoop (length l2) m (p + 8 + Z.of_nat (length (concat l1))) (p + size a)
  = Some (Some (p + used a)).
Proof.
  revert l1. induction l2 as [|x l2 IH]; intros l1 E; cbn [FirstFreeLoop length].
  - unfold used. rewrite E, app_nil_r. do 2 f_equal. lia.
  - destruct (ace_here _ _ _ E) as (Hx & _ & Hu). apply is_ace_length in Hx.
    pose proof acl_bounds. rewrite (proj2 (Z.leb_gt _ _)) by lia.
    destruct (ace_step _ _ _ E) as [-> Es]. cbn [mbind option_bind]. rewrite Es.
    apply IH. by rewrite E, <- app_assoc.
Qed.

Lemma RtlFirstFreeAce_run : RtlFirstFreeAce m p = Some (true, p + used a).
Proof.
  unfold RtlFirstFreeAce. rewrite AclSize_at, AceCount_at. cbn [mbind option_bind].
  rewrite Nat2Z.id, end_range, start_range.
  replace (p + 8) with (p + 8 + Z.of_nat (length (concat (@nil (list Z))))) by (simpl; lia).
  rewrite (FirstFreeLoop_run [] (aces a) eq_refl). cbn [mbind option_bind].
  pose proof acl_bounds. by rewrite (proj2 (Z.leb_le _ _)) by lia.
Qed.

Lemma SkipAces_run l1 l2 l3 :
  aces a = l1 ++ l2 ++ l3 ->
  SkipAces (length l2) m (p + 8 + Z.of_nat (length (concat l1)))
  = Some (p + 8 + Z.of_nat (length (concat (l1 ++ l2)))).
Proof.
  revert l1. induction l2 as [|x l2 IH]; intros l1 E; cbn [SkipAces length].
  - by rewrite app_nil_r.
  - destruct (ace_step _ _ _ E) as [-> Es]. cbn [mbind option_bind]. rewrite Es.
    rewrite IH by (by rewrite E, <- app_assoc). by rewrite <- app_assoc.
Qed.

Lemma GetAceLoop_run l1 l2 l3 :
  aces a = l1 ++ l2 ++ l3 ->
  GetAceLoop (length l2) m (p + size a) (p + 8 + Z.of_nat (length (concat l1)))
  = Some (false, p + 8 + Z.of_nat (length (concat (l1 ++ l2)))).
Proof.
  revert l1. induction l2 as [|x l2 IH]; intros l1 E; cbn [GetAceLoop length].
  - by rewrite app_nil_r.
  - destruct (ace_here _ _ _ E) as (Hx & _ & Hu). apply is_ace_length in Hx.
    pose proof acl_bounds. rewrite (proj2 (Z.leb_gt _ _)) by lia.
    destruct (ace_step _ _ _ E) as [-> Es]. cbn [mbind option_bind]. rewrite Es.
    rewrite IH by (by rewrite E, <- app_assoc). by rewrite <- app_assoc.
Qed.

(** *** Validity *)

Lemma ROUND_DOWN_multiple k n : 0 <= k < 32 -> 0 <= n < 2 ^ 32 -> (2 ^ k | n) -> ROUND_DOWN n (2 ^ k) = n.
Proof.
  intros Hk Hn [c ->]. rewrite ROUND_DOWN_spec by done.
  rewrite Z.div_mul by lia. lia.
Qed.

Lemma ValidAce_known l1 x l2 :
  aces a = l1 ++ x :: l2 -> known_ace x ->
  ValidAce m (p + 8 + Z.of_nat (length (concat l1))) (p + size a) = Some true.
Proof.
  intros E Hk. destruct (ace_here _ _ _ E) as (Hx & Hh & Hu).
  set (q := p + 8 + Z.of_nat (length (concat l1))) in *.
  destruct (known_ace_length x Hk) as (n & Hn & Hl). pose proof acl_bounds.
  destruct (acl_pos _ _ _ Ha) as [Hp1 Hp2].
  destruct Hk as (t & f & mask & s & Ex & Ht & Hw & Hr & Hc).
  unfold ValidAce. rewrite (u32_small (q + 4)) by lia.
  rewrite (proj2 (Z.leb_gt _ _)) by lia. rewrite (ace_size _ _ _ Hx Hh). cbn [mbind option_bind].
  rewrite (ROUND_DOWN_multiple 1), Z.eqb_refl by (lia || (exists (8 + 2 * Z.of_nat n); lia)).
  cbn [negb]. rewrite (u32_small (q + _)), (proj2 (Z.ltb_ge _ _)) by lia.
  assert (AceType m q = Some t) as ->.
  { destruct (ace_type _ _ _ Hx Hh) as (t' & -> & Et). rewrite Ex in Et. simpl in Et. done. }
  cbn [mbind option_bind]. unfold ACCESS_MAX_MS_V2_ACE_TYPE in *.
  rewrite (proj2 (Z.leb_le _ _)) by lia.
  rewrite (ROUND_DOWN_multiple 2), Z.eqb_refl by (lia || (exists (4 + Z.of_nat n); lia)).
  cbn [negb]. rewrite (proj2 (Z.ltb_ge _ 4)) by lia.
  assert (sid_at m (q + 8) s) as Hs.
  { split; [done|]. rewrite Ex in Hh. unfold ace_bytes, known_body in Hh.
    apply has_cons in Hh as [_ Hh]. apply has_cons in Hh as [_ Hh].
    apply has_app in Hh as [_ Hh]. apply has_app in Hh as [_ Hh]. rewrite !length_enc in Hh.
    by replace (q + 1 + 1 + Z.of_nat 2 + Z.of_nat 4) with (q + 8) in Hh by lia. }
  pose proof (sid_parts Hs) as (R1 & _ & _). rewrite (ld8_lookup _ _ _ R1), Hr.
  cbn [mbind option_bind]. rewrite Z.eqb_refl. cbn [negb].
  rewrite (sid_count Hs). cbn [mbind option_bind]. rewrite (proj2 (Z.ltb_ge _ _)) by lia.
  rewrite (RtlLengthSid_at Hs), length_sid_bytes by done. cbn [mbind option_bind].
  rewrite (proj2 (Z.ltb_ge _ _)); [done|].
  rewrite Ex in Hl |- *. unfold known_body in *.
  rewrite length_ace_bytes, length_app, length_enc, length_sid_bytes by done. lia.
Qed.

Lemma ValidAclLoop_known l1 l2 :
  aces a = l1 ++ l2 -> Forall known_ace l2 ->
  ValidAclLoop (length l2) m (p + 8 + Z.of_nat (length (concat l1))) (p + size a) = Some true.
Proof.
  intros E Hk. revert l1 E. induction Hk as [|x l2 Hx _ IH]; intros l1 E; [done|].
  cbn [ValidAclLoop length]. rewrite (ValidAce_known _ _ _ E Hx). cbn [mbind option_bind].
  destruct (ace_step _ _ _ E) as [-> Es]. cbn [mbind option_bind]. rewrite Es.
  apply IH. by rewrite E, <- app_assoc.
Qed.

(** An ACL of even size whose ACEs are known ones is valid. *)
Lemma RtlValidAcl_known : Forall known_ace (aces a) -> (2 | size a) -> RtlValidAcl m p = true.
Proof.
  intros Hk He. unfold RtlValidAcl. rewrite AclRevision_at, AclSize_at, AceCount_at.
  cbn [mbind option_bind]. pose proof (acl_rev _ _ _ Ha). pose proof (acl_size _ _ _ Ha).
  pose proof acl_bounds. rewrite !(proj2 (Z.ltb_ge _ _)) by lia. cbn [orb].
  rewrite (ROUND_DOWN_multiple 1), Z.eqb_refl by (lia || done). cbn [negb].
  rewrite Nat2Z.id, end_range, start_range.
  replace (p + 8) with (p + 8 + Z.of_nat (length (concat (@nil (list Z))))) by (simpl; lia).
  by rewrite (ValidAclLoop_known [] (aces a) eq_refl Hk).
Qed.

End Read.

(** ** Writing *)

Lemma StoreAceHeader_run m q x f t n mask :
  has m q x -> length x = 8%nat -> is_byte t ->
  exists m', StoreAceHeader m q f t n mask = Some m' /\
    has m' q (t :: u8 f :: enc 2 n ++ enc 4 mask) /\ same_except m m' q 8.
Proof.
  intros H Hl Ht. destruct x as [|x0 [|x1 [|x2 [|x3 x]]]]; try done.
  destruct (store_middle m q [x0] [x1] (enc 1 f) (x2 :: x3 :: x) H) as (m1 & E1 & G1 & S1); [done|].
  destruct (store_middle m1 q [] [x0] (enc 1 t) (enc 1 f ++ x2 :: x3 :: x) G1)
    as (m2 & E2 & G2 & S2); [done|].
  rewrite app_nil_l, app_assoc in G2.
  destruct (store_middle m2 q (enc 1 t ++ enc 1 f) [x2; x3] (enc 2 n) x G2)
    as (m3 & E3 & G3 & S3); [done|].
  rewrite <- (app_nil_r x), app_assoc in G3.
  destruct (store_middle m3 q ((enc 1 t ++ enc 1 f) ++ enc 2 n) x (enc 4 mask) [] G3)
    as (m4 & E4 & G4 & S4); [rewrite length_enc; simpl in Hl; lia|].
  rewrite ?length_app, ?length_enc in *. simpl length in *.
  change (Z.of_nat 0) with 0 in *. rewrite Z.add_0_r in E2, S2.
  change (Z.of_nat 1) with 1 in *. change (Z.of_nat (1 + 1)) with 2 in *.
  change (Z.of_nat (1 + 1 + 2)) with 4 in *. change (Z.of_nat 2) with 2 in *.
  unfold StoreAceHeader, st8, st16, st32. rewrite E1. cbn [mbind option_bind]. rewrite E2.
  cbn [mbind option_bind]. rewrite E3. cbn [mbind option_bind]. exists m4. split_and!; [done| |].
  - rewrite app_nil_r in G4. rewrite <- !app_assoc in G4. unfold enc at 1 2 in G4.
    rewrite (u8_small t) in G4 by done. exact G4.
  - intros r Hr. rewrite S4, S3, S2, S1 by lia. done.
Qed.

Lemma store_field m p b n v :
  has m p b -> length b = n ->
  exists m', store m p (enc n v) = Some m' /\ has m' p (enc n v) /\ same_except m m' p (Z.of_nat n).
Proof.
  intros H Hl. destruct (store_at m p b (enc n v) H) as (m' & E & K1 & K2 & _);
    [by rewrite length_enc|]. subst n. by exists m'.
Qed.

(** Two fields of the ACL header are rewritten. *)
Lemma header_run m p a k r :
  acl_at m p a -> 0 <= k -> is_byte r ->
  exists m', (m ← st16 m (p + 4) k; st8 m p r) = Some m' /\
    m' !! p = Some r /\ has m' (p + 4) (enc 2 k) /\
    (forall q, q <> p -> q <> p + 4 -> q <> p + 5 -> m' !! q = m !! q).
Proof.
  intros Ha Hk Hr. destruct (acl_header _ _ _ Ha) as (H1 & _ & _ & H4 & _).
  destruct (store_field m (p + 4) _ 2 k H4) as (m1 & E1 & G1 & S1); [apply length_enc|].
  assert (has m1 p [rev a]) as H1'.
  { apply has_cons. split; [|apply has_nil]. rewrite S1 by lia. done. }
  destruct (store_field m1 p _ 1 r H1') as (m2 & E2 & G2 & S2); [done|].
  unfold st16, st8. rewrite E1. cbn [mbind option_bind]. exists m2. split_and!; [done| | |].
  - apply has_cons in G2 as [-> _]. unfold enc. by rewrite u8_small.
  - eapply has_frame; [exact G1|exact S2|lia].
  - intros q Hq1 Hq2 Hq3. rewrite S2, S1 by lia. done.
Qed.

(** An ACL whose body, number of ACEs and revision were rewritten. *)
Lemma acl_rebuild m m' p a r l fr :
  acl_at m p a -> MIN_ACL_REVISION <= r <= MAX_ACL_REVISION -> Forall is_ace l ->
  length (concat l ++ fr) = length (concat (aces a) ++ free a) ->
  m' !! p = Some r -> has m' (p + 4) (enc 2 (Z.of_nat (length l))) ->
  (forall q, q = p + 1 \/ p + 2 <= q < p + 4 \/ p + 6 <= q < p + 8 -> m' !! q = m !! q) ->
  has m' (p + 8) (concat l ++ fr) ->
  acl_at m' p (mkAcl r (sbz1 a) (sbz2 a) l fr).
Proof.
  intros [A1 A2 A3 A4 (H1 & H2 & H3 & H4 & H5) A6] Hr Hl Hlen G1 G2 G3 G4.
  assert (size (mkAcl r (sbz1 a) (sbz2 a) l fr) = size a) as Es.
  { rewrite !length_app in Hlen. unfold size, used. simpl. lia. }
  split; rewrite ?Es; try done. split_and!; simpl; [done|rewrite G3 by lia; done| |done|].
  - apply has_lookup. intros i b Hi. pose proof (lookup_lt_Some _ _ _ Hi) as Hlt.
    rewrite length_enc in Hlt. rewrite G3 by lia. by eapply has_lookup in H3.
  - apply has_lookup. intros i b Hi. pose proof (lookup_lt_Some _ _ _ Hi) as Hlt.
    rewrite length_enc in Hlt. rewrite G3 by lia. by eapply has_lookup in H5.
Qed.

(** The ACE [x] at the start of the free space becomes the last one of the ACL. *)
Lemma acl_rebuild_tail m m' p a r x fr :
  acl_at m p (mkAcl (rev a) (sbz1 a) (sbz2 a) (aces a) (x ++ fr)) ->
  MIN_ACL_REVISION <= r <= MAX_ACL_REVISION -> is_ace x -> m' !! p = Some r ->
  has m' (p + 4) (enc 2 (Z.of_nat (length (aces a)) + 1)) ->
  (forall q, q <> p -> q <> p + 4 -> q <> p + 5 -> m' !! q = m !! q) ->
  acl_at m' p (mkAcl r (sbz1 a) (sbz2 a) (aces a ++ [x]) fr).
Proof.
  intros Ha Hr Hx K1 K2 K3. apply (acl_rebuild m m' p _ r (aces a ++ [x]) fr Ha); [done| | |done| | |].
  - apply Forall_app. split; [apply Ha|by apply Forall_singleton].
  - simpl. by rewrite concat_snoc, <- app_assoc.
  - rewrite length_app. simpl length.
    by replace (Z.of_nat (length (aces a) + 1)) with (Z.of_nat (length (aces a)) + 1) by lia.
  - intros q Hq. apply K3; lia.
  - rewrite concat_snoc, <- app_assoc. pose proof (acl_body _ _ _ Ha) as B. simpl in B.
    apply has_lookup. intros i b Hi. rewrite K3 by lia. by eapply has_lookup in B.
Qed.

(** ** Adding a known ACE *)

Definition valid_flags (t : Z) : Z := if t =? SYSTEM_AUDIT_ACE_TYPE then 0xDF else VALID_INHERIT_FLAGS.

Lemma RtlValidSid_at m q s : sid_at m q s -> good_sid s -> RtlValidSid m q = true.
Proof.
  intros Hs (_ & Hr & Hc). unfold RtlValidSid. destruct (q =? 0); [done|].
  pose proof (sid_parts Hs) as (R1 & _). rewrite (ld8_lookup _ _ _ R1), Hr. cbn [mbind option_bind].
  simpl negb. rewrite (sid_count Hs). cbn [mbind option_bind]. by rewrite (proj2 (Z.ltb_ge _ _)) by lia.
Qed.

(** The end of a body. *)
Lemma body_free m p a :
  acl_at m p a -> has m (p + used a) (free a).
Proof.
  intros [_ _ _ _ _ H]. apply has_app in H as [_ H]. unfold used.
  replace (p + (8 + Z.of_nat (length (concat (aces a)))))
    with (p + 8 + Z.of_nat (length (concat (aces a)))) by lia. done.
Qed.

(** The ACE is written at the start of the free space. *)
Lemma store_known_ace m p q s x f t mask :
  has m p x -> sid_at m q s -> length x = (8 + length (sid_bytes s))%nat -> is_byte t ->
  q + Z.of_nat (length (sid_bytes s)) <= p \/ p + Z.of_nat (length x) <= q ->
  exists m1 m2 st, StoreAceHeader m p f t (Z.of_nat (length x)) mask = Some m1 /\
    RtlLengthSid m1 q = Some (Z.of_nat (length (sid_bytes s))) /\
    RtlCopySid m1 (Z.of_nat (length (sid_bytes s))) (p + 8) q = Some (st, m2) /\
    has m2 p (ace_bytes t (u8 f) (known_body mask s)) /\
    same_except m m2 p (Z.of_nat (length x)).
Proof.
  intros H Hs Hl Ht Hd. rewrite <- (take_drop 8 x) in H. apply has_app in H as [H1 H2].
  rewrite length_take, Nat.min_l in H2 by lia. change (Z.of_nat 8) with 8 in H2.
  destruct (StoreAceHeader_run m p _ f t (Z.of_nat (length x)) mask H1)
    as (m1 & E1 & G1 & S1); [rewrite length_take; lia|done|].
  assert (sid_at m1 q s) as Hs1.
  { split; [apply Hs|]. eapply has_frame; [apply Hs|exact S1|lia]. }
  destruct (RtlCopySid_run m1 q (p + 8) s (drop 8 x) (Z.of_nat (length (sid_bytes s))) Hs1)
    as (m2 & E2 & G2 & S2); [eapply has_frame; [exact H2|exact S1|lia]|rewrite length_drop; lia|lia|].
  exists m1, m2, STATUS_SUCCESS. split_and!; [done|by apply RtlLengthSid_at|done| |].
  - assert (has m2 p (t :: u8 f :: enc 2 (Z.of_nat (length x)) ++ enc 4 mask)) as G1'.
    { eapply has_frame; [exact G1|exact S2|]. cbn [length]. rewrite length_app, !length_enc. lia. }
    unfold ace_bytes, known_body. rewrite length_app, length_enc.
    replace (4 + Z.of_nat (4 + length (sid_bytes s))) with (Z.of_nat (length x)) by lia.
    rewrite app_assoc, !app_comm_cons. apply has_app. split; [exact G1'|].
    cbn [length]. rewrite length_app, !length_enc. exact G2.
  - intros r Hr. rewrite S2, S1 by lia. done.
Qed.

Lemma CloseAcl_run m p a r :
  acl_at m p a -> is_byte r ->
  exists m', CloseAcl m p r = Some m' /\ m' !! p = Some r /\
    has m' (p + 4) (enc 2 (Z.of_nat (length (aces a)) + 1)) /\
    (forall q, q <> p -> q <> p + 4 -> q <> p + 5 -> m' !! q = m !! q).
Proof.
  intros Ha Hr. unfold CloseAcl. rewrite (AceCount_at Ha). cbn [mbind option_bind].
  apply (header_run m p a); [done|lia|done].
Qed.

(** A memory that differs from one with the ACL [a] in the body only. *)
Lemma acl_other_body m m' p a fr :
  acl_at m p a -> length fr = length (free a) -> has m' (p + used a) fr ->
  same_except m m' (p + used a) (Z.of_nat (length (free a))) ->
  acl_at m' p (mkAcl (rev a) (sbz1 a) (sbz2 a) (aces a) fr).
Proof.
  intros Ha Hl Hf Hs. pose proof Ha as [A1 A2 A3 A4 (H1 & H2 & H3 & H4 & H5) A6].
  assert (8 <= used a) by (unfold used; lia).
  apply (acl_rebuild m); try done.
  - rewrite !length_app. lia.
  - rewrite Hs by lia. done.
  - eapply has_frame; [exact H4|exact Hs|rewrite length_enc; lia].
  - intros q Hq. apply Hs. lia.
  - apply has_app in A6 as [A6 _]. apply has_app. split.
    + eapply has_frame; [exact A6|exact Hs|unfold used; lia].
    + by replace (p + 8 + Z.of_nat (length (concat (aces a)))) with (p + used a)
        by (unfold used; lia).
Qed.

Lemma WriteKnownAce_run m p a q s R f mask t :
  acl_at m p a -> sid_at m q s -> good_sid s -> MIN_ACL_REVISION <= R <= MAX_ACL_REVISION ->
  0 <= t <= ACCESS_MAX_MS_V2_ACE_TYPE ->
  q + Z.of_nat (length (sid_bytes s)) <= p \/ p + size a <= q ->
  let n := (8 + length (sid_bytes s))%nat in
  let new := ace_bytes t (u8 f) (known_body mask s) in
  (n <= length (free a))%nat ->
  exists m', WriteKnownAce m p (p + used a) R f mask q t (Z.of_nat n) = Some (STATUS_SUCCESS, m') /\
    acl_at m' p (mkAcl R (sbz1 a) (sbz2 a) (aces a ++ [new]) (drop n (free a))) /\
    same_except m m' p (size a).
Proof.
  intros Ha Hs Hg HR Ht Hd n new Hn. pose proof (acl_bounds (a := a)) as Hb.
  unfold MIN_ACL_REVISION, MAX_ACL_REVISION, ACCESS_MAX_MS_V2_ACE_TYPE in *.
  pose proof (body_free _ _ _ Ha) as Hfree. rewrite <- (take_drop n (free a)) in Hfree.
  apply has_app in Hfree as [F1 F2]. rewrite length_take, Nat.min_l in F2 by lia.
  destruct (store_known_ace m (p + used a) q s (take n (free a)) f t mask F1 Hs)
    as (m1 & m2 & st & E1 & E2 & E3 & G & S); rewrite ?length_take, ?Nat.min_l by lia;
    [lia|unfold is_byte; lia|unfold size in *; lia|].
  rewrite length_take, Nat.min_l in E1, S by lia. unfold WriteKnownAce.
  rewrite E1. cbn [mbind option_bind]. rewrite E2. cbn [mbind option_bind]. rewrite E3.
  cbn [mbind option_bind].
  assert (length new = n) as Hnew.
  { unfold new, known_body. rewrite length_ace_bytes, length_app, length_enc. lia. }
  assert (has m2 (p + used a) (new ++ drop n (free a))) as G2.
  { apply has_app. rewrite Hnew. split; [exact G|]. eapply has_frame; [exact F2|exact S|lia]. }
  assert (acl_at m2 p (mkAcl (rev a) (sbz1 a) (sbz2 a) (aces a) (new ++ drop n (free a)))) as Ha2.
  { apply (acl_other_body m); [done|rewrite length_app, length_drop; lia|exact G2|].
    eapply same_except_weaken; [exact S|lia|lia]. }
  destruct (CloseAcl_run m2 p _ R Ha2) as (m3 & E4 & K1 & K2 & K3); [unfold is_byte; lia|].
  rewrite E4. exists m3. split; [done|]. split.
  - apply (acl_rebuild_tail m2 m3 p _ R new (drop n (free a)) Ha2); try done.
    apply known_is_ace. exists t, (u8 f), mask, s. exact (conj eq_refl (conj Ht Hg)).
  - intros r Hr. unfold size in Hr. rewrite K3 by lia. apply S. lia.
Qed.

Lemma RtlpAddKnownAce_run m p a q s R f mask t :
  acl_at m p a -> Forall known_ace (aces a) -> (2 | size a) ->
  sid_at m q s -> good_sid s -> 0 <= R <= ACL_REVISION4 -> 0 <= t <= ACCESS_MAX_MS_V2_ACE_TYPE ->
  Z.land f (not32 (valid_flags t)) = 0 ->
  q + Z.of_nat (length (sid_bytes s)) <= p \/ p + size a <= q ->
  let n := (8 + length (sid_bytes s))%nat in
  let new := ace_bytes t (u8 f) (known_body mask s) in
  if (length (free a) <? n)%nat
  then RtlpAddKnownAce m p R f mask q t = Some (STATUS_ALLOTTED_SPACE_EXCEEDED, m)
  else exists m', RtlpAddKnownAce m p R f mask q t = Some (STATUS_SUCCESS, m') /\
    acl_at m' p (mkAcl (Z.max R (rev a)) (sbz1 a) (sbz2 a) (aces a ++ [new]) (drop n (free a))) /\
    same_except m m' p (size a).
Proof.
  intros Ha Hk He Hs Hg HR Ht Hf Hd n new. pose proof (acl_bounds (a := a)) as Hb.
  pose proof (acl_pos _ _ _ Ha) as [Hp1 Hp2]. pose proof (acl_rev _ _ _ Ha) as Hrev.
  assert (length (sid_bytes s) <= 68)%nat as Hsl.
  { destruct Hg as (Hw & _ & Hc). unfold SID_MAX_SUB_AUTHORITIES in Hc.
    rewrite length_sid_bytes by done. lia. }
  unfold RtlpAddKnownAce. rewrite (RtlValidSid_at _ _ _ Hs Hg), (AclRevision_at Ha).
  cbn [negb mbind option_bind]. unfold MIN_ACL_REVISION, MAX_ACL_REVISION, ACL_REVISION4 in *.
  rewrite !(proj2 (Z.ltb_ge 4 _)) by lia. cbn [orb].
  replace (if t =? SYSTEM_AUDIT_ACE_TYPE then _ else Z.land f (not32 VALID_INHERIT_FLAGS)) with 0
    by (rewrite <- Hf; unfold valid_flags; by case_match).
  rewrite Z.eqb_refl. cbn [negb]. rewrite (RtlValidAcl_known Ha Hk He). cbn [negb].
  rewrite (RtlFirstFreeAce_run Ha). cbn [negb mbind option_bind].
  rewrite (RtlLengthSid_at Hs). cbn [mbind option_bind]. rewrite (AclSize_at Ha).
  cbn [mbind option_bind]. rewrite (end_range Ha).
  rewrite (proj2 (Z.eqb_neq (p + used a) 0)) by lia. cbn [orb].
  rewrite (u32_small (p + used a + _)) by lia.
  replace (Z.of_nat (length (sid_bytes s)) + 8) with (Z.of_nat n) by lia.
  destruct (Nat.ltb_spec (length (free a)) n) as [Hn|Hn].
  { by rewrite (proj2 (Z.ltb_lt _ _)) by (unfold size; lia). }
  rewrite (proj2 (Z.ltb_ge _ _)) by (unfold size; lia).
  replace (if R <? rev a then rev a else R) with (Z.max R (rev a)) by (zcases; lia).
  apply WriteKnownAce_run; try done. unfold MIN_ACL_REVISION, MAX_ACL_REVISION. lia.
Qed.

(** ** Moving ACEs *)

Lemma DeleteData_run m q x y :
  has m q (x ++ y) -> x <> [] -> 0 <= q -> q + Z.of_nat (length (x ++ y)) < 2 ^ 32 ->
  exists m', RtlpDeleteData m q (Z.of_nat (length x)) (Z.of_nat (length (x ++ y))) = Some m' /\
    has m' q (y ++ replicate (length x) 0) /\ same_except m m' q (Z.of_nat (length (x ++ y))).
Proof.
  intros H Hx Hq Hb. rewrite length_app in *. assert (0 < length x)%nat by (destruct x; simpl; [done|lia]).
  assert (exists m1, (if Z.of_nat (length x) <? Z.of_nat (length x + length y)
      then RtlMoveMemory m q (u32 (q + Z.of_nat (length x)))
             (u32 (Z.of_nat (length x + length y) - Z.of_nat (length x))) else Some m) = Some m1 /\
      has m1 q (y ++ drop (length y) (x ++ y)) /\
      same_except m m1 q (Z.of_nat (length x + length y))) as (m1 & E1 & G1 & S1).
  { destruct (Z.ltb_spec (Z.of_nat (length x)) (Z.of_nat (length x + length y))) as [Hl|Hl].
    - rewrite !u32_small by lia.
      replace (Z.of_nat (length x + length y) - Z.of_nat (length x)) with (Z.of_nat (length y)) by lia.
      unfold RtlMoveMemory. rewrite Nat2Z.id. pose proof H as Hy. apply has_app in Hy as [_ Hy].
      unfold has in Hy. rewrite Hy. cbn [mbind option_bind].
      rewrite <- (take_drop (length y) (x ++ y)) in H.
      destruct (store_middle m q [] _ y _ H) as (m1 & E & G & S).
      { rewrite length_take, length_app. lia. }
      simpl in E, S. rewrite Z.add_0_r in E, S. exists m1. split_and!; [exact E|exact G|].
      eapply same_except_weaken; [exact S|lia|rewrite length_take, length_app; lia].
    - assert (y = []) as -> by (destruct y; simpl in *; [done|lia]).
      exists m. split_and!; [done|done|by intros r]. }
  unfold RtlpDeleteData. rewrite E1. cbn [mbind option_bind]. rewrite !u32_small by lia.
  rewrite (proj2 (Z.ltb_lt _ _)) by lia. unfold RtlZeroMemory. rewrite Nat2Z.id.
  rewrite <- (app_nil_r (drop _ _)) in G1.
  destruct (store_middle m1 q y _ (replicate (length x) 0) [] G1) as (m2 & E2 & G2 & S2).
  { rewrite length_replicate, length_drop, length_app. lia. }
  replace (q + Z.of_nat (length x + length y) - Z.of_nat (length x)) with (q + Z.of_nat (length y)) by lia.
  rewrite app_nil_r in G2. exists m2. split_and!; [exact E2|exact G2|].
  eapply same_except_trans; [exact S1|]. eapply same_except_weaken; [exact S2|lia|].
  rewrite length_drop, length_app. lia.
Qed.

Lemma AddData_run m q r y z fr :
  has m q (y ++ fr) -> has m r z -> (length z <= length fr)%nat -> 0 <= q ->
  q + Z.of_nat (length (y ++ fr)) < 2 ^ 32 ->
  r + Z.of_nat (length z) <= q \/ q + Z.of_nat (length (y ++ fr)) <= r ->
  exists m', RtlpAddData m r (Z.of_nat (length z)) q (Z.of_nat (length y)) = Some m' /\
    has m' q (z ++ y ++ drop (length z) fr) /\
    same_except m m' q (Z.of_nat (length (y ++ fr))).
Proof.
  intros H Hz Hl Hq Hb Hd. rewrite length_app in *.
  assert (exists A m1, (if 0 <? Z.of_nat (length y)
      then RtlCopyMemory m (u32 (q + Z.of_nat (length z))) q (Z.of_nat (length y)) else Some m)
        = Some m1 /\ length A = length z /\ has m1 q (A ++ y ++ drop (length z) fr) /\
      same_except m m1 q (Z.of_nat (length y + length fr))) as (A & m1 & E1 & HA & G1 & S1).
  { exists (take (length z) (y ++ fr)). destruct (Z.ltb_spec 0 (Z.of_nat (length y))) as [Hy|Hy].
    - rewrite u32_small by lia. unfold RtlCopyMemory, RtlMoveMemory. rewrite Nat2Z.id.
      pose proof H as Hy'. apply has_app in Hy' as [Hy' _]. unfold has in Hy'. rewrite Hy'.
      cbn [mbind option_bind].
      rewrite <- (take_drop (length z) (y ++ fr)) in H.
      rewrite <- (take_drop (length y) (drop (length z) (y ++ fr))) in H.
      destruct (store_middle m q _ _ y _ H) as (m1 & E & G & S).
      { rewrite length_take, length_drop, length_app. lia. }
      rewrite drop_drop in G. rewrite (Nat.add_comm (length z)), drop_app_add in G.
      rewrite length_take, length_app, Nat.min_l in E, S by lia.
      exists m1. split_and!; [exact E|rewrite length_take, length_app; lia|exact G|].
      eapply same_except_weaken; [exact S|lia|].
      rewrite length_take, length_drop, length_app. lia.
    - assert (y = []) as -> by (destruct y; simpl in *; [done|lia]).
      exists m. split_and!; [done|rewrite length_take; simpl; lia| |by intros ?].
      simpl. by rewrite take_drop. }
  unfold RtlpAddData. rewrite E1. cbn [mbind option_bind].
  destruct (Z.eqb_spec (Z.of_nat (length z)) 0) as [E0|E0]; cbn [negb].
  { assert (z = []) as -> by (destruct z; simpl in *; [done|lia]). destruct A; [|done].
    exists m1. split_and!; [done|exact G1|exact S1]. }
  unfold RtlCopyMemory, RtlMoveMemory. rewrite Nat2Z.id.
  assert (has m1 r z) as Hz1 by (eapply has_frame; [exact Hz|exact S1|lia]).
  unfold has in Hz1. rewrite Hz1. cbn [mbind option_bind].
  destruct (store_middle m1 q [] A z _ G1) as (m2 & E2 & G2 & S2); [done|].
  simpl in E2, S2. rewrite Z.add_0_r in E2, S2. exists m2. split_and!; [exact E2|exact G2|].
  eapply same_except_trans; [exact S1|]. eapply same_except_weaken; [exact S2|lia|lia].
Qed.

(** ** Deleting and inserting *)

(** The parts of the body before and after the ACEs [l1]. *)
Lemma body_split m p a l1 l2 :
  acl_at m p a -> aces a = l1 ++ l2 ->
  let q := p + 8 + Z.of_nat (length (concat l1)) in
  p + used a = q + Z.of_nat (length (concat l2)) /\ has m (p + 8) (concat l1) /\
  has m q (concat l2 ++ free a).
Proof.
  intros Ha E q. pose proof (acl_body _ _ _ Ha) as B. rewrite E, concat_app, <- app_assoc in B.
  apply has_app in B as [B1 B2]. split_and!; [|done|done].
  unfold used, q. rewrite E, concat_app, length_app. lia.
Qed.

(** The ACEs behind [l1] and the free space are replaced by [l2] and [fr] (in [m1]), then
    the number of ACEs and the revision are stored (in [m2]). *)
Lemma acl_replace m m1 m2 p a l1 l2' l2 fr r :
  acl_at m p a -> aces a = l1 ++ l2' -> Forall is_ace l2 ->
  length (concat l2 ++ fr) = length (concat l2' ++ free a) ->
  MIN_ACL_REVISION <= r <= MAX_ACL_REVISION ->
  let q := p + 8 + Z.of_nat (length (concat l1)) in
  same_except m m1 q (p + size a - q) -> has m1 q (concat l2 ++ fr) ->
  m2 !! p = Some r -> has m2 (p + 4) (enc 2 (Z.of_nat (length (l1 ++ l2)))) ->
  (forall q, q <> p -> q <> p + 4 -> q <> p + 5 -> m2 !! q = m1 !! q) ->
  acl_at m2 p (mkAcl r (sbz1 a) (sbz2 a) (l1 ++ l2) fr) /\ same_except m m2 p (size a).
Proof.
  intros Ha E Hl2 Hlen Hr q S1 G1 K1 K2 K3. pose proof (acl_bounds (a := a)) as Hb.
  destruct (body_split m p a l1 l2' Ha E) as (Hu & B1 & _). fold q in Hu.
  assert (p + 8 <= q) as Hq by (unfold q; lia). split.
  - apply (acl_rebuild m m2 p a); [done|done| | |exact K1|exact K2| |].
    + pose proof (acl_aces _ _ _ Ha) as Hf. rewrite E in Hf. rewrite Forall_app in *. naive_solver.
    + rewrite E, !concat_app, <- !app_assoc, !(length_app (concat l1)). lia.
    + intros r' Hr'. rewrite K3 by lia. apply S1. lia.
    + rewrite concat_app, <- app_assoc. apply has_app. fold q.
      split; apply has_lookup; intros i b Hi; rewrite K3 by lia.
      * pose proof (lookup_lt_Some _ _ _ Hi). rewrite S1 by (unfold q; lia).
        by eapply has_lookup in B1.
      * by eapply has_lookup in G1.
  - intros r' Hr'. rewrite K3, S1 by lia. done.
Qed.

(** The header survives a change of the body. *)
Lemma header_kept m m1 p a q :
  acl_at m p a -> p + 8 <= q -> same_except m m1 q (p + size a - q) ->
  m1 !! p = Some (rev a) /\ AceCount m1 p = Some (Z.of_nat (length (aces a))) /\
  has m1 (p + 4) (enc 2 (Z.of_nat (length (aces a)))).
Proof.
  intros Ha Hq Hs. destruct (acl_header _ _ _ Ha) as (H1 & _ & _ & H4 & _).
  assert (has m1 (p + 4) (enc 2 (Z.of_nat (length (aces a))))) as H4'.
  { eapply has_frame; [exact H4|exact Hs|rewrite length_enc; lia]. }
  split_and!; [rewrite Hs by lia; done| |done]. apply ld16_has; [apply (acl_count_range Ha)|done].
Qed.

Lemma SkipAces_to m p a l1 l2 :
  acl_at m p a -> aces a = l1 ++ l2 ->
  SkipAces (length l1) m (p + 8) = Some (p + 8 + Z.of_nat (length (concat l1))).
Proof.
  intros Ha E. pose proof (SkipAces_run Ha [] l1 l2 E) as Es. simpl in Es.
  by rewrite Z.add_0_r in Es.
Qed.

Lemma RtlDeleteAce_run m p a l1 x l2 :
  acl_at m p a -> Forall known_ace (aces a) -> (2 | size a) -> aces a = l1 ++ x :: l2 ->
  exists m', RtlDeleteAce m p (Z.of_nat (length l1)) = Some (STATUS_SUCCESS, m') /\
    acl_at m' p (mkAcl (rev a) (sbz1 a) (sbz2 a) (l1 ++ l2) (replicate (length x) 0 ++ free a)) /\
    same_except m m' p (size a).
Proof.
  intros Ha Hk He E. pose proof (acl_bounds (a := a)) as Hb. pose proof (acl_pos _ _ _ Ha) as [Hp1 Hp2].
  destruct (ace_here Ha _ _ _ E) as (Hx & Hh & Hu). pose proof (is_ace_length _ Hx) as Hxl.
  destruct (body_split m p a l1 (x :: l2) Ha E) as (Hused & _ & B). cbn [concat] in *.
  set (q := p + 8 + Z.of_nat (length (concat l1))) in *. assert (p + 8 <= q) as Hq by (unfold q; lia).
  unfold RtlDeleteAce. rewrite (RtlValidAcl_known Ha Hk He), (AceCount_at Ha).
  cbn [negb mbind option_bind].
  rewrite (proj2 (Z.leb_gt _ _)) by (rewrite E, length_app; cbn [length]; lia).
  rewrite (RtlFirstFreeAce_run Ha). cbn [negb mbind option_bind].
  rewrite Nat2Z.id, (start_range Ha), (SkipAces_to _ _ _ _ _ Ha E). fold q. cbn [mbind option_bind].
  rewrite (ace_size _ _ _ Hx Hh). cbn [mbind option_bind].
  rewrite u32_small by lia. replace (p + used a - q) with (Z.of_nat (length (x ++ concat l2))) by lia.
  apply has_app in B as [B1 B2].
  destruct (DeleteData_run m q x (concat l2) B1) as (m1 & E1 & G1 & S1);
    [intros ->; simpl in Hxl; lia|lia|lia|].
  rewrite E1. cbn [mbind option_bind].
  assert (same_except m m1 q (p + size a - q)) as S1' by (eapply same_except_weaken; [exact S1|lia|lia]).
  destruct (header_kept m m1 p a q Ha Hq S1') as (K1 & K2 & K3). rewrite K2. cbn [mbind option_bind].
  destruct (store_field m1 (p + 4) _ 2 (Z.of_nat (length (aces a)) - 1) K3) as (m2 & E2 & G2 & S2);
    [apply length_enc|]. unfold st16. rewrite E2. cbn [mbind option_bind].
  exists m2. split; [done|].
  apply (acl_replace m m1 m2 p a l1 (x :: l2)); [done|done| | |apply Ha|done| | | |].
  - pose proof (acl_aces _ _ _ Ha) as Hf. rewrite E, Forall_app, Forall_cons in Hf. apply Hf.
  - cbn [concat]. rewrite !length_app, length_replicate. lia.
  - rewrite app_assoc. apply has_app. fold q. split; [exact G1|].
    rewrite !length_app, length_replicate in *. rewrite (Nat.add_comm (length (concat l2))).
    eapply has_frame; [exact B2|exact S1|lia].
  - rewrite S2 by lia. exact K1.
  - replace (Z.of_nat (length (l1 ++ l2))) with (Z.of_nat (length (aces a)) - 1); [exact G2|].
    rewrite E, !length_app. cbn [length]. lia.
  - intros r Hr1 Hr2 Hr3. apply S2. lia.
Qed.

(** The scan over ACEs of the types 0 to 3. *)
Lemma AddAceScan_run fuel m q l R c :
  has m q (concat l) -> Forall known_ace l -> (length l < fuel)%nat -> 0 <= q ->
  q + Z.of_nat (length (concat l)) < 2 ^ 32 -> 0 <= c -> c + Z.of_nat (length l) < 2 ^ 16 ->
  AddAceScan fuel m R (q + Z.of_nat (length (concat l))) q c
  = Some (Some (q + Z.of_nat (length (concat l)), c + Z.of_nat (length l))).
Proof.
  intros H Hk. revert q c fuel H. induction Hk as [|x l Hx _ IH]; intros q c fuel H Hf Hq Hb Hc Hcl.
  { destruct fuel; cbn [AddAceScan concat length]; rewrite Z.add_0_r, Z.ltb_irrefl, Z.add_0_r; done. }
  destruct fuel as [|fuel]; [simpl in Hf; lia|]. cbn [concat length] in *. rewrite length_app in *.
  pose proof (known_is_ace _ Hx) as Hax. pose proof (is_ace_length _ Hax) as Hxl.
  apply has_app in H as [H1 H2]. cbn [AddAceScan]. rewrite (proj2 (Z.ltb_lt _ _)) by lia.
  destruct (ace_type _ _ _ Hax H1) as (t & -> & Et). cbn [mbind option_bind].
  destruct Hx as (t' & f & mask & s & Ex & Ht & _). rewrite Ex in Et. simpl in Et. simplify_eq.
  unfold ACCESS_MAX_MS_ACE_TYPE, ACCESS_MAX_MS_V3_ACE_TYPE, ACCESS_MAX_MS_V2_ACE_TYPE in *.
  rewrite (proj2 (Z.leb_le _ _)), !(proj2 (Z.ltb_ge _ _)) by lia. cbn [andb].
  rewrite (ace_size _ _ _ Hax H1). cbn [mbind option_bind]. unfold u16. rewrite u32_small, Z.mod_small by lia.
  rewrite Nat2Z.inj_add, Z.add_assoc, (IH (q + Z.of_nat (length (ace_bytes t f (known_body mask s)))))
    by (done || lia). do 3 f_equal. lia.
Qed.

(** The end of [RtlAddAce]: the number of ACEs and the revision. *)
Lemma close_add_ace m m1 p a q k R :
  acl_at m p a -> p + 8 <= q -> same_except m m1 q (p + size a - q) ->
  MIN_ACL_REVISION <= R <= MAX_ACL_REVISION ->
  exists m2, (count ← AceCount m1 p;
              m ← st16 m1 (p + 4) (count + k);
              rev ← AclRevision m p;
              m ← st8 m p (Z.min rev R);
              Some (STATUS_SUCCESS, m)) = Some (STATUS_SUCCESS, m2) /\
    m2 !! p = Some (Z.min (rev a) R) /\
    has m2 (p + 4) (enc 2 (Z.of_nat (length (aces a)) + k)) /\
    (forall r, r <> p -> r <> p + 4 -> r <> p + 5 -> m2 !! r = m1 !! r).
Proof.
  intros Ha Hq Hs HR. pose proof (acl_rev _ _ _ Ha) as Hrev.
  unfold MIN_ACL_REVISION, MAX_ACL_REVISION in *.
  destruct (header_kept m m1 p a q Ha Hq Hs) as (K1 & K2 & K3). rewrite K2. cbn [mbind option_bind].
  destruct (store_field m1 (p + 4) _ 2 (Z.of_nat (length (aces a)) + k) K3) as (m2 & E2 & G2 & S2);
    [apply length_enc|]. unfold st16. rewrite E2. cbn [mbind option_bind].
  assert (m2 !! p = Some (rev a)) as K1' by (rewrite S2 by lia; done).
  unfold AclRevision. rewrite (ld8_lookup _ _ _ K1'). cbn [mbind option_bind].
  destruct (store_field m2 p [rev a] 1 (Z.min (rev a) R)) as (m3 & E3 & G3 & S3);
    [apply has_cons; split; [done|apply has_nil]|done|].
  unfold st8. rewrite E3. cbn [mbind option_bind]. exists m3. split_and!; [done| | |].
  - apply has_cons in G3 as [-> _]. f_equal. apply u8_small. lia.
  - eapply has_frame; [exact G2|exact S3|lia].
  - intros r Hr1 Hr2 Hr3. rewrite S3, S2 by lia. done.
Qed.

Lemma known_concat_length l : Forall known_ace l -> (length l <= length (concat l))%nat.
Proof.
  induction 1 as [|x l Hx _ IH]; [done|]. cbn [concat length]. rewrite length_app.
  apply known_is_ace, is_ace_length in Hx. lia.
Qed.

Lemma RtlAddAce_run m p a l1 l2 q new R :
  acl_at m p a -> Forall known_ace (aces a) -> (2 | size a) -> aces a = l1 ++ l2 ->
  has m q (concat new) -> Forall known_ace new -> 0 <= q ->
  q + Z.of_nat (length (concat new)) < 2 ^ 32 -> MIN_ACL_REVISION <= R <= MAX_ACL_REVISION ->
  q + Z.of_nat (length (concat new)) <= p \/ p + size a <= q ->
  (length (concat new) <= length (free a))%nat ->
  exists m', RtlAddAce m p R (Z.of_nat (length l1)) q (Z.of_nat (length (concat new)))
               = Some (STATUS_SUCCESS, m') /\
    acl_at m' p (mkAcl (Z.min (rev a) R) (sbz1 a) (sbz2 a) (l1 ++ new ++ l2)
                       (drop (length (concat new)) (free a))) /\
    same_except m m' p (size a).
Proof.
  intros Ha Hk He E Hn Hkn Hq Hqb HR Hd Hfit. pose proof (acl_bounds (a := a)) as Hb.
  pose proof (acl_pos _ _ _ Ha) as [Hp1 Hp2]. pose proof (acl_size _ _ _ Ha) as Hs.
  pose proof (known_concat_length _ Hkn) as Hnl.
  assert (Z.of_nat (length (concat new)) < 2 ^ 16) as Hnb by (unfold size in *; lia).
  destruct (body_split m p a l1 l2 Ha E) as (Hused & _ & B).
  unfold RtlAddAce. rewrite (RtlValidAcl_known Ha Hk He), (RtlFirstFreeAce_run Ha).
  cbn [negb mbind option_bind]. rewrite Nat2Z.id, (u32_small (q + _)) by lia.
  rewrite (AddAceScan_run _ m q new R 0) by (done || lia). cbn [mbind option_bind].
  rewrite Z.ltb_irrefl, (AclSize_at Ha). cbn [mbind option_bind].
  rewrite (end_range Ha), (proj2 (Z.eqb_neq (p + used a) 0)) by lia. cbn [orb].
  rewrite (u32_small (p + used a + _)), (proj2 (Z.ltb_ge _ _)) by (unfold size in *; lia).
  rewrite (AceCount_at Ha). cbn [mbind option_bind].
  rewrite E, length_app, Z.min_l, Nat2Z.id, (start_range Ha), (SkipAces_to _ _ _ _ _ Ha E) by lia.
  cbn [mbind option_bind]. set (r := p + 8 + Z.of_nat (length (concat l1))) in *.
  assert (p + 8 <= r) as Hr by (unfold r; lia). rewrite u32_small by lia.
  replace (p + used a - r) with (Z.of_nat (length (concat l2))) by lia.
  assert (r + Z.of_nat (length (concat l2 ++ free a)) = p + size a) as Hend
    by (rewrite length_app; unfold size; lia).
  destruct (AddData_run m r q (concat l2) (concat new) (free a) B Hn Hfit)
    as (m1 & E1 & G1 & S1); [lia|lia|lia|].
  rewrite E1. cbn [mbind option_bind].
  assert (same_except m m1 r (p + size a - r)) as S1' by (eapply same_except_weaken; [exact S1|lia|lia]).
  destruct (close_add_ace m m1 p a r (0 + Z.of_nat (length new)) R Ha Hr S1' HR)
    as (m2 & -> & K1 & K2 & K3).
  exists m2. split; [done|].
  apply (acl_replace m m1 m2 p a l1 l2 (new ++ l2)); [done|done| | | |done| |exact K1| |exact K3].
  - apply Forall_app. split; [eapply Forall_impl; [exact Hkn|apply known_is_ace]|].
    pose proof (acl_aces _ _ _ Ha) as Hf. rewrite E, Forall_app in Hf. apply Hf.
  - rewrite concat_app, !length_app, length_drop. lia.
  - pose proof (acl_rev _ _ _ Ha). unfold MIN_ACL_REVISION, MAX_ACL_REVISION in *. lia.
  - fold r. by rewrite concat_app, <- app_assoc.
  - rewrite E, length_app in K2. rewrite !length_app.
    by replace (Z.of_nat (length l1 + (length new + length l2)))
      with (Z.of_nat (length l1 + length l2) + (0 + Z.of_nat (length new))) by lia.
Qed.
