(* ===== verification/AclClaims.v ===== *)
(** * Access control lists: properties

    What the operations of [src/sdk/lib/rtl/acl.c] do to the ACL as a list of ACEs, on a
    sample memory, and the places where the code departs from its comments. *)

From Stdlib Require Import ZArith Lia Bool.
From stdpp Require Import base option list numbers gmap.
From S2P Require Import Prelude Memory Sid SidProps Acl AclProps.
Open Scope Z_scope.

(** ** A sample memory *)

Definition everyone_ace : list Z := ace_bytes 0 0 (known_body 0x1F01FF everyone).
Definition admins_ace : list Z := ace_bytes 1 0 (known_body 0x10000000 administrators).

Definition sample_acl : acl := mkAcl 2 0 0 [everyone_ace] (replicate 48 0).

Definition acl_memory : mem :=
  list_to_map (zip (seqZ 100 12) (sid_bytes everyone) ++ zip (seqZ 200 16) (sid_bytes administrators)
               ++ zip (seqZ 300 24) admins_ace ++ zip (seqZ 400 12) (replicate 12 0xAA)
               ++ zip (seqZ 500 40) (replicate 40 0xBB) ++ zip (seqZ 1000 76) (acl_bytes sample_acl)).

Lemma everyone_good : good_sid everyone /\ good_sid administrators.
Proof. split; (split; [apply everyone_wf|split; [reflexivity|vm_compute; discriminate]]). Qed.

Lemma sample_known : known_ace everyone_ace /\ known_ace admins_ace.
Proof.
  split; [exists 0, 0, 0x1F01FF, everyone|exists 1, 0, 0x10000000, administrators];
    (split; [reflexivity|split; [unfold ACCESS_MAX_MS_V2_ACE_TYPE; lia|apply everyone_good]]).
Qed.

Lemma sample_acl_at : acl_at acl_memory 1000 sample_acl.
Proof.
  split.
  - vm_compute. split; [reflexivity|discriminate].
  - vm_compute. reflexivity.
  - vm_compute. split; discriminate.
  - repeat constructor. apply known_is_ace, sample_known.
  - vm_compute. repeat split; reflexivity.
  - vm_compute. reflexivity.
Qed.

Lemma sample_aces_known : Forall known_ace (aces sample_acl).
Proof. repeat constructor. apply sample_known. Qed.

Lemma sample_even : (2 | size sample_acl).
Proof. exists 38. reflexivity. Qed.

(** ** Sizes *)

Lemma size_mkAcl r b1 b2 l fr :
  size (mkAcl r b1 b2 l fr) = 8 + Z.of_nat (length (concat l)) + Z.of_nat (length fr).
Proof. reflexivity. Qed.

(** The ACL after an ACE was appended, inserted or deleted is as large as before, so it
    stays valid. *)
Lemma valid_after m p a r b1 b2 l fr :
  acl_at m p (mkAcl r b1 b2 l fr) -> Forall known_ace l -> (2 | size a) ->
  (length (concat l) + length fr = length (concat (aces a)) + length (free a))%nat ->
  RtlValidAcl m p = true.
Proof.
  intros Ha Hk He Hl. apply (RtlValidAcl_known Ha); [done|].
  rewrite size_mkAcl. unfold size, used in He.
  replace (8 + Z.of_nat (length (concat l)) + Z.of_nat (length fr))
    with (8 + Z.of_nat (length (concat (aces a))) + Z.of_nat (length (free a))) by lia. done.
Qed.

Lemma ROUND_UP_4 n : 0 <= n < 2 ^ 16 -> n <= ROUND_UP n 4 < n + 4 /\ (4 | ROUND_UP n 4).
Proof.
  intros Hn. unfold ROUND_UP. rewrite (u32_small n), (u32_small (n + 4 - 1)) by lia.
  rewrite (ROUND_DOWN_spec _ 2) by lia. change (2 ^ 2) with 4.
  pose proof (Z.div_mod (n + 4 - 1) 4). pose proof (Z.mod_pos_bound (n + 4 - 1) 4).
  split; [lia|]. exists ((n + 4 - 1) / 4). lia.
Qed.

(** ** Creating *)

(** All of the [n] bytes at [p] can be accessed. *)
Definition mapped (m : mem) (p n : Z) : Prop := forall q, p <= q < p + n -> is_Some (m !! q).

Lemma mapped_has m p n : mapped m p (Z.of_nat n) -> exists bs, has m p bs /\ length bs = n.
Proof.
  revert p. induction n as [|n IH]; intros p H; [by exists []|].
  destruct (H p) as [b Hb]; [lia|]. destruct (IH (p + 1)) as (bs & H1 & H2).
  { intros q Hq. apply H. lia. }
  exists (b :: bs). split; [by apply has_cons|]. simpl. lia.
Qed.

Lemma store_into m p n k q v :
  mapped m p n -> p <= q -> q + Z.of_nat k <= p + n ->
  exists m', store m q (enc k v) = Some m' /\ has m' q (enc k v) /\
    same_except m m' q (Z.of_nat k) /\ mapped m' p n.
Proof.
  intros H H1 H2. destruct (mapped_has m q k) as (bs & Hb & Hl).
  { intros r Hr. apply H. lia. }
  destruct (store_at m q bs (enc k v) Hb) as (m' & E & K1 & K2 & K3); [by rewrite length_enc|].
  subst k. exists m'. split_and!; [done|done|done|]. intros r Hr. apply K3, H, Hr.
Qed.

Lemma has_mapped m p bs : has m p bs -> mapped m p (Z.of_nat (length bs)).
Proof. intros H q Hq. by apply (has_is_Some m p bs). Qed.

(** The five stores of [RtlCreateAcl]. *)
Lemma create_header m p n R :
  mapped m p 8 -> is_byte R ->
  exists m', (m ← st16 m (p + 2) n; m ← st8 m p R; m ← st16 m (p + 4) 0; m ← st8 m (p + 1) 0;
              m ← st16 m (p + 6) 0; Some (STATUS_SUCCESS, m)) = Some (STATUS_SUCCESS, m') /\
    (m' !! p = Some R /\ m' !! (p + 1) = Some 0 /\ has m' (p + 2) (enc 2 n) /\
     has m' (p + 4) (enc 2 0) /\ has m' (p + 6) (enc 2 0)) /\
    same_except m m' p 8.
Proof.
  intros H HR. unfold st16, st8.
  destruct (store_into m p 8 2 (p + 2) n H) as (m1 & -> & G1 & S1 & H1); [lia|lia|].
  cbn [mbind option_bind].
  destruct (store_into m1 p 8 1 p R H1) as (m2 & -> & G2 & S2 & H2); [lia|lia|].
  cbn [mbind option_bind].
  destruct (store_into m2 p 8 2 (p + 4) 0 H2) as (m3 & -> & G3 & S3 & H3); [lia|lia|].
  cbn [mbind option_bind].
  destruct (store_into m3 p 8 1 (p + 1) 0 H3) as (m4 & -> & G4 & S4 & H4); [lia|lia|].
  cbn [mbind option_bind].
  destruct (store_into m4 p 8 2 (p + 6) 0 H4) as (m5 & -> & G5 & S5 & _); [lia|lia|].
  cbn [mbind option_bind]. exists m5. split; [done|]. split.
  - apply has_cons in G2 as [G2 _]. apply has_cons in G4 as [G4 _]. split_and!.
    + rewrite S5, S4, S3, G2 by lia. f_equal. by apply u8_small.
    + rewrite S5, G4 by lia. done.
    + assert (length (enc 2 n) = 2%nat) as L by apply length_enc.
      repeat (eapply has_frame; [|eassumption|lia]). exact G1.
    + assert (length (enc 2 0) = 2%nat) as L by apply length_enc.
      repeat (eapply has_frame; [|eassumption|lia]). exact G3.
    + exact G5.
  - intros r Hr. by rewrite S5, S4, S3, S2, S1 by lia.
Qed.

(** [RtlCreateAcl] refuses a buffer below the header size, a size above 65535 and an
    unknown revision; for a size up to 65532 it makes an empty valid ACL out of the
    memory, whose size is the given one rounded up to a multiple of 4, and changes only
    the header. *)
Theorem create_acl_empty m p old n R :
  has m p old -> 0 < p -> p + Z.of_nat (length old) + 2 ^ 16 <= 2 ^ 32 -> 0 <= n -> 0 <= R ->
  (n < 8 -> RtlCreateAcl m p n R = Some (STATUS_BUFFER_TOO_SMALL, m)) /\
  (8 <= n -> R < MIN_ACL_REVISION \/ MAX_ACL_REVISION < R \/ 0xFFFF < n ->
     RtlCreateAcl m p n R = Some (STATUS_INVALID_PARAMETER, m)) /\
  (8 <= n <= 0xFFFC -> MIN_ACL_REVISION <= R <= MAX_ACL_REVISION ->
   Z.of_nat (length old) = ROUND_UP n 4 -> exists m',
     RtlCreateAcl m p n R = Some (STATUS_SUCCESS, m') /\
     acl_at m' p (mkAcl R 0 0 [] (drop 8 old)) /\ RtlValidAcl m' p = true /\
     same_except m m' p 8).
Proof.
  intros Ho Hp Hend Hn HR. unfold RtlCreateAcl. split_and!.
  - intros H. by rewrite (proj2 (Z.ltb_lt _ _)).
  - intros H H'. rewrite (proj2 (Z.ltb_ge _ _)) by lia.
    unfold MIN_ACL_REVISION, MAX_ACL_REVISION in *. zcases; (done || lia).
  - intros H HR' Hl. destruct (ROUND_UP_4 n) as [U1 U2]; [lia|].
    assert (ROUND_UP n 4 < 2 ^ 16) as U3 by (destruct U2; lia).
    unfold MIN_ACL_REVISION, MAX_ACL_REVISION in *.
    rewrite !(proj2 (Z.ltb_ge _ _)) by lia. cbn [orb].
    destruct (create_header m p (ROUND_UP n 4) R) as (m' & E & Hh & S).
    { intros q Hq. apply (has_is_Some m p old); [done|lia]. }
    { unfold is_byte. lia. }
    assert (acl_at m' p (mkAcl R 0 0 [] (drop 8 old))) as Ha.
    { assert (size (mkAcl R 0 0 [] (drop 8 old)) = ROUND_UP n 4) as Hs
        by (rewrite size_mkAcl, length_drop; simpl; lia).
      split; rewrite ?Hs; [lia|lia|exact HR'|constructor|exact Hh|].
      rewrite <- (take_drop 8 old) in Ho. apply has_app in Ho as [_ Ho].
      rewrite length_take, Nat.min_l in Ho by lia. simpl.
      eapply has_frame; [exact Ho|exact S|lia]. }
    exists m'. split_and!; [exact E|exact Ha| |exact S].
    apply (RtlValidAcl_known Ha); [constructor|]. rewrite size_mkAcl, length_drop. simpl.
    destruct U2 as [z Hz]. exists (2 * z). lia.
Qed.

Lemma create_acl_empty_witness :
  exists m', RtlCreateAcl acl_memory 500 38 4 = Some (STATUS_SUCCESS, m') /\
    acl_at m' 500 (mkAcl 4 0 0 [] (replicate 32 0xBB)).
Proof.
  destruct (create_acl_empty acl_memory 500 (replicate 40 0xBB) 38 4) as (_ & _ & H).
  - vm_compute. reflexivity.
  - lia.
  - vm_compute. discriminate.
  - lia.
  - lia.
  - destruct H as (m' & E & K & _); [lia|vm_compute; split; discriminate|reflexivity|].
    exists m'. split; [exact E|exact K].
Defined.

(** C33: adding an ACE of the types 0 to 3 ([RtlpAddKnownAce], behind every [RtlAdd*Ace]
    without GUIDs) to a valid ACL appends an ACE with the given type, flags, mask and SID,
    raises the revision of the ACL to the one asked for, leaves the ACL valid and touches
    nothing outside of it; when the free space is too small nothing changes. *)
Theorem add_known_ace_appends m p a q s R f mask t :
  acl_at m p a -> Forall known_ace (aces a) -> (2 | size a) ->
  sid_at m q s -> good_sid s -> 0 <= R <= ACL_REVISION4 -> 0 <= t <= ACCESS_MAX_MS_V2_ACE_TYPE ->
  Z.land f (not32 (valid_flags t)) = 0 ->
  q + Z.of_nat (length (sid_bytes s)) <= p \/ p + size a <= q ->
  if (length (free a) <? 8 + length (sid_bytes s))%nat
  then RtlpAddKnownAce m p R f mask q t = Some (STATUS_ALLOTTED_SPACE_EXCEEDED, m)
  else exists m', RtlpAddKnownAce m p R f mask q t = Some (STATUS_SUCCESS, m') /\
    acl_at m' p (mkAcl (Z.max R (rev a)) (sbz1 a) (sbz2 a)
                       (aces a ++ [ace_bytes t (u8 f) (known_body mask s)])
                       (drop (8 + length (sid_bytes s)) (free a))) /\
    RtlValidAcl m' p = true /\ same_except m m' p (size a).
Proof.
  intros Ha Hk He Hs Hg HR Ht Hf Hd.
  pose proof (RtlpAddKnownAce_run m p a q s R f mask t Ha Hk He Hs Hg HR Ht Hf Hd) as H.
  cbn zeta in H. destruct (Nat.ltb_spec (length (free a)) (8 + length (sid_bytes s))) as [?|Hl]; [done|].
  destruct H as (m' & E & K & S). exists m'. split_and!; [done|exact K| |done].
  apply (valid_after m' p a _ _ _ _ _ K); [|done|].
  - apply Forall_app. split; [done|]. constructor; [|constructor]. by exists t, (u8 f), mask, s.
  - rewrite concat_snoc, length_app, length_drop. unfold known_body.
    rewrite length_ace_bytes, length_app, length_enc. lia.
Qed.

Lemma add_known_ace_appends_witness :
  exists m', RtlpAddKnownAce acl_memory 1000 2 0 0x10000000 200 1 = Some (STATUS_SUCCESS, m') /\
    acl_at m' 1000 (mkAcl 2 0 0 [everyone_ace; admins_ace] (replicate 24 0)).
Proof.
  destruct (add_known_ace_appends acl_memory 1000 sample_acl 200 administrators 2 0 0x10000000 1)
    as (m' & E & K & _).
  - apply sample_acl_at.
  - apply sample_aces_known.
  - apply sample_even.
  - split; [apply everyone_wf|vm_compute; reflexivity].
  - apply everyone_good.
  - vm_compute. split; discriminate.
  - vm_compute. split; discriminate.
  - reflexivity.
  - left. vm_compute. discriminate.
  - exists m'. split; [exact E|exact K].
Defined.

(** [RtlGetAce] finds the ACE with the given index, at the sum of the sizes before it,
    and refuses every other index. *)
Theorem get_ace_indexes m p a i :
  acl_at m p a -> 0 <= i ->
  match aces a !! Z.to_nat i with
  | None => RtlGetAce m p i = Some (STATUS_INVALID_PARAMETER, None)
  | Some x =>
      let q := p + 8 + Z.of_nat (length (concat (take (Z.to_nat i) (aces a)))) in
      RtlGetAce m p i = Some (STATUS_SUCCESS, Some q) /\ has m q x
  end.
Proof.
  intros Ha Hi. pose proof (acl_rev _ _ _ Ha) as Hr. pose proof (acl_bounds (a := a)) as Hb.
  unfold RtlGetAce. rewrite (AclRevision_at Ha). cbn [mbind option_bind].
  rewrite (proj2 (Z.ltb_ge _ _)), (proj2 (Z.ltb_ge _ _)) by apply Hr. cbn [orb].
  rewrite (AceCount_at Ha). cbn [mbind option_bind].
  destruct (aces a !! Z.to_nat i) as [x|] eqn:Ex.
  2: { apply lookup_ge_None in Ex. by rewrite (proj2 (Z.leb_le _ _)) by lia. }
  pose proof (lookup_lt_Some _ _ _ Ex) as Hlt. rewrite (proj2 (Z.leb_gt _ _)) by lia.
  rewrite (AclSize_at Ha). cbn [mbind option_bind]. rewrite (end_range Ha), (start_range Ha).
  set (l1 := take (Z.to_nat i) (aces a)). set (l2 := drop (S (Z.to_nat i)) (aces a)).
  assert (aces a = l1 ++ x :: l2) as E by (symmetry; by apply take_drop_middle).
  destruct (ace_here Ha _ _ _ E) as (Hx & Hh & Hu). apply is_ace_length in Hx.
  pose proof (GetAceLoop_run Ha [] l1 (x :: l2) E) as G. cbn [app concat length] in G.
  rewrite Z.add_0_r in G. replace (length l1) with (Z.to_nat i) in G by (unfold l1; rewrite length_take; lia).
  rewrite G. cbn [mbind option_bind orb]. rewrite (proj2 (Z.leb_gt _ _)) by lia. done.
Qed.

Lemma get_ace_indexes_witness :
  RtlGetAce acl_memory 1000 0 = Some (STATUS_SUCCESS, Some 1008) /\ has acl_memory 1008 everyone_ace.
Proof.
  apply (get_ace_indexes acl_memory 1000 sample_acl 0); [apply sample_acl_at|lia].
Defined.

(** C37: [RtlDeleteAce] removes exactly the ACE with the given index from a valid ACL, closes
    the gap, clears the released bytes, and leaves the ACL valid; an index past the end is
    refused and nothing changes. *)
Theorem delete_ace_removes m p a i :
  acl_at m p a -> Forall known_ace (aces a) -> (2 | size a) -> 0 <= i ->
  match aces a !! Z.to_nat i with
  | None => RtlDeleteAce m p i = Some (STATUS_INVALID_PARAMETER, m)
  | Some x => exists m', RtlDeleteAce m p i = Some (STATUS_SUCCESS, m') /\
      acl_at m' p (mkAcl (rev a) (sbz1 a) (sbz2 a) (delete (Z.to_nat i) (aces a))
                         (replicate (length x) 0 ++ free a)) /\
      RtlValidAcl m' p = true /\ same_except m m' p (size a)
  end.
Proof.
  intros Ha Hk He Hi. destruct (aces a !! Z.to_nat i) as [x|] eqn:Ex.
  2: { apply lookup_ge_None in Ex. unfold RtlDeleteAce.
       rewrite (RtlValidAcl_known Ha Hk He), (AceCount_at Ha). cbn [negb mbind option_bind].
       by rewrite (proj2 (Z.leb_le _ _)) by lia. }
  pose proof (lookup_lt_Some _ _ _ Ex) as Hlt. rewrite delete_take_drop.
  set (l1 := take (Z.to_nat i) (aces a)). set (l2 := drop (S (Z.to_nat i)) (aces a)).
  assert (aces a = l1 ++ x :: l2) as E by (symmetry; by apply take_drop_middle).
  destruct (RtlDeleteAce_run m p a l1 x l2 Ha Hk He E) as (m' & R & K & S).
  replace (Z.of_nat (length l1)) with i in R by (unfold l1; rewrite length_take; lia).
  exists m'. split_and!; [done|done| |done]. apply (valid_after m' p a _ _ _ _ _ K); [|done|].
  - rewrite E, Forall_app, Forall_cons in Hk. apply Forall_app. tauto.
  - rewrite E, !concat_app, !length_app, length_replicate. cbn [concat]. rewrite length_app. lia.
Qed.

Lemma delete_ace_removes_witness :
  exists m', RtlDeleteAce acl_memory 1000 0 = Some (STATUS_SUCCESS, m') /\
    acl_at m' 1000 (mkAcl 2 0 0 [] (replicate 68 0)).
Proof.
  destruct (delete_ace_removes acl_memory 1000 sample_acl 0) as (m' & E & K & _).
  - apply sample_acl_at.
  - apply sample_aces_known.
  - apply sample_even.
  - lia.
  - exists m'. split; [exact E|exact K].
Defined.

(** C36: [RtlAddAce] inserts a buffer of ACEs of the types 0 to 3 into a valid ACL before the
    ACE with index [StartingIndex] (at the end when that is their number), keeps the order
    of the others, sets the revision to the smaller of the two, and leaves the ACL valid;
    [RtlDeleteAce] with the same index then restores the list of ACEs when one ACE was
    inserted. *)
Theorem add_ace_inserts m p a i q new R :
  acl_at m p a -> Forall known_ace (aces a) -> (2 | size a) -> 0 <= i ->
  has m q (concat new) -> Forall known_ace new -> 0 <= q ->
  q + Z.of_nat (length (concat new)) < 2 ^ 32 -> MIN_ACL_REVISION <= R <= MAX_ACL_REVISION ->
  q + Z.of_nat (length (concat new)) <= p \/ p + size a <= q ->
  (length (concat new) <= length (free a))%nat -> i <= Z.of_nat (length (aces a)) ->
  exists m', RtlAddAce m p R i q (Z.of_nat (length (concat new))) = Some (STATUS_SUCCESS, m') /\
    acl_at m' p (mkAcl (Z.min (rev a) R) (sbz1 a) (sbz2 a)
                       (take (Z.to_nat i) (aces a) ++ new ++ drop (Z.to_nat i) (aces a))
                       (drop (length (concat new)) (free a))) /\
    RtlValidAcl m' p = true /\ same_except m m' p (size a) /\
    (length new = 1%nat -> exists m'' fr, RtlDeleteAce m' p i = Some (STATUS_SUCCESS, m'') /\
       acl_at m'' p (mkAcl (Z.min (rev a) R) (sbz1 a) (sbz2 a) (aces a) fr)).
Proof.
  intros Ha Hk He Hi Hn Hkn Hq Hqb HR Hd Hfit Hil.
  set (l1 := take (Z.to_nat i) (aces a)). set (l2 := drop (Z.to_nat i) (aces a)).
  assert (aces a = l1 ++ l2) as E by (symmetry; apply take_drop).
  assert (Z.of_nat (length l1) = i) as El by (unfold l1; rewrite length_take; lia).
  destruct (RtlAddAce_run m p a l1 l2 q new R Ha Hk He E Hn Hkn Hq Hqb HR Hd Hfit)
    as (m' & Er & K & S). rewrite El in Er.
  assert (Forall known_ace (l1 ++ new ++ l2)) as Hk'
    by (rewrite E, Forall_app in Hk; rewrite !Forall_app; tauto).
  assert (length (concat (l1 ++ new ++ l2)) + length (drop (length (concat new)) (free a))
    = length (concat (aces a)) + length (free a))%nat as Hlen.
  { rewrite E, !concat_app, !length_app, length_drop. lia. }
  exists m'. split_and!; [done|done|by apply (valid_after m' p a _ _ _ _ _ K)|done|].
  intros H1. destruct new as [|x [|]]; try done. cbn [app] in *.
  assert (2 | size (mkAcl (Z.min (rev a) R) (sbz1 a) (sbz2 a) (l1 ++ x :: l2)
    (drop (length (concat [x])) (free a)))) as He'.
  { rewrite size_mkAcl. unfold size, used in He. destruct He as [z Hz]. exists z. lia. }
  destruct (RtlDeleteAce_run m' p _ l1 x l2 K Hk' He' eq_refl) as (m'' & E2 & K2 & _).
  rewrite El in E2. rewrite E. eexists m'', _. split; [exact E2|exact K2].
Qed.

Lemma add_ace_inserts_witness :
  exists m', RtlAddAce acl_memory 1000 2 0 300 24 = Some (STATUS_SUCCESS, m') /\
    acl_at m' 1000 (mkAcl 2 0 0 [admins_ace; everyone_ace] (replicate 24 0)).
Proof.
  destruct (add_ace_inserts acl_memory 1000 sample_acl 0 300 [admins_ace] 2) as (m' & E & K & _).
  - apply sample_acl_at.
  - apply sample_aces_known.
  - apply sample_even.
  - lia.
  - vm_compute. reflexivity.
  - repeat constructor. apply sample_known.
  - lia.
  - vm_compute. reflexivity.
  - vm_compute. split; discriminate.
  - left. vm_compute. discriminate.
  - vm_compute. lia.
  - vm_compute. discriminate.
  - exists m'. split; [exact E|exact K].
Defined.

(** [RtlQueryInformationAcl] with the size class stores the number of ACEs, the bytes
    in use and the free bytes, and the two sum up to the size of the ACL; it stores nothing
    else. *)
Theorem query_information_sizes m p a q :
  acl_at m p a -> mapped m q 12 -> q + 12 <= p \/ p + size a <= q ->
  exists m', RtlQueryInformationAcl m p q 12 AclSizeInformation = Some (STATUS_SUCCESS, m') /\
    ld32 m' q = Some (Z.of_nat (length (aces a))) /\ ld32 m' (q + 4) = Some (used a) /\
    ld32 m' (q + 8) = Some (size a - used a) /\ same_except m m' q 12.
Proof.
  intros Ha Hq Hd. pose proof (acl_rev _ _ _ Ha) as Hr. pose proof (acl_bounds (a := a)) as Hb.
  pose proof (acl_pos _ _ _ Ha) as [Hp1 Hp2]. pose proof (acl_size _ _ _ Ha) as Hs.
  pose proof (acl_count_range Ha) as Hc.
  assert (forall m q v, 0 <= v < 2 ^ 32 -> has m q (enc 4 v) -> ld32 m q = Some v) as L32.
  { intros m0 q0 v Hv H0. unfold ld32. pose proof (length_enc 4 v) as Hlen. unfold has in H0.
    rewrite Hlen in H0. rewrite H0. simpl. by rewrite dec_enc. }
  unfold RtlQueryInformationAcl, st32. rewrite (AclRevision_at Ha). cbn [mbind option_bind].
  rewrite (proj2 (Z.ltb_ge _ _)), (proj2 (Z.ltb_ge _ _)) by apply Hr. cbn [orb].
  change (AclSizeInformation =? AclRevisionInformation) with false. rewrite Z.eqb_refl.
  change (12 <? 12) with false. cbn iota. rewrite (RtlFirstFreeAce_run Ha). cbn [mbind option_bind negb].
  rewrite (AceCount_at Ha). cbn [mbind option_bind].
  destruct (store_into m q 12 4 q (Z.of_nat (length (aces a))) Hq) as (m1 & -> & G1 & S1 & H1); [lia|lia|].
  cbn [mbind option_bind]. rewrite (proj2 (Z.eqb_neq (p + used a) 0)) by lia. cbn [negb].
  rewrite u32_small by lia. replace (p + used a - p) with (used a) by lia.
  destruct (store_into m1 q 12 4 (q + 4) (used a) H1) as (m2 & -> & G2 & S2 & H2); [lia|lia|].
  cbn [mbind option_bind].
  assert (AclSize m2 p = Some (size a)) as ->.
  { rewrite <- (AclSize_at Ha). unfold AclSize, ld16. simpl. by rewrite !S2, !S1 by lia. }
  cbn [mbind option_bind]. rewrite (L32 m2 (q + 4) (used a)) by (done || lia). cbn [mbind option_bind].
  rewrite u32_small by lia.
  destruct (store_into m2 q 12 4 (q + 8) (size a - used a) H2) as (m3 & -> & G3 & S3 & _); [lia|lia|].
  cbn [mbind option_bind]. exists m3. split; [done|]. split_and!.
  - apply L32; [lia|]. pose proof (length_enc 4 (Z.of_nat (length (aces a)))).
    repeat (eapply has_frame; [|eassumption|lia]). exact G1.
  - apply L32; [lia|]. pose proof (length_enc 4 (used a)).
    repeat (eapply has_frame; [|eassumption|lia]). exact G2.
  - apply L32; [lia|exact G3].
  - intros r Hr'. by rewrite S3, S2, S1 by lia.
Qed.

Lemma query_information_sizes_witness :
  exists m', RtlQueryInformationAcl acl_memory 1000 400 12 AclSizeInformation
               = Some (STATUS_SUCCESS, m') /\
    ld32 m' 404 = Some 28 /\ ld32 m' 408 = Some 48.
Proof.
  destruct (query_information_sizes acl_memory 1000 sample_acl 400) as (m' & E & _ & K1 & K2 & _).
  - apply sample_acl_at.
  - apply (has_mapped acl_memory 400 (replicate 12 0xAA)). vm_compute. reflexivity.
  - left. lia.
  - exists m'. split; [exact E|]. split; [exact K1|exact K2].
Defined.

(** ** Departures *)

(** An ACL at 1000 of sixteen bytes with one access allowed ACE of eight bytes, followed by
    the bytes of a SID without subauthorities. *)
Definition short_memory : mem :=
  list_to_map (zip (seqZ 1000 24)
    ([2; 0; 16; 0; 1; 0; 0; 0] ++ [0; 0; 8; 0] ++ [0; 0; 0; 0] ++ [1; 0; 0; 0; 0; 0; 0; 5])).
Definition long_memory : mem :=
  list_to_map (zip (seqZ 1000 28)
    ([2; 0; 20; 0; 1; 0; 0; 0] ++ [0; 0; 12; 0] ++ [0; 0; 0; 0] ++ [1; 0; 0; 0; 0; 0; 0; 5]
     ++ [0; 0; 0; 0])).

(** [RtlValidAcl] compares the size of an ACE with the header and the SID without the access
    mask between them, so it accepts an ACL whose last SID ends behind the ACL. *)
Theorem valid_acl_sid_outside :
  RtlValidAcl long_memory 1000 = true /\ AclSize long_memory 1000 = Some 20 /\
  (RtlLengthSid long_memory 1016 = Some 8 /\ 1000 + 20 < 1016 + 8) /\
  RtlValidAcl short_memory 1000 = false.
Proof. vm_compute. repeat split; reflexivity. Qed.

(** [RtlCreateAcl] rounds the size up: the ACL it makes can be larger than the buffer, and for
    65533 to 65535 bytes the stored size is 0, an ACL that [RtlValidAcl] refuses. *)
Theorem create_acl_rounds_up :
  (m ← RtlCreateAcl acl_memory 500 38 2; AclSize m.2 500) = Some 40 /\
  (m ← RtlCreateAcl acl_memory 500 0xFFFD 2; Some (m.1, AclSize m.2 500, RtlValidAcl m.2 500))
    = Some (STATUS_SUCCESS, Some 0, false).
Proof. vm_compute. split; reflexivity. Qed.

(** [RtlSetInformationAcl] bounds the new revision only from below: revision 258 is accepted,
    the low byte 2 is stored, and 5 makes the ACL invalid. *)
Theorem set_information_unbounded :
  (m ← st32 acl_memory 400 258; r ← RtlSetInformationAcl m 1000 400 4 AclRevisionInformation;
   v ← AclRevision r.2 1000; Some (r.1, v, RtlValidAcl r.2 1000)) = Some (STATUS_SUCCESS, 2, true) /\
  (m ← st32 acl_memory 400 5; r ← RtlSetInformationAcl m 1000 400 4 AclRevisionInformation;
   v ← AclRevision r.2 1000; Some (r.1, v, RtlValidAcl r.2 1000)) = Some (STATUS_SUCCESS, 5, false).
Proof. vm_compute. split; reflexivity. Qed.

(** The scan of [RtlAddAce] over the new ACEs does not end when an ACE has size 0. *)
Theorem add_ace_zero_size_loops m q n c R fuel :
  has m q [0; 0; 0; 0] -> 0 <= q < 2 ^ 32 -> q < n -> AddAceScan fuel m R n q c = None.
Proof.
  intros H Hq Hn. apply has_cons in H as [H0 H]. apply has_cons in H as [_ H].
  replace (q + 1 + 1) with (q + 2) in H by lia. revert c.
  induction fuel as [|fuel IH]; intros c; cbn [AddAceScan]; rewrite (proj2 (Z.ltb_lt _ _)) by done; [done|].
  unfold AceType. rewrite (ld8_lookup _ _ _ H0). cbn [mbind option_bind].
  change (ACCESS_MAX_MS_V3_ACE_TYPE <? 0) with false.
  change (ACCESS_MAX_MS_V2_ACE_TYPE <? 0) with false. rewrite andb_false_r.
  unfold AceSize, ld16. unfold has in H. cbn [length] in H. rewrite H. cbn [fmap option_fmap option_map].
  change (dec [0; 0]) with 0. cbn [mbind option_bind]. rewrite Z.add_0_r, u32_small by done. apply IH.
Qed.

Lemma add_ace_zero_size_loops_witness :
  forall fuel, AddAceScan fuel (list_to_map (zip (seqZ 300 4) [0; 0; 0; 0])) 2 304 300 0 = None.
Proof.
  intros fuel. apply add_ace_zero_size_loops; [vm_compute; reflexivity|lia|lia].
Defined.
