(* ===== verification/Sd.v ===== *)
(** * Security descriptors (sdk/lib/rtl/sd.c)

    A security descriptor is a structure of twenty bytes: revision, a byte for the resource
    manager, the 16-bit control word, and four 32-bit words for owner, group, SACL and DACL,
    pointers in an absolute descriptor and offsets from its start in a self-relative one.  In
    the 32-bit build both forms have the same layout.  The inline readers are from
    [ntoskrnl/include/internal/se.h].  Out parameters are results; NULL is 0. *)

From Stdlib Require Import ZArith Lia Bool.
From stdpp Require Import base option list numbers gmap.
From S2P Require Import Prelude Memory Sid Acl.
Open Scope Z_scope.

Definition SECURITY_DESCRIPTOR_REVISION : Z := 1.

Definition SE_OWNER_DEFAULTED : Z := 0x0001.
Definition SE_GROUP_DEFAULTED : Z := 0x0002.
Definition SE_DACL_PRESENT : Z := 0x0004.
Definition SE_DACL_DEFAULTED : Z := 0x0008.
Definition SE_SACL_PRESENT : Z := 0x0010.
Definition SE_SACL_DEFAULTED : Z := 0x0020.
Definition SE_DACL_UNTRUSTED : Z := 0x0040.
Definition SE_SERVER_SECURITY : Z := 0x0080.
Definition SE_DACL_AUTO_INHERIT_REQ : Z := 0x0100.
Definition SE_SACL_AUTO_INHERIT_REQ : Z := 0x0200.
Definition SE_DACL_AUTO_INHERITED : Z := 0x0400.
Definition SE_SACL_AUTO_INHERITED : Z := 0x0800.
Definition SE_DACL_PROTECTED : Z := 0x1000.
Definition SE_SACL_PROTECTED : Z := 0x2000.
Definition SE_RM_CONTROL_VALID : Z := 0x4000.
Definition SE_SELF_RELATIVE : Z := 0x8000.

Definition OWNER_SECURITY_INFORMATION : Z := 1.
Definition GROUP_SECURITY_INFORMATION : Z := 2.

Definition sizeof_SECURITY_DESCRIPTOR : Z := 20.
Definition sizeof_SID : Z := 12.
Definition sizeof_ACL : Z := 8.

(** The members of the structure. *)
Definition SdRevision (m : mem) (Sd : Z) : option Z := ld8 m Sd.
Definition SdSbz1 (m : mem) (Sd : Z) : option Z := ld8 m (Sd + 1).
Definition SdControl (m : mem) (Sd : Z) : option Z := ld16 m (Sd + 2).
Definition SdOwner (m : mem) (Sd : Z) : option Z := ld32 m (Sd + 4).
Definition SdGroup (m : mem) (Sd : Z) : option Z := ld32 m (Sd + 8).
Definition SdSacl (m : mem) (Sd : Z) : option Z := ld32 m (Sd + 12).
Definition SdDacl (m : mem) (Sd : Z) : option Z := ld32 m (Sd + 16).

(** [Control & Flag] as a condition. *)
Definition flag (Control Flag : Z) : bool := negb (Z.land Control Flag =? 0).

(** [Sd->Control &= ~Clear; Sd->Control |= Set]. *)
Definition ClearControl (m : mem) (Sd Clear : Z) : option mem :=
  Control ← SdControl m Sd; st16 m (Sd + 2) (Z.land Control (Z.lnot Clear)).
Definition SetControl (m : mem) (Sd Set_ : Z) : option mem :=
  Control ← SdControl m Sd; st16 m (Sd + 2) (Z.lor Control Set_).

(** ** Reading a descriptor *)

(** The pointer for the word of a member. *)
Definition Target (Control Sd word : Z) : Z :=
  if flag Control SE_SELF_RELATIVE then if word =? 0 then 0 else u32 (Sd + word) else word.

Definition SepGetGroupFromDescriptor (m : mem) (Sd : Z) : option Z :=
  Control ← SdControl m Sd; word ← SdGroup m Sd; Some (Target Control Sd word).

Definition SepGetOwnerFromDescriptor (m : mem) (Sd : Z) : option Z :=
  Control ← SdControl m Sd; word ← SdOwner m Sd; Some (Target Control Sd word).

Definition SepGetDaclFromDescriptor (m : mem) (Sd : Z) : option Z :=
  Control ← SdControl m Sd;
  if negb (flag Control SE_DACL_PRESENT) then Some 0 else
  word ← SdDacl m Sd; Some (Target Control Sd word).

Definition SepGetSaclFromDescriptor (m : mem) (Sd : Z) : option Z :=
  Control ← SdControl m Sd;
  if negb (flag Control SE_SACL_PRESENT) then Some 0 else
  word ← SdSacl m Sd; Some (Target Control Sd word).

(** The BOOLEAN and [*MaxLength]. *)
Definition RtlpValidateSDOffsetAndSize (Offset Length MinLength : Z) : bool * Z :=
  if Offset <? sizeof_SECURITY_DESCRIPTOR then (false, 0) else
  if Length <=? Offset then (false, 0) else
  if u32 (Length - Offset) <? MinLength then (false, 0) else
  if negb (ROUND_DOWN Offset 4 =? Offset) then (false, 0) else
  (true, u32 (Length - Offset)).

(** The size of a SID or an ACL that a pointer leads to, aligned. *)
Definition SidSize (m : mem) (Sid : Z) : option Z :=
  if negb (Sid =? 0) then n ← RtlLengthSid m Sid; Some (ROUND_UP n 4) else Some 0.
Definition AclAlignedSize (m : mem) (Acl : Z) : option Z :=
  if negb (Acl =? 0) then n ← AclSize m Acl; Some (ROUND_UP n 4) else Some 0.

(** The pointers and sizes of owner, group, DACL and SACL. *)
Definition RtlpQuerySecurityDescriptor (m : mem) (Sd : Z)
    : option ((Z * Z) * (Z * Z) * (Z * Z) * (Z * Z)) :=
  Owner ← SepGetOwnerFromDescriptor m Sd;
  OwnerSize ← SidSize m Owner;
  PrimaryGroup ← SepGetGroupFromDescriptor m Sd;
  PrimaryGroupSize ← SidSize m PrimaryGroup;
  Dacl ← SepGetDaclFromDescriptor m Sd;
  DaclSize ← AclAlignedSize m Dacl;
  Sacl ← SepGetSaclFromDescriptor m Sd;
  SaclSize ← AclAlignedSize m Sacl;
  Some ((Owner, OwnerSize), (PrimaryGroup, PrimaryGroupSize), (Dacl, DaclSize), (Sacl, SaclSize)).

(** ** Creating and measuring *)

Definition RtlCreateSecurityDescriptor (m : mem) (Sd Revision : Z) : option (NTSTATUS * mem) :=
  if negb (Revision =? SECURITY_DESCRIPTOR_REVISION) then Some (STATUS_UNKNOWN_REVISION, m) else
  m ← RtlZeroMemory m Sd sizeof_SECURITY_DESCRIPTOR;
  m ← st8 m Sd SECURITY_DESCRIPTOR_REVISION;
  Some (STATUS_SUCCESS, m).

Definition RtlCreateSecurityDescriptorRelative (m : mem) (Sd Revision : Z)
    : option (NTSTATUS * mem) :=
  if negb (Revision =? SECURITY_DESCRIPTOR_REVISION) then Some (STATUS_UNKNOWN_REVISION, m) else
  m ← RtlZeroMemory m Sd sizeof_SECURITY_DESCRIPTOR;
  m ← st8 m Sd SECURITY_DESCRIPTOR_REVISION;
  m ← st16 m (Sd + 2) SE_SELF_RELATIVE;
  Some (STATUS_SUCCESS, m).

Definition RtlLengthSecurityDescriptor (m : mem) (Sd : Z) : option Z :=
  Control ← SdControl m Sd;
  let Length := sizeof_SECURITY_DESCRIPTOR in
  Owner ← SepGetOwnerFromDescriptor m Sd;
  n ← SidSize m Owner;
  let Length := u32 (Length + n) in
  Group ← SepGetGroupFromDescriptor m Sd;
  n ← SidSize m Group;
  let Length := u32 (Length + n) in
  Dacl ← SepGetDaclFromDescriptor m Sd;
  n ← AclAlignedSize m Dacl;
  let Length := u32 (Length + n) in
  Sacl ← SepGetSaclFromDescriptor m Sd;
  n ← AclAlignedSize m Sacl;
  Some (u32 (Length + n)).

(** ** Getting members *)

(** The status, and present, pointer and defaulted; pointer and defaulted are not written when
    there is no ACL. *)
Definition RtlGetDaclSecurityDescriptor (m : mem) (Sd : Z)
    : option (NTSTATUS * option (bool * option (Z * bool))) :=
  Revision ← SdRevision m Sd;
  if negb (Revision =? SECURITY_DESCRIPTOR_REVISION) then Some (STATUS_UNKNOWN_REVISION, None) else
  Control ← SdControl m Sd;
  if flag Control SE_DACL_PRESENT then
    Dacl ← SepGetDaclFromDescriptor m Sd;
    Some (STATUS_SUCCESS, Some (true, Some (Dacl, flag Control SE_DACL_DEFAULTED)))
  else Some (STATUS_SUCCESS, Some (false, None)).

Definition RtlGetSaclSecurityDescriptor (m : mem) (Sd : Z)
    : option (NTSTATUS * option (bool * option (Z * bool))) :=
  Revision ← SdRevision m Sd;
  if negb (Revision =? SECURITY_DESCRIPTOR_REVISION) then Some (STATUS_UNKNOWN_REVISION, None) else
  Control ← SdControl m Sd;
  if flag Control SE_SACL_PRESENT then
    Sacl ← SepGetSaclFromDescriptor m Sd;
    Some (STATUS_SUCCESS, Some (true, Some (Sacl, flag Control SE_SACL_DEFAULTED)))
  else Some (STATUS_SUCCESS, Some (false, None)).

Definition RtlGetOwnerSecurityDescriptor (m : mem) (Sd : Z) : option (NTSTATUS * option (Z * bool)) :=
  Revision ← SdRevision m Sd;
  if negb (Revision =? SECURITY_DESCRIPTOR_REVISION) then Some (STATUS_UNKNOWN_REVISION, None) else
  Owner ← SepGetOwnerFromDescriptor m Sd;
  Control ← SdControl m Sd;
  Some (STATUS_SUCCESS, Some (Owner, flag Control SE_OWNER_DEFAULTED)).

Definition RtlGetGroupSecurityDescriptor (m : mem) (Sd : Z) : option (NTSTATUS * option (Z * bool)) :=
  Revision ← SdRevision m Sd;
  if negb (Revision =? SECURITY_DESCRIPTOR_REVISION) then Some (STATUS_UNKNOWN_REVISION, None) else
  Group ← SepGetGroupFromDescriptor m Sd;
  Control ← SdControl m Sd;
  Some (STATUS_SUCCESS, Some (Group, flag Control SE_GROUP_DEFAULTED)).

(** The status, [*Control] (if it is written) and [*Revision]. *)
Definition RtlGetControlSecurityDescriptor (m : mem) (Sd : Z) : option (NTSTATUS * option Z * Z) :=
  Revision ← SdRevision m Sd;
  if negb (Revision =? SECURITY_DESCRIPTOR_REVISION)
  then Some (STATUS_UNKNOWN_REVISION, None, Revision) else
  Control ← SdControl m Sd;
  Some (STATUS_SUCCESS, Some Control, Revision).

(** ** Setting members *)

(** The checks that the functions that set a member start with. *)
Definition SetChecks (m : mem) (Sd : Z) : option NTSTATUS :=
  Revision ← SdRevision m Sd;
  if negb (Revision =? SECURITY_DESCRIPTOR_REVISION) then Some STATUS_UNKNOWN_REVISION else
  Control ← SdControl m Sd;
  Some (if flag Control SE_SELF_RELATIVE then STATUS_INVALID_SECURITY_DESCR else STATUS_SUCCESS).

Definition SetDefaulted (m : mem) (Sd Flag : Z) (Defaulted : bool) : option mem :=
  m ← ClearControl m Sd Flag;
  if Defaulted then SetControl m Sd Flag else Some m.

Definition RtlSetDaclSecurityDescriptor (m : mem) (Sd : Z) (DaclPresent : bool) (Dacl : Z)
    (DaclDefaulted : bool) : option (NTSTATUS * mem) :=
  Status ← SetChecks m Sd;
  if negb (Status =? STATUS_SUCCESS) then Some (Status, m) else
  if negb DaclPresent then m ← ClearControl m Sd SE_DACL_PRESENT; Some (STATUS_SUCCESS, m) else
  m ← st32 m (Sd + 16) Dacl;
  m ← SetControl m Sd SE_DACL_PRESENT;
  m ← SetDefaulted m Sd SE_DACL_DEFAULTED DaclDefaulted;
  Some (STATUS_SUCCESS, m).

Definition RtlSetSaclSecurityDescriptor (m : mem) (Sd : Z) (SaclPresent : bool) (Sacl : Z)
    (SaclDefaulted : bool) : option (NTSTATUS * mem) :=
  Status ← SetChecks m Sd;
  if negb (Status =? STATUS_SUCCESS) then Some (Status, m) else
  if negb SaclPresent then m ← ClearControl m Sd SE_SACL_PRESENT; Some (STATUS_SUCCESS, m) else
  m ← st32 m (Sd + 12) Sacl;
  m ← SetControl m Sd SE_SACL_PRESENT;
  m ← SetDefaulted m Sd SE_SACL_DEFAULTED SaclDefaulted;
  Some (STATUS_SUCCESS, m).

Definition RtlSetOwnerSecurityDescriptor (m : mem) (Sd Owner : Z) (OwnerDefaulted : bool)
    : option (NTSTATUS * mem) :=
  Status ← SetChecks m Sd;
  if negb (Status =? STATUS_SUCCESS) then Some (Status, m) else
  m ← st32 m (Sd + 4) Owner;
  m ← SetDefaulted m Sd SE_OWNER_DEFAULTED OwnerDefaulted;
  Some (STATUS_SUCCESS, m).

Definition RtlSetGroupSecurityDescriptor (m : mem) (Sd Group : Z) (GroupDefaulted : bool)
    : option (NTSTATUS * mem) :=
  Status ← SetChecks m Sd;
  if negb (Status =? STATUS_SUCCESS) then Some (Status, m) else
  m ← st32 m (Sd + 8) Group;
  m ← SetDefaulted m Sd SE_GROUP_DEFAULTED GroupDefaulted;
  Some (STATUS_SUCCESS, m).

(** The control bits that can be set directly. *)
Definition AttributeBits : Z :=
  Z.lor SE_DACL_UNTRUSTED (Z.lor SE_SERVER_SECURITY (Z.lor SE_DACL_AUTO_INHERIT_REQ
    (Z.lor SE_SACL_AUTO_INHERIT_REQ (Z.lor SE_DACL_AUTO_INHERITED (Z.lor SE_SACL_AUTO_INHERITED
      (Z.lor SE_DACL_PROTECTED SE_SACL_PROTECTED)))))).

Definition RtlSetControlSecurityDescriptor (m : mem) (Sd ControlBitsOfInterest ControlBitsToSet : Z)
    : option (NTSTATUS * mem) :=
  if negb (Z.land ControlBitsOfInterest (Z.lnot AttributeBits) =? 0) ||
     negb (Z.land ControlBitsToSet (Z.lnot ControlBitsOfInterest) =? 0)
  then Some (STATUS_INVALID_PARAMETER, m) else
  m ← ClearControl m Sd ControlBitsOfInterest;
  m ← SetControl m Sd (Z.land ControlBitsToSet ControlBitsOfInterest);
  Some (STATUS_SUCCESS, m).

(** The BOOLEAN and [*RMControl]. *)
Definition RtlGetSecurityDescriptorRMControl (m : mem) (Sd : Z) : option (bool * Z) :=
  Control ← SdControl m Sd;
  if negb (flag Control SE_RM_CONTROL_VALID) then Some (false, 0) else
  Sbz1 ← SdSbz1 m Sd;
  Some (true, Sbz1).

Definition RtlSetSecurityDescriptorRMControl (m : mem) (Sd RMControl : Z) : option mem :=
  if RMControl =? 0 then
    m ← ClearControl m Sd SE_RM_CONTROL_VALID;
    st8 m (Sd + 1) 0
  else
    m ← SetControl m Sd SE_RM_CONTROL_VALID;
    v ← ld8 m RMControl;
    st8 m (Sd + 1) v.

(** The status, the memory and [*Revision]. *)
Definition RtlSetAttributesSecurityDescriptor (m : mem) (Sd Control : Z)
    : option (NTSTATUS * mem * Z) :=
  Revision ← SdRevision m Sd;
  if negb (Revision =? SECURITY_DESCRIPTOR_REVISION)
  then Some (STATUS_UNKNOWN_REVISION, m, Revision) else
  let Control := Z.land Control AttributeBits in
  '(Status, m) ← RtlSetControlSecurityDescriptor m Sd Control Control;
  Some (Status, m, Revision).

(** ** Copying and converting *)

(** The status, the memory and [*pDestinationSecurityDescriptor]. *)
Definition RtlCopySecurityDescriptor `{ByteAllocator} (m : mem) (Sd : Z)
    : option (NTSTATUS * mem * Z) :=
  '((_, OwnerLength), (_, GroupLength), (_, DaclLength), (_, SaclLength))
    ← RtlpQuerySecurityDescriptor m Sd;
  let TotalLength :=
    u32 (sizeof_SECURITY_DESCRIPTOR + OwnerLength + GroupLength + DaclLength + SaclLength) in
  match balloc m TotalLength with
  | None => Some (STATUS_NO_MEMORY, m, 0)
  | Some Destination =>
      let m := map_bytes (Z.to_nat TotalLength) Destination garbage m in
      m ← RtlCopyMemory m Destination Sd TotalLength;
      Some (STATUS_SUCCESS, m, Destination)
  end.

(** One component of [RtlMakeSelfRelativeSD]: copied to [Current], its offset stored in the
    member at [Member]; the result is the next [Current]. *)
Definition CopyComponent (m : mem) (RelSd Current Source Length Member : Z) : option (mem * Z) :=
  if negb (Length =? 0) then
    m ← RtlCopyMemory m Current Source Length;
    m ← st32 m (RelSd + Member) (u32 (Current - RelSd));
    Some (m, u32 (Current + Length))
  else Some (m, Current).

(** The status, the memory and [*BufferLength]. *)
Definition RtlMakeSelfRelativeSD (m : mem) (Sd RelSd BufferLength : Z)
    : option (NTSTATUS * mem * Z) :=
  '((Owner, OwnerLength), (Group, GroupLength), (Dacl, DaclLength), (Sacl, SaclLength))
    ← RtlpQuerySecurityDescriptor m Sd;
  let TotalLength :=
    u32 (sizeof_SECURITY_DESCRIPTOR + OwnerLength + GroupLength + SaclLength + DaclLength) in
  if BufferLength <? TotalLength then Some (STATUS_BUFFER_TOO_SMALL, m, TotalLength) else
  m ← RtlZeroMemory m RelSd TotalLength;
  m ← RtlCopyMemory m RelSd Sd 4;
  let Current := u32 (RelSd + sizeof_SECURITY_DESCRIPTOR) in
  '(m, Current) ← CopyComponent m RelSd Current Sacl SaclLength 12;
  '(m, Current) ← CopyComponent m RelSd Current Dacl DaclLength 16;
  '(m, Current) ← CopyComponent m RelSd Current Owner OwnerLength 4;
  '(m, _) ← CopyComponent m RelSd Current Group GroupLength 8;
  m ← SetControl m RelSd SE_SELF_RELATIVE;
  Some (STATUS_SUCCESS, m, BufferLength).

Definition RtlAbsoluteToSelfRelativeSD (m : mem) (Sd RelSd BufferLength : Z)
    : option (NTSTATUS * mem * Z) :=
  Control ← SdControl m Sd;
  if flag Control SE_SELF_RELATIVE then Some (STATUS_BAD_DESCRIPTOR_FORMAT, m, BufferLength) else
  RtlMakeSelfRelativeSD m Sd RelSd BufferLength.

(** The sizes of the descriptor, DACL, SACL, owner and group that
    [RtlSelfRelativeToAbsoluteSD] is given and returns. *)
Record sd_sizes := mkSizes {
  AbsoluteSDSize : Z; DaclSize : Z; SaclSize : Z; OwnerSize : Z; PrimaryGroupSize : Z
}.

(** A SID or an ACL that [RtlSelfRelativeToAbsoluteSD] copies; [n] is its length. *)
Definition MoveComponent (m : mem) (Sd Source Destination : Z) (n : mem -> Z -> option Z)
    (Member : Z) : option mem :=
  if negb (Source =? 0) then
    length ← n m Source;
    m ← RtlMoveMemory m Destination Source length;
    st32 m (Sd + Member) Destination
  else Some m.

Definition RtlSelfRelativeToAbsoluteSD (m : mem) (RelSd Sd Dacl Sacl Owner PrimaryGroup : Z)
    (sizes : sd_sizes) : option (NTSTATUS * mem * sd_sizes) :=
  Control ← SdControl m RelSd;
  if negb (flag Control SE_SELF_RELATIVE) then Some (STATUS_BAD_DESCRIPTOR_FORMAT, m, sizes) else
  '((pOwner, OwnerLength), (pGroup, GroupLength), (pDacl, DaclLength), (pSacl, SaclLength))
    ← RtlpQuerySecurityDescriptor m RelSd;
  if (Sd =? 0) || (AbsoluteSDSize sizes <? sizeof_SECURITY_DESCRIPTOR) ||
     (OwnerSize sizes <? OwnerLength) || (PrimaryGroupSize sizes <? GroupLength) ||
     (DaclSize sizes <? DaclLength) || (SaclSize sizes <? SaclLength)
  then Some (STATUS_BUFFER_TOO_SMALL, m,
    mkSizes sizeof_SECURITY_DESCRIPTOR DaclLength SaclLength OwnerLength GroupLength) else
  m ← RtlMoveMemory m Sd RelSd sizeof_SECURITY_DESCRIPTOR;
  m ← st32 m (Sd + 4) 0;
  m ← st32 m (Sd + 8) 0;
  m ← st32 m (Sd + 12) 0;
  m ← st32 m (Sd + 16) 0;
  m ← ClearControl m Sd SE_SELF_RELATIVE;
  m ← MoveComponent m Sd pOwner Owner RtlLengthSid 4;
  m ← MoveComponent m Sd pGroup PrimaryGroup RtlLengthSid 8;
  m ← MoveComponent m Sd pDacl Dacl AclSize 16;
  m ← MoveComponent m Sd pSacl Sacl AclSize 12;
  Some (STATUS_SUCCESS, m, sizes).

(** In the 32-bit build both forms have the same size; [BufferSize] is the pointer argument. *)
Definition RtlSelfRelativeToAbsoluteSD2 (m : mem) (Sd BufferSize : Z) : option (NTSTATUS * mem) :=
  if Sd =? 0 then Some (STATUS_INVALID_PARAMETER_1, m) else
  if BufferSize =? 0 then Some (STATUS_INVALID_PARAMETER_2, m) else
  Control ← SdControl m Sd;
  if negb (flag Control SE_SELF_RELATIVE) then Some (STATUS_BAD_DESCRIPTOR_FORMAT, m) else
  '((pOwner, _), (pGroup, _), (pDacl, _), (pSacl, _)) ← RtlpQuerySecurityDescriptor m Sd;
  m ← ClearControl m Sd SE_SELF_RELATIVE;
  m ← st32 m (Sd + 4) pOwner;
  m ← st32 m (Sd + 8) pGroup;
  m ← st32 m (Sd + 12) pSacl;
  m ← st32 m (Sd + 16) pDacl;
  Some (STATUS_SUCCESS, m).

(** ** Validity *)

(** A fault is an exception that the function answers with FALSE. *)
Definition RtlValidSecurityDescriptor (m : mem) (Sd : Z) : bool :=
  let valid :=
    Revision ← SdRevision m Sd;
    if negb (Revision =? SECURITY_DESCRIPTOR_REVISION) then Some false else
    Owner ← SepGetOwnerFromDescriptor m Sd;
    if negb (Owner =? 0) && negb (RtlValidSid m Owner) then Some false else
    Group ← SepGetGroupFromDescriptor m Sd;
    if negb (Group =? 0) && negb (RtlValidSid m Group) then Some false else
    Dacl ← SepGetDaclFromDescriptor m Sd;
    if negb (Dacl =? 0) && negb (RtlValidAcl m Dacl) then Some false else
    Sacl ← SepGetSaclFromDescriptor m Sd;
    if negb (Sacl =? 0) && negb (RtlValidAcl m Sacl) then Some false else
    Some true in
  default false valid.

(** A SID member: valid and inside of the buffer, or missing and not required. *)
Definition ValidRelativeSid (m : mem) (Sd Offset Length : Z) (Required : bool) : option bool :=
  if negb (Offset =? 0) then
    let '(ok, MaxLength) := RtlpValidateSDOffsetAndSize Offset Length sizeof_SID in
    if negb ok then Some false else
    let Sid := u32 (Offset + Sd) in
    if negb (RtlValidSid m Sid) then Some false else
    n ← RtlLengthSid m Sid;
    Some (negb (MaxLength <? n))
  else Some (negb Required).

(** The ACL whose member is at [Member], if it is present: valid and inside of the buffer. *)
Definition ValidRelativeAcl (m : mem) (Sd Member Length : Z) (Present : bool) : option bool :=
  if Present then
    Offset ← ld32 m (Sd + Member);
    let '(ok, MaxLength) := RtlpValidateSDOffsetAndSize Offset Length sizeof_ACL in
    if negb ok then Some false else
    let Acl := u32 (Offset + Sd) in
    if negb (RtlValidAcl m Acl) then Some false else
    n ← AclSize m Acl;
    Some (negb (MaxLength <? n))
  else Some true.

Definition RtlValidRelativeSecurityDescriptor (m : mem) (Sd Length RequiredInformation : Z)
    : option bool :=
  if Length <? sizeof_SECURITY_DESCRIPTOR then Some false else
  Revision ← SdRevision m Sd;
  if negb (Revision =? SECURITY_DESCRIPTOR_REVISION) then Some false else
  Control ← SdControl m Sd;
  if negb (flag Control SE_SELF_RELATIVE) then Some false else
  Owner ← SdOwner m Sd;
  ok ← ValidRelativeSid m Sd Owner Length (flag RequiredInformation OWNER_SECURITY_INFORMATION);
  if negb ok then Some false else
  Group ← SdGroup m Sd;
  ok ← ValidRelativeSid m Sd Group Length (flag RequiredInformation GROUP_SECURITY_INFORMATION);
  if negb ok then Some false else
  ok ← ValidRelativeAcl m Sd 16 Length (flag Control SE_DACL_PRESENT);
  if negb ok then Some false else
  ValidRelativeAcl m Sd 12 Length (flag Control SE_SACL_PRESENT).
