(* ===== verification/SdProps.v ===== *)
(** * Security descriptors: their contents and the conversions between the two forms

    [sd_in m p v w] says that the structure at [p] with the four words [w] is the security
    descriptor [v]: its control word, and the SIDs and ACLs that the words lead to. *)

From Stdlib Require Import ZArith Lia Bool.
From stdpp Require Import base option list numbers gmap.
From S2P Require Import Prelude Memory Sid SidProps Acl AclProps Sd.
Open Scope Z_scope.

(** ** Descriptors as values *)

Record descriptor := mkSd {
  sbz : Z; control : Z; owner : option sid; group : option sid; sacl : option acl; dacl : option acl
}.

Record words := mkWords { wowner : Z; wgroup : Z; wsacl : Z; wdacl : Z }.

Definition sd_bytes (v : descriptor) (w : words) : list Z :=
  [SECURITY_DESCRIPTOR_REVISION; sbz v] ++ enc 2 (control v) ++
  enc 4 (wowner w) ++ enc 4 (wgroup w) ++ enc 4 (wsacl w) ++ enc 4 (wdacl w).

(** Where the words lead. *)
Definition owner_ptr (p : Z) (v : descriptor) (w : words) : Z := Target (control v) p (wowner w).
Definition group_ptr (p : Z) (v : descriptor) (w : words) : Z := Target (control v) p (wgroup w).
Definition sacl_ptr (p : Z) (v : descriptor) (w : words) : Z :=
  if flag (control v) SE_SACL_PRESENT then Target (control v) p (wsacl w) else 0.
Definition dacl_ptr (p : Z) (v : descriptor) (w : words) : Z :=
  if flag (control v) SE_DACL_PRESENT then Target (control v) p (wdacl w) else 0.

(** A component at an address: no component is the null pointer. *)
Definition sid_part (m : mem) (q : Z) (o : option sid) : Prop :=
  match o with
  | None => q = 0
  | Some s => 0 < q /\ q + Z.of_nat (length (sid_bytes s)) <= 2 ^ 32 /\ sid_at m q s
  end.

Definition acl_part (m : mem) (q : Z) (o : option acl) : Prop :=
  match o with
  | None => q = 0
  | Some a => acl_at m q a
  end.

Definition is_word (z : Z) : Prop := 0 <= z < 2 ^ 32.

Record sd_in (m : mem) (p : Z) (v : descriptor) (w : words) : Prop := {
  sd_pos : 0 < p /\ p + 20 <= 2 ^ 32;
  sd_range : is_byte (sbz v) /\ 0 <= control v < 2 ^ 16 /\
    is_word (wowner w) /\ is_word (wgroup w) /\ is_word (wsacl w) /\ is_word (wdacl w);
  sd_head : has m p (sd_bytes v w);
  sd_owner : sid_part m (owner_ptr p v w) (owner v);
  sd_group : sid_part m (group_ptr p v w) (group v);
  sd_sacl : acl_part m (sacl_ptr p v w) (sacl v);
  sd_dacl : acl_part m (dacl_ptr p v w) (dacl v)
}.

(** The components as byte strings. *)
Definition sid_blob (o : option sid) : list Z := from_option sid_bytes [] o.
Definition acl_blob (o : option acl) : list Z := from_option acl_bytes [] o.

Definition len (b : list Z) : Z := Z.of_nat (length b).

(** The sizes of the ACLs are multiples of four, as those of [RtlCreateAcl] are. *)
Definition aligned (v : descriptor) : Prop :=
  (4 | len (acl_blob (sacl v))) /\ (4 | len (acl_blob (dacl v))).

(** The size of the self-relative form. *)
Definition sd_size (v : descriptor) : Z :=
  20 + len (acl_blob (sacl v)) + len (acl_blob (dacl v)) + len (sid_blob (owner v)) +
  len (sid_blob (group v)).

(** ** Reading *)

Lemma length_sd_bytes v w : length (sd_bytes v w) = 20%nat.
Proof. unfold sd_bytes. by rewrite !length_app, !length_enc. Qed.

Lemma sd_fields m p v w :
  has m p (sd_bytes v w) <->
  m !! p = Some SECURITY_DESCRIPTOR_REVISION /\ m !! (p + 1) = Some (sbz v) /\
  has m (p + 2) (enc 2 (control v)) /\ has m (p + 4) (enc 4 (wowner w)) /\
  has m (p + 8) (enc 4 (wgroup w)) /\ has m (p + 12) (enc 4 (wsacl w)) /\
  has m (p + 16) (enc 4 (wdacl w)).
Proof.
  unfold sd_bytes. rewrite !has_app, !has_cons, !length_enc. cbn [length].
  change (Z.of_nat 2) with 2. change (Z.of_nat 4) with 4. rewrite <- !Z.add_assoc.
  change (2 + 2) with 4. change (2 + (2 + 4)) with 8. change (2 + (2 + (4 + 4))) with 12.
  change (2 + (2 + (4 + (4 + 4)))) with 16. pose proof (has_nil m (p + 2)). tauto.
Qed.

Lemma round_up_4 n : 0 <= n < 2 ^ 32 - 4 -> (4 | n) -> ROUND_UP n 4 = n.
Proof.
  intros Hn [k ->]. unfold ROUND_UP. rewrite (u32_small (k * 4)), u32_small by lia.
  change 4 with (2 ^ 2) at 3. rewrite ROUND_DOWN_spec by lia. change (2 ^ 2) with 4.
  replace (k * 4 + 4 - 1) with (3 + k * 4) by lia. rewrite Z.div_add by lia.
  change (3 / 4) with 0. lia.
Qed.

Lemma sid_part_len m q o : sid_part m q o -> 0 <= len (sid_blob o) <= 2 ^ 12 /\ (4 | len (sid_blob o)).
Proof.
  destruct o as [s|]; unfold len, sid_blob, sid_part, from_option; [|by split; [simpl; lia|exists 0]].
  intros (_ & _ & Hw & _). rewrite length_sid_bytes by done. pose proof (wf_count s Hw).
  split; [lia|exists (2 + Z.of_nat (length (SubAuthority s))); lia].
Qed.

Lemma acl_part_len m q o : acl_part m q o -> 0 <= len (acl_blob o) < 2 ^ 16.
Proof.
  destruct o as [a|]; unfold len, acl_blob, acl_part, from_option; [|simpl; lia].
  intros Ha. rewrite length_acl_bytes. pose proof (acl_bounds (a := a)).
  pose proof (acl_size _ _ _ Ha). lia.
Qed.

Lemma SidSize_run m q o : sid_part m q o -> SidSize m q = Some (len (sid_blob o)).
Proof.
  intros H. destruct (sid_part_len _ _ _ H) as [Hl Hd]. unfold SidSize.
  destruct o as [s|]; [|by simpl in H; subst q].
  destruct H as (Hq & _ & Hs). destruct (Z.eqb_spec q 0); [lia|]. cbn [negb].
  rewrite (RtlLengthSid_at Hs). cbn [mbind option_bind]. f_equal. unfold len, sid_blob, from_option in *. apply round_up_4; [lia|done].
Qed.

Lemma AclAlignedSize_run m q o :
  acl_part m q o -> (4 | len (acl_blob o)) -> AclAlignedSize m q = Some (len (acl_blob o)).
Proof.
  intros H Hd. pose proof (acl_part_len _ _ _ H) as Hl. unfold AclAlignedSize.
  destruct o as [a|]; [|by simpl in H; subst q]. unfold acl_part in H.
  destruct (acl_pos _ _ _ H). destruct (Z.eqb_spec q 0); [lia|]. cbn [negb].
  rewrite (AclSize_at H). cbn [mbind option_bind]. f_equal.
  unfold len, acl_blob, from_option in *. rewrite length_acl_bytes in *. apply round_up_4; [lia|done].
Qed.

Section Read.
Context {m : mem} {p : Z} {v : descriptor} {w : words} (Hsd : sd_in m p v w).

Lemma SdRevision_in : SdRevision m p = Some SECURITY_DESCRIPTOR_REVISION.
Proof. destruct Hsd as [_ _ H _ _ _ _]. apply sd_fields in H. apply ld8_lookup. tauto. Qed.

Lemma SdControl_in : SdControl m p = Some (control v).
Proof. destruct Hsd as [_ Hr H _ _ _ _]. apply sd_fields in H. apply ld16_has; tauto. Qed.

Lemma SdOwner_in : SdOwner m p = Some (wowner w).
Proof. destruct Hsd as [_ Hr H _ _ _ _]. apply sd_fields in H. apply ld32_has; unfold is_word in *; tauto. Qed.

Lemma SdGroup_in : SdGroup m p = Some (wgroup w).
Proof. destruct Hsd as [_ Hr H _ _ _ _]. apply sd_fields in H. apply ld32_has; unfold is_word in *; tauto. Qed.

Lemma SdSacl_in : SdSacl m p = Some (wsacl w).
Proof. destruct Hsd as [_ Hr H _ _ _ _]. apply sd_fields in H. apply ld32_has; unfold is_word in *; tauto. Qed.

Lemma SdDacl_in : SdDacl m p = Some (wdacl w).
Proof. destruct Hsd as [_ Hr H _ _ _ _]. apply sd_fields in H. apply ld32_has; unfold is_word in *; tauto. Qed.

Lemma get_owner : SepGetOwnerFromDescriptor m p = Some (owner_ptr p v w).
Proof. unfold SepGetOwnerFromDescriptor. by rewrite SdControl_in, SdOwner_in. Qed.

Lemma get_group : SepGetGroupFromDescriptor m p = Some (group_ptr p v w).
Proof. unfold SepGetGroupFromDescriptor. by rewrite SdControl_in, SdGroup_in. Qed.

Lemma get_sacl : SepGetSaclFromDescriptor m p = Some (sacl_ptr p v w).
Proof.
  unfold SepGetSaclFromDescriptor, sacl_ptr. rewrite SdControl_in, SdSacl_in. simpl.
  by destruct (flag _ _).
Qed.

Lemma get_dacl : SepGetDaclFromDescriptor m p = Some (dacl_ptr p v w).
Proof.
  unfold SepGetDaclFromDescriptor, dacl_ptr. rewrite SdControl_in, SdDacl_in. simpl.
  by destruct (flag _ _).
Qed.

Lemma query_run :
  aligned v ->
  RtlpQuerySecurityDescriptor m p =
  Some ((owner_ptr p v w, len (sid_blob (owner v))), (group_ptr p v w, len (sid_blob (group v))),
        (dacl_ptr p v w, len (acl_blob (dacl v))), (sacl_ptr p v w, len (acl_blob (sacl v)))).
Proof.
  intros [As Ad]. unfold RtlpQuerySecurityDescriptor.
  rewrite get_owner, get_group, get_dacl, get_sacl. cbn [mbind option_bind].
  rewrite !(SidSize_run _ _ _ (sd_owner _ _ _ _ Hsd)), !(SidSize_run _ _ _ (sd_group _ _ _ _ Hsd)).
  cbn [mbind option_bind]. rewrite (AclAlignedSize_run _ _ _ (sd_dacl _ _ _ _ Hsd) Ad).
  cbn [mbind option_bind]. by rewrite (AclAlignedSize_run _ _ _ (sd_sacl _ _ _ _ Hsd) As).
Qed.

Lemma sd_size_range : 20 <= sd_size v < 2 ^ 18.
Proof.
  unfold sd_size. pose proof (sid_part_len _ _ _ (sd_owner _ _ _ _ Hsd)).
  pose proof (sid_part_len _ _ _ (sd_group _ _ _ _ Hsd)).
  pose proof (acl_part_len _ _ _ (sd_sacl _ _ _ _ Hsd)).
  pose proof (acl_part_len _ _ _ (sd_dacl _ _ _ _ Hsd)). lia.
Qed.

Lemma RtlLengthSecurityDescriptor_run :
  aligned v -> RtlLengthSecurityDescriptor m p = Some (sd_size v).
Proof.
  intros [As Ad]. pose proof sd_size_range as Hn. unfold sd_size in *.
  pose proof (sid_part_len _ _ _ (sd_owner _ _ _ _ Hsd)).
  pose proof (sid_part_len _ _ _ (sd_group _ _ _ _ Hsd)).
  pose proof (acl_part_len _ _ _ (sd_sacl _ _ _ _ Hsd)).
  pose proof (acl_part_len _ _ _ (sd_dacl _ _ _ _ Hsd)).
  unfold RtlLengthSecurityDescriptor, sizeof_SECURITY_DESCRIPTOR.
  rewrite SdControl_in, get_owner, get_group, get_dacl, get_sacl. cbn [mbind option_bind].
  rewrite (SidSize_run _ _ _ (sd_owner _ _ _ _ Hsd)), (SidSize_run _ _ _ (sd_group _ _ _ _ Hsd)).
  cbn [mbind option_bind]. rewrite (AclAlignedSize_run _ _ _ (sd_dacl _ _ _ _ Hsd) Ad).
  cbn [mbind option_bind]. rewrite (AclAlignedSize_run _ _ _ (sd_sacl _ _ _ _ Hsd) As).
  cbn [mbind option_bind]. f_equal. rewrite !u32_add_l.
  rewrite (u32_small (_ + len (sid_blob (group v)))), u32_small by lia. lia.
Qed.

End Read.

(** ** Regions *)

(** The parts of memory that a descriptor consists of, as addresses and lengths. *)
Definition regions (p : Z) (v : descriptor) (w : words) : list (Z * Z) :=
  [(p, 20); (owner_ptr p v w, len (sid_blob (owner v))); (group_ptr p v w, len (sid_blob (group v)));
   (sacl_ptr p v w, len (acl_blob (sacl v))); (dacl_ptr p v w, len (acl_blob (dacl v)))].

(** The [n] bytes at [q] are apart from a region. *)
Definition apart (q n : Z) (r : Z * Z) : Prop := r.1 + r.2 <= q \/ q + n <= r.1.

(** Two memories agree on a region. *)
Definition agree (m m' : mem) (r : Z * Z) : Prop := forall a, r.1 <= a < r.1 + r.2 -> m' !! a = m !! a.

Lemma has_agree m m' q b : has m q b -> agree m m' (q, len b) -> has m' q b.
Proof.
  rewrite !has_lookup. intros H Ha i x Hi. pose proof (lookup_lt_Some _ _ _ Hi).
  rewrite Ha; [by apply H|]. unfold len. simpl. lia.
Qed.

Lemma same_agree m m' q n r : same_except m m' q n -> apart q n r -> agree m m' r.
Proof. intros Hs Ha a Hr. apply Hs. unfold apart in Ha. lia. Qed.

Lemma sid_part_frame m m' p o : sid_part m p o -> agree m m' (p, len (sid_blob o)) -> sid_part m' p o.
Proof.
  destruct o as [s|]; [|done]. intros (H1 & H2 & Hw & Hh) Ha. split_and!; [done..|].
  split; [done|]. by eapply has_agree.
Qed.

Lemma acl_part_frame m m' p o : acl_part m p o -> agree m m' (p, len (acl_blob o)) -> acl_part m' p o.
Proof.
  destruct o as [a|]; [|done]. unfold acl_part. rewrite !acl_at_bytes. intros [H1 Hh] Ha.
  split; [done|]. by eapply has_agree.
Qed.

Lemma sd_frame m m' p v w : sd_in m p v w -> Forall (agree m m') (regions p v w) -> sd_in m' p v w.
Proof.
  intros [H1 H2 H3 H4 H5 H6 H7] Ha. unfold regions in Ha. rewrite !Forall_cons in Ha.
  destruct Ha as (A1 & A2 & A3 & A4 & A5 & _). split; [done|done| |..].
  - eapply has_agree; [done|]. unfold len. rewrite length_sd_bytes. exact A1.
  - by eapply sid_part_frame.
  - by eapply sid_part_frame.
  - by eapply acl_part_frame.
  - by eapply acl_part_frame.
Qed.

Lemma apart_sub q n q' n' r : apart q n r -> q <= q' -> q' + n' <= q + n -> apart q' n' r.
Proof. unfold apart. lia. Qed.

(** The bytes of a component are where its pointer leads. *)
Lemma sid_part_has m q o : sid_part m q o -> has m q (sid_blob o).
Proof. destruct o as [s|]; [|done]. by intros (_ & _ & _ & H). Qed.

Lemma acl_part_has m q o : acl_part m q o -> has m q (acl_blob o).
Proof. destruct o as [a|]; [|done]. unfold acl_part. rewrite acl_at_bytes. by intros [_ H]. Qed.

(** ** Writing *)

Definition set_word (k : Z) (w : words) (x : Z) : words :=
  if k =? 4 then mkWords x (wgroup w) (wsacl w) (wdacl w)
  else if k =? 8 then mkWords (wowner w) x (wsacl w) (wdacl w)
  else if k =? 12 then mkWords (wowner w) (wgroup w) x (wdacl w)
  else mkWords (wowner w) (wgroup w) (wsacl w) x.

Definition is_member (k : Z) : Prop := k = 4 \/ k = 8 \/ k = 12 \/ k = 16.

Lemma sd_bytes_split k v w :
  is_member k ->
  exists h1 f h2, length h1 = Z.to_nat k /\ length f = 4%nat /\ sd_bytes v w = h1 ++ f ++ h2 /\
    forall x, sd_bytes v (set_word k w x) = h1 ++ enc 4 x ++ h2.
Proof.
  set (hd := [SECURITY_DESCRIPTOR_REVISION; sbz v] ++ enc 2 (control v)).
  assert (Hhd : length hd = 4%nat) by done.
  intros [-> | [-> | [-> | ->]]]; unfold sd_bytes, set_word; simpl (_ =? _); cbn iota;
    cbn [wowner wgroup wsacl wdacl].
  - exists hd, (enc 4 (wowner w)), (enc 4 (wgroup w) ++ enc 4 (wsacl w) ++ enc 4 (wdacl w)).
    unfold hd. rewrite <- !app_assoc. split_and!; [done|by rewrite ?length_enc|done|].
    intros x. by rewrite <- !app_assoc.
  - exists (hd ++ enc 4 (wowner w)), (enc 4 (wgroup w)), (enc 4 (wsacl w) ++ enc 4 (wdacl w)).
    rewrite length_app, length_enc, Hhd. unfold hd. rewrite <- !app_assoc.
    split_and!; [done|by rewrite ?length_enc|done|]. intros x. by rewrite <- !app_assoc.
  - exists (hd ++ enc 4 (wowner w) ++ enc 4 (wgroup w)), (enc 4 (wsacl w)), (enc 4 (wdacl w)).
    rewrite !length_app, !length_enc, Hhd. unfold hd. rewrite <- !app_assoc.
    split_and!; [done|by rewrite ?length_enc|done|]. intros x. by rewrite <- !app_assoc.
  - exists (hd ++ enc 4 (wowner w) ++ enc 4 (wgroup w) ++ enc 4 (wsacl w)), (enc 4 (wdacl w)), [].
    rewrite !length_app, !length_enc, Hhd. unfold hd. rewrite <- !app_assoc, app_nil_r.
    split_and!; [done|by rewrite ?length_enc|done|]. intros x. by rewrite <- !app_assoc, app_nil_r.
Qed.

(** A word of the descriptor at the start of a region. *)
Lemma set_word_run m q v w rest k x :
  is_member k -> has m q (sd_bytes v w ++ rest) ->
  exists m', st32 m (q + k) x = Some m' /\ has m' q (sd_bytes v (set_word k w x) ++ rest) /\
    same_except m m' (q + k) 4.
Proof.
  intros Hk H. destruct (sd_bytes_split k v w Hk) as (h1 & f & h2 & L1 & L2 & E & Ex).
  rewrite E, <- !app_assoc in H.
  destruct (store_middle m q h1 f (enc 4 x) (h2 ++ rest) H) as (m' & E' & G & S); [by rewrite length_enc|].
  assert (Z.of_nat (length h1) = k) as Hl by (unfold is_member in Hk; lia).
  rewrite Hl, L2 in *. exists m'. split_and!; [done| |done]. by rewrite Ex, <- !app_assoc.
Qed.

Definition word_for (k : Z) (w : words) (b : list Z) (x : Z) : words :=
  match b with [] => w | _ => set_word k w x end.

(** Copying one component behind the components [d]. *)
Lemma CopyComponent_run m q v w d b hole post k src :
  is_member k -> has m q (sd_bytes v w ++ d ++ hole ++ post) -> length hole = length b ->
  has m src b -> apart q (20 + len d + len b + len post) (src, len b) ->
  0 < q -> q + 20 + len d + len b + len post < 2 ^ 32 ->
  exists m', CopyComponent m q (q + 20 + len d) src (len b) k = Some (m', q + 20 + len d + len b) /\
    has m' q (sd_bytes v (word_for k w b (20 + len d)) ++ (d ++ b) ++ post) /\
    same_except m m' q (20 + len d + len b + len post).
Proof.
  intros Hk H Hl Hsrc Ha Hq Hmax. unfold CopyComponent. destruct b as [|x b].
  { destruct hole; [|done]. exists m. rewrite Z.eqb_refl. cbn [negb]. split_and!.
    - do 2 f_equal. unfold len. simpl. lia.
    - by rewrite app_nil_r.
    - by intros r _. }
  set (b0 := x :: b) in *. unfold len in *.
  destruct (Z.eqb_spec (Z.of_nat (length b0)) 0) as [Hz|_]; [by simpl in Hz|]. cbn [negb].
  unfold RtlCopyMemory, RtlMoveMemory. rewrite Nat2Z.id. unfold has in Hsrc. rewrite Hsrc.
  cbn [mbind option_bind]. rewrite app_assoc in H.
  destruct (store_middle m q (sd_bytes v w ++ d) hole b0 post H) as (m1 & E1 & G1 & S1); [done|].
  rewrite length_app, length_sd_bytes in *.
  replace (q + 20 + Z.of_nat (length d)) with (q + Z.of_nat (20 + length d)) by lia.
  rewrite E1. cbn [mbind option_bind]. rewrite <- app_assoc in G1.
  replace (q + Z.of_nat (20 + length d) - q) with (20 + Z.of_nat (length d)) by lia.
  rewrite (u32_small (20 + _)) by lia.
  destruct (set_word_run m1 q v w (d ++ b0 ++ post) k (20 + Z.of_nat (length d)) Hk G1)
    as (m2 & E2 & G2 & S2).
  rewrite E2. cbn [mbind option_bind]. exists m2. split_and!.
  - do 2 f_equal. rewrite u32_small; lia.
  - by rewrite <- app_assoc.
  - intros r Hr. unfold is_member in Hk. rewrite S2, S1 by lia. done.
Qed.

(** ** The control word *)

Lemma flag_bit c k : 0 <= k -> flag c (2 ^ k) = Z.testbit c k.
Proof.
  intros Hk. unfold flag. destruct (Z.testbit c k) eqn:E.
  - apply negb_true_iff, Z.eqb_neq. intros H0. assert (Z.testbit (Z.land c (2 ^ k)) k = false) as H.
    { by rewrite H0, Z.testbit_0_l. }
    rewrite Z.land_spec, E, Z.pow2_bits_true in H by done. done.
  - apply negb_false_iff, Z.eqb_eq. apply Z.bits_inj'. intros i Hi.
    rewrite Z.land_spec, Z.testbit_0_l, Z.pow2_bits_eqb by done.
    destruct (Z.eqb_spec k i) as [->|]; [by rewrite E|by rewrite andb_false_r].
Qed.

Lemma flag_lor c k j :
  0 <= k -> 0 <= j -> flag (Z.lor c (2 ^ j)) (2 ^ k) = (k =? j) || flag c (2 ^ k).
Proof.
  intros Hk Hj. rewrite !flag_bit, Z.lor_spec, Z.pow2_bits_eqb, orb_comm by done.
  by rewrite Z.eqb_sym.
Qed.

Lemma flag_clear c k j :
  0 <= k -> 0 <= j ->
  flag (Z.land c (Z.lnot (2 ^ j))) (2 ^ k) = negb (k =? j) && flag c (2 ^ k).
Proof.
  intros Hk Hj. rewrite !flag_bit, Z.land_spec, Z.lnot_spec, Z.pow2_bits_eqb, andb_comm by done.
  by rewrite Z.eqb_sym.
Qed.

Definition with_control (v : descriptor) (c : Z) : descriptor :=
  mkSd (sbz v) c (owner v) (group v) (sacl v) (dacl v).

Definition relative (v : descriptor) : descriptor := with_control v (Z.lor (control v) SE_SELF_RELATIVE).
Definition absolute (v : descriptor) : descriptor :=
  with_control v (Z.land (control v) (Z.lnot SE_SELF_RELATIVE)).

Lemma sd_control m q v w rest :
  0 <= control v < 2 ^ 16 -> has m q (sd_bytes v w ++ rest) -> SdControl m q = Some (control v).
Proof. intros Hc [H _]%has_app. apply sd_fields in H. apply ld16_has; tauto. Qed.

Lemma store_control m q v w rest c :
  has m q (sd_bytes v w ++ rest) ->
  exists m', st16 m (q + 2) c = Some m' /\
    has m' q (sd_bytes (with_control v (u16 c)) w ++ rest) /\ same_except m m' (q + 2) 2.
Proof.
  intros H. unfold sd_bytes in H. rewrite <- !app_assoc in H.
  destruct (store_middle m q _ _ (enc 2 c) _ H) as (m' & E & G & S); [done|].
  exists m'. split_and!; [done| |done]. unfold sd_bytes, with_control. simpl control.
  rewrite <- !app_assoc. replace (enc 2 (u16 c)) with (enc 2 c); [done|].
  unfold enc, u16, u8. change (2 ^ 16) with (2 ^ 8 * 2 ^ 8).
  rewrite Z.rem_mul_r by lia. f_equal.
  - rewrite Z.mul_comm, Z.mod_add, Z.mod_mod by lia. done.
  - f_equal. rewrite (Z.mul_comm (2 ^ 8)), Z.div_add by lia.
    rewrite (Z.div_small (c mod 2 ^ 8)) by (apply Z.mod_pos_bound; lia).
    by rewrite Z.add_0_l, Z.mod_mod by lia.
Qed.

Lemma control_lor_range c : 0 <= c < 2 ^ 16 -> 0 <= Z.lor c SE_SELF_RELATIVE < 2 ^ 16.
Proof. intros H. apply lor_range; unfold SE_SELF_RELATIVE; lia. Qed.

Lemma control_land_range c : 0 <= c < 2 ^ 16 -> 0 <= Z.land c (Z.lnot SE_SELF_RELATIVE) < 2 ^ 16.
Proof.
  intros H. apply bits_range; [lia| |].
  - apply Z.land_nonneg. left. lia.
  - intros i Hi. rewrite Z.land_spec. by rewrite (testbit_above 16 c) by lia.
Qed.

(** ** To the self-relative form *)

Definition offset (b : list Z) (x : Z) : Z := match b with [] => 0 | _ => x end.

(** The words of the self-relative form: SACL, DACL, owner and group behind the structure. *)
Definition relative_words (v : descriptor) : words :=
  let bs := acl_blob (sacl v) in let bd := acl_blob (dacl v) in
  let bo := sid_blob (owner v) in let bg := sid_blob (group v) in
  mkWords (offset bo (20 + len (bs ++ bd))) (offset bg (20 + len ((bs ++ bd) ++ bo)))
    (offset bs 20) (offset bd (20 + len bs)).

Definition relative_bytes (v : descriptor) : list Z :=
  sd_bytes (relative v) (relative_words v) ++
  ((acl_blob (sacl v) ++ acl_blob (dacl v)) ++ sid_blob (owner v)) ++ sid_blob (group v).

Lemma len_app a b : len (a ++ b) = len a + len b.
Proof. unfold len. rewrite length_app. lia. Qed.

Lemma len_nonneg a : 0 <= len a.
Proof. unfold len. lia. Qed.

Lemma length_relative_bytes v : len (relative_bytes v) = sd_size v.
Proof.
  unfold relative_bytes, sd_size. rewrite !len_app. unfold len at 1. rewrite length_sd_bytes. lia.
Qed.

(** The components where the words of the self-relative form lead. *)
Lemma relative_sid m q c o x :
  flag c SE_SELF_RELATIVE = true -> 0 < q -> 0 < x -> q + x + len (sid_blob o) <= 2 ^ 31 ->
  (forall s, o = Some s -> wf_sid s) -> has m (q + x) (sid_blob o) ->
  sid_part m (Target c q (offset (sid_blob o) x)) o.
Proof.
  intros Hf Hq Hx Hmax Hw Hh. unfold Target. rewrite Hf. destruct o as [s|]; [|done].
  pose proof (len_nonneg (sid_blob (Some s))). simpl offset.
  destruct (Z.eqb_spec x 0); [lia|]. rewrite u32_small by lia. unfold sid_part.
  unfold len, sid_blob, from_option in *. split_and!; [lia|lia|]. split; [by apply Hw|done].
Qed.

Lemma relative_acl m q c o x :
  flag c SE_SELF_RELATIVE = true -> 0 < q -> 0 < x -> q + x + len (acl_blob o) <= 2 ^ 31 ->
  (forall a, o = Some a -> exists p, acl_ok p a) -> has m (q + x) (acl_blob o) ->
  acl_part m (Target c q (offset (acl_blob o) x)) o.
Proof.
  intros Hf Hq Hx Hmax Hw Hh. unfold Target. rewrite Hf. destruct o as [a|]; [|done].
  pose proof (len_nonneg (acl_blob (Some a))). simpl offset.
  destruct (Z.eqb_spec x 0); [lia|]. rewrite u32_small by lia. unfold acl_part.
  unfold len, acl_blob, from_option in *. rewrite length_acl_bytes in *.
  destruct (Hw a eq_refl) as [p [A1 A2 A3 A4]]. apply acl_at_bytes. split; [|done]. split; try done; lia.
Qed.

Lemma sid_part_wf m q o : sid_part m q o -> forall s, o = Some s -> wf_sid s.
Proof. intros H s ->. apply H. Qed.

Lemma acl_part_ok m q o : acl_part m q o -> forall a, o = Some a -> exists p, acl_ok p a.
Proof. intros H a ->. apply acl_at_bytes in H as [? _]. by eexists. Qed.

(** A pointer that is null unless the ACL is present. *)
Lemma relative_present m (b : bool) r o m0 q0 :
  acl_part m0 (if b then q0 else 0) o -> (b = true -> acl_part m r o) ->
  acl_part m (if b then r else 0) o.
Proof.
  destruct b; [by auto|]. destruct o as [a|]; [|done]. intros H _. by destruct (acl_pos _ _ _ H).
Qed.

Lemma relative_flags v :
  flag (control (relative v)) SE_SELF_RELATIVE = true /\
  flag (control (relative v)) SE_SACL_PRESENT = flag (control v) SE_SACL_PRESENT /\
  flag (control (relative v)) SE_DACL_PRESENT = flag (control v) SE_DACL_PRESENT.
Proof.
  split_and!.
  - apply (flag_lor (control v) 15 15); lia.
  - apply (flag_lor (control v) 4 15); lia.
  - apply (flag_lor (control v) 2 15); lia.
Qed.

(** The bytes of the self-relative form are a descriptor. *)
Lemma relative_sd_in m m' p v w q :
  sd_in m p v w -> 0 < q -> q + sd_size v <= 2 ^ 31 -> has m' q (relative_bytes v) ->
  sd_in m' q (relative v) (relative_words v).
Proof.
  intros Hsd Hq Hmax Hh. pose proof (sd_size_range Hsd) as Hsz.
  unfold sd_size in Hmax, Hsz. destruct Hsd as [_ (R1 & R2 & _) _ Po Pg Ps Pd].
  unfold relative_bytes in Hh. rewrite !has_app, length_sd_bytes, !length_app, !Nat2Z.inj_add in Hh.
  destruct Hh as (H0 & ((Hs & Hd) & Ho) & Hg). change (Z.of_nat 20) with 20 in *.
  rewrite Z.add_assoc in Ho. rewrite !Z.add_assoc in Hg.
  destruct (relative_flags v) as (Hrel & Hfs & Hfd).
  pose proof (len_nonneg (acl_blob (sacl v))). pose proof (len_nonneg (acl_blob (dacl v))).
  pose proof (len_nonneg (sid_blob (owner v))). pose proof (len_nonneg (sid_blob (group v))).
  assert (Hoff : forall b x, 0 <= x < 2 ^ 32 -> is_word (offset b x)).
  { intros [|??] x Hx; unfold is_word; simpl; lia. }
  split; [lia| |done|..].
  - split_and!; [done|by apply control_lor_range|by apply control_lor_range|..];
      apply Hoff; rewrite ?len_app; lia.
  - apply relative_sid; rewrite ?len_app, ?Z.add_assoc; try done; try lia. all: cbn [owner group sacl dacl relative with_control]; first [lia|by eapply sid_part_wf|exact Ho|exact Hg].
  - apply relative_sid; rewrite ?len_app, ?Z.add_assoc; try done; try lia. all: cbn [owner group sacl dacl relative with_control]; first [lia|by eapply sid_part_wf|exact Ho|exact Hg].
  - eapply relative_present; [|intros _].
    + unfold sacl_ptr in Ps. rewrite Hfs. exact Ps.
    + apply relative_acl; try done; try lia. all: cbn [owner group sacl dacl relative with_control]; first [lia|by eapply acl_part_ok|exact Hs].
  - eapply relative_present; [|intros _].
    + unfold dacl_ptr in Pd. rewrite Hfd. exact Pd.
    + apply relative_acl; rewrite ?Z.add_assoc; try done; try lia.
      all: cbn [owner group sacl dacl relative with_control]; first [lia|by eapply acl_part_ok|exact Hd].
Qed.

Definition no_words : words := mkWords 0 0 0 0.

Lemma relative_words_built v :
  word_for 8 (word_for 4 (word_for 16 (word_for 12 no_words (acl_blob (sacl v)) 20)
    (acl_blob (dacl v)) (20 + len (acl_blob (sacl v))))
    (sid_blob (owner v)) (20 + len (acl_blob (sacl v) ++ acl_blob (dacl v))))
    (sid_blob (group v)) (20 + len ((acl_blob (sacl v) ++ acl_blob (dacl v)) ++ sid_blob (owner v)))
  = relative_words v.
Proof.
  unfold relative_words.
  by destruct (acl_blob (sacl v)), (acl_blob (dacl v)), (sid_blob (owner v)), (sid_blob (group v)).
Qed.

(** The zeroed buffer with the first four bytes of the descriptor. *)
Lemma relative_start m p v w q old :
  sd_in m p v w -> has m q old -> len old = sd_size v -> apart q (sd_size v) (p, 20) ->
  exists m1 m2, RtlZeroMemory m q (sd_size v) = Some m1 /\ RtlCopyMemory m1 q p 4 = Some m2 /\
    has m2 q (sd_bytes v no_words ++ replicate (Z.to_nat (sd_size v - 20)) 0) /\
    same_except m m1 q (sd_size v) /\ same_except m m2 q (sd_size v).
Proof.
  intros Hsd Hold Hlen Hap. pose proof (sd_size_range Hsd) as Hsz. unfold len in Hlen.
  destruct (store_at m q old (replicate (Z.to_nat (sd_size v)) 0) Hold) as (m1 & E1 & G1 & S1 & _).
  { rewrite length_replicate. lia. }
  rewrite Hlen in S1. exists m1. unfold RtlZeroMemory. rewrite E1.
  assert (has m1 p (sd_bytes v w)) as Hp.
  { eapply has_frame; [apply Hsd|exact S1|]. rewrite length_sd_bytes. exact Hap. }
  unfold sd_bytes in Hp. rewrite app_assoc in Hp. apply has_app in Hp as [Hp _].
  replace (Z.to_nat (sd_size v)) with (4 + (16 + Z.to_nat (sd_size v - 20)))%nat in G1 by lia.
  rewrite replicate_add in G1. 
  destruct (store_middle m1 q [] (replicate 4 0)
    ([SECURITY_DESCRIPTOR_REVISION; sbz v] ++ enc 2 (control v)) _ G1) as (m2 & E2 & G2 & S2); [done|].
  exists m2. split_and!; [done| | |exact S1|].
  - unfold RtlCopyMemory, RtlMoveMemory. unfold has in Hp. change (Z.to_nat 4) with 4%nat.
    change (length ([SECURITY_DESCRIPTOR_REVISION; sbz v] ++ enc 2 (control v))) with 4%nat in Hp.
    rewrite Hp. cbn [mbind option_bind]. simpl in E2. by rewrite Z.add_0_r in E2.
  - rewrite app_nil_l, replicate_add in G2. unfold sd_bytes. rewrite <- !app_assoc in *. exact G2.
  - simpl in S2. rewrite Z.add_0_r in S2. intros r Hr. rewrite S2, S1 by lia. done.
Qed.

(** One component after the other, with the memory that was changed so far; [N] is the size of
    the whole buffer. *)
Lemma relative_copy m m1 q v w d b rest k src N :
  N = 20 + len d + len b + len rest -> same_except m m1 q N ->
  has m1 q (sd_bytes v w ++ d ++ replicate (length (b ++ rest)) 0) ->
  is_member k -> has m src b -> apart q N (src, len b) -> 0 < q -> q + N < 2 ^ 32 ->
  exists m2, CopyComponent m1 q (q + 20 + len d) src (len b) k = Some (m2, q + 20 + len (d ++ b)) /\
    has m2 q (sd_bytes v (word_for k w b (20 + len d)) ++ (d ++ b) ++ replicate (length rest) 0) /\
    same_except m m2 q N.
Proof.
  intros -> S1 H Hk Hsrc Ha Hq Hmax. rewrite length_app, replicate_add in H.
  assert (len (replicate (length rest) 0) = len rest) as Hl by (unfold len; by rewrite length_replicate).
  destruct (CopyComponent_run m1 q v w d b (replicate (length b) 0) (replicate (length rest) 0) k src)
    as (m2 & E & G & S); rewrite ?Hl; try done; try lia.
  - by rewrite length_replicate.
  - eapply has_frame; [exact Hsrc|exact S1|exact Ha].
  - exists m2. rewrite len_app, Z.add_assoc. split_and!; [done|done|].
    rewrite Hl in S. by eapply same_except_trans.
Qed.

(** SACL, DACL, owner and group, in this order. *)
Lemma relative_copies m m2 q v w0 bs bd bo bg ps pd po pg N :
  N = 20 + len bs + len bd + len bo + len bg -> same_except m m2 q N ->
  has m2 q (sd_bytes v w0 ++ replicate (length (bs ++ bd ++ bo ++ bg)) 0) ->
  has m ps bs -> has m pd bd -> has m po bo -> has m pg bg ->
  apart q N (ps, len bs) -> apart q N (pd, len bd) -> apart q N (po, len bo) ->
  apart q N (pg, len bg) -> 0 < q -> q + N < 2 ^ 32 ->
  exists m3 m4 m5 m6,
    CopyComponent m2 q (q + 20) ps (len bs) 12 = Some (m3, q + 20 + len bs) /\
    CopyComponent m3 q (q + 20 + len bs) pd (len bd) 16 = Some (m4, q + 20 + len (bs ++ bd)) /\
    CopyComponent m4 q (q + 20 + len (bs ++ bd)) po (len bo) 4
      = Some (m5, q + 20 + len ((bs ++ bd) ++ bo)) /\
    CopyComponent m5 q (q + 20 + len ((bs ++ bd) ++ bo)) pg (len bg) 8
      = Some (m6, q + 20 + len (((bs ++ bd) ++ bo) ++ bg)) /\
    has m6 q (sd_bytes v
      (word_for 8 (word_for 4 (word_for 16 (word_for 12 w0 bs 20) bd (20 + len bs))
        bo (20 + len (bs ++ bd))) bg (20 + len ((bs ++ bd) ++ bo))) ++ ((bs ++ bd) ++ bo) ++ bg) /\
    same_except m m6 q N.
Proof.
  intros HN S2 G2 Hs Hd Ho Hg As Ad Ao Ag Hq Hmax.
  destruct (relative_copy m m2 q v w0 [] bs (bd ++ bo ++ bg) 12 ps N)
    as (m3 & E3 & G3 & S3); rewrite ?len_app; try done; try (unfold is_member, len in *; simpl; lia).
  change (len []) with 0 in *. rewrite Z.add_0_r in *. rewrite app_nil_l in *.
  destruct (relative_copy m m3 q v _ bs bd (bo ++ bg) 16 pd N ltac:(rewrite ?len_app; lia) S3 G3)
    as (m4 & E4 & G4 & S4); try done; try (unfold is_member; lia).
  destruct (relative_copy m m4 q v _ (bs ++ bd) bo bg 4 po N ltac:(rewrite ?len_app; lia) S4 G4)
    as (m5 & E5 & G5 & S5); try done; try (unfold is_member; lia).
  replace (length bg) with (length (bg ++ [])) in G5 by (by rewrite app_nil_r).
  destruct (relative_copy m m5 q v _ ((bs ++ bd) ++ bo) bg [] 8 pg N
    ltac:(rewrite ?len_app; change (len []) with 0; lia) S5 G5)
    as (m6 & E6 & G6 & S6); try done; try (unfold is_member; lia).
  simpl replicate in G6. rewrite app_nil_r in G6. exists m3, m4, m5, m6. rewrite !len_app in *. by split_and!.
Qed.

Lemma make_relative_run m p v w q n old :
  sd_in m p v w -> aligned v -> has m q old -> len old = sd_size v -> sd_size v <= n ->
  Forall (apart q (sd_size v)) (regions p v w) -> 0 < q -> q + sd_size v <= 2 ^ 31 ->
  exists m', RtlMakeSelfRelativeSD m p q n = Some (STATUS_SUCCESS, m', n) /\
    has m' q (relative_bytes v) /\ same_except m m' q (sd_size v).
Proof.
  intros Hsd Hal Hold Hlen Hn Hap Hq Hmax. pose proof (sd_size_range Hsd) as Hsz.
  unfold regions in Hap. rewrite !Forall_cons in Hap. destruct Hap as (A0 & Ao & Ag & As & Ad & _).
  pose proof (sid_part_has _ _ _ (sd_owner _ _ _ _ Hsd)) as Ho.
  pose proof (sid_part_has _ _ _ (sd_group _ _ _ _ Hsd)) as Hg.
  pose proof (acl_part_has _ _ _ (sd_sacl _ _ _ _ Hsd)) as Hs.
  pose proof (acl_part_has _ _ _ (sd_dacl _ _ _ _ Hsd)) as Hd.
  destruct (relative_start m p v w q old Hsd Hold Hlen A0) as (m1 & m2 & E1 & E2 & G2 & S1 & S2).
  unfold RtlMakeSelfRelativeSD. rewrite (query_run Hsd Hal). cbn [mbind option_bind].
  unfold sizeof_SECURITY_DESCRIPTOR, relative_bytes.
  assert (Hsize : sd_size v = 20 + len (acl_blob (sacl v)) + len (acl_blob (dacl v)) +
    len (sid_blob (owner v)) + len (sid_blob (group v))) by done.
  pose proof (len_nonneg (acl_blob (sacl v))). pose proof (len_nonneg (acl_blob (dacl v))).
  pose proof (len_nonneg (sid_blob (owner v))). pose proof (len_nonneg (sid_blob (group v))).
  replace (u32 _) with (sd_size v) by (rewrite u32_small; lia).
  destruct (Z.ltb_spec n (sd_size v)); [lia|]. rewrite E1. cbn [mbind option_bind]. rewrite E2.
  cbn [mbind option_bind]. rewrite (u32_small (q + 20)) by lia.
  replace (Z.to_nat (sd_size v - 20)) with (length (acl_blob (sacl v) ++ acl_blob (dacl v) ++
    sid_blob (owner v) ++ sid_blob (group v))) in G2 by (rewrite !length_app; unfold len in *; lia).
  destruct (relative_copies m m2 q v no_words _ _ _ _ _ _ _ _ (sd_size v) Hsize S2 G2 Hs Hd Ho Hg As Ad Ao Ag
    Hq ltac:(lia)) as (m3 & m4 & m5 & m6 & E3 & E4 & E5 & E6 & G6 & S6).
  rewrite E3. cbn [mbind option_bind]. rewrite E4. cbn [mbind option_bind]. rewrite E5.
  cbn [mbind option_bind]. rewrite E6. cbn [mbind option_bind]. rewrite relative_words_built in G6.
  destruct (sd_range _ _ _ _ Hsd) as (_ & Rc & _).
  unfold SetControl. rewrite (sd_control _ _ _ _ _ Rc G6). cbn [mbind option_bind].
  destruct (store_control _ _ _ _ _ (Z.lor (control v) SE_SELF_RELATIVE) G6) as (m7 & E7 & G7 & S7).
  rewrite E7. cbn [mbind option_bind]. exists m7.
  unfold u16 in G7. rewrite Z.mod_small in G7 by (by apply control_lor_range).
  split_and!; [done|done|].
  intros r Hr. rewrite S7, S6 by lia. done.
Qed.
