(* ===== verification/SdAbsolute.v ===== *)
(** * Security descriptors: from the self-relative to the absolute form

    [RtlSelfRelativeToAbsoluteSD] copies the structure and the components to buffers of the
    caller; [RtlSelfRelativeToAbsoluteSD2] converts in place. *)

From Stdlib Require Import ZArith Lia Bool.
From stdpp Require Import base option list numbers gmap.
From S2P Require Import Prelude Memory Sid SidProps Acl AclProps Sd SdProps.
Open Scope Z_scope.

(** ** Words and control of a structure *)

Lemma set_words_run m q v w rest wo wg ws wd :
  has m q (sd_bytes v w ++ rest) ->
  exists m1 m2 m3 m4, st32 m (q + 4) wo = Some m1 /\ st32 m1 (q + 8) wg = Some m2 /\
    st32 m2 (q + 12) ws = Some m3 /\ st32 m3 (q + 16) wd = Some m4 /\
    has m4 q (sd_bytes v (mkWords wo wg ws wd) ++ rest) /\ same_except m m4 q 20.
Proof.
  intros H.
  destruct (set_word_run m q v _ rest 4 wo ltac:(unfold is_member; lia) H) as (m1 & E1 & G1 & S1).
  destruct (set_word_run m1 q v _ rest 8 wg ltac:(unfold is_member; lia) G1) as (m2 & E2 & G2 & S2).
  destruct (set_word_run m2 q v _ rest 12 ws ltac:(unfold is_member; lia) G2) as (m3 & E3 & G3 & S3).
  destruct (set_word_run m3 q v _ rest 16 wd ltac:(unfold is_member; lia) G3) as (m4 & E4 & G4 & S4).
  exists m1, m2, m3, m4. split_and!; [done..|].
  intros r Hr. rewrite S4, S3, S2, S1 by lia. done.
Qed.

Lemma absolute_flags v :
  flag (control (absolute v)) SE_SELF_RELATIVE = false /\
  flag (control (absolute v)) SE_SACL_PRESENT = flag (control v) SE_SACL_PRESENT /\
  flag (control (absolute v)) SE_DACL_PRESENT = flag (control v) SE_DACL_PRESENT.
Proof.
  split_and!.
  - apply (flag_clear (control v) 15 15); lia.
  - apply (flag_clear (control v) 4 15); lia.
  - apply (flag_clear (control v) 2 15); lia.
Qed.

Lemma clear_relative_run m q v w rest :
  0 <= control v < 2 ^ 16 -> has m q (sd_bytes v w ++ rest) ->
  exists m', ClearControl m q SE_SELF_RELATIVE = Some m' /\
    has m' q (sd_bytes (absolute v) w ++ rest) /\ same_except m m' (q + 2) 2.
Proof.
  intros Hc H. unfold ClearControl. rewrite (sd_control _ _ _ _ _ Hc H). cbn [mbind option_bind].
  destruct (store_control m q v w rest (Z.land (control v) (Z.lnot SE_SELF_RELATIVE)) H)
    as (m' & E & G & S).
  unfold u16 in G. rewrite Z.mod_small in G by (by apply control_land_range). by exists m'.
Qed.

(** An absolute descriptor from its structure and its components. *)
Lemma absolute_sd_in m q v w' m0 p w :
  sd_in m0 p v w -> 0 < q -> q + 20 <= 2 ^ 32 -> has m q (sd_bytes (absolute v) w') ->
  is_word (wowner w') -> is_word (wgroup w') -> is_word (wsacl w') -> is_word (wdacl w') ->
  sid_part m (wowner w') (owner v) -> sid_part m (wgroup w') (group v) ->
  acl_part m (wsacl w') (sacl v) -> acl_part m (wdacl w') (dacl v) ->
  sd_in m q (absolute v) w'.
Proof.
  intros [_ (R1 & R2 & _) _ _ _ Ps Pd] Hq Hmax Hh W1 W2 W3 W4 Po Pg Psa Pda.
  destruct (absolute_flags v) as (Fr & Fs & Fd).
  pose proof (control_land_range _ R2). split; [done| |done|..].
  - split; [done|]. split; [done|]. by auto.
  - unfold owner_ptr, Target. by rewrite Fr.
  - unfold group_ptr, Target. by rewrite Fr.
  - unfold sacl_ptr, Target. rewrite Fr. eapply relative_present; [|done]. rewrite Fs. exact Ps.
  - unfold dacl_ptr, Target. rewrite Fr. eapply relative_present; [|done]. rewrite Fd. exact Pd.
Qed.

(** ** In place *)

Lemma Target_word c p w : 0 < p -> is_word w -> is_word (Target c p w).
Proof.
  unfold Target, is_word. intros. destruct (flag _ _); [|done]. destruct (_ =? _); [lia|].
  apply u32_range.
Qed.

Lemma in_place_run m p v w b :
  sd_in m p v w -> aligned v -> flag (control v) SE_SELF_RELATIVE = true -> b <> 0 ->
  Forall (apart p 20) (drop 1 (regions p v w)) ->
  exists m' w', RtlSelfRelativeToAbsoluteSD2 m p b = Some (STATUS_SUCCESS, m') /\
    sd_in m' p (absolute v) w' /\ same_except m m' p 20.
Proof.
  intros Hsd Hal Hf Hb Hap. pose proof (sd_pos _ _ _ _ Hsd) as [Hp Hmax].
  destruct (sd_range _ _ _ _ Hsd) as (R1 & R2 & W1 & W2 & W3 & W4).
  unfold RtlSelfRelativeToAbsoluteSD2. destruct (Z.eqb_spec p 0); [lia|].
  destruct (Z.eqb_spec b 0); [done|]. rewrite (SdControl_in Hsd). cbn [mbind option_bind].
  rewrite Hf. cbn [negb]. rewrite (query_run Hsd Hal). cbn [mbind option_bind].
  pose proof (sd_head _ _ _ _ Hsd) as Hh. rewrite <- (app_nil_r (sd_bytes v w)) in Hh.
  destruct (clear_relative_run m p v w [] R2 Hh) as (m0 & E0 & G0 & S0).
  rewrite E0. cbn [mbind option_bind].
  destruct (set_words_run m0 p (absolute v) w [] (owner_ptr p v w) (group_ptr p v w)
    (sacl_ptr p v w) (dacl_ptr p v w) G0) as (m1 & m2 & m3 & m4 & E1 & E2 & E3 & E4 & G4 & S4).
  rewrite E1. cbn [mbind option_bind]. rewrite E2. cbn [mbind option_bind]. rewrite E3.
  cbn [mbind option_bind]. rewrite E4. cbn [mbind option_bind].
  assert (S : same_except m m4 p 20) by (intros r Hr; rewrite S4, S0 by lia; done).
  eexists m4, _. split_and!; [done| |done]. rewrite app_nil_r in G4.
  simpl in Hap. rewrite !Forall_cons in Hap. destruct Hap as (Ao & Ag & As & Ad & _).
  eapply absolute_sd_in; try done; simpl.
  - by apply Target_word.
  - by apply Target_word.
  - unfold sacl_ptr. destruct (flag _ SE_SACL_PRESENT); [by apply Target_word|done].
  - unfold dacl_ptr. destruct (flag _ SE_DACL_PRESENT); [by apply Target_word|done].
  - eapply sid_part_frame; [apply Hsd|by eapply same_agree].
  - eapply sid_part_frame; [apply Hsd|by eapply same_agree].
  - eapply acl_part_frame; [apply Hsd|by eapply same_agree].
  - eapply acl_part_frame; [apply Hsd|by eapply same_agree].
Qed.

(** ** Into buffers *)

Definition writable (m : mem) (d : Z * Z) : Prop := exists old, has m d.1 old /\ len old = d.2.

(** Two regions are apart. *)
Definition disjoint_regions (d e : Z * Z) : Prop := apart d.1 d.2 e.

Lemma disjoint_sym d e : disjoint_regions d e -> disjoint_regions e d.
Proof. unfold disjoint_regions, apart. lia. Qed.

Lemma writable_agree m m' d : writable m d -> agree m m' d -> writable m' d.
Proof.
  intros (old & H & Hl) Ha. exists old. split; [|done]. eapply has_agree; [done|].
  rewrite Hl. by destruct d.
Qed.

Lemma agree_trans m1 m2 m3 r : agree m1 m2 r -> agree m2 m3 r -> agree m1 m3 r.
Proof. intros H1 H2 a Ha. by rewrite H2, H1. Qed.

(** One component: its bytes go to [dst], the word [k] becomes its address, and nothing else
    changes. *)
Lemma MoveComponent_run m qs v w k src dst b nf :
  is_member k -> has m qs (sd_bytes v w) -> (b = [] -> src = 0) ->
  (b <> [] -> src <> 0 /\ nf m src = Some (len b)) -> has m src b -> writable m (dst, len b) ->
  disjoint_regions (dst, len b) (qs, 20) ->
  exists m', MoveComponent m qs src dst nf k = Some m' /\
    has m' qs (sd_bytes v (word_for k w b dst)) /\ has m' dst b /\
    forall r, disjoint_regions (dst, len b) r -> disjoint_regions (qs, 20) r -> agree m m' r.
Proof.
  intros Hk Hq H0 H1 Hsrc (old & Hold & Hl) Hd. unfold MoveComponent.
  destruct b as [|x b].
  { rewrite (H0 eq_refl), Z.eqb_refl. cbn [negb]. exists m. split_and!; [done|done|done|].
    by intros r _ _ a _. }
  destruct (H1 ltac:(done)) as [Hne Hnf]. destruct (Z.eqb_spec src 0); [done|]. cbn [negb].
  set (b0 := x :: b) in *. rewrite Hnf. cbn [mbind option_bind]. unfold RtlMoveMemory.
  unfold len at 1. rewrite Nat2Z.id. unfold has in Hsrc. rewrite Hsrc. cbn [mbind option_bind].
  unfold len in *. cbn [fst snd] in Hold, Hl.
  destruct (store_at m dst old b0 Hold) as (m1 & E1 & G1 & S1 & _); [lia|]. rewrite Hl in S1.
  rewrite E1. cbn [mbind option_bind].
  assert (has m1 qs (sd_bytes v w ++ [])) as Hq1.
  { rewrite app_nil_r. eapply has_frame; [exact Hq|exact S1|]. rewrite length_sd_bytes. exact Hd. }
  destruct (set_word_run m1 qs v w [] k dst Hk Hq1) as (m2 & E2 & G2 & S2).
  rewrite app_nil_r in G2. unfold is_member in Hk. exists m2. split_and!; [done|done| |].
  - eapply has_frame; [exact G1|exact S2|]. unfold disjoint_regions, apart in Hd. cbn [fst snd] in Hd. lia.
  - intros r Hr1 Hr2 a Ha. unfold disjoint_regions, apart in *. cbn [fst snd] in *. rewrite S2, S1 by lia. done.
Qed.

Lemma sid_source m q o :
  sid_part m q o ->
  (sid_blob o = [] -> q = 0) /\
  (sid_blob o <> [] -> q <> 0 /\ RtlLengthSid m q = Some (len (sid_blob o))).
Proof.
  destruct o as [s|]; [|by split]. intros (Hq & _ & Hs). split; [done|]. intros _.
  split; [lia|]. apply (RtlLengthSid_at Hs).
Qed.

Lemma acl_source m q o :
  acl_part m q o ->
  (acl_blob o = [] -> q = 0) /\
  (acl_blob o <> [] -> q <> 0 /\ AclSize m q = Some (len (acl_blob o))).
Proof.
  destruct o as [a|]; [|by split]. intros Ha. split; [done|]. intros _.
  destruct (acl_pos _ _ _ Ha). split; [lia|]. unfold len, acl_blob, from_option.
  rewrite length_acl_bytes. apply (AclSize_at Ha).
Qed.

(** The structure before the components are copied. *)
Lemma absolute_start m p v w qs :
  sd_in m p v w -> writable m (qs, 20) ->
  exists m0 m1 m2 m3 m4 m5, RtlMoveMemory m qs p sizeof_SECURITY_DESCRIPTOR = Some m0 /\
    st32 m0 (qs + 4) 0 = Some m1 /\ st32 m1 (qs + 8) 0 = Some m2 /\ st32 m2 (qs + 12) 0 = Some m3 /\
    st32 m3 (qs + 16) 0 = Some m4 /\ ClearControl m4 qs SE_SELF_RELATIVE = Some m5 /\
    has m5 qs (sd_bytes (absolute v) no_words) /\ same_except m m5 qs 20.
Proof.
  intros Hsd (old & Hold & Hl). simpl in Hold, Hl. unfold len in Hl.
  destruct (store_at m qs old (sd_bytes v w) Hold) as (m0 & E0 & G0 & S0 & _);
    [rewrite length_sd_bytes; lia|].
  rewrite <- (app_nil_r (sd_bytes v w)) in G0.
  destruct (set_words_run m0 qs v w [] 0 0 0 0 G0) as (m1 & m2 & m3 & m4 & E1 & E2 & E3 & E4 & G4 & S4).
  destruct (sd_range _ _ _ _ Hsd) as (_ & R2 & _).
  destruct (clear_relative_run m4 qs v _ [] R2 G4) as (m5 & E5 & G5 & S5).
  exists m0, m1, m2, m3, m4, m5. rewrite app_nil_r in G5. split_and!; [|done..|].
  - unfold RtlMoveMemory, sizeof_SECURITY_DESCRIPTOR. change (Z.to_nat 20) with 20%nat.
    pose proof (sd_head _ _ _ _ Hsd) as Hh. unfold has in Hh. rewrite length_sd_bytes in Hh.
    by rewrite Hh.
  - rewrite Hl in S0. intros r Hr. rewrite S5, S4, S0 by lia. done.
Qed.

(** The buffers of a conversion. *)
Record buffers := mkBuffers { bsd : Z; bowner : Z; bgroup : Z; bdacl : Z; bsacl : Z }.

Definition buffer_regions (v : descriptor) (d : buffers) : list (Z * Z) :=
  [(bsd d, 20); (bowner d, len (sid_blob (owner v))); (bgroup d, len (sid_blob (group v)));
   (bdacl d, len (acl_blob (dacl v))); (bsacl d, len (acl_blob (sacl v)))].

Definition absolute_words (v : descriptor) (d : buffers) : words :=
  mkWords (offset (sid_blob (owner v)) (bowner d)) (offset (sid_blob (group v)) (bgroup d))
    (offset (acl_blob (sacl v)) (bsacl d)) (offset (acl_blob (dacl v)) (bdacl d)).

(** The buffers are writable, apart from each other and from the descriptor, and in the lower
    half of the address space. *)
Record good_buffers (m : mem) (p : Z) (v : descriptor) (w : words) (d : buffers) : Prop := {
  buffers_writable : Forall (writable m) (buffer_regions v d);
  buffers_apart : ForallOrdPairs disjoint_regions (buffer_regions v d);
  buffers_source : Forall (fun r => Forall (disjoint_regions r) (regions p v w)) (buffer_regions v d);
  buffers_range : Forall (fun r => r.2 = 0 \/ 0 < r.1 /\ r.1 + r.2 <= 2 ^ 31) (buffer_regions v d)
}.

(** Several components, one after the other. *)
Record move := mkMove {
  member : Z; source : Z; target : Z; blob : list Z; length_of : mem -> Z -> option Z
}.

Fixpoint moves (m : mem) (Sd : Z) (l : list move) : option mem :=
  match l with
  | [] => Some m
  | c :: l =>
      m ← MoveComponent m Sd (source c) (target c) (length_of c) (member c);
      moves m Sd l
  end.

Definition moved_words (w : words) (l : list move) : words :=
  foldl (fun w c => word_for (member c) w (blob c) (target c)) w l.

Definition target_region (c : move) : Z * Z := (target c, len (blob c)).

(** A component that can be read as long as its bytes are not changed. *)
Definition readable (m : mem) (c : move) : Prop :=
  is_member (member c) /\ has m (source c) (blob c) /\ (blob c = [] -> source c = 0) /\
  forall m', agree m m' (source c, len (blob c)) -> blob c <> [] ->
    source c <> 0 /\ length_of c m' (source c) = Some (len (blob c)).

Lemma readable_agree m m' c : readable m c -> agree m m' (source c, len (blob c)) -> readable m' c.
Proof.
  intros (H1 & H2 & H3 & H4) Ha. split_and!; [done|by eapply has_agree|done|].
  intros m2 Ha2. apply H4. by eapply agree_trans.
Qed.

Lemma moves_run m qs v w l :
  has m qs (sd_bytes v w) -> Forall (readable m) l -> Forall (fun c => writable m (target_region c)) l ->
  ForallOrdPairs disjoint_regions ((qs, 20) :: map target_region l) ->
  Forall (fun c => Forall (fun c' => disjoint_regions (target_region c) (source c', len (blob c'))) l) l ->
  Forall (fun c => disjoint_regions (qs, 20) (source c, len (blob c))) l ->
  exists m', moves m qs l = Some m' /\ has m' qs (sd_bytes v (moved_words w l)) /\
    Forall (fun c => has m' (target c) (blob c)) l /\
    forall r, disjoint_regions (qs, 20) r -> Forall (fun c => disjoint_regions (target_region c) r) l ->
      agree m m' r.
Proof.
  revert m w. induction l as [|c l IH]; intros m w Hq HR HW HP HS HQ.
  { exists m. split_and!; [done|done|done|]. by intros r _ _ a _. }
  apply Forall_cons in HR as [Hc HR]. apply Forall_cons in HW as [Wc HW].
  apply Forall_cons in HS as [Sc HS]. apply Forall_cons in Sc as [_ Sc].
  apply Forall_cons in HQ as [_ HQ].
  inversion_clear HP as [|? ? Pq HP']. cbn [map] in Pq, HP'. apply Forall_cons in Pq as [Pqc Pq].
  inversion_clear HP' as [|? ? Pc HP].
  destruct Hc as (Hk & Hh & H0 & H1). specialize (H1 m ltac:(by intros a _)).
  destruct (MoveComponent_run m qs v w (member c) (source c) (target c) (blob c) (length_of c))
    as (m1 & E1 & Q1 & G1 & A1); try done; try by apply disjoint_sym.
  assert (HR1 : Forall (readable m1) l).
  { rewrite Forall_forall in HR, Sc, HQ |- *. intros c' Hin. eapply readable_agree; [by apply HR|].
    apply A1; [by apply Sc|by apply HQ]. }
  assert (HW1 : Forall (fun c' => writable m1 (target_region c')) l).
  { rewrite Forall_map in Pc, Pq. rewrite Forall_forall in HW, Pc, Pq |- *. intros c' Hin.
    eapply writable_agree; [by apply HW|]. apply A1; [by apply Pc|by apply Pq]. }
  destruct (IH m1 (word_for (member c) w (blob c) (target c))) as (m2 & E2 & Q2 & G2 & A2); try done.
  - by constructor.
  - eapply Forall_impl; [exact HS|]. intros c' [_ H]%Forall_cons. done.
  - exists m2. cbn [moves]. rewrite E1. cbn [mbind option_bind]. split_and!; [done|done| |].
    + constructor; [|done]. eapply has_agree; [exact G1|]. apply A2; [done|].
      rewrite Forall_map in Pc. eapply Forall_impl; [exact Pc|]. intros c' H. by apply disjoint_sym.
    + intros r Hr [Hrc Hrl]%Forall_cons. eapply agree_trans; [by apply A1|by apply A2].
Qed.

Lemma sid_readable m k q dst o :
  is_member k -> sid_part m q o -> readable m (mkMove k q dst (sid_blob o) RtlLengthSid).
Proof.
  intros Hk H. split_and!; simpl; [done|by apply sid_part_has|by apply (sid_source m)|].
  intros m' Ha. apply sid_source. by eapply sid_part_frame.
Qed.

Lemma acl_readable m k q dst o :
  is_member k -> acl_part m q o -> readable m (mkMove k q dst (acl_blob o) AclSize).
Proof.
  intros Hk H. split_and!; simpl; [done|by apply acl_part_has|by apply (acl_source m)|].
  intros m' Ha. apply acl_source. by eapply acl_part_frame.
Qed.

Definition sd_moves (p : Z) (v : descriptor) (w : words) (d : buffers) : list move :=
  [mkMove 4 (owner_ptr p v w) (bowner d) (sid_blob (owner v)) RtlLengthSid;
   mkMove 8 (group_ptr p v w) (bgroup d) (sid_blob (group v)) RtlLengthSid;
   mkMove 16 (dacl_ptr p v w) (bdacl d) (acl_blob (dacl v)) AclSize;
   mkMove 12 (sacl_ptr p v w) (bsacl d) (acl_blob (sacl v)) AclSize].

Lemma moved_absolute p v w d : moved_words no_words (sd_moves p v w d) = absolute_words v d.
Proof.
  unfold absolute_words, moved_words. simpl.
  by destruct (acl_blob (sacl v)), (acl_blob (dacl v)), (sid_blob (owner v)), (sid_blob (group v)).
Qed.

Lemma sd_moves_run m p v w d :
  sd_in m p v w -> good_buffers m p v w d -> has m (bsd d) (sd_bytes (absolute v) no_words) ->
  exists m', moves m (bsd d) (sd_moves p v w d) = Some m' /\
    has m' (bsd d) (sd_bytes (absolute v) (absolute_words v d)) /\
    Forall (fun c => has m' (target c) (blob c)) (sd_moves p v w d) /\
    forall r, Forall (fun e => disjoint_regions e r) (buffer_regions v d) -> agree m m' r.
Proof.
  intros Hsd [HW HP HS _] Hh. rewrite <- (moved_absolute p v w d).
  unfold buffer_regions, regions in *.
  destruct (moves_run m (bsd d) (absolute v) no_words (sd_moves p v w d)) as (m' & E & Q & G & A);
    [done|..|exists m'; split_and!; [done..|]].
  - unfold sd_moves. rewrite !Forall_cons. destruct Hsd as [_ _ _ H1 H2 H3 H4].
    split_and!; [apply sid_readable|apply sid_readable|apply acl_readable|apply acl_readable|done];
      (done || unfold is_member; lia).
  - unfold sd_moves. rewrite !Forall_cons in HW. unfold target_region.
    repeat (constructor; [simpl; tauto|]). constructor.
  - exact HP.
  - unfold sd_moves. rewrite !Forall_cons in HS. unfold target_region.
    repeat (constructor; [repeat (constructor; [simpl; tauto|]); constructor|]). constructor.
  - unfold sd_moves. rewrite !Forall_cons in HS. repeat (constructor; [simpl; tauto|]). constructor.
  - intros r Hr. rewrite !Forall_cons in Hr. apply A; [tauto|]. unfold sd_moves, target_region.
    repeat (constructor; [simpl; tauto|]). constructor.
Qed.

Lemma buffer_sid m q o :
  has m q (sid_blob o) -> (forall s, o = Some s -> wf_sid s) ->
  (len (sid_blob o) = 0 \/ 0 < q /\ q + len (sid_blob o) <= 2 ^ 31) ->
  is_word (offset (sid_blob o) q) /\ sid_part m (offset (sid_blob o) q) o.
Proof.
  intros Hh Hw Hr. destruct o as [s|]; [|by split; [|done]]. simpl offset.
  assert (0 < q /\ q + len (sid_blob (Some s)) <= 2 ^ 31) as [H1 H2] by (by destruct Hr as [Hr|Hr]).
  pose proof (len_nonneg (sid_blob (Some s))). unfold is_word. split; [lia|].
  unfold sid_part. unfold len, sid_blob, from_option in *. split_and!; [lia|lia|]. split; [by apply Hw|done].
Qed.

Lemma buffer_acl m q o :
  has m q (acl_blob o) -> (forall a, o = Some a -> exists p, acl_ok p a) ->
  (len (acl_blob o) = 0 \/ 0 < q /\ q + len (acl_blob o) <= 2 ^ 31) ->
  is_word (offset (acl_blob o) q) /\ acl_part m (offset (acl_blob o) q) o.
Proof.
  intros Hh Hw Hr. destruct o as [a|]; [|by split; [|done]]. simpl offset.
  assert (0 < q /\ q + len (acl_blob (Some a)) <= 2 ^ 31) as [H1 H2] by (by destruct Hr as [Hr|Hr]).
  pose proof (len_nonneg (acl_blob (Some a))). unfold is_word. split; [lia|].
  unfold acl_part. apply acl_at_bytes. split; [|done]. destruct (Hw a eq_refl) as [p [A1 A2 A3 A4]].
  unfold len, acl_blob, from_option in *. rewrite length_acl_bytes in *. split; try done; lia.
Qed.

Definition enough (v : descriptor) (sizes : sd_sizes) : Prop :=
  20 <= AbsoluteSDSize sizes /\ len (sid_blob (owner v)) <= OwnerSize sizes /\
  len (sid_blob (group v)) <= PrimaryGroupSize sizes /\ len (acl_blob (dacl v)) <= DaclSize sizes /\
  len (acl_blob (sacl v)) <= SaclSize sizes.

(** The buffers after the structure was written. *)
Lemma good_buffers_start m m5 p v w d :
  good_buffers m p v w d -> same_except m m5 (bsd d) 20 -> writable m5 (bsd d, 20) ->
  good_buffers m5 p v w d.
Proof.
  intros [HW HP HS HR] S5 W5. split; try done. unfold buffer_regions in *.
  inversion_clear HP as [|? ? Pq _]. rewrite !Forall_cons in Pq. rewrite !Forall_cons in HW.
  assert (Hw : forall r, writable m r -> disjoint_regions (bsd d, 20) r -> writable m5 r).
  { intros r Hwr Hdr. eapply writable_agree; [done|]. by eapply same_agree. }
  constructor; [done|]. repeat (constructor; [apply Hw; tauto|]). constructor.
Qed.

Lemma to_absolute_run m p v w d sizes :
  sd_in m p v w -> aligned v -> flag (control v) SE_SELF_RELATIVE = true ->
  good_buffers m p v w d -> enough v sizes ->
  exists m', RtlSelfRelativeToAbsoluteSD m p (bsd d) (bdacl d) (bsacl d) (bowner d) (bgroup d) sizes
      = Some (STATUS_SUCCESS, m', sizes) /\
    sd_in m' (bsd d) (absolute v) (absolute_words v d) /\
    forall r, Forall (fun e => disjoint_regions e r) (buffer_regions v d) -> agree m m' r.
Proof.
  intros Hsd Hal Hf Hgb (N1 & N2 & N3 & N4 & N5). pose proof Hgb as [HW HP HS HR].
  unfold buffer_regions in HW, HS, HR. rewrite !Forall_cons in HW, HS, HR.
  destruct HR as (R0 & Ro & Rg & Rd & Rs & _). simpl in R0, Ro, Rg, Rd, Rs.
  destruct (absolute_start m p v w (bsd d) Hsd (proj1 HW))
    as (m0 & m1 & m2 & m3 & m4 & m5 & E0 & E1 & E2 & E3 & E4 & E5 & G5 & S5).
  assert (Hsd5 : sd_in m5 p v w).
  { eapply sd_frame; [exact Hsd|]. eapply Forall_impl; [apply (proj1 HS)|].
    intros r Hr. by eapply same_agree. }
  assert (Hgb5 : good_buffers m5 p v w d).
  { eapply good_buffers_start; [done|done|]. exists (sd_bytes (absolute v) no_words).
    split; [done|]. unfold len. by rewrite length_sd_bytes. }
  destruct (sd_moves_run m5 p v w d Hsd5 Hgb5 G5) as (m' & E & Q & G & A). exists m'. split_and!.
  - unfold RtlSelfRelativeToAbsoluteSD. rewrite (SdControl_in Hsd). cbn [mbind option_bind].
    rewrite Hf. cbn [negb]. rewrite (query_run Hsd Hal). cbn [mbind option_bind].
    unfold sizeof_SECURITY_DESCRIPTOR in *. rewrite (proj2 (Z.eqb_neq _ _)) by lia.
    rewrite !(proj2 (Z.ltb_ge _ _)) by done. cbn [orb]. rewrite E0. cbn [mbind option_bind].
    rewrite E1. cbn [mbind option_bind]. rewrite E2. cbn [mbind option_bind]. rewrite E3.
    cbn [mbind option_bind]. rewrite E4. cbn [mbind option_bind]. rewrite E5.
    cbn [mbind option_bind]. revert E. unfold sd_moves. cbn [moves source target length_of member].
    repeat (match goal with |- context [MoveComponent ?a ?b ?c ?e ?f ?g] =>
      destruct (MoveComponent a b c e f g); cbn [mbind option_bind]; [|done] end).
    by intros [= ->].
  - unfold sd_moves in G. rewrite !Forall_cons in G. simpl in G. destruct G as (Go & Gg & Gd & Gs & _).
    destruct Hsd as [Hp Hrg Hhd Po Pg Ps Pd].
    destruct (buffer_sid _ _ _ Go (sid_part_wf _ _ _ Po) Ro) as [W1 P1].
    destruct (buffer_sid _ _ _ Gg (sid_part_wf _ _ _ Pg) Rg) as [W2 P2].
    destruct (buffer_acl _ _ _ Gd (acl_part_ok _ _ _ Pd) Rd) as [W3 P3].
    destruct (buffer_acl _ _ _ Gs (acl_part_ok _ _ _ Ps) Rs) as [W4 P4].
    by eapply (absolute_sd_in _ _ _ _ m p w); [by split|lia|lia|..].
  - intros r Hr. eapply agree_trans; [|by apply A]. unfold buffer_regions in Hr.
    rewrite !Forall_cons in Hr. eapply same_agree; [exact S5|]. apply Hr.
Qed.
