(* ===== verification/SdClaims.v ===== *)
(** * Security descriptors: properties

    What the functions of [src/sdk/lib/rtl/sd.c] do to descriptors as values, on a sample
    memory, and where the checks of a self-relative descriptor and the conversion disagree. *)

From Stdlib Require Import ZArith Lia Bool.
From stdpp Require Import base option list numbers gmap.
From S2P Require Import Prelude Memory Sid SidProps Acl AclProps AclClaims Sd SdProps SdAbsolute.
Open Scope Z_scope.

(** ** Back and forth *)

Lemma absolute_relative v : flag (control v) SE_SELF_RELATIVE = false -> absolute (relative v) = v.
Proof.
  intros Hf. destruct v as [b c o g s d]. unfold absolute, relative, with_control. simpl in *.
  f_equal. change SE_SELF_RELATIVE with (2 ^ 15) in *. rewrite flag_bit in Hf by lia.
  apply Z.bits_inj'. intros i Hi.
  rewrite Z.land_spec, Z.lor_spec, Z.lnot_spec, Z.pow2_bits_eqb by lia.
  destruct (Z.eqb_spec 15 i) as [<-|]; [by rewrite Hf|by rewrite orb_false_r, andb_true_r].
Qed.

(** C10: [RtlMakeSelfRelativeSD] into a large enough buffer apart from the descriptor writes the
    self-relative form of the same descriptor and nothing else; [RtlSelfRelativeToAbsoluteSD]
    of the result into buffers of the sizes it asks for gives the absolute descriptor back. *)
Theorem self_relative_roundtrip m p v w q n old :
  sd_in m p v w -> aligned v -> flag (control v) SE_SELF_RELATIVE = false ->
  has m q old -> len old = sd_size v -> sd_size v <= n ->
  Forall (apart q (sd_size v)) (regions p v w) -> 0 < q -> q + sd_size v <= 2 ^ 31 ->
  exists m', RtlMakeSelfRelativeSD m p q n = Some (STATUS_SUCCESS, m', n) /\
    sd_in m' q (relative v) (relative_words v) /\ same_except m m' q (sd_size v) /\
    forall d sizes, good_buffers m' q (relative v) (relative_words v) d -> enough v sizes ->
      exists m'' w'',
        RtlSelfRelativeToAbsoluteSD m' q (bsd d) (bdacl d) (bsacl d) (bowner d) (bgroup d) sizes
          = Some (STATUS_SUCCESS, m'', sizes) /\
        sd_in m'' (bsd d) v w''.
Proof.
  intros Hsd Hal Hf Hold Hlen Hn Hap Hq Hmax.
  destruct (make_relative_run m p v w q n old) as (m' & E & G & S); try done.
  pose proof (relative_sd_in _ _ _ _ _ _ Hsd Hq Hmax G) as Hrel.
  exists m'. split_and!; [done..|]. intros d sizes Hb He.
  destruct (to_absolute_run m' q (relative v) (relative_words v) d sizes) as (m'' & E' & H' & _);
    try done; [apply relative_flags|].
  rewrite absolute_relative in H' by done. by eauto.
Qed.

(** [RtlLengthSecurityDescriptor] is the size of the self-relative form, and
    [RtlMakeSelfRelativeSD] into a smaller buffer reports it and changes nothing. *)
Theorem sd_length_required m p v w q n :
  sd_in m p v w -> aligned v ->
  RtlLengthSecurityDescriptor m p = Some (sd_size v) /\
  len (relative_bytes v) = sd_size v /\
  (n < sd_size v -> RtlMakeSelfRelativeSD m p q n = Some (STATUS_BUFFER_TOO_SMALL, m, sd_size v)).
Proof.
  intros Hsd Hal. split_and!; [by eapply RtlLengthSecurityDescriptor_run|apply length_relative_bytes|].
  intros Hn. pose proof (sd_size_range Hsd) as Hsz. unfold RtlMakeSelfRelativeSD.
  rewrite (query_run Hsd Hal). cbn [mbind option_bind]. unfold sizeof_SECURITY_DESCRIPTOR.
  replace (u32 _) with (sd_size v) by (rewrite u32_small; unfold sd_size in *; lia).
  by destruct (Z.ltb_spec n (sd_size v)); [|lia].
Qed.

(** [RtlSelfRelativeToAbsoluteSD2] turns a self-relative descriptor whose components lie
    behind the structure into the absolute form in place: only the structure changes. *)
Theorem absolute_in_place m p v w b :
  sd_in m p v w -> aligned v -> flag (control v) SE_SELF_RELATIVE = true -> b <> 0 ->
  Forall (apart p 20) (drop 1 (regions p v w)) ->
  exists m' w', RtlSelfRelativeToAbsoluteSD2 m p b = Some (STATUS_SUCCESS, m') /\
    sd_in m' p (absolute v) w' /\ same_except m m' p 20.
Proof. apply in_place_run. Qed.

(** ** What the check of a self-relative descriptor guarantees *)

Lemma validate_inside o L k n :
  RtlpValidateSDOffsetAndSize o L k = (true, n) -> L < 2 ^ 32 ->
  20 <= o < L /\ n = L - o /\ ROUND_DOWN o 4 = o.
Proof.
  unfold RtlpValidateSDOffsetAndSize, sizeof_SECURITY_DESCRIPTOR. intros H HL. revert H.
  destruct (Z.ltb_spec o 20); [done|]. destruct (Z.leb_spec L o); [done|].
  rewrite (u32_small (L - o)) by lia.
  destruct (L - o <? k); [done|]. destruct (Z.eqb_spec (ROUND_DOWN o 4) o); [|done].
  simpl. intros [= <-]. split_and!; [lia|lia|done|done].
Qed.

(** A component at the offset [o] of the [L] bytes at [p]: aligned, behind the structure, and
    of a size that fits. *)
Definition inside (p L o : Z) (sz : Z -> option Z) : Prop :=
  20 <= o /\ ROUND_DOWN o 4 = o /\ exists n, sz (u32 (o + p)) = Some n /\ o + n <= L.

Lemma ValidRelativeSid_inside m p o L req :
  ValidRelativeSid m p o L req = Some true -> L < 2 ^ 32 ->
  o = 0 /\ req = false \/ RtlValidSid m (u32 (o + p)) = true /\ inside p L o (RtlLengthSid m).
Proof.
  unfold ValidRelativeSid. intros H HL. revert H.
  destruct (Z.eqb_spec o 0) as [->|Ho]; cbn [negb]; [destruct req; [done|by left]|].
  destruct (RtlpValidateSDOffsetAndSize o L sizeof_SID) as [[] n] eqn:E; [|done]. cbn [negb].
  destruct (validate_inside _ _ _ _ E HL) as (H1 & -> & H2).
  destruct (RtlValidSid m (u32 (o + p))); [|done]. cbn [negb].
  destruct (RtlLengthSid m (u32 (o + p))) as [n|] eqn:En; [|done]. cbn [mbind option_bind].
  destruct (Z.ltb_spec (L - o) n); [done|]. intros _. right. split; [done|].
  split_and!; [lia|done|]. exists n. split; [done|lia].
Qed.

Lemma ValidRelativeAcl_inside m p k L present :
  ValidRelativeAcl m p k L present = Some true -> L < 2 ^ 32 ->
  present = false \/
  exists o, ld32 m (p + k) = Some o /\ RtlValidAcl m (u32 (o + p)) = true /\ inside p L o (AclSize m).
Proof.
  unfold ValidRelativeAcl. intros H HL. revert H. destruct present; [|by left].
  destruct (ld32 m (p + k)) as [o|]; [|done]. cbn [mbind option_bind].
  destruct (RtlpValidateSDOffsetAndSize o L sizeof_ACL) as [[] n] eqn:E; [|done]. cbn [negb].
  destruct (validate_inside _ _ _ _ E HL) as (H1 & -> & H2).
  destruct (RtlValidAcl m (u32 (o + p))) eqn:Ev; [|done]. cbn [negb].
  destruct (AclSize m (u32 (o + p))) as [n|] eqn:En; [|done]. cbn [mbind option_bind].
  destruct (Z.ltb_spec (L - o) n); [done|]. intros _. right. exists o. split_and!; [done..|].
  split_and!; [lia|done|]. exists n. split; [done|lia].
Qed.

(** C29: a descriptor that [RtlValidRelativeSecurityDescriptor] accepts is self-relative, and its
    owner, group, SACL and DACL are valid, aligned, behind the structure and inside of the
    given length; the required SIDs are there. *)
Theorem valid_relative_inside m p L req :
  L < 2 ^ 32 -> RtlValidRelativeSecurityDescriptor m p L req = Some true ->
  20 <= L /\ exists c o g, SdControl m p = Some c /\ SdOwner m p = Some o /\ SdGroup m p = Some g /\
    flag c SE_SELF_RELATIVE = true /\
    (o = 0 /\ flag req OWNER_SECURITY_INFORMATION = false \/
     RtlValidSid m (u32 (o + p)) = true /\ inside p L o (RtlLengthSid m)) /\
    (g = 0 /\ flag req GROUP_SECURITY_INFORMATION = false \/
     RtlValidSid m (u32 (g + p)) = true /\ inside p L g (RtlLengthSid m)) /\
    (flag c SE_DACL_PRESENT = false \/ exists d, SdDacl m p = Some d /\
     RtlValidAcl m (u32 (d + p)) = true /\ inside p L d (AclSize m)) /\
    (flag c SE_SACL_PRESENT = false \/ exists s, SdSacl m p = Some s /\
     RtlValidAcl m (u32 (s + p)) = true /\ inside p L s (AclSize m)).
Proof.
  intros HL. unfold RtlValidRelativeSecurityDescriptor, sizeof_SECURITY_DESCRIPTOR.
  destruct (Z.ltb_spec L 20); [done|].
  destruct (SdRevision m p) as [r|]; [|done]. cbn [mbind option_bind].
  destruct (r =? SECURITY_DESCRIPTOR_REVISION); [|done]. cbn [negb].
  destruct (SdControl m p) as [c|]; [|done]. cbn [mbind option_bind].
  destruct (flag c SE_SELF_RELATIVE) eqn:Ef; [|done]. cbn [negb].
  destruct (SdOwner m p) as [o|]; [|done]. cbn [mbind option_bind].
  destruct (ValidRelativeSid m p o L _) as [[]|] eqn:Eo; cbn [mbind option_bind negb]; [|done|done].
  destruct (SdGroup m p) as [g|]; [|done]. cbn [mbind option_bind].
  destruct (ValidRelativeSid m p g L _) as [[]|] eqn:Eg; cbn [mbind option_bind negb]; [|done|done].
  destruct (ValidRelativeAcl m p 16 L _) as [[]|] eqn:Ed; cbn [mbind option_bind negb]; [|done|done].
  intros Es. split; [done|]. exists c, o, g. split_and!; [done..| | | |].
  - by apply ValidRelativeSid_inside in Eo.
  - by apply ValidRelativeSid_inside in Eg.
  - by apply ValidRelativeAcl_inside in Ed.
  - by apply ValidRelativeAcl_inside in Es.
Qed.

(** ** What is built is accepted *)

Lemma validate_ok o L k :
  20 <= o -> (4 | o) -> 0 < k -> o + k <= L -> L < 2 ^ 32 ->
  RtlpValidateSDOffsetAndSize o L k = (true, L - o).
Proof.
  intros Ho Hd Hk HL Hmax. unfold RtlpValidateSDOffsetAndSize, sizeof_SECURITY_DESCRIPTOR.
  assert (ROUND_DOWN o 4 = o) as -> by (apply (ROUND_DOWN_multiple 2); lia || done).
  rewrite (u32_small (L - o)), Z.eqb_refl by lia. by zcases.
Qed.

Lemma RtlValidSid_good m q s : sid_at m q s -> good_sid s -> RtlValidSid m q = true.
Proof.
  intros Hs (_ & Hr & Hc). unfold RtlValidSid. destruct (q =? 0); [done|].
  pose proof (sid_parts Hs) as (R1 & _ & _). rewrite (ld8_lookup _ _ _ R1), Hr.
  cbn [mbind option_bind]. rewrite (sid_count Hs). simpl.
  by destruct (Z.ltb_spec SID_MAX_SUB_AUTHORITIES (Z.of_nat (length (SubAuthority s)))); [lia|].
Qed.

(** A SID that every check accepts: good, with at least one subauthority. *)
Definition accepted_sid (s : sid) : Prop := good_sid s /\ (1 <= length (SubAuthority s))%nat.

Definition accepted_acl (a : acl) : Prop := Forall known_ace (aces a).

Lemma ValidRelativeSid_ok m c q x L req o :
  sid_part m (Target c q (offset (sid_blob o) x)) o -> flag c SE_SELF_RELATIVE = true -> 0 < q ->
  20 <= x -> (4 | x) -> x + len (sid_blob o) <= L -> q + L < 2 ^ 32 ->
  (req = true -> o <> None) -> (forall s, o = Some s -> accepted_sid s) ->
  ValidRelativeSid m q (offset (sid_blob o) x) L req = Some true.
Proof.
  intros Hp Hf Hq Hx Hd HL Hmax Hreq Hacc. unfold ValidRelativeSid. destruct o as [s|].
  2: { simpl. destruct req; [|done]. by destruct (Hreq eq_refl). }
  unfold Target in Hp. rewrite Hf in Hp. simpl offset in *.
  destruct (Z.eqb_spec x 0); [lia|]. cbn [negb].
  destruct (Hacc s eq_refl) as [Hg Hn]. pose proof (length_sid_bytes s (proj1 Hg)) as Hlen.
  unfold len, sid_blob, from_option in HL. destruct Hp as (_ & _ & Hs). unfold sizeof_SID.
  rewrite validate_ok by (done || lia). cbn [negb]. rewrite (Z.add_comm x q).
  rewrite (RtlValidSid_good _ _ _ Hs Hg). cbn [negb]. rewrite (RtlLengthSid_at Hs).
  cbn [mbind option_bind]. by destruct (Z.ltb_spec (L - x) (Z.of_nat (length (sid_bytes s)))); [lia|].
Qed.

Lemma ValidRelativeAcl_ok m c q x k L (present : bool) o :
  acl_part m (if present then Target c q (offset (acl_blob o) x) else 0) o ->
  ld32 m (q + k) = Some (offset (acl_blob o) x) -> flag c SE_SELF_RELATIVE = true -> 0 < q ->
  20 <= x -> (4 | x) -> x + len (acl_blob o) <= L -> q + L < 2 ^ 32 ->
  (present = true -> o <> None) -> (4 | len (acl_blob o)) -> (forall a, o = Some a -> accepted_acl a) ->
  ValidRelativeAcl m q k L present = Some true.
Proof.
  intros Hp Hw Hf Hq Hx Hd HL Hmax Hpr Hal Hacc. unfold ValidRelativeAcl.
  destruct present; [|done]. destruct o as [a|]; [|by destruct (Hpr eq_refl)].
  rewrite Hw. cbn [mbind option_bind]. unfold Target in Hp. rewrite Hf in Hp. simpl offset in *.
  destruct (Z.eqb_spec x 0); [lia|]. unfold acl_part in Hp.
  unfold len, acl_blob, from_option in HL, Hal. rewrite length_acl_bytes in *.
  pose proof (acl_bounds (a := a)). unfold sizeof_ACL.
  rewrite validate_ok by (done || lia). cbn [negb]. rewrite (Z.add_comm x q).
  rewrite (RtlValidAcl_known Hp (Hacc a eq_refl)); [|destruct Hal as [j ->]; exists (2 * j); lia].
  cbn [negb]. rewrite (AclSize_at Hp). cbn [mbind option_bind].
  by destruct (Z.ltb_spec (L - x) (size a)); [lia|].
Qed.

(** The words of a self-relative form are multiples of four. *)
Lemma relative_lengths m p v w :
  sd_in m p v w -> aligned v ->
  (4 | len (acl_blob (sacl v))) /\ (4 | len (acl_blob (dacl v))) /\ (4 | len (sid_blob (owner v))) /\
  (4 | len (sid_blob (group v))).
Proof.
  intros Hsd [A1 A2]. split_and!; [done|done| |].
  - eapply sid_part_len, Hsd.
  - eapply sid_part_len, Hsd.
Qed.

(** The self-relative form of a descriptor is accepted with its exact length. *)
Lemma relative_form_accepted m q v req :
  sd_in m q (relative v) (relative_words v) -> aligned v -> q + sd_size v < 2 ^ 32 ->
  (forall s, owner v = Some s -> accepted_sid s) -> (forall s, group v = Some s -> accepted_sid s) ->
  (forall a, sacl v = Some a -> accepted_acl a) -> (forall a, dacl v = Some a -> accepted_acl a) ->
  (flag (control v) SE_SACL_PRESENT = true -> sacl v <> None) ->
  (flag (control v) SE_DACL_PRESENT = true -> dacl v <> None) ->
  (flag req OWNER_SECURITY_INFORMATION = true -> owner v <> None) ->
  (flag req GROUP_SECURITY_INFORMATION = true -> group v <> None) ->
  RtlValidRelativeSecurityDescriptor m q (sd_size v) req = Some true.
Proof.
  intros Hsd Hal Hmax Ho Hg Hs Hd Ps Pd Ro Rg.
  destruct (relative_flags v) as (Fr & Fs & Fd). pose proof (sd_size_range Hsd) as Hsz.
  pose proof (sd_pos _ _ _ _ Hsd) as [Hq _].
  destruct (relative_lengths _ _ _ _ Hsd Hal) as (D1 & D2 & D3 & D4). simpl in D1, D2, D3, D4.
  assert (D0 : (4 | 20)) by (by exists 5).
  unfold RtlValidRelativeSecurityDescriptor, sizeof_SECURITY_DESCRIPTOR.
  change (sd_size (relative v)) with (sd_size v) in Hsz.
  destruct (Z.ltb_spec (sd_size v) 20); [lia|].
  rewrite (SdRevision_in Hsd). cbn [mbind option_bind]. rewrite Z.eqb_refl. cbn [negb].
  rewrite (SdControl_in Hsd). cbn [mbind option_bind]. rewrite Fr. cbn [negb].
  rewrite (SdOwner_in Hsd), (SdGroup_in Hsd), Fs, Fd. cbn [mbind option_bind].
  pose proof (SdDacl_in Hsd) as Ld. pose proof (SdSacl_in Hsd) as Ls.
  destruct Hsd as [_ _ _ Po Pg Psa Pda]. unfold sacl_ptr in Psa. unfold dacl_ptr in Pda.
  rewrite Fs in Psa. rewrite Fd in Pda. unfold sd_size in Hmax |- *.
  pose proof (len_nonneg (acl_blob (sacl v))). pose proof (len_nonneg (acl_blob (dacl v))).
  pose proof (len_nonneg (sid_blob (owner v))). pose proof (len_nonneg (sid_blob (group v))).
  unfold owner_ptr in Po. unfold group_ptr in Pg. unfold SdDacl in Ld. unfold SdSacl in Ls.
  cbn [relative_words wowner wgroup wsacl wdacl owner group sacl dacl relative with_control] in *.
  rewrite !len_app in *.
  assert (Ha : forall a b, (4 | a) -> (4 | b) -> (4 | a + b)) by (intros a b; apply Z.divide_add_r).
  erewrite ValidRelativeSid_ok; [|exact Pg|first [done|lia|by auto 6]..].
  erewrite ValidRelativeSid_ok; [|exact Po|first [done|lia|by auto]..]. cbn [mbind option_bind negb].
  erewrite ValidRelativeAcl_ok; [|exact Psa|exact Ls|first [done|lia|by auto]..].
  erewrite ValidRelativeAcl_ok; [done|exact Pda|exact Ld|first [done|lia|by auto]..].
Qed.

(** C30: [RtlMakeSelfRelativeSD] into a buffer that is large enough and apart from the descriptor
    succeeds, and [RtlValidRelativeSecurityDescriptor] accepts what it has written with the exact
    length.  The conditions: the ACLs have sizes that are multiples of four, the SIDs are
    of revision 1 with 1 to 15 sub authorities, the ACEs are of the known types, no ACL is
    marked as present without being there, and the SIDs that the check requires are there. *)
Theorem made_relative_accepted m p v w q n old req :
  sd_in m p v w -> aligned v ->
  has m q old -> len old = sd_size v -> sd_size v <= n ->
  Forall (apart q (sd_size v)) (regions p v w) -> 0 < q -> q + sd_size v <= 2 ^ 31 ->
  (forall s, owner v = Some s -> accepted_sid s) -> (forall s, group v = Some s -> accepted_sid s) ->
  (forall a, sacl v = Some a -> accepted_acl a) -> (forall a, dacl v = Some a -> accepted_acl a) ->
  (flag (control v) SE_SACL_PRESENT = true -> sacl v <> None) ->
  (flag (control v) SE_DACL_PRESENT = true -> dacl v <> None) ->
  (flag req OWNER_SECURITY_INFORMATION = true -> owner v <> None) ->
  (flag req GROUP_SECURITY_INFORMATION = true -> group v <> None) ->
  exists m', RtlMakeSelfRelativeSD m p q n = Some (STATUS_SUCCESS, m', n) /\
    RtlValidRelativeSecurityDescriptor m' q (sd_size v) req = Some true.
Proof.
  intros Hsd Hal Hold Hlen Hn Hap Hq Hmax Ho Hg Hs Hd Ps Pd Ro Rg.
  destruct (make_relative_run m p v w q n old) as (m' & E & G & _); try done. exists m'. split; [done|].
  apply relative_form_accepted; [by eapply relative_sd_in|done|lia|done..].
Qed.

(** The check of a descriptor of either form, which follows the pointers. *)
Lemma valid_descriptor m p v w :
  sd_in m p v w ->
  (forall s, owner v = Some s -> accepted_sid s) -> (forall s, group v = Some s -> accepted_sid s) ->
  (forall a, sacl v = Some a -> accepted_acl a /\ (2 | size a)) ->
  (forall a, dacl v = Some a -> accepted_acl a /\ (2 | size a)) ->
  RtlValidSecurityDescriptor m p = true.
Proof.
  intros Hsd Ho Hg Hs Hd. unfold RtlValidSecurityDescriptor.
  rewrite (SdRevision_in Hsd), (get_owner Hsd), (get_group Hsd), (get_dacl Hsd), (get_sacl Hsd).
  cbn [mbind option_bind]. rewrite Z.eqb_refl. cbn [negb].
  assert (Hsid : forall q o, sid_part m q o -> (forall s, o = Some s -> accepted_sid s) ->
    negb (q =? 0) && negb (RtlValidSid m q) = false).
  { intros q [s|] Hp Hacc; [|by simpl in Hp; subst q]. destruct Hp as (_ & _ & Hp).
    rewrite (RtlValidSid_good m q s Hp); [by rewrite andb_false_r|]. by apply Hacc. }
  assert (Hacl : forall q o, acl_part m q o -> (forall a, o = Some a -> accepted_acl a /\ (2 | size a)) ->
    negb (q =? 0) && negb (RtlValidAcl m q) = false).
  { intros q [a|] Hp Hacc; [|by simpl in Hp; subst q]. destruct (Hacc a eq_refl).
    rewrite (RtlValidAcl_known Hp); [by rewrite andb_false_r|done..]. }
  destruct Hsd as [_ _ _ Po Pg Ps Pd].
  by rewrite (Hsid _ _ Po Ho), (Hsid _ _ Pg Hg), (Hacl _ _ Pd Hd), (Hacl _ _ Ps Hs).
Qed.

(** a descriptor that grants everything, with a DACL that is present and null, is valid for
    [RtlValidSecurityDescriptor] in both forms, but its self-relative form is never accepted by
    [RtlValidRelativeSecurityDescriptor]. *)
Theorem null_dacl_refused m q v L req :
  sd_in m q (relative v) (relative_words v) -> flag (control v) SE_DACL_PRESENT = true ->
  dacl v = None ->
  (forall s, owner v = Some s -> accepted_sid s) -> (forall s, group v = Some s -> accepted_sid s) ->
  (forall a, sacl v = Some a -> accepted_acl a /\ (2 | size a)) ->
  RtlValidSecurityDescriptor m q = true /\
  RtlValidRelativeSecurityDescriptor m q L req <> Some true.
Proof.
  intros Hsd Hf Hnone Ho Hg Hs. split.
  { eapply valid_descriptor; [exact Hsd|done..|]. simpl. rewrite Hnone. done. }
  destruct (relative_flags v) as (Fr & Fs & Fd). unfold RtlValidRelativeSecurityDescriptor.
  rewrite (SdRevision_in Hsd), (SdControl_in Hsd), (SdOwner_in Hsd), (SdGroup_in Hsd).
  cbn [mbind option_bind]. rewrite Z.eqb_refl, Fr, Fd, Hf. cbn [negb].
  pose proof (SdDacl_in Hsd) as Ld. unfold SdDacl in Ld. cbn [relative_words wdacl] in Ld.
  rewrite Hnone in Ld. simpl offset in Ld.
  replace (ValidRelativeAcl m q 16 L true) with (Some false)
    by (unfold ValidRelativeAcl; by rewrite Ld).
  destruct (L <? _); [done|].
  by repeat (destruct (ValidRelativeSid _ _ _ _ _) as [[]|]; cbn [mbind option_bind negb]).
Qed.

(** ** Setting and getting *)

Lemma control_run (f : Z -> Z) m p v w :
  0 <= control v < 2 ^ 16 -> 0 <= f (control v) < 2 ^ 16 -> has m p (sd_bytes v w) ->
  exists m', (Control ← SdControl m p; st16 m (p + 2) (f Control)) = Some m' /\
    has m' p (sd_bytes (with_control v (f (control v))) w) /\ same_except m m' (p + 2) 2.
Proof.
  intros Hc Hf H. rewrite <- (app_nil_r (sd_bytes v w)) in H. rewrite (sd_control _ _ _ _ _ Hc H).
  cbn [mbind option_bind]. destruct (store_control m p v w [] (f (control v)) H) as (m' & E & G & S).
  unfold u16 in G. rewrite Z.mod_small, app_nil_r in G by done. by exists m'.
Qed.

Lemma lor_control_range c k : 0 <= c < 2 ^ 16 -> 0 <= k < 16 -> 0 <= Z.lor c (2 ^ k) < 2 ^ 16.
Proof.
  intros H Hk. apply lor_range; [lia|done|]. split; [apply Z.pow_nonneg; lia|].
  apply Z.pow_lt_mono_r; lia.
Qed.

Lemma land_control_range c k : 0 <= c < 2 ^ 16 -> 0 <= Z.land c (Z.lnot k) < 2 ^ 16.
Proof.
  intros H. apply bits_range; [lia| |].
  - apply Z.land_nonneg. left. lia.
  - intros i Hi. rewrite Z.land_spec. by rewrite (testbit_above 16 c) by lia.
Qed.

Lemma SetDefaulted_run m p v w k (b : bool) :
  0 <= control v < 2 ^ 16 -> 0 <= k < 16 -> has m p (sd_bytes v w) ->
  exists m' c, SetDefaulted m p (2 ^ k) b = Some m' /\ has m' p (sd_bytes (with_control v c) w) /\
    0 <= c < 2 ^ 16 /\
    (forall j, 0 <= j -> flag c (2 ^ j) = if k =? j then b else flag (control v) (2 ^ j)) /\
    same_except m m' (p + 2) 2.
Proof.
  intros Hc Hk H. unfold SetDefaulted.
  destruct (control_run (fun c => Z.land c (Z.lnot (2 ^ k))) m p v w) as (m1 & E1 & G1 & S1);
    [done|by apply land_control_range|done|].
  unfold ClearControl. rewrite E1. cbn [mbind option_bind].
  pose proof (land_control_range (control v) (2 ^ k) Hc) as Hc1. destruct b.
  - destruct (control_run (fun c => Z.lor c (2 ^ k)) m1 p
      (with_control v (Z.land (control v) (Z.lnot (2 ^ k)))) w Hc1) as (m2 & E2 & G2 & S2);
      [by apply lor_control_range|done|].
    unfold SetControl. rewrite E2. eexists m2, _. split_and!; [done|exact G2|..].
    + by apply lor_control_range.
    + by apply lor_control_range.
    + intros j Hj. simpl. rewrite flag_lor, flag_clear, Z.eqb_sym by lia. by destruct (k =? j).
    + intros r Hr. rewrite S2, S1 by lia. done.
  - eexists m1, _. split_and!; [done|exact G1|lia|lia| |done].
    intros j Hj. simpl. rewrite flag_clear, Z.eqb_sym by lia. by destruct (k =? j).
Qed.

(** on an absolute descriptor [RtlSetDaclSecurityDescriptor] makes the given DACL the one
    that [RtlGetDaclSecurityDescriptor] returns, with its defaulted flag, and changes neither
    the other members nor any other memory; on a self-relative one it is refused. *)
Theorem set_dacl_get_dacl m p v w d def :
  has m p (sd_bytes v w) -> 0 <= control v < 2 ^ 16 -> is_word d ->
  (flag (control v) SE_SELF_RELATIVE = true ->
   RtlSetDaclSecurityDescriptor m p true d def = Some (STATUS_INVALID_SECURITY_DESCR, m)) /\
  (flag (control v) SE_SELF_RELATIVE = false -> exists m' c,
   RtlSetDaclSecurityDescriptor m p true d def = Some (STATUS_SUCCESS, m') /\
   RtlGetDaclSecurityDescriptor m' p = Some (STATUS_SUCCESS, Some (true, Some (d, def))) /\
   has m' p (sd_bytes (with_control v c) (set_word 16 w d)) /\
   (forall j, 0 <= j -> j <> 2 -> j <> 3 -> flag c (2 ^ j) = flag (control v) (2 ^ j)) /\
   same_except m m' p 20).
Proof.
  intros H Hc Hd. pose proof H as H0. rewrite <- (app_nil_r (sd_bytes v w)) in H0.
  assert (R : SdRevision m p = Some SECURITY_DESCRIPTOR_REVISION).
  { apply sd_fields in H. apply ld8_lookup. tauto. }
  unfold RtlSetDaclSecurityDescriptor, SetChecks. rewrite R. cbn [mbind option_bind].
  rewrite Z.eqb_refl. cbn [negb]. rewrite (sd_control _ _ _ _ _ Hc H0). cbn [mbind option_bind].
  split; intros Hf; rewrite Hf; [done|]. cbn [negb]. rewrite Z.eqb_refl. cbn [negb].
  destruct (set_word_run m p v w [] 16 d) as (m1 & E1 & G1 & S1); [unfold is_member; lia|done|].
  rewrite E1. cbn [mbind option_bind]. rewrite app_nil_r in G1.
  destruct (control_run (fun c => Z.lor c (2 ^ 2)) m1 p v _ Hc ltac:(by apply lor_control_range) G1)
    as (m2 & E2 & G2 & S2).
  unfold SetControl. change SE_DACL_PRESENT with (2 ^ 2). rewrite E2. cbn [mbind option_bind].
  assert (Hc2 : 0 <= Z.lor (control v) (2 ^ 2) < 2 ^ 16) by (by apply lor_control_range).
  destruct (SetDefaulted_run m2 p (with_control v (Z.lor (control v) (2 ^ 2))) _ 3 def Hc2 ltac:(lia) G2) as (m3 & c & E3 & G3 & Rc & Fc & S3).
  change SE_DACL_DEFAULTED with (2 ^ 3). rewrite E3. cbn [mbind option_bind].
  exists m3, c. change (with_control (with_control v (Z.lor (control v) (2 ^ 2))) c) with (with_control v c) in G3.
  assert (Fl : flag c (2 ^ 2) = true /\ flag c (2 ^ 3) = def /\ flag c (2 ^ 15) = false).
  { rewrite !Fc by lia. simpl. change 4 with (2 ^ 2). change 32768 with (2 ^ 15).
    split_and!; [by rewrite (flag_lor _ 2 2) by lia|done|].
    rewrite (flag_lor _ 15 2) by lia. exact Hf. }
  destruct Fl as (F2 & F3 & F15). split_and!; [done| |done| |].
  - apply sd_fields in G3 as Gf. destruct Gf as (B1 & _ & B3 & _ & _ & _ & B7).
    unfold RtlGetDaclSecurityDescriptor, SepGetDaclFromDescriptor, SdRevision, SdControl, SdDacl.
    rewrite (ld8_lookup _ _ _ B1), (ld16_has _ _ _ Rc B3), (ld32_has _ _ _ Hd B7).
    cbn [mbind option_bind]. rewrite Z.eqb_refl. cbn [negb]. simpl control.
    change SE_DACL_PRESENT with (2 ^ 2). change SE_DACL_DEFAULTED with (2 ^ 3). rewrite F2, F3.
    cbn [negb mbind option_bind]. unfold Target. change SE_SELF_RELATIVE with (2 ^ 15). by rewrite F15.
  - intros j Hj N2 N3. rewrite Fc by lia. destruct (Z.eqb_spec 3 j); [lia|]. simpl control.
    rewrite flag_lor by lia. by destruct (Z.eqb_spec j 2); [lia|].
  - intros r Hr. rewrite S3, S2, S1 by lia. done.
Qed.

(** ** Copying *)

Lemma load_none m p n q : p <= q < p + Z.of_nat n -> m !! q = None -> load m p n = None.
Proof.
  revert p. induction n as [|n IH]; intros p Hq Hn; [lia|]. cbn [load].
  destruct (m !! p) eqn:E; [|done]. cbn [mbind option_bind].
  rewrite (IH (p + 1)); [done|destruct (decide (p = q)); [congruence|lia]|done].
Qed.

(** [RtlCopySecurityDescriptor] copies as many bytes from the address of the descriptor as
    its self-relative form has: the copy of an absolute descriptor that has components reads
    past the end of the structure, and faults when the memory behind it is not mapped. *)
Theorem copy_reads_past_structure `{ByteAllocator} m p v w q :
  sd_in m p v w -> aligned v -> 20 < sd_size v -> balloc m (sd_size v) = Some q ->
  m !! (p + 20) = None -> p + 20 < q \/ q + sd_size v <= p + 20 ->
  RtlCopySecurityDescriptor m p = None.
Proof.
  intros Hsd Hal Hsz Hb Hn Hq. pose proof (sd_size_range Hsd) as Hr. unfold RtlCopySecurityDescriptor.
  rewrite (query_run Hsd Hal). cbn [mbind option_bind]. unfold sizeof_SECURITY_DESCRIPTOR.
  replace (u32 _) with (sd_size v) by (rewrite u32_small; unfold sd_size in *; lia). rewrite Hb.
  unfold RtlCopyMemory, RtlMoveMemory. rewrite (load_none _ _ _ (p + 20)); [done|lia|].
  rewrite (map_bytes_same (Z.to_nat (sd_size v)) q garbage m) by lia. done.
Qed.

(** ** A sample memory *)

Module SdExample.

Ltac regions_apart :=
  repeat (apply List.Forall_cons; [vm_compute; first [left; discriminate|right; discriminate]|]);
  apply List.Forall_nil.

(** An absolute descriptor at 2000 whose owner, group and DACL are at 100, 200 and 1000, and
    buffers for the conversions. *)
Definition sample : descriptor :=
  mkSd 0 SE_DACL_PRESENT (Some everyone) (Some administrators) None (Some sample_acl).

Definition sample_words : words := mkWords 100 200 0 1000.

Definition zeros (p : Z) (n : nat) : list (Z * Z) := zip (seqZ p (Z.of_nat n)) (replicate n 0).

Definition bytes_at (p : Z) (b : list Z) : list (Z * Z) := zip (seqZ p (Z.of_nat (length b))) b.

Definition sd_memory : mem :=
  list_to_map (bytes_at 100 (sid_bytes everyone) ++ bytes_at 200 (sid_bytes administrators)
    ++ bytes_at 1000 (acl_bytes sample_acl) ++ bytes_at 2000 (sd_bytes sample sample_words)
    ++ zeros 3000 124 ++ zeros 4000 20 ++ zeros 4100 12 ++ zeros 4200 16 ++ zeros 4300 76).

Lemma sample_sids m p q :
  has m p (sid_bytes everyone) -> has m q (sid_bytes administrators) ->
  sid_at m p everyone /\ sid_at m q administrators.
Proof. intros H1 H2. split; (split; [apply everyone_wf|done]). Qed.

Lemma sample_acl_ok p : 0 < p <= 2 ^ 20 -> acl_ok p sample_acl.
Proof.
  intros Hp. change (acl_ok p sample_acl). split.
  - change (size sample_acl) with 76. lia.
  - change (size sample_acl) with 76. lia.
  - vm_compute. split; discriminate.
  - repeat constructor. apply known_is_ace, sample_known.
Qed.

Lemma sample_in : sd_in sd_memory 2000 sample sample_words.
Proof.
  destruct (sample_sids sd_memory 100 200) as [H1 H2]; [by vm_compute..|].
  split; [lia| |by vm_compute|..].
  - unfold is_byte, is_word. simpl. unfold SE_DACL_PRESENT. lia.
  - change (sid_part sd_memory 100 (Some everyone)). split_and!; [lia|vm_compute; discriminate|done].
  - change (sid_part sd_memory 200 (Some administrators)).
    split_and!; [lia|vm_compute; discriminate|done].
  - done.
  - change (acl_at sd_memory 1000 sample_acl). apply acl_at_bytes.
    split; [by apply sample_acl_ok|by vm_compute].
Qed.

Lemma sample_aligned : aligned sample.
Proof. split; [exists 0|exists 19]; reflexivity. Qed.

Lemma sample_apart : Forall (apart 3000 (sd_size sample)) (regions 2000 sample sample_words).
Proof. change (sd_size sample) with 124. unfold regions. regions_apart. Qed.

Lemma self_relative_roundtrip_witness :
  exists m', RtlMakeSelfRelativeSD sd_memory 2000 3000 124 = Some (STATUS_SUCCESS, m', 124) /\
    sd_in m' 3000 (relative sample) (relative_words sample) /\
    same_except sd_memory m' 3000 124 /\
    forall d sizes, good_buffers m' 3000 (relative sample) (relative_words sample) d ->
      enough sample sizes ->
      exists m'' w'',
        RtlSelfRelativeToAbsoluteSD m' 3000 (bsd d) (bdacl d) (bsacl d) (bowner d) (bgroup d) sizes
          = Some (STATUS_SUCCESS, m'', sizes) /\
        sd_in m'' (bsd d) sample w''.
Proof.
  apply (self_relative_roundtrip sd_memory 2000 sample sample_words 3000 124 (replicate 124 0)
    sample_in sample_aligned eq_refl).
  - by vm_compute.
  - reflexivity.
  - vm_compute. discriminate.
  - exact sample_apart.
  - lia.
  - vm_compute. discriminate.
Defined.

Lemma sd_length_required_witness :
  RtlLengthSecurityDescriptor sd_memory 2000 = Some 124 /\
  len (relative_bytes sample) = 124 /\
  (100 < 124 -> RtlMakeSelfRelativeSD sd_memory 2000 3000 100 = Some (STATUS_BUFFER_TOO_SMALL, sd_memory, 124)).
Proof. exact (sd_length_required sd_memory 2000 sample sample_words 3000 100 sample_in sample_aligned). Defined.

(** The self-relative form in memory of its own. *)
Definition relative_memory : mem := list_to_map (bytes_at 3000 (relative_bytes sample)).

Lemma relative_in : sd_in relative_memory 3000 (relative sample) (relative_words sample).
Proof.
  apply (relative_sd_in sd_memory _ 2000 sample sample_words 3000 sample_in);
    [lia|vm_compute; discriminate|by vm_compute].
Qed.

Lemma absolute_in_place_witness :
  exists m' w', RtlSelfRelativeToAbsoluteSD2 relative_memory 3000 8 = Some (STATUS_SUCCESS, m') /\
    sd_in m' 3000 (absolute (relative sample)) w' /\ same_except relative_memory m' 3000 20.
Proof.
  apply (absolute_in_place relative_memory 3000 (relative sample) (relative_words sample) 8 relative_in
    sample_aligned eq_refl); [lia|].
  simpl drop. regions_apart.
Defined.

Lemma made_relative_accepted_witness :
  exists m', RtlMakeSelfRelativeSD sd_memory 2000 3000 124 = Some (STATUS_SUCCESS, m', 124) /\
    RtlValidRelativeSecurityDescriptor m' 3000 124 3 = Some true.
Proof.
  apply (made_relative_accepted sd_memory 2000 sample sample_words 3000 124 (replicate 124 0) 3
    sample_in sample_aligned).
  - by vm_compute.
  - reflexivity.
  - vm_compute. discriminate.
  - exact sample_apart.
  - lia.
  - vm_compute. discriminate.
  - intros s [= <-]. split; [apply everyone_good|simpl; lia].
  - intros s [= <-]. split; [apply everyone_good|simpl; lia].
  - done.
  - intros a [= <-]. apply sample_aces_known.
  - done.
  - done.
  - done.
  - done.
Defined.

Lemma valid_relative_inside_witness :
  20 <= 124 /\ exists c o g, SdControl relative_memory 3000 = Some c /\
    SdOwner relative_memory 3000 = Some o /\ SdGroup relative_memory 3000 = Some g /\
    flag c SE_SELF_RELATIVE = true /\
    (o = 0 /\ flag 3 OWNER_SECURITY_INFORMATION = false \/
     RtlValidSid relative_memory (u32 (o + 3000)) = true /\
     inside 3000 124 o (RtlLengthSid relative_memory)) /\
    (g = 0 /\ flag 3 GROUP_SECURITY_INFORMATION = false \/
     RtlValidSid relative_memory (u32 (g + 3000)) = true /\
     inside 3000 124 g (RtlLengthSid relative_memory)) /\
    (flag c SE_DACL_PRESENT = false \/ exists d, SdDacl relative_memory 3000 = Some d /\
     RtlValidAcl relative_memory (u32 (d + 3000)) = true /\
     inside 3000 124 d (AclSize relative_memory)) /\
    (flag c SE_SACL_PRESENT = false \/ exists s, SdSacl relative_memory 3000 = Some s /\
     RtlValidAcl relative_memory (u32 (s + 3000)) = true /\
     inside 3000 124 s (AclSize relative_memory)).
Proof. apply (valid_relative_inside relative_memory 3000 124 3); [lia|by vm_compute]. Defined.

(** A descriptor with a present null DACL. *)
Definition open_sd : descriptor := mkSd 0 SE_DACL_PRESENT (Some everyone) None None None.

Definition open_memory : mem := list_to_map (bytes_at 3000 (relative_bytes open_sd)).

Lemma open_in : sd_in open_memory 3000 (relative open_sd) (relative_words open_sd).
Proof.
  assert (has open_memory 3020 (sid_bytes everyone)) as H by (by vm_compute).
  split; [lia| |by vm_compute| |done|done|done].
  - unfold is_byte, is_word. split_and!; vm_compute; first [reflexivity|discriminate].
  - change (sid_part open_memory 3020 (Some everyone)).
    split_and!; [lia|vm_compute; discriminate|]. split; [apply everyone_wf|done].
Qed.

Lemma null_dacl_refused_witness :
  RtlValidSecurityDescriptor open_memory 3000 = true /\
  RtlValidRelativeSecurityDescriptor open_memory 3000 32 0 <> Some true.
Proof.
  apply (null_dacl_refused open_memory 3000 open_sd 32 0 open_in eq_refl eq_refl); [|done|done].
  intros s [= <-]. split; [apply everyone_good|simpl; lia].
Defined.

Lemma set_dacl_get_dacl_witness :
  (flag (control sample) SE_SELF_RELATIVE = true ->
   RtlSetDaclSecurityDescriptor sd_memory 2000 true 4300 true
     = Some (STATUS_INVALID_SECURITY_DESCR, sd_memory)) /\
  (flag (control sample) SE_SELF_RELATIVE = false -> exists m' c,
   RtlSetDaclSecurityDescriptor sd_memory 2000 true 4300 true = Some (STATUS_SUCCESS, m') /\
   RtlGetDaclSecurityDescriptor m' 2000 = Some (STATUS_SUCCESS, Some (true, Some (4300, true))) /\
   has m' 2000 (sd_bytes (with_control sample c) (set_word 16 sample_words 4300)) /\
   (forall j, 0 <= j -> j <> 2 -> j <> 3 -> flag c (2 ^ j) = flag (control sample) (2 ^ j)) /\
   same_except sd_memory m' 2000 20).
Proof.
  apply (set_dacl_get_dacl sd_memory 2000 sample sample_words 4300 true).
  - by vm_compute.
  - simpl. unfold SE_DACL_PRESENT. lia.
  - unfold is_word. lia.
Defined.

(** A descriptor with nothing behind its structure, and an allocator with a block at 1000. *)
Definition lone_words : words := mkWords 100 200 0 500.

Definition lone_memory : mem :=
  list_to_map (bytes_at 100 (sid_bytes everyone) ++ bytes_at 200 (sid_bytes administrators)
    ++ bytes_at 500 (acl_bytes sample_acl) ++ bytes_at 2000 (sd_bytes sample lone_words)).

Lemma lone_in : sd_in lone_memory 2000 sample lone_words.
Proof.
  destruct (sample_sids lone_memory 100 200) as [H1 H2]; [by vm_compute..|].
  split; [lia| |by vm_compute|..].
  - unfold is_byte, is_word. simpl. unfold SE_DACL_PRESENT. lia.
  - change (sid_part lone_memory 100 (Some everyone)). split_and!; [lia|vm_compute; discriminate|done].
  - change (sid_part lone_memory 200 (Some administrators)).
    split_and!; [lia|vm_compute; discriminate|done].
  - done.
  - change (acl_at lone_memory 500 sample_acl). apply acl_at_bytes.
    split; [by apply sample_acl_ok|by vm_compute].
Qed.

Lemma copy_reads_past_structure_witness :
  @RtlCopySecurityDescriptor block_allocator lone_memory 2000 = None.
Proof.
  apply (@copy_reads_past_structure block_allocator lone_memory 2000 sample lone_words 1000 lone_in
    sample_aligned).
  - vm_compute. reflexivity.
  - vm_compute. reflexivity.
  - vm_compute. reflexivity.
  - right. vm_compute. discriminate.
Defined.

End SdExample.
