(* ===== verification/AccessCheck.v ===== *)
(** * Access checks (ntoskrnl/se/access.c, priv.c, accesschk.c and sdk/lib/rtl/access.c)

    The check of a requested access against a token and the DACL of a security descriptor.
    SIDs, ACLs and descriptors are in byte memory (files [Sid], [Acl], [Sd]); a token is a
    record whose arrays are lists, with the SIDs by address.  Locks are left out.  An ASSERT
    fails, which is a fault, in the checked build only ([DBG]). *)

From Stdlib Require Import ZArith Lia Bool.
From stdpp Require Import base option list numbers gmap.
From S2P Require Import Prelude Memory Sid Acl Sd.
Open Scope Z_scope.

Definition READ_CONTROL : Z := 0x00020000.
Definition WRITE_DAC : Z := 0x00040000.
Definition WRITE_OWNER : Z := 0x00080000.
Definition ACCESS_SYSTEM_SECURITY : Z := 0x01000000.
Definition MAXIMUM_ALLOWED : Z := 0x02000000.
Definition GENERIC_ALL : Z := 0x10000000.
Definition GENERIC_EXECUTE : Z := 0x20000000.
Definition GENERIC_WRITE : Z := 0x40000000.
Definition GENERIC_READ : Z := 0x80000000.

Definition INHERIT_ONLY_ACE : Z := 0x8.
Definition SE_GROUP_ENABLED : Z := 0x4.
Definition SE_GROUP_USE_FOR_DENY_ONLY : Z := 0x10.
Definition SE_PRIVILEGE_ENABLED : Z := 0x2.
Definition SE_PRIVILEGE_USED_FOR_ACCESS : Z := 0x80000000.
Definition PRIVILEGE_SET_ALL_NECESSARY : Z := 1.
Definition TOKEN_IS_RESTRICTED : Z := 0x10.
Definition SecurityIdentification : Z := 1.
Definition SecurityImpersonation : Z := 2.
Definition TokenImpersonation : Z := 2.

Definition LUID : Type := Z * Z.
Definition SeTcbPrivilege : LUID := (7, 0).
Definition SeSecurityPrivilege : LUID := (8, 0).
Definition SeTakeOwnershipPrivilege : LUID := (9, 0).

Definition RtlEqualLuid (Luid1 Luid2 : LUID) : bool := (Luid1.1 =? Luid2.1) && (Luid1.2 =? Luid2.2).

Inductive KPROCESSOR_MODE := KernelMode | UserMode.

(** ** Masks *)

Record GENERIC_MAPPING := mkMapping {
  GenericRead : Z; GenericWrite : Z; GenericExecute : Z; GenericAll : Z
}.

Definition RtlAreAllAccessesGranted (GrantedAccess DesiredAccess : Z) : bool :=
  Z.land (not32 GrantedAccess) DesiredAccess =? 0.

Definition RtlAreAnyAccessesGranted (GrantedAccess DesiredAccess : Z) : bool :=
  flag GrantedAccess DesiredAccess.

Definition RtlMapGenericMask (AccessMask : Z) (GenericMapping : GENERIC_MAPPING) : Z :=
  let a := AccessMask in
  let a := if flag a GENERIC_READ then Z.lor a (GenericRead GenericMapping) else a in
  let a := if flag a GENERIC_WRITE then Z.lor a (GenericWrite GenericMapping) else a in
  let a := if flag a GENERIC_EXECUTE then Z.lor a (GenericExecute GenericMapping) else a in
  let a := if flag a GENERIC_ALL then Z.lor a (GenericAll GenericMapping) else a in
  Z.land a (not32 (Z.lor GENERIC_READ (Z.lor GENERIC_WRITE (Z.lor GENERIC_EXECUTE GENERIC_ALL)))).

(** ** Tokens *)

Record SID_AND_ATTRIBUTES := mkSidAttr { SidPtr : Z; SidAttributes : Z }.
Record LUID_AND_ATTRIBUTES := mkLuidAttr { Luid : LUID; LuidAttributes : Z }.

Record TOKEN := mkToken {
  UserAndGroups : list SID_AND_ATTRIBUTES;
  RestrictedSids : list SID_AND_ATTRIBUTES;
  Privileges : list LUID_AND_ATTRIBUTES;
  TokenFlags : Z; TokenType : Z; TokenImpersonationLevel : Z
}.

Record SECURITY_SUBJECT_CONTEXT := mkSubject {
  ClientToken : option TOKEN; ImpersonationLevel : Z; PrimaryToken : TOKEN
}.

Definition SubjectToken (c : SECURITY_SUBJECT_CONTEXT) : TOKEN := default (PrimaryToken c) (ClientToken c).

Section Checks.

(** The checked build, and the addresses of two SIDs that the kernel sets up. *)
Variables (DBG : bool) (SePrincipalSelfSid SeWorldSid : Z).

Definition assert_ (ok : bool) : option unit := if DBG && negb ok then None else Some tt.

(** The loop of [SepSidInTokenEx] from the index [i] on. *)
Fixpoint SidLoop (m : mem) (l : list SID_AND_ATTRIBUTES) (first : bool)
    (Sid SidLength SidMetadata : Z) (Deny : bool) : option bool :=
  match l with
  | [] => Some false
  | SidAndAttributes :: l' =>
      let TokenSid := SidPtr SidAndAttributes in
      metadata ← ld16 m TokenSid;
      same ← (if metadata =? SidMetadata then RtlEqualMemory m Sid TokenSid SidLength else Some false);
      if (same : bool) then
        let Attributes := SidAttributes SidAndAttributes in
        Some ((first && negb (flag Attributes SE_GROUP_USE_FOR_DENY_ONLY)) ||
              flag Attributes SE_GROUP_ENABLED ||
              (Deny && flag Attributes SE_GROUP_USE_FOR_DENY_ONLY))
      else SidLoop m l' false Sid SidLength SidMetadata Deny
  end.

Definition SepSidInTokenEx (m : mem) (Token : TOKEN) (PrincipalSelfSid Sid : Z)
    (Deny Restricted : bool) : option bool :=
  _ ← assert_ (PrincipalSelfSid =? 0);
  _ ← assert_ (negb Restricted);
  self ← (if negb (PrincipalSelfSid =? 0) then RtlEqualSid m SePrincipalSelfSid Sid else Some false);
  let Sid := if (self : bool) then PrincipalSelfSid else Sid in
  let SidAndAttributes := if Restricted then RestrictedSids Token else UserAndGroups Token in
  count ← ld8 m (Sid + 1);
  SidMetadata ← ld16 m Sid;
  SidLoop m SidAndAttributes true Sid (8 + 4 * count) SidMetadata Deny.

Definition SepSidInToken (m : mem) (Token : TOKEN) (Sid : Z) : option bool :=
  SepSidInTokenEx m Token 0 Sid false false.

Definition SepTokenIsOwner (m : mem) (Token : TOKEN) (SecurityDescriptor : Z) : option bool :=
  Sid ← SepGetOwnerFromDescriptor m SecurityDescriptor;
  _ ← assert_ (negb (Sid =? 0));
  Result ← SepSidInToken m Token Sid;
  if Result && flag (TokenFlags Token) TOKEN_IS_RESTRICTED
  then SepSidInTokenEx m Token 0 Sid false true else Some Result.

(** ** Privileges *)

(** The inner loop of [SepPrivilegeCheck]: whether the first entry with the LUID is enabled. *)
Fixpoint PrivilegeHeld (l : list LUID_AND_ATTRIBUTES) (p : LUID) : bool :=
  match l with
  | [] => false
  | e :: l' =>
      if RtlEqualLuid (Luid e) p then flag (LuidAttributes e) SE_PRIVILEGE_ENABLED
      else PrivilegeHeld l' p
  end.

(** The outer loop; the results are whether all that is required was found, what is still
    required, and the requested privileges with the attributes of those that were used. *)
Fixpoint PrivilegeLoop (held : list LUID_AND_ATTRIBUTES) (l : list LUID_AND_ATTRIBUTES) (Required : Z)
    : bool * Z * list LUID_AND_ATTRIBUTES :=
  match l with
  | [] => (false, Required, [])
  | p :: l' =>
      if PrivilegeHeld held (Luid p) then
        let p := mkLuidAttr (Luid p) (Z.lor (LuidAttributes p) SE_PRIVILEGE_USED_FOR_ACCESS) in
        let Required := u32 (Required - 1) in
        if Required =? 0 then (true, Required, p :: l') else
        let '(ok, Required, l') := PrivilegeLoop held l' Required in (ok, Required, p :: l')
      else
        let '(ok, Required, l') := PrivilegeLoop held l' Required in (ok, Required, p :: l')
  end.

(** The BOOLEAN and [Privileges]. *)
Definition SepPrivilegeCheck (Token : TOKEN) (Requested : list LUID_AND_ATTRIBUTES)
    (PrivilegeControl : Z) (PreviousMode : KPROCESSOR_MODE) : option (bool * list LUID_AND_ATTRIBUTES) :=
  match PreviousMode with
  | KernelMode => Some (true, Requested)
  | UserMode =>
      let Required :=
        if flag PrivilegeControl PRIVILEGE_SET_ALL_NECESSARY then Z.of_nat (length Requested) else 1 in
      let '(ok, Required, Requested) := PrivilegeLoop (Privileges Token) Requested Required in
      if (ok : bool) then Some (true, Requested) else
      _ ← assert_ (0 <? Required);
      Some (false, Requested)
  end.

Definition SepSinglePrivilegeCheck (PrivilegeValue : LUID) (Token : TOKEN)
    (PreviousMode : KPROCESSOR_MODE) : option bool :=
  _ ← assert_ (negb (RtlEqualLuid PrivilegeValue SeTcbPrivilege));
  '(Result, _) ← SepPrivilegeCheck Token [mkLuidAttr PrivilegeValue SE_PRIVILEGE_ENABLED]
    PRIVILEGE_SET_ALL_NECESSARY PreviousMode;
  Some Result.

Definition SePrivilegeCheck (Requested : list LUID_AND_ATTRIBUTES) (Control : Z)
    (SubjectContext : SECURITY_SUBJECT_CONTEXT) (PreviousMode : KPROCESSOR_MODE)
    : option (bool * list LUID_AND_ATTRIBUTES) :=
  match ClientToken SubjectContext with
  | None => SepPrivilegeCheck (PrimaryToken SubjectContext) Requested Control PreviousMode
  | Some Token =>
      if ImpersonationLevel SubjectContext <? 2 then Some (false, Requested)
      else SepPrivilegeCheck Token Requested Control PreviousMode
  end.

(** The set that [SePrivilegePolicyCheck] reports. *)
Definition UsedPrivileges (AccessMask : Z) : list LUID_AND_ATTRIBUTES :=
  (if flag AccessMask WRITE_OWNER
   then [mkLuidAttr SeTakeOwnershipPrivilege SE_PRIVILEGE_USED_FOR_ACCESS] else []) ++
  (if flag AccessMask ACCESS_SYSTEM_SECURITY
   then [mkLuidAttr SeSecurityPrivilege SE_PRIVILEGE_USED_FOR_ACCESS] else []).

(** [OutPrivilegeSet] tells whether the caller wants a privilege set and, if so, whether its
    allocation succeeds.  The results are the status, [*DesiredAccess], [*GrantedAccess] and
    [*OutPrivilegeSet]. *)
Definition SePrivilegePolicyCheck (DesiredAccess GrantedAccess : Z)
    (SubjectContext : option SECURITY_SUBJECT_CONTEXT) (Token : TOKEN) (OutPrivilegeSet : option bool)
    (PreviousMode : KPROCESSOR_MODE)
    : option (NTSTATUS * Z * Z * option (list LUID_AND_ATTRIBUTES)) :=
  let Token := match SubjectContext with Some c => SubjectToken c | None => Token end in
  security ← (if flag DesiredAccess ACCESS_SYSTEM_SECURITY
              then SepSinglePrivilegeCheck SeSecurityPrivilege Token PreviousMode else Some true);
  if negb security then Some (STATUS_PRIVILEGE_NOT_HELD, DesiredAccess, GrantedAccess, None) else
  ownership ← (if flag DesiredAccess WRITE_OWNER
               then SepSinglePrivilegeCheck SeTakeOwnershipPrivilege Token PreviousMode else Some false);
  let AccessMask :=
    Z.lor (if flag DesiredAccess ACCESS_SYSTEM_SECURITY then ACCESS_SYSTEM_SECURITY else 0)
          (if (ownership : bool) then WRITE_OWNER else 0) in
  let GrantedAccess := Z.lor GrantedAccess AccessMask in
  let DesiredAccess := Z.land DesiredAccess (not32 AccessMask) in
  match OutPrivilegeSet with
  | None => Some (STATUS_SUCCESS, DesiredAccess, GrantedAccess, None)
  | Some allocated =>
      match UsedPrivileges AccessMask with
      | [] => Some (STATUS_SUCCESS, DesiredAccess, GrantedAccess, None)
      | used =>
          if negb allocated
          then Some (STATUS_INSUFFICIENT_RESOURCES, DesiredAccess, GrantedAccess, None)
          else Some (STATUS_SUCCESS, DesiredAccess, GrantedAccess, Some used)
      end
  end.

(** ** The DACL *)

Definition AceFlags (m : mem) (Ace : Z) : option Z := ld8 m (Ace + 1).
Definition AceMask (m : mem) (Ace : Z) : option Z := ld32 m (Ace + 4).

(** The loop that finds the maximum allowed access: granted and denied rights. *)
Fixpoint MaximumLoop (n : nat) (m : mem) (CurrentAce : Z) (Token : TOKEN) (gm : GENERIC_MAPPING)
    (TempGranted TempDenied : Z) : option Z :=
  match n with
  | O => Some TempGranted
  | S n' =>
      Flags ← AceFlags m CurrentAce;
      '(TempGranted, TempDenied) ←
        (if negb (flag Flags INHERIT_ONLY_ACE) then
           let Sid := u32 (CurrentAce + 8) in
           Type_ ← AceType m CurrentAce;
           if Type_ =? ACCESS_DENIED_ACE_TYPE then
             here ← SepSidInToken m Token Sid;
             if (here : bool) then
               mask ← AceMask m CurrentAce;
               let TempAccess := RtlMapGenericMask mask gm in
               Some (TempGranted, Z.lor TempDenied (Z.land TempAccess (not32 TempGranted)))
             else Some (TempGranted, TempDenied)
           else if Type_ =? ACCESS_ALLOWED_ACE_TYPE then
             here ← SepSidInToken m Token Sid;
             if (here : bool) then
               mask ← AceMask m CurrentAce;
               let TempAccess := RtlMapGenericMask mask gm in
               Some (Z.lor TempGranted (Z.land TempAccess (not32 TempDenied)), TempDenied)
             else Some (TempGranted, TempDenied)
           else Some (TempGranted, TempDenied)
         else Some (TempGranted, TempDenied));
      size ← AceSize m CurrentAce;
      MaximumLoop n' m (u32 (CurrentAce + size)) Token gm TempGranted TempDenied
  end.

(** The loop that takes away the rights that are granted, and leaves at a denial; the result is
    the remaining rights. *)
Fixpoint GrantLoop (n : nat) (m : mem) (CurrentAce : Z) (Token : TOKEN) (gm : GENERIC_MAPPING)
    (RemainingAccess : Z) : option Z :=
  match n with
  | O => Some RemainingAccess
  | S n' =>
      Flags ← AceFlags m CurrentAce;
      '(stop, RemainingAccess) ←
        (if negb (flag Flags INHERIT_ONLY_ACE) then
           let Sid := u32 (CurrentAce + 8) in
           Type_ ← AceType m CurrentAce;
           if Type_ =? ACCESS_DENIED_ACE_TYPE then
             here ← SepSidInToken m Token Sid;
             if (here : bool) then
               mask ← AceMask m CurrentAce;
               let TempAccess := RtlMapGenericMask mask gm in
               Some (flag RemainingAccess TempAccess, RemainingAccess)
             else Some (false, RemainingAccess)
           else if Type_ =? ACCESS_ALLOWED_ACE_TYPE then
             here ← SepSidInToken m Token Sid;
             if (here : bool) then
               mask ← AceMask m CurrentAce;
               let TempAccess := RtlMapGenericMask mask gm in
               Some (false, Z.land RemainingAccess (not32 TempAccess))
             else Some (false, RemainingAccess)
           else Some (false, RemainingAccess)
         else Some (false, RemainingAccess));
      if (stop : bool) then Some RemainingAccess else
      size ← AceSize m CurrentAce;
      GrantLoop n' m (u32 (CurrentAce + size)) Token gm RemainingAccess
  end.

(** The granted access and the status, up to [ReturnCommonStatus]. *)
Definition AccessCheck (m : mem) (SecurityDescriptor : Z) (Subject : SECURITY_SUBJECT_CONTEXT)
    (DesiredAccess PreviouslyGrantedAccess : Z) (gm : GENERIC_MAPPING) : option (Z * NTSTATUS) :=
  if DesiredAccess =? 0 then
    if PreviouslyGrantedAccess =? 0 then Some (PreviouslyGrantedAccess, STATUS_ACCESS_DENIED)
    else Some (PreviouslyGrantedAccess, STATUS_SUCCESS)
  else
  let DesiredAccess := RtlMapGenericMask DesiredAccess gm in
  let PreviouslyGrantedAccess :=
    if negb (PreviouslyGrantedAccess =? 0) then RtlMapGenericMask PreviouslyGrantedAccess gm
    else PreviouslyGrantedAccess in
  let Token := SubjectToken Subject in
  '(Status, RemainingAccess, PreviouslyGrantedAccess, _) ←
    SePrivilegePolicyCheck DesiredAccess PreviouslyGrantedAccess None Token None UserMode;
  if negb (NT_SUCCESS Status) then Some (PreviouslyGrantedAccess, Status) else
  if RemainingAccess =? 0 then Some (PreviouslyGrantedAccess, STATUS_SUCCESS) else
  '(Status, present) ← RtlGetDaclSecurityDescriptor m SecurityDescriptor;
  match present with
  | None => Some (PreviouslyGrantedAccess, Status)
  | Some (Present, out) =>
      let Dacl := match out with Some (Dacl, _) => Dacl | None => 0 end in
      if negb Present || (Dacl =? 0) then
        let granted := Z.lor PreviouslyGrantedAccess RemainingAccess in
        Some (if flag RemainingAccess MAXIMUM_ALLOWED
              then Z.lor (Z.land granted (not32 MAXIMUM_ALLOWED)) (GenericAll gm) else granted,
              STATUS_SUCCESS)
      else
      count ← AceCount m Dacl;
      if count =? 0 then
        if (RemainingAccess =? MAXIMUM_ALLOWED) && negb (PreviouslyGrantedAccess =? 0)
        then Some (PreviouslyGrantedAccess, STATUS_SUCCESS)
        else Some (0, STATUS_ACCESS_DENIED)
      else if flag DesiredAccess MAXIMUM_ALLOWED then
        TempGranted ← MaximumLoop (Z.to_nat count) m (u32 (Dacl + 8)) Token gm 0 0;
        let RemainingAccess := Z.land RemainingAccess (not32 (Z.lor MAXIMUM_ALLOWED TempGranted)) in
        if negb (RemainingAccess =? 0) then Some (0, STATUS_ACCESS_DENIED) else
        let granted := Z.lor PreviouslyGrantedAccess TempGranted in
        Some (granted, if negb (granted =? 0) then STATUS_SUCCESS else STATUS_ACCESS_DENIED)
      else
        _ ← GrantLoop (Z.to_nat count) m (u32 (Dacl + 8)) Token gm RemainingAccess;
        let granted := Z.lor PreviouslyGrantedAccess DesiredAccess in
        if granted =? 0 then Some (granted, STATUS_ACCESS_DENIED) else Some (granted, STATUS_SUCCESS)
  end.

(** The BOOLEAN, [*Privileges], [GrantedAccessList] and [AccessStatusList].  [Privileges] is the
    pointer that the caller has at [*Privileges]; it is set to NULL if there is nothing to
    check and something was granted before. *)
Definition SepAccessCheck (m : mem) (SecurityDescriptor : Z) (Subject : SECURITY_SUBJECT_CONTEXT)
    (DesiredAccess ObjectTypeListLength PreviouslyGrantedAccess Privileges : Z) (gm : GENERIC_MAPPING)
    (UseResultList : bool) : option (bool * Z * list Z * list NTSTATUS) :=
  '(Granted, Status) ← AccessCheck m SecurityDescriptor Subject DesiredAccess PreviouslyGrantedAccess gm;
  let Privileges :=
    if (DesiredAccess =? 0) && negb (PreviouslyGrantedAccess =? 0) then 0 else Privileges in
  let n := if UseResultList then Z.to_nat ObjectTypeListLength else 1%nat in
  Some (NT_SUCCESS Status, Privileges, replicate n Granted, replicate n Status).

(** ** The public functions *)

(** The rights of the owner: [DesiredAccess] and [PreviouslyGrantedAccess] after they are granted. *)
Definition OwnerRights (DesiredAccess PreviouslyGrantedAccess : Z) : Z * Z :=
  let rights := Z.lor WRITE_DAC READ_CONTROL in
  (Z.land DesiredAccess (not32 rights),
   Z.lor PreviouslyGrantedAccess
     (if flag DesiredAccess MAXIMUM_ALLOWED then rights else Z.land DesiredAccess rights)).

(** The BOOLEAN, [*GrantedAccess] (if it is written) and [*AccessStatus].  The function does not
    write [*Privileges], and neither does [SepAccessCheck] for a request that is not 0. *)
Definition SeAccessCheck (m : mem) (SecurityDescriptor : Z) (Subject : SECURITY_SUBJECT_CONTEXT)
    (DesiredAccess PreviouslyGrantedAccess : Z) (gm : GENERIC_MAPPING) (AccessMode : KPROCESSOR_MODE)
    : option (bool * option Z * NTSTATUS) :=
  match AccessMode with
  | KernelMode =>
      let granted :=
        if flag DesiredAccess MAXIMUM_ALLOWED
        then Z.lor (Z.lor (GenericAll gm) (Z.land DesiredAccess (not32 MAXIMUM_ALLOWED)))
               PreviouslyGrantedAccess
        else Z.lor DesiredAccess PreviouslyGrantedAccess in
      Some (true, Some granted, STATUS_SUCCESS)
  | UserMode =>
      if SecurityDescriptor =? 0 then Some (false, None, STATUS_ACCESS_DENIED) else
      if bool_decide (is_Some (ClientToken Subject)) && (ImpersonationLevel Subject <? SecurityImpersonation)
      then Some (false, None, STATUS_BAD_IMPERSONATION_LEVEL) else
      '(DesiredAccess, PreviouslyGrantedAccess) ←
        (if flag DesiredAccess (Z.lor WRITE_DAC (Z.lor READ_CONTROL MAXIMUM_ALLOWED)) then
           owns ← SepTokenIsOwner m (SubjectToken Subject) SecurityDescriptor;
           Some (if (owns : bool) then OwnerRights DesiredAccess PreviouslyGrantedAccess
                 else (DesiredAccess, PreviouslyGrantedAccess))
         else Some (DesiredAccess, PreviouslyGrantedAccess));
      if DesiredAccess =? 0 then
        if PreviouslyGrantedAccess =? 0
        then Some (false, Some PreviouslyGrantedAccess, STATUS_ACCESS_DENIED)
        else Some (true, Some PreviouslyGrantedAccess, STATUS_SUCCESS)
      else
        '(ret, _, granted, status) ←
          SepAccessCheck m SecurityDescriptor Subject DesiredAccess 0 PreviouslyGrantedAccess 0 gm false;
        g ← granted !! 0%nat; st ← status !! 0%nat;
        Some (ret, Some g, st)
  end.

(** The loop of [SeFastTraverseCheck] over the ACEs. *)
Fixpoint TraverseLoop (n : nat) (m : mem) (Ace DesiredAccess : Z) : option bool :=
  match n with
  | O => Some false
  | S n' =>
      Flags ← AceFlags m Ace;
      verdict ←
        (if flag Flags INHERIT_ONLY_ACE then Some None else
         Type_ ← AceType m Ace;
         if Type_ =? ACCESS_ALLOWED_ACE_TYPE then
           mask ← AceMask m Ace;
           if negb (flag mask DesiredAccess) then Some None else
           world ← RtlEqualSid m SeWorldSid (u32 (Ace + 8));
           Some (if (world : bool) then Some true else None)
         else if Type_ =? ACCESS_DENIED_ACE_TYPE then
           mask ← AceMask m Ace;
           Some (if flag mask DesiredAccess then Some false else None)
         else Some None);
      match verdict with
      | Some b => Some b
      | None => size ← AceSize m Ace; TraverseLoop n' m (u32 (Ace + size)) DesiredAccess
      end
  end.

(** [StateFlags] is [AccessState->Flags]. *)
Definition SeFastTraverseCheck (m : mem) (SecurityDescriptor StateFlags DesiredAccess : Z)
    (AccessMode : KPROCESSOR_MODE) : option bool :=
  _ ← assert_ (match AccessMode with KernelMode => false | UserMode => true end);
  if SecurityDescriptor =? 0 then Some false else
  Dacl ← SepGetDaclFromDescriptor m SecurityDescriptor;
  if Dacl =? 0 then Some true else
  count ← AceCount m Dacl;
  if count =? 0 then Some false else
  if flag StateFlags TOKEN_IS_RESTRICTED then Some false else
  TraverseLoop (Z.to_nat count) m (u32 (Dacl + 8)) DesiredAccess.

(** ** The system call *)

Definition SepGetSDOwner (m : mem) (SecurityDescriptor : Z) : option Z :=
  Control ← SdControl m SecurityDescriptor;
  Owner ← SdOwner m SecurityDescriptor;
  Some (if flag Control SE_SELF_RELATIVE then u32 (Owner + SecurityDescriptor) else Owner).

Definition SepGetSDGroup (m : mem) (SecurityDescriptor : Z) : option Z :=
  Control ← SdControl m SecurityDescriptor;
  Group ← SdGroup m SecurityDescriptor;
  Some (if flag Control SE_SELF_RELATIVE then u32 (Group + SecurityDescriptor) else Group).

Definition sizeof_PRIVILEGE_SET : Z := 20.
Definition sizeof_LUID_AND_ATTRIBUTES : Z := 12.

Definition SepGetPrivilegeSetLength (PrivilegeSet : option (list LUID_AND_ATTRIBUTES)) : Z :=
  match PrivilegeSet with
  | None => 0
  | Some [] => sizeof_PRIVILEGE_SET - sizeof_LUID_AND_ATTRIBUTES
  | Some l => u32 (sizeof_PRIVILEGE_SET + (Z.of_nat (length l) - 1) * sizeof_LUID_AND_ATTRIBUTES)
  end.

(** The bytes of a privilege set whose control word is 0. *)
Definition privilege_set_bytes (l : list LUID_AND_ATTRIBUTES) : list Z :=
  enc 4 (Z.of_nat (length l)) ++ enc 4 0 ++
  concat ((fun e => enc 4 (Luid e).1 ++ enc 4 (Luid e).2 ++ enc 4 (LuidAttributes e)) <$> l).

Definition load_mapping (m : mem) (p : Z) : option GENERIC_MAPPING :=
  r ← ld32 m p; w ← ld32 m (p + 4); e ← ld32 m (p + 8); a ← ld32 m (p + 12);
  Some (mkMapping r w e a).

(** What the call finds: the previous mode, the exception of the probes, the token of the handle
    or the status of the failure, whether a pool allocation succeeds, the status and the result of
    [SeCaptureSecurityDescriptor], and the subject context of the caller. *)
Record NT_CALL := mkCall {
  PreviousMode : KPROCESSOR_MODE; ProbeException : option NTSTATUS;
  ReferencedToken : NTSTATUS + TOKEN; Allocated : bool;
  Captured : NTSTATUS * Z; CurrentSubject : SECURITY_SUBJECT_CONTEXT
}.

(** The privilege set that is returned: the status if the buffer is too small. *)
Definition ReturnPrivileges (m : mem) (PrivilegeSet PrivilegeSetLength CapturedLength : Z)
    (Privileges : option (list LUID_AND_ATTRIBUTES)) : option (NTSTATUS * mem) :=
  match Privileges with
  | Some l =>
      let Required := SepGetPrivilegeSetLength (Some l) in
      if CapturedLength <? Required then
        m ← st32 m PrivilegeSetLength Required; Some (STATUS_BUFFER_TOO_SMALL, m)
      else
        m ← store m PrivilegeSet (privilege_set_bytes l); Some (STATUS_SUCCESS, m)
  | None =>
      if CapturedLength <? sizeof_PRIVILEGE_SET then
        m ← st32 m PrivilegeSetLength sizeof_PRIVILEGE_SET; Some (STATUS_BUFFER_TOO_SMALL, m)
      else
        m ← st32 m PrivilegeSet 0; m ← st32 m (PrivilegeSet + 4) 0; Some (STATUS_SUCCESS, m)
  end.

(** The check of the token itself and of the DACL, which writes the granted access and the
    access status. *)
Definition CheckAndReturn (m : mem) (Token : TOKEN) (Subject : SECURITY_SUBJECT_CONTEXT)
    (SecurityDescriptor DesiredAccess PreviouslyGrantedAccess GenericMapping GrantedAccess AccessStatus : Z)
    : option mem :=
  '(DesiredAccess, PreviouslyGrantedAccess) ←
    (if flag DesiredAccess (Z.lor WRITE_DAC (Z.lor READ_CONTROL MAXIMUM_ALLOWED)) then
       owns ← SepTokenIsOwner m Token SecurityDescriptor;
       Some (if (owns : bool) then OwnerRights DesiredAccess PreviouslyGrantedAccess
             else (DesiredAccess, PreviouslyGrantedAccess))
     else Some (DesiredAccess, PreviouslyGrantedAccess));
  if DesiredAccess =? 0 then
    m ← st32 m GrantedAccess PreviouslyGrantedAccess;
    st32 m AccessStatus STATUS_SUCCESS
  else
    gm ← load_mapping m GenericMapping;
    '(_, _, granted, status) ←
      SepAccessCheck m SecurityDescriptor Subject DesiredAccess 0 PreviouslyGrantedAccess 0 gm false;
    g ← granted !! 0%nat; st ← status !! 0%nat;
    m ← st32 m GrantedAccess g;
    st32 m AccessStatus st.

Definition NtAccessCheck (m : mem) (call : NT_CALL)
    (SecurityDescriptor DesiredAccess GenericMapping PrivilegeSet PrivilegeSetLength
     GrantedAccess AccessStatus : Z) : option (NTSTATUS * mem) :=
  match PreviousMode call with
  | KernelMode =>
      g ← (if flag DesiredAccess MAXIMUM_ALLOWED then
             all ← ld32 m (GenericMapping + 12);
             Some (Z.lor all (Z.land DesiredAccess (not32 MAXIMUM_ALLOWED)))
           else Some DesiredAccess);
      m ← st32 m GrantedAccess g;
      m ← st32 m AccessStatus STATUS_SUCCESS;
      Some (STATUS_SUCCESS, m)
  | UserMode =>
      match ProbeException call with
      | Some code => Some (code, m)
      | None =>
          CapturedLength ← ld32 m PrivilegeSetLength;
          if flag DesiredAccess
               (Z.lor GENERIC_READ (Z.lor GENERIC_WRITE (Z.lor GENERIC_EXECUTE GENERIC_ALL)))
          then Some (STATUS_GENERIC_NOT_MAPPED, m) else
          match ReferencedToken call with
          | inl Status => Some (Status, m)
          | inr Token =>
              if negb (TokenType Token =? TokenImpersonation)
              then Some (STATUS_NO_IMPERSONATION_TOKEN, m) else
              if TokenImpersonationLevel Token <? SecurityIdentification
              then Some (STATUS_BAD_IMPERSONATION_LEVEL, m) else
              '(Status, DesiredAccess, PreviouslyGrantedAccess, Privileges) ←
                SePrivilegePolicyCheck DesiredAccess 0 None Token (Some (Allocated call)) UserMode;
              if negb (NT_SUCCESS Status) then
                m ← st32 m AccessStatus Status;
                m ← st32 m GrantedAccess 0;
                Some (STATUS_SUCCESS, m)
              else
              '(Status, m) ← ReturnPrivileges m PrivilegeSet PrivilegeSetLength CapturedLength Privileges;
              if negb (NT_SUCCESS Status) then Some (Status, m) else
              let '(Status, CapturedDescriptor) := Captured call in
              if negb (NT_SUCCESS Status) then Some (Status, m) else
              if CapturedDescriptor =? 0 then Some (STATUS_INVALID_SECURITY_DESCR, m) else
              Owner ← SepGetSDOwner m SecurityDescriptor;
              if Owner =? 0 then Some (STATUS_INVALID_SECURITY_DESCR, m) else
              Group ← SepGetSDGroup m SecurityDescriptor;
              if Group =? 0 then Some (STATUS_INVALID_SECURITY_DESCR, m) else
              m ← CheckAndReturn m Token (CurrentSubject call) SecurityDescriptor DesiredAccess
                    PreviouslyGrantedAccess GenericMapping GrantedAccess AccessStatus;
              Some (STATUS_SUCCESS, m)
          end
      end
  end.

End Checks.
