(* ===== verification/AccessCheckProps.v ===== *)
(** * Access checks: tokens and DACLs as values

    A token is related to the SIDs of its arrays and a DACL to a list of entries; the loops of
    [src/ntoskrnl/se/access.c], [priv.c] and [accesschk.c] are related to functions on them.  The
    meaning of a DACL is bit by bit: the first entry that applies to the token and has the bit
    decides. *)

From Stdlib Require Import ZArith Lia Bool.
From stdpp Require Import base option list numbers gmap.
From S2P Require Import Prelude Memory Sid SidProps Acl AclProps Sd SdProps AccessCheck.
Open Scope Z_scope.

(** ** Membership *)

(** The SIDs of an array of a token with their attributes. *)
Definition sids_at (m : mem) (l : list SID_AND_ATTRIBUTES) (ss : list (sid * Z)) : Prop :=
  Forall2 (fun x y => sid_at m (SidPtr x) y.1 /\ SidAttributes x = y.2) l ss.

(** The first occurrence of a SID decides: the user counts unless it is for denials only,
    a group counts if it is enabled. *)
Definition counts (first : bool) (Attributes : Z) : bool :=
  (first && negb (flag Attributes SE_GROUP_USE_FOR_DENY_ONLY)) || flag Attributes SE_GROUP_ENABLED.

Fixpoint member_from (first : bool) (ss : list (sid * Z)) (s : sid) : bool :=
  match ss with
  | [] => false
  | (t, at_) :: ss' => if decide (s = t) then counts first at_ else member_from false ss' s
  end.

Definition member (ss : list (sid * Z)) (s : sid) : bool := member_from true ss s.

Lemma SidLoop_run m l ss first q s :
  sids_at m l ss -> sid_at m q s ->
  SidLoop m l first q (Z.of_nat (length (sid_bytes s))) (meta s) false = Some (member_from first ss s).
Proof.
  intros Hl Hs. revert first. induction Hl as [|x [t at_] l ss [Hx Ha] _ IH]; intros first; [done|].
  cbn [SidLoop member_from fst snd] in *. rewrite (meta_at _ _ _ Hx). cbn [mbind option_bind].
  destruct (Z.eqb_spec (meta t) (meta s)) as [E|E].
  - rewrite (RtlEqualMemory_sids _ _ _ _ _ Hs Hx) by done. cbn [mbind option_bind].
    case_decide as Hd; [rewrite bool_decide_true by done|rewrite bool_decide_false by done; apply IH].
    unfold counts. by rewrite Ha, andb_false_l, orb_false_r.
  - cbn [mbind option_bind]. destruct (decide (s = t)) as [->|]; [done|]. apply IH.
Qed.

Section Token.
Context (DBG : bool) (Self : Z) {m : mem} {T : TOKEN} {ss : list (sid * Z)}.
Hypothesis Hss : sids_at m (UserAndGroups T) ss.

Lemma SepSidInToken_run q s :
  sid_at m q s -> SepSidInToken DBG Self m T q = Some (member ss s).
Proof.
  intros Hs. unfold SepSidInToken, SepSidInTokenEx, assert_.
  replace (DBG && negb (0 =? 0)) with false by (by destruct DBG).
  replace (DBG && negb (negb false)) with false by (by destruct DBG).
  cbn [mbind option_bind negb Z.eqb]. rewrite (sid_count Hs). cbn [mbind option_bind].
  rewrite (meta_at _ _ _ Hs). cbn [mbind option_bind].
  replace (8 + 4 * Z.of_nat (length (SubAuthority s))) with (Z.of_nat (length (sid_bytes s)))
    by (rewrite length_sid_bytes by apply Hs; lia).
  by apply SidLoop_run.
Qed.

Lemma SepTokenIsOwner_run p v w o :
  sd_in m p v w -> owner v = Some o -> flag (TokenFlags T) TOKEN_IS_RESTRICTED = false ->
  SepTokenIsOwner DBG Self m T p = Some (member ss o).
Proof.
  intros Hsd Ho Hr. unfold SepTokenIsOwner. rewrite (get_owner Hsd). cbn [mbind option_bind].
  pose proof (sd_owner _ _ _ _ Hsd) as H. rewrite Ho in H. destruct H as (Hq & _ & Hs).
  unfold assert_. destruct (Z.eqb_spec (owner_ptr p v w) 0); [lia|].
  replace (DBG && negb (negb false)) with false by (by destruct DBG). cbn [mbind option_bind].
  rewrite (SepSidInToken_run _ _ Hs). cbn [mbind option_bind]. by rewrite Hr, andb_false_r.
Qed.

End Token.

(** ** Masks *)

Lemma map_generic_range a gm : 0 <= RtlMapGenericMask a gm < 2 ^ 32.
Proof.
  unfold RtlMapGenericMask. rewrite Z.land_comm.
  set (x := if flag _ GENERIC_ALL then _ else _). clearbody x. revert x.
  intros x. apply bits_range; [lia| |].
  - apply Z.land_nonneg. left. apply not32_range.
  - intros i Hi. rewrite Z.land_spec, testbit_not32 by lia. by destruct (Z.ltb_spec i 32); [lia|].
Qed.

Lemma flag_false a b : flag a b = false <-> forall i, 0 <= i -> Z.testbit a i && Z.testbit b i = false.
Proof.
  unfold flag. rewrite negb_false_iff, Z.eqb_eq. split.
  - intros H i Hi. by rewrite <- Z.land_spec, H, Z.bits_0.
  - intros H. apply Z.bits_inj'. intros i Hi. by rewrite Z.land_spec, H, Z.bits_0.
Qed.

Lemma flag_true a b :
  0 <= a -> flag a b = true -> exists i, 0 <= i /\ Z.testbit a i = true /\ Z.testbit b i = true.
Proof.
  intros Ha H. unfold flag in H. apply negb_true_iff, Z.eqb_neq in H.
  assert (0 <= Z.land a b) by (apply Z.land_nonneg; lia).
  exists (Z.log2 (Z.land a b)). split; [apply Z.log2_nonneg|]. apply andb_true_iff.
  rewrite <- Z.land_spec. apply Z.bit_log2. lia.
Qed.

(** ** DACLs as lists of entries *)

Record entry := mkEntry { etype : Z; eflags : Z; emask : Z; esid : sid }.

Definition entry_bytes (e : entry) : list Z :=
  ace_bytes (etype e) (eflags e) (known_body (emask e) (esid e)).

Record good_entry (e : entry) : Prop := {
  good_type : 0 <= etype e <= ACCESS_MAX_MS_V2_ACE_TYPE;
  good_mask : 0 <= emask e < 2 ^ 32;
  good_esid : good_sid (esid e)
}.

(** The ACL at [p] has the entries [es]. *)
Definition dacl_at (m : mem) (p : Z) (es : list entry) : Prop :=
  exists a, acl_at m p a /\ aces a = entry_bytes <$> es /\ Forall good_entry es.

Lemma entry_fields m q e :
  good_entry e -> has m q (entry_bytes e) ->
  AceType m q = Some (etype e) /\ AceFlags m q = Some (eflags e) /\ AceMask m q = Some (emask e) /\
  sid_at m (q + 8) (esid e).
Proof.
  intros [_ Hm [Hw _]] H. unfold entry_bytes, ace_bytes, known_body in H.
  apply has_cons in H as [H1 H]. apply has_cons in H as [H2 H].
  apply has_app in H as [_ H]. apply has_app in H as [H3 H4]. rewrite !length_enc in *.
  replace (q + 1 + 1 + Z.of_nat 2) with (q + 4) in * by lia.
  replace (q + 4 + Z.of_nat 4) with (q + 8) in * by lia.
  split_and!; [by apply ld8_lookup|by apply ld8_lookup|by apply ld32_has|done].
Qed.

(** The position behind the first entries of an ACL. *)
Definition behind (p : Z) (es : list entry) : Z :=
  p + 8 + Z.of_nat (length (concat (entry_bytes <$> es))).

(** What a loop over the entries reads at each position. *)
Lemma entry_here m p es es1 e es2 :
  dacl_at m p es -> es = es1 ++ e :: es2 ->
  AceType m (behind p es1) = Some (etype e) /\ AceFlags m (behind p es1) = Some (eflags e) /\
  AceMask m (behind p es1) = Some (emask e) /\ sid_at m (u32 (behind p es1 + 8)) (esid e) /\
  exists n, AceSize m (behind p es1) = Some n /\ u32 (behind p es1 + n) = behind p (es1 ++ [e]).
Proof.
  intros (a & Ha & Ea & Hf) ->. rewrite fmap_app, fmap_cons in Ea.
  destruct (ace_here Ha _ _ _ Ea) as (_ & Hh & Hu). destruct (ace_step Ha _ _ _ Ea) as [Es Eu].
  apply Forall_app in Hf as [_ Hf]. inversion_clear Hf as [|? ? He _].
  destruct (entry_fields _ _ _ He Hh) as (H1 & H2 & H3 & H4).
  pose proof (acl_bounds (a := a)). destruct (acl_pos _ _ _ Ha). pose proof (proj1 H4) as Hw.
  assert (16 <= length (entry_bytes e))%nat.
  { unfold entry_bytes, known_body. rewrite length_ace_bytes, length_app, length_enc, length_sid_bytes by done.
    lia. }
  unfold behind in *. rewrite (u32_small (_ + 8)) by lia. split_and!; [done..|].
  eexists. split; [done|]. by rewrite Eu, fmap_app.
Qed.

(** ** The meaning of a DACL *)

Section Meaning.
Context (gm : GENERIC_MAPPING) (ss : list (sid * Z)).

Definition rights (e : entry) : Z := RtlMapGenericMask (emask e) gm.

(** An entry that the check looks at: it is for this object, it allows or denies, and the token
    has its SID. *)
Definition applies (e : entry) : bool :=
  negb (flag (eflags e) INHERIT_ONLY_ACE) &&
  ((etype e =? ACCESS_DENIED_ACE_TYPE) || (etype e =? ACCESS_ALLOWED_ACE_TYPE)) && member ss (esid e).

(** The first entry that applies and has the right [i] decides about it. *)
Fixpoint verdict (es : list entry) (i : Z) : option bool :=
  match es with
  | [] => None
  | e :: es' =>
      if applies e && Z.testbit (rights e) i then Some (etype e =? ACCESS_ALLOWED_ACE_TYPE)
      else verdict es' i
  end.

Definition allowed (es : list entry) (i : Z) : bool := bool_decide (verdict es i = Some true).

(** The two loops on entries. *)
Fixpoint maximum (es : list entry) (G D : Z) : Z :=
  match es with
  | [] => G
  | e :: es' =>
      if applies e then
        if etype e =? ACCESS_DENIED_ACE_TYPE then maximum es' G (Z.lor D (Z.land (rights e) (not32 G)))
        else maximum es' (Z.lor G (Z.land (rights e) (not32 D))) D
      else maximum es' G D
  end.

Fixpoint remaining (es : list entry) (R : Z) : Z :=
  match es with
  | [] => R
  | e :: es' =>
      if applies e then
        if etype e =? ACCESS_DENIED_ACE_TYPE then if flag R (rights e) then R else remaining es' R
        else remaining es' (Z.land R (not32 (rights e)))
      else remaining es' R
  end.

Lemma maximum_range es G D : 0 <= G < 2 ^ 32 -> 0 <= maximum es G D < 2 ^ 32.
Proof.
  revert G D. induction es as [|e es IH]; intros G D HG; cbn [maximum]; [done|].
  destruct (applies e), (etype e =? ACCESS_DENIED_ACE_TYPE); try by apply IH.
  apply IH, lor_range; [lia|done|]. apply land_range; [lia|apply map_generic_range|apply not32_range].
Qed.

Lemma rights_bit e i : 0 <= i -> Z.testbit (rights e) i = true -> (i <? 32) = true.
Proof.
  intros Hi Hb. destruct (Z.ltb_spec i 32); [done|].
  rewrite (testbit_above 32) in Hb; [done|lia|apply map_generic_range|lia].
Qed.

Lemma applies_type e :
  applies e = true -> (etype e =? ACCESS_ALLOWED_ACE_TYPE) = negb (etype e =? ACCESS_DENIED_ACE_TYPE).
Proof.
  unfold applies, ACCESS_ALLOWED_ACE_TYPE, ACCESS_DENIED_ACE_TYPE.
  intros [[_ H]%andb_true_iff _]%andb_true_iff. apply orb_true_iff in H as [H|H];
    apply Z.eqb_eq in H; by rewrite H.
Qed.

(** The rights that the first loop collects are those that the entries allow. *)
Lemma maximum_spec es G D i :
  0 <= i -> Z.testbit (maximum es G D) i = Z.testbit G i || negb (Z.testbit D i) && allowed es i.
Proof.
  intros Hi. revert G D. induction es as [|e es IH]; intros G D; unfold allowed; cbn [maximum verdict].
  { simpl. by rewrite andb_false_r, orb_false_r. }
  fold (allowed es i) in IH. destruct (applies e) eqn:Ea; cbn [andb]; [|apply IH].
  rewrite (applies_type _ Ea).
  destruct (etype e =? ACCESS_DENIED_ACE_TYPE); rewrite IH, !Z.lor_spec, Z.land_spec, testbit_not32 by done;
    (destruct (Z.testbit (rights e) i) eqn:Eb; [rewrite (rights_bit _ _ Hi Eb)|]);
    destruct (Z.testbit G i), (Z.testbit D i); done.
Qed.

(** The second loop leaves no right exactly if the entries allow all of them. *)
Lemma remaining_spec es R :
  0 <= R < 2 ^ 32 ->
  remaining es R = 0 <-> forall i, 0 <= i -> Z.testbit R i = true -> allowed es i = true.
Proof.
  revert R. induction es as [|e es IH]; intros R HR; unfold allowed; cbn [remaining verdict].
  { rewrite zero_iff_bits by lia. split; intros H i Hi.
    - intros Hb. by rewrite H in Hb.
    - destruct (Z.testbit R i) eqn:E; [|done]. by specialize (H i Hi E). }
  destruct (applies e) eqn:Ea; cbn [andb]; [|by apply IH].
  destruct (Z.eqb_spec (etype e) ACCESS_DENIED_ACE_TYPE) as [Ed|Ed].
  - rewrite Ed. destruct (flag R (rights e)) eqn:Ef.
    + destruct (flag_true _ _ (proj1 HR) Ef) as (i & Hi & B1 & B2). split.
      * intros ->. by rewrite Z.bits_0 in B1.
      * intros H. specialize (H i Hi B1). rewrite B2 in H. done.
    + rewrite IH by done. apply forall_proper. intros i. split; intros H Hi Hb; specialize (H Hi Hb);
        pose proof (proj1 (flag_false _ _) Ef i Hi) as Hf; rewrite Hb in Hf; simpl in Hf;
        rewrite Hf in *; done.
  - rewrite (applies_type _ Ea), (proj2 (Z.eqb_neq _ _)) by done. cbn [negb].
    rewrite IH by (apply land_range; [lia|done|apply not32_range]).
    apply forall_proper. intros i. split; intros H Hi.
    + intros Hb. destruct (Z.testbit (rights e) i) eqn:Er; [done|]. apply H; [done|].
      rewrite Z.land_spec, Hb, testbit_not32, Er by done.
      by rewrite (proj2 (Z.ltb_lt _ _)) by (eapply testbit_true_lt; [| |exact Hb]; lia).
    + rewrite Z.land_spec, testbit_not32 by done. intros [Hb Hc]%andb_true_iff.
      specialize (H Hi Hb). apply andb_true_iff in Hc as [_ Hc].
      destruct (Z.testbit (rights e) i); [done|]. done.
Qed.

Context (DBG : bool) (Self : Z) {m : mem} {T : TOKEN} {p : Z} {es : list entry}.
Hypothesis (Hss : sids_at m (UserAndGroups T) ss) (Hes : dacl_at m p es).

Lemma MaximumLoop_run es1 es2 G D :
  es = es1 ++ es2 ->
  MaximumLoop DBG Self (length es2) m (behind p es1) T gm G D = Some (maximum es2 G D).
Proof.
  revert es1 G D. induction es2 as [|e es2 IH]; intros es1 G D E; cbn [length MaximumLoop maximum]; [done|].
  destruct (entry_here _ _ _ _ _ _ Hes E) as (Ht & Hfl & Hm & Hs & n & Hn & Hu).
  assert (es = (es1 ++ [e]) ++ es2) as E' by (by rewrite <- app_assoc).
  rewrite Hfl, Ht, Hm, (SepSidInToken_run DBG Self Hss _ _ Hs), Hn. cbn [mbind option_bind]. unfold applies.
  destruct (flag (eflags e) INHERIT_ONLY_ACE), (etype e =? ACCESS_DENIED_ACE_TYPE),
    (etype e =? ACCESS_ALLOWED_ACE_TYPE), (member ss (esid e));
    cbn [negb andb orb mbind option_bind]; rewrite Hu; by apply IH.
Qed.

Lemma GrantLoop_run es1 es2 R :
  es = es1 ++ es2 ->
  GrantLoop DBG Self (length es2) m (behind p es1) T gm R = Some (remaining es2 R).
Proof.
  revert es1 R. induction es2 as [|e es2 IH]; intros es1 R E; cbn [length GrantLoop remaining]; [done|].
  destruct (entry_here _ _ _ _ _ _ Hes E) as (Ht & Hfl & Hm & Hs & n & Hn & Hu).
  assert (es = (es1 ++ [e]) ++ es2) as E' by (by rewrite <- app_assoc).
  rewrite Hfl, Ht, Hm, (SepSidInToken_run DBG Self Hss _ _ Hs), Hn. cbn [mbind option_bind]. unfold applies.
  destruct (flag (eflags e) INHERIT_ONLY_ACE), (etype e =? ACCESS_DENIED_ACE_TYPE),
    (etype e =? ACCESS_ALLOWED_ACE_TYPE), (member ss (esid e));
    cbn [negb andb orb mbind option_bind]; fold (rights e); try destruct (flag R (rights e));
    rewrite ?Hu; try done; by apply IH.
Qed.

End Meaning.

(** ** Privileges *)

Definition mark (p : LUID_AND_ATTRIBUTES) : LUID_AND_ATTRIBUTES :=
  mkLuidAttr (Luid p) (Z.lor (LuidAttributes p) SE_PRIVILEGE_USED_FOR_ACCESS).

Definition holds (T : TOKEN) (p : LUID_AND_ATTRIBUTES) : bool := PrivilegeHeld (Privileges T) (Luid p).

(** The first [k] privileges that are held are marked. *)
Fixpoint mark_held (T : TOKEN) (k : nat) (l : list LUID_AND_ATTRIBUTES) : list LUID_AND_ATTRIBUTES :=
  match k, l with
  | S k', p :: l' => if holds T p then mark p :: mark_held T k' l' else p :: mark_held T k l'
  | _, _ => l
  end.

Fixpoint count_held (T : TOKEN) (l : list LUID_AND_ATTRIBUTES) : nat :=
  match l with
  | [] => 0
  | p :: l' => (if holds T p then 1 else 0) + count_held T l'
  end.

Lemma PrivilegeLoop_run T l k :
  Z.of_nat (S k) < 2 ^ 32 ->
  PrivilegeLoop (Privileges T) l (Z.of_nat (S k)) =
  (bool_decide (S k <= count_held T l)%nat, Z.of_nat (S k - count_held T l), mark_held T (S k) l).
Proof.
  revert k. induction l as [|p l IH]; intros k Hk; cbn [PrivilegeLoop count_held mark_held]; [done|].
  fold (holds T p). destruct (holds T p).
  - replace (u32 (Z.of_nat (S k) - 1)) with (Z.of_nat k) by (rewrite u32_small; lia).
    destruct k as [|k].
    + rewrite bool_decide_true by lia. replace (1 - (1 + count_held T l))%nat with 0%nat by lia. by destruct l.
    + rewrite (proj2 (Z.eqb_neq _ _)), IH by lia.
      rewrite (bool_decide_ext (S (S k) <= 1 + count_held T l)%nat (S k <= count_held T l)%nat) by lia.
      by replace (S (S k) - (1 + count_held T l))%nat with (S k - count_held T l)%nat by lia.
  - by rewrite IH.
Qed.

Lemma count_held_all T l : (length l <= count_held T l)%nat <-> forallb (holds T) l = true.
Proof.
  induction l as [|p l IH]; simpl; [split; [done|lia]|].
  assert (count_held T l <= length l)%nat.
  { clear. induction l as [|p l IH]; simpl; [lia|]. destruct (holds T p); lia. }
  destruct (holds T p); simpl; [rewrite <- IH; lia|]. split; [lia|done].
Qed.

Lemma count_held_any T l : (1 <= count_held T l)%nat <-> existsb (holds T) l = true.
Proof.
  induction l as [|p l IH]; simpl; [split; [lia|done]|].
  destruct (holds T p); simpl; [split; [done|lia]|done].
Qed.

(** What a check asks for: everything or something of the list. *)
Definition satisfied (T : TOKEN) (Control : Z) (l : list LUID_AND_ATTRIBUTES) : bool :=
  if flag Control PRIVILEGE_SET_ALL_NECESSARY then forallb (holds T) l else existsb (holds T) l.

Lemma SepPrivilegeCheck_run DBG T l Control :
  l <> [] -> Z.of_nat (length l) < 2 ^ 32 ->
  SepPrivilegeCheck DBG T l Control UserMode =
  Some (satisfied T Control l,
        mark_held T (if flag Control PRIVILEGE_SET_ALL_NECESSARY then length l else 1) l).
Proof.
  intros Hl Hn. unfold SepPrivilegeCheck, satisfied, assert_.
  destruct (flag Control PRIVILEGE_SET_ALL_NECESSARY).
  - destruct l as [|p l]; [done|]. cbn [length] in *. rewrite PrivilegeLoop_run by done.
    pose proof (count_held_all T (p :: l)) as Hc. cbn [length] in Hc.
    destruct (forallb (holds T) (p :: l)).
    + rewrite bool_decide_true by (by apply Hc). done.
    + rewrite bool_decide_false by (intros ?%Hc; done).
      rewrite (proj2 (Z.ltb_lt _ _)) by (destruct (decide (S (length l) <= count_held T (p :: l))%nat) as [?%Hc|]; [done|lia]).
      by rewrite andb_false_r.
  - change 1 with (Z.of_nat 1). rewrite PrivilegeLoop_run by done.
    pose proof (count_held_any T l) as Hc. destruct (existsb (holds T) l).
    + rewrite bool_decide_true by (by apply Hc). done.
    + rewrite bool_decide_false by (intros ?%Hc; done).
      rewrite (proj2 (Z.ltb_lt _ _)) by (destruct (decide (1 <= count_held T l)%nat) as [?%Hc|]; [done|lia]).
      by rewrite andb_false_r.
Qed.

Lemma SepSinglePrivilegeCheck_run DBG T L :
  RtlEqualLuid L SeTcbPrivilege = false ->
  SepSinglePrivilegeCheck DBG L T UserMode = Some (PrivilegeHeld (Privileges T) L).
Proof.
  intros Hn. unfold SepSinglePrivilegeCheck, assert_. rewrite Hn, andb_false_r. cbn [mbind option_bind].
  rewrite SepPrivilegeCheck_run by done. cbn [mbind option_bind]. unfold satisfied, holds. simpl.
  by rewrite andb_true_r.
Qed.

(** The rights that privileges of the token give. *)
Definition privileged (T : TOKEN) (D : Z) : Z :=
  Z.lor (if flag D ACCESS_SYSTEM_SECURITY then ACCESS_SYSTEM_SECURITY else 0)
        (if flag D WRITE_OWNER && PrivilegeHeld (Privileges T) SeTakeOwnershipPrivilege
         then WRITE_OWNER else 0).

Lemma SePrivilegePolicyCheck_run DBG T D P :
  SePrivilegePolicyCheck DBG D P None T None UserMode =
  Some (if flag D ACCESS_SYSTEM_SECURITY && negb (PrivilegeHeld (Privileges T) SeSecurityPrivilege)
        then (STATUS_PRIVILEGE_NOT_HELD, D, P, None)
        else (STATUS_SUCCESS, Z.land D (not32 (privileged T D)), Z.lor P (privileged T D), None)).
Proof.
  unfold SePrivilegePolicyCheck, privileged. rewrite !SepSinglePrivilegeCheck_run by done.
  destruct (flag D ACCESS_SYSTEM_SECURITY), (flag D WRITE_OWNER),
    (PrivilegeHeld (Privileges T) SeSecurityPrivilege), (PrivilegeHeld (Privileges T) SeTakeOwnershipPrivilege);
    done.
Qed.
