(* ===== verification/AccessCheckClaims.v ===== *)
(** * Access checks: properties

    What an access check grants in terms of the entries of the DACL, the owner and the
    privileges, and where the code does less than its comments say. *)

From Stdlib Require Import ZArith Lia Bool.
From stdpp Require Import base option list numbers gmap.
From S2P Require Import Prelude Memory Sid SidProps Acl AclProps Sd SdProps AccessCheck AccessCheckProps.
Open Scope Z_scope.

(** ** Masks without generic rights *)

Lemma flag_above a k : 0 <= a < 2 ^ 28 -> 28 <= k -> flag a (2 ^ k) = false.
Proof. intros Ha Hk. rewrite flag_bit by lia. apply (testbit_above 28); lia. Qed.

Lemma land_generic a :
  0 <= a < 2 ^ 28 ->
  Z.land a (not32 (Z.lor GENERIC_READ (Z.lor GENERIC_WRITE (Z.lor GENERIC_EXECUTE GENERIC_ALL)))) = a.
Proof.
  intros Ha. change (not32 _) with (Z.ones 28). rewrite Z.land_ones by lia. by apply Z.mod_small.
Qed.

Lemma map_generic_id a gm : 0 <= a < 2 ^ 28 -> RtlMapGenericMask a gm = a.
Proof.
  intros Ha. unfold RtlMapGenericMask.
  assert (flag a GENERIC_READ = false) as -> by (by apply (flag_above a 31)).
  assert (flag a GENERIC_WRITE = false) as -> by (by apply (flag_above a 30)).
  assert (flag a GENERIC_EXECUTE = false) as -> by (by apply (flag_above a 29)).
  assert (flag a GENERIC_ALL = false) as -> by (by apply (flag_above a 28)).
  by apply land_generic.
Qed.

(** ** The check against a DACL with entries *)

Section Dacl.
Context (DBG : bool) (Self : Z) (gm : GENERIC_MAPPING) {m : mem} {p : Z} {v : descriptor} {w : words}
  {Sub : SECURITY_SUBJECT_CONTEXT} {ss : list (sid * Z)} {es : list entry}.

(** The descriptor has a DACL with the entries [es], and the SIDs of the token are [ss]. *)
Record subject_and_dacl : Prop := {
  have_sd : sd_in m p v w;
  have_sids : sids_at m (UserAndGroups (SubjectToken Sub)) ss;
  have_dacl : dacl_at m (dacl_ptr p v w) es;
  have_entries : es <> []
}.

Hypothesis H : subject_and_dacl.

Lemma dacl_ptr_pos : dacl_ptr p v w <> 0.
Proof. destruct (have_dacl H) as (a & Ha & _). destruct (acl_pos _ _ _ Ha). lia. Qed.

Lemma RtlGetDacl_run :
  RtlGetDaclSecurityDescriptor m p =
  Some (STATUS_SUCCESS, Some (true, Some (dacl_ptr p v w, flag (control v) SE_DACL_DEFAULTED))).
Proof.
  unfold RtlGetDaclSecurityDescriptor. rewrite (SdRevision_in (have_sd H)), (SdControl_in (have_sd H)).
  cbn [mbind option_bind]. rewrite Z.eqb_refl. cbn [negb]. rewrite (get_dacl (have_sd H)).
  pose proof dacl_ptr_pos as Hp. unfold dacl_ptr in *. by destruct (flag (control v) SE_DACL_PRESENT).
Qed.

Lemma dacl_count : AceCount m (dacl_ptr p v w) = Some (Z.of_nat (length es)).
Proof.
  destruct (have_dacl H) as (a & Ha & Ea & _). rewrite (AceCount_at Ha), Ea. by rewrite length_fmap.
Qed.

Lemma dacl_start : u32 (dacl_ptr p v w + 8) = behind (dacl_ptr p v w) [].
Proof.
  destruct (have_dacl H) as (a & Ha & Ea & _). rewrite (start_range Ha). unfold behind. simpl. lia.
Qed.

(** The rights of the token's privileges, the rights that remain, and the result. *)
Lemma AccessCheck_run D P :
  let priv := privileged (SubjectToken Sub) D in
  let R := Z.land D (not32 priv) in
  let G := maximum gm ss es 0 0 in
  0 < D < 2 ^ 28 -> 0 <= P < 2 ^ 28 -> R <> 0 ->
  (flag D ACCESS_SYSTEM_SECURITY = true ->
   PrivilegeHeld (Privileges (SubjectToken Sub)) SeSecurityPrivilege = true) ->
  AccessCheck DBG Self m p Sub D P gm =
  Some (if flag D MAXIMUM_ALLOWED then
          if Z.land R (not32 (Z.lor MAXIMUM_ALLOWED G)) =? 0 then
            let g := Z.lor (Z.lor P priv) G in
            (g, if negb (g =? 0) then STATUS_SUCCESS else STATUS_ACCESS_DENIED)
          else (0, STATUS_ACCESS_DENIED)
        else (Z.lor (Z.lor P priv) D, STATUS_SUCCESS)).
Proof.
  intros priv R G HD HP HR Hs. unfold AccessCheck.
  rewrite (proj2 (Z.eqb_neq D 0)) by lia. rewrite (map_generic_id D) by lia.
  replace (if negb (P =? 0) then RtlMapGenericMask P gm else P) with P
    by (rewrite map_generic_id by done; by destruct (P =? 0)).
  rewrite SePrivilegePolicyCheck_run. cbn [mbind option_bind].
  replace (flag D ACCESS_SYSTEM_SECURITY && _) with false
    by (destruct (flag D ACCESS_SYSTEM_SECURITY); [by rewrite Hs|done]).
  change (NT_SUCCESS STATUS_SUCCESS) with true. cbn [negb]. fold priv R.
  rewrite (proj2 (Z.eqb_neq R 0)) by done. rewrite RtlGetDacl_run. cbn [mbind option_bind negb orb].
  rewrite (proj2 (Z.eqb_neq _ 0)) by apply dacl_ptr_pos. rewrite dacl_count. cbn [mbind option_bind].
  assert (length es <> 0%nat) by (pose proof (have_entries H); by destruct es).
  rewrite (proj2 (Z.eqb_neq _ 0)) by lia. rewrite Nat2Z.id, dacl_start.
  destruct (flag D MAXIMUM_ALLOWED).
  - rewrite (MaximumLoop_run gm ss DBG Self (have_sids H) (have_dacl H) [] es) by done.
    cbn [mbind option_bind]. fold G. by destruct (_ =? 0).
  - rewrite (GrantLoop_run gm ss DBG Self (have_sids H) (have_dacl H) [] es) by done.
    cbn [mbind option_bind]. assert (Z.lor (Z.lor P priv) D <> 0); [|by rewrite (proj2 (Z.eqb_neq _ 0))].
    intros E. apply Z.lor_eq_0_iff in E as [_ ->]. lia.
Qed.

End Dacl.
Arguments subject_and_dacl m p v w Sub ss es : clear implicits.

Lemma privileged_bit T D i :
  0 <= i -> Z.testbit (privileged T D) i =
  (i =? 24) && Z.testbit D 24 ||
  (i =? 19) && (Z.testbit D 19 && PrivilegeHeld (Privileges T) SeTakeOwnershipPrivilege).
Proof.
  intros Hi. unfold privileged. change ACCESS_SYSTEM_SECURITY with (2 ^ 24).
  change WRITE_OWNER with (2 ^ 19). rewrite !flag_bit, Z.lor_spec by lia.
  f_equal; [destruct (Z.testbit D 24)|destruct (Z.testbit D 19 && _)];
    rewrite ?andb_true_r, ?andb_false_r;
    first [by rewrite Z.pow2_bits_eqb, Z.eqb_sym by lia|by rewrite Z.bits_0].
Qed.

(** The rights of the owner, as bits. *)
Lemma owner_rights_bit i : 0 <= i -> Z.testbit (Z.lor WRITE_DAC READ_CONTROL) i = (i =? 18) || (i =? 17).
Proof.
  intros Hi. change WRITE_DAC with (2 ^ 18). change READ_CONTROL with (2 ^ 17).
  by rewrite Z.lor_spec, !Z.pow2_bits_eqb, !(Z.eqb_sym _ i) by lia.
Qed.

(** A right that the entries of the DACL allow, that the owner of the object has, or that a
    privilege gives if it is asked for. *)
Definition grantable (gm : GENERIC_MAPPING) (T : TOKEN) (ss : list (sid * Z)) (es : list entry) (o : sid)
    (D i : Z) : bool :=
  allowed gm ss es i || member ss o && ((i =? 18) || (i =? 17)) || (i =? 24) && Z.testbit D 24 ||
  (i =? 19) && (Z.testbit D 19 && PrivilegeHeld (Privileges T) SeTakeOwnershipPrivilege).

(** The rights that remain to be checked and those that are granted after the check of the
    owner; [owns] tells whether the token is the owner's. *)
Definition desired (owns : bool) (D : Z) : Z :=
  if owns then Z.land D (not32 (Z.lor WRITE_DAC READ_CONTROL)) else D.

Lemma desired_bit owns D i :
  0 <= i -> 0 <= D < 2 ^ 28 ->
  Z.testbit (desired owns D) i = Z.testbit D i && negb (owns && ((i =? 18) || (i =? 17))).
Proof.
  intros Hi HD. unfold desired. destruct owns; [|by rewrite andb_true_r].
  rewrite Z.land_spec, testbit_not32, owner_rights_bit by done.
  destruct (Z.testbit D i) eqn:E; [|done].
  by rewrite (proj2 (Z.ltb_lt _ _)) by (pose proof (testbit_true_lt 28 D i ltac:(lia) HD E); lia).
Qed.

Lemma desired_range owns D : 0 <= D < 2 ^ 28 -> 0 <= desired owns D < 2 ^ 28.
Proof. intros HD. destruct owns; [|done]. apply land_range; [lia|done|apply not32_range]. Qed.

Lemma privileged_desired T owns D :
  0 <= D < 2 ^ 28 -> privileged T (desired owns D) = privileged T D.
Proof.
  intros HD. apply Z.bits_inj'. intros i Hi. rewrite !privileged_bit, !desired_bit by lia.
  by rewrite !andb_false_r, !andb_true_r.
Qed.

Section Checked.
Context (DBG : bool) (Self : Z) (gm : GENERIC_MAPPING) (m : mem) (p : Z) (v : descriptor) (w : words)
  (Sub : SECURITY_SUBJECT_CONTEXT) (ss : list (sid * Z)) (es : list entry) (o : sid).
Hypothesis (H : subject_and_dacl m p v w Sub ss es) (Ho : owner v = Some o).
Hypothesis Hr : flag (TokenFlags (SubjectToken Sub)) TOKEN_IS_RESTRICTED = false.
Hypothesis Hi : is_Some (ClientToken Sub) -> SecurityImpersonation <= ImpersonationLevel Sub.

Lemma sd_nonnull : (p =? 0) = false.
Proof. apply Z.eqb_neq. destruct (sd_pos _ _ _ _ (have_sd H)). lia. Qed.

Lemma level_ok :
  bool_decide (is_Some (ClientToken Sub)) && (ImpersonationLevel Sub <? SecurityImpersonation) = false.
Proof.
  case_bool_decide as Hc; [|done]. apply Hi in Hc. simpl. apply Z.ltb_ge. done.
Qed.

(** [SeAccessCheck] in user mode up to the call of [SepAccessCheck]. *)
Lemma SeAccessCheck_run D :
  let owns := member ss o && flag D (Z.lor WRITE_DAC (Z.lor READ_CONTROL MAXIMUM_ALLOWED)) in
  let P := if owns then if flag D MAXIMUM_ALLOWED then Z.lor WRITE_DAC READ_CONTROL
                        else Z.land D (Z.lor WRITE_DAC READ_CONTROL) else 0 in
  SeAccessCheck DBG Self m p Sub D 0 gm UserMode =
  if desired owns D =? 0 then
    Some (if P =? 0 then (false, Some P, STATUS_ACCESS_DENIED) else (true, Some P, STATUS_SUCCESS))
  else '(g, st) ← AccessCheck DBG Self m p Sub (desired owns D) P gm; Some (NT_SUCCESS st, Some g, st).
Proof.
  intros owns P. unfold SeAccessCheck. rewrite sd_nonnull, level_ok.
  rewrite (SepTokenIsOwner_run DBG Self (have_sids H) _ _ _ _ (have_sd H) Ho Hr). subst owns P.
  unfold desired, OwnerRights, SepAccessCheck.
  destruct (flag D (Z.lor WRITE_DAC _)), (member ss o); cbn [mbind option_bind andb];
    rewrite ?Z.lor_0_l; (destruct (_ =? 0); [by destruct (_ =? 0)|]);
    by destruct (AccessCheck _ _ _ _ _ _ _ _) as [[g st]|].
Qed.

End Checked.

(** The caller's pointer to a privilege set is left alone unless nothing is requested. *)
Lemma SepAccessCheck_privileges DBG Self m p Sub D n P Privileges gm use ret q granted status :
  SepAccessCheck DBG Self m p Sub D n P Privileges gm use = Some (ret, q, granted, status) ->
  q = if (D =? 0) && negb (P =? 0) then 0 else Privileges.
Proof. unfold SepAccessCheck. destruct (AccessCheck _ _ _ _ _ _ _ _) as [[g st]|]; simpl; congruence. Qed.

(** ** What is granted *)

Section Maximum.
Context (gm : GENERIC_MAPPING) (T : TOKEN) (ss : list (sid * Z)) (es : list entry) (o : sid) (D : Z).

Definition owner_grant : Z := if member ss o then Z.lor WRITE_DAC READ_CONTROL else 0.

Lemma owner_grant_bit i : 0 <= i -> Z.testbit owner_grant i = member ss o && ((i =? 18) || (i =? 17)).
Proof. intros Hi. unfold owner_grant. destruct (member ss o); [by apply owner_rights_bit|apply Z.bits_0]. Qed.

(** All rights that can be granted, and the requested rights that cannot. *)
Definition total : Z := Z.lor (Z.lor owner_grant (privileged T D)) (maximum gm ss es 0 0).
Definition rest : Z :=
  Z.land (Z.land (desired (member ss o) D) (not32 (privileged T D)))
    (not32 (Z.lor MAXIMUM_ALLOWED (maximum gm ss es 0 0))).

Lemma total_bit i : 0 <= i -> Z.testbit total i = grantable gm T ss es o D i.
Proof.
  intros Hi. unfold total, grantable.
  rewrite !Z.lor_spec, owner_grant_bit, privileged_bit, maximum_spec, !Z.bits_0 by done. simpl.
  destruct (allowed gm ss es i); [by rewrite orb_true_r|]. by rewrite !orb_false_r, !orb_assoc.
Qed.

Lemma rest_bit i :
  0 <= i -> 0 <= D < 2 ^ 28 ->
  Z.testbit rest i = Z.testbit D i && negb (i =? 25) && negb (grantable gm T ss es o D i).
Proof.
  intros Hi HD. rewrite <- total_bit by done. unfold rest, total.
  rewrite !Z.land_spec, !testbit_not32, !Z.lor_spec, desired_bit, owner_grant_bit by done.
  change MAXIMUM_ALLOWED with (2 ^ 25). rewrite Z.pow2_bits_eqb, (Z.eqb_sym 25) by lia.
  destruct (Z.testbit D i) eqn:E; [|done]. pose proof (testbit_true_lt 28 D i ltac:(lia) HD E).
  rewrite (proj2 (Z.ltb_lt i 32)) by lia. simpl.
  by destruct (i =? 25), (member ss o && _), (Z.testbit (privileged T D) i), (Z.testbit (maximum _ _ _ _ _) i).
Qed.

Lemma rest_zero :
  0 <= D < 2 ^ 28 ->
  rest = 0 <-> forall i, 0 <= i -> i <> 25 -> Z.testbit D i = true -> grantable gm T ss es o D i = true.
Proof.
  intros HD. rewrite zero_iff_bits by (apply Z.land_nonneg; right; apply not32_range).
  split; intros K i Hi.
  - intros H25 Hb. specialize (K i Hi). rewrite rest_bit, Hb, (proj2 (Z.eqb_neq i 25)) in K by done.
    by destruct (grantable gm T ss es o D i).
  - rewrite rest_bit by done. destruct (Z.testbit D i) eqn:E; [|done].
    destruct (Z.eqb_spec i 25); [done|]. by rewrite K.
Qed.

End Maximum.

(** [SeAccessCheck] with a request for the maximum access. *)
Lemma SeAccessCheck_maximum DBG Self gm m p v w Sub ss es o D :
  subject_and_dacl m p v w Sub ss es -> owner v = Some o ->
  flag (TokenFlags (SubjectToken Sub)) TOKEN_IS_RESTRICTED = false ->
  (is_Some (ClientToken Sub) -> SecurityImpersonation <= ImpersonationLevel Sub) ->
  0 <= D < 2 ^ 28 -> Z.testbit D 25 = true ->
  (Z.testbit D 24 = true -> PrivilegeHeld (Privileges (SubjectToken Sub)) SeSecurityPrivilege = true) ->
  let g := total gm (SubjectToken Sub) ss es o D in
  SeAccessCheck DBG Self m p Sub D 0 gm UserMode =
  Some (if rest gm (SubjectToken Sub) ss es o D =? 0 then
          if g =? 0 then (false, Some g, STATUS_ACCESS_DENIED) else (true, Some g, STATUS_SUCCESS)
        else (false, Some 0, STATUS_ACCESS_DENIED)).
Proof.
  intros H Ho Hr Hi HD Hmax Hsec g.
  assert (forall b, flag (desired b D) MAXIMUM_ALLOWED = true) as Hd.
  { intros b. change MAXIMUM_ALLOWED with (2 ^ 25). rewrite flag_bit, desired_bit, Hmax by lia.
    simpl. by rewrite andb_false_r. }
  assert (flag D (Z.lor WRITE_DAC (Z.lor READ_CONTROL MAXIMUM_ALLOWED)) = true) as Hf.
  { destruct (flag D _) eqn:E; [done|]. pose proof (proj1 (flag_false _ _) E 25 ltac:(lia)) as K.
    by rewrite Hmax in K. }
  rewrite (SeAccessCheck_run DBG Self gm _ _ _ _ _ _ _ _ H Ho Hr Hi), Hf, andb_true_r.
  specialize (Hd false) as Hd0. simpl in Hd0. rewrite Hd0. specialize (Hd (member ss o)).
  fold (owner_grant ss o). set (D1 := desired (member ss o) D) in *.
  assert (D1 <> 0) by (intros E; rewrite E in Hd; done). rewrite (proj2 (Z.eqb_neq D1 0)) by done.
  pose proof (desired_range (member ss o) D HD) as HD1. fold D1 in HD1.
  pose proof (privileged_desired (SubjectToken Sub) (member ss o) D HD) as Hp. fold D1 in Hp.
  rewrite (AccessCheck_run DBG Self gm H D1 (owner_grant ss o)).
  - rewrite Hp, Hd. unfold g, total, rest. fold D1. cbn [mbind option_bind].
    destruct (Z.land (Z.land D1 _) _ =? 0); [|done]. by destruct (_ =? 0).
  - lia.
  - unfold owner_grant. destruct (member ss o); vm_compute; intuition discriminate.
  - rewrite Hp. intros E.
    assert (Z.testbit (Z.land D1 (not32 (privileged (SubjectToken Sub) D))) 25 = true) as K; [|by rewrite E in K].
    rewrite Z.land_spec, testbit_not32, privileged_bit by lia.
    change MAXIMUM_ALLOWED with (2 ^ 25) in Hd. rewrite flag_bit in Hd by lia. by rewrite Hd.
  - change ACCESS_SYSTEM_SECURITY with (2 ^ 24). rewrite flag_bit by lia. unfold D1.
    rewrite desired_bit by lia. simpl. by rewrite andb_false_r, andb_true_r.
Qed.

(** Without the privilege for ACCESS_SYSTEM_SECURITY a request that contains it stops before
    the DACL, with the rights of the owner as the granted access. *)
Lemma SeAccessCheck_no_privilege DBG Self gm m p v w Sub ss es o D :
  subject_and_dacl m p v w Sub ss es -> owner v = Some o ->
  flag (TokenFlags (SubjectToken Sub)) TOKEN_IS_RESTRICTED = false ->
  (is_Some (ClientToken Sub) -> SecurityImpersonation <= ImpersonationLevel Sub) ->
  0 <= D < 2 ^ 28 -> Z.testbit D 25 = true -> Z.testbit D 24 = true ->
  PrivilegeHeld (Privileges (SubjectToken Sub)) SeSecurityPrivilege = false ->
  SeAccessCheck DBG Self m p Sub D 0 gm UserMode =
  Some (false, Some (owner_grant ss o), STATUS_PRIVILEGE_NOT_HELD).
Proof.
  intros H Ho Hr Hi HD Hmax H24 Hnot.
  rewrite (SeAccessCheck_run DBG Self gm _ _ _ _ _ _ _ _ H Ho Hr Hi).
  assert (flag D MAXIMUM_ALLOWED = true) as Hm
    by (change MAXIMUM_ALLOWED with (2 ^ 25); by rewrite flag_bit by lia).
  assert (flag D (Z.lor WRITE_DAC (Z.lor READ_CONTROL MAXIMUM_ALLOWED)) = true) as ->.
  { destruct (flag D (Z.lor _ _)) eqn:E; [done|]. pose proof (proj1 (flag_false _ _) E 25 ltac:(lia)) as K.
    by rewrite Hmax in K. }
  rewrite Hm, andb_true_r. fold (owner_grant ss o).
  pose proof (desired_range (member ss o) D HD) as HD1.
  assert (Z.testbit (desired (member ss o) D) 24 = true) as Hb
    by (rewrite desired_bit, H24 by lia; by rewrite andb_false_r).
  set (D1 := desired (member ss o) D) in *.
  destruct (Z.eqb_spec D1 0) as [E|E]; [by rewrite E in Hb|].
  unfold AccessCheck. rewrite (proj2 (Z.eqb_neq D1 0)), map_generic_id, SePrivilegePolicyCheck_run by done.
  change ACCESS_SYSTEM_SECURITY with (2 ^ 24). rewrite flag_bit, Hb, Hnot by lia.
  cbn [mbind option_bind andb negb]. rewrite map_generic_id; [by destruct (_ =? 0)|].
  unfold owner_grant. destruct (member ss o); vm_compute; intuition discriminate.
Qed.

(** C9: a user-mode request for the maximum access without generic rights and with nothing granted
    before, on a descriptor that has an owner and a DACL with entries, for a token that is not
    restricted and, as a client's, of at least the impersonation level.  If
    ACCESS_SYSTEM_SECURITY is requested too and the token does not hold its privilege, the
    status says so and the rights of the owner are returned.  Otherwise the granted rights are
    exactly those that the first applicable entry with the right allows, WRITE_DAC and
    READ_CONTROL of the owner, and the requested rights of privileges; if a right that was
    also requested is not among them, access is denied and nothing is granted. *)
Theorem maximum_allowed_exact DBG Self gm m p v w Sub ss es o D :
  subject_and_dacl m p v w Sub ss es -> owner v = Some o ->
  flag (TokenFlags (SubjectToken Sub)) TOKEN_IS_RESTRICTED = false ->
  (is_Some (ClientToken Sub) -> SecurityImpersonation <= ImpersonationLevel Sub) ->
  0 <= D < 2 ^ 28 -> Z.testbit D 25 = true ->
  let result := SeAccessCheck DBG Self m p Sub D 0 gm UserMode in
  let ok := grantable gm (SubjectToken Sub) ss es o D in
  if Z.testbit D 24 && negb (PrivilegeHeld (Privileges (SubjectToken Sub)) SeSecurityPrivilege)
  then result = Some (false, Some (if member ss o then Z.lor WRITE_DAC READ_CONTROL else 0),
                      STATUS_PRIVILEGE_NOT_HELD)
  else exists g, (forall i, 0 <= i -> Z.testbit g i = ok i) /\
    ((forall i, 0 <= i -> i <> 25 -> Z.testbit D i = true -> ok i = true) ->
     result =
     Some (if g =? 0 then (false, Some g, STATUS_ACCESS_DENIED) else (true, Some g, STATUS_SUCCESS))) /\
    (forall i, 0 <= i -> i <> 25 -> Z.testbit D i = true -> ok i = false ->
     result = Some (false, Some 0, STATUS_ACCESS_DENIED)).
Proof.
  intros H Ho Hr Hi HD Hmax result ok. subst result.
  destruct (Z.testbit D 24 && _) eqn:E.
  { apply andb_true_iff in E as [H24 Hp]. apply negb_true_iff in Hp.
    by apply (SeAccessCheck_no_privilege DBG Self gm m p v w Sub ss es o D). }
  exists (total gm (SubjectToken Sub) ss es o D).
  rewrite (SeAccessCheck_maximum DBG Self gm m p v w Sub ss es o D) by
    (try done; intros H24; rewrite H24 in E; by apply negb_false_iff in E).
  split; [apply total_bit|]. split.
  - intros K. by rewrite (proj2 (rest_zero gm (SubjectToken Sub) ss es o D HD)).
  - intros i Hpos H25 Hb Hf. destruct (Z.eqb_spec (rest gm (SubjectToken Sub) ss es o D) 0) as [E'|]; [|done].
    pose proof (proj1 (rest_zero _ _ _ _ _ _ HD) E' i Hpos H25 Hb). subst ok. congruence.
Qed.

(** The rights of a request without privileges, split by the check of the owner. *)
Lemma desired_split owns D :
  0 <= D < 2 ^ 28 ->
  Z.lor (if owns : bool then Z.land D (Z.lor WRITE_DAC READ_CONTROL) else 0) (desired owns D) = D.
Proof.
  intros HD. apply Z.bits_inj'. intros i Hi. rewrite Z.lor_spec, desired_bit by done.
  destruct owns; [|by rewrite Z.bits_0, andb_true_r].
  rewrite Z.land_spec, owner_rights_bit by done. by destruct (Z.testbit D i), ((i =? 18) || (i =? 17)).
Qed.

(** Without a request for the maximum access the entries of a DACL are not enforced: the test
    behind the loop that fails if some rights have not been granted is compiled out.  A request
    for rights that need no privilege is granted in full, although the loop finds out whether the
    entries allow every right that was requested. *)
Theorem dacl_entries_not_enforced DBG Self gm m p v w Sub ss es o D :
  subject_and_dacl m p v w Sub ss es -> owner v = Some o ->
  flag (TokenFlags (SubjectToken Sub)) TOKEN_IS_RESTRICTED = false ->
  (is_Some (ClientToken Sub) -> SecurityImpersonation <= ImpersonationLevel Sub) ->
  0 < D < 2 ^ 28 -> Z.testbit D 25 = false -> Z.testbit D 24 = false -> Z.testbit D 19 = false ->
  SeAccessCheck DBG Self m p Sub D 0 gm UserMode = Some (true, Some D, STATUS_SUCCESS) /\
  exists r,
    GrantLoop DBG Self (length es) m (u32 (dacl_ptr p v w + 8)) (SubjectToken Sub) gm D = Some r /\
    (r = 0 <-> forall i, 0 <= i -> Z.testbit D i = true -> allowed gm ss es i = true).
Proof.
  intros H Ho Hr Hi HD H25 H24 H19. split.
  - rewrite (SeAccessCheck_run DBG Self gm _ _ _ _ _ _ _ _ H Ho Hr Hi). set (owns := member ss o && _).
    change MAXIMUM_ALLOWED with (2 ^ 25). rewrite flag_bit, H25 by lia.
    set (P := if owns then _ else 0). pose proof (desired_split owns D ltac:(lia)) as Hs. fold P in Hs.
    pose proof (desired_range owns D ltac:(lia)) as Hd.
    assert (privileged (SubjectToken Sub) (desired owns D) = 0) as Hp.
    { rewrite privileged_desired by lia. apply Z.bits_inj'. intros i Hpos.
      by rewrite privileged_bit, H24, H19, !andb_false_r, Z.bits_0. }
    destruct (Z.eqb_spec (desired owns D) 0) as [E|E].
    { rewrite E, Z.lor_0_r in Hs. rewrite Hs. by rewrite (proj2 (Z.eqb_neq D 0)) by lia. }
    rewrite (AccessCheck_run DBG Self gm H (desired owns D) P), Hp, Z.lor_0_r, Hs.
    + change MAXIMUM_ALLOWED with (2 ^ 25). by rewrite flag_bit, desired_bit, H25 by lia.
    + lia.
    + unfold P. destruct owns; [|lia]. apply land_range; [lia|lia|]. vm_compute. discriminate.
    + rewrite Hp. change (not32 0) with (Z.ones 32). rewrite Z.land_ones, Z.mod_small by lia. done.
    + change ACCESS_SYSTEM_SECURITY with (2 ^ 24). by rewrite flag_bit, desired_bit, H24 by lia.
  - exists (remaining gm ss es D). rewrite (dacl_start H).
    split; [by apply (GrantLoop_run gm ss DBG Self (have_sids H) (have_dacl H) [] es)|].
    apply remaining_spec. lia.
Qed.

(** ** The system call *)

(** A request for rights that depend neither on the owner nor on a privilege. *)
Definition plain (D : Z) : Prop :=
  0 <= D < 2 ^ 28 /\ flag D (Z.lor WRITE_DAC (Z.lor READ_CONTROL MAXIMUM_ALLOWED)) = false /\
  Z.testbit D 24 = false /\ Z.testbit D 19 = false.

Definition with_token (call : NT_CALL) (T : TOKEN) : NT_CALL :=
  mkCall (PreviousMode call) (ProbeException call) (inr T) (Allocated call) (Captured call)
    (CurrentSubject call).

Definition may_check (T : TOKEN) : Prop :=
  TokenType T = TokenImpersonation /\ SecurityIdentification <= TokenImpersonationLevel T.

(** the answer of [NtAccessCheck] to a request for rights that depend neither on the owner
    nor on a privilege is the same for all impersonation tokens of the level identification or
    above: the DACL is evaluated for the caller, not for the token of the handle. *)
Theorem nt_access_check_ignores_token DBG Self m call T1 T2 p D gmp ps psl ga ast :
  plain D -> may_check T1 -> may_check T2 ->
  NtAccessCheck DBG Self m (with_token call T1) p D gmp ps psl ga ast =
  NtAccessCheck DBG Self m (with_token call T2) p D gmp ps psl ga ast.
Proof.
  intros (HD & Hf & H24 & H19) [E1 L1] [E2 L2]. unfold NtAccessCheck, with_token.
  cbn [PreviousMode ProbeException ReferencedToken Allocated Captured CurrentSubject].
  rewrite E1, E2, (proj2 (Z.ltb_ge _ _) L1), (proj2 (Z.ltb_ge _ _) L2). cbn [Z.eqb negb].
  unfold SePrivilegePolicyCheck. change ACCESS_SYSTEM_SECURITY with (2 ^ 24).
  change WRITE_OWNER with (2 ^ 19). rewrite !flag_bit, H24, H19 by lia.
  cbn [mbind option_bind negb]. change (Z.lor 0 0) with 0.
  replace (Z.land D (not32 0)) with D
    by (change (not32 0) with (Z.ones 32); by rewrite Z.land_ones, Z.mod_small by lia).
  change (UsedPrivileges 0) with (@nil LUID_AND_ATTRIBUTES). cbn [mbind option_bind].
  unfold CheckAndReturn. by rewrite Hf.
Qed.

(** A self-relative descriptor whose owner offset is 0 passes the check for an owner, and the
    token is then compared with the SID at the address 0. *)
Lemma missing_owner DBG Self m p v w T :
  sd_in m p v w -> flag (control v) SE_SELF_RELATIVE = true -> wowner w = 0 -> m !! 1 = None ->
  SepGetSDOwner m p = Some p /\ SepTokenIsOwner DBG Self m T p = None.
Proof.
  intros Hsd Hf Hw Hm. destruct (sd_pos _ _ _ _ Hsd). split.
  - unfold SepGetSDOwner. rewrite (SdControl_in Hsd), (SdOwner_in Hsd). cbn [mbind option_bind].
    rewrite Hf, Hw, Z.add_0_l, u32_small by lia. done.
  - unfold SepTokenIsOwner. rewrite (get_owner Hsd). cbn [mbind option_bind].
    unfold owner_ptr, Target. rewrite Hf, Hw. cbn [Z.eqb].
    assert (ld8 m (0 + 1) = None) as Hl by (unfold ld8; cbn [load]; change (0 + 1) with 1; by rewrite Hm).
    unfold SepSidInToken, SepSidInTokenEx, assert_. destruct DBG; [done|].
    cbn [Z.eqb negb andb mbind option_bind]. by rewrite Hl.
Qed.

(** The two words of an empty privilege set. *)
Lemma ReturnPrivileges_none m ps psl n old :
  has m ps old -> length old = 8%nat -> sizeof_PRIVILEGE_SET <= n ->
  exists m', ReturnPrivileges m ps psl n None = Some (STATUS_SUCCESS, m') /\ same_except m m' ps 8.
Proof.
  intros Ho Hl Hn. unfold ReturnPrivileges, st32. rewrite (proj2 (Z.ltb_ge _ _)) by done.
  rewrite <- (take_drop 4 old) in Ho. apply has_app in Ho as [H1 H2].
  rewrite length_take, Hl in H2. change (Z.of_nat (4 `min` 8)) with 4 in H2.
  destruct (store_at m ps _ (enc 4 0) H1) as (m1 & E1 & _ & S1 & _); [by rewrite length_take, Hl|].
  rewrite length_take, Hl in S1. change (Z.of_nat (4 `min` 8)) with 4 in S1.
  apply (has_frame _ _ _ _ _ _ H2) in S1 as H2'; [|lia].
  destruct (store_at m1 (ps + 4) _ (enc 4 0) H2') as (m2 & E2 & _ & S2 & _); [by rewrite length_drop, Hl|].
  rewrite length_drop, Hl in S2. rewrite E1. cbn [mbind option_bind]. rewrite E2. exists m2. split; [done|].
  eapply same_except_trans; eapply same_except_weaken; try done; lia.
Qed.

(** [NtAccessCheck] accepts a self-relative descriptor without an owner, and a request for
    READ_CONTROL, WRITE_DAC or the maximum access then faults at the address 1. *)
Theorem missing_owner_faults DBG Self m call T c p v w D gmp ps psl n old ga ast :
  PreviousMode call = UserMode -> ProbeException call = None -> ReferencedToken call = inr T ->
  Captured call = (STATUS_SUCCESS, c) -> c <> 0 -> may_check T ->
  sd_in m p v w -> flag (control v) SE_SELF_RELATIVE = true -> wowner w = 0 ->
  u32 (wgroup w + p) <> 0 -> m !! 1 = None ->
  ld32 m psl = Some n -> sizeof_PRIVILEGE_SET <= n ->
  has m ps old -> length old = 8%nat -> 1 < ps -> Forall (apart ps 8) (regions p v w) ->
  0 <= D < 2 ^ 28 -> Z.testbit D 24 = false -> Z.testbit D 19 = false ->
  flag D (Z.lor WRITE_DAC (Z.lor READ_CONTROL MAXIMUM_ALLOWED)) = true ->
  NtAccessCheck DBG Self m call p D gmp ps psl ga ast = None.
Proof.
  intros E1 E2 E3 E4 Hc [Ht Hl] Hsd Hf Hw Hg Hm Hn Hlen Ho Hol Hps Hap HD H24 H19 Hfl.
  destruct (ReturnPrivileges_none m ps psl n old Ho Hol Hlen) as (m' & Er & Hs).
  assert (sd_in m' p v w) as Hsd'.
  { eapply sd_frame; [done|]. eapply Forall_impl; [exact Hap|]. intros r. by apply same_agree. }
  destruct (missing_owner DBG Self m' p v w T Hsd' Hf Hw) as [G1 G2]; [rewrite Hs by lia; done|].
  destruct (sd_pos _ _ _ _ Hsd). unfold NtAccessCheck. rewrite E1, E2, Hn. cbn [mbind option_bind].
  replace (flag D (Z.lor GENERIC_READ _)) with false.
  2:{ symmetry. apply flag_false. intros i Hi. destruct (Z.testbit D i) eqn:Eb; [|done].
      pose proof (testbit_true_lt 28 D i ltac:(lia) HD Eb).
      change (Z.lor GENERIC_READ _) with (Z.shiftl 15 28). rewrite Z.shiftl_spec_low by lia. done. }
  rewrite E3, Ht, (proj2 (Z.ltb_ge _ _) Hl). cbn [Z.eqb negb].
  unfold SePrivilegePolicyCheck. change ACCESS_SYSTEM_SECURITY with (2 ^ 24).
  change WRITE_OWNER with (2 ^ 19). rewrite !flag_bit, H24, H19 by lia.
  cbn [mbind option_bind negb]. change (Z.lor 0 0) with 0.
  replace (Z.land D (not32 0)) with D
    by (change (not32 0) with (Z.ones 32); by rewrite Z.land_ones, Z.mod_small by lia).
  change (UsedPrivileges 0) with (@nil LUID_AND_ATTRIBUTES). cbn [mbind option_bind].
  change (NT_SUCCESS STATUS_SUCCESS) with true. cbn [negb]. rewrite Er, E4. cbn [mbind option_bind].
  change (NT_SUCCESS STATUS_SUCCESS) with true. cbn [negb].
  rewrite (proj2 (Z.eqb_neq c 0)) by done. rewrite G1. cbn [mbind option_bind].
  rewrite (proj2 (Z.eqb_neq p 0)) by lia. unfold SepGetSDGroup.
  rewrite (SdControl_in Hsd'), (SdGroup_in Hsd'). cbn [mbind option_bind]. rewrite Hf.
  rewrite (proj2 (Z.eqb_neq _ 0)) by done. unfold CheckAndReturn. by rewrite Hfl, G2.
Qed.

(** ** Privileges and the traverse check *)

(** for a list of privileges [SePrivilegeCheck] in user mode answers whether the token has
    all of them enabled, or at least one if not all are necessary, and marks the privileges
    that were used: all that are enabled, or the first one.  A client token below the
    impersonation level is refused. *)
Theorem privilege_check_decides DBG Sub l Control :
  l <> [] -> Z.of_nat (length l) < 2 ^ 32 ->
  SePrivilegeCheck DBG l Control Sub UserMode =
  Some (if bool_decide (is_Some (ClientToken Sub)) && (ImpersonationLevel Sub <? SecurityImpersonation)
        then (false, l)
        else (satisfied (SubjectToken Sub) Control l,
              mark_held (SubjectToken Sub)
                (if flag Control PRIVILEGE_SET_ALL_NECESSARY then length l else 1) l)).
Proof.
  intros Hl Hn. unfold SePrivilegeCheck, SubjectToken. destruct (ClientToken Sub) as [T|].
  - rewrite bool_decide_true by eauto. change SecurityImpersonation with 2. cbn [andb].
    destruct (ImpersonationLevel Sub <? 2); [done|]. by apply SepPrivilegeCheck_run.
  - rewrite bool_decide_false by (by intros [? ?]). by apply SepPrivilegeCheck_run.
Qed.

(** The first entry that decides the traverse check: an entry that denies one of the rights to
    anyone, or that allows one of them to everyone. *)
Fixpoint traverse (world : sid) (es : list entry) (D : Z) : bool :=
  match es with
  | [] => false
  | e :: es' =>
      if negb (flag (eflags e) INHERIT_ONLY_ACE) && flag (emask e) D then
        if etype e =? ACCESS_DENIED_ACE_TYPE then false
        else if (etype e =? ACCESS_ALLOWED_ACE_TYPE) && bool_decide (world = esid e) then true
        else traverse world es' D
      else traverse world es' D
  end.

Lemma TraverseLoop_run World m p world es es1 es2 D :
  sid_at m World world -> dacl_at m p es -> es = es1 ++ es2 ->
  TraverseLoop World (length es2) m (behind p es1) D = Some (traverse world es2 D).
Proof.
  intros Hw Hes. revert es1. induction es2 as [|e es2 IH]; intros es1 E; cbn [length TraverseLoop traverse]; [done|].
  destruct (entry_here _ _ _ _ _ _ Hes E) as (Ht & Hfl & Hm & Hs & n & Hn & Hu).
  assert (es = (es1 ++ [e]) ++ es2) as E' by (by rewrite <- app_assoc).
  rewrite Hfl, Ht, Hm, (RtlEqualSid_run _ _ _ _ _ Hw Hs), Hn. cbn [mbind option_bind].
  unfold ACCESS_ALLOWED_ACE_TYPE, ACCESS_DENIED_ACE_TYPE.
  destruct (flag (eflags e) INHERIT_ONLY_ACE), (flag (emask e) D), (Z.eqb_spec (etype e) 0) as [E0|],
    (Z.eqb_spec (etype e) 1) as [E1|], (bool_decide (world = esid e)); try lia;
    cbn [negb andb mbind option_bind]; rewrite ?Hu; try done; by apply IH.
Qed.

(** [SeFastTraverseCheck] on a descriptor with a DACL answers by the first entry that is for
    the object and denies one of the rights, or allows one of them to everyone; no entry at all,
    or a restricted token, is a refusal. *)
Theorem traverse_check_decides DBG World m p v w es world Flags D :
  sd_in m p v w -> dacl_at m (dacl_ptr p v w) es -> sid_at m World world ->
  SeFastTraverseCheck DBG World m p Flags D UserMode =
  Some (negb (flag Flags TOKEN_IS_RESTRICTED) && traverse world es D).
Proof.
  intros Hsd Hes Hw. destruct (sd_pos _ _ _ _ Hsd). unfold SeFastTraverseCheck, assert_.
  rewrite andb_false_r. cbn [mbind option_bind]. rewrite (proj2 (Z.eqb_neq p 0)) by lia.
  rewrite (get_dacl Hsd). cbn [mbind option_bind]. pose proof Hes as (a & Ha & Ea & _).
  destruct (acl_pos _ _ _ Ha). rewrite (proj2 (Z.eqb_neq (dacl_ptr p v w) 0)) by lia.
  rewrite (AceCount_at Ha), Ea, length_fmap. cbn [mbind option_bind].
  rewrite (start_range Ha), Nat2Z.id. destruct es as [|e es]; [by rewrite andb_false_r|].
  rewrite (proj2 (Z.eqb_neq _ 0)) by (simpl; lia). destruct (flag Flags TOKEN_IS_RESTRICTED); [done|].
  pose proof (TraverseLoop_run World m _ world (e :: es) [] (e :: es) D Hw Hes eq_refl) as E.
  unfold behind in E. simpl concat in E. by rewrite Z.add_0_r in E.
Qed.

(** ** Witnesses *)

Module AccessExample.

(** Everyone, the administrators and a user: the DACL denies the right 0 to the administrators,
    allows the rights 0 and 1 to the user and the right 2 to everyone for inherited use only. *)
Definition user : sid := mkSid 1 [0; 0; 0; 0; 0; 5] [21; 1000].

Definition entries : list entry :=
  [mkEntry ACCESS_DENIED_ACE_TYPE 0 0x1 administrators; mkEntry ACCESS_ALLOWED_ACE_TYPE 0 0x3 user;
   mkEntry ACCESS_ALLOWED_ACE_TYPE INHERIT_ONLY_ACE 0x4 everyone;
   mkEntry ACCESS_ALLOWED_ACE_TYPE 0 0x20 everyone].

Definition the_acl : acl := mkAcl 2 0 0 (entry_bytes <$> entries) [].

Definition object : descriptor := mkSd 0 SE_DACL_PRESENT (Some user) (Some everyone) None (Some the_acl).
Definition object_words : words := mkWords 300 100 0 1000.

(** A self-relative descriptor without owner, group and ACLs. *)
Definition bare : descriptor := mkSd 0 SE_SELF_RELATIVE None None None None.
Definition bare_words : words := mkWords 0 0 0 0.

Definition place (p : Z) (b : list Z) : list (Z * Z) := zip (seqZ p (Z.of_nat (length b))) b.

Definition object_memory : mem :=
  list_to_map (place 100 (sid_bytes everyone) ++ place 200 (sid_bytes administrators)
    ++ place 300 (sid_bytes user) ++ place 1000 (acl_bytes the_acl)
    ++ place 2000 (sd_bytes object object_words) ++ place 3000 (sd_bytes bare bare_words)
    ++ place 4000 (enc 4 20) ++ place 5000 (replicate 20 0)).

Definition mapping : GENERIC_MAPPING := mkMapping 0x20001 0x20002 0x20004 0xF01FF.

(** The user, a member of everyone and of the administrators. *)
Definition token : TOKEN :=
  mkToken [mkSidAttr 300 0; mkSidAttr 100 7; mkSidAttr 200 7] []
    [mkLuidAttr SeTakeOwnershipPrivilege SE_PRIVILEGE_ENABLED; mkLuidAttr SeSecurityPrivilege 0] 0 2 2.
Definition token_sids : list (sid * Z) := [(user, 0); (everyone, 7); (administrators, 7)].
Definition subject : SECURITY_SUBJECT_CONTEXT := mkSubject None 0 token.

Lemma user_wf : wf_sid user.
Proof. split; [vm_compute; split; [discriminate|done]|split; [|done]|..|vm_compute; done]; repeat constructor; done. Qed.

Lemma sids_here :
  sid_at object_memory 100 everyone /\ sid_at object_memory 200 administrators /\
  sid_at object_memory 300 user.
Proof. split_and!; (split; [first [apply everyone_wf|apply user_wf]|by vm_compute]). Qed.

Lemma token_here : sids_at object_memory (UserAndGroups token) token_sids.
Proof. destruct sids_here as (H1 & H2 & H3). repeat constructor; done. Qed.

Lemma entries_good : Forall good_entry entries.
Proof.
  repeat constructor; first [apply everyone_wf|apply user_wf|vm_compute; by first [done|discriminate]|idtac].
Qed.

Lemma the_acl_here : acl_at object_memory 1000 the_acl.
Proof.
  apply acl_at_bytes. split; [|by vm_compute].
  split; [change (size the_acl) with 96; lia|by vm_compute|by vm_compute; split|].
  apply Forall_fmap, (Forall_impl good_entry); [apply entries_good|].
  intros e [Ht _ Hs]. apply known_is_ace. by exists (etype e), (eflags e), (emask e), (esid e).
Qed.

Lemma dacl_here : dacl_at object_memory 1000 entries.
Proof. exists the_acl. split_and!; [apply the_acl_here|done|apply entries_good]. Qed.

Lemma object_in : sd_in object_memory 2000 object object_words.
Proof.
  destruct sids_here as (H1 & H2 & H3). split; [lia| |by vm_compute|..].
  - unfold is_byte, is_word. simpl. unfold SE_DACL_PRESENT. lia.
  - change (sid_part object_memory 300 (Some user)). split_and!; [lia|vm_compute; discriminate|done].
  - change (sid_part object_memory 100 (Some everyone)). split_and!; [lia|vm_compute; discriminate|done].
  - done.
  - exact the_acl_here.
Qed.

Lemma bare_in : sd_in object_memory 3000 bare bare_words.
Proof.
  split; [lia| |by vm_compute|done..]. unfold is_byte, is_word. simpl. unfold SE_SELF_RELATIVE. lia.
Qed.

Lemma object_checked : subject_and_dacl object_memory 2000 object object_words subject token_sids entries.
Proof. split; [apply object_in|apply token_here|apply dacl_here|done]. Qed.

Lemma maximum_allowed_exact_witness :
  exists g, (forall i, 0 <= i -> Z.testbit g i = grantable mapping token token_sids entries user 0x2080000 i) /\
    ((forall i, 0 <= i -> i <> 25 -> Z.testbit 0x2080000 i = true ->
        grantable mapping token token_sids entries user 0x2080000 i = true) ->
     SeAccessCheck true 9 object_memory 2000 subject 0x2080000 0 mapping UserMode =
     Some (if g =? 0 then (false, Some g, STATUS_ACCESS_DENIED) else (true, Some g, STATUS_SUCCESS))) /\
    (forall i, 0 <= i -> i <> 25 -> Z.testbit 0x2080000 i = true ->
       grantable mapping token token_sids entries user 0x2080000 i = false ->
     SeAccessCheck true 9 object_memory 2000 subject 0x2080000 0 mapping UserMode
     = Some (false, Some 0, STATUS_ACCESS_DENIED)).
Proof.
  exact (maximum_allowed_exact true 9 mapping object_memory 2000 object object_words subject token_sids entries
    user 0x2080000 object_checked eq_refl eq_refl (fun H => ltac:(destruct H; discriminate)) ltac:(lia) eq_refl).
Defined.

Lemma maximum_allowed_granted :
  SeAccessCheck true 9 object_memory 2000 subject 0x2080000 0 mapping UserMode
  = Some (true, Some 0xE0022, STATUS_SUCCESS).
Proof. vm_compute. reflexivity. Qed.

(** The privilege for ACCESS_SYSTEM_SECURITY is not enabled. *)
Lemma maximum_allowed_not_held :
  SeAccessCheck true 9 object_memory 2000 subject 0x3000000 0 mapping UserMode
  = Some (false, Some 0x60000, STATUS_PRIVILEGE_NOT_HELD).
Proof. vm_compute. reflexivity. Qed.

Lemma dacl_entries_not_enforced_at :
  SeAccessCheck true 9 object_memory 2000 subject 1 0 mapping UserMode = Some (true, Some 1, STATUS_SUCCESS) /\
  exists r,
    GrantLoop true 9 4 object_memory (u32 (1000 + 8)) token mapping 1 = Some r /\
    (r = 0 <-> forall i, 0 <= i -> Z.testbit 1 i = true -> allowed mapping token_sids entries i = true).
Proof.
  exact (dacl_entries_not_enforced true 9 mapping object_memory 2000 object object_words subject token_sids entries
    user 1 object_checked eq_refl eq_refl (fun H => ltac:(destruct H; discriminate)) ltac:(lia) eq_refl eq_refl
    eq_refl).
Defined.

(** The right 0 is denied to the administrators, and granted. *)
Lemma denied_right_granted : allowed mapping token_sids entries 0 = false.
Proof. vm_compute. reflexivity. Qed.

(** The handle is for the token of someone without any group. *)
Definition stranger : TOKEN := mkToken [mkSidAttr 100 SE_GROUP_USE_FOR_DENY_ONLY] [] [] 0 2 1.
Definition the_call : NT_CALL := mkCall UserMode None (inr token) true (STATUS_SUCCESS, 6000) subject.

Lemma nt_access_check_ignores_token_witness :
  NtAccessCheck true 9 object_memory (with_token the_call token) 2000 3 0 5000 4000 5008 5012 =
  NtAccessCheck true 9 object_memory (with_token the_call stranger) 2000 3 0 5000 4000 5008 5012.
Proof.
  apply (nt_access_check_ignores_token true 9 object_memory the_call token stranger 2000 3 0 5000 4000 5008 5012).
  - split_and!; [lia|lia|reflexivity..].
  - split; [reflexivity|by vm_compute].
  - split; [reflexivity|by vm_compute].
Defined.

Lemma missing_owner_faults_witness :
  NtAccessCheck true 9 object_memory the_call 3000 READ_CONTROL 0 5000 4000 5008 5012 = None.
Proof.
  apply (missing_owner_faults true 9 object_memory the_call token 6000 3000 bare bare_words READ_CONTROL 0
    5000 4000 20 (replicate 8 0) 5008 5012); try reflexivity; try lia; try exact bare_in; try by vm_compute.
  unfold apart, regions. repeat (constructor; [vm_compute; by first [left|right]|]). constructor.
Defined.

Lemma privilege_check_decides_witness :
  SePrivilegeCheck true [mkLuidAttr SeSecurityPrivilege 0; mkLuidAttr SeTakeOwnershipPrivilege 0] 0 subject UserMode
  = Some (true, [mkLuidAttr SeSecurityPrivilege 0; mkLuidAttr SeTakeOwnershipPrivilege 0x80000000]).
Proof.
  exact (privilege_check_decides true subject
    [mkLuidAttr SeSecurityPrivilege 0; mkLuidAttr SeTakeOwnershipPrivilege 0] 0 ltac:(discriminate) eq_refl).
Defined.

Lemma traverse_check_decides_witness :
  SeFastTraverseCheck true 100 object_memory 2000 0 0x20 UserMode = Some true.
Proof.
  exact (traverse_check_decides true 100 object_memory 2000 object object_words entries everyone 0 0x20 object_in
    dacl_here (proj1 sids_here)).
Defined.

End AccessExample.
