(* ===== verification/Tree.v ===== *)
(** * Binary trees with parent pointers

    The links of the splay and AVL packages: the macros of sdk/include/ndk/rtlfuncs.h and the
    walks of sdk/lib/rtl/splaytree.c, on a store of records.  [RTL_BALANCED_LINKS] begins
    with the three members of [RTL_SPLAY_LINKS], and the functions on splay links touch
    only these, so one record stands for both.  NULL is 0.

    Trees are related to the store by lists of cells: [owns F l m] says that the store [m]
    consists of the cells [l], at different addresses, and of the rest [F].  A subtree and
    the context around it ([tree], [ctx]) have their cells, so a change at a place of a
    tree is a change of one cell of such a list. *)

From Stdlib Require Import ZArith Lia Bool.
From stdpp Require Import base option list numbers gmap fin_maps list_tactics.
From S2P Require Import Prelude.
Open Scope Z_scope.

Record RTL_BALANCED_LINKS := mkLinks {
  Parent : Z; LeftChild : Z; RightChild : Z; Balance : Z }.

Abbreviation nodes := (gmap Z RTL_BALANCED_LINKS).

(** ** The macros *)

Definition RtlParent (m : nodes) (Links : Z) : option Z := Parent <$> m !! Links.
Definition RtlLeftChild (m : nodes) (Links : Z) : option Z := LeftChild <$> m !! Links.
Definition RtlRightChild (m : nodes) (Links : Z) : option Z := RightChild <$> m !! Links.

Definition RtlIsLeftChild (m : nodes) (Links : Z) : option bool :=
  p ← RtlParent m Links; l ← RtlLeftChild m p; Some (l =? Links).
Definition RtlIsRightChild (m : nodes) (Links : Z) : option bool :=
  p ← RtlParent m Links; r ← RtlRightChild m p; Some (r =? Links).
Definition RtlIsRoot (m : nodes) (Links : Z) : option bool :=
  p ← RtlParent m Links; Some (p =? Links).

(** Assignments to the members. *)
Definition set_parent (m : nodes) (x v : Z) : option nodes :=
  n ← m !! x; Some (<[x := mkLinks v (LeftChild n) (RightChild n) (Balance n)]> m).
Definition set_left (m : nodes) (x v : Z) : option nodes :=
  n ← m !! x; Some (<[x := mkLinks (Parent n) v (RightChild n) (Balance n)]> m).
Definition set_right (m : nodes) (x v : Z) : option nodes :=
  n ← m !! x; Some (<[x := mkLinks (Parent n) (LeftChild n) v (Balance n)]> m).

Definition RtlInsertAsLeftChild (m : nodes) (ParentLinks ChildLinks : Z) : option nodes :=
  m ← set_left m ParentLinks ChildLinks; set_parent m ChildLinks ParentLinks.
Definition RtlInsertAsRightChild (m : nodes) (ParentLinks ChildLinks : Z) : option nodes :=
  m ← set_right m ParentLinks ChildLinks; set_parent m ChildLinks ParentLinks.

Definition RtlInitializeSplayLinks (m : nodes) (Links : Z) : option nodes :=
  m ← set_parent m Links Links; m ← set_left m Links 0; set_right m Links 0.

(** A pointer to one of the child links of a record, [&x->LeftChild] or [&x->RightChild]. *)
Inductive side := L | R.

#[export] Instance side_eq_dec : EqDecision side.
Proof. solve_decision. Defined.

Definition child (m : nodes) (link : side * Z) : option Z :=
  match link.1 with L => RtlLeftChild m link.2 | R => RtlRightChild m link.2 end.
Definition set_child (m : nodes) (link : side * Z) (v : Z) : option nodes :=
  match link.1 with L => set_left m link.2 v | R => set_right m link.2 v end.

Definition opp (s : side) : side := match s with L => R | R => L end.

(** ** The walks *)

(** Loops go along a path of the tree, on which each record is at most once. *)
Definition path_fuel (m : nodes) : nat := S (size m).

(** [while (child of Child) Child = child of Child], for one of the two sides. *)
Fixpoint Descend (s : side) (fuel : nat) (m : nodes) (Child : Z) : option Z :=
  next ← child m (s, Child);
  if negb (next =? 0) then
    match fuel with
    | O => None
    | S fuel' => Descend s fuel' m next
    end
  else Some Child.

Definition is_child (s : side) (m : nodes) (Links : Z) : option bool :=
  match s with L => RtlIsLeftChild m Links | R => RtlIsRightChild m Links end.

(** [while (Child is such a child) Child = RtlParent(Child)]. *)
Fixpoint Ascend (s : side) (fuel : nat) (m : nodes) (Child : Z) : option Z :=
  b ← is_child s m Child;
  if (b : bool) then
    match fuel with
    | O => None
    | S fuel' => p ← RtlParent m Child; Ascend s fuel' m p
    end
  else Some Child.

Definition RtlRealPredecessor (m : nodes) (Links : Z) : option Z :=
  Child ← RtlLeftChild m Links;
  if negb (Child =? 0) then Descend R (path_fuel m) m Child else
  Child ← Ascend L (path_fuel m) m Links;
  right ← RtlIsRightChild m Child;
  if (right : bool) then RtlParent m Child else Some 0.

Definition RtlRealSuccessor (m : nodes) (Links : Z) : option Z :=
  Child ← RtlRightChild m Links;
  if negb (Child =? 0) then Descend L (path_fuel m) m Child else
  Child ← Ascend R (path_fuel m) m Links;
  left ← RtlIsLeftChild m Child;
  if (left : bool) then RtlParent m Child else Some 0.

Definition RtlSubtreePredecessor (m : nodes) (Links : Z) : option Z :=
  Child ← RtlLeftChild m Links;
  if Child =? 0 then Some 0 else Descend R (path_fuel m) m Child.

Definition RtlSubtreeSuccessor (m : nodes) (Links : Z) : option Z :=
  Child ← RtlRightChild m Links;
  if Child =? 0 then Some 0 else Descend L (path_fuel m) m Child.

(** ** Cells *)

Abbreviation cell := (prod Z RTL_BALANCED_LINKS).

Record owns (F : nodes) (l : list cell) (m : nodes) : Prop := {
  owns_nodup : NoDup l.*1;
  owns_nonnull : 0 ∉ l.*1;
  owns_disjoint : (list_to_map l : nodes) ##ₘ F;
  owns_eq : m = (list_to_map l : nodes) ∪ F
}.

#[export] Instance owns_perm F : Proper ((≡ₚ) ==> (=) ==> iff) (owns F).
Proof.
  assert (forall l l' m, l ≡ₚ l' -> owns F l m -> owns F l' m) as H.
  { intros l l' m Hp [H1 H2 H3 H4]. assert (NoDup l'.*1) as Hn by by rewrite <- Hp.
    assert ((list_to_map l : nodes) = list_to_map l') as E by by apply list_to_map_proper.
    rewrite E in *. split; [done|by rewrite <- Hp|done|done]. }
  intros l l' Hp m m' <-. split; apply H; [done|by symmetry].
Qed.

Lemma owns_lookup F l m x n : owns F l m -> (x, n) ∈ l -> m !! x = Some n.
Proof.
  intros [H1 H2 H3 ->] Hx. apply lookup_union_Some_l. by apply elem_of_list_to_map_1.
Qed.

Lemma owns_write F l m x n n' :
  owns F ((x, n) :: l) m -> owns F ((x, n') :: l) (<[x := n']> m).
Proof.
  intros [H1 H2 H3 ->]. split; [done|done| |].
  - simpl in *. apply map_disjoint_insert_l in H3 as [??]. by apply map_disjoint_insert_l.
  - simpl. by rewrite <- insert_union_l, insert_insert_eq, insert_union_l.
Qed.

Lemma owns_neq F l m x y : owns F l m -> x ∈ l.*1 -> y ∉ l.*1 -> x <> y.
Proof. intros _ H1 H2 ->. done. Qed.

Lemma owns_size F l m : owns F l m -> (length l <= size m)%nat.
Proof.
  intros [H1 H2 H3 ->]. rewrite map_size_disj_union by done.
  rewrite map_size_list_to_map by done. lia.
Qed.

(** A new record, and one that is given back. *)
Lemma owns_alloc F l m x n : owns F l m -> x <> 0 -> m !! x = None -> owns F ((x, n) :: l) (<[x := n]> m).
Proof.
  intros [H1 H2 H3 ->] Hx Hn. apply lookup_union_None in Hn as [N1 N2].
  assert (x ∉ l.*1) as Hx' by by apply not_elem_of_list_to_map_2 in N1.
  split; simpl.
  - by constructor.
  - rewrite not_elem_of_cons. done.
  - by apply map_disjoint_insert_l.
  - by rewrite insert_union_l.
Qed.

Lemma owns_free F l m x n : owns F ((x, n) :: l) m -> owns F l (delete x m).
Proof.
  intros [H1 H2 H3 ->]. simpl in *. apply NoDup_cons in H1 as [Hx H1].
  apply map_disjoint_insert_l in H3 as [F1 F2].
  split; [done|set_solver| |].
  - done.
  - rewrite delete_union, delete_insert_eq. rewrite !delete_id; [done|done|].
    by apply not_elem_of_list_to_map_1.
Qed.

(** ** Trees *)

(** A tree of records: the address and the balance of each. *)
Inductive tree :=
| Leaf
| Branch (l : tree) (a b : Z) (r : tree).

#[export] Instance tree_eq_dec : EqDecision tree.
Proof. solve_decision. Defined.

Definition ptr (t : tree) : Z := match t with Leaf => 0 | Branch _ a _ _ => a end.

(** The addresses in order. *)
Fixpoint addrs (t : tree) : list Z :=
  match t with
  | Leaf => []
  | Branch l a _ r => addrs l ++ a :: addrs r
  end.

Fixpoint height (t : tree) : Z :=
  match t with
  | Leaf => 0
  | Branch l _ _ r => 1 + Z.max (height l) (height r)
  end.

Lemma height_nonneg t : 0 <= height t.
Proof. induction t; simpl; lia. Qed.

(** The cells of a tree whose root has the parent [p]. *)
Fixpoint cells (p : Z) (t : tree) : list cell :=
  match t with
  | Leaf => []
  | Branch l a b r => cells a l ++ (a, mkLinks p (ptr l) (ptr r) b) :: cells a r
  end.

(** A node with the subtree [u] on the side [s] and [v] on the other. *)
Definition mk (s : side) (u v : tree) (a b : Z) : tree :=
  match s with L => Branch u a b v | R => Branch v a b u end.

Definition links (s : side) (p u v b : Z) : RTL_BALANCED_LINKS :=
  match s with L => mkLinks p u v b | R => mkLinks p v u b end.

(** The surroundings of a subtree: the record at [h], of which the whole tree is the right
    child and which is its own parent, or a record with the subtree on one side and a
    sibling on the other. *)
Inductive ctx :=
| Root (b : Z)
| Frame (s : side) (a b : Z) (t : tree) (c : ctx).

Fixpoint plug (t : tree) (c : ctx) : tree :=
  match c with
  | Root _ => t
  | Frame s a b u c' => plug (mk s t u a b) c'
  end.

Lemma plug_leaf t c : plug t c = Leaf -> t = Leaf.
Proof. revert t. induction c as [b|s a b u c IH]; intros t; [done|]. simpl. intros H. apply IH in H. by destruct s. Qed.

Lemma plug_frame t s a b u c : plug t (Frame s a b u c) <> Leaf.
Proof. simpl. intros H. apply plug_leaf in H. by destruct s. Qed.

Section Cells.
Context (h : Z).

Definition top (c : ctx) : Z := match c with Root _ => h | Frame _ a _ _ _ => a end.

(** The cells of a context whose subtree is at [x]. *)
Fixpoint ccells (x : Z) (c : ctx) : list cell :=
  match c with
  | Root b => [(h, mkLinks h 0 x b)]
  | Frame s a b u c' => (a, links s (top c') x (ptr u) b) :: cells a u ++ ccells a c'
  end.

(** The balance stored at [h]. *)
Fixpoint root_balance (c : ctx) : Z :=
  match c with Root b => b | Frame _ _ _ _ c' => root_balance c' end.

Lemma cells_mk p s u v a b :
  cells p (mk s u v a b) ≡ₚ (a, links s p (ptr u) (ptr v) b) :: cells a u ++ cells a v.
Proof. destruct s; simpl; solve_Permutation. Qed.

Lemma ptr_mk s u v a b : ptr (mk s u v a b) = a.
Proof. by destruct s. Qed.

(** A tree is a subtree and its context. *)
Lemma focus t c :
  cells (top c) t ++ ccells (ptr t) c ≡ₚ cells h (plug t c) ++ ccells (ptr (plug t c)) (Root (root_balance c)).
Proof.
  revert t. induction c as [b|s a b u c IH]; intros t; [done|]. cbn [plug ccells root_balance top].
  rewrite <- IH, cells_mk, ptr_mk. solve_Permutation.
Qed.
End Cells.

(** ** Reading and writing links *)

Section Access.
Context {F : nodes} {l : list cell} {m : nodes} (Ho : owns F l m).

Lemma read_parent x n : (x, n) ∈ l -> RtlParent m x = Some (Parent n).
Proof. intros H. unfold RtlParent. by rewrite (owns_lookup _ _ _ _ _ Ho H). Qed.

Lemma read_child s x p u v b : (x, links s p u v b) ∈ l -> child m (s, x) = Some u.
Proof.
  intros H. unfold child, RtlLeftChild, RtlRightChild. simpl.
  rewrite (owns_lookup _ _ _ _ _ Ho H). by destruct s.
Qed.

Lemma write_parent x n l' v :
  l ≡ₚ (x, n) :: l' ->
  exists m', set_parent m x v = Some m' /\
    owns F ((x, mkLinks v (LeftChild n) (RightChild n) (Balance n)) :: l') m'.
Proof.
  intros Hp. rewrite Hp in Ho. unfold set_parent.
  rewrite (owns_lookup _ _ _ x n Ho) by left. eexists. split; [done|]. by eapply owns_write.
Qed.

Lemma write_child s x p u v b l' w :
  l ≡ₚ (x, links s p u v b) :: l' ->
  exists m', set_child m (s, x) w = Some m' /\ owns F ((x, links s p w v b) :: l') m'.
Proof.
  intros Hp. rewrite Hp in Ho. unfold set_child, set_left, set_right. simpl.
  rewrite (owns_lookup _ _ _ x (links s p u v b) Ho) by left.
  destruct s; (eexists; split; [done|]; by eapply owns_write).
Qed.

Lemma not_null x : x ∈ l.*1 -> x <> 0.
Proof. intros H ->. by apply (owns_nonnull _ _ _ Ho). Qed.
End Access.

Lemma links_opp s p u v b : links (opp s) p u v b = links s p v u b.
Proof. by destruct s. Qed.

Lemma mk_opp s u v a b : mk (opp s) u v a b = mk s v u a b.
Proof. by destruct s. Qed.

Lemma owns_distinct F l m x y :
  owns F l m -> (exists l', l ≡ₚ x :: y :: l') -> x.1 <> y.1.
Proof.
  intros Ho [l' Hp]. rewrite Hp in Ho. pose proof (owns_nodup _ _ _ Ho) as H. simpl in H.
  apply NoDup_cons in H as [H _]. rewrite not_elem_of_cons in H. tauto.
Qed.

Lemma in_fst (l : list cell) x n : (x, n) ∈ l -> x ∈ l.*1.
Proof. apply (list_elem_of_fmap_2 fst l (x, n)). Qed.

Lemma root_cell p u a b v l : (a, mkLinks p (ptr u) (ptr v) b) ∈ cells p (Branch u a b v) ++ l.
Proof. simpl. rewrite !elem_of_app, elem_of_cons. tauto. Qed.

(** The root of a tree, or NULL, is not the address of a cell outside of it. *)
Lemma ptr_distinct F l m p t x n l' :
  owns F l m -> l ≡ₚ (x, n) :: cells p t ++ l' -> ptr t <> x.
Proof.
  intros Ho Hp. rewrite Hp in Ho. destruct t as [|u a b v]; simpl.
  - intros <-. apply (owns_nonnull _ _ _ Ho). by left.
  - intros ->. pose proof (owns_nodup _ _ _ Ho) as H. simpl in H. apply NoDup_cons in H as [H _].
    apply H. eapply in_fst, root_cell.
Qed.

(** Giving a subtree another parent; nothing happens to an empty one. *)
Lemma reparent F l m p q t l' :
  owns F l m -> l ≡ₚ cells p t ++ l' ->
  exists m', (if negb (ptr t =? 0) then set_parent m (ptr t) q else Some m) = Some m' /\
    owns F (cells q t ++ l') m'.
Proof.
  intros Ho Hp. destruct t as [|u a b v]; simpl.
  - exists m. rewrite Hp in Ho. done.
  - assert (a <> 0) as Ha.
    { apply (not_null Ho). rewrite Hp. eapply in_fst, root_cell. }
    rewrite (proj2 (Z.eqb_neq _ _)) by done. simpl.
    destruct (write_parent Ho a (mkLinks p (ptr u) (ptr v) b) (cells a u ++ cells a v ++ l') q)
      as (m' & E & Ho'); [rewrite Hp; simpl; solve_Permutation|].
    exists m'. split; [done|]. simpl in Ho'.
    eapply owns_perm; [|done|exact Ho']. solve_Permutation.
Qed.

Section Contexts.
Context (h : Z).

(** Which child of its parent the subtree of a context is. *)
Definition hole (c : ctx) : side := match c with Root _ => R | Frame s _ _ _ _ => s end.

Definition hole_links (c : ctx) (x : Z) : RTL_BALANCED_LINKS :=
  match c with
  | Root b => mkLinks h 0 x b
  | Frame s a b u c' => links s (top h c') x (ptr u) b
  end.

Definition above (c : ctx) : list cell :=
  match c with
  | Root _ => []
  | Frame s a b u c' => cells a u ++ ccells h a c'
  end.

Lemma ccells_top x c : ccells h x c = (top h c, hole_links c x) :: above c.
Proof. by destruct c. Qed.

Lemma hole_links_child c x : exists p v b, hole_links c x = links (hole c) p x v b.
Proof. destruct c as [b|s a b u c']; simpl; [by exists h, 0, b|eauto]. Qed.

(** The children of the top of a context, compared with the subtree in it. *)
Lemma hole_child F l m c x n l' s :
  owns F l m -> l ≡ₚ (x, n) :: ccells h x c ++ l' ->
  exists v, child m (s, top h c) = Some v /\ (v =? x) = bool_decide (hole c = s).
Proof.
  intros Ho Hp. assert (x <> 0) as Hx by (apply (not_null Ho); rewrite Hp; simpl; left).
  assert ((top h c, hole_links c x) ∈ l) as Hin by (rewrite Hp, ccells_top; set_solver).
  destruct c as [b|t a b u c']; simpl in *.
  - destruct s; [exists 0|exists x].
    + split; [apply (read_child Ho L _ h 0 x b); done|by apply Z.eqb_neq].
    + split; [apply (read_child Ho R _ h x 0 b); done|by apply Z.eqb_refl].
  - exists (if bool_decide (t = s) then x else ptr u). case_bool_decide as Hs.
    + subst. split; [by eapply (read_child Ho)|apply Z.eqb_refl].
    + split; [eapply (read_child Ho s); destruct s, t; done|]. apply Z.eqb_neq.
      apply (ptr_distinct F l m a u x n ((a, links t (top h c') x (ptr u) b) :: ccells h a c' ++ l'));
        [done|]. rewrite Hp. simpl. solve_Permutation.
Qed.

(** The test for the side, on any record of the tree whose parent is the top of [c]. *)
Lemma is_child_run F l m c x n l' s :
  owns F l m -> l ≡ₚ (x, n) :: ccells h x c ++ l' -> Parent n = top h c ->
  is_child s m x = Some (bool_decide (hole c = s)).
Proof.
  intros Ho Hp En. destruct (hole_child F l m c x n l' s Ho Hp) as (v & Ec & Ev).
  assert (RtlParent m x = Some (top h c)) as Ep.
  { rewrite (read_parent Ho x n); [by rewrite En|]. rewrite Hp. by left. }
  rewrite <- Ev. unfold is_child, RtlIsLeftChild, RtlIsRightChild, child in *. rewrite Ep.
  cbn [mbind option_bind]. destruct s; simpl in *; by rewrite Ec.
Qed.

(** Making another record the child of the top of a context. *)
Lemma set_hole_run F l m c x y l' :
  owns F l m -> l ≡ₚ ccells h x c ++ l' ->
  exists m', set_child m (hole c, top h c) y = Some m' /\ owns F (ccells h y c ++ l') m'.
Proof.
  intros Ho Hp. destruct (hole_links_child c x) as (p & v & b & E).
  destruct (write_child Ho (hole c) (top h c) p x v b (above c ++ l') y) as (m' & Em & Ho').
  { rewrite Hp, ccells_top, E. done. }
  exists m'. split; [done|]. rewrite ccells_top.
  replace (hole_links c y) with (links (hole c) p y v b); [done|].
  destruct c as [b'|s a b' u c']; simpl in *; [by injection E as -> <- <-|].
  destruct s; simpl in *; by injection E as -> <- <-.
Qed.
End Contexts.

(** ** Walking *)

(** The addresses of a tree in the direction of a side, the near ones first; those beyond a
    subtree; the first of a tree on a side. *)
Definition toward (s : side) (t : tree) : list Z :=
  match s with L => reverse (addrs t) | R => addrs t end.

Fixpoint beyond (s : side) (c : ctx) : list Z :=
  match c with
  | Root _ => []
  | Frame t a b u c' => if bool_decide (t = s) then beyond s c' else a :: toward s u ++ beyond s c'
  end.

Fixpoint extreme (s : side) (t : tree) : Z :=
  match t with
  | Leaf => 0
  | Branch l a _ r =>
      match (match s with L => l | R => r end) with
      | Leaf => a
      | _ => extreme s (match s with L => l | R => r end)
      end
  end.

Lemma addrs_plug t c : addrs (plug t c) = reverse (beyond L c) ++ addrs t ++ beyond R c.
Proof.
  revert t. induction c as [b|s a b u c IH]; intros t; simpl; [by rewrite app_nil_r|].
  rewrite IH. destruct s; simpl.
  - by rewrite <- !app_assoc.
  - by rewrite reverse_cons, reverse_app, reverse_involutive, <- !app_assoc.
Qed.

Lemma length_cells p t : length (cells p t) = length (addrs t).
Proof.
  revert p. induction t as [|l IHl a b r IHr]; intros p; [done|]. simpl.
  rewrite !length_app. simpl. by rewrite IHl, IHr.
Qed.

Lemma cells_addrs p t : (cells p t).*1 = addrs t.
Proof.
  revert p. induction t as [|l IHl a b r IHr]; intros p; [done|]. simpl. rewrite fmap_app. simpl.
  by rewrite IHl, IHr.
Qed.

Definition sub (s : side) (t : tree) : tree :=
  match t with Leaf => Leaf | Branch l _ _ r => match s with L => l | R => r end end.

Lemma node_sides t : t <> Leaf -> forall s, exists a b, t = mk s (sub s t) (sub (opp s) t) a b.
Proof. destruct t as [|l a b r]; [done|]. intros _ []; by exists a, b. Qed.

Lemma extreme_mk s u v a b :
  extreme s (mk s u v a b) = match u with Leaf => a | _ => extreme s u end.
Proof. by destruct s. Qed.

Lemma toward_mk s u v a b :
  toward (opp s) (mk s u v a b) = toward (opp s) u ++ a :: toward (opp s) v.
Proof. destruct s; simpl; [done|]. by rewrite reverse_app, reverse_cons, <- app_assoc. Qed.

Lemma tree_ind_side s (P : tree -> Prop) :
  P Leaf -> (forall u v a b, P u -> P v -> P (mk s u v a b)) -> forall t, P t.
Proof.
  intros H0 H. induction t as [|l IHl a b r IHr]; [done|].
  destruct s; [by apply (H l r a b)|by apply (H r l a b)].
Qed.

Lemma toward_extreme s t d l : t <> Leaf -> hd d (toward (opp s) t ++ l) = extreme s t.
Proof.
  induction t as [|u v a b IH _] using (tree_ind_side s); [done|]. intros _.
  rewrite toward_mk, extreme_mk, <- app_assoc. destruct u as [|ul ua ub ur]; [by destruct s|].
  rewrite <- IH by done. destruct (toward (opp s) (Branch ul ua ub ur)) eqn:E; [|done].
  exfalso. destruct s; simpl in E.
  - by destruct (addrs ul).
  - rewrite reverse_app, reverse_cons in E. by destruct (reverse (addrs ur)).
Qed.

Lemma descend_run s t F l m p l' fuel :
  owns F l m -> l ≡ₚ cells p t ++ l' -> t <> Leaf -> (length (addrs t) <= fuel)%nat ->
  Descend s fuel m (ptr t) = Some (extreme s t).
Proof.
  intros Ho. revert p l' fuel.
  induction t as [|u v a b IH _] using (tree_ind_side s); intros p l' fuel Hp Hn Hf; [done|].
  rewrite cells_mk in Hp. cbn [app] in Hp. rewrite <- app_assoc in Hp. rewrite ptr_mk, extreme_mk.
  assert ((a, links s p (ptr u) (ptr v) b) ∈ l) as Hin by (rewrite Hp; by left).
  assert (length (addrs (mk s u v a b)) = length (addrs u) + S (length (addrs v)))%nat as El
    by (destruct s; simpl; rewrite length_app; simpl; lia).
  destruct fuel as [|fuel]; [lia|]. cbn [Descend].
  rewrite (read_child Ho s a p (ptr u) (ptr v) b Hin). cbn [mbind option_bind].
  destruct u as [|ul ua ub ur]; [done|].
  rewrite (proj2 (Z.eqb_neq _ _)).
  2: { apply (not_null Ho). rewrite Hp. apply (in_fst _ _ (mkLinks a (ptr ul) (ptr ur) ub)).
       right. apply root_cell. }
  cbn [negb].
  apply (IH a ((a, links s p (ptr (Branch ul ua ub ur)) (ptr v) b) :: cells a v ++ l')); [|done|lia].
  rewrite Hp. solve_Permutation.
Qed.

(** The place of the first record of a tree on a side. *)
Lemma extreme_place s t c :
  t <> Leaf -> exists u d bd c',
    plug t c = plug (mk s Leaf u d bd) c' /\ root_balance c' = root_balance c /\ extreme s t = d /\
    beyond s c' = beyond s c /\ (d :: toward (opp s) u) ++ beyond (opp s) c' = toward (opp s) t ++ beyond (opp s) c.
Proof.
  revert c. induction t as [|u v a b IH _] using (tree_ind_side s); intros c Ht; [done|].
  rewrite extreme_mk, toward_mk. destruct u as [|ul ua ub ur].
  - exists v, a, b, c. split_and!; try done. by destruct s.
  - destruct (IH (Frame s a b v c)) as (w & d & bd & c' & E1 & E2 & E3 & E4 & E5); [done|].
    exists w, d, bd, c'. split_and!; [done|done|done| |].
    + rewrite E4. simpl. by rewrite bool_decide_true.
    + rewrite E5. simpl. rewrite bool_decide_false by by destruct s. by rewrite <- app_assoc.
Qed.

(** The place of a record of a tree. *)
Lemma address_place a t c : a ∈ addrs t -> exists l b r c',
  plug t c = plug (Branch l a b r) c' /\ root_balance c' = root_balance c.
Proof.
  revert c. induction t as [|l IHl x b r IHr]; simpl; intros c H; [by apply not_elem_of_nil in H|].
  apply elem_of_app in H as [H|H]; [|apply elem_of_cons in H as [->|H]].
  - destruct (IHl (Frame L x b r c) H) as (l' & b' & r' & c' & E1 & E2). by exists l', b', r', c'.
  - by exists l, b, r, c.
  - destruct (IHr (Frame R x b l c) H) as (l' & b' & r' & c' & E1 & E2). by exists l', b', r', c'.
Qed.

Lemma NoDup_split (pre post pre' post' : list Z) x :
  NoDup (pre ++ x :: post) -> pre ++ x :: post = pre' ++ x :: post' -> pre = pre' /\ post = post'.
Proof.
  revert pre'. induction pre as [|y pre IH]; intros [|z pre'] Hn E; simpl in *.
  - by injection E as ->.
  - injection E as <- ->. apply NoDup_cons in Hn as [Hn _]. set_solver.
  - injection E as -> _. apply NoDup_cons in Hn as [Hn _]. set_solver.
  - injection E as -> E. apply NoDup_cons in Hn as [_ Hn].
    destruct (IH pre' Hn E) as [-> ->]. done.
Qed.

Section Walks.
Context (h : Z).

(** The record at [h] is nobody's child. *)
Lemma is_child_head F l m x b l' s :
  owns F l m -> l ≡ₚ (h, mkLinks h 0 x b) :: l' -> x <> h -> is_child s m h = Some false.
Proof.
  intros Ho Hp Hx. assert (h <> 0) as Hh by (apply (not_null Ho); rewrite Hp; left).
  assert (m !! h = Some (mkLinks h 0 x b)) as E by (apply (owns_lookup F l); [done|rewrite Hp; left]).
  unfold is_child, RtlIsLeftChild, RtlIsRightChild, RtlParent, RtlLeftChild, RtlRightChild.
  rewrite E. cbn [mbind option_bind fmap option_fmap option_map Parent]. rewrite E.
  destruct s; cbn [fmap option_fmap option_map mbind option_bind LeftChild RightChild]; f_equal;
    apply Z.eqb_neq; congruence.
Qed.

(** From a record to the nearest one beyond it: up, while it is a child on the side of the
    direction; the record at [h] is before the tree, and nothing is behind it. *)
Lemma ascend_run s F l m c x n l' fuel :
  owns F l m -> l ≡ₚ (x, n) :: ccells h x c ++ l' -> Parent n = top h c ->
  (length (ccells h x c) < fuel)%nat ->
  (y ← Ascend s fuel m x; b ← is_child (opp s) m y; if (b : bool) then RtlParent m y else Some 0)
  = Some (hd (match s with L => h | R => 0 end) (beyond s c)).
Proof.
  intros Ho. revert x n l' fuel. induction c as [b0|t a b u c IH]; intros x n l' fuel Hp En Hf.
  all: destruct fuel as [|fuel]; [simpl in Hf; lia|]; cbn [Ascend].
  all: rewrite (is_child_run h F l m _ x n l' s Ho Hp En); cbn [mbind option_bind hole beyond].
  all: assert (RtlParent m x = Some (Parent n)) as Ep by (apply (read_parent Ho); rewrite Hp; by left).
  - destruct s; cbn [opp]; case_bool_decide; try done.
    + cbn [mbind option_bind]. rewrite (is_child_run h F l m _ x n l' R Ho Hp En).
      cbn [mbind option_bind hole]. rewrite bool_decide_true by done. by rewrite Ep, En.
    + rewrite Ep. cbn [mbind option_bind]. rewrite En. cbn [top].
      assert (x <> h) as Hx.
      { apply (owns_distinct F l m (x, n) (h, mkLinks h 0 x b0)); [done|]. by exists l'. }
      assert (l ≡ₚ (h, mkLinks h 0 x b0) :: (x, n) :: l') as Hp' by (rewrite Hp; simpl; solve_Permutation).
      destruct fuel as [|fuel]; [simpl in Hf; lia|]. cbn [Ascend].
      rewrite (is_child_head F l m x b0 _ _ Ho Hp' Hx). cbn [mbind option_bind].
      by rewrite (is_child_head F l m x b0 _ _ Ho Hp' Hx).
  - case_bool_decide as Hs.
    + rewrite Ep. cbn [mbind option_bind]. rewrite En. cbn [top].
      apply (IH a (links t (top h c) x (ptr u) b) ((x, n) :: cells a u ++ l')).
      * rewrite Hp. simpl. solve_Permutation.
      * by destruct t.
      * simpl in Hf. rewrite length_app in Hf. lia.
    + cbn [mbind option_bind]. rewrite (is_child_run h F l m _ x n l' (opp s) Ho Hp En).
      cbn [mbind option_bind hole]. rewrite bool_decide_true by (destruct s, t; done).
      rewrite Ep, En. done.
Qed.

Lemma focus_cell F l m t c s u v a b l' :
  owns F l m -> l ≡ₚ cells (top h c) t ++ ccells h (ptr t) c ++ l' -> t = mk s u v a b ->
  l ≡ₚ (a, links s (top h c) (ptr u) (ptr v) b) :: ccells h a c ++ cells a u ++ cells a v ++ l'.
Proof. intros _ -> ->. rewrite cells_mk, ptr_mk. solve_Permutation. Qed.

(** The nearest record in a direction, from the root of the subtree in [c]. *)
Lemma real_neighbour s F l m c u v a b l' :
  owns F l m -> l ≡ₚ cells (top h c) (mk s u v a b) ++ ccells h a c ++ l' ->
  (Child ← child m (s, a);
   if negb (Child =? 0) then Descend (opp s) (path_fuel m) m Child else
   Child ← Ascend s (path_fuel m) m a;
   side ← is_child (opp s) m Child;
   if (side : bool) then RtlParent m Child else Some 0)
  = Some (hd (match s with L => h | R => 0 end) (toward s u ++ beyond s c)).
Proof.
  intros Ho Hp. pose proof (owns_size _ _ _ Ho) as Hsize.
  assert (l ≡ₚ (a, links s (top h c) (ptr u) (ptr v) b) :: ccells h a c ++ cells a u ++ cells a v ++ l')
    as Hp' by (apply (focus_cell F l m (mk s u v a b)); [done|by rewrite ptr_mk|done]).
  assert (length l = S (length (ccells h a c) + (length (addrs u) + (length (addrs v) + length l'))))%nat as El.
  { rewrite Hp'. simpl. by rewrite !length_app, !length_cells. }
  rewrite (read_child Ho s a (top h c) (ptr u) (ptr v) b) by (rewrite Hp'; by left).
  cbn [mbind option_bind]. destruct u as [|ul ua ub ur].
  - cbn [ptr]. rewrite Z.eqb_refl. cbn [negb].
    rewrite (ascend_run s F l m c a (links s (top h c) 0 (ptr v) b) (cells a v ++ l')); [|done| | |].
    + by destruct s.
    + rewrite Hp'. done.
    + by destruct s.
    + unfold path_fuel. lia.
  - rewrite (proj2 (Z.eqb_neq _ _)).
    2: { apply (not_null Ho). rewrite Hp'. apply (in_fst _ _ (mkLinks a (ptr ul) (ptr ur) ub)).
         right. rewrite !elem_of_app. right. left. simpl. rewrite elem_of_app, elem_of_cons. tauto. }
    cbn [negb]. set (u := Branch ul ua ub ur) in *. change (ptr u) with (ptr u).
    rewrite (descend_run (opp s) u F l m a ((a, links s (top h c) (ptr u) (ptr v) b)
      :: ccells h a c ++ cells a v ++ l')); [|done| |done|unfold path_fuel; lia].
    + f_equal. rewrite <- (toward_extreme (opp s) u (match s with L => h | R => 0 end) (beyond s c)) by done.
      by destruct s.
    + rewrite Hp'. solve_Permutation.
Qed.

Lemma RtlRealSuccessor_run F m c l a b r l' :
  owns F (cells (top h c) (Branch l a b r) ++ ccells h a c ++ l') m ->
  RtlRealSuccessor m a = Some (hd 0 (addrs r ++ beyond R c)).
Proof. intros Ho. by apply (real_neighbour R F _ m c r l a b l' Ho). Qed.

Lemma RtlRealPredecessor_run F m c l a b r l' :
  owns F (cells (top h c) (Branch l a b r) ++ ccells h a c ++ l') m ->
  RtlRealPredecessor m a = Some (hd h (reverse (addrs l) ++ beyond L c)).
Proof. intros Ho. by apply (real_neighbour L F _ m c l r a b l' Ho). Qed.
End Walks.
