(* ===== verification/Avl.v ===== *)
(** * AVL trees and generic tables (sdk/lib/rtl/avlsupp.c, avltable.c, rtlavl.h)

    [BalancedRoot] is the first member of the table, so its address [h] is that of the
    table; the other members are the record [RTL_AVL_TABLE].  The records of the table are
    in the store [Nodes], the user data behind each record in [UserData] under the same
    address.  The contents of the user buffers have a type [V], and the compare routine of
    the client is a function on them. *)

From Stdlib Require Import ZArith Lia Bool.
From stdpp Require Import base option list numbers gmap fin_maps.
From S2P Require Import Prelude Tree.
Open Scope Z_scope.

Definition RtlLeftHeavyAvlTree : Z := -1.
Definition RtlBalancedAvlTree : Z := 0.
Definition RtlRightHeavyAvlTree : Z := 1.

Inductive TABLE_SEARCH_RESULT := TableEmptyTree | TableFoundNode | TableInsertAsLeft | TableInsertAsRight.
Inductive RTL_GENERIC_COMPARE_RESULTS := GenericLessThan | GenericGreaterThan | GenericEqual.

#[export] Instance search_result_eq_dec : EqDecision TABLE_SEARCH_RESULT.
Proof. solve_decision. Defined.
#[export] Instance compare_result_eq_dec : EqDecision RTL_GENERIC_COMPARE_RESULTS.
Proof. solve_decision. Defined.

Record RTL_AVL_TABLE := mkTable {
  OrderedPointer : Z; WhichOrderedElement : Z; NumberGenericTableElements : Z;
  DepthOfTree : Z; RestartKey : Z; DeleteCount : Z }.

(** ** Balances *)

(** [Balance] is a [CHAR]. *)
Definition RtlSetBalance (m : nodes) (Node Balance : Z) : option nodes :=
  n ← m !! Node;
  Some (<[Node := mkLinks (Parent n) (LeftChild n) (RightChild n) (swrap 8 Balance)]> m).

Definition RtlBalance (m : nodes) (Node : Z) : option Z := Balance <$> m !! Node.

Definition RtlSetParent (m : nodes) (Node Parent : Z) : option nodes := set_parent m Node Parent.

Definition RtlpCopyAvlNodeData (m : nodes) (Node1 Node2 : Z) : option nodes :=
  n ← m !! Node2; _ ← m !! Node1; Some (<[Node1 := n]> m).

(** [SwapNode1] and [SwapNode2] are pointers to child links. *)
Definition RtlpPromoteAvlTreeNode (m : nodes) (Node : Z) : option nodes :=
  ParentNode ← RtlParent m Node;
  SuperParentNode ← RtlParent m ParentNode;
  left ← RtlIsLeftChild m Node;
  let SwapNode1 := if (left : bool) then (L, ParentNode) else (R, ParentNode) in
  let SwapNode2 := if left then (R, Node) else (L, Node) in
  v ← child m SwapNode2;
  m ← set_child m SwapNode1 v;
  v ← child m SwapNode1;
  m ← (if negb (v =? 0) then RtlSetParent m v ParentNode else Some m);
  m ← set_child m SwapNode2 ParentNode;
  m ← RtlSetParent m ParentNode Node;
  l ← RtlLeftChild m SuperParentNode;
  let SwapNode1 := if l =? ParentNode then (L, SuperParentNode) else (R, SuperParentNode) in
  m ← set_child m SwapNode1 Node;
  RtlSetParent m Node SuperParentNode.

Definition RtlpRebalanceAvlTreeNode (m : nodes) (Node : Z) : option (bool * nodes) :=
  Balance ← RtlBalance m Node;
  ChildNode ← (if Balance =? RtlRightHeavyAvlTree then RtlRightChild m Node else RtlLeftChild m Node);
  cb ← RtlBalance m ChildNode;
  if cb =? Balance then
    m ← RtlpPromoteAvlTreeNode m ChildNode;
    m ← RtlSetBalance m ChildNode RtlBalancedAvlTree;
    m ← RtlSetBalance m Node RtlBalancedAvlTree;
    Some (false, m)
  else if cb =? - Balance then
    SubChildNode ← (if Balance =? RtlRightHeavyAvlTree then RtlLeftChild m ChildNode
                    else RtlRightChild m ChildNode);
    m ← RtlpPromoteAvlTreeNode m SubChildNode;
    m ← RtlpPromoteAvlTreeNode m SubChildNode;
    sb ← RtlBalance m SubChildNode;
    m ← (if sb =? Balance then
           m ← RtlSetBalance m ChildNode RtlBalancedAvlTree;
           RtlSetBalance m Node (- Balance)
         else if sb =? - Balance then
           m ← RtlSetBalance m ChildNode Balance;
           RtlSetBalance m Node RtlBalancedAvlTree
         else
           m ← RtlSetBalance m ChildNode RtlBalancedAvlTree;
           RtlSetBalance m Node RtlBalancedAvlTree);
    m ← RtlSetBalance m SubChildNode RtlBalancedAvlTree;
    Some (false, m)
  else
    m ← RtlpPromoteAvlTreeNode m ChildNode;
    m ← RtlSetBalance m ChildNode (- Balance);
    Some (true, m).

(** ** Inserting *)

(** The loop of [RtlpInsertAvlTreeNode] up the tree; the results are the records and the
    depth. *)
Fixpoint InsertLoop (fuel : nat) (h : Z) (m : nodes) (Depth NewNode NodeOrParent : Z)
    : option (nodes * Z) :=
  match fuel with
  | O => None
  | S fuel' =>
      left ← RtlIsLeftChild m NewNode;
      let Balance := if (left : bool) then RtlLeftHeavyAvlTree else RtlRightHeavyAvlTree in
      pb ← RtlBalance m NodeOrParent;
      if pb =? RtlBalancedAvlTree then
        m ← RtlSetBalance m NodeOrParent Balance;
        p ← RtlParent m NodeOrParent;
        InsertLoop fuel' h m Depth NodeOrParent p
      else if negb (pb =? Balance) then
        m ← RtlSetBalance m NodeOrParent RtlBalancedAvlTree;
        rb ← RtlBalance m h;
        Some (m, if rb =? RtlBalancedAvlTree then u32 (Depth + 1) else Depth)
      else
        '(_, m) ← RtlpRebalanceAvlTreeNode m NodeOrParent;
        Some (m, Depth)
  end.

Definition RtlpInsertAvlTreeNode (h : Z) (m : nodes) (T : RTL_AVL_TABLE)
    (NewNode NodeOrParent : Z) (SearchResult : TABLE_SEARCH_RESULT)
    : option (nodes * RTL_AVL_TABLE) :=
  let T' Depth := mkTable (OrderedPointer T) (WhichOrderedElement T)
    (u32 (NumberGenericTableElements T + 1)) Depth (RestartKey T) (DeleteCount T) in
  m ← set_right m NewNode 0;
  m ← set_left m NewNode 0;
  m ← RtlSetBalance m NewNode RtlBalancedAvlTree;
  let climb m :=
    m ← RtlSetBalance m h RtlLeftHeavyAvlTree;
    '(m, Depth) ← InsertLoop (path_fuel m) h m (DepthOfTree T) NewNode NodeOrParent;
    Some (m, T' Depth) in
  match SearchResult with
  | TableEmptyTree => m ← RtlInsertAsRightChild m h NewNode; Some (m, T' 1)
  | TableInsertAsLeft => m ← RtlInsertAsLeftChild m NodeOrParent NewNode; climb m
  | _ => m ← RtlInsertAsRightChild m NodeOrParent NewNode; climb m
  end.

(** ** Deleting *)

(** The loop of [RtlpDeleteAvlTreeNode] up the tree. *)
Fixpoint DeleteLoop (fuel : nat) (h : Z) (m : nodes) (Depth ParentNode Balance : Z)
    : option (nodes * Z) :=
  match fuel with
  | O => None
  | S fuel' =>
      let next m ParentNode :=
        right ← RtlIsRightChild m ParentNode;
        let Balance := if (right : bool) then RtlRightHeavyAvlTree else RtlLeftHeavyAvlTree in
        p ← RtlParent m ParentNode;
        DeleteLoop fuel' h m Depth p Balance in
      pb ← RtlBalance m ParentNode;
      if pb =? Balance then
        m ← RtlSetBalance m ParentNode RtlBalancedAvlTree;
        next m ParentNode
      else if pb =? RtlBalancedAvlTree then
        m ← RtlSetBalance m ParentNode (- Balance);
        rb ← RtlBalance m h;
        Some (m, if negb (rb =? RtlBalancedAvlTree) then u32 (Depth - 1) else Depth)
      else
        '(stop, m) ← RtlpRebalanceAvlTreeNode m ParentNode;
        if (stop : bool) then Some (m, Depth) else
        p ← RtlParent m ParentNode;
        next m p
  end.

(** The part of [RtlpDeleteAvlTreeNode] that unlinks [DeleteNode]; the results are the
    records, the parent and the side that gets lighter. *)
Definition Unlink (h : Z) (m : nodes) (DeleteNode : Z) : option (nodes * Z * Z) :=
  ParentNode ← RtlParent m DeleteNode;
  l ← RtlLeftChild m DeleteNode;
  let Node1 := if negb (l =? 0) then (L, DeleteNode) else (R, DeleteNode) in
  left ← RtlIsLeftChild m DeleteNode;
  let Node2 := if (left : bool) then (L, ParentNode) else (R, ParentNode) in
  let Balance := if left then RtlLeftHeavyAvlTree else RtlRightHeavyAvlTree in
  v ← child m Node1;
  m ← set_child m Node2 v;
  v ← child m Node1;
  m ← (if negb (v =? 0) then RtlSetParent m v ParentNode else Some m);
  m ← RtlSetBalance m h RtlBalancedAvlTree;
  Some (m, ParentNode, Balance).

(** The end of [RtlpDeleteAvlTreeNode]: [DeleteNode] takes the place of [Node]. *)
Definition Replace (m : nodes) (DeleteNode Node : Z) : option nodes :=
  m ← RtlpCopyAvlNodeData m DeleteNode Node;
  left ← RtlIsLeftChild m Node;
  p ← RtlParent m DeleteNode;
  m ← set_child m (if (left : bool) then (L, p) else (R, p)) DeleteNode;
  l ← RtlLeftChild m DeleteNode;
  m ← (if negb (l =? 0) then RtlSetParent m l DeleteNode else Some m);
  r ← RtlRightChild m DeleteNode;
  if negb (r =? 0) then RtlSetParent m r DeleteNode else Some m.

Definition RtlpDeleteAvlTreeNode (h : Z) (m : nodes) (Depth Node : Z) : option (nodes * Z) :=
  left ← RtlLeftChild m Node;
  right ← RtlRightChild m Node;
  DeleteNode ←
    (if (left =? 0) || (right =? 0) then Some Node else
     b ← RtlBalance m Node;
     if RtlBalancedAvlTree <=? b then Descend L (path_fuel m) m right
     else Descend R (path_fuel m) m left);
  '(m, ParentNode, Balance) ← Unlink h m DeleteNode;
  '(m, Depth) ← DeleteLoop (path_fuel m) h m Depth ParentNode Balance;
  if Node =? DeleteNode then Some (m, Depth) else
  m ← Replace m DeleteNode Node;
  Some (m, Depth).

(** ** Tables *)

Record avl_state (V : Type) := mkState { Nodes : nodes; UserData : gmap Z V; Table : RTL_AVL_TABLE }.
Arguments mkState {V}.
Arguments Nodes {V}.
Arguments UserData {V}.
Arguments Table {V}.

(** The client's allocate routine: [None] is NULL; a block it returns was not in use. *)
Class AvlAllocator (V : Type) := {
  avl_allocate : avl_state V -> option Z;
  avl_fresh σ a : avl_allocate σ = Some a ->
    a <> 0 /\ Nodes σ !! a = None /\ UserData σ !! a = None
}.

Section Table.
Context {V : Type} (CompareRoutine : V -> V -> RTL_GENERIC_COMPARE_RESULTS) (h : Z).

(** The compare loop; the result is the node or the parent. *)
Fixpoint FindNodeLoop (fuel : nat) (m : nodes) (data : gmap Z V) (Buffer : V) (CurrentNode : Z)
    : option (TABLE_SEARCH_RESULT * Z) :=
  match fuel with
  | O => None
  | S fuel' =>
      UserData ← data !! CurrentNode;
      match CompareRoutine Buffer UserData with
      | GenericLessThan =>
          ChildNode ← RtlLeftChild m CurrentNode;
          if negb (ChildNode =? 0) then FindNodeLoop fuel' m data Buffer ChildNode
          else Some (TableInsertAsLeft, CurrentNode)
      | GenericGreaterThan =>
          ChildNode ← RtlRightChild m CurrentNode;
          if negb (ChildNode =? 0) then FindNodeLoop fuel' m data Buffer ChildNode
          else Some (TableInsertAsRight, CurrentNode)
      | GenericEqual => Some (TableFoundNode, CurrentNode)
      end
  end.

(** [*NodeOrParent] is [None] when it is not stored. *)
Definition RtlpFindAvlTableNodeOrParent (σ : avl_state V) (Buffer : V)
    : option (TABLE_SEARCH_RESULT * option Z) :=
  if NumberGenericTableElements (Table σ) =? 0 then Some (TableEmptyTree, None) else
  CurrentNode ← RtlRightChild (Nodes σ) h;
  '(Result, Node) ← FindNodeLoop (path_fuel (Nodes σ)) (Nodes σ) (UserData σ) Buffer CurrentNode;
  Some (Result, Some Node).

(** [RtlZeroMemory] of the table, the parent of the root set to itself. *)
Definition RtlInitializeGenericTableAvl (σ : avl_state V) : option (avl_state V) :=
  _ ← Nodes σ !! h;
  Some (mkState (<[h := mkLinks h 0 0 0]> (Nodes σ)) (UserData σ) (mkTable 0 0 0 0 0 0)).

(** The results are the state, the address of the node whose user data is returned ([None]
    is NULL), and [*NewElement]. *)
Definition RtlInsertElementGenericTableFullAvl `{AvlAllocator V} (σ : avl_state V) (Buffer : V)
    (NodeOrParent : Z) (SearchResult : TABLE_SEARCH_RESULT) : option (avl_state V * option Z * bool) :=
  if negb (bool_decide (SearchResult = TableFoundNode)) then
    match avl_allocate σ with
    | None => Some (σ, None, false)
    | Some NewNode =>
        let m := <[NewNode := mkLinks 0 0 0 0]> (Nodes σ) in
        '(m, T) ← RtlpInsertAvlTreeNode h m (Table σ) NewNode NodeOrParent SearchResult;
        Some (mkState m (<[NewNode := Buffer]> (UserData σ)) T, Some NewNode, true)
    end
  else Some (σ, Some NodeOrParent, false).

Definition RtlInsertElementGenericTableAvl `{AvlAllocator V} (σ : avl_state V) (Buffer : V)
    : option (avl_state V * option Z * bool) :=
  '(Result, NodeOrParent) ← RtlpFindAvlTableNodeOrParent σ Buffer;
  RtlInsertElementGenericTableFullAvl σ Buffer (default 0 NodeOrParent) Result.

Definition RtlIsGenericTableEmptyAvl (σ : avl_state V) : bool :=
  NumberGenericTableElements (Table σ) =? 0.

Definition RtlNumberGenericTableElementsAvl (σ : avl_state V) : Z :=
  NumberGenericTableElements (Table σ).

(** The results are the returned node, [*NodeOrParent] and [*SearchResult]. *)
Definition RtlLookupElementGenericTableFullAvl (σ : avl_state V) (Buffer : V)
    : option (option Z * option Z * TABLE_SEARCH_RESULT) :=
  '(SearchResult, NodeOrParent) ← RtlpFindAvlTableNodeOrParent σ Buffer;
  if negb (bool_decide (SearchResult = TableFoundNode)) then Some (None, NodeOrParent, SearchResult)
  else Some (NodeOrParent, NodeOrParent, SearchResult).

Definition RtlLookupElementGenericTableAvl (σ : avl_state V) (Buffer : V) : option (option Z) :=
  '(Node, _, _) ← RtlLookupElementGenericTableFullAvl σ Buffer;
  Some Node.

(** The results are the returned node ([None] is NULL) and [*RestartKey]. *)
Definition RtlEnumerateGenericTableWithoutSplayingAvl (σ : avl_state V) (RestartKey : Z)
    : option (option Z * Z) :=
  if RtlIsGenericTableEmptyAvl σ then Some (None, RestartKey) else
  if RestartKey =? 0 then
    CurrentNode ← RtlRightChild (Nodes σ) h;
    CurrentNode ← Descend L (path_fuel (Nodes σ)) (Nodes σ) CurrentNode;
    Some (if negb (CurrentNode =? 0) then Some CurrentNode else None, CurrentNode)
  else
    CurrentNode ← RtlRealSuccessor (Nodes σ) RestartKey;
    if negb (CurrentNode =? 0) then Some (Some CurrentNode, CurrentNode)
    else Some (None, RestartKey).

Definition RtlEnumerateGenericTableAvl (σ : avl_state V) (Restart : bool)
    : option (option Z * avl_state V) :=
  let key := if Restart then 0 else RestartKey (Table σ) in
  '(Node, key) ← RtlEnumerateGenericTableWithoutSplayingAvl σ key;
  let T := Table σ in
  Some (Node, mkState (Nodes σ) (UserData σ)
    (mkTable (OrderedPointer T) (WhichOrderedElement T) (NumberGenericTableElements T)
             (DepthOfTree T) key (DeleteCount T))).

(** The loop over the predecessors that are equal to the buffer. *)
Fixpoint FirstMatchLoop (fuel : nat) (m : nodes) (data : gmap Z V) (Buffer : V) (PreviousNode : Z)
    : option Z :=
  match fuel with
  | O => None
  | S fuel' =>
      let Node := PreviousNode in
      PreviousNode ← RtlRealPredecessor m Node;
      stop ← (if PreviousNode =? 0 then Some true
              else p ← RtlParent m PreviousNode; Some (p =? PreviousNode));
      if (stop : bool) then Some Node else
      UserData ← data !! PreviousNode;
      if bool_decide (CompareRoutine Buffer UserData = GenericEqual)
      then FirstMatchLoop fuel' m data Buffer PreviousNode else Some Node
  end.

(** The results are the returned node and [*RestartKey]. *)
Definition RtlLookupFirstMatchingElementGenericTableAvl (σ : avl_state V) (Buffer : V)
    : option (option Z * Z) :=
  '(SearchResult, NodeOrParent) ← RtlpFindAvlTableNodeOrParent σ Buffer;
  match SearchResult, NodeOrParent with
  | TableFoundNode, Some Node =>
      Node ← FirstMatchLoop (path_fuel (Nodes σ)) (Nodes σ) (UserData σ) Buffer Node;
      Some (Some Node, Node)
  | _, _ => Some (None, 0)
  end.

Definition RtlDeleteElementGenericTableAvl (σ : avl_state V) (Buffer : V)
    : option (bool * avl_state V) :=
  '(SearchResult, NodeOrParent) ← RtlpFindAvlTableNodeOrParent σ Buffer;
  match SearchResult, NodeOrParent with
  | TableFoundNode, Some Node =>
      let T := Table σ in
      key ← (if Node =? RestartKey T then RtlRealPredecessor (Nodes σ) Node else Some (RestartKey T));
      '(m, Depth) ← RtlpDeleteAvlTreeNode h (Nodes σ) (DepthOfTree T) Node;
      Some (true, mkState (delete Node m) (delete Node (UserData σ))
        (mkTable 0 0 (u32 (NumberGenericTableElements T - 1)) Depth key (u32 (DeleteCount T + 1))))
  | _, _ => Some (false, σ)
  end.

End Table.
