(* ===== verification/TableOrder.v ===== *)
(** * Ordered tables: the order and the search

    What the generic tables of [avltable.c] and [generictable.c] share: the laws of the
    client's compare routine, sorted collections, and the search for a record, on any tree
    that can be navigated. *)

From stdpp Require Import base list gmap sorting.
From Stdlib Require Import ZArith Lia.
From S2P Require Import Prelude Tree Avl.
Open Scope Z_scope.

(** ** What the table asks of the client's compare routine *)

Definition opposite (r : RTL_GENERIC_COMPARE_RESULTS) : RTL_GENERIC_COMPARE_RESULTS :=
  match r with
  | GenericLessThan => GenericGreaterThan
  | GenericGreaterThan => GenericLessThan
  | GenericEqual => GenericEqual
  end.

Class CompareOrder {V : Type} (cmp : V -> V -> RTL_GENERIC_COMPARE_RESULTS) := {
  cmp_flip a b : cmp b a = opposite (cmp a b);
  cmp_trans a b c : cmp a b = GenericLessThan -> cmp b c = GenericLessThan -> cmp a c = GenericLessThan;
  cmp_equal a b c : cmp a b = GenericEqual -> cmp a c = cmp b c
}.

#[export] Instance compare_result_eq_dec : EqDecision RTL_GENERIC_COMPARE_RESULTS.
Proof. solve_decision. Defined.

Section Order.
Context {V : Type} (cmp : V -> V -> RTL_GENERIC_COMPARE_RESULTS) `{!CompareOrder cmp}.

Definition less (a b : V) : Prop := cmp a b = GenericLessThan.
Definition greater (a b : V) : Prop := cmp a b = GenericGreaterThan.

(** The collection: a list in increasing order. *)
Fixpoint insert_sorted (x : V) (vs : list V) : list V :=
  match vs with
  | [] => [x]
  | v :: vs' => if bool_decide (cmp x v = GenericLessThan) then x :: vs else v :: insert_sorted x vs'
  end.
Definition find_equal (x : V) (vs : list V) : option V := head (filter (fun v => cmp x v = GenericEqual) vs).
Definition remove_equal (x : V) (vs : list V) : list V := filter (fun v => cmp x v <> GenericEqual) vs.

Lemma cmp_refl a : cmp a a = GenericEqual.
Proof. pose proof (cmp_flip (cmp := cmp) a a). by destruct (cmp a a). Qed.

Lemma greater_less a b : greater a b <-> less b a.
Proof. unfold greater, less. rewrite (cmp_flip (cmp := cmp) a b). by destruct (cmp a b). Qed.

Lemma less_trans a b c : less a b -> less b c -> less a c.
Proof. apply cmp_trans. Qed.

Lemma greater_trans a b c : greater a b -> less c b -> greater a c.
Proof. rewrite !greater_less. intros H1 H2. by eapply less_trans. Qed.

Lemma insert_sorted_split x pre post :
  Forall (greater x) pre -> Forall (less x) post -> insert_sorted x (pre ++ post) = pre ++ x :: post.
Proof.
  intros H1 H2. induction H1 as [|v pre Hv H1 IH]; simpl.
  - destruct H2 as [|w post Hw H2]; [done|]. simpl. by rewrite bool_decide_true.
  - unfold greater in Hv. rewrite bool_decide_false, IH by (by rewrite Hv). done.
Qed.

Lemma filter_none (P : V -> Prop) {D : forall v, Decision (P v)} vs : Forall (fun v => ~ P v) vs -> filter P vs = [].
Proof. induction 1 as [|v vs Hv H IH]; [done|]. by rewrite filter_cons_False. Qed.

Lemma filter_all (P : V -> Prop) {D : forall v, Decision (P v)} vs : Forall P vs -> filter P vs = vs.
Proof. induction 1 as [|v vs Hv H IH]; [done|]. by rewrite filter_cons_True, IH. Qed.

Lemma apart_split x pre post :
  Forall (greater x) pre -> Forall (less x) post -> Forall (fun v => cmp x v <> GenericEqual) (pre ++ post).
Proof.
  intros H1 H2. apply Forall_app. split; eapply Forall_impl; [done| |done|]; unfold greater, less; simpl; congruence.
Qed.

Lemma absent_split x pre post :
  Forall (greater x) pre -> Forall (less x) post ->
  find_equal x (pre ++ post) = None /\ remove_equal x (pre ++ post) = pre ++ post.
Proof.
  intros H1 H2. pose proof (apart_split x pre post H1 H2) as H. unfold find_equal, remove_equal. split.
  - by rewrite filter_none.
  - by apply filter_all.
Qed.

Lemma sorted_apart x v pre post :
  StronglySorted less (pre ++ v :: post) -> cmp x v = GenericEqual -> Forall (greater x) pre /\ Forall (less x) post.
Proof.
  intros Hs E. apply StronglySorted_app in Hs as (Hc & _ & Hs). inversion Hs as [|? ? _ Hp]; subst. split.
  - apply Forall_forall. intros w Hw. unfold greater. rewrite (cmp_equal (cmp := cmp) _ _ _ E). apply greater_less.
    by apply Hc; [|left].
  - eapply Forall_impl; [done|]. intros w Hw. unfold less. by rewrite (cmp_equal (cmp := cmp) _ _ _ E).
Qed.

Lemma present_split x v pre post :
  StronglySorted less (pre ++ v :: post) -> cmp x v = GenericEqual ->
  find_equal x (pre ++ v :: post) = Some v /\ remove_equal x (pre ++ v :: post) = pre ++ post.
Proof.
  intros Hs E. destruct (sorted_apart x v pre post Hs E) as [H1 H2].
  pose proof (apart_split x pre post H1 H2) as H. apply Forall_app in H as [A1 A2].
  unfold find_equal, remove_equal. rewrite !filter_app. split.
  - rewrite filter_none by done. simpl. by rewrite filter_cons_True.
  - rewrite filter_cons_False by (intros N; by apply N). by rewrite !filter_all.
Qed.

Lemma sorted_insert_mid x pre post :
  StronglySorted less (pre ++ post) -> Forall (greater x) pre -> Forall (less x) post ->
  StronglySorted less (pre ++ x :: post).
Proof.
  intros Hs H1 H2. apply StronglySorted_app in Hs as (Hc & Hl & Hr).
  apply StronglySorted_app_2; [|done|by constructor].
  intros a b Ha Hb. rewrite Forall_forall in H1, H2.
  apply elem_of_cons in Hb as [-> | Hb]; [by apply greater_less, H1|by apply Hc].
Qed.

Lemma sorted_remove_mid x pre post :
  StronglySorted less (pre ++ x :: post) -> StronglySorted less (pre ++ post).
Proof.
  intros Hs. apply StronglySorted_app in Hs as (Hc & Hl & Hr).
  apply StronglySorted_app_2; [|done|by inversion Hr].
  intros a b Ha Hb. apply Hc; [done|by right].
Qed.
End Order.


(** ** The user data of the entries *)

Section Data.
Context {V : Type} (data : gmap Z V).

Lemma insert_data pre post x B : data !! x = None -> Forall (fun e => data !! e.1 = Some e.2) (pre ++ post) ->
  Forall (fun e => <[x := B]> data !! e.1 = Some e.2) (pre ++ (x, B) :: post).
Proof.
  rewrite !Forall_app, Forall_cons. intros Hx [D1 D2].
  assert (forall l, Forall (fun e => data !! e.1 = Some e.2) l -> Forall (fun e => <[x := B]> data !! e.1 = Some e.2) l) as Hk.
  { intros l Hl. eapply Forall_impl; [done|]. intros e He. simpl in He. rewrite lookup_insert_ne; [done|]. congruence. }
  split; [by apply Hk|]. split; [by rewrite lookup_insert_eq|by apply Hk].
Qed.

Lemma delete_data pre x v post :
  NoDup (pre ++ (x, v) :: post).*1 -> Forall (fun e => data !! e.1 = Some e.2) (pre ++ (x, v) :: post) ->
  Forall (fun e => delete x data !! e.1 = Some e.2) (pre ++ post).
Proof.
  rewrite fmap_app. intros Hn. apply NoDup_app in Hn as (_ & N1 & N2). apply NoDup_cons in N2 as [N2 _].
  rewrite !Forall_app, Forall_cons, !Forall_forall. intros (D1 & _ & D2).
  split; intros e He; (rewrite lookup_delete_ne; [auto|]); intros ->.
  - apply (N1 e.1); [by apply list_elem_of_fmap_2|left].
  - apply N2. simpl. by apply list_elem_of_fmap_2.
Qed.
End Data.

(** ** Searching *)

(** A tree in memory whose subtrees can be reached from their parents. *)
Record navigable (m : nodes) (at_ : tree -> ctx -> Prop) : Prop := {
  nav_child s l x b r c : at_ (Branch l x b r) c ->
    let u := match s with L => l | R => r end in
    child m (s, x) = Some (ptr u) /\ (ptr u =? 0) = bool_decide (u = Leaf);
  nav_left l x b r c : at_ (Branch l x b r) c -> at_ l (Frame L x b r c);
  nav_right l x b r c : at_ (Branch l x b r) c -> at_ r (Frame R x b l c)
}.

(** The search result for an empty place, and the record above it. *)
Definition search_of (c : ctx) : TABLE_SEARCH_RESULT :=
  match c with
  | Root _ => TableEmptyTree
  | Frame L _ _ _ _ => TableInsertAsLeft
  | Frame R _ _ _ _ => TableInsertAsRight
  end.

Lemma height_length t : height t <= Z.of_nat (length (addrs t)).
Proof. induction t; simpl; [done|]. rewrite length_app. simpl. lia. Qed.

Section Search.
Context {V : Type} (cmp : V -> V -> RTL_GENERIC_COMPARE_RESULTS) `{!CompareOrder cmp} (h : Z).
Context (m : nodes) (data : gmap Z V) (B : V) (E : list (Z * V)).
(** Where a search in the tree [t0] can end: at a record equal to the buffer, or at an
    empty place between the smaller and the larger records. *)
Inductive search_end (t0 : tree) (b0 : Z) : TABLE_SEARCH_RESULT -> Z -> Prop :=
  | search_found l x b r c pre v post :
      t0 = plug (Branch l x b r) c -> root_balance c = b0 ->
      E = pre ++ (x, v) :: post -> cmp B v = GenericEqual ->
      reverse (beyond L c) ++ addrs l = pre.*1 -> addrs r ++ beyond R c = post.*1 ->
      search_end t0 b0 TableFoundNode x
  | search_absent c pre post :
      t0 = plug Leaf c -> root_balance c = b0 -> E = pre ++ post ->
      Forall (greater cmp B) pre.*2 -> Forall (less cmp B) post.*2 ->
      reverse (beyond L c) = pre.*1 -> beyond R c = post.*1 ->
      search_end t0 b0 (search_of c) (top h c).

Context (Hdata : Forall (fun e => data !! e.1 = Some e.2) E) (Hsorted : StronglySorted (less cmp) E.*2).

Lemma entry_at pre x post : E.*1 = pre ++ x :: post -> exists E1 v E2, E = E1 ++ (x, v) :: E2 /\
  pre = E1.*1 /\ post = E2.*1 /\ data !! x = Some v.
Proof.
  intros Hx. apply fmap_app_inv in Hx as (E1 & E2 & -> & H2 & ->).
  destruct E2 as [|[y v] E2]; simpl in H2; [done|]. injection H2 as <- ->.
  exists E1, v, E2. split_and!; [done..|]. apply Forall_app in Hdata as [_ Hd]. by inversion Hd.
Qed.

Lemma value_at e l : e ∈ E -> l ⊆ E -> e.1 ∈ l.*1 -> exists e', e' ∈ l /\ e'.2 = e.2.
Proof.
  intros He Hl Hin. apply list_elem_of_fmap in Hin as (e' & E1 & He'). exists e'. split; [done|].
  rewrite Forall_forall in Hdata. pose proof (Hdata e He) as D1. pose proof (Hdata e' (Hl _ He')) as D2. congruence.
Qed.

Lemma above_all pre x v post e :
  E = pre ++ (x, v) :: post -> less cmp B v -> e ∈ E -> e.1 ∈ x :: post.*1 -> less cmp B e.2.
Proof.
  intros HE Hv He Hin.
  destruct (value_at e ((x, v) :: post) He) as (e' & He' & <-); [set_solver|done|].
  rewrite HE, fmap_app in Hsorted. apply StronglySorted_app in Hsorted as (_ & _ & Hs).
  apply StronglySorted_cons in Hs as [Hs _]. apply elem_of_cons in He' as [-> | He']; [done|].
  eapply less_trans; [done|done|]. rewrite Forall_forall in Hs. by apply Hs, list_elem_of_fmap_2.
Qed.

Lemma below_all pre x v post e :
  E = pre ++ (x, v) :: post -> greater cmp B v -> e ∈ E -> e.1 ∈ x :: pre.*1 -> greater cmp B e.2.
Proof.
  intros HE Hv He Hin.
  destruct (value_at e ((x, v) :: pre) He) as (e' & He' & <-); [set_solver|done|].
  rewrite HE, fmap_app in Hsorted. apply StronglySorted_app in Hsorted as (Hs & _ & _).
  apply elem_of_cons in He' as [-> | He']; [done|].
  eapply greater_trans; [done|done|]. apply Hs; [by apply list_elem_of_fmap_2|left].
Qed.

Lemma absent_end c pre post :
  E = pre ++ post -> reverse (beyond L c) = pre.*1 -> beyond R c = post.*1 ->
  (forall e, e ∈ E -> e.1 ∈ beyond L c -> greater cmp B e.2) ->
  (forall e, e ∈ E -> e.1 ∈ beyond R c -> less cmp B e.2) ->
  search_end (plug Leaf c) (root_balance c) (search_of c) (top h c).
Proof.
  intros HE Hl Hr Gl Gr. eapply search_absent; [done|done|done| | |done|done];
    apply Forall_fmap, Forall_forall; intros e He; simpl.
  - apply Gl; [rewrite HE; set_solver|]. rewrite <- elem_of_reverse, Hl. by apply list_elem_of_fmap_2.
  - apply Gr; [rewrite HE; set_solver|]. rewrite Hr. by apply list_elem_of_fmap_2.
Qed.

Context (at_ : tree -> ctx -> Prop) (Hnav : navigable m at_).

Lemma find_run fuel t c :
  at_ t c -> t <> Leaf -> addrs (plug t c) = E.*1 -> height t <= Z.of_nat fuel ->
  (forall e, e ∈ E -> e.1 ∈ beyond L c -> greater cmp B e.2) ->
  (forall e, e ∈ E -> e.1 ∈ beyond R c -> less cmp B e.2) ->
  exists res x, FindNodeLoop cmp fuel m data B (ptr t) = Some (res, x) /\
    search_end (plug t c) (root_balance c) res x.
Proof.
  revert fuel c. induction t as [|l IHl x b r IHr]; [done|].
  intros [|fuel] c Ho _ Ha Hf Gl Gr; simpl in Hf; pose proof (height_nonneg l); pose proof (height_nonneg r); [lia|].
  rewrite addrs_plug in Ha. simpl in Ha. rewrite <- (app_assoc (addrs l)), (app_assoc (reverse _)) in Ha. simpl in Ha.
  destruct (entry_at _ _ _ (eq_sym Ha)) as (pre & v & post & HE & Hp & Hq & Hx).
  cbn [FindNodeLoop ptr]. rewrite Hx. cbn [mbind option_bind].
  destruct (nav_child _ _ Hnav L _ _ _ _ _ Ho) as [Cl Nl]. destruct (nav_child _ _ Hnav R _ _ _ _ _ Ho) as [Cr Nr].
  unfold child in Cl, Cr. simpl in Cl, Cr, Nl, Nr.
  destruct (cmp B v) eqn:Ec.
  - assert (forall e, e ∈ E -> e.1 ∈ beyond R (Frame L x b r c) -> less cmp B e.2) as Gr'.
    { intros e He Hin. eapply above_all; [done|done|done|]. rewrite <- Hq. exact Hin. }
    rewrite Cl. cbn [mbind option_bind]. rewrite Nl. clear Nl Nr. case_bool_decide as Hl; simpl.
    + subst l. exists TableInsertAsLeft, x. split; [done|]. simpl in Hp. rewrite app_nil_r in Hp.
      apply (absent_end (Frame L x b r c) pre ((x, v) :: post)); simpl; [done|done|by rewrite Hq|done|done].
    + apply (IHl fuel (Frame L x b r c)); [by apply (nav_left _ _ Hnav)|done| |lia|done|done].
      change (plug l (Frame L x b r c)) with (plug (Branch l x b r) c).
      rewrite addrs_plug. simpl. by rewrite <- Ha, <- !app_assoc.
  - assert (forall e, e ∈ E -> e.1 ∈ beyond L (Frame R x b l c) -> greater cmp B e.2) as Gl'.
    { intros e He Hin. eapply below_all; [done|done|done|]. rewrite <- Hp. simpl in Hin. set_solver. }
    rewrite Cr. cbn [mbind option_bind]. rewrite Nr. clear Nl Nr. case_bool_decide as Hr; simpl.
    + subst r. exists TableInsertAsRight, x. split; [done|]. simpl in Hq.
      apply (absent_end (Frame R x b l c) (pre ++ [(x, v)]) post); simpl; [by rewrite <- app_assoc| |done|done|done].
      rewrite fmap_app, <- Hp, reverse_cons, reverse_app, reverse_involutive. done.
    + apply (IHr fuel (Frame R x b l c)); [by apply (nav_right _ _ Hnav)|done| |lia|done|done].
      change (plug r (Frame R x b l c)) with (plug (Branch l x b r) c).
      rewrite addrs_plug. simpl. by rewrite <- Ha, <- !app_assoc.
  - exists TableFoundNode, x. split; [done|]. by eapply search_found.
Qed.
End Search.
