(* ===== verification/AvlProps.v ===== *)
(** * AVL trees: properties

    The rebalancing of trees as values ([rebal], [ins_up], [del_up]), the proof that the
    operations on pointers do the same, and what that means for tables. *)

From Stdlib Require Import ZArith Lia Bool.
From stdpp Require Import base option list numbers gmap fin_maps list_tactics.
From S2P Require Import Prelude Tree Avl TableOrder.
Open Scope Z_scope.

(** ** Balanced trees *)

Definition sg (s : side) : Z := match s with L => -1 | R => 1 end.

Fixpoint balanced (t : tree) : Prop :=
  match t with
  | Leaf => True
  | Branch l _ b r => balanced l /\ balanced r /\ height r - height l = b /\ -1 <= b <= 1
  end.

(** The context fits a subtree of height [n]; the height of the whole tree then. *)
Fixpoint cbal (n : Z) (c : ctx) : Prop :=
  match c with
  | Root _ => True
  | Frame s _ b u c' =>
      balanced u /\ n - height u = sg s * b /\ -1 <= b <= 1 /\ cbal (1 + Z.max n (height u)) c'
  end.

Fixpoint cheight (n : Z) (c : ctx) : Z :=
  match c with
  | Root _ => n
  | Frame _ _ _ u c' => cheight (1 + Z.max n (height u)) c'
  end.

Lemma height_mk s u v a b : height (mk s u v a b) = 1 + Z.max (height u) (height v).
Proof. destruct s; simpl; lia. Qed.

Lemma balanced_mk s u v a b :
  balanced (mk s u v a b) <-> balanced u /\ balanced v /\ height u - height v = sg s * b /\ -1 <= b <= 1.
Proof. destruct s; simpl; split; intros (H1 & H2 & H3 & H4); repeat split; (done || lia). Qed.

Lemma addrs_mk s u v a b u' v' :
  addrs u = addrs u' -> addrs v = addrs v' -> forall b', addrs (mk s u v a b) = addrs (mk s u' v' a b').
Proof. intros H1 H2 b'. destruct s; simpl; by rewrite H1, H2. Qed.

Lemma addrs_rotate s o i x bx v a b bx' b' :
  addrs (mk s o (mk s i v a b) x bx) = addrs (mk s (mk s o i x bx') v a b').
Proof. destruct s; simpl; by rewrite <- !app_assoc. Qed.

Lemma balanced_plug t c : balanced (plug t c) <-> balanced t /\ cbal (height t) c.
Proof.
  revert t. induction c as [b|s a b u c IH]; intros t; simpl; [tauto|].
  rewrite IH, balanced_mk, height_mk. tauto.
Qed.

Lemma height_plug t c : height (plug t c) = cheight (height t) c.
Proof. revert t. induction c as [b|s a b u c IH]; intros t; simpl; [done|]. by rewrite IH, height_mk. Qed.

(** ** Rebalancing *)

(** The tree that [RtlpRebalanceAvlTreeNode] makes at a node [a] with the sibling [v] whose
    child [t] on the side [s] is two levels higher, and its result. *)
Definition rebal (s : side) (t v : tree) (a : Z) : tree * bool :=
  match t with
  | Leaf => (mk s t v a (sg s), true)
  | Branch _ x bx _ =>
      let out := sub s t in
      let inn := sub (opp s) t in
      if bx =? sg s then (mk s out (mk s inn v a 0) x 0, false)
      else if bx =? - sg s then
        match inn with
        | Leaf => (mk s t v a (sg s), true)
        | Branch _ y b_y _ =>
            let '(bx', ba) :=
              if b_y =? sg s then (0, - sg s) else if b_y =? - sg s then (sg s, 0) else (0, 0) in
            (mk s (mk s out (sub s inn) x bx') (mk s (sub (opp s) inn) v a ba) y 0, false)
        end
      else (mk s out (mk s inn v a (sg s)) x (- sg s), true)
  end.

Definition root_bal (t : tree) : Z := match t with Leaf => 0 | Branch _ _ b _ => b end.

(** The three cases. *)
Definition double (s : side) (o yo yi v : tree) (x y b_y a : Z) : tree :=
  let '(bx', ba) :=
    if b_y =? sg s then (0, - sg s) else if b_y =? - sg s then (sg s, 0) else (0, 0) in
  mk s (mk s o yo x bx') (mk s yi v a ba) y 0.

Lemma rebal_single s o i x v a :
  rebal s (mk s o i x (sg s)) v a = (mk s o (mk s i v a 0) x 0, false).
Proof. by destruct s. Qed.

Lemma rebal_double s o yo yi y b_y x v a :
  rebal s (mk s o (mk s yo yi y b_y) x (- sg s)) v a = (double s o yo yi v x y b_y a, false).
Proof. unfold double. destruct s; simpl; repeat case_match; congruence. Qed.

Lemma rebal_stop s o i x v a :
  rebal s (mk s o i x 0) v a = (mk s o (mk s i v a (sg s)) x (- sg s), true).
Proof. by destruct s. Qed.

Lemma sg_cases s : sg s = -1 \/ sg s = 1.
Proof. destruct s; simpl; lia. Qed.

Lemma root_bal_mk s u v a b : root_bal (mk s u v a b) = b.
Proof. by destruct s. Qed.

Lemma height_leaf t : height t = 0 -> t = Leaf.
Proof. destruct t as [|l a b r]; [done|]. simpl. pose proof (height_nonneg l). lia. Qed.

Lemma node_mk s t : t <> Leaf -> exists u v a b, t = mk s u v a b.
Proof. intros H. destruct (node_sides t H s) as (a & b & E). eauto. Qed.

Lemma double_spec s o yo yi v x y b_y a :
  balanced o -> balanced yo -> balanced yi -> balanced v ->
  height yo - height yi = sg s * b_y -> -1 <= b_y <= 1 ->
  height o = height v -> Z.max (height yo) (height yi) = height v ->
  balanced (double s o yo yi v x y b_y a) /\
  addrs (double s o yo yi v x y b_y a) = addrs (mk s (mk s o (mk s yo yi y b_y) x (- sg s)) v a (sg s)) /\
  height (double s o yo yi v x y b_y a) = height v + 2.
Proof.
  intros Ho Hyo Hyi Hv Hb Hby H1 H2. pose proof (sg_cases s). unfold double.
  assert (forall bx' ba, addrs (mk s (mk s o yo x bx') (mk s yi v a ba) y 0)
    = addrs (mk s (mk s o (mk s yo yi y b_y) x (- sg s)) v a (sg s))) as Ha.
  { intros bx' ba. destruct s; simpl; by rewrite <- ?app_assoc; simpl; rewrite <- ?app_assoc. }
  destruct (Z.eqb_spec b_y (sg s)) as [->|N1]; [|destruct (Z.eqb_spec b_y (- sg s)) as [->|N2]].
  all: rewrite !balanced_mk, !height_mk, Ha; repeat split; (done || nia).
Qed.

Lemma rebal_spec s t v a :
  balanced t -> balanced v -> height t = height v + 2 ->
  let '(T, stop) := rebal s t v a in
  balanced T /\ addrs T = addrs (mk s t v a (sg s)) /\
  stop = bool_decide (root_bal t = 0) /\ height T = height v + (if stop then 3 else 2).
Proof.
  intros Ht Hv Hh. pose proof (height_nonneg v) as Hv0. pose proof (sg_cases s) as Hs.
  destruct (node_mk s t) as (o & i & x & bx & ->); [intros ->; simpl in Hh; lia|].
  rewrite balanced_mk in Ht. destruct Ht as (Ho & Hi & Hb & Hbx). rewrite height_mk in Hh.
  rewrite root_bal_mk. assert (bx = sg s \/ bx = - sg s \/ bx = 0) as [->|[->| ->]] by lia.
  - rewrite rebal_single, bool_decide_false by lia.
    rewrite !balanced_mk, !height_mk, (addrs_rotate s o i x 0 v a 0 (sg s) (sg s)).
    repeat split; (done || nia).
  - pose proof (height_nonneg o). destruct (node_mk s i) as (yo & yi & y & b_y & ->).
    { intros ->. simpl in *. nia. }
    rewrite rebal_double, bool_decide_false by lia. rewrite balanced_mk in Hi.
    rewrite height_mk in *. destruct Hi as (Hyo & Hyi & Hyb & Hby).
    destruct (double_spec s o yo yi v x y b_y a) as (D1 & D2 & D3); (done || nia).
  - rewrite rebal_stop, bool_decide_true by done.
    rewrite !balanced_mk, !height_mk, (addrs_rotate s o i x _ v a _ 0 (sg s)).
    repeat split; (done || nia).
Qed.

(** The shape that the rebalancing relies on. *)
Lemma heavy_shape s t v :
  balanced t -> height t = height v + 2 ->
  exists o i x bx, t = mk s o i x bx /\ (bx = sg s \/ bx = 0 \/
    bx = - sg s /\ exists yo yi y b_y, i = mk s yo yi y b_y /\ -1 <= b_y <= 1).
Proof.
  intros Ht Hh. pose proof (height_nonneg v) as Hv0. pose proof (sg_cases s) as Hs.
  destruct (node_mk s t) as (o & i & x & bx & ->); [intros ->; simpl in Hh; lia|].
  exists o, i, x, bx. split; [done|].
  rewrite balanced_mk in Ht. destruct Ht as (Ho & Hi & Hb & Hbx). rewrite height_mk in Hh.
  assert (bx = sg s \/ bx = - sg s \/ bx = 0) as [->|[->| ->]] by lia; [by left| |by right; left].
  right; right. split; [done|]. pose proof (height_nonneg o).
  destruct (node_mk s i) as (yo & yi & y & b_y & ->); [intros ->; simpl in *; nia|].
  rewrite balanced_mk in Hi. exists yo, yi, y, b_y. split; [done|tauto].
Qed.

(** ** Going up *)

(** The tree and whether it got higher, after the subtree [t] did. *)
Fixpoint ins_up (t : tree) (c : ctx) : tree * bool :=
  match c with
  | Root _ => (t, true)
  | Frame s a b u c' =>
      if b =? 0 then ins_up (mk s t u a (sg s)) c'
      else if negb (b =? sg s) then (plug (mk s t u a 0) c', false)
      else (plug (rebal s t u a).1 c', false)
  end.

(** The tree and whether it got lower, after the subtree [t] did. *)
Fixpoint del_up (t : tree) (c : ctx) : tree * bool :=
  match c with
  | Root _ => (t, true)
  | Frame s a b u c' =>
      if b =? sg s then del_up (mk s t u a 0) c'
      else if b =? 0 then (plug (mk s t u a (- sg s)) c', false)
      else
        let '(t', stop) := rebal (opp s) u t a in
        if stop then (plug t' c', false) else del_up t' c'
  end.

Lemma addrs_plug_proper t t' c : addrs t = addrs t' -> addrs (plug t c) = addrs (plug t' c).
Proof. intros H. by rewrite !addrs_plug, H. Qed.

Lemma ins_up_spec t c n :
  balanced t -> height t = n + 1 -> cbal n c -> (n = 0 \/ root_bal t <> 0) -> 0 <= n ->
  let '(T, grew) := ins_up t c in
  balanced T /\ addrs T = addrs (plug t c) /\ height T = cheight n c + (if grew then 1 else 0).
Proof.
  revert t n. induction c as [b|s a b u c IH]; intros t n Ht Hh Hc Hr Hn; simpl; [done|].
  destruct Hc as (Hu & Hb & Hb1 & Hc). pose proof (sg_cases s) as Hs. pose proof (height_nonneg u) as Hu0.
  destruct (Z.eqb_spec b 0) as [->|N1].
  - specialize (IH (mk s t u a (sg s)) (1 + Z.max n (height u))).
    destruct (ins_up _ c) as [T grew]. destruct IH as (I1 & I2 & I3).
    + apply balanced_mk. repeat split; (done || nia).
    + rewrite height_mk. nia.
    + done.
    + rewrite root_bal_mk. lia.
    + lia.
    + split_and!; [done| |done]. rewrite I2. apply addrs_plug_proper. by apply addrs_mk.
  - destruct (Z.eqb_spec b (sg s)) as [->|N2]; simpl.
    + pose proof (rebal_spec s t u a Ht Hu) as Hreb. destruct (rebal s t u a) as [T stop].
      destruct Hreb as (R1 & R2 & R3 & R4); [nia|]. simpl.
      rewrite bool_decide_false in R3 by nia. subst stop.
      split_and!; [apply balanced_plug; split; [done|]| |].
      * by replace (height T) with (1 + Z.max n (height u)) by nia.
      * by apply addrs_plug_proper.
      * rewrite height_plug. replace (height T) with (1 + Z.max n (height u)) by nia. lia.
    + assert (height (mk s t u a 0) = 1 + Z.max n (height u)) as E by (rewrite height_mk; nia).
      split_and!; [apply balanced_plug; split; [apply balanced_mk; repeat split; (done || nia)|]| |].
      * by rewrite E.
      * apply addrs_plug_proper. by apply addrs_mk.
      * rewrite height_plug, E. lia.
Qed.

Lemma del_up_spec t c :
  balanced t -> cbal (height t + 1) c ->
  let '(T, shrunk) := del_up t c in
  balanced T /\ addrs T = addrs (plug t c) /\
  height T = cheight (height t + 1) c - (if shrunk then 1 else 0).
Proof.
  revert t. induction c as [b|s a b u c IH]; intros t Ht Hc; simpl; [split_and!; [done|done|lia]|].
  destruct Hc as (Hu & Hb & Hb1 & Hc). pose proof (sg_cases s) as Hs. pose proof (height_nonneg u) as Hu0.
  assert (forall t', height t' + 1 = 1 + Z.max (height t + 1) (height u) -> balanced t' ->
    addrs t' = addrs (mk s t u a b) ->
    let '(T, shrunk) := del_up t' c in
    balanced T /\ addrs T = addrs (plug (mk s t u a b) c) /\
    height T = cheight (1 + Z.max (height t + 1) (height u)) c - (if shrunk then 1 else 0)) as Hup.
  { intros t' E Hb' Ha. specialize (IH t'). rewrite E in IH. destruct (del_up t' c) as [T shrunk].
    destruct IH as (I1 & I2 & I3); [done|done|]. split_and!; [done| |done].
    rewrite I2. by apply addrs_plug_proper. }
  assert (forall t', height t' = 1 + Z.max (height t + 1) (height u) -> balanced t' ->
    addrs t' = addrs (mk s t u a b) ->
    balanced (plug t' c) /\ addrs (plug t' c) = addrs (plug (mk s t u a b) c) /\
    height (plug t' c) = cheight (1 + Z.max (height t + 1) (height u)) c - 0) as Hstop.
  { intros t' E Hb' Ha. split_and!.
    - apply balanced_plug. split; [done|]. by rewrite E.
    - by apply addrs_plug_proper.
    - rewrite height_plug, E. lia. }
  destruct (Z.eqb_spec b (sg s)) as [->|N1].
  { apply Hup; [rewrite height_mk; nia|apply balanced_mk; repeat split; (done || nia)|by apply addrs_mk]. }
  destruct (Z.eqb_spec b 0) as [->|N2].
  { apply Hstop; [rewrite height_mk; nia|apply balanced_mk; repeat split; (done || nia)|by apply addrs_mk]. }
  pose proof (rebal_spec (opp s) u t a Hu Ht) as Hreb. destruct (rebal (opp s) u t a) as [T stop].
  destruct Hreb as (R1 & R2 & R3 & R4); [nia|].
  rewrite mk_opp in R2. rewrite (addrs_mk s t u a _ t u eq_refl eq_refl b) in R2.
  destruct stop; [apply Hstop|apply Hup]; try done; nia.
Qed.

(** ** The pointer operations *)

Lemma s8_small b : -128 <= b < 128 -> swrap 8 b = b.
Proof. intros H. unfold swrap. rewrite Z.mod_small; lia. Qed.

Section Links.
Context {F : nodes} {l : list cell} {m : nodes} (Ho : owns F l m).

Lemma read_balance s x p u v b : (x, links s p u v b) ∈ l -> RtlBalance m x = Some b.
Proof.
  intros H. unfold RtlBalance. rewrite (owns_lookup _ _ _ _ _ Ho H). by destruct s.
Qed.

Lemma read_links_parent s x p u v b : (x, links s p u v b) ∈ l -> RtlParent m x = Some p.
Proof. intros H. rewrite (read_parent Ho _ _ H). by destruct s. Qed.

Lemma write_balance s x p u v b l' b' :
  l ≡ₚ (x, links s p u v b) :: l' -> -128 <= b' < 128 ->
  exists m', RtlSetBalance m x b' = Some m' /\ owns F ((x, links s p u v b') :: l') m'.
Proof.
  intros Hp Hb. rewrite Hp in Ho. unfold RtlSetBalance.
  rewrite (owns_lookup _ _ _ x (links s p u v b) Ho) by left. rewrite s8_small by done.
  eexists. split; [done|].
  destruct s; (eapply owns_write; exact Ho).
Qed.

Lemma write_links_parent s x p u v b l' q :
  l ≡ₚ (x, links s p u v b) :: l' ->
  exists m', set_parent m x q = Some m' /\ owns F ((x, links s q u v b) :: l') m'.
Proof.
  intros Hp. destruct (write_parent Ho x _ l' q Hp) as (m' & E & Ho').
  exists m'. split; [done|]. by destruct s.
Qed.
End Links.

Section Pointers.
Context (F : nodes) (h : Z).

(** The subtree [t] at its place in [c], and other cells. *)
Definition at_ctx (t : tree) (c : ctx) (G : list cell) (m : nodes) : Prop :=
  owns F (cells (top h c) t ++ ccells h (ptr t) c ++ G) m.

Lemma side_link s (x : Z) : (if bool_decide (s = L) then (L, x) else (R, x)) = (s, x).
Proof. by destruct s. Qed.

Lemma opp_link s (x : Z) : (if bool_decide (s = L) then (R, x) else (L, x)) = (opp s, x).
Proof. by destruct s. Qed.

Lemma promote_run s o i x bx v a b c G m :
  at_ctx (mk s (mk s o i x bx) v a b) c G m ->
  exists m', RtlpPromoteAvlTreeNode m x = Some m' /\ at_ctx (mk s o (mk s i v a b) x bx) c G m'.
Proof.
  unfold at_ctx. rewrite !cells_mk, !ptr_mk. intros Ho.
  set (l0 := _ ++ _) in Ho.
  assert (l0 ≡ₚ (x, links s a (ptr o) (ptr i) bx) :: ccells h x (Frame s a b v c)
             ++ cells x o ++ cells x i ++ G) as P0 by (unfold l0; simpl; solve_Permutation).
  unfold RtlpPromoteAvlTreeNode, RtlSetParent.
  rewrite (read_links_parent Ho s x a (ptr o) (ptr i) bx) by (rewrite P0; by left).
  cbn [mbind option_bind].
  rewrite (read_links_parent Ho s a (top h c) x (ptr v) b) by (rewrite P0; right; left).
  cbn [mbind option_bind].
  pose proof (is_child_run h F l0 m _ x _ _ L Ho P0) as Hl. cbn [is_child hole] in Hl.
  rewrite Hl by by destruct s. cbn [mbind option_bind]. rewrite side_link, opp_link. clear Hl.
  rewrite (read_child Ho (opp s) x a (ptr i) (ptr o) bx)
    by (rewrite links_opp, P0; by left).
  cbn [mbind option_bind].
  destruct (write_child Ho s a (top h c) x (ptr v) b
    ((x, links s a (ptr o) (ptr i) bx) :: cells a v ++ ccells h a c ++ cells x o ++ cells x i ++ G) (ptr i))
    as (m1 & -> & H1); [rewrite P0; simpl; solve_Permutation|]. cbn [mbind option_bind].
  rewrite (read_child H1 s a (top h c) (ptr i) (ptr v) b) by left. cbn [mbind option_bind].
  destruct (reparent F _ m1 x a i
    ((a, links s (top h c) (ptr i) (ptr v) b) :: (x, links s a (ptr o) (ptr i) bx)
      :: cells a v ++ ccells h a c ++ cells x o ++ G) H1)
    as (m2 & -> & H2); [solve_Permutation|]. cbn [mbind option_bind].
  destruct (write_child H2 (opp s) x a (ptr i) (ptr o) bx
    ((a, links s (top h c) (ptr i) (ptr v) b)
      :: cells a i ++ cells a v ++ ccells h a c ++ cells x o ++ G) a)
    as (m3 & -> & H3); [rewrite links_opp; solve_Permutation|]. cbn [mbind option_bind].
  rewrite links_opp in H3.
  destruct (write_links_parent H3 s a (top h c) (ptr i) (ptr v) b
    ((x, links s a (ptr o) a bx) :: cells a i ++ cells a v ++ ccells h a c ++ cells x o ++ G) x)
    as (m4 & -> & H4); [solve_Permutation|]. cbn [mbind option_bind].
  destruct (hole_child h F _ m4 c a (links s x (ptr i) (ptr v) b)
    ((x, links s a (ptr o) a bx) :: cells a i ++ cells a v ++ cells x o ++ G) L H4)
    as (w & Ew & Eq); [solve_Permutation|].
  change (child m4 (L, top h c)) with (RtlLeftChild m4 (top h c)) in Ew. rewrite Ew.
  cbn [mbind option_bind]. rewrite Eq, side_link.
  destruct (set_hole_run h F _ m4 c a x
    ((a, links s x (ptr i) (ptr v) b) :: (x, links s a (ptr o) a bx)
      :: cells a i ++ cells a v ++ cells x o ++ G) H4)
    as (m5 & -> & H5); [solve_Permutation|]. cbn [mbind option_bind].
  destruct (write_links_parent H5 s x a (ptr o) a bx
    ((a, links s x (ptr i) (ptr v) b) :: cells a i ++ cells a v ++ cells x o ++ ccells h x c ++ G) (top h c))
    as (m6 & -> & H6); [solve_Permutation|].
  exists m6. split; [done|]. eapply owns_perm; [|done|exact H6].
  rewrite !cells_mk, !ptr_mk. solve_Permutation.
Qed.

Lemma mk_inj_cells s u v a b p : (a, links s p (ptr u) (ptr v) b) ∈ cells p (mk s u v a b).
Proof. rewrite cells_mk. left. Qed.

Lemma set_balance_run s u v a b c G m b' :
  at_ctx (mk s u v a b) c G m -> -128 <= b' < 128 ->
  exists m', RtlSetBalance m a b' = Some m' /\ at_ctx (mk s u v a b') c G m'.
Proof.
  unfold at_ctx. rewrite cells_mk, ptr_mk. intros Ho Hb.
  destruct (write_balance Ho s a (top h c) (ptr u) (ptr v) b (cells a u ++ cells a v ++ ccells h a c ++ G) b')
    as (m' & E & Ho'); [solve_Permutation|done|].
  exists m'. split; [done|]. rewrite cells_mk, ptr_mk. eapply owns_perm; [|done|exact Ho'].
  solve_Permutation.
Qed.

(** Changes at a child of the root of the subtree. *)
Lemma at_child s u v a b c G m : at_ctx (mk s u v a b) c G m <-> at_ctx u (Frame s a b v c) G m.
Proof.
  unfold at_ctx. rewrite cells_mk, ptr_mk. simpl. apply owns_perm; [solve_Permutation|done].
Qed.

Lemma at_plug t c G m : at_ctx t c G m <-> at_ctx (plug t c) (Root (root_balance c)) G m.
Proof. revert t. induction c as [b|s a b u c IH]; intros t; [done|]. simpl. by rewrite <- IH, at_child. Qed.

Lemma root_bal_run t c G m : at_ctx t c G m -> t <> Leaf -> RtlBalance m (ptr t) = Some (root_bal t).
Proof.
  intros Ho Ht. destruct (node_mk L t Ht) as (u & v & a & b & ->).
  rewrite root_bal_mk, ptr_mk. eapply (read_balance Ho L). apply elem_of_app. left. apply mk_inj_cells.
Qed.

Lemma parent_run t c G m : at_ctx t c G m -> t <> Leaf -> RtlParent m (ptr t) = Some (top h c).
Proof.
  intros Ho Ht. destruct (node_mk L t Ht) as (u & v & a & b & ->).
  rewrite ptr_mk. eapply (read_links_parent Ho L). apply elem_of_app. left. apply mk_inj_cells.
Qed.

Lemma child_run s u v a b c G m : at_ctx (mk s u v a b) c G m -> child m (s, a) = Some (ptr u).
Proof.
  intros Ho. eapply (read_child Ho s). apply elem_of_app. left. apply mk_inj_cells.
Qed.

Lemma set_child_balance s u v a b c G m s' u1 u2 x bx b' :
  u = mk s' u1 u2 x bx -> at_ctx (mk s u v a b) c G m -> -128 <= b' < 128 ->
  exists m', RtlSetBalance m x b' = Some m' /\ at_ctx (mk s (mk s' u1 u2 x b') v a b) c G m'.
Proof.
  intros -> Ho Hb. rewrite at_child in Ho.
  destruct (set_balance_run s' u1 u2 x bx _ G m b' Ho Hb) as (m' & E & Ho').
  exists m'. split; [done|]. by rewrite at_child.
Qed.

Lemma heavy_child m s a :
  (if sg s =? RtlRightHeavyAvlTree then RtlRightChild m a else RtlLeftChild m a) = child m (s, a).
Proof. by destruct s. Qed.

Lemma light_child m s a :
  (if sg s =? RtlRightHeavyAvlTree then RtlLeftChild m a else RtlRightChild m a) = child m (opp s, a).
Proof. by destruct s. Qed.

(** Balances of the root, of its child on the side and of its other child. *)
Lemma set_outer s u1 u2 x bx v a b c G m b' :
  at_ctx (mk s (mk s u1 u2 x bx) v a b) c G m -> -128 <= b' < 128 ->
  exists m', RtlSetBalance m x b' = Some m' /\ at_ctx (mk s (mk s u1 u2 x b') v a b) c G m'.
Proof. by eapply set_child_balance. Qed.

Lemma set_inner s u v1 v2 x bx a b c G m b' :
  at_ctx (mk s u (mk s v1 v2 x bx) a b) c G m -> -128 <= b' < 128 ->
  exists m', RtlSetBalance m x b' = Some m' /\ at_ctx (mk s u (mk s v1 v2 x b') a b) c G m'.
Proof.
  intros Ho Hb. rewrite <- (mk_opp s _ u) in Ho.
  destruct (set_child_balance _ _ _ _ _ _ _ _ _ _ _ _ _ _ eq_refl Ho Hb) as (m' & E & H').
  rewrite mk_opp in H'. by exists m'.
Qed.

(** The double rotation. *)
Lemma promote_twice s o yo yi y b_y x bx v a b c G m :
  at_ctx (mk s (mk s o (mk s yo yi y b_y) x bx) v a b) c G m ->
  exists m1 m2, RtlpPromoteAvlTreeNode m y = Some m1 /\ RtlpPromoteAvlTreeNode m1 y = Some m2 /\
    at_ctx (mk s (mk s o yo x bx) (mk s yi v a b) y b_y) c G m2.
Proof.
  intros Ho. rewrite at_child, <- (mk_opp s _ o), <- (mk_opp s yi yo) in Ho.
  destruct (promote_run (opp s) yi yo y b_y o x bx _ G m Ho) as (m1 & E1 & H1).
  rewrite !mk_opp, <- at_child in H1.
  destruct (promote_run s (mk s o yo x bx) yi y b_y v a b c G m1 H1) as (m2 & E2 & H2).
  by exists m1, m2.
Qed.

Lemma rebalance_double s o yo yi y b_y x v a c G m :
  at_ctx (mk s (mk s o (mk s yo yi y b_y) x (- sg s)) v a (sg s)) c G m ->
  exists m', RtlpRebalanceAvlTreeNode m a = Some (false, m') /\
    at_ctx (double s o yo yi v x y b_y a) c G m'.
Proof.
  intros Ho. pose proof (sg_cases s) as Hs. set (t := mk s o (mk s yo yi y b_y) x (- sg s)) in *.
  unfold RtlpRebalanceAvlTreeNode.
  pose proof (root_bal_run _ c G m Ho) as Eb. rewrite ptr_mk, root_bal_mk in Eb.
  rewrite Eb by by destruct s. cbn [mbind option_bind]. clear Eb.
  rewrite heavy_child, (child_run s t v a (sg s) c G m Ho). cbn [mbind option_bind].
  assert (at_ctx t (Frame s a (sg s) v c) G m) as Ht by by rewrite <- at_child.
  rewrite (root_bal_run _ _ _ _ Ht) by by destruct s. cbn [mbind option_bind].
  replace (root_bal t) with (- sg s) by (unfold t; by rewrite root_bal_mk).
  replace (ptr t) with x by (unfold t; by rewrite ptr_mk).
  rewrite (proj2 (Z.eqb_neq (- sg s) (sg s))), Z.eqb_refl by lia.
  rewrite light_child.
  assert (at_ctx (mk (opp s) (mk s yo yi y b_y) o x (- sg s)) (Frame s a (sg s) v c) G m) as Ht'
    by by rewrite mk_opp.
  rewrite (child_run _ _ _ _ _ _ _ _ Ht'), ptr_mk. cbn [mbind option_bind].
  destruct (promote_twice s o yo yi y b_y x (- sg s) v a (sg s) c G m Ho) as (m1 & m2 & E1 & E2 & H2).
  rewrite E1. cbn [mbind option_bind]. rewrite E2. cbn [mbind option_bind].
  pose proof (root_bal_run _ c G m2 H2) as Eb. rewrite ptr_mk, root_bal_mk in Eb.
  rewrite Eb by by destruct s. cbn [mbind option_bind]. clear Eb.
  assert (forall bx' ba, -128 <= bx' < 128 -> -128 <= ba < 128 -> exists m',
    (m3 ← (m3 ← RtlSetBalance m2 x bx'; RtlSetBalance m3 a ba);
     m3 ← RtlSetBalance m3 y RtlBalancedAvlTree; Some (false, m3)) = Some (false, m') /\
    at_ctx (mk s (mk s o yo x bx') (mk s yi v a ba) y 0) c G m') as Hset.
  { intros bx' ba B1 B2.
    destruct (set_outer _ _ _ _ _ _ _ _ _ _ _ bx' H2 B1) as (m3 & -> & H3). cbn [mbind option_bind].
    destruct (set_inner _ _ _ _ _ _ _ _ _ _ _ ba H3 B2) as (m4 & -> & H4). cbn [mbind option_bind].
    destruct (set_balance_run _ _ _ _ _ _ _ _ 0 H4) as (m5 & E5 & H5); [lia|].
    unfold RtlBalancedAvlTree. rewrite E5. by exists m5. }
  unfold double.
  destruct (b_y =? sg s); [|destruct (b_y =? - sg s)]; apply Hset; unfold RtlBalancedAvlTree; lia.
Qed.

Lemma rebalance_run s t v a c G m :
  at_ctx (mk s t v a (sg s)) c G m -> balanced t -> height t = height v + 2 ->
  exists m', RtlpRebalanceAvlTreeNode m a = Some ((rebal s t v a).2, m') /\
    at_ctx (rebal s t v a).1 c G m'.
Proof.
  intros Ho Hb Hh. pose proof (sg_cases s) as Hs.
  destruct (heavy_shape s t v Hb Hh) as (o & i & x & bx & -> & Hx).
  destruct (decide (bx = - sg s)) as [->|Hne].
  { destruct Hx as [?|[?|(_ & yo & yi & y & b_y & -> & _)]]; [lia|lia|]. rewrite rebal_double.
    by apply rebalance_double. }
  unfold RtlpRebalanceAvlTreeNode.
  pose proof (root_bal_run _ c G m Ho) as Eb. rewrite ptr_mk, root_bal_mk in Eb.
  rewrite Eb by by destruct s. cbn [mbind option_bind]. clear Eb.
  rewrite heavy_child, (child_run s _ v a (sg s) c G m Ho). cbn [mbind option_bind].
  assert (at_ctx (mk s o i x bx) (Frame s a (sg s) v c) G m) as Ht by by rewrite <- at_child.
  rewrite (root_bal_run _ _ _ _ Ht) by by destruct s. cbn [mbind option_bind].
  rewrite root_bal_mk, ptr_mk.
  destruct (promote_run s o i x bx v a (sg s) c G m Ho) as (m1 & E1 & H1).
  destruct Hx as [->|[->|(? & _)]]; [| |done].
  - rewrite Z.eqb_refl, E1, rebal_single. cbn [mbind option_bind].
    destruct (set_balance_run _ _ _ _ _ _ _ _ 0 H1) as (m2 & E2 & H2); [lia|].
    unfold RtlBalancedAvlTree. rewrite E2. cbn [mbind option_bind].
    destruct (set_inner _ _ _ _ _ _ _ _ _ _ _ 0 H2) as (m3 & E3 & H3); [lia|].
    rewrite E3. by exists m3.
  - rewrite !(proj2 (Z.eqb_neq _ _)) by lia. rewrite E1, rebal_stop. cbn [mbind option_bind].
    destruct (set_balance_run _ _ _ _ _ _ _ _ (- sg s) H1) as (m2 & E2 & H2); [lia|].
    rewrite E2. by exists m2.
Qed.

(** *** The loops *)

Fixpoint cdepth (c : ctx) : nat := match c with Root _ => 0 | Frame _ _ _ _ c' => S (cdepth c') end.

Lemma cdepth_size t c G m : at_ctx t c G m -> (cdepth c < size m)%nat.
Proof.
  intros Ho. apply owns_size in Ho. rewrite !length_app in Ho.
  assert (forall x, cdepth c < length (ccells h x c))%nat as Hc; [|specialize (Hc (ptr t)); lia].
  clear Ho. induction c as [b|s a b u c IH]; intros x; simpl; [lia|]. specialize (IH a).
  rewrite length_app. lia.
Qed.

Lemma is_left_run t c G m : at_ctx t c G m -> t <> Leaf ->
  RtlIsLeftChild m (ptr t) = Some (bool_decide (hole c = L)).
Proof.
  intros Ho Ht. destruct (node_mk L t Ht) as (u & v & a & b & ->). unfold at_ctx in Ho.
  rewrite cells_mk, ptr_mk in *.
  apply (is_child_run h F _ m c a (links L (top h c) (ptr u) (ptr v) b) (cells a u ++ cells a v ++ G) L Ho);
    [solve_Permutation|done].
Qed.

Lemma is_right_run t c G m : at_ctx t c G m -> t <> Leaf ->
  RtlIsRightChild m (ptr t) = Some (bool_decide (hole c = R)).
Proof.
  intros Ho Ht. destruct (node_mk L t Ht) as (u & v & a & b & ->). unfold at_ctx in Ho.
  rewrite cells_mk, ptr_mk in *.
  apply (is_child_run h F _ m c a (links L (top h c) (ptr u) (ptr v) b) (cells a u ++ cells a v ++ G) R Ho);
    [solve_Permutation|done].
Qed.

(** The balance of the record at [h]. *)
Lemma head_balance_run t c G m : at_ctx t c G m -> RtlBalance m h = Some (root_balance c).
Proof.
  rewrite at_plug. intros Ho. eapply (read_balance Ho R). apply elem_of_app. right.
  apply elem_of_app. left. simpl. left.
Qed.

Fixpoint set_root (b : Z) (c : ctx) : ctx :=
  match c with Root _ => Root b | Frame s a b' u c' => Frame s a b' u (set_root b c') end.

Lemma plug_set_root b t c : plug t (set_root b c) = plug t c.
Proof. revert t. induction c as [b'|s a b' u c IH]; intros t; [done|]. simpl. apply IH. Qed.

Lemma root_balance_set b c : root_balance (set_root b c) = b.
Proof. by induction c. Qed.

Lemma set_head_balance t c G m b' : at_ctx t c G m -> -128 <= b' < 128 ->
  exists m', RtlSetBalance m h b' = Some m' /\ at_ctx t (set_root b' c) G m'.
Proof.
  rewrite at_plug. intros Ho Hb. unfold at_ctx in Ho. simpl in Ho.
  destruct (write_balance Ho R h h (ptr (plug t c)) 0 (root_balance c) (cells h (plug t c) ++ G) b')
    as (m' & E & Ho'); [simpl; solve_Permutation|done|].
  exists m'. split; [done|]. rewrite at_plug, plug_set_root, root_balance_set. unfold at_ctx. simpl in *.
  eapply owns_perm; [|done|exact Ho']. solve_Permutation.
Qed.

Lemma side_balance s : (if bool_decide (s = L) then RtlLeftHeavyAvlTree else RtlRightHeavyAvlTree) = sg s.
Proof. by destruct s. Qed.

Lemma side_balance_r s : (if bool_decide (s = R) then RtlRightHeavyAvlTree else RtlLeftHeavyAvlTree) = sg s.
Proof. by destruct s. Qed.

Lemma mk_not_leaf s u v a b : mk s u v a b <> Leaf.
Proof. by destruct s. Qed.
Hint Resolve mk_not_leaf : core.

Lemma mk_balance s u v a b c G m : at_ctx (mk s u v a b) c G m -> RtlBalance m a = Some b.
Proof. intros Ho. pose proof (root_bal_run _ _ _ _ Ho) as E. rewrite ptr_mk, root_bal_mk in E. auto. Qed.

Lemma mk_parent s u v a b c G m : at_ctx (mk s u v a b) c G m -> RtlParent m a = Some (top h c).
Proof. intros Ho. pose proof (parent_run _ _ _ _ Ho) as E. rewrite ptr_mk in E. auto. Qed.

Lemma InsertLoop_run fuel t c G m n Depth :
  at_ctx t c G m -> t <> Leaf -> root_balance c = -1 -> (cdepth c < fuel)%nat ->
  balanced t -> height t = n + 1 -> cbal n c -> (n = 0 \/ root_bal t <> 0) -> 0 <= n ->
  exists m' b0, InsertLoop fuel h m Depth (ptr t) (top h c)
      = Some (m', if (ins_up t c).2 then u32 (Depth + 1) else Depth) /\
    at_ctx (ins_up t c).1 (Root b0) G m'.
Proof.
  revert fuel t m n. induction c as [b|s a b u c IH]; intros fuel t m n Ho Ht Hr Hf Hb Hh Hc Hn Hn0;
    (destruct fuel as [|fuel]; [lia|]); cbn [InsertLoop];
    rewrite (is_left_run _ _ _ _ Ho Ht); cbn [mbind option_bind]; rewrite side_balance.
  - simpl in Hr. subst b. cbn [top]. rewrite (head_balance_run _ _ _ _ Ho). cbn [mbind option_bind].
    simpl (_ =? _). cbn [negb].
    destruct (set_head_balance _ _ _ _ 0 Ho) as (m' & E & Ho'); [lia|]. unfold RtlBalancedAvlTree.
    rewrite E. cbn [mbind option_bind]. rewrite (head_balance_run _ _ _ _ Ho'). by exists m', 0.
  - cbn [top hole]. rewrite <- at_child in Ho. rewrite (mk_balance _ _ _ _ _ _ _ _ Ho).
    cbn [mbind option_bind]. destruct Hc as (Hu & Eu & Hb1 & Hc). pose proof (sg_cases s) as Hs.
    simpl in Hf, Hr. cbn [ins_up]. unfold RtlBalancedAvlTree. destruct (Z.eqb_spec b 0) as [->|N1].
    + destruct (set_balance_run _ _ _ _ _ _ _ _ (sg s) Ho) as (m' & E & Ho'); [lia|].
      rewrite E. cbn [mbind option_bind]. rewrite (mk_parent _ _ _ _ _ _ _ _ Ho'). cbn [mbind option_bind].
      pose proof (IH fuel _ m' (1 + Z.max n (height u)) Ho') as H. rewrite ptr_mk in H. apply H.
      * auto.
      * done.
      * lia.
      * apply balanced_mk. repeat split; (done || nia).
      * rewrite height_mk. nia.
      * done.
      * rewrite root_bal_mk. lia.
      * lia.
    + destruct (Z.eqb_spec b (sg s)) as [->|N2]; cbn [negb].
      * destruct (rebalance_run _ _ _ _ _ _ _ Ho Hb) as (m' & E & Ho'); [nia|].
        rewrite E. cbn [mbind option_bind]. exists m', (root_balance c). simpl. split; [done|].
        by rewrite <- at_plug.
      * destruct (set_balance_run _ _ _ _ _ _ _ _ 0 Ho) as (m' & E & Ho'); [lia|].
        rewrite E. cbn [mbind option_bind]. rewrite (head_balance_run _ _ _ _ Ho'), Hr.
        exists m', (root_balance c). simpl. split; [done|]. by rewrite <- at_plug.
Qed.

(** After a rotation that made the tree lower, the old root is a child of the new one. *)
Lemma rebal_parent s t v a c G m :
  balanced t -> height t = height v + 2 -> (rebal s t v a).2 = false ->
  at_ctx (rebal s t v a).1 c G m ->
  RtlParent m a = Some (ptr (rebal s t v a).1) /\ (rebal s t v a).1 <> Leaf.
Proof.
  intros Hb Hh Hstop Ho. pose proof (sg_cases s) as Hs.
  assert (forall u w1 w2 b y by_, at_ctx (mk s u (mk s w1 w2 a b) y by_) c G m -> RtlParent m a = Some y) as Hin.
  { intros u w1 w2 b y by_ H. rewrite <- (mk_opp s _ u), at_child in H. by apply mk_parent in H. }
  destruct (heavy_shape s t v Hb Hh) as (o & i & x & bx & -> & [->|[->|(-> & yo & yi & y & b_y & -> & _)]]).
  - rewrite rebal_single in *. simpl in *. rewrite ptr_mk. split; [by eapply Hin|auto].
  - by rewrite rebal_stop in Hstop.
  - rewrite rebal_double in *. simpl in *. unfold double in *.
    destruct (if b_y =? sg s then _ else _) as [bx' ba]. rewrite ptr_mk. split; [by eapply Hin|auto].
Qed.

Lemma AvlDeleteLoop_run fuel t c G m Depth :
  at_ctx t c G m -> root_balance c = 0 -> (cdepth c < fuel)%nat ->
  balanced t -> cbal (height t + 1) c ->
  exists m' b0, DeleteLoop fuel h m Depth (top h c) (sg (hole c))
      = Some (m', if (del_up t c).2 then u32 (Depth - 1) else Depth) /\
    at_ctx (del_up t c).1 (Root b0) G m'.
Proof.
  revert fuel t m. induction c as [b|s a b u c IH]; intros fuel t m Ho Hr Hf Hb Hc;
    (destruct fuel as [|fuel]; [lia|]); cbn [DeleteLoop top hole].
  - simpl in Hr. subst b. rewrite (head_balance_run _ _ _ _ Ho). cbn [mbind option_bind].
    unfold RtlBalancedAvlTree. change (0 =? sg R) with false. change (0 =? 0) with true. cbv iota.
    destruct (set_head_balance _ _ _ _ (- sg R) Ho) as (m' & E & Ho'); [simpl; lia|].
    rewrite E. cbn [mbind option_bind]. rewrite (head_balance_run _ _ _ _ Ho'). by exists m', (-1).
  - rewrite <- at_child in Ho. rewrite (mk_balance _ _ _ _ _ _ _ _ Ho).
    destruct Hc as (Hu & Eu & Hb1 & Hc). pose proof (sg_cases s) as Hs. simpl in Hf, Hr.
    cbn [del_up mbind option_bind].
    assert (forall t' m', at_ctx t' c G m' -> t' <> Leaf -> balanced t' ->
      height t' + 1 = 1 + Z.max (height t + 1) (height u) ->
      exists m'' b0, (right ← RtlIsRightChild m' (ptr t');
        p ← RtlParent m' (ptr t');
        DeleteLoop fuel h m' Depth p (if (right : bool) then RtlRightHeavyAvlTree else RtlLeftHeavyAvlTree))
          = Some (m'', if (del_up t' c).2 then u32 (Depth - 1) else Depth) /\
        at_ctx (del_up t' c).1 (Root b0) G m'') as Hnext.
    { intros t' m' Ho' Ht' Hb' Hh'. rewrite (is_right_run _ _ _ _ Ho' Ht'). cbn [mbind option_bind].
      rewrite side_balance_r, (parent_run _ _ _ _ Ho' Ht'). cbn [mbind option_bind].
      apply IH; [done|done|lia|done|by rewrite Hh']. }
    unfold RtlBalancedAvlTree in *. destruct (Z.eqb_spec b (sg s)) as [->|N1].
    + destruct (set_balance_run _ _ _ _ _ _ _ _ 0 Ho) as (m' & E & Ho'); [lia|].
      rewrite E. cbn [mbind option_bind]. pose proof (Hnext _ _ Ho') as H. rewrite ptr_mk in H.
      apply H; [auto|apply balanced_mk; repeat split; (done || nia)|rewrite height_mk; nia].
    + destruct (Z.eqb_spec b 0) as [->|N2].
      * destruct (set_balance_run _ _ _ _ _ _ _ _ (- sg s) Ho) as (m' & E & Ho'); [lia|].
        rewrite E. cbn [mbind option_bind]. rewrite (head_balance_run _ _ _ _ Ho'), Hr.
        exists m', (root_balance c). simpl. split; [done|]. by rewrite <- at_plug.
      * rewrite <- (mk_opp s u t) in Ho. assert (b = sg (opp s)) as -> by (destruct s; simpl in *; lia).
        assert (height u = height t + 2) as Hh by nia.
        destruct (rebalance_run _ _ _ _ _ _ _ Ho Hu Hh) as (m' & E & Ho').
        rewrite E. cbn [mbind option_bind].
        pose proof (rebal_parent (opp s) u t a c G m' Hu Hh) as Hp.
        pose proof (rebal_spec (opp s) u t a Hu Hb Hh) as Hspec.
        destruct (rebal (opp s) u t a) as [T stop] eqn:Et. simpl in *. destruct stop.
        -- exists m', (root_balance c). simpl. split; [done|]. by rewrite <- at_plug.
        -- destruct (Hp eq_refl Ho') as (-> & HT). cbn [mbind option_bind].
           destruct Hspec as (R1 & _ & _ & R4). apply Hnext; [done|done|done|lia].
Qed.

(** *** Insertion and deletion *)

(** A record that is not yet in the tree, made a leaf at an empty place. *)
Lemma clear_links x n G m l' :
  owns F G m -> G ≡ₚ (x, n) :: l' ->
  exists m', (m ← set_right m x 0; m ← set_left m x 0; RtlSetBalance m x RtlBalancedAvlTree) = Some m' /\
    owns F ((x, mkLinks (Parent n) 0 0 0) :: l') m'.
Proof.
  intros Ho Hp. destruct n as [p u v b].
  destruct (write_child Ho R x p v u b l' 0 Hp) as (m1 & E1 & H1).
  change (set_child m (R, x) 0) with (set_right m x 0) in E1. rewrite E1. cbn [mbind option_bind].
  destruct (write_child H1 L x p u 0 b l' 0) as (m2 & E2 & H2); [done|].
  change (set_child m1 (L, x) 0) with (set_left m1 x 0) in E2. rewrite E2. cbn [mbind option_bind].
  destruct (write_balance H2 L x p 0 0 b l' 0) as (m3 & E3 & H3); [done|lia|]. by exists m3.
Qed.

Lemma hang_leaf x n c G m :
  owns F ((x, mkLinks n 0 0 0) :: ccells h 0 c ++ G) m ->
  exists m', (m ← set_child m (hole c, top h c) x; set_parent m x (top h c)) = Some m' /\
    at_ctx (Branch Leaf x 0 Leaf) c G m'.
Proof.
  intros Ho. destruct (set_hole_run h F _ m c 0 x ((x, mkLinks n 0 0 0) :: G) Ho) as (m1 & -> & H1);
    [solve_Permutation|]. cbn [mbind option_bind].
  destruct (write_links_parent H1 L x n 0 0 0 (ccells h x c ++ G) (top h c)) as (m2 & -> & H2);
    [simpl; solve_Permutation|].
  exists m2. done.
Qed.

Lemma insert_node_run c x n G m T :
  at_ctx Leaf c ((x, n) :: G) m -> cbal 0 c -> DepthOfTree T = cheight 0 c -> cheight 0 c < 2 ^ 32 - 1 ->
  0 <= cheight 0 c ->
  exists m' b0 t, RtlpInsertAvlTreeNode h m T x (top h c) (search_of c)
      = Some (m', mkTable (OrderedPointer T) (WhichOrderedElement T)
                    (u32 (NumberGenericTableElements T + 1)) (height t) (RestartKey T) (DeleteCount T)) /\
    at_ctx t (Root b0) G m' /\ balanced t /\
    addrs t = reverse (beyond L c) ++ x :: beyond R c.
Proof.
  intros Ho Hc Hd Hd1 Hd0. unfold RtlpInsertAvlTreeNode.
  destruct (clear_links x n _ m (ccells h 0 c ++ G) Ho) as (m1 & E1 & H1); [simpl; solve_Permutation|].
  destruct (hang_leaf x (Parent n) c G m1 H1) as (m2 & E2 & H2).
  destruct (set_right m x 0) as [m0|]; [|done]. cbn [mbind option_bind] in *.
  destruct (set_left m0 x 0) as [m0'|]; [|done]. cbn [mbind option_bind] in *.
  rewrite E1. cbn [mbind option_bind].
  destruct c as [b|s a b u c].
  - cbn [search_of hole top] in *. unfold RtlInsertAsRightChild.
    change (set_child m1 (R, h) x) with (set_right m1 h x) in E2. rewrite E2. cbn [mbind option_bind].
    exists m2, b, (Branch Leaf x 0 Leaf). split_and!; [done|done| |done].
    simpl. repeat split; lia.
  - assert (exists m' b0 t,
      (m ← RtlSetBalance m2 h RtlLeftHeavyAvlTree;
       '(m, Depth) ← InsertLoop (path_fuel m) h m (DepthOfTree T) x a;
       Some (m, mkTable (OrderedPointer T) (WhichOrderedElement T)
         (u32 (NumberGenericTableElements T + 1)) Depth (RestartKey T) (DeleteCount T)))
      = Some (m', mkTable (OrderedPointer T) (WhichOrderedElement T)
                    (u32 (NumberGenericTableElements T + 1)) (height t) (RestartKey T) (DeleteCount T)) /\
      at_ctx t (Root b0) G m' /\ balanced t /\
      addrs t = reverse (beyond L (Frame s a b u c)) ++ x :: beyond R (Frame s a b u c)) as Hup.
    { set (c0 := Frame s a b u c) in *.
      destruct (set_head_balance _ c0 G m2 (-1) H2) as (m3 & E3 & H3); [lia|].
      unfold RtlLeftHeavyAvlTree. rewrite E3. cbn [mbind option_bind].
      assert (cbal 0 (set_root (-1) c0) /\ cheight 0 (set_root (-1) c0) = cheight 0 c0) as [Hc' Hh'].
      { clear -Hc. revert Hc. generalize 0. induction c0; intros k; simpl; [done|]. naive_solver. }
      pose proof (cdepth_size _ _ _ _ H3) as Hsz.
      destruct (InsertLoop_run (path_fuel m3) (Branch Leaf x 0 Leaf) (set_root (-1) c0) G m3 0 (DepthOfTree T) H3)
        as (m' & b0 & E & Ho'); [done|apply root_balance_set|unfold path_fuel; lia|simpl; lia|done|done|by left|lia|].
      pose proof (ins_up_spec (Branch Leaf x 0 Leaf) (set_root (-1) c0) 0) as Hi.
      change (top h (set_root (-1) c0)) with a in E. change (ptr (Branch Leaf x 0 Leaf)) with x in E.
      rewrite E. cbn [mbind option_bind].
      destruct (ins_up (Branch Leaf x 0 Leaf) (set_root (-1) c0)) as [t grew] eqn:Et. cbn [fst snd] in *.
      destruct Hi as (I1 & I2 & I3); [simpl; lia|done|done|by left|lia|].
      exists m', b0, t. split_and!; [|done|done|].
      - do 2 f_equal. rewrite I3, Hh', Hd. destruct grew; [|by rewrite Z.add_0_r].
        by rewrite (u32_small (cheight 0 c0 + 1)) by lia.
      - rewrite I2, plug_set_root, addrs_plug. simpl. by destruct s. }
    cbn [search_of hole top] in *. destruct s; cbn [search_of];
      unfold RtlInsertAsLeftChild, RtlInsertAsRightChild.
    + change (set_child m1 (L, a) x) with (set_left m1 a x) in E2. rewrite E2. exact Hup.
    + change (set_child m1 (R, a) x) with (set_right m1 a x) in E2. rewrite E2. exact Hup.
Qed.

(** *** Deletion *)

Definition only (l r : tree) : tree := match l with Leaf => r | _ => l end.

Lemma only_facts l r a b : l = Leaf \/ r = Leaf -> balanced (Branch l a b r) ->
  balanced (only l r) /\ height (Branch l a b r) = height (only l r) + 1 /\
  addrs (only l r) = addrs l ++ addrs r.
Proof.
  intros H (B1 & B2 & B3 & B4). pose proof (height_nonneg l). pose proof (height_nonneg r).
  assert (only l Leaf = l) as El by by destruct l.
  destruct H as [-> | ->]; rewrite ?El; cbn [only height addrs app] in *; rewrite ?app_nil_r;
    (split; [done|split; [lia|done]]).
Qed.

Lemma unlink_run l d b r c G m :
  at_ctx (Branch l d b r) c G m -> l = Leaf \/ r = Leaf ->
  exists m', Unlink h m d = Some (m', top h c, sg (hole c)) /\
    at_ctx (only l r) (set_root 0 c) ((d, mkLinks (top h c) (ptr l) (ptr r) b) :: G) m'.
Proof.
  intros Ho Hl. unfold Unlink. pose proof (parent_run _ _ _ _ Ho ltac:(done)) as Ep.
  pose proof (is_left_run _ _ _ _ Ho ltac:(done)) as El. simpl ptr in Ep, El. rewrite Ep. cbn [mbind option_bind].
  pose proof (child_run L l r d b c G m Ho) as Ecl. pose proof (child_run R r l d b c G m Ho) as Ecr.
  unfold child in Ecl. simpl in Ecl. rewrite Ecl. cbn [mbind option_bind]. rewrite El.
  cbn [mbind option_bind]. rewrite side_balance, side_link.
  set (d1 := if negb (ptr l =? 0) then (L, d) else (R, d)).
  set (n := mkLinks (top h c) (ptr l) (ptr r) b).
  assert (forall m', m' !! d = Some n -> child m' d1 = Some (ptr (only l r))) as Ed.
  { intros m' E. unfold d1, child, RtlLeftChild, RtlRightChild. destruct l as [|ll la lb lr]; simpl.
    - by rewrite E.
    - assert (la <> 0) as Hla.
      { apply (not_null Ho). apply (in_fst _ _ (mkLinks d (ptr ll) (ptr lr) lb)). simpl.
        rewrite !elem_of_app, elem_of_cons. tauto. }
      rewrite (proj2 (Z.eqb_neq la 0)) by done. simpl. by rewrite E. }
  assert (cells d l ++ cells d r = cells d (only l r)) as Hsub
    by (destruct Hl as [-> | ->]; [done|by destruct l; rewrite app_nil_r]).
  unfold at_ctx in Ho. simpl in Ho. fold n in Ho.
  rewrite Ed by (apply (owns_lookup _ _ _ _ _ Ho); rewrite !elem_of_app, elem_of_cons; tauto).
  cbn [mbind option_bind].
  destruct (set_hole_run h F _ m c d (ptr (only l r)) ((d, n) :: cells d (only l r) ++ G) Ho)
    as (m1 & -> & H1); [rewrite <- Hsub; solve_Permutation|]. cbn [mbind option_bind].
  rewrite Ed by (apply (owns_lookup _ _ _ _ _ H1); rewrite elem_of_app, elem_of_cons; tauto).
  cbn [mbind option_bind]. unfold RtlSetParent.
  destruct (reparent F _ m1 d (top h c) (only l r) ((d, n) :: ccells h (ptr (only l r)) c ++ G) H1)
    as (m2 & -> & H2); [solve_Permutation|]. cbn [mbind option_bind].
  assert (at_ctx (only l r) c ((d, n) :: G) m2) as H2'
    by (eapply owns_perm; [|done|exact H2]; solve_Permutation).
  destruct (set_head_balance _ _ _ _ 0 H2') as (m3 & E3 & H3); [lia|]. unfold RtlBalancedAvlTree.
  rewrite E3. by exists m3.
Qed.

Lemma replace_run l a b r c d nd G m :
  at_ctx (Branch l a b r) c ((d, nd) :: G) m ->
  exists m', Replace m d a = Some m' /\
    at_ctx (Branch l d b r) c ((a, mkLinks (top h c) (ptr l) (ptr r) b) :: G) m'.
Proof.
  unfold at_ctx. simpl. set (n := mkLinks (top h c) (ptr l) (ptr r) b). intros Ho.
  unfold Replace, RtlpCopyAvlNodeData, RtlSetParent.
  rewrite (owns_lookup _ _ _ a n Ho) by (rewrite !elem_of_app, elem_of_cons; tauto). cbn [mbind option_bind].
  rewrite (owns_lookup _ _ _ d nd Ho) by (rewrite !elem_of_app, !elem_of_cons; tauto). cbn [mbind option_bind].
  assert (owns F ((d, n) :: (a, n) :: ccells h a c ++ cells a l ++ cells a r ++ G) (<[d := n]> m)) as H1.
  { eapply owns_write. eapply owns_perm; [|done|exact Ho]. solve_Permutation. }
  set (m1 := <[d := n]> m) in *. clearbody m1.
  pose proof (is_child_run h F _ m1 c a n ((d, n) :: cells a l ++ cells a r ++ G) L H1) as Hl.
  cbn [is_child] in Hl. rewrite Hl; [|solve_Permutation|done]. clear Hl. cbn [mbind option_bind].
  rewrite (read_parent H1 d n) by left. cbn [mbind option_bind]. rewrite side_link. cbn [Parent n].
  destruct (set_hole_run h F _ m1 c a d ((d, n) :: (a, n) :: cells a l ++ cells a r ++ G) H1)
    as (m2 & -> & H2); [solve_Permutation|]. cbn [mbind option_bind].
  assert ((d, n) ∈ ccells h d c ++ (d, n) :: (a, n) :: cells a l ++ cells a r ++ G) as Hin
    by (rewrite elem_of_app, elem_of_cons; tauto).
  pose proof (read_child H2 L d (top h c) (ptr l) (ptr r) b Hin) as E. unfold child in E. simpl in E.
  rewrite E. cbn [mbind option_bind]. clear E Hin.
  destruct (reparent F _ m2 a d l ((d, n) :: (a, n) :: ccells h d c ++ cells a r ++ G) H2)
    as (m3 & -> & H3); [solve_Permutation|]. cbn [mbind option_bind].
  assert ((d, n) ∈ cells d l ++ (d, n) :: (a, n) :: ccells h d c ++ cells a r ++ G) as Hin
    by (rewrite elem_of_app, elem_of_cons; tauto).
  pose proof (read_child H3 R d (top h c) (ptr r) (ptr l) b Hin) as E. unfold child in E. simpl in E.
  rewrite E. cbn [mbind option_bind]. clear E Hin.
  destruct (reparent F _ m3 a d r ((d, n) :: (a, n) :: ccells h d c ++ cells d l ++ G) H3)
    as (m4 & -> & H4); [solve_Permutation|].
  exists m4. split; [done|]. eapply owns_perm; [|done|exact H4]. solve_Permutation.
Qed.

Lemma at_same_plug t c t' c' G m :
  plug t c = plug t' c' -> root_balance c' = root_balance c -> at_ctx t c G m -> at_ctx t' c' G m.
Proof. intros E1 E2 Ho. apply at_plug. apply at_plug in Ho. by rewrite <- E1, E2. Qed.

Lemma at_nodup t c G m : at_ctx t c G m -> NoDup (h :: addrs (plug t c) ++ G.*1).
Proof.
  rewrite at_plug. intros Ho. apply owns_nodup in Ho. simpl in Ho.
  rewrite !fmap_app, cells_addrs in Ho. simpl in Ho.
  by rewrite (Permutation_middle (addrs (plug t c)) G.*1 h).
Qed.

(** Unlinking and going up. *)
Lemma unlink_up l d b r c G m Depth :
  at_ctx (Branch l d b r) c G m -> l = Leaf \/ r = Leaf -> balanced (plug (Branch l d b r) c) ->
  Depth = height (plug (Branch l d b r) c) -> Depth < 2 ^ 32 ->
  exists m' b0 t n,
    ('(m, p, b) ← Unlink h m d; DeleteLoop (path_fuel m) h m Depth p b) = Some (m', height t) /\
    at_ctx t (Root b0) ((d, n) :: G) m' /\ balanced t /\
    addrs t = reverse (beyond L c) ++ (addrs l ++ addrs r) ++ beyond R c.
Proof.
  intros Ho Hl Hb Hd Hd1. pose proof (proj1 (balanced_plug _ _) Hb) as [Hb1 Hb2].
  destruct (only_facts l r d b Hl Hb1) as (O1 & O2 & O3). rewrite height_plug, O2 in Hd. rewrite O2 in Hb2.
  destruct (unlink_run l d b r c G m Ho Hl) as (m1 & E1 & H1). rewrite E1. cbn [mbind option_bind].
  assert (forall k, cbal k c -> cbal k (set_root 0 c) /\ cheight k (set_root 0 c) = cheight k c) as Hsame.
  { clear. induction c; intros k; simpl; [done|]. naive_solver. }
  destruct (Hsame _ Hb2) as [Hb2' Hh]. pose proof (cdepth_size _ _ _ _ H1) as Hsz.
  destruct (AvlDeleteLoop_run (path_fuel m1) (only l r) (set_root 0 c) _ m1 Depth H1)
    as (m2 & b0 & E2 & H2); [apply root_balance_set|unfold path_fuel; lia|done|done|].
  replace (top h (set_root 0 c)) with (top h c) in E2 by by destruct c.
  replace (hole (set_root 0 c)) with (hole c) in E2 by by destruct c. rewrite E2.
  pose proof (del_up_spec (only l r) (set_root 0 c) O1 Hb2') as Hs.
  destruct (del_up (only l r) (set_root 0 c)) as [t shrunk]. destruct Hs as (S1 & S2 & S3).
  cbn [fst snd] in *. exists m2, b0, t, (mkLinks (top h c) (ptr l) (ptr r) b). split_and!; [|done|done|].
  - rewrite S3, Hh, Hd. pose proof (height_nonneg t). destruct shrunk; [|by rewrite Z.sub_0_r].
    by rewrite u32_small by lia.
  - rewrite S2, plug_set_root, addrs_plug, O3. done.
Qed.

(** A record that left the tree takes the place of another. *)
Lemma replace_at t b0 x d nd G m pre post :
  at_ctx t (Root b0) ((d, nd) :: G) m -> balanced t -> addrs t = pre ++ x :: post ->
  exists m' t' n, Replace m d x = Some m' /\ at_ctx t' (Root b0) ((x, n) :: G) m' /\
    balanced t' /\ height t' = height t /\ addrs t' = pre ++ d :: post.
Proof.
  intros Ho Hb Ha. destruct (address_place x t (Root b0)) as (l & b & r & c & E1 & E2).
  { rewrite Ha. set_solver. }
  pose proof (at_nodup _ _ _ _ Ho) as Hn.
  apply (at_same_plug _ _ _ _ _ _ E1 E2) in Ho. destruct (replace_run _ _ _ _ _ _ _ _ _ Ho) as (m' & E & H').
  exists m', (plug (Branch l d b r) c), (mkLinks (top h c) (ptr l) (ptr r) b). simpl in E1, E2.
  subst t. split_and!.
  - done.
  - rewrite at_plug, E2 in H'. done.
  - apply balanced_plug. by apply balanced_plug in Hb.
  - by rewrite !height_plug.
  - simpl in Hn. apply NoDup_cons in Hn as [_ Hn]. apply NoDup_app in Hn as (Hn & _ & _).
    rewrite Ha in Hn. rewrite addrs_plug in Ha. simpl in Ha. rewrite <- app_assoc in Ha.
    rewrite app_assoc in Ha. symmetry in Ha. apply NoDup_split in Ha as [-> ->]; [|done].
    rewrite addrs_plug. simpl. by rewrite <- !app_assoc.
Qed.

Lemma ptr_null p t l F' m' l' : owns F' l m' -> l ≡ₚ cells p t ++ l' -> (ptr t =? 0) = bool_decide (t = Leaf).
Proof.
  intros Ho Hp. destruct t as [|u a b v]; [done|]. rewrite bool_decide_false by done. apply Z.eqb_neq.
  apply (not_null Ho). rewrite Hp. eapply in_fst, root_cell.
Qed.

(** Deleting a record with two children: [d], its neighbour in the subtree [t], is unlinked
    and takes its place. *)
Lemma delete_inner s t u x b c G m Depth :
  at_ctx (mk (opp s) t u x b) c G m -> t <> Leaf -> balanced (plug (mk (opp s) t u x b) c) ->
  Depth = height (plug (mk (opp s) t u x b) c) -> Depth < 2 ^ 32 ->
  exists d m' b0 t' n, Descend s (path_fuel m) m (ptr t) = Some d /\ x <> d /\
    ('(m, p, b) ← Unlink h m d; '(m, Depth) ← DeleteLoop (path_fuel m) h m Depth p b;
     m ← Replace m d x; Some (m, Depth)) = Some (m', height t') /\
    at_ctx t' (Root b0) ((x, n) :: G) m' /\ balanced t' /\
    addrs t' = match s with
      | L => reverse (beyond L c) ++ (addrs u ++ addrs t) ++ beyond R c
      | R => reverse (beyond L c) ++ (addrs t ++ addrs u) ++ beyond R c
      end.
Proof.
  intros Ho Ht Hb Hd Hd1. rewrite at_child in Ho.
  destruct (extreme_place s t (Frame (opp s) x b u c) Ht) as (w & d & bd & c' & E1 & E2 & E3 & E4 & E5).
  assert (forall c0, plug (mk (opp s) t u x b) c0 = plug t (Frame (opp s) x b u c0)) as Ep by done.
  rewrite Ep, E1 in Hb, Hd.
  pose proof (owns_size _ _ _ Ho) as Hsz. rewrite length_app, length_cells in Hsz.
  pose proof (descend_run s t F _ m x _ (path_fuel m) Ho ltac:(done) Ht) as Ed.
  rewrite E3 in Ed. specialize (Ed ltac:(unfold path_fuel; lia)).
  pose proof (at_nodup _ _ _ _ Ho) as Hn. rewrite E1 in Hn.
  apply (at_same_plug _ _ _ _ _ _ E1 E2) in Ho.
  assert (exists l r, mk s Leaf w d bd = Branch l d bd r /\ (l = Leaf \/ r = Leaf) /\ addrs l ++ addrs r = addrs w)
    as (l & r & Em & Hl & Hw) by (destruct s; simpl; [exists Leaf, w|exists w, Leaf]; rewrite ?app_nil_r; auto).
  rewrite Em in Ho, Hb, Hd, Hn.
  destruct (unlink_up l d bd r c' G m Depth Ho Hl Hb Hd Hd1) as (m1 & b0 & t1 & n1 & Er & H1 & B1 & A1).
  rewrite Hw in A1. simpl in E4, E5.
  rewrite bool_decide_false in E4 by by destruct s. rewrite bool_decide_true in E5 by done.
  assert (exists pre post, addrs t1 = pre ++ x :: post /\ pre ++ d :: post = match s with
      | L => reverse (beyond L c) ++ (addrs u ++ addrs t) ++ beyond R c
      | R => reverse (beyond L c) ++ (addrs t ++ addrs u) ++ beyond R c
      end) as (pre & post & P1 & P2).
  { destruct s; simpl in *.
    - exists (reverse (beyond L c) ++ addrs u), (addrs w ++ beyond R c'). split.
      + rewrite A1, E4, reverse_cons, reverse_app, reverse_involutive, <- !app_assoc. done.
      + rewrite E5, <- !app_assoc. done.
    - exists (reverse (beyond L c') ++ addrs w), (addrs u ++ beyond R c). split.
      + rewrite A1, E4, <- !app_assoc. done.
      + apply (f_equal reverse) in E5.
        rewrite reverse_cons, !reverse_app, !reverse_involutive in E5.
        rewrite (cons_middle d), app_assoc, E5, <- !app_assoc. done. }
  destruct (replace_at t1 b0 x d n1 G m1 pre post H1 B1 P1) as (m2 & t2 & n2 & R1 & R2 & R3 & R4 & R5).
  exists d, m2, b0, t2, n2. split_and!; [done| | |done|done|by rewrite R5].
  - intros ->. apply at_nodup in H1. simpl in H1. apply NoDup_cons in H1 as [_ H1].
    apply NoDup_app in H1 as (_ & H1 & _). apply (H1 d); [rewrite P1; set_solver|left].
  - destruct (Unlink h m d) as [[[m0 p] b1]|]; [|done]. cbn [mbind option_bind] in *. rewrite Er.
    cbn [mbind option_bind]. rewrite R1, R4. done.
Qed.

Lemma delete_node_run l x b r c G m Depth :
  at_ctx (Branch l x b r) c G m -> balanced (plug (Branch l x b r) c) ->
  Depth = height (plug (Branch l x b r) c) -> Depth < 2 ^ 32 ->
  exists m' b0 t n, RtlpDeleteAvlTreeNode h m Depth x = Some (m', height t) /\
    at_ctx t (Root b0) ((x, n) :: G) m' /\ balanced t /\
    addrs t = reverse (beyond L c) ++ (addrs l ++ addrs r) ++ beyond R c.
Proof.
  intros Ho Hb Hd Hd1. unfold RtlpDeleteAvlTreeNode.
  pose proof (child_run L l r x b c G m Ho) as El. pose proof (child_run R r l x b c G m Ho) as Er.
  unfold child in El, Er. simpl in El, Er. rewrite El, Er. cbn [mbind option_bind].
  assert ((ptr l =? 0) = bool_decide (l = Leaf) /\ (ptr r =? 0) = bool_decide (r = Leaf)) as [-> ->].
  { set (n := mkLinks (top h c) (ptr l) (ptr r) b).
    split; [apply (ptr_null x l _ F m ((x, n) :: cells x r ++ ccells h x c ++ G) Ho)
           |apply (ptr_null x r _ F m ((x, n) :: cells x l ++ ccells h x c ++ G) Ho)];
      simpl; fold n; solve_Permutation. }
  destruct (decide (l = Leaf \/ r = Leaf)) as [Hl|Hl].
  - assert (bool_decide (l = Leaf) || bool_decide (r = Leaf) = true) as -> by (destruct Hl as [-> | ->]; by rewrite ?orb_true_r).
    cbn [mbind option_bind].
    destruct (unlink_up l x b r c G m Depth Ho Hl Hb Hd Hd1) as (m1 & b0 & t1 & n1 & E & H1 & B1 & A1).
    destruct (Unlink h m x) as [[[m0 p] b1]|]; [|done]. cbn [mbind option_bind] in *. rewrite E.
    cbn [mbind option_bind]. rewrite Z.eqb_refl. by exists m1, b0, t1, n1.
  - assert (l <> Leaf /\ r <> Leaf) as [Nl Nr] by tauto. rewrite !bool_decide_false by done. cbn [orb].
    rewrite (mk_balance L l r x b c G m Ho). cbn [mbind option_bind].
    unfold RtlBalancedAvlTree. destruct (0 <=? b).
    + destruct (delete_inner L r l x b c G m Depth Ho Nr Hb Hd Hd1) as (d & m' & b0 & t & n & -> & N & E & H).
      cbn [mbind option_bind]. exists m', b0, t, n. rewrite <- E, (proj2 (Z.eqb_neq x d)) by done. by split.
    + destruct (delete_inner R l r x b c G m Depth Ho Nl Hb Hd Hd1) as (d & m' & b0 & t & n & -> & N & E & H).
      cbn [mbind option_bind]. exists m', b0, t, n. rewrite <- E, (proj2 (Z.eqb_neq x d)) by done. by split.
Qed.
End Pointers.
