(* ===== verification/AvlTable.v ===== *)
(** * The generic AVL table as a sorted collection

    [table_at h F σ E]: the records of a table whose head is at [h] form an AVL tree, and
    their addresses and user data are, in order, the entries [E]. Each operation of
    [avltable.c] is given by what it does to [E]. *)

From stdpp Require Import base list gmap sorting.
From Stdlib Require Import ZArith Lia.
From S2P Require Import Prelude Tree Avl TableOrder AvlProps.
Open Scope Z_scope.

(** ** The invariant *)

Section Invariant.
Context {V : Type} (cmp : V -> V -> RTL_GENERIC_COMPARE_RESULTS) `{!CompareOrder cmp}.
Context (h : Z) (F : nodes).

Abbreviation entry := (prod Z V).

(** The entries are the records of [t], in order. *)
Record table_at (σ : avl_state V) (E : list entry) (t : tree) (b0 : Z) : Prop := {
  at_tree : at_ctx F h t (Root b0) [] (Nodes σ);
  at_bal : balanced t;
  at_addrs : addrs t = E.*1;
  at_data : Forall (fun e => UserData σ !! e.1 = Some e.2) E;
  at_sorted : StronglySorted (less cmp) E.*2;
  at_count : NumberGenericTableElements (Table σ) = Z.of_nat (length E);
  at_depth : DepthOfTree (Table σ) = height t;
  at_small : Z.of_nat (length E) < 2 ^ 32
}.

Definition avl_table (σ : avl_state V) (E : list entry) : Prop := exists t b0, table_at σ E t b0.

Lemma table_height σ E t b0 : table_at σ E t b0 -> height t <= Z.of_nat (length E).
Proof. intros H. pose proof (height_length t) as Hl. by rewrite (at_addrs _ _ _ _ H), length_fmap in Hl. Qed.


Lemma head_right t b0 G m : at_ctx F h t (Root b0) G m -> RtlRightChild m h = Some (ptr t).
Proof.
  intros Ho. apply (read_child Ho R h h (ptr t) 0 b0). apply elem_of_app. right. left.
Qed.

Lemma avl_navigable G m : navigable m (fun t c => at_ctx F h t c G m).
Proof.
  split; intros; [|by apply (at_child F h L)|by apply (at_child F h R)].
  rename H into Ho. set (n := mkLinks (top h c) (ptr l) (ptr r) b). destruct s; simpl.
  - split; [exact (child_run F h L l r x b c G m Ho)|].
    apply (ptr_null x l _ F m ((x, n) :: cells x r ++ ccells h x c ++ G) Ho). simpl. fold n. solve_Permutation.
  - split; [exact (child_run F h R r l x b c G m Ho)|].
    apply (ptr_null x r _ F m ((x, n) :: cells x l ++ ccells h x c ++ G) Ho). simpl. fold n. solve_Permutation.
Qed.

Lemma table_path σ E t b0 : table_at σ E t b0 -> (length E < path_fuel (Nodes σ))%nat.
Proof.
  intros H. pose proof (owns_size _ _ _ (at_tree _ _ _ _ H)) as Hs.
  rewrite length_app, length_cells, (at_addrs _ _ _ _ H), length_fmap in Hs. unfold path_fuel. lia.
Qed.

Lemma table_empty σ E t b0 : table_at σ E t b0 -> (t = Leaf <-> E = []).
Proof.
  intros H. pose proof (at_addrs _ _ _ _ H) as Ha. split; intros ->.
  - by destruct E.
  - destruct t as [|l x b r]; [done|]. simpl in Ha. by destruct (addrs l).
Qed.

(** ** The search of the table *)

Lemma table_find σ E t b0 B : table_at σ E t b0 ->
  exists res x, RtlpFindAvlTableNodeOrParent cmp h σ B
    = Some (res, if bool_decide (E = []) then None else Some x) /\
  search_end cmp h B E t b0 res x.
Proof.
  intros H. unfold RtlpFindAvlTableNodeOrParent. rewrite (at_count _ _ _ _ H).
  case_bool_decide as He.
  - exists TableEmptyTree, h. split; [by rewrite He|].
    rewrite (proj2 (table_empty _ _ _ _ H) He).
    apply (search_absent cmp h B E Leaf b0 (Root b0) [] []); simpl; done.
  - destruct (decide (t = Leaf)) as [Ht|Ht]; [by apply (table_empty _ _ _ _ H) in Ht|].
    rewrite (proj2 (Z.eqb_neq _ _)) by (destruct E; simpl; [done|lia]).
    rewrite (head_right _ _ _ _ (at_tree _ _ _ _ H)). cbn [mbind option_bind].
    destruct (find_run cmp h (Nodes σ) (UserData σ) B E (at_data _ _ _ _ H) (at_sorted _ _ _ _ H)
      _ (avl_navigable [] (Nodes σ)) (path_fuel (Nodes σ)) t (Root b0) (at_tree _ _ _ _ H) Ht) as (res & x & -> & Hs).
    + apply (at_addrs _ _ _ _ H).
    + pose proof (table_height _ _ _ _ H). pose proof (table_path _ _ _ _ H). lia.
    + intros e _ Hin. by apply not_elem_of_nil in Hin.
    + intros e _ Hin. by apply not_elem_of_nil in Hin.
    + by exists res, x.
Qed.

(** A search, in terms of the entries only. *)
Inductive lookup_end (B : V) (E : list entry) : option entry -> Prop :=
  | lookup_found pre x v post : E = pre ++ (x, v) :: post -> cmp B v = GenericEqual -> lookup_end B E (Some (x, v))
  | lookup_absent pre post : E = pre ++ post ->
      Forall (greater cmp B) pre.*2 -> Forall (less cmp B) post.*2 -> lookup_end B E None.

(** ** Lookup *)

Lemma table_lookup σ E B : avl_table σ E ->
  exists e, RtlLookupElementGenericTableAvl cmp h σ B = Some (fst <$> e) /\ lookup_end B E e.
Proof.
  intros (t & b0 & H). unfold RtlLookupElementGenericTableAvl, RtlLookupElementGenericTableFullAvl.
  destruct (table_find σ E t b0 B H) as (res & x & -> & Hs). cbn [mbind option_bind].
  destruct Hs as [l x b r c pre v post Ht Hc HE Hv _ _|c pre post Ht Hc HE Hp Hq _ _].
  - exists (Some (x, v)). split; [|by eapply lookup_found].
    rewrite bool_decide_true by done. rewrite bool_decide_false by (by rewrite HE; destruct pre). done.
  - exists None. split; [|by eapply lookup_absent].
    rewrite bool_decide_false by (destruct c as [|[] ? ? ? ?]; done). done.
Qed.

(** ** Insertion *)

Lemma table_insert_absent `{!AvlAllocator V} σ E t b0 c pre post B x :
  table_at σ E t b0 -> Z.of_nat (length E) + 1 < 2 ^ 32 -> t = plug Leaf c -> root_balance c = b0 ->
  E = pre ++ post -> Forall (greater cmp B) pre.*2 -> Forall (less cmp B) post.*2 ->
  reverse (beyond L c) = pre.*1 -> beyond R c = post.*1 -> avl_allocate σ = Some x ->
  exists σ', RtlInsertElementGenericTableFullAvl h σ B (top h c) (search_of c) = Some (σ', Some x, true) /\
    avl_table σ' (pre ++ (x, B) :: post) /\ RestartKey (Table σ') = RestartKey (Table σ) /\
    UserData σ' = <[x := B]> (UserData σ).
Proof.
  intros H Hn Ht Hc HE Hp Hq Hl Hr Hx. unfold RtlInsertElementGenericTableFullAvl.
  rewrite bool_decide_false by (destruct c as [|[] ? ? ? ?]; done). rewrite Hx. cbn [negb].
  destruct (avl_fresh _ _ Hx) as (X0 & X1 & X2).
  pose proof (at_bal _ _ _ _ H) as Hb. rewrite Ht in Hb. apply balanced_plug in Hb as [_ Hb].
  pose proof (table_height _ _ _ _ H) as Hh. pose proof (height_nonneg t) as H0.
  pose proof (at_depth _ _ _ _ H) as Hd. rewrite Ht, height_plug in Hd. rewrite Ht, height_plug in Hh, H0.
  simpl in Hb, Hd, Hh, H0.
  destruct (insert_node_run F h c x (mkLinks 0 0 0 0) [] (<[x := mkLinks 0 0 0 0]> (Nodes σ)) (Table σ))
    as (m' & b1 & t1 & -> & H1 & B1 & A1); [|done|done|lia|lia|].
  { pose proof (at_tree _ _ _ _ H) as Ho. apply (at_same_plug F h t (Root b0) Leaf c) in Ho; [|done|done].
    eapply owns_perm; [|done|by apply owns_alloc]. simpl. solve_Permutation. }
  cbn [mbind option_bind]. eexists. split; [done|]. split_and!; [|done|done].
  exists t1, b1. constructor; simpl; try done.
  - rewrite A1, fmap_app. simpl. by rewrite Hl, Hr.
  - apply insert_data; [done|]. rewrite <- HE. apply (at_data _ _ _ _ H).
  - rewrite fmap_app. pose proof (at_sorted _ _ _ _ H) as S. rewrite HE, fmap_app in S.
    by apply sorted_insert_mid.
  - rewrite (at_count _ _ _ _ H), HE, !length_app. simpl. rewrite u32_small; [lia|].
    rewrite HE, length_app in Hn. lia.
  - rewrite HE, length_app in Hn. rewrite length_app. simpl. lia.
Qed.

Lemma table_insert `{!AvlAllocator V} σ E B : avl_table σ E -> Z.of_nat (length E) + 1 < 2 ^ 32 ->
  (exists pre x v post, E = pre ++ (x, v) :: post /\ cmp B v = GenericEqual /\
     RtlInsertElementGenericTableAvl cmp h σ B = Some (σ, Some x, false)) \/
  (exists pre post, E = pre ++ post /\ Forall (greater cmp B) pre.*2 /\ Forall (less cmp B) post.*2 /\
     match avl_allocate σ with
     | None => RtlInsertElementGenericTableAvl cmp h σ B = Some (σ, None, false)
     | Some x => exists σ', RtlInsertElementGenericTableAvl cmp h σ B = Some (σ', Some x, true) /\
         avl_table σ' (pre ++ (x, B) :: post) /\ RestartKey (Table σ') = RestartKey (Table σ) /\
         UserData σ' = <[x := B]> (UserData σ)
     end).
Proof.
  intros (t & b0 & H) Hn. unfold RtlInsertElementGenericTableAvl.
  destruct (table_find σ E t b0 B H) as (res & y & -> & Hs). cbn [mbind option_bind].
  destruct Hs as [l x b r c pre v post Ht Hc HE Hv _ _|c pre post Ht Hc HE Hp Hq Hl Hr].
  - left. exists pre, x, v, post. split_and!; [done|done|].
    unfold RtlInsertElementGenericTableFullAvl. rewrite bool_decide_true by done. cbn [negb].
    rewrite bool_decide_false by (by rewrite HE; destruct pre). done.
  - right. exists pre, post. split_and!; [done|done|done|].
    destruct (avl_allocate σ) as [x|] eqn:Hx.
    + assert (RtlInsertElementGenericTableFullAvl h σ B
        (default 0 (if bool_decide (E = []) then None else Some (top h c))) (search_of c)
        = RtlInsertElementGenericTableFullAvl h σ B (top h c) (search_of c)) as ->.
      { case_bool_decide as He; [|done]. destruct c as [b|s a b u c]; [done|].
        apply (table_empty _ _ _ _ H) in He. rewrite Ht in He. by apply plug_frame in He. }
      by eapply table_insert_absent.
    + unfold RtlInsertElementGenericTableFullAvl. rewrite Hx.
      rewrite bool_decide_false by (destruct c as [|[] ? ? ? ?]; done). done.
Qed.

(** ** Deletion *)

(** The record before [x] in the table; the head when [x] is the first. *)
Definition previous (pre : list entry) : Z := default h (fst <$> last pre).

Lemma hd_reverse pre : hd h (reverse pre.*1) = previous pre.
Proof.
  unfold previous. destruct pre as [|e pre] using rev_ind; [done|].
  rewrite fmap_app, reverse_app, last_snoc. done.
Qed.


Lemma table_nodup σ E t b0 : table_at σ E t b0 -> NoDup E.*1 /\ (h ∉ E.*1) /\ (0 ∉ E.*1) /\ h <> 0.
Proof.
  intros H. pose proof (at_nodup _ _ _ _ _ _ (at_tree _ _ _ _ H)) as Hn. simpl in Hn.
  rewrite app_nil_r, (at_addrs _ _ _ _ H) in Hn. apply NoDup_cons in Hn as [Hh Hn].
  pose proof (owns_nonnull _ _ _ (at_tree _ _ _ _ H)) as H0. simpl in H0.
  rewrite fmap_app, cells_addrs, (at_addrs _ _ _ _ H), not_elem_of_app in H0. destruct H0 as [H0 H1].
  split_and!; [done|done|done|]. intros ->. apply H1. left.
Qed.

Lemma table_delete_found σ E t b0 l x b r c pre v post :
  table_at σ E t b0 -> t = plug (Branch l x b r) c -> root_balance c = b0 ->
  E = pre ++ (x, v) :: post ->
  reverse (beyond L c) ++ addrs l = pre.*1 -> addrs r ++ beyond R c = post.*1 ->
  RtlRealPredecessor (Nodes σ) x = Some (previous pre) /\
  exists m' t', RtlpDeleteAvlTreeNode h (Nodes σ) (DepthOfTree (Table σ)) x = Some (m', height t') /\
    forall k dc, avl_table (mkState (delete x m') (delete x (UserData σ))
      (mkTable 0 0 (u32 (NumberGenericTableElements (Table σ) - 1)) (height t') k dc)) (pre ++ post).
Proof.
  intros H Ht Hc HE Hl Hr.
  pose proof (at_tree _ _ _ _ H) as Ho. apply (at_same_plug F h t (Root b0) (Branch l x b r) c) in Ho; [|done|done].
  split.
  - rewrite (RtlRealPredecessor_run h F (Nodes σ) c l x b r [] Ho).
    rewrite <- hd_reverse, <- Hl, reverse_app, reverse_involutive. done.
  - pose proof (table_height _ _ _ _ H) as Hh. pose proof (at_small _ _ _ _ H) as Hs.
    destruct (delete_node_run F h l x b r c [] (Nodes σ) (DepthOfTree (Table σ)) Ho)
      as (m' & b1 & t1 & n & -> & H1 & B1 & A1).
    { rewrite <- Ht. apply (at_bal _ _ _ _ H). }
    { rewrite <- Ht. apply (at_depth _ _ _ _ H). }
    { rewrite (at_depth _ _ _ _ H). lia. }
    exists m', t1. split; [done|]. intros k dc. exists t1, b1. constructor; simpl; try done.
    + eapply owns_free with (n := n). eapply owns_perm; [|done|exact H1]. simpl. solve_Permutation.
    + rewrite A1, fmap_app, <- Hl, <- Hr, <- !app_assoc. done.
    + apply (delete_data _ pre x v post); rewrite <- HE; [apply (table_nodup _ _ _ _ H)|apply (at_data _ _ _ _ H)].
    + pose proof (at_sorted _ _ _ _ H) as S. rewrite HE, fmap_app in S. rewrite fmap_app.
      by eapply sorted_remove_mid.
    + rewrite (at_count _ _ _ _ H), HE, !length_app in *. simpl in *. rewrite u32_small; lia.
    + rewrite HE, length_app in Hs. rewrite length_app. simpl in Hs. lia.
Qed.

Lemma table_delete σ E B : avl_table σ E ->
  (exists pre x v post σ', E = pre ++ (x, v) :: post /\ cmp B v = GenericEqual /\
     RtlDeleteElementGenericTableAvl cmp h σ B = Some (true, σ') /\ avl_table σ' (pre ++ post) /\
     UserData σ' = delete x (UserData σ) /\
     RestartKey (Table σ') = if x =? RestartKey (Table σ) then previous pre else RestartKey (Table σ)) \/
  (exists pre post, E = pre ++ post /\ Forall (greater cmp B) pre.*2 /\ Forall (less cmp B) post.*2 /\
     RtlDeleteElementGenericTableAvl cmp h σ B = Some (false, σ)).
Proof.
  intros (t & b0 & H). unfold RtlDeleteElementGenericTableAvl.
  destruct (table_find σ E t b0 B H) as (res & y & -> & Hs). cbn [mbind option_bind].
  destruct Hs as [l x b r c pre v post Ht Hc HE Hv Hl Hr|c pre post Ht Hc HE Hp Hq Hl Hr].
  - left. rewrite bool_decide_false by (by rewrite HE; destruct pre).
    destruct (table_delete_found σ E t b0 l x b r c pre v post H Ht Hc HE Hl Hr) as (-> & m' & t' & -> & Ha).
    assert ((if x =? RestartKey (Table σ) then Some (previous pre) else Some (RestartKey (Table σ)))
      = Some (if x =? RestartKey (Table σ) then previous pre else RestartKey (Table σ))) as ->
      by by destruct (x =? RestartKey (Table σ)).
    exists pre, x, v, post. eexists. split_and!; [done|done|done|apply Ha|done|done].
  - right. exists pre, post. split_and!; [done|done|done|]. by destruct c as [|[] ? ? ? ?], (bool_decide (E = [])).
Qed.

(** ** Enumeration *)

(** The entry after the one at [key]; the first entry when [key] is zero or the head. *)
Definition next_entry (key : Z) (E : list entry) : option entry :=
  if bool_decide (key = 0 \/ key = h) then head E
  else match list_find (fun e : entry => e.1 = key) E with
       | Some (i, _) => E !! S i
       | None => None
       end.

Lemma first_run t b0 G m (E : list entry) : at_ctx F h t (Root b0) G m -> addrs t = E.*1 -> t <> Leaf ->
  Descend L (path_fuel m) m (ptr t) = fst <$> head E.
Proof.
  intros Ho Ha Ht. pose proof (owns_size _ _ _ Ho) as Hs. rewrite length_app, length_cells in Hs.
  rewrite (descend_run L t F _ m h _ (path_fuel m) Ho) by (done || unfold path_fuel; lia).
  rewrite <- (toward_extreme L t 0 []) by done. simpl. rewrite app_nil_r, Ha.
  destruct E; [|done]. destruct t as [|l a b r]; [done|]. simpl in Ha. by destruct (addrs l).
Qed.

Lemma next_run σ E t b0 pre x v post : table_at σ E t b0 -> E = pre ++ (x, v) :: post ->
  RtlRealSuccessor (Nodes σ) x = Some (default 0 (fst <$> head post)) /\
  next_entry x E = head post.
Proof.
  intros H HE. destruct (table_nodup _ _ _ _ H) as (N1 & N2 & N3 & _).
  rewrite HE, fmap_app in N1, N2, N3. simpl in N1, N2, N3. split.
  - assert (x ∈ addrs t) as Hx by (rewrite (at_addrs _ _ _ _ H), HE, fmap_app; set_solver).
    destruct (address_place x t (Root b0) Hx) as (l & b & r & c & E1 & E2).
    pose proof (at_tree _ _ _ _ H) as Ho. apply (at_same_plug F h t (Root b0) (Branch l x b r) c) in Ho; [|done|done].
    rewrite (RtlRealSuccessor_run h F (Nodes σ) c l x b r [] Ho).
    pose proof (at_addrs _ _ _ _ H) as Ha. change t with (plug t (Root b0)) in Ha.
    rewrite E1, addrs_plug, HE, fmap_app in Ha. simpl in Ha.
    rewrite <- (app_assoc (addrs l)), (app_assoc (reverse _)) in Ha. simpl in Ha. symmetry in Ha.
    apply NoDup_split in Ha as [_ <-]; [|done]. by destruct post.
  - unfold next_entry. rewrite bool_decide_false by set_solver.
    rewrite HE, (list_find_app_r _ pre).
    + simpl. rewrite decide_True by done. simpl. rewrite lookup_app_r by lia.
      replace (S (length pre) - length pre)%nat with 1%nat by lia. by destruct post.
    + apply list_find_None. apply Forall_forall. intros e He Hx. apply NoDup_app in N1 as (_ & N1 & _).
      apply (N1 x); [|left]. rewrite <- Hx. by apply list_elem_of_fmap_2.
Qed.

Lemma table_enumerate σ E key : avl_table σ E -> key = 0 \/ key = h \/ key ∈ E.*1 ->
  RtlEnumerateGenericTableWithoutSplayingAvl h σ key =
    Some (fst <$> next_entry key E, default key (fst <$> next_entry key E)).
Proof.
  intros (t & b0 & H) Hk. unfold RtlEnumerateGenericTableWithoutSplayingAvl, RtlIsGenericTableEmptyAvl.
  rewrite (at_count _ _ _ _ H). destruct (table_nodup _ _ _ _ H) as (N1 & N2 & N3 & Nh).
  destruct (decide (E = [])) as [He|He].
  - rewrite He. simpl. unfold next_entry. by case_bool_decide.
  - rewrite (proj2 (Z.eqb_neq _ 0)) by (destruct E; simpl; [done|lia]).
    destruct (decide (t = Leaf)) as [Ht|Ht]; [by apply (table_empty _ _ _ _ H) in Ht|].
    pose proof (head_right _ _ _ _ (at_tree _ _ _ _ H)) as Hr.
    pose proof (first_run _ _ _ _ _ (at_tree _ _ _ _ H) (at_addrs _ _ _ _ H) Ht) as Hf.
    destruct E as [|[x v] E']; [done|].
    change (fst <$> head ((x, v) :: E')) with (Some x) in Hf.
    assert (x <> 0) as Hx by set_solver.
    destruct Hk as [-> | [-> | Hk]].
    + rewrite Z.eqb_refl, Hr. cbn [mbind option_bind]. rewrite Hf. cbn [mbind option_bind].
      rewrite (proj2 (Z.eqb_neq x 0)) by done. done.
    + rewrite (proj2 (Z.eqb_neq h 0)) by done. unfold RtlRealSuccessor, next_entry.
      rewrite Hr, bool_decide_true by auto. cbn [mbind option_bind].
      assert (ptr t <> 0) as Hp.
      { destruct t as [|l a b r]; [done|]. apply (not_null (at_tree _ _ _ _ H)). eapply in_fst, root_cell. }
      rewrite (proj2 (Z.eqb_neq (ptr t) 0)) by done. cbn [negb]. rewrite Hf. cbn [mbind option_bind].
      by rewrite (proj2 (Z.eqb_neq x 0)) by done.
    + rewrite (proj2 (Z.eqb_neq key 0)) by set_solver.
      apply list_elem_of_fmap in Hk as ([k w] & -> & Hk). apply list_elem_of_split in Hk as (pre & post & Hk).
      cbn [fst]. destruct (next_run _ _ _ _ pre k w post H Hk) as [-> ->]. cbn [mbind option_bind].
      destruct post as [|[y z] post]; [done|]. simpl.
      rewrite (proj2 (Z.eqb_neq y 0)); [done|]. intros ->. apply N3. rewrite Hk, fmap_app. set_solver.
Qed.

(** ** The first match *)

Lemma first_match_run σ E t b0 l x b r c pre v post B :
  table_at σ E t b0 -> t = plug (Branch l x b r) c -> root_balance c = b0 ->
  E = pre ++ (x, v) :: post -> cmp B v = GenericEqual ->
  reverse (beyond L c) ++ addrs l = pre.*1 -> addrs r ++ beyond R c = post.*1 ->
  FirstMatchLoop cmp (path_fuel (Nodes σ)) (Nodes σ) (UserData σ) B x = Some x.
Proof.
  intros H Ht Hc HE Hv Hl Hr.
  destruct (table_delete_found σ E t b0 l x b r c pre v post H Ht Hc HE Hl Hr) as (Hp & _).
  unfold path_fuel. cbn [FirstMatchLoop]. rewrite Hp. cbn [mbind option_bind].
  destruct (table_nodup _ _ _ _ H) as (N1 & N2 & N3 & Nh).
  destruct pre as [|[y w] pre _] using rev_ind.
  - unfold previous. simpl. rewrite (proj2 (Z.eqb_neq h 0)) by done.
    assert (RtlParent (Nodes σ) h = Some h) as ->; [|by simpl; rewrite Z.eqb_refl].
    apply (read_parent (at_tree _ _ _ _ H) h (mkLinks h 0 (ptr t) b0)). apply elem_of_app. right. left.
  - unfold previous. rewrite last_snoc. simpl.
    assert (y ∈ E.*1) as Hy by (rewrite HE, !fmap_app; set_solver).
    rewrite (proj2 (Z.eqb_neq y 0)) by (intros ->; by apply N3).
    rewrite <- (at_addrs _ _ _ _ H) in Hy.
    destruct (address_place y t (Root b0) Hy) as (l' & b' & r' & c' & E1 & E2).
    pose proof (at_tree _ _ _ _ H) as Ho. apply (at_same_plug F h t (Root b0) (Branch l' y b' r') c') in Ho; [|done|done].
    rewrite (mk_parent F h L l' r' y b' c' [] _ Ho). cbn [mbind option_bind].
    rewrite (proj2 (Z.eqb_neq (top h c') y)).
    2:{ intros Ec. apply owns_nodup in Ho. rewrite (ccells_top h) in Ho. simpl in Ho. rewrite Ec in Ho.
        rewrite !fmap_app in Ho. simpl in Ho. rewrite fmap_app in Ho. apply NoDup_app in Ho as (_ & Ho & _).
        apply (Ho y); [simpl; set_solver|left]. }
    pose proof (at_data _ _ _ _ H) as D. rewrite HE, <- app_assoc in D. apply Forall_app in D as [_ D].
    inversion D as [|? ? D1 _]; subst. simpl in D1. rewrite D1. cbn [mbind option_bind].
    rewrite bool_decide_false; [done|].
    pose proof (at_sorted _ _ _ _ H) as S. rewrite fmap_app in S. simpl in S.
    destruct (sorted_apart cmp B v _ _ S Hv) as [G _]. rewrite fmap_app in G. apply Forall_app in G as [_ G].
    inversion G as [|? ? G1 _]; subst. unfold greater in G1. simpl in G1. congruence.
Qed.

Lemma table_first_match σ E B : avl_table σ E ->
  exists e, RtlLookupFirstMatchingElementGenericTableAvl cmp h σ B = Some (fst <$> e, default 0 (fst <$> e)) /\
    lookup_end B E e.
Proof.
  intros (t & b0 & H). unfold RtlLookupFirstMatchingElementGenericTableAvl.
  destruct (table_find σ E t b0 B H) as (res & x & -> & Hs). cbn [mbind option_bind].
  destruct Hs as [l x b r c pre v post Ht Hc HE Hv Hl Hr|c pre post Ht Hc HE Hp Hq _ _].
  - exists (Some (x, v)). split; [|by eapply lookup_found].
    rewrite bool_decide_false by (by rewrite HE; destruct pre).
    by rewrite (first_match_run σ E t b0 l x b r c pre v post B H Ht Hc HE Hv Hl Hr).
  - exists None. split; [|by eapply lookup_absent]. by destruct c as [|[] ? ? ? ?], (bool_decide (E = [])).
Qed.

(** ** Initialisation *)

Lemma table_initialize σ n : owns F [(h, n)] (Nodes σ) ->
  exists σ', RtlInitializeGenericTableAvl h σ = Some σ' /\ avl_table σ' [] /\ RestartKey (Table σ') = 0 /\
    UserData σ' = UserData σ.
Proof.
  intros Ho. unfold RtlInitializeGenericTableAvl. rewrite (owns_lookup _ _ _ h n Ho) by left.
  cbn [mbind option_bind]. eexists. split_and!; [done| |done|done].
  exists Leaf, 0. constructor; simpl; try done; [|constructor]. by eapply owns_write.
Qed.
End Invariant.
