(* ===== verification/AvlClaims.v ===== *)
(** * The generic AVL table refines an ordered set

    The abstract contract of [avltable.c] is a set in increasing order with an enumeration
    cursor. Every sequence of calls on an initialised table succeeds and answers as the set
    does; a search makes a logarithmic number of comparisons; the enumeration ends. *)

From stdpp Require Import base option list gmap sorting.
From Stdlib Require Import ZArith Lia.
From S2P Require Import Prelude Tree Avl TableOrder AvlProps AvlTable.
Open Scope Z_scope.

(** ** The abstract contract *)

Section Contract.
Context {V : Type}.

Inductive request :=
  | Insert (Buffer : V) | Lookup (Buffer : V) | FirstMatching (Buffer : V) | Delete (Buffer : V)
  | Enumerate (Restart : bool) | Number | IsEmpty.

Inductive reply :=
  | Inserted (v : option V) (NewElement : bool) | Found (v : option V) | Deleted (b : bool)
  | Next (v : option V) | Count (n : Z) | Empty (b : bool).

(** The values in order, and the one the enumeration returned last. *)
Record ordered_set := mkSet { elems : list V; cursor : option V }.

Context (cmp : V -> V -> RTL_GENERIC_COMPARE_RESULTS).

Definition next_value (c : option V) (vs : list V) : option V :=
  match c with
  | None => head vs
  | Some k => head (filter (fun v => cmp k v = GenericLessThan) vs)
  end.

(** The cursor leaves a value that is removed for the one before it. *)
Definition cursor_after_delete (B : V) (c : option V) (vs : list V) : option V :=
  match c with
  | None => None
  | Some k => if bool_decide (cmp B k = GenericEqual)
              then last (filter (fun v => cmp B v = GenericGreaterThan) vs) else Some k
  end.

(** What a call may answer, and the set afterwards. Only an allocation is free to fail. *)
Inductive permits (s : ordered_set) : request -> reply -> ordered_set -> Prop :=
  | permits_present B v : find_equal cmp B (elems s) = Some v ->
      permits s (Insert B) (Inserted (Some v) false) s
  | permits_new B : find_equal cmp B (elems s) = None ->
      permits s (Insert B) (Inserted (Some B) true) (mkSet (insert_sorted cmp B (elems s)) (cursor s))
  | permits_no_memory B : find_equal cmp B (elems s) = None ->
      permits s (Insert B) (Inserted None false) s
  | permits_lookup B : permits s (Lookup B) (Found (find_equal cmp B (elems s))) s
  | permits_first B : permits s (FirstMatching B) (Found (find_equal cmp B (elems s))) s
  | permits_delete B : permits s (Delete B) (Deleted (bool_decide (is_Some (find_equal cmp B (elems s)))))
      (mkSet (remove_equal cmp B (elems s)) (cursor_after_delete B (cursor s) (elems s)))
  | permits_enumerate (Restart : bool) c n :
      c = (if Restart then None else cursor s) -> n = next_value c (elems s) ->
      permits s (Enumerate Restart) (Next n) (mkSet (elems s) (match n with Some v => Some v | None => c end))
  | permits_number : permits s Number (Count (Z.of_nat (length (elems s)))) s
  | permits_empty : permits s IsEmpty (Empty (bool_decide (elems s = []))) s.

Inductive trace (s : ordered_set) : list request -> list reply -> ordered_set -> Prop :=
  | trace_nil : trace s [] [] s
  | trace_cons req rep s1 reqs reps s2 :
      permits s req rep s1 -> trace s1 reqs reps s2 -> trace s (req :: reqs) (rep :: reps) s2.

(** ** The client of a table *)

Context (h : Z) `{!AvlAllocator V}.

(** What a returned pointer points to. *)
Definition contents (σ : avl_state V) (p : option Z) : option (option V) :=
  match p with
  | None => Some None
  | Some a => v ← UserData σ !! a; Some (Some v)
  end.

Definition serve (σ : avl_state V) (req : request) : option (avl_state V * reply) :=
  match req with
  | Insert B =>
      '(σ', p, new) ← RtlInsertElementGenericTableAvl cmp h σ B;
      v ← contents σ' p; Some (σ', Inserted v new)
  | Lookup B => p ← RtlLookupElementGenericTableAvl cmp h σ B; v ← contents σ p; Some (σ, Found v)
  | FirstMatching B =>
      '(p, _) ← RtlLookupFirstMatchingElementGenericTableAvl cmp h σ B; v ← contents σ p; Some (σ, Found v)
  | Delete B => '(b, σ') ← RtlDeleteElementGenericTableAvl cmp h σ B; Some (σ', Deleted b)
  | Enumerate Restart =>
      '(p, σ') ← RtlEnumerateGenericTableAvl h σ Restart; v ← contents σ' p; Some (σ', Next v)
  | Number => Some (σ, Count (RtlNumberGenericTableElementsAvl σ))
  | IsEmpty => Some (σ, Empty (RtlIsGenericTableEmptyAvl σ))
  end.

Fixpoint serve_all (σ : avl_state V) (reqs : list request) : option (avl_state V * list reply) :=
  match reqs with
  | [] => Some (σ, [])
  | req :: reqs' =>
      '(σ1, rep) ← serve σ req; '(σ2, reps) ← serve_all σ1 reqs'; Some (σ2, rep :: reps)
  end.

End Contract.
Arguments request : clear implicits.
Arguments reply : clear implicits.
Arguments ordered_set : clear implicits.

(** ** The simulation *)

Section Simulation.
Context {V : Type} (cmp : V -> V -> RTL_GENERIC_COMPARE_RESULTS) `{!CompareOrder cmp}.
Context (h : Z) (F : nodes) `{!AvlAllocator V}.

Definition cursor_at (key : Z) (E : list (Z * V)) (c : option V) : Prop :=
  match c with
  | None => key = 0 \/ key = h
  | Some v => (key, v) ∈ E
  end.

Definition represents (σ : avl_state V) (s : ordered_set V) : Prop :=
  exists E, avl_table cmp h F σ E /\ elems s = E.*2 /\ cursor_at (RestartKey (Table σ)) E (cursor s).

Lemma values_mid (pre post : list (Z * V)) x v : (pre ++ (x, v) :: post).*2 = pre.*2 ++ v :: post.*2.
Proof. by rewrite fmap_app. Qed.

Lemma lookup_end_find E B e : StronglySorted (less cmp) E.*2 -> lookup_end cmp B E e ->
  find_equal cmp B E.*2 = snd <$> e.
Proof.
  intros Hs [pre x v post -> Hv|pre post -> Hp Hq]; rewrite fmap_app in *.
  - exact (proj1 (present_split cmp B v pre.*2 post.*2 Hs Hv)).
  - exact (proj1 (absent_split cmp B pre.*2 post.*2 Hp Hq)).
Qed.

Lemma table_sorted σ E : avl_table cmp h F σ E -> StronglySorted (less cmp) E.*2.
Proof. intros (t & b0 & H). apply (at_sorted _ _ _ _ _ _ _ H). Qed.

Lemma table_data σ E a v : avl_table cmp h F σ E -> (a, v) ∈ E -> UserData σ !! a = Some v.
Proof.
  intros (t & b0 & H) Hin. pose proof (at_data _ _ _ _ _ _ _ H) as D. rewrite Forall_forall in D. by apply (D (a, v)).
Qed.

(** Addresses and equal values single out the same entry. *)
Lemma entry_same σ E pre x v post B k w :
  avl_table cmp h F σ E -> E = pre ++ (x, v) :: post -> cmp B v = GenericEqual -> (k, w) ∈ E ->
  (x = k <-> cmp B w = GenericEqual).
Proof.
  intros Ht HE Hv Hk. split.
  - intros ->. pose proof (table_data _ _ _ _ Ht Hk) as D1.
    rewrite (table_data _ _ k v Ht) in D1 by (rewrite HE; set_solver). congruence.
  - intros Hw. pose proof (table_sorted _ _ Ht) as S. rewrite HE, fmap_app in S.
    destruct (sorted_apart cmp B v _ _ S Hv) as [H1 H2]. rewrite Forall_forall in H1, H2.
    rewrite HE in Hk. apply elem_of_app in Hk as [Hk | [[= -> ->] | Hk]%elem_of_cons]; [|done|].
    + specialize (H1 w (list_elem_of_fmap_2 snd _ _ Hk)). unfold greater in H1. congruence.
    + specialize (H2 w (list_elem_of_fmap_2 snd _ _ Hk)). unfold less in H2. congruence.
Qed.

Lemma contents_entry σ E e : avl_table cmp h F σ E -> (forall x, e = Some x -> x ∈ E) ->
  contents σ (fst <$> e) = Some (snd <$> e).
Proof.
  intros Ht He. destruct e as [[a v]|]; [|done]. simpl. by rewrite (table_data _ _ a v Ht) by auto.
Qed.

Lemma lookup_end_in B E e x : lookup_end cmp B E e -> e = Some x -> x ∈ E.
Proof. intros [pre y v post -> _|] [= <-]. set_solver. Qed.

Definition simulates (σ : avl_state V) (s : ordered_set V) (req : request V) : Prop :=
  exists σ' rep s', serve cmp h σ req = Some (σ', rep) /\ permits cmp s req rep s' /\ represents σ' s'.

Lemma serve_insert σ s B : represents σ s -> Z.of_nat (length (elems s)) + 1 < 2 ^ 32 -> simulates σ s (Insert B).
Proof.
  intros (E & Ht & Hs & Hc) Hn. rewrite Hs, length_fmap in Hn. unfold simulates, serve.
  pose proof (table_sorted _ _ Ht) as S.
  destruct (table_insert cmp h F σ E B Ht Hn) as [(pre & x & v & post & HE & Hv & ->)|(pre & post & HE & Hp & Hq & Hi)].
  - cbn [mbind option_bind contents]. rewrite (table_data _ _ x v Ht) by (rewrite HE; set_solver).
    cbn [mbind option_bind]. eexists _, _, s. split; [done|]. split; [|by exists E].
    apply permits_present. rewrite Hs. apply (lookup_end_find E B (Some (x, v)) S). by eapply lookup_found.
  - assert (find_equal cmp B (elems s) = None) as Hf.
    { rewrite Hs. apply (lookup_end_find E B None S). by eapply lookup_absent. }
    destruct (avl_allocate σ) as [x|].
    + destruct Hi as (σ' & -> & Ht' & Hk & Hd). cbn [mbind option_bind contents].
      rewrite Hd, lookup_insert_eq. cbn [mbind option_bind]. eexists _, _, _. split; [done|]. split; [by apply permits_new|].
      exists (pre ++ (x, B) :: post). split; [done|]. simpl. split.
      * rewrite Hs, HE, !fmap_app. by apply insert_sorted_split.
      * rewrite Hk. destruct (cursor s); simpl in *; [|done]. rewrite HE in Hc. set_solver.
    + rewrite Hi. cbn [mbind option_bind contents]. eexists _, _, s. split; [done|]. split; [by apply permits_no_memory|by exists E].
Qed.

Lemma serve_lookup σ s B : represents σ s -> simulates σ s (Lookup B).
Proof.
  intros (E & Ht & Hs & Hc). unfold simulates, serve.
  destruct (table_lookup cmp h F σ E B Ht) as (e & -> & He). cbn [mbind option_bind].
  rewrite (contents_entry _ _ e Ht) by (intros x; by apply lookup_end_in with (B := B)). cbn [mbind option_bind].
  rewrite <- (lookup_end_find E B e (table_sorted _ _ Ht) He), <- Hs.
  eexists _, _, s. split; [done|]. split; [constructor|by exists E].
Qed.

Lemma serve_first σ s B : represents σ s -> simulates σ s (FirstMatching B).
Proof.
  intros (E & Ht & Hs & Hc). unfold simulates, serve.
  destruct (table_first_match cmp h F σ E B Ht) as (e & -> & He). cbn [mbind option_bind].
  rewrite (contents_entry _ _ e Ht) by (intros x; by apply lookup_end_in with (B := B)). cbn [mbind option_bind].
  rewrite <- (lookup_end_find E B e (table_sorted _ _ Ht) He), <- Hs.
  eexists _, _, s. split; [done|]. split; [constructor|by exists E].
Qed.

Lemma filter_greater B v pre post :
  StronglySorted (less cmp) (pre ++ v :: post) -> cmp B v = GenericEqual ->
  filter (fun v => cmp B v = GenericGreaterThan) (pre ++ v :: post) = pre.
Proof.
  intros S Hv. destruct (sorted_apart cmp B v pre post S Hv) as [H1 H2].
  rewrite filter_app, filter_all by done. rewrite filter_cons_False by (by rewrite Hv).
  rewrite filter_none, app_nil_r; [done|]. eapply Forall_impl; [done|]. unfold less. simpl. congruence.
Qed.

Lemma serve_delete σ s B : represents σ s -> simulates σ s (Delete B).
Proof.
  intros (E & Ht & Hs & Hc). unfold simulates, serve. pose proof (table_sorted _ _ Ht) as S.
  destruct (table_delete cmp h F σ E B Ht)
    as [(pre & x & v & post & σ' & HE & Hv & -> & Ht' & _ & Hk)|(pre & post & HE & Hp & Hq & ->)];
    cbn [mbind option_bind]; eexists _, _, _; (split; [done|]).
  - rewrite HE, values_mid in S. destruct (present_split cmp B v _ _ S Hv) as [F1 F2].
    split.
    + replace true with (bool_decide (is_Some (find_equal cmp B (elems s)))); [constructor|].
      by rewrite Hs, HE, values_mid, F1.
    + exists (pre ++ post). split; [done|]. simpl. split; [by rewrite Hs, HE, values_mid, fmap_app|].
      rewrite Hk. destruct (cursor s) as [k|]; simpl in *.
      * pose proof (entry_same σ E pre x v post B _ _ Ht HE Hv Hc) as Hx. case_bool_decide as Hb.
        -- rewrite (proj2 (Z.eqb_eq _ _)) by tauto. rewrite Hs, HE, values_mid, (filter_greater B v) by done. unfold previous. rewrite fmap_last.
           destruct (last pre) as [[a w]|] eqn:El; simpl; [|by right].
           apply last_Some in El as [l ->]. set_solver.
        -- rewrite (proj2 (Z.eqb_neq _ _)) by tauto. rewrite HE in Hc.
           assert (RestartKey (Table σ) <> x) as N by (intros N; apply Hb, Hx; done). set_solver.
      * rewrite (proj2 (Z.eqb_neq _ _)); [done|]. intros Hx. rewrite <- Hx in Hc.
        destruct Ht as (t & b0 & H). destruct (table_nodup _ _ _ _ _ _ _ H) as (_ & N1 & N2 & _).
        rewrite HE, fmap_app in N1, N2. destruct Hc as [-> | ->]; [apply N2|apply N1]; set_solver.
  - rewrite HE, fmap_app in S. destruct (absent_split cmp B _ _ Hp Hq) as [F1 F2]. split.
    + replace false with (bool_decide (is_Some (find_equal cmp B (elems s)))); [constructor|].
      rewrite Hs, HE, fmap_app, F1. by apply bool_decide_false; intros [? ?].
    + exists E. split; [done|]. simpl. split; [by rewrite Hs, HE, !fmap_app|].
      destruct (cursor s) as [k|]; simpl in *; [|done]. rewrite bool_decide_false; [done|].
      pose proof (apart_split cmp B _ _ Hp Hq) as Ha. rewrite Forall_forall in Ha. apply Ha.
      rewrite <- fmap_app, <- HE. by apply (list_elem_of_fmap_2 snd _ _ Hc).
Qed.

Lemma next_value_entry σ E key c : avl_table cmp h F σ E -> cursor_at key E c ->
  next_value cmp c E.*2 = snd <$> next_entry h key E.
Proof.
  intros Ht Hc. destruct c as [k|]; simpl in *.
  - apply list_elem_of_split in Hc as (pre & post & HE). destruct Ht as (t & b0 & H).
    rewrite (proj2 (next_run cmp h F σ E t b0 pre key k post H HE)).
    pose proof (at_sorted _ _ _ _ _ _ _ H) as S. rewrite HE, values_mid in *.
    destruct (sorted_apart cmp k k _ _ S (cmp_refl cmp k)) as [H1 H2].
    rewrite filter_app, filter_none, filter_cons_False.
    + rewrite filter_all by done. by destruct post.
    + rewrite (cmp_refl cmp). done.
    + eapply Forall_impl; [done|]. unfold greater. simpl. congruence.
  - unfold next_entry. rewrite bool_decide_true by done. by destruct E.
Qed.

Lemma next_entry_in key (E : list (Z * V)) e : next_entry h key E = Some e -> e ∈ E.
Proof.
  unfold next_entry. case_bool_decide.
  - destruct E; [done|]. intros [= ->]. left.
  - destruct (list_find _ E) as [[i y]|]; [|done]. apply list_elem_of_lookup_2.
Qed.

Lemma serve_enumerate σ s Restart : represents σ s -> simulates σ s (Enumerate Restart).
Proof.
  intros (E & Ht & Hs & Hc). unfold simulates, serve, RtlEnumerateGenericTableAvl.
  set (c := if Restart then None else cursor s). set (key := if Restart then 0 else RestartKey (Table σ)).
  assert (cursor_at key E c) as Hk by (destruct Restart; [by left|done]).
  rewrite (table_enumerate cmp h F σ E key Ht).
  2:{ destruct c as [k|]; simpl in Hk; [|tauto]. right. right. by apply (list_elem_of_fmap_2 fst _ _ Hk). }
  cbn [mbind option_bind]. set (σ' := mkState _ _ _).
  assert (avl_table cmp h F σ' E) as Ht' by (destruct Ht as (t & b0 & []); by exists t, b0).
  rewrite (contents_entry σ' E (next_entry h key E) Ht') by (intros x; apply next_entry_in).
  cbn [mbind option_bind]. eexists _, _, _. split; [done|]. split.
  - eapply (permits_enumerate cmp s Restart c); [done|]. by rewrite Hs, (next_value_entry σ E key c).
  - exists E. split; [done|]. split; [done|]. simpl.
    destruct (next_entry h key E) as [[a v]|] eqn:En; simpl; [|done]. by apply next_entry_in in En.
Qed.

Lemma serve_counts σ s req : represents σ s -> req = Number \/ req = IsEmpty -> simulates σ s req.
Proof.
  intros (E & Ht & Hs & Hc). pose proof Ht as (t & b0 & H). pose proof (at_count _ _ _ _ _ _ _ H) as Hn.
  intros [-> | ->]; eexists _, _, s; (split; [done|]); (split; [|by exists E]).
  - unfold RtlNumberGenericTableElementsAvl. rewrite Hn, <- (length_fmap snd E), <- Hs. constructor.
  - unfold RtlIsGenericTableEmptyAvl. rewrite Hn.
    replace (Z.of_nat (length E) =? 0) with (bool_decide (elems s = [])); [constructor|].
    rewrite Hs. destruct E; [done|]. rewrite bool_decide_false by done. symmetry. apply Z.eqb_neq. simpl. lia.
Qed.

Lemma serve_one σ s req : represents σ s -> Z.of_nat (length (elems s)) + 1 < 2 ^ 32 -> simulates σ s req.
Proof.
  intros H Hn. destruct req; auto using serve_insert, serve_lookup, serve_first, serve_delete, serve_enumerate, serve_counts.
Qed.

Lemma permits_length s req rep s' : permits cmp s req rep s' -> (length (elems s') <= S (length (elems s)))%nat.
Proof.
  intros []; simpl; try lia.
  - generalize (elems s). intros l. induction l as [|v l IH]; simpl; [done|]. case_bool_decide; simpl; lia.
  - unfold remove_equal. pose proof (length_filter (fun v => cmp B v <> GenericEqual) (elems s)). lia.
Qed.

Lemma serve_run reqs σ s :
  represents σ s -> Z.of_nat (length (elems s) + length reqs) < 2 ^ 32 ->
  exists σ' reps s', serve_all cmp h σ reqs = Some (σ', reps) /\ trace cmp s reqs reps s' /\ represents σ' s'.
Proof.
  revert σ s. induction reqs as [|req reqs IH]; intros σ s H Hn; simpl in Hn.
  - eexists _, _, s. split; [done|]. split; [constructor|done].
  - destruct (serve_one σ s req H) as (σ1 & rep & s1 & E1 & P1 & H1); [lia|].
    pose proof (permits_length _ _ _ _ P1) as Hl.
    destruct (IH σ1 s1 H1) as (σ2 & reps & s2 & E2 & T2 & H2); [lia|].
    exists σ2, (rep :: reps), s2. simpl. rewrite E1. cbn [mbind option_bind]. rewrite E2.
    split; [done|]. split; [by econstructor|done].
Qed.
End Simulation.

(** ** Depth *)

Lemma balanced_size t : balanced t -> 2 ^ height t <= (Z.of_nat (length (addrs t)) + 1) ^ 2.
Proof.
  induction t as [|l IHl a b r IHr]; intros Hb; [done|].
  simpl in Hb. destruct Hb as (Bl & Br & Hh & Hr). specialize (IHl Bl). specialize (IHr Br).
  pose proof (height_nonneg l) as Nl. pose proof (height_nonneg r) as Nr.
  cbn [height addrs]. rewrite length_app, length_cons.
  set (A := Z.of_nat (length (addrs l)) + 1) in *. set (B := Z.of_nat (length (addrs r)) + 1) in *.
  replace (Z.of_nat (length (addrs l) + S (length (addrs r))) + 1) with (A + B) by (subst A B; lia).
  assert (1 <= A /\ 1 <= B) as [HA HB] by (subst A B; lia). clearbody A B.
  assert (forall k, 0 <= k -> 2 ^ (k + 1) = 2 * 2 ^ k) as H2 by (intros k Hk; rewrite Z.pow_add_r; lia).
  assert (exists k, 0 <= k /\ (height l = k /\ height r = k \/ height l = k + 1 /\ height r = k \/ height l = k /\ height r = k + 1))
    as (k & Hk & Hc) by (exists (Z.min (height l) (height r)); lia).
  pose proof (Z.pow_pos_nonneg 2 k ltac:(lia) Hk) as Hx.
  replace (1 + Z.max (height l) (height r))
    with (if bool_decide (height l = height r) then k + 1 else k + 1 + 1) by (case_bool_decide; lia).
  destruct Hc as [[E1 E2] | [[E1 E2] | [E1 E2]]]; rewrite E1, E2 in *; case_bool_decide; try lia;
    rewrite ?H2 in * by lia; set (x := 2 ^ k) in *; clearbody x; nia.
Qed.

Section Claims.
Context {V : Type} (cmp : V -> V -> RTL_GENERIC_COMPARE_RESULTS) `{!CompareOrder cmp}.
Context (h : Z) (F : nodes).

Lemma FindNodeLoop_mono f g m data B x r : (f <= g)%nat ->
  FindNodeLoop cmp f m data B x = Some r -> FindNodeLoop cmp g m data B x = Some r.
Proof.
  revert g x. induction f as [|f IH]; intros [|g] x Hg; simpl; [done|done|lia|].
  destruct (data !! x) as [v|]; [|done]. cbn [mbind option_bind].
  destruct (cmp B v); [destruct (RtlLeftChild m x) as [y|]|destruct (RtlRightChild m x) as [y|]|done]; try done;
    cbn [mbind option_bind]; destruct (y =? 0); simpl; (done || apply IH; lia).
Qed.

Lemma table_depth σ E t b0 : table_at cmp h F σ E t b0 -> height t <= Z.log2 ((Z.of_nat (length E) + 1) ^ 2).
Proof.
  intros H. pose proof (balanced_size t (at_bal _ _ _ _ _ _ _ H)) as Hb.
  rewrite (at_addrs _ _ _ _ _ _ _ H), length_fmap in Hb.
  apply Z.log2_le_pow2; [nia|done].
Qed.

(** C21: In a table of [n] elements a search calls the compare routine at most
    [2 * log2 (n + 1)] times, and that is the search every operation starts with. *)
Theorem avl_search_logarithmic σ E B : avl_table cmp h F σ E -> E <> [] ->
  exists Root Result Node, RtlRightChild (Nodes σ) h = Some Root /\
    FindNodeLoop cmp (Z.to_nat (Z.log2 ((RtlNumberGenericTableElementsAvl σ + 1) ^ 2)))
      (Nodes σ) (UserData σ) B Root = Some (Result, Node) /\
    RtlpFindAvlTableNodeOrParent cmp h σ B = Some (Result, Some Node).
Proof.
  intros (t & b0 & H) He. exists (ptr t).
  assert (t <> Leaf) as Ht by (intros Ht; by apply (table_empty _ _ _ _ _ _ _ H) in Ht).
  pose proof (head_right _ _ _ _ _ _ (at_tree _ _ _ _ _ _ _ H)) as Hr.
  unfold RtlNumberGenericTableElementsAvl, RtlpFindAvlTableNodeOrParent. rewrite (at_count _ _ _ _ _ _ _ H), Hr.
  rewrite (proj2 (Z.eqb_neq _ 0)) by (destruct E; simpl; [done|lia]).
  pose proof (table_depth _ _ _ _ H) as Hd.
  set (fuel := Z.to_nat (Z.log2 ((Z.of_nat (length E) + 1) ^ 2))).
  destruct (find_run cmp h (Nodes σ) (UserData σ) B E (at_data _ _ _ _ _ _ _ H) (at_sorted _ _ _ _ _ _ _ H)
    _ (avl_navigable h F [] (Nodes σ)) (Nat.min fuel (path_fuel (Nodes σ))) t (Root b0) (at_tree _ _ _ _ _ _ _ H) Ht) as (res & x & Hf & _).
  - apply (at_addrs _ _ _ _ _ _ _ H).
  - pose proof (table_height _ _ _ _ _ _ _ H). pose proof (table_path _ _ _ _ _ _ _ H). lia.
  - intros e _ Hin. by apply not_elem_of_nil in Hin.
  - intros e _ Hin. by apply not_elem_of_nil in Hin.
  - exists res, x. split; [done|]. split.
    + eapply FindNodeLoop_mono; [|done]. lia.
    + cbn [mbind option_bind]. erewrite FindNodeLoop_mono; [|..|exact Hf]; [done|lia].
Qed.

(** A client's loop over the whole table: one call that restarts, then calls until NULL. *)
Fixpoint EnumerateAll (fuel : nat) (σ : avl_state V) (Restart : bool) : option (list Z * avl_state V) :=
  match fuel with
  | O => None
  | S fuel' =>
      '(p, σ') ← RtlEnumerateGenericTableAvl h σ Restart;
      match p with
      | None => Some ([], σ')
      | Some a => '(l, σ'') ← EnumerateAll fuel' σ' false; Some (a :: l, σ'')
      end
  end.

Definition set_restart (σ : avl_state V) (key : Z) : avl_state V :=
  let T := Table σ in
  mkState (Nodes σ) (UserData σ)
    (mkTable (OrderedPointer T) (WhichOrderedElement T) (NumberGenericTableElements T) (DepthOfTree T) key (DeleteCount T)).

Lemma enumerate_run σ E (Restart : bool) : avl_table cmp h F σ E ->
  let key := if Restart then 0 else RestartKey (Table σ) in
  key = 0 \/ key = h \/ key ∈ E.*1 ->
  RtlEnumerateGenericTableAvl h σ Restart =
    Some (fst <$> next_entry h key E, set_restart σ (default key (fst <$> next_entry h key E))).
Proof.
  intros Ht key Hk. unfold RtlEnumerateGenericTableAvl. fold key.
  by rewrite (table_enumerate cmp h F σ E key Ht Hk).
Qed.

Lemma enumerate_step fuel σ E (Restart : bool) : avl_table cmp h F σ E ->
  let key := if Restart then 0 else RestartKey (Table σ) in
  key = 0 \/ key = h \/ key ∈ E.*1 ->
  EnumerateAll (S fuel) σ Restart =
    match next_entry h key E with
    | None => Some ([], set_restart σ key)
    | Some e => '(l, σ') ← EnumerateAll fuel (set_restart σ e.1) false; Some (e.1 :: l, σ')
    end.
Proof.
  intros Ht key Hk. cbn [EnumerateAll]. rewrite (enumerate_run σ E Restart Ht Hk). fold key.
  by destruct (next_entry h key E).
Qed.

Lemma set_restart_table σ E key : avl_table cmp h F σ E -> avl_table cmp h F (set_restart σ key) E.
Proof. intros (t & b0 & []). by exists t, b0. Qed.

Lemma enumerate_rest post σ pre x v :
  avl_table cmp h F σ (pre ++ (x, v) :: post) -> RestartKey (Table σ) = x ->
  exists σ', EnumerateAll (S (length post)) σ false = Some (post.*1, σ') /\
    Nodes σ' = Nodes σ /\ UserData σ' = UserData σ.
Proof.
  revert σ pre x v. induction post as [|[y w] post IH]; intros σ pre x v Ht Hk; pose proof Ht as (t & b0 & H);
    (rewrite (enumerate_step _ σ _ false Ht); [|rewrite Hk, fmap_app; set_solver]);
    rewrite Hk, (proj2 (next_run cmp h F σ _ t b0 pre x v _ H eq_refl)).
  - by eexists.
  - destruct (IH (set_restart σ y) (pre ++ [(x, v)]) y w) as (σ' & E1 & E2 & E3); [|done|].
    + rewrite <- app_assoc. by apply set_restart_table.
    + exists σ'. cbn [head length fst]. by rewrite E1.
Qed.

(** C22: Enumerating a table of [n] elements returns each of them once, in order, and then NULL:
    the client's loop ends after [n + 1] calls, which change neither the tree nor the data. *)
Theorem avl_enumeration_complete σ E : avl_table cmp h F σ E ->
  exists σ', EnumerateAll (S (length E)) σ true = Some (E.*1, σ') /\
    StronglySorted (less cmp) E.*2 /\ Nodes σ' = Nodes σ /\ UserData σ' = UserData σ.
Proof.
  intros Ht. pose proof (table_sorted _ _ _ _ _ Ht) as S. rewrite (enumerate_step _ σ E true Ht) by auto.
  unfold next_entry. rewrite bool_decide_true by auto. destruct E as [|[x v] E]; [by eexists|].
  destruct (enumerate_rest E (set_restart σ x) [] x v (set_restart_table _ _ _ Ht) eq_refl) as (σ' & E1 & E2 & E3).
  exists σ'. cbn [head length fst]. by rewrite E1.
Qed.

(** C8: Storing a record at the empty place [c] of an AVL tree: the operation succeeds, the
    record comes between those on its left and those on its right, every balance is again
    the difference of the heights and within one, the depth and the count are updated, and
    no record outside the tree changes. *)
Theorem avl_insert_node c x n m T :
  at_ctx F h Leaf c [(x, n)] m -> balanced (plug Leaf c) -> DepthOfTree T = height (plug Leaf c) ->
  height (plug Leaf c) < 2 ^ 32 - 1 ->
  exists m' b0 t, RtlpInsertAvlTreeNode h m T x (top h c) (search_of c)
      = Some (m', mkTable (OrderedPointer T) (WhichOrderedElement T)
                    (u32 (NumberGenericTableElements T + 1)) (height t) (RestartKey T) (DeleteCount T)) /\
    at_ctx F h t (Root b0) [] m' /\ balanced t /\ addrs t = reverse (beyond L c) ++ x :: beyond R c.
Proof.
  intros Ho Hb Hd Hh. apply balanced_plug in Hb as [_ Hb]. pose proof (height_nonneg (plug Leaf c)) as H0.
  rewrite height_plug in Hd, Hh, H0. by apply (insert_node_run F h c x n [] m T).
Qed.

(** C7: Unlinking the record [x], wherever it is in an AVL tree: the operation succeeds, exactly
    [x] leaves the sequence of the records, every balance is again the difference of the
    heights and within one, the new depth is the height of the tree, and no record outside
    the tree changes. *)
Theorem avl_delete_node l x b r c m :
  at_ctx F h (Branch l x b r) c [] m -> balanced (plug (Branch l x b r) c) ->
  height (plug (Branch l x b r) c) < 2 ^ 32 ->
  exists m' b0 t n, RtlpDeleteAvlTreeNode h m (height (plug (Branch l x b r) c)) x = Some (m', height t) /\
    at_ctx F h t (Root b0) [(x, n)] m' /\ balanced t /\
    addrs t = reverse (beyond L c) ++ (addrs l ++ addrs r) ++ beyond R c.
Proof. intros Ho Hb Hh. by apply (delete_node_run F h l x b r c [] m). Qed.

Context `{!AvlAllocator V}.

(** C1: Any sequence of calls on a table that was just initialised succeeds and gives answers
    that the ordered set permits: insertion, search, deletion and enumeration behave as on a
    sorted list, whatever the interleaving and whichever allocations fail. *)
Theorem avl_table_refines_set σ n reqs :
  owns F [(h, n)] (Nodes σ) -> Z.of_nat (length reqs) < 2 ^ 32 ->
  exists σ0 σ' reps s', RtlInitializeGenericTableAvl h σ = Some σ0 /\
    serve_all cmp h σ0 reqs = Some (σ', reps) /\ trace cmp (mkSet [] None) reqs reps s' /\
    represents cmp h F σ' s'.
Proof.
  intros Ho Hn. destruct (table_initialize cmp h F σ n Ho) as (σ0 & E0 & Ht & Hk & _).
  destruct (serve_run cmp h F reqs σ0 (mkSet [] None)) as (σ' & reps & s' & E1 & T1 & H1); [|done|].
  - exists []. split; [done|]. split; [done|]. by left.
  - by exists σ0, σ', reps, s'.
Qed.

(** In every state that calls can reach, the records are an AVL tree whose height is
    [DepthOfTree] and whose size is [NumberGenericTableElements], with the user data of its
    records in strictly increasing order. *)
Theorem avl_invariant_reachable σ n σ0 reqs σ' reps :
  owns F [(h, n)] (Nodes σ) -> Z.of_nat (length reqs) < 2 ^ 32 ->
  RtlInitializeGenericTableAvl h σ = Some σ0 -> serve_all cmp h σ0 reqs = Some (σ', reps) ->
  exists t b0 vs, at_ctx F h t (Root b0) [] (Nodes σ') /\ balanced t /\
    DepthOfTree (Table σ') = height t /\ NumberGenericTableElements (Table σ') = Z.of_nat (length (addrs t)) /\
    mapM (fun a => UserData σ' !! a) (addrs t) = Some vs /\ StronglySorted (less cmp) vs.
Proof.
  intros Ho Hn E0 E1. destruct (table_initialize cmp h F σ n Ho) as (σ1 & E0' & Ht & Hk & _).
  rewrite E0 in E0'. injection E0' as <-.
  destruct (serve_run cmp h F reqs σ0 (mkSet [] None)) as (σ2 & reps' & s' & E1' & _ & (E & (t & b0 & H) & _)); [|done|].
  - exists []. split; [done|]. split; [done|]. by left.
  - rewrite E1 in E1'. injection E1' as <- <-. exists t, b0, E.*2.
    destruct H as [H1 H2 H3 H4 H5 H6 H7 H8]. rewrite H3, length_fmap. do 4 (split; [done|]). split; [|done].
    apply mapM_Some. clear -H4. induction H4 as [|e E Hv _ IH]; simpl; by constructor.
Qed.
End Claims.

(** ** A table of integers *)

Module Example.

Definition compare_integers (a b : Z) : RTL_GENERIC_COMPARE_RESULTS :=
  match a ?= b with Lt => GenericLessThan | Gt => GenericGreaterThan | Eq => GenericEqual end.

#[export] Instance integers_order : CompareOrder compare_integers.
Proof.
  unfold compare_integers. constructor.
  - intros a b. rewrite (Z.compare_antisym a b). by destruct (a ?= b).
  - intros a b c. destruct (Z.compare_spec a b), (Z.compare_spec b c), (Z.compare_spec a c); done || lia.
  - intros a b c. destruct (Z.compare_spec a b); try done. by subst.
Qed.

(** Eight blocks; an allocation fails when all are in use. *)
Definition pool : list Z := [16; 48; 80; 112; 144; 176; 208; 240].

Definition pool_allocate (σ : avl_state Z) : option Z :=
  head (filter (fun a => Nodes σ !! a = None /\ UserData σ !! a = None) pool).

#[export] Instance pool_allocator : AvlAllocator Z.
Proof.
  refine {| avl_allocate := pool_allocate |}. unfold pool_allocate. intros σ a H.
  assert (a ∈ filter (fun a => Nodes σ !! a = None /\ UserData σ !! a = None) pool) as Ha.
  { destruct (filter _ pool); [done|]. injection H as ->. left. }
  apply list_elem_of_filter in Ha as [[H1 H2] Ha]. split; [|done].
  assert (Forall (fun a => a <> 0) pool) as Hp by (by repeat constructor). rewrite Forall_forall in Hp. by apply Hp.
Defined.

Definition start : avl_state Z := mkState {[ 1000 := mkLinks 0 0 0 0 ]} ∅ (mkTable 0 0 0 0 0 0).

Definition calls : list (request Z) :=
  [Insert 5; Insert 9; Insert 7; Insert 1; Insert 3; Insert 7; Enumerate true; Enumerate false;
   Delete 3; Enumerate false; Lookup 9; Lookup 4; Delete 5; FirstMatching 7; Number; IsEmpty].

(** The store whose records are those of a tree and others. *)
Definition store_of (t : tree) (c : ctx) (G : list cell) : nodes :=
  list_to_map (cells (top 1000 c) t ++ ccells 1000 (ptr t) c ++ G).

Lemma store_owned t c G :
  bool_decide (NoDup (cells (top 1000 c) t ++ ccells 1000 (ptr t) c ++ G).*1) = true ->
  bool_decide (0 ∉ (cells (top 1000 c) t ++ ccells 1000 (ptr t) c ++ G).*1) = true ->
  at_ctx ∅ 1000 t c G (store_of t c G).
Proof.
  intros H1 H2. apply bool_decide_eq_true in H1, H2. split; [done|done|apply map_disjoint_empty_r|].
  by rewrite map_union_empty.
Qed.

(** Four integers, in a tree of height three. *)
Definition four : tree :=
  Branch (Branch (Branch Leaf 16 0 Leaf) 48 (-1) Leaf) 80 (-1) (Branch Leaf 112 0 Leaf).
Definition four_entries : list (Z * Z) := [(16, 1); (48, 3); (80, 5); (112, 7)].
Definition four_state : avl_state Z :=
  mkState (store_of four (Root (-1)) []) (list_to_map four_entries) (mkTable 0 0 4 3 0 0).

Lemma four_table : avl_table compare_integers 1000 ∅ four_state four_entries.
Proof.
  exists four, (-1). constructor; try done.
  - by apply store_owned; vm_compute.
  - by repeat constructor.
  - by repeat constructor.
Qed.

Lemma avl_search_logarithmic_witness : exists Root Result Node,
  RtlRightChild (Nodes four_state) 1000 = Some Root /\
  FindNodeLoop compare_integers 4 (Nodes four_state) (UserData four_state) 7 Root = Some (Result, Node) /\
  RtlpFindAvlTableNodeOrParent compare_integers 1000 four_state 7 = Some (Result, Some Node).
Proof. apply (avl_search_logarithmic compare_integers 1000 ∅ four_state four_entries 7 four_table). done. Defined.

Lemma avl_enumeration_complete_witness : exists σ',
  EnumerateAll 1000 5 four_state true = Some ([16; 48; 80; 112], σ') /\
  StronglySorted (less compare_integers) [1; 3; 5; 7] /\ Nodes σ' = Nodes four_state /\
  UserData σ' = UserData four_state.
Proof. apply (avl_enumeration_complete compare_integers 1000 ∅ four_state four_entries four_table). Defined.

(** Storing a fifth record below the leaf at 16 makes two rotations necessary. *)
Definition left_place : ctx :=
  Frame R 16 0 Leaf (Frame L 48 (-1) Leaf (Frame L 80 (-1) (Branch Leaf 112 0 Leaf) (Root (-1)))).

Lemma avl_insert_node_witness : exists m' b0 t,
  RtlpInsertAvlTreeNode 1000 (store_of Leaf left_place [(144, mkLinks 0 0 0 0)]) (mkTable 0 0 4 3 0 0) 144 16 TableInsertAsRight
    = Some (m', mkTable 0 0 5 (height t) 0 0) /\
  at_ctx ∅ 1000 t (Root b0) [] m' /\ balanced t /\ addrs t = [16; 144; 48; 80; 112].
Proof.
  apply (avl_insert_node 1000 ∅ left_place 144 (mkLinks 0 0 0 0)
    (store_of Leaf left_place [(144, mkLinks 0 0 0 0)]) (mkTable 0 0 4 3 0 0)).
  - by apply store_owned; vm_compute.
  - simpl. repeat split; lia.
  - done.
  - done.
Defined.

(** Deleting the leaf at 112 leaves the root with a left subtree two higher. *)
Definition right_place : ctx := Frame R 80 (-1) (Branch (Branch Leaf 16 0 Leaf) 48 (-1) Leaf) (Root (-1)).

Lemma avl_delete_node_witness : exists m' b0 t n,
  RtlpDeleteAvlTreeNode 1000 (store_of (Branch Leaf 112 0 Leaf) right_place []) 3 112 = Some (m', height t) /\
  at_ctx ∅ 1000 t (Root b0) [(112, n)] m' /\ balanced t /\ addrs t = [16; 48; 80].
Proof.
  apply (avl_delete_node 1000 ∅ Leaf 112 0 Leaf right_place (store_of (Branch Leaf 112 0 Leaf) right_place [])).
  - by apply store_owned; vm_compute.
  - simpl. repeat split; lia.
  - done.
Defined.

Lemma start_owned : owns ∅ [(1000, mkLinks 0 0 0 0)] (Nodes start).
Proof.
  split; [by apply NoDup_singleton|set_solver|apply map_disjoint_empty_r|]. by rewrite map_union_empty.
Qed.

Lemma avl_table_refines_set_witness : exists σ0 σ' reps s',
  RtlInitializeGenericTableAvl 1000 start = Some σ0 /\
  serve_all compare_integers 1000 σ0 calls = Some (σ', reps) /\
  trace compare_integers (mkSet [] None) calls reps s' /\ represents compare_integers 1000 ∅ σ' s'.
Proof. apply (avl_table_refines_set compare_integers 1000 ∅ start _ calls start_owned). done. Defined.

Definition initialised : avl_state Z := default start (RtlInitializeGenericTableAvl 1000 start).
Definition served : avl_state Z * list (reply Z) :=
  default (start, []) (serve_all compare_integers 1000 initialised calls).

Lemma avl_invariant_reachable_witness : exists t b0 vs,
  at_ctx ∅ 1000 t (Root b0) [] (Nodes served.1) /\ balanced t /\
  DepthOfTree (Table served.1) = height t /\
  NumberGenericTableElements (Table served.1) = Z.of_nat (length (addrs t)) /\
  mapM (fun a => UserData served.1 !! a) (addrs t) = Some vs /\ StronglySorted (less compare_integers) vs.
Proof.
  apply (avl_invariant_reachable compare_integers 1000 ∅ start _ initialised calls served.1 served.2 start_owned).
  - done.
  - vm_compute. reflexivity.
  - vm_compute. reflexivity.
Defined.

End Example.
