(* ===== verification/Splay.v ===== *)
(** * Splay trees

    [sdk/lib/rtl/splaytree.c]. The root of a splay tree is its own parent. An
    [RTL_SPLAY_LINKS] is the first three fields of a record of [Tree]; the fourth stands for
    what the client keeps in the record, which no operation touches. *)

From stdpp Require Import base option gmap.
From Stdlib Require Import ZArith.
From S2P Require Import Prelude Tree.
Open Scope Z_scope.

(** ** Swapping two records *)

(** [*x = n] for an [RTL_SPLAY_LINKS]. *)
Definition store_links (m : nodes) (x : Z) (n : RTL_BALANCED_LINKS) : option nodes :=
  o ← m !! x;
  Some (<[x := mkLinks (Parent n) (LeftChild n) (RightChild n) (Balance o)]> m).

(** Inserting as the left or the right child. *)
Definition insert_as (left : bool) (m : nodes) (ParentLinks ChildLinks : Z) : option nodes :=
  if left then RtlInsertAsLeftChild m ParentLinks ChildLinks
  else RtlInsertAsRightChild m ParentLinks ChildLinks.

Definition FixupChildLinks (m : nodes) (Links : Z) (Root LeftChild : bool) : option nodes :=
  l ← RtlLeftChild m Links;
  m ← (if negb (l =? 0) then RtlInsertAsLeftChild m Links l else Some m);
  r ← RtlRightChild m Links;
  m ← (if negb (r =? 0) then RtlInsertAsRightChild m Links r else Some m);
  if negb Root then
    p ← RtlParent m Links;
    insert_as LeftChild m p Links
  else Some m.

(** The block of [SwapSplayLinks] after the exchange of its arguments. *)
Definition SwapLinks (m : nodes) (LinkA LinkB : Z) : option nodes :=
  Ta ← m !! LinkA;
  Tb ← m !! LinkB;
  RootA ← RtlIsRoot m LinkA;
  LeftA ← RtlIsLeftChild m LinkA;
  LeftB ← RtlIsLeftChild m LinkB;
  m ← store_links m LinkB Ta;
  m ← store_links m LinkA Tb;
  m ← (if Parent Tb =? LinkA then
         m ← (if negb RootA then insert_as LeftA m (Parent Ta) LinkB else Some m);
         insert_as LeftB m LinkB LinkA
       else Some m);
  m ← FixupChildLinks m LinkA false LeftB;
  m ← FixupChildLinks m LinkB RootA LeftA;
  if (RootA : bool) then set_parent m LinkB LinkB else Some m.

Definition SwapSplayLinks (m : nodes) (LinkA LinkB : Z) : option nodes :=
  p ← RtlParent m LinkA;
  exchange ← (if p =? LinkB then Some true else RtlIsRoot m LinkB);
  if (exchange : bool) then SwapLinks m LinkB LinkA else SwapLinks m LinkA LinkB.

(** ** Splaying *)

(** [if (child of x) RtlParent(child of x) = x]. *)
Definition Adopt (s : side) (m : nodes) (x : Z) : option nodes :=
  v ← child m (s, x);
  if negb (v =? 0) then set_parent m v x else Some m.

(** N takes the place of G. *)
Definition TakePlace (m : nodes) (N G : Z) : option nodes :=
  root ← RtlIsRoot m G;
  if (root : bool) then set_parent m N N else
  p ← RtlParent m G;
  m ← set_parent m N p;
  left ← RtlIsLeftChild m G;
  p ← RtlParent m G;
  if (left : bool) then set_left m p N else set_right m p N.

(** Case 1: N is the left child of P and P is the left child of G. *)
Definition SplayLeftLeft (m : nodes) (N P G : Z) : option nodes :=
  v ← RtlRightChild m N;
  m ← set_left m P v;
  v ← RtlRightChild m P;
  m ← set_left m G v;
  m ← Adopt L m P;
  m ← Adopt L m G;
  m ← TakePlace m N G;
  m ← set_right m N P;
  m ← set_parent m P N;
  m ← set_right m P G;
  set_parent m G P.

(** Case 3: N is the left child of P and P is the right child of G. *)
Definition SplayLeftRight (m : nodes) (N P G : Z) : option nodes :=
  v ← RtlLeftChild m N;
  m ← set_right m G v;
  v ← RtlRightChild m N;
  m ← set_left m P v;
  m ← Adopt R m G;
  m ← Adopt L m P;
  m ← TakePlace m N G;
  m ← set_left m N G;
  m ← set_parent m G N;
  m ← set_right m N P;
  set_parent m P N.

(** N is the left child of P, which is the root. *)
Definition SplayLeftRoot (m : nodes) (N P : Z) : option nodes :=
  v ← RtlRightChild m N;
  m ← set_left m P v;
  m ← Adopt L m P;
  m ← set_parent m N N;
  m ← set_right m N P;
  set_parent m P N.

(** Case 2: N is the right child of P and P is the right child of G. *)
Definition SplayRightRight (m : nodes) (N P G : Z) : option nodes :=
  v ← RtlLeftChild m P;
  m ← set_right m G v;
  v ← RtlLeftChild m N;
  m ← set_right m P v;
  m ← Adopt R m G;
  m ← Adopt R m P;
  m ← TakePlace m N G;
  m ← set_left m N P;
  m ← set_parent m P N;
  m ← set_left m P G;
  set_parent m G P.

(** Case 4: N is the right child of P and P is the left child of G. *)
Definition SplayRightLeft (m : nodes) (N P G : Z) : option nodes :=
  v ← RtlLeftChild m N;
  m ← set_right m P v;
  v ← RtlRightChild m N;
  m ← set_left m G v;
  m ← Adopt R m P;
  m ← Adopt L m G;
  m ← TakePlace m N G;
  m ← set_left m N P;
  m ← set_parent m G N;
  m ← set_right m N G;
  set_parent m P N.

(** N is the right child of P, which is the root. *)
Definition SplayRightRoot (m : nodes) (N P : Z) : option nodes :=
  v ← RtlLeftChild m N;
  m ← set_right m P v;
  m ← Adopt R m P;
  m ← set_parent m N N;
  m ← set_left m N P;
  set_parent m P N.

(** The body of the loop of [RtlSplay]. *)
Definition SplayStep (m : nodes) (N : Z) : option nodes :=
  P ← RtlParent m N;
  G ← RtlParent m P;
  left ← RtlIsLeftChild m N;
  if (left : bool) then
    pl ← RtlIsLeftChild m P;
    if (pl : bool) then SplayLeftLeft m N P G else
    pr ← RtlIsRightChild m P;
    if (pr : bool) then SplayLeftRight m N P G else SplayLeftRoot m N P
  else
    pr ← RtlIsRightChild m P;
    if (pr : bool) then SplayRightRight m N P G else
    pl ← RtlIsLeftChild m P;
    if (pl : bool) then SplayRightLeft m N P G else SplayRightRoot m N P.

Fixpoint SplayLoop (fuel : nat) (m : nodes) (N : Z) : option nodes :=
  root ← RtlIsRoot m N;
  if (root : bool) then Some m else
  match fuel with
  | O => None
  | S fuel' => m ← SplayStep m N; SplayLoop fuel' m N
  end.

(** The results are the new root and the records. *)
Definition RtlSplay (m : nodes) (Links : Z) : option (Z * nodes) :=
  m ← SplayLoop (path_fuel m) m Links;
  Some (Links, m).

(** ** Deleting *)

(** The predecessor in the left subtree takes the place of a record with two children. *)
Definition SwapWithPredecessor (m : nodes) (N : Z) : option (Z * nodes) :=
  l ← RtlLeftChild m N;
  r ← RtlRightChild m N;
  if negb (l =? 0) && negb (r =? 0) then
    SP ← RtlSubtreePredecessor m N;
    m' ← SwapSplayLinks m SP N;
    Some (SP, m')
  else Some (0, m).

(** The result is the root that is returned, NULL when the tree is gone. *)
Definition RtlDelete (m : nodes) (Links : Z) : option (Z * nodes) :=
  let N := Links in
  '(_, m) ← SwapWithPredecessor m N;
  l ← RtlLeftChild m N;
  r ← RtlRightChild m N;
  root ← RtlIsRoot m N;
  if (l =? 0) && (r =? 0) then
    if (root : bool) then Some (0, m) else
    P ← RtlParent m N;
    left ← RtlIsLeftChild m N;
    m ← (if (left : bool) then set_left m P 0 else set_right m P 0);
    RtlSplay m P
  else
    let C := if negb (l =? 0) then l else r in
    if root then m ← set_parent m C C; Some (C, m) else
    P ← RtlParent m N;
    left ← RtlIsLeftChild m N;
    m ← (if (left : bool) then set_left m P C else set_right m P C);
    m ← set_parent m C P;
    RtlSplay m P.

(** [Root] is the value of [*Root]; the results are its new value and the records. *)
Definition RtlDeleteNoSplay (m : nodes) (Links Root : Z) : option (Z * nodes) :=
  let N := Links in
  l ← RtlLeftChild m N;
  r ← RtlRightChild m N;
  wasroot ← RtlIsRoot m N;
  '(SP, m) ← SwapWithPredecessor m N;
  let Root := if negb (l =? 0) && negb (r =? 0) && wasroot then SP else Root in
  l ← RtlLeftChild m N;
  r ← RtlRightChild m N;
  root ← RtlIsRoot m N;
  if (l =? 0) && (r =? 0) then
    if (root : bool) then Some (0, m) else
    P ← RtlParent m N;
    left ← RtlIsLeftChild m N;
    m ← (if (left : bool) then set_left m P 0 else set_right m P 0);
    Some (Root, m)
  else
    let C := if negb (l =? 0) then l else r in
    if root then m ← set_parent m C C; Some (C, m) else
    P ← RtlParent m N;
    left ← RtlIsLeftChild m N;
    m ← (if (left : bool) then set_left m P C else set_right m P C);
    m ← set_parent m C P;
    Some (Root, m).
