(* ===== verification/SplayProps.v ===== *)
(** * Splay trees: properties

    Splaying brings a record to the root and keeps the order of the records; swapping two
    records exchanges their places; deleting removes exactly one record. *)

From Stdlib Require Import ZArith Lia Bool.
From stdpp Require Import base option list numbers gmap fin_maps list_tactics.
From S2P Require Import Prelude Tree Splay.
Open Scope Z_scope.

(** ** The cells of a splay tree *)

(** The root of a tree with the subtree at [x] in the context. *)
Fixpoint outermost (x : Z) (c : ctx) : Z :=
  match c with Root _ => x | Frame _ a _ _ c' => outermost a c' end.

(** The cells of a context below a record [p]. *)
Fixpoint rcells (p x : Z) (c : ctx) : list cell :=
  match c with
  | Root _ => []
  | Frame s a b u c' => (a, links s (top p c') x (ptr u) b) :: cells a u ++ rcells p a c'
  end.

Lemma cells_plug p t c : cells p (plug t c) ≡ₚ cells (top p c) t ++ rcells p (ptr t) c.
Proof.
  revert t. induction c as [b|s a b u c IH]; intros t; simpl; [by rewrite app_nil_r|].
  rewrite IH, cells_mk, ptr_mk. solve_Permutation.
Qed.

Lemma ptr_plug t c : ptr (plug t c) = outermost (ptr t) c.
Proof. revert t. induction c as [b|s a b u c IH]; intros t; simpl; [done|]. by rewrite IH, ptr_mk. Qed.

(** The cells of subtrees with given parents. *)
Definition forest (f : list (Z * tree)) : list cell := concat (map (fun '(p, t) => cells p t) f).

Lemma forest_mid f1 f2 p t : forest (f1 ++ (p, t) :: f2) ≡ₚ cells p t ++ forest f1 ++ forest f2.
Proof. unfold forest. rewrite map_app, concat_app. simpl. solve_Permutation. Qed.

(** ** Single accesses, in a list of cells that keeps its order *)

Section Runs.
Context {F : nodes}.

Lemma run_lookup l m x n : owns F l m -> (x, n) ∈ l -> m !! x = Some n.
Proof. apply owns_lookup. Qed.

Lemma run_store l1 l2 m x n n' : owns F (l1 ++ (x, n) :: l2) m -> owns F (l1 ++ (x, n') :: l2) (<[x := n']> m).
Proof.
  intros Ho. eapply owns_perm; [symmetry; apply Permutation_middle|done|]. apply owns_write with (n := n).
  eapply owns_perm; [apply Permutation_middle|done|done].
Qed.

Lemma run_set_left l1 l2 m x n v : owns F (l1 ++ (x, n) :: l2) m ->
  exists m', set_left m x v = Some m' /\
    owns F (l1 ++ (x, mkLinks (Parent n) v (RightChild n) (Balance n)) :: l2) m'.
Proof.
  intros Ho. unfold set_left. rewrite (owns_lookup _ _ _ x n Ho) by set_solver.
  eexists. split; [done|]. by eapply run_store.
Qed.

Lemma run_set_right l1 l2 m x n v : owns F (l1 ++ (x, n) :: l2) m ->
  exists m', set_right m x v = Some m' /\
    owns F (l1 ++ (x, mkLinks (Parent n) (LeftChild n) v (Balance n)) :: l2) m'.
Proof.
  intros Ho. unfold set_right. rewrite (owns_lookup _ _ _ x n Ho) by set_solver.
  eexists. split; [done|]. by eapply run_store.
Qed.

Lemma run_set_parent l1 l2 m x n v : owns F (l1 ++ (x, n) :: l2) m ->
  exists m', set_parent m x v = Some m' /\
    owns F (l1 ++ (x, mkLinks v (LeftChild n) (RightChild n) (Balance n)) :: l2) m'.
Proof.
  intros Ho. unfold set_parent. rewrite (owns_lookup _ _ _ x n Ho) by set_solver.
  eexists. split; [done|]. by eapply run_store.
Qed.

Lemma run_adopt s l1 l2 f1 f2 l3 m x n p t :
  owns F (l1 ++ (x, n) :: l2 ++ forest (f1 ++ (p, t) :: f2) ++ l3) m ->
  ptr t = match s with L => LeftChild n | R => RightChild n end ->
  exists m', Adopt s m x = Some m' /\ owns F (l1 ++ (x, n) :: l2 ++ forest (f1 ++ (x, t) :: f2) ++ l3) m'.
Proof.
  intros Ho Hn. unfold Adopt, child, RtlLeftChild, RtlRightChild. simpl.
  rewrite (owns_lookup _ _ _ x n Ho) by set_solver.
  destruct (reparent F _ m p x t (l1 ++ (x, n) :: l2 ++ (forest f1 ++ forest f2) ++ l3) Ho) as (m' & E & Ho').
  { rewrite forest_mid. solve_Permutation. }
  exists m'. split.
  - destruct s; simpl; by rewrite <- Hn.
  - eapply owns_perm; [|done|exact Ho']. rewrite forest_mid. solve_Permutation.
Qed.

(** Whether a record is a left or a right child, and whether it is the root. *)
Lemma run_is_child l m s x n p k :
  owns F l m -> (x, n) ∈ l -> Parent n = p -> (p, k) ∈ l ->
  is_child s m x = Some ((match s with L => LeftChild k | R => RightChild k end) =? x).
Proof.
  intros Ho Hx <- Hp. unfold is_child, RtlIsLeftChild, RtlIsRightChild, RtlParent, RtlLeftChild, RtlRightChild.
  rewrite (owns_lookup _ _ _ _ _ Ho Hx). simpl. rewrite (owns_lookup _ _ _ _ _ Ho Hp). by destruct s.
Qed.

Lemma run_is_root l m x n : owns F l m -> (x, n) ∈ l -> RtlIsRoot m x = Some (Parent n =? x).
Proof. intros Ho Hx. unfold RtlIsRoot, RtlParent. by rewrite (owns_lookup _ _ _ _ _ Ho Hx). Qed.

Lemma root_no_child l m s x u v b l' :
  owns F l m -> l ≡ₚ (x, mkLinks x (ptr u) (ptr v) b) :: cells x u ++ cells x v ++ l' -> is_child s m x = Some false.
Proof.
  intros Ho Hp. rewrite (run_is_child l m s x _ x _ Ho (ltac:(rewrite Hp; left)) eq_refl (ltac:(rewrite Hp; left))).
  f_equal. apply Z.eqb_neq. destruct s; simpl.
  - by apply (ptr_distinct F l m x u x (mkLinks x (ptr u) (ptr v) b) (cells x v ++ l') Ho).
  - apply (ptr_distinct F l m x v x (mkLinks x (ptr u) (ptr v) b) (cells x u ++ l') Ho).
    rewrite Hp. solve_Permutation.
Qed.

(** The same for a record below a frame. *)
Lemma frame_child l m t x n s a b u pa l' :
  owns F l m -> l ≡ₚ (x, n) :: (a, links s pa x (ptr u) b) :: cells a u ++ l' -> Parent n = a ->
  is_child t m x = Some (bool_decide (s = t)).
Proof.
  intros Ho Hp Hn.
  rewrite (run_is_child l m t x n a _ Ho (ltac:(rewrite Hp; left)) Hn (ltac:(rewrite Hp; right; left))).
  f_equal. assert (ptr u <> x) as Hu.
  { apply (ptr_distinct F l m a u x n ((a, links s pa x (ptr u) b) :: l') Ho). rewrite Hp. solve_Permutation. }
  apply Z.eqb_neq in Hu. destruct s, t; simpl; rewrite ?Z.eqb_refl, ?Hu; done.
Qed.

Lemma frame_not_root l m x n y k l' :
  owns F l m -> l ≡ₚ (x, n) :: (y, k) :: l' -> Parent n = y -> RtlIsRoot m x = Some false.
Proof.
  intros Ho Hp Hn. rewrite (run_is_root l m x n Ho) by (rewrite Hp; left). f_equal. apply Z.eqb_neq.
  rewrite Hn. intros ->. eapply (owns_distinct F l m (x, n) (x, k)); [done| |done]. by exists l'.
Qed.

(** Another record in the hole of a frame. *)
Lemma set_frame m s a b u pa x y l1 l2 :
  owns F (l1 ++ (a, links s pa x u b) :: l2) m ->
  exists m', (if bool_decide (s = L) then set_left m a y else set_right m a y) = Some m' /\
    owns F (l1 ++ (a, links s pa y u b) :: l2) m'.
Proof.
  intros Ho. destruct s; rewrite ?bool_decide_true, ?bool_decide_false by done.
  - apply (run_set_left _ _ _ _ _ y Ho).
  - apply (run_set_right _ _ _ _ _ y Ho).
Qed.
End Runs.

(** ** Splaying *)

(** Symbolic execution: [get lem x] reads a field of the record [x]; [put lem l1 v] writes the
    field of the record after [l1]; each names the new state and its cells [Ho]. *)
Ltac in_cells := first [left | right; in_cells].
Ltac fields := cbn [Parent LeftChild RightChild Balance mbind option_bind app].
Ltac fields_in H := cbn [Parent LeftChild RightChild Balance app] in H.

Section Read.
Context {F : nodes} {l : list cell} {m : nodes} (Ho : owns F l m).

Lemma read_p x p u v b : (x, mkLinks p u v b) ∈ l -> RtlParent m x = Some p.
Proof. intros H. unfold RtlParent. by rewrite (owns_lookup _ _ _ _ _ Ho H). Qed.
Lemma read_l x p u v b : (x, mkLinks p u v b) ∈ l -> RtlLeftChild m x = Some u.
Proof. intros H. unfold RtlLeftChild. by rewrite (owns_lookup _ _ _ _ _ Ho H). Qed.
Lemma read_r x p u v b : (x, mkLinks p u v b) ∈ l -> RtlRightChild m x = Some v.
Proof. intros H. unfold RtlRightChild. by rewrite (owns_lookup _ _ _ _ _ Ho H). Qed.
Lemma read_left x p u v b pp y z bp :
  (x, mkLinks p u v b) ∈ l -> (p, mkLinks pp y z bp) ∈ l -> RtlIsLeftChild m x = Some (y =? x).
Proof. intros H1 H2. exact (run_is_child l m L x _ p _ Ho H1 eq_refl H2). Qed.
End Read.

Ltac get lem x Ho := erewrite (lem _ _ _ Ho x) by in_cells; fields.
Tactic Notation "put" constr(lem) uconstr(l1) constr(v) hyp(Ho) :=
  let m' := fresh "m" in let E := fresh "E" in let Ho' := fresh "Ho" in
  destruct (lem _ l1 _ _ _ _ v Ho) as (m' & E & Ho'); rewrite E; clear E Ho; rename Ho' into Ho;
  fields_in Ho; fields.

(** The child on the side [s] of the record after [l1], the subtree after [f1] in the
    forest, gets that record as its parent. *)
Tactic Notation "adopt" constr(s) uconstr(l1) uconstr(l2) uconstr(f1) hyp(Ho) :=
  let m' := fresh "m" in let E := fresh "E" in let Ho' := fresh "Ho" in
  destruct (run_adopt s l1 l2 f1 _ _ _ _ _ _ _ Ho eq_refl) as (m' & E & Ho'); rewrite E; clear E Ho; rename Ho' into Ho;
  fields_in Ho; fields.

Section Steps.
Context (F : nodes).

Lemma take_place m N n G g c l' :
  owns F ((N, n) :: (G, g) :: rcells (outermost G c) G c ++ l') m -> Parent g = top (outermost G c) c ->
  exists m', TakePlace m N G = Some m' /\
    owns F ((N, mkLinks (top (outermost N c) c) (LeftChild n) (RightChild n) (Balance n))
              :: (G, g) :: rcells (outermost N c) N c ++ l') m'.
Proof.
  intros Ho Hg. unfold TakePlace. destruct c as [b|s a b u c]; simpl in *.
  - rewrite (run_is_root _ _ G g Ho) by in_cells. rewrite Hg, Z.eqb_refl. cbn [mbind option_bind].
    exact (run_set_parent [] _ _ _ _ N Ho).
  - set (ρ := outermost a c) in *.
    rewrite (frame_not_root _ m G g a (links s (top ρ c) G (ptr u) b) ((N, n) :: cells a u ++ rcells ρ a c ++ l') Ho)
      by (done || solve_Permutation).
    cbn [mbind option_bind]. rewrite (read_parent Ho G g) by in_cells. rewrite Hg. cbn [mbind option_bind].
    destruct (run_set_parent [] _ _ _ _ a Ho) as (m1 & -> & Ho1). cbn [mbind option_bind app] in *.
    pose proof (frame_child _ m1 L G g s a b u (top ρ c)
      ((N, mkLinks a (LeftChild n) (RightChild n) (Balance n)) :: rcells ρ a c ++ l') Ho1) as Hl.
    unfold is_child in Hl. rewrite Hl by (done || solve_Permutation). cbn [mbind option_bind].
    rewrite (read_parent Ho1 G g) by in_cells. rewrite Hg. cbn [mbind option_bind].
    by apply (set_frame m1 s a b (ptr u) (top ρ c) G N [_; _]).
Qed.

Lemma take_place_at m N n P p G g l1 c l2 :
  owns F ((N, n) :: (P, p) :: (G, g) :: l1 ++ rcells (outermost G c) G c ++ l2) m ->
  Parent g = top (outermost G c) c ->
  exists m', TakePlace m N G = Some m' /\
    owns F ((N, mkLinks (top (outermost N c) c) (LeftChild n) (RightChild n) (Balance n))
              :: (P, p) :: (G, g) :: l1 ++ rcells (outermost N c) N c ++ l2) m'.
Proof.
  intros Ho Hg. destruct (take_place m N n G g c ((P, p) :: l1 ++ l2)) as (m' & E & H); [|done|].
  - eapply owns_perm; [|done|exact Ho]. solve_Permutation.
  - exists m'. split; [done|]. eapply owns_perm; [|done|exact H]. solve_Permutation.
Qed.

Definition at_splay (t : tree) (c : ctx) (G : list cell) (m : nodes) : Prop :=
  owns F (cells (top (outermost (ptr t) c) c) t ++ rcells (outermost (ptr t) c) (ptr t) c ++ G) m.


(** Three records in a row, their subtrees, and what is above. *)
Lemma three_cells m A N bN B P bP C G bG D c R s1 s2 :
  at_splay (Branch A N bN B) (Frame s1 P bP C (Frame s2 G bG D c)) R m ->
  owns F ((N, mkLinks P (ptr A) (ptr B) bN) :: (P, links s1 G N (ptr C) bP)
    :: (G, links s2 (top (outermost G c) c) P (ptr D) bG) :: forest [(N, A); (N, B); (P, C); (G, D)]
    ++ rcells (outermost G c) G c ++ R) m.
Proof.
  unfold at_splay, forest. simpl. intros H. eapply owns_perm; [|done|exact H]. solve_Permutation.
Qed.

Ltac take Ho :=
  let m' := fresh "m" in let E := fresh "E" in let Ho' := fresh "Ho" in
  destruct (take_place_at _ _ _ _ _ _ _ _ _ _ Ho eq_refl) as (m' & E & Ho'); rewrite E; clear E Ho; rename Ho' into Ho;
  fields_in Ho; fields.

Ltac finish Ho := eexists; split; [reflexivity|]; eapply owns_perm; [|done|exact Ho];
  unfold forest; simpl; solve_Permutation.

Lemma splay_left_left m A N bN B P bP C G bG D c R :
  at_splay (Branch A N bN B) (Frame L P bP C (Frame L G bG D c)) R m ->
  exists m', SplayLeftLeft m N P G = Some m' /\
    at_splay (Branch A N bN (Branch B P bP (Branch C G bG D))) c R m'.
Proof.
  intros Ho. apply three_cells in Ho. unfold SplayLeftLeft. cbn [links] in Ho.
  get (@read_r) N Ho. put (@run_set_left) [_] (ptr B) Ho.
  get (@read_r) P Ho. put (@run_set_left) [_; _] (ptr C) Ho.
  adopt L [_] [_] [_] Ho. adopt L [_; _] [] [_; _] Ho. take Ho.
  put (@run_set_right) [] P Ho. put (@run_set_parent) [_] N Ho.
  put (@run_set_right) [_] G Ho. put (@run_set_parent) [_; _] P Ho. finish Ho.
Qed.

Lemma splay_right_right m A N bN B P bP C G bG D c R' :
  at_splay (Branch A N bN B) (Frame R P bP C (Frame R G bG D c)) R' m ->
  exists m', SplayRightRight m N P G = Some m' /\
    at_splay (Branch (Branch (Branch D G bG C) P bP A) N bN B) c R' m'.
Proof.
  intros Ho. apply three_cells in Ho. unfold SplayRightRight. cbn [links] in Ho.
  get (@read_l) P Ho. put (@run_set_right) [_; _] (ptr C) Ho.
  get (@read_l) N Ho. put (@run_set_right) [_] (ptr A) Ho.
  adopt R [_; _] [] [_; _] Ho. adopt R [_] [_] [] Ho. take Ho.
  put (@run_set_left) [] P Ho. put (@run_set_parent) [_] N Ho.
  put (@run_set_left) [_] G Ho. put (@run_set_parent) [_; _] P Ho. finish Ho.
Qed.

Lemma splay_left_right m A N bN B P bP C G bG D c R' :
  at_splay (Branch A N bN B) (Frame L P bP C (Frame R G bG D c)) R' m ->
  exists m', SplayLeftRight m N P G = Some m' /\
    at_splay (Branch (Branch D G bG A) N bN (Branch B P bP C)) c R' m'.
Proof.
  intros Ho. apply three_cells in Ho. unfold SplayLeftRight. cbn [links] in Ho.
  get (@read_l) N Ho. put (@run_set_right) [_; _] (ptr A) Ho.
  get (@read_r) N Ho. put (@run_set_left) [_] (ptr B) Ho.
  adopt R [_; _] [] [] Ho. adopt L [_] [_] [_] Ho. take Ho.
  put (@run_set_left) [] G Ho. put (@run_set_parent) [_; _] N Ho.
  put (@run_set_right) [] P Ho. put (@run_set_parent) [_] N Ho. finish Ho.
Qed.

Lemma splay_right_left m A N bN B P bP C G bG D c R' :
  at_splay (Branch A N bN B) (Frame R P bP C (Frame L G bG D c)) R' m ->
  exists m', SplayRightLeft m N P G = Some m' /\
    at_splay (Branch (Branch C P bP A) N bN (Branch B G bG D)) c R' m'.
Proof.
  intros Ho. apply three_cells in Ho. unfold SplayRightLeft. cbn [links] in Ho.
  get (@read_l) N Ho. put (@run_set_right) [_] (ptr A) Ho.
  get (@read_r) N Ho. put (@run_set_left) [_; _] (ptr B) Ho.
  adopt R [_] [_] [] Ho. adopt L [_; _] [] [_] Ho. take Ho.
  put (@run_set_left) [] P Ho. put (@run_set_parent) [_; _] N Ho.
  put (@run_set_right) [] G Ho. put (@run_set_parent) [_] N Ho. finish Ho.
Qed.

(** Two records, the upper one the root. *)
Lemma two_cells m A N bN B P bP C b R' s :
  at_splay (Branch A N bN B) (Frame s P bP C (Root b)) R' m ->
  owns F ((N, mkLinks P (ptr A) (ptr B) bN) :: (P, links s P N (ptr C) bP)
    :: forest [(N, A); (N, B); (P, C)] ++ R') m.
Proof.
  unfold at_splay, forest. simpl. intros H. eapply owns_perm; [|done|exact H]. solve_Permutation.
Qed.

Lemma splay_left_root m A N bN B P bP C b R' :
  at_splay (Branch A N bN B) (Frame L P bP C (Root b)) R' m ->
  exists m', SplayLeftRoot m N P = Some m' /\ at_splay (Branch A N bN (Branch B P bP C)) (Root b) R' m'.
Proof.
  intros Ho. apply two_cells in Ho. unfold SplayLeftRoot. cbn [links] in Ho.
  get (@read_r) N Ho. put (@run_set_left) [_] (ptr B) Ho. adopt L [_] [] [_] Ho.
  put (@run_set_parent) [] N Ho. put (@run_set_right) [] P Ho. put (@run_set_parent) [_] N Ho. finish Ho.
Qed.

Lemma splay_right_root m A N bN B P bP C b R' :
  at_splay (Branch A N bN B) (Frame R P bP C (Root b)) R' m ->
  exists m', SplayRightRoot m N P = Some m' /\ at_splay (Branch (Branch C P bP A) N bN B) (Root b) R' m'.
Proof.
  intros Ho. apply two_cells in Ho. unfold SplayRightRoot. cbn [links] in Ho.
  get (@read_l) N Ho. put (@run_set_right) [_] (ptr A) Ho. adopt R [_] [] [] Ho.
  put (@run_set_parent) [] N Ho. put (@run_set_left) [] P Ho. put (@run_set_parent) [_] N Ho. finish Ho.
Qed.

(** ** The loop *)

Ltac reassoc := repeat (rewrite <- app_assoc; simpl).


Fixpoint frames (c : ctx) : nat := match c with Root _ => 0 | Frame _ _ _ _ c' => S (frames c') end.

(** One turn brings the record up by one or two levels and keeps the order. *)
Lemma splay_step m A N bN B s P bP C c R' :
  at_splay (Branch A N bN B) (Frame s P bP C c) R' m ->
  exists m' A' B' c', SplayStep m N = Some m' /\ at_splay (Branch A' N bN B') c' R' m' /\
    (frames c' <= frames c)%nat /\ addrs (plug (Branch A' N bN B') c') = addrs (plug (Branch A N bN B) (Frame s P bP C c)).
Proof.
  intros Ho. unfold SplayStep.
  assert (RtlParent m N = Some P /\ is_child L m N = Some (bool_decide (s = L))) as [-> Hl].
  { unfold at_splay in Ho. cbn [outermost] in Ho. set (ρ := outermost P c) in *. simpl in Ho. split.
    - eapply (read_p Ho N). rewrite !elem_of_app, elem_of_cons. left. right. by left.
    - apply (frame_child _ m L N (mkLinks P (ptr A) (ptr B) bN) s P bP C (top ρ c)
        (cells N A ++ cells N B ++ rcells ρ P c ++ R') Ho); [solve_Permutation|done]. }
  cbn [mbind option_bind]. destruct c as [b|s' G bG D c].
  - pose proof (two_cells _ _ _ _ _ _ _ _ _ _ _ Ho) as H2.
    assert (RtlParent m P = Some P /\ forall t, is_child t m P = Some false) as [-> Hp].
    { split; [destruct s; simpl in H2; by get (@read_p) P H2|]. intros t.
      destruct s; simpl in H2; unfold forest in H2; simpl in H2.
      - apply (root_no_child _ m t P (Branch A N bN B) C bP R' H2). simpl. solve_Permutation.
      - apply (root_no_child _ m t P C (Branch A N bN B) bP R' H2). simpl. solve_Permutation. }
    cbn [mbind option_bind]. unfold is_child in Hl. rewrite Hl. cbn [mbind option_bind].
    pose proof (Hp L) as Hpl. pose proof (Hp R) as Hpr. unfold is_child in Hpl, Hpr. rewrite Hpl, Hpr.
    destruct s; cbn [mbind option_bind bool_decide].
    + destruct (splay_left_root _ _ _ _ _ _ _ _ _ _ Ho) as (m' & E & H').
      exists m', A, (Branch B P bP C), (Root b). split; [exact E|]. split; [done|]. split; [done|].
      simpl. by reassoc.
    + destruct (splay_right_root _ _ _ _ _ _ _ _ _ _ Ho) as (m' & E & H').
      exists m', (Branch C P bP A), B, (Root b). split; [exact E|]. split; [done|]. split; [done|].
      simpl. by reassoc.
  - pose proof (three_cells _ _ _ _ _ _ _ _ _ _ _ _ _ _ _ Ho) as H3.
    assert (RtlParent m P = Some G /\ forall t, is_child t m P = Some (bool_decide (s' = t))) as [-> Hp].
    { split; [destruct s; simpl in H3; by get (@read_p) P H3|]. intros t. unfold forest in H3. simpl in H3.
      apply (frame_child _ m t P (links s G N (ptr C) bP) s' G bG D (top (outermost G c) c)
        ((N, mkLinks P (ptr A) (ptr B) bN) :: cells N A ++ cells N B ++ cells P C ++ rcells (outermost G c) G c ++ R') H3).
      - solve_Permutation.
      - by destruct s. }
    cbn [mbind option_bind]. unfold is_child in Hl. rewrite Hl. cbn [mbind option_bind].
    pose proof (Hp L) as Hpl. pose proof (Hp R) as Hpr. unfold is_child in Hpl, Hpr. rewrite Hpl, Hpr.
    destruct s, s'; cbn [mbind option_bind bool_decide].
    + destruct (splay_left_left _ _ _ _ _ _ _ _ _ _ _ _ _ Ho) as (m' & E & H').
      eexists m', _, _, c. split; [exact E|]. split; [done|]. split; [simpl; lia|].
      simpl. rewrite !addrs_plug. simpl. by reassoc.
    + destruct (splay_left_right _ _ _ _ _ _ _ _ _ _ _ _ _ Ho) as (m' & E & H').
      eexists m', _, _, c. split; [exact E|]. split; [done|]. split; [simpl; lia|].
      simpl. rewrite !addrs_plug. simpl. by reassoc.
    + destruct (splay_right_left _ _ _ _ _ _ _ _ _ _ _ _ _ Ho) as (m' & E & H').
      eexists m', _, _, c. split; [exact E|]. split; [done|]. split; [simpl; lia|].
      simpl. rewrite !addrs_plug. simpl. by reassoc.
    + destruct (splay_right_right _ _ _ _ _ _ _ _ _ _ _ _ _ Ho) as (m' & E & H').
      eexists m', _, _, c. split; [exact E|]. split; [done|]. split; [simpl; lia|].
      simpl. rewrite !addrs_plug. simpl. by reassoc.
Qed.

Lemma frames_cells p x c : (frames c <= length (rcells p x c))%nat.
Proof. revert x. induction c as [b|s a b u c IH]; intros x; simpl; [done|]. rewrite length_app. specialize (IH a). lia. Qed.

Lemma splay_loop fuel m A N bN B c R' :
  at_splay (Branch A N bN B) c R' m -> (frames c <= fuel)%nat ->
  exists m' A' B' b0, SplayLoop fuel m N = Some m' /\ at_splay (Branch A' N bN B') (Root b0) R' m' /\
    addrs (Branch A' N bN B') = addrs (plug (Branch A N bN B) c).
Proof.
  revert m A B c. induction fuel as [|fuel IH]; intros m A B c Ho Hf; destruct c as [b|s P bP C c].
  1, 3: exists m, A, B, b; cbn [SplayLoop]; unfold at_splay in Ho; cbn [outermost top ptr cells rcells] in Ho;
    (rewrite (run_is_root _ m N (mkLinks N (ptr A) (ptr B) bN) Ho);
     [|rewrite !elem_of_app, elem_of_cons; tauto]); simpl; by rewrite Z.eqb_refl.
  - simpl in Hf. lia.
  - cbn [SplayLoop]. destruct (splay_step _ _ _ _ _ _ _ _ _ _ _ Ho) as (m1 & A1 & B1 & c1 & E1 & H1 & Hc & Ha).
    assert (RtlIsRoot m N = Some false) as ->.
    { unfold at_splay in Ho. cbn [outermost top ptr cells rcells] in Ho. set (ρ := outermost P c) in *.
      apply (frame_not_root _ m N (mkLinks P (ptr A) (ptr B) bN) P (links s (top ρ c) N (ptr C) bP)
        (cells N A ++ cells N B ++ cells P C ++ rcells ρ P c ++ R') Ho); [solve_Permutation|done]. }
    cbn [mbind option_bind]. rewrite E1. cbn [mbind option_bind].
    destruct (IH m1 A1 B1 c1 H1) as (m2 & A2 & B2 & b0 & E2 & H2 & Ha2); [simpl in Hf; lia|].
    exists m2, A2, B2, b0. by rewrite Ha2, Ha.
Qed.

Lemma RtlSplay_run m A N bN B c R' :
  at_splay (Branch A N bN B) c R' m ->
  exists m' A' B' b0, RtlSplay m N = Some (N, m') /\ at_splay (Branch A' N bN B') (Root b0) R' m' /\
    addrs (Branch A' N bN B') = addrs (plug (Branch A N bN B) c).
Proof.
  intros Ho. unfold RtlSplay.
  destruct (splay_loop (path_fuel m) m A N bN B c R' Ho) as (m' & A' & B' & b0 & -> & H1 & H2).
  - apply owns_size in Ho. rewrite !length_app in Ho.
    pose proof (frames_cells (outermost N c) N c). unfold path_fuel. simpl in *. lia.
  - by exists m', A', B', b0.
Qed.

(** ** Swapping *)

(** Cells whose root, at [y], can be given another parent. *)
Definition movable (y : Z) (K : Z -> list cell) : Prop :=
  forall l m q q' l', owns F l m -> l ≡ₚ K q ++ l' ->
    exists m', (if negb (y =? 0) then set_parent m y q' else Some m) = Some m' /\ owns F (K q' ++ l') m'.

Lemma movable_tree t : movable (ptr t) (fun q => cells q t).
Proof. intros l m q q' l' Ho Hp. by apply (reparent F l m q q' t l'). Qed.

Lemma movable_frames x s a b u c : movable (outermost a c) (fun q => rcells q x (Frame s a b u c)).
Proof.
  revert x s a b u. induction c as [b0|s' a' b' u' c IH]; intros x s a b u l m q q' l' Ho Hp.
  - simpl in *. rewrite Hp in Ho.
    rewrite (proj2 (Z.eqb_neq a 0)) by (apply (not_null Ho); left). cbn [negb].
    destruct (run_set_parent [] _ _ _ _ q' Ho) as (m' & E & H'). exists m'. split; [done|].
    eapply owns_perm; [|done|exact H']. destruct s; done.
  - destruct (IH a s' a' b' u' l m q q' ((a, links s a' x (ptr u) b) :: cells a u ++ l') Ho) as (m' & E & H').
    + rewrite Hp. simpl. solve_Permutation.
    + exists m'. split; [done|]. eapply owns_perm; [|done|exact H']. simpl. solve_Permutation.
Qed.

Lemma insert_as_run s l m p pp w z bp x n l' :
  owns F l m -> l ≡ₚ (p, links s pp w z bp) :: (x, n) :: l' ->
  exists m', insert_as (bool_decide (s = L)) m p x = Some m' /\
    owns F ((p, links s pp x z bp) :: (x, mkLinks p (LeftChild n) (RightChild n) (Balance n)) :: l') m'.
Proof.
  intros Ho Hp. rewrite Hp in Ho. unfold insert_as, RtlInsertAsLeftChild, RtlInsertAsRightChild.
  destruct s; rewrite ?bool_decide_true, ?bool_decide_false by done; cbn [links] in Ho.
  - destruct (run_set_left [] _ _ _ _ x Ho) as (m1 & -> & H1). cbn [mbind option_bind].
    apply (run_set_parent [_] _ _ _ _ p H1).
  - destruct (run_set_right [] _ _ _ _ x Ho) as (m1 & -> & H1). cbn [mbind option_bind].
    apply (run_set_parent [_] _ _ _ _ p H1).
Qed.

Section Fixup.
Context (yu yv : Z) (Ku Kv : Z -> list cell) (Mu : movable yu Ku) (Mv : movable yv Kv).

(** The children of a record get it as their parent. *)
Lemma fixup_children l m x p b qu qv l' :
  owns F l m -> l ≡ₚ (x, mkLinks p yu yv b) :: Ku qu ++ Kv qv ++ l' ->
  exists m1 m2, (if negb (yu =? 0) then RtlInsertAsLeftChild m x yu else Some m) = Some m1 /\
    RtlRightChild m1 x = Some yv /\
    (if negb (yv =? 0) then RtlInsertAsRightChild m1 x yv else Some m1) = Some m2 /\
    owns F ((x, mkLinks p yu yv b) :: Ku x ++ Kv x ++ l') m2.
Proof.
  intros Ho Hp. rewrite Hp in Ho. unfold RtlInsertAsLeftChild, RtlInsertAsRightChild.
  assert (exists m1, (if negb (yu =? 0) then m ← set_left m x yu; set_parent m yu x else Some m) = Some m1 /\
    owns F ((x, mkLinks p yu yv b) :: Ku x ++ Kv qv ++ l') m1) as (m1 & E1 & H1).
  { destruct (run_set_left [] _ _ _ _ yu Ho) as (m0 & E0 & H0). cbn [app Parent RightChild Balance] in H0.
    assert (owns F ((x, mkLinks p yu yv b) :: Ku qu ++ Kv qv ++ l') (if negb (yu =? 0) then m0 else m)) as H0'
      by (destruct (yu =? 0); done).
    destruct (Mu _ _ qu x ((x, mkLinks p yu yv b) :: Kv qv ++ l') H0') as (m1 & E1 & H1); [solve_Permutation|].
    exists m1. split; [|eapply owns_perm; [|done|exact H1]; solve_Permutation].
    rewrite E0. cbn [mbind option_bind]. destruct (yu =? 0); simpl in *; done. }
  exists m1. rewrite (read_r H1 x p yu yv b) by left.
  destruct (run_set_right [] _ _ _ _ yv H1) as (m0 & E0 & H0). cbn [app Parent LeftChild Balance] in H0.
  assert (owns F ((x, mkLinks p yu yv b) :: Ku x ++ Kv qv ++ l') (if negb (yv =? 0) then m0 else m1)) as H0'
    by (destruct (yv =? 0); done).
  destruct (Mv _ _ qv x ((x, mkLinks p yu yv b) :: Ku x ++ l') H0') as (m2 & E2 & H2); [solve_Permutation|].
  exists m2. split_and!; [done|done| |eapply owns_perm; [|done|exact H2]; solve_Permutation].
  rewrite E0. cbn [mbind option_bind]. destruct (yv =? 0); simpl in *; done.
Qed.

Lemma fixup_root l m x p b qu qv l' LeftChild :
  owns F l m -> l ≡ₚ (x, mkLinks p yu yv b) :: Ku qu ++ Kv qv ++ l' ->
  exists m', FixupChildLinks m x true LeftChild = Some m' /\
    owns F ((x, mkLinks p yu yv b) :: Ku x ++ Kv x ++ l') m'.
Proof.
  intros Ho Hp. unfold FixupChildLinks. rewrite (read_l Ho x p yu yv b) by (rewrite Hp; left).
  destruct (fixup_children l m x p b qu qv l' Ho Hp) as (m1 & m2 & E1 & E2 & E3 & H).
  cbn [mbind option_bind]. rewrite E1. cbn [mbind option_bind]. rewrite E2. cbn [mbind option_bind]. rewrite E3.
  by exists m2.
Qed.

Lemma fixup_below l m x b qu qv s p pp w z bp l' :
  owns F l m -> l ≡ₚ (x, mkLinks p yu yv b) :: Ku qu ++ Kv qv ++ (p, links s pp w z bp) :: l' ->
  exists m', FixupChildLinks m x false (bool_decide (s = L)) = Some m' /\
    owns F ((x, mkLinks p yu yv b) :: Ku x ++ Kv x ++ (p, links s pp x z bp) :: l') m'.
Proof.
  intros Ho Hp. unfold FixupChildLinks. rewrite (read_l Ho x p yu yv b) by (rewrite Hp; left).
  destruct (fixup_children l m x p b qu qv _ Ho Hp) as (m1 & m2 & E1 & E2 & E3 & H).
  cbn [mbind option_bind]. rewrite E1. cbn [mbind option_bind]. rewrite E2. cbn [mbind option_bind]. rewrite E3.
  cbn [mbind option_bind negb]. rewrite (read_p H x p yu yv b) by left. cbn [mbind option_bind].
  destruct (insert_as_run s _ m2 p pp w z bp x (mkLinks p yu yv b) (Ku x ++ Kv x ++ l') H) as (m' & E & H');
    [solve_Permutation|].
  exists m'. split; [done|]. eapply owns_perm; [|done|exact H']. simpl. solve_Permutation.
Qed.
End Fixup.

Lemma run_store_links l1 l2 m x n n' : owns F (l1 ++ (x, n) :: l2) m ->
  exists m', store_links m x n' = Some m' /\
    owns F (l1 ++ (x, mkLinks (Parent n') (LeftChild n') (RightChild n') (Balance n)) :: l2) m'.
Proof.
  intros Ho. unfold store_links. rewrite (owns_lookup _ _ _ x n Ho) by set_solver.
  eexists. split; [done|]. by eapply run_store.
Qed.

(** The exchange of the two records: what is read, and the state after the two stores. *)
Lemma swap_stores m A nA B nB rest :
  owns F ((A, nA) :: (B, nB) :: rest) m ->
  exists m1 m2, m !! A = Some nA /\ m !! B = Some nB /\ store_links m B nA = Some m1 /\ store_links m1 A nB = Some m2 /\
    owns F ((A, mkLinks (Parent nB) (LeftChild nB) (RightChild nB) (Balance nA))
      :: (B, mkLinks (Parent nA) (LeftChild nA) (RightChild nA) (Balance nB)) :: rest) m2.
Proof.
  intros Ho. destruct (run_store_links [_] _ _ _ _ nA Ho) as (m1 & E1 & H1).
  destruct (run_store_links [] _ _ _ _ nB H1) as (m2 & E2 & H2).
  exists m1, m2. split_and!; [|..|done|done|done]; apply (owns_lookup _ _ _ _ _ Ho); in_cells.
Qed.

(** [B] is the left child of [A]; [A] is the root. *)
Lemma swap_adjacent_root m A bA B bB u r R' :
  owns F ((A, mkLinks A B (ptr r) bA) :: (B, mkLinks A (ptr u) 0 bB) :: cells B u ++ cells A r ++ R') m ->
  exists m', SwapLinks m A B = Some m' /\
    owns F ((B, mkLinks B A (ptr r) bB) :: (A, mkLinks B (ptr u) 0 bA) :: cells A u ++ cells B r ++ R') m'.
Proof.
  intros Ho. unfold SwapLinks.
  destruct (swap_stores m A _ B _ _ Ho) as (m1 & m2 & -> & -> & E1 & E2 & H2). cbn [mbind option_bind].
  rewrite (run_is_root _ m A (mkLinks A B (ptr r) bA) Ho) by in_cells. cbn [Parent mbind option_bind]. rewrite Z.eqb_refl.
  erewrite (read_left Ho A) by in_cells. set (LeftA := B =? A).
  erewrite (read_left Ho B) by in_cells. rewrite Z.eqb_refl.
  cbn [mbind option_bind]. rewrite E1. cbn [mbind option_bind]. rewrite E2. cbn [mbind option_bind negb].
  rewrite ?Z.eqb_refl. cbn [Parent LeftChild RightChild Balance] in H2.
  destruct (insert_as_run L _ m2 B A B (ptr r) bB A (mkLinks A (ptr u) 0 bA) (cells B u ++ cells A r ++ R') H2)
    as (m3 & E3 & H3); [apply perm_swap|].
  change (bool_decide (L = L)) with true in E3. rewrite E3. cbn [mbind option_bind]. cbn [LeftChild RightChild Balance] in H3.
  destruct (fixup_below _ _ _ _ (movable_tree u) (movable_tree Leaf) _ m3 A bA B B L B A A (ptr r) bB
    (cells A r ++ R') H3) as (m4 & E4 & H4); [simpl; solve_Permutation|].
  change (bool_decide (L = L)) with true in E4. cbn [ptr] in E4. rewrite E4. cbn [mbind option_bind].
  destruct (fixup_root _ _ _ _ (movable_tree (Branch u A bA Leaf)) (movable_tree r) _ m4 B A bB B A R' LeftA H4)
    as (m5 & E5 & H5); [simpl; solve_Permutation|].
  rewrite E5. cbn [mbind option_bind].
  destruct (run_set_parent [] _ _ _ _ B H5) as (m6 & E6 & H6). exists m6. split; [done|].
  eapply owns_perm; [|done|exact H6]. simpl. solve_Permutation.
Qed.

(** [B] is the left child of [A], which is below the record [p]. *)
Lemma swap_adjacent m A bA B bB u r s p pp z bp R' :
  owns F ((A, mkLinks p B (ptr r) bA) :: (B, mkLinks A (ptr u) 0 bB) :: cells B u ++ cells A r
    ++ (p, links s pp A (ptr z) bp) :: cells p z ++ R') m ->
  exists m', SwapLinks m A B = Some m' /\
    owns F ((B, mkLinks p A (ptr r) bB) :: (A, mkLinks B (ptr u) 0 bA) :: cells A u ++ cells B r
      ++ (p, links s pp B (ptr z) bp) :: cells p z ++ R') m'.
Proof.
  intros Ho. unfold SwapLinks.
  destruct (swap_stores m A _ B _ _ Ho) as (m1 & m2 & -> & -> & E1 & E2 & H2). cbn [mbind option_bind].
  rewrite (frame_not_root _ m A (mkLinks p B (ptr r) bA) p (links s pp A (ptr z) bp)
    ((B, mkLinks A (ptr u) 0 bB) :: cells B u ++ cells A r ++ cells p z ++ R') Ho) by (done || solve_Permutation).
  assert (RtlIsLeftChild m A = Some (bool_decide (s = L))) as ->.
  { apply (frame_child _ m L A (mkLinks p B (ptr r) bA) s p bp z pp
      ((B, mkLinks A (ptr u) 0 bB) :: cells B u ++ cells A r ++ R') Ho); [solve_Permutation|done]. }
  erewrite (read_left Ho B) by in_cells. rewrite Z.eqb_refl.
  cbn [mbind option_bind]. rewrite E1. cbn [mbind option_bind]. rewrite E2. cbn [mbind option_bind negb Parent].
  rewrite ?Z.eqb_refl. cbn [Parent LeftChild RightChild Balance] in H2.
  destruct (insert_as_run s _ m2 p pp A (ptr z) bp B (mkLinks p B (ptr r) bB)
    ((A, mkLinks A (ptr u) 0 bA) :: cells B u ++ cells A r ++ cells p z ++ R') H2) as (m3 & E3 & H3); [solve_Permutation|].
  rewrite E3. cbn [mbind option_bind]. cbn [LeftChild RightChild Balance] in H3.
  destruct (insert_as_run L _ m3 B p B (ptr r) bB A (mkLinks A (ptr u) 0 bA)
    ((p, links s pp B (ptr z) bp) :: cells B u ++ cells A r ++ cells p z ++ R') H3) as (m4 & E4 & H4);
    [simpl; solve_Permutation|].
  change (bool_decide (L = L)) with true in E4. rewrite E4. cbn [mbind option_bind]. cbn [LeftChild RightChild Balance] in H4.
  destruct (fixup_below _ _ _ _ (movable_tree u) (movable_tree Leaf) _ m4 A bA B B L B p A (ptr r) bB
    ((p, links s pp B (ptr z) bp) :: cells A r ++ cells p z ++ R') H4) as (m5 & E5 & H5); [simpl; solve_Permutation|].
  change (bool_decide (L = L)) with true in E5. cbn [ptr] in E5. rewrite E5. cbn [mbind option_bind].
  destruct (fixup_below _ _ _ _ (movable_tree (Branch u A bA Leaf)) (movable_tree r) _ m5 B bB B A s p pp B (ptr z) bp
    (cells p z ++ R') H5) as (m6 & E6 & H6); [simpl; solve_Permutation|].
  rewrite E6. cbn [mbind option_bind]. exists m6. split; [done|].
  eapply owns_perm; [|done|exact H6]. simpl. solve_Permutation.
Qed.

(** [B] is in the left subtree of [A], below the record [a]; [A] is the root. *)
Lemma swap_apart_root m A bA B bB u r s a ba w c R' :
  owns F ((A, mkLinks A (outermost a c) (ptr r) bA) :: (B, mkLinks a (ptr u) 0 bB) :: cells B u ++ cells A r
    ++ rcells A B (Frame s a ba w c) ++ R') m ->
  exists m', SwapLinks m A B = Some m' /\
    owns F ((B, mkLinks B (outermost a c) (ptr r) bB) :: (A, mkLinks a (ptr u) 0 bA) :: cells A u ++ cells B r
      ++ rcells B A (Frame s a ba w c) ++ R') m'.
Proof.
  intros Ho. unfold SwapLinks.
  destruct (swap_stores m A _ B _ _ Ho) as (m1 & m2 & -> & -> & E1 & E2 & H2). cbn [mbind option_bind].
  rewrite (run_is_root _ m A (mkLinks A (outermost a c) (ptr r) bA) Ho) by in_cells.
  cbn [Parent mbind option_bind]. rewrite Z.eqb_refl.
  erewrite (read_left Ho A) by in_cells. set (LeftA := outermost a c =? A). cbn [rcells] in Ho.
  assert (RtlIsLeftChild m B = Some (bool_decide (s = L))) as ->.
  { apply (frame_child _ m L B (mkLinks a (ptr u) 0 bB) s a ba w (top A c)
      ((A, mkLinks A (outermost a c) (ptr r) bA) :: cells B u ++ cells A r ++ rcells A a c ++ R') Ho); [solve_Permutation|done]. }
  cbn [mbind option_bind]. rewrite E1. cbn [mbind option_bind]. rewrite E2. cbn [mbind option_bind negb Parent].
  rewrite (proj2 (Z.eqb_neq a A)).
  2:{ apply (owns_distinct F _ m (a, links s (top A c) B (ptr w) ba) (A, mkLinks A (outermost a c) (ptr r) bA) Ho).
      exists ((B, mkLinks a (ptr u) 0 bB) :: cells B u ++ cells A r ++ cells a w ++ rcells A a c ++ R'). solve_Permutation. }
  cbn [mbind option_bind]. cbn [Parent LeftChild RightChild Balance] in H2.
  destruct (fixup_below _ _ _ _ (movable_tree u) (movable_tree Leaf) _ m2 A bA B B s a (top A c) B (ptr w) ba
    ((B, mkLinks A (outermost a c) (ptr r) bB) :: cells A r ++ cells a w ++ rcells A a c ++ R') H2)
    as (m3 & E3 & H3); [simpl; solve_Permutation|].
  cbn [ptr] in E3. rewrite E3. cbn [mbind option_bind].
  destruct (fixup_root _ _ _ _ (movable_frames A s a ba w c) (movable_tree r) _ m3 B A bB A A
    ((A, mkLinks a (ptr u) 0 bA) :: cells A u ++ R') LeftA H3) as (m4 & E4 & H4); [simpl; solve_Permutation|].
  rewrite E4. cbn [mbind option_bind].
  destruct (run_set_parent [] _ _ _ _ B H4) as (m5 & E5 & H5). exists m5. split; [done|].
  eapply owns_perm; [|done|exact H5]. simpl. solve_Permutation.
Qed.

(** [B] is in the left subtree of [A], below the record [a]; [A] is below the record [p]. *)
Lemma swap_apart m A bA B bB u r s a ba w c t p pp z bp R' :
  owns F ((B, mkLinks a (ptr u) 0 bB) :: (A, mkLinks p (outermost a c) (ptr r) bA) :: cells B u ++ cells A r
    ++ rcells A B (Frame s a ba w c) ++ (p, links t pp A (ptr z) bp) :: cells p z ++ R') m ->
  exists m', SwapLinks m B A = Some m' /\
    owns F ((B, mkLinks p (outermost a c) (ptr r) bB) :: (A, mkLinks a (ptr u) 0 bA) :: cells A u ++ cells B r
      ++ rcells B A (Frame s a ba w c) ++ (p, links t pp B (ptr z) bp) :: cells p z ++ R') m'.
Proof.
  intros Ho. unfold SwapLinks.
  destruct (swap_stores m B _ A _ _ Ho) as (m1 & m2 & -> & -> & E1 & E2 & H2). cbn [mbind option_bind].
  cbn [rcells] in Ho.
  rewrite (frame_not_root _ m B (mkLinks a (ptr u) 0 bB) a (links s (top A c) B (ptr w) ba)
    ((A, mkLinks p (outermost a c) (ptr r) bA) :: cells B u ++ cells A r ++ cells a w ++ rcells A a c
      ++ (p, links t pp A (ptr z) bp) :: cells p z ++ R') Ho) by (done || solve_Permutation).
  assert (RtlIsLeftChild m B = Some (bool_decide (s = L))) as ->.
  { apply (frame_child _ m L B (mkLinks a (ptr u) 0 bB) s a ba w (top A c)
      ((A, mkLinks p (outermost a c) (ptr r) bA) :: cells B u ++ cells A r ++ rcells A a c
        ++ (p, links t pp A (ptr z) bp) :: cells p z ++ R') Ho); [solve_Permutation|done]. }
  assert (RtlIsLeftChild m A = Some (bool_decide (t = L))) as ->.
  { apply (frame_child _ m L A (mkLinks p (outermost a c) (ptr r) bA) t p bp z pp
      ((B, mkLinks a (ptr u) 0 bB) :: cells B u ++ cells A r ++ (a, links s (top A c) B (ptr w) ba) :: cells a w
        ++ rcells A a c ++ R') Ho); [solve_Permutation|done]. }
  cbn [mbind option_bind]. rewrite E1. cbn [mbind option_bind]. rewrite E2. cbn [mbind option_bind negb Parent].
  rewrite (proj2 (Z.eqb_neq p B)).
  2:{ apply (owns_distinct F _ m (p, links t pp A (ptr z) bp) (B, mkLinks a (ptr u) 0 bB) Ho).
      exists ((A, mkLinks p (outermost a c) (ptr r) bA) :: cells B u ++ cells A r
        ++ (a, links s (top A c) B (ptr w) ba) :: cells a w ++ rcells A a c ++ cells p z ++ R'). solve_Permutation. }
  cbn [mbind option_bind]. cbn [Parent LeftChild RightChild Balance] in H2.
  destruct (fixup_below _ _ _ _ (movable_frames B s a ba w c) (movable_tree r) _ m2 B bB A A t p pp A (ptr z) bp
    ((A, mkLinks a (ptr u) 0 bA) :: cells B u ++ cells p z ++ R') H2) as (m3 & E3 & H3); [simpl; solve_Permutation|].
  rewrite E3. cbn [mbind option_bind].
  destruct (fixup_below _ _ _ _ (movable_tree u) (movable_tree Leaf) _ m3 A bA B B s a (top B c) B (ptr w) ba
    ((B, mkLinks p (outermost a c) (ptr r) bB) :: cells B r ++ cells a w ++ rcells B a c
      ++ (p, links t pp B (ptr z) bp) :: cells p z ++ R') H3) as (m4 & E4 & H4); [simpl; solve_Permutation|].
  cbn [ptr] in E4. rewrite E4. cbn [mbind option_bind]. exists m4. split; [done|].
  eapply owns_perm; [|done|exact H4]. simpl. solve_Permutation.
Qed.

(** The record [SP], which has no right child and is somewhere in the left subtree of [N],
    and [N] exchange their places. *)
Lemma swap_run m u SP bd inner N b r c R' :
  at_splay (Branch (plug (Branch u SP bd Leaf) inner) N b r) c R' m ->
  exists m', SwapSplayLinks m SP N = Some m' /\
    at_splay (Branch (plug (Branch u N b Leaf) inner) SP bd r) c R' m'.
Proof.
  unfold at_splay, SwapSplayLinks. cbn [ptr]. intros H.
  set (ρ := outermost N c) in *. destruct inner as [b0|s a ba w inner].
  - assert (owns F ((N, mkLinks (top ρ c) SP (ptr r) b) :: (SP, mkLinks N (ptr u) 0 bd) :: cells SP u ++ cells N r
      ++ rcells ρ N c ++ R') m) as Ho by (eapply owns_perm; [|done|exact H]; simpl; solve_Permutation).
    get (@read_p) SP Ho. rewrite Z.eqb_refl. cbn [mbind option_bind]. destruct c as [b1|t p bp z c]; simpl in *.
    + destruct (swap_adjacent_root m N b SP bd u r R' Ho) as (m' & E & H'). exists m'. split; [done|].
      eapply owns_perm; [|done|exact H']. solve_Permutation.
    + destruct (swap_adjacent m N b SP bd u r t p (top ρ c) z bp (rcells ρ p c ++ R')) as (m' & E & H').
      { eapply owns_perm; [|done|exact Ho]. solve_Permutation. }
      exists m'. split; [done|]. eapply owns_perm; [|done|exact H']. solve_Permutation.
  - cbn [cells ptr outermost] in *. rewrite cells_plug, ptr_plug in H. cbn [ptr cells outermost] in H.
    assert (owns F ((SP, mkLinks a (ptr u) 0 bd) :: (N, mkLinks (top ρ c) (outermost a inner) (ptr r) b)
      :: cells SP u ++ cells N r ++ rcells N SP (Frame s a ba w inner) ++ rcells ρ N c ++ R') m) as Ho.
    { eapply owns_perm; [|done|exact H]. simpl. solve_Permutation. }
    get (@read_p) SP Ho.
    rewrite (proj2 (Z.eqb_neq a N)).
    2:{ apply (owns_distinct F _ m (a, links s (top N inner) SP (ptr w) ba)
          (N, mkLinks (top ρ c) (outermost a inner) (ptr r) b) Ho).
        exists ((SP, mkLinks a (ptr u) 0 bd) :: cells SP u ++ cells N r ++ cells a w ++ rcells N a inner
          ++ rcells ρ N c ++ R'). simpl. solve_Permutation. }
    destruct c as [b1|t p bp z c]; cbn [rcells outermost top] in *.
    + rewrite (run_is_root _ m N (mkLinks ρ (outermost a inner) (ptr r) b) Ho) by in_cells.
      cbn [Parent mbind option_bind]. subst ρ. rewrite Z.eqb_refl.
      destruct (swap_apart_root m N b SP bd u r s a ba w inner R') as (m' & E & H').
      { eapply owns_perm; [|done|exact Ho]. simpl. solve_Permutation. }
      exists m'. split; [done|]. eapply owns_perm; [|done|exact H']. rewrite cells_plug, ptr_plug. simpl. solve_Permutation.
    + rewrite (frame_not_root _ m N (mkLinks p (outermost a inner) (ptr r) b) p (links t (top ρ c) N (ptr z) bp)
        ((SP, mkLinks a (ptr u) 0 bd) :: cells SP u ++ cells N r ++ (a, links s (top N inner) SP (ptr w) ba)
          :: cells a w ++ rcells N a inner ++ cells p z ++ rcells ρ p c ++ R') Ho) by (done || solve_Permutation).
      cbn [mbind option_bind].
      destruct (swap_apart m N b SP bd u r s a ba w inner t p (top ρ c) z bp (rcells ρ p c ++ R')) as (m' & E & H').
      { eapply owns_perm; [|done|exact Ho]. simpl. solve_Permutation. }
      exists m'. split; [done|]. eapply owns_perm; [|done|exact H']. rewrite cells_plug, ptr_plug. simpl. solve_Permutation.
Qed.

(** ** Deleting *)

(** The only child of a record, if any. *)
Definition only (l r : tree) : tree := match l with Leaf => r | _ => l end.

Lemma cut_root m l N b r b0 R' :
  at_splay (Branch l N b r) (Root b0) R' m -> l = Leaf \/ r = Leaf ->
  RtlIsRoot m N = Some true /\ exists n m',
    (if negb (ptr (only l r) =? 0) then set_parent m (ptr (only l r)) (ptr (only l r)) else Some m) = Some m' /\
    at_splay (only l r) (Root b0) ((N, n) :: R') m'.
Proof.
  unfold at_splay. cbn [ptr outermost top rcells]. intros Ho Hl.
  assert (owns F ((N, mkLinks N (ptr l) (ptr r) b) :: cells N (only l r) ++ R') m) as Ho'.
  { eapply owns_perm; [|done|exact Ho]. destruct Hl as [-> | ->]; [|destruct l]; simpl; solve_Permutation. }
  split.
  - rewrite (run_is_root _ m N (mkLinks N (ptr l) (ptr r) b) Ho') by in_cells. simpl. by rewrite Z.eqb_refl.
  - destruct (movable_tree (only l r) _ m N (ptr (only l r)) ((N, mkLinks N (ptr l) (ptr r) b) :: R') Ho')
      as (m' & E & H'); [solve_Permutation|].
    exists (mkLinks N (ptr l) (ptr r) b), m'. split; [done|]. eapply owns_perm; [|done|exact H']. solve_Permutation.
Qed.

Lemma cut_below m l N b r s P bP w c R' :
  at_splay (Branch l N b r) (Frame s P bP w c) R' m -> l = Leaf \/ r = Leaf ->
  RtlIsRoot m N = Some false /\ RtlParent m N = Some P /\ RtlIsLeftChild m N = Some (bool_decide (s = L)) /\
  exists n m1 m2,
    (if bool_decide (s = L) then set_left m P (ptr (only l r)) else set_right m P (ptr (only l r))) = Some m1 /\
    (if negb (ptr (only l r) =? 0) then set_parent m1 (ptr (only l r)) P else Some m1) = Some m2 /\
    at_splay (only l r) (Frame s P bP w c) ((N, n) :: R') m2.
Proof.
  unfold at_splay. cbn [ptr outermost top rcells]. intros Ho Hl. set (ρ := outermost P c) in *.
  set (n := mkLinks P (ptr l) (ptr r) b).
  assert (owns F ((N, n) :: (P, links s (top ρ c) N (ptr w) bP) :: cells P w ++ cells N (only l r) ++ rcells ρ P c ++ R') m) as Ho'.
  { eapply owns_perm; [|done|exact Ho]. destruct Hl as [-> | ->]; [|destruct l]; simpl; solve_Permutation. }
  split_and!.
  - by eapply (frame_not_root _ m N n P _ _ Ho').
  - by get (@read_p) N Ho'.
  - by apply (frame_child _ m L N n s P bP w (top ρ c) (cells N (only l r) ++ rcells ρ P c ++ R') Ho').
  - destruct (set_frame m s P bP (ptr w) (top ρ c) N (ptr (only l r)) [(N, n)] _ Ho') as (m1 & E1 & H1).
    destruct (movable_tree (only l r) _ m1 N P ((N, n) :: (P, links s (top ρ c) (ptr (only l r)) (ptr w) bP)
      :: cells P w ++ rcells ρ P c ++ R') H1) as (m2 & E2 & H2); [simpl; solve_Permutation|].
    exists n, m1, m2. split_and!; [done|done|]. eapply owns_perm; [|done|exact H2]. solve_Permutation.
Qed.

(** A tree is at its root. *)
Definition splay_tree (t : tree) (G : list cell) (m : nodes) : Prop := owns F (cells (ptr t) t ++ G) m.

Lemma at_splay_plug t c G m : at_splay t c G m <-> splay_tree (plug t c) G m.
Proof.
  unfold at_splay, splay_tree. rewrite ptr_plug. apply owns_perm; [|done]. rewrite cells_plug. solve_Permutation.
Qed.

Lemma only_addrs l r : l = Leaf \/ r = Leaf -> addrs (only l r) = addrs l ++ addrs r.
Proof. intros [-> | ->]; [done|]. destruct l; simpl; by rewrite ?app_nil_r. Qed.

Lemma both_children l r : l = Leaf \/ r = Leaf \/ l <> Leaf /\ r <> Leaf.
Proof. destruct l, r; auto. Qed.

Lemma splay_ptr_null t c G m : at_splay t c G m -> (ptr t =? 0) = bool_decide (t = Leaf).
Proof.
  intros Ho. destruct t as [|u a b v]; [done|]. rewrite bool_decide_false by done. apply Z.eqb_neq.
  apply (not_null Ho). eapply in_fst, root_cell.
Qed.

Lemma child_ptrs m l N b r c R' : at_splay (Branch l N b r) c R' m ->
  RtlLeftChild m N = Some (ptr l) /\ RtlRightChild m N = Some (ptr r) /\
  (ptr l =? 0) = bool_decide (l = Leaf) /\ (ptr r =? 0) = bool_decide (r = Leaf).
Proof.
  intros Ho. assert (at_splay l (Frame L N b r c) R' m /\ at_splay r (Frame R N b l c) R' m) as [Hl Hr].
  { rewrite !at_splay_plug in *. done. }
  split_and!; [| |by eapply splay_ptr_null|by eapply splay_ptr_null]; unfold at_splay in Ho; cbn [cells] in Ho.
  - eapply (read_l Ho N). rewrite !elem_of_app, elem_of_cons. left. right. by left.
  - eapply (read_r Ho N). rewrite !elem_of_app, elem_of_cons. left. right. by left.
Qed.

(** The part of [RtlDelete] after the swap: the record has at most one child. *)
Lemma delete_single m l N b r c R' :
  at_splay (Branch l N b r) c R' m -> l = Leaf \/ r = Leaf ->
  exists m' t n,
    (l ← RtlLeftChild m N;
     r ← RtlRightChild m N;
     root ← RtlIsRoot m N;
     if (l =? 0) && (r =? 0) then
       if (root : bool) then Some (0, m) else
       P ← RtlParent m N;
       left ← RtlIsLeftChild m N;
       m ← (if (left : bool) then set_left m P 0 else set_right m P 0);
       RtlSplay m P
     else
       let C := if negb (l =? 0) then l else r in
       if root then m ← set_parent m C C; Some (C, m) else
       P ← RtlParent m N;
       left ← RtlIsLeftChild m N;
       m ← (if (left : bool) then set_left m P C else set_right m P C);
       m ← set_parent m C P;
       RtlSplay m P) = Some (ptr t, m') /\
    splay_tree t ((N, n) :: R') m' /\ addrs t = addrs (plug (only l r) c).
Proof.
  intros Ho Hl. destruct (child_ptrs _ _ _ _ _ _ _ Ho) as (-> & -> & Nl & Nr). cbn [mbind option_bind].
  assert ((if negb (ptr l =? 0) then ptr l else ptr r) = ptr (only l r)) as -> by (rewrite Nl; by destruct l).
  assert ((ptr l =? 0) && (ptr r =? 0) = (ptr (only l r) =? 0)) as -> by (destruct Hl as [-> | ->]; [|destruct l]; simpl; by rewrite ?andb_true_r).
  destruct c as [b0|s P bP w c].
  - destruct (cut_root _ _ _ _ _ _ _ Ho Hl) as (-> & n & m' & E & H'). cbn [mbind option_bind].
    exists m', (only l r), n. split; [|split; [by apply at_splay_plug in H'|done]].
    destruct (ptr (only l r) =? 0) eqn:E0; cbn [negb] in E.
    + injection E as ->. by apply Z.eqb_eq in E0 as ->.
    + by rewrite E.
  - destruct (cut_below _ _ _ _ _ _ _ _ _ _ _ Ho Hl) as (-> & -> & -> & n & m1 & m2 & E1 & E2 & H'). cbn [mbind option_bind].
    assert (at_splay (mk s (only l r) w P bP) c ((N, n) :: R') m2) as H2 by by rewrite at_splay_plug in *.
    assert (exists A B, mk s (only l r) w P bP = Branch A P bP B) as (A & B & EB) by (destruct s; eauto).
    rewrite EB in H2. destruct (RtlSplay_run _ _ _ _ _ _ _ H2) as (m3 & A' & B' & b0 & E3 & H3 & Ha).
    exists m3, (Branch A' P bP B'), n. split; [|split; [by apply at_splay_plug in H3|]].
    + destruct (ptr (only l r) =? 0) eqn:E0; cbn [negb] in E2.
      * apply Z.eqb_eq in E0. rewrite E0 in E1. injection E2 as ->. rewrite E1. done.
      * rewrite E1. cbn [mbind option_bind]. rewrite E2. done.
    + rewrite Ha, <- EB. done.
Qed.

(** A context inside another. *)
Fixpoint capp (i c : ctx) : ctx :=
  match i with Root _ => c | Frame s a b u i' => Frame s a b u (capp i' c) end.

Lemma plug_capp t i c : plug t (capp i c) = plug (plug t i) c.
Proof. revert t. induction i as [b|s a b u i IH]; intros t; [done|]. simpl. apply IH. Qed.

Lemma outermost_capp x i c : outermost x (capp i c) = outermost (outermost x i) c.
Proof. revert x. induction i as [b|s a b u i IH]; intros x; [done|]. simpl. apply IH. Qed.

(** The swap of [RtlDelete] and [RtlDeleteNoSplay]: afterwards the record has at most one
    child, and the order is the old one but for the record and its predecessor. *)
Lemma swap_predecessor m l N b r c R' :
  at_splay (Branch l N b r) c R' m ->
  exists SP m' u v c', SwapWithPredecessor m N = Some (SP, m') /\
    at_splay (Branch u N b v) c' R' m' /\ (u = Leaf \/ v = Leaf) /\
    addrs (plug (only u v) c') = reverse (beyond L c) ++ (addrs l ++ addrs r) ++ beyond R c /\
    (if bool_decide (l = Leaf) || bool_decide (r = Leaf) then m' = m /\ plug (Branch u N b v) c' = plug (Branch l N b r) c
     else outermost N c' = outermost SP c).
Proof.
  intros Ho. unfold SwapWithPredecessor.
  destruct (child_ptrs _ _ _ _ _ _ _ Ho) as (El & Er & Nl & Nr). rewrite El, Er. cbn [mbind option_bind].
  rewrite Nl, Nr. destruct (decide (l = Leaf \/ r = Leaf)) as [Hl|Hl].
  - exists 0, m, l, r, c. replace (negb _ && negb _) with false by (destruct Hl as [-> | ->]; by rewrite ?andb_false_r).
    rewrite addrs_plug, only_addrs by done.
    replace (bool_decide (l = Leaf) || bool_decide (r = Leaf)) with true by (destruct Hl as [-> | ->]; by rewrite ?orb_true_r).
    done.
  - assert (l <> Leaf /\ r <> Leaf) as [Hl1 Hl2] by tauto. rewrite !bool_decide_false by done. cbn [negb andb orb].
    destruct (extreme_place R l (Root 0) Hl1) as (u & SP & bd & inner & E1 & _ & E3 & E4 & _). simpl in E1, E4.
    unfold RtlSubtreePredecessor. rewrite El. cbn [mbind option_bind]. rewrite Nl, bool_decide_false by done.
    pose proof (owns_size _ _ _ Ho) as Hsz. cbn [cells] in Hsz. rewrite !length_app, length_cells in Hsz.
    rewrite (descend_run R l F _ m N ((N, mkLinks (top (outermost N c) c) (ptr l) (ptr r) b) :: cells N r
      ++ rcells (outermost N c) N c ++ R') (path_fuel m) Ho) by (simpl; (done || solve_Permutation || unfold path_fuel; lia)).
    rewrite E3. cbn [mbind option_bind]. rewrite E1 in Ho. destruct (swap_run _ _ _ _ _ _ _ _ _ _ Ho) as (m' & -> & H').
    cbn [mbind option_bind]. exists SP, m', u, Leaf, (capp inner (Frame L SP bd r c)). split_and!; [done| |by right| |].
    + rewrite at_splay_plug in *. by rewrite plug_capp.
    + replace (only u Leaf) with u by by destruct u. rewrite plug_capp, E1. cbn [plug mk]. rewrite !addrs_plug. simpl.
      rewrite !addrs_plug, E4, !app_nil_r. simpl. by reassoc.
    + by rewrite outermost_capp.
Qed.

Lemma delete_run m l N b r c R' :
  at_splay (Branch l N b r) c R' m ->
  exists m' t n, RtlDelete m N = Some (ptr t, m') /\ splay_tree t ((N, n) :: R') m' /\
    addrs t = reverse (beyond L c) ++ (addrs l ++ addrs r) ++ beyond R c.
Proof.
  intros Ho. destruct (swap_predecessor m l N b r c R' Ho) as (SP & m1 & u & v & c' & E1 & H1 & Hl & Ha & _).
  unfold RtlDelete. rewrite E1. cbn [mbind option_bind].
  destruct (delete_single m1 u N b v c' R' H1 Hl) as (m' & t & n & E & H & At). exists m', t, n.
  split; [exact E|]. split; [done|]. by rewrite At.
Qed.

(** The part of [RtlDeleteNoSplay] after the swap. *)
Lemma detach_single m l N b r c R' Root0 :
  at_splay (Branch l N b r) c R' m -> l = Leaf \/ r = Leaf -> Root0 = outermost N c ->
  exists m' n,
    (l ← RtlLeftChild m N;
     r ← RtlRightChild m N;
     root ← RtlIsRoot m N;
     if (l =? 0) && (r =? 0) then
       if (root : bool) then Some (0, m) else
       P ← RtlParent m N;
       left ← RtlIsLeftChild m N;
       m ← (if (left : bool) then set_left m P 0 else set_right m P 0);
       Some (Root0, m)
     else
       let C := if negb (l =? 0) then l else r in
       if root then m ← set_parent m C C; Some (C, m) else
       P ← RtlParent m N;
       left ← RtlIsLeftChild m N;
       m ← (if (left : bool) then set_left m P C else set_right m P C);
       m ← set_parent m C P;
       Some (Root0, m)) = Some (ptr (plug (only l r) c), m') /\
    splay_tree (plug (only l r) c) ((N, n) :: R') m'.
Proof.
  intros Ho Hl HR. destruct (child_ptrs _ _ _ _ _ _ _ Ho) as (-> & -> & Nl & Nr). cbn [mbind option_bind].
  assert ((if negb (ptr l =? 0) then ptr l else ptr r) = ptr (only l r)) as -> by (rewrite Nl; by destruct l).
  assert ((ptr l =? 0) && (ptr r =? 0) = (ptr (only l r) =? 0)) as -> by (destruct Hl as [-> | ->]; [|destruct l]; simpl; by rewrite ?andb_true_r).
  destruct c as [b0|s P bP w c].
  - destruct (cut_root _ _ _ _ _ _ _ Ho Hl) as (-> & n & m' & E & H'). cbn [mbind option_bind].
    exists m', n. split; [|by apply at_splay_plug in H']. cbn [plug].
    destruct (ptr (only l r) =? 0) eqn:E0; cbn [negb] in E.
    + injection E as ->. by apply Z.eqb_eq in E0 as ->.
    + by rewrite E.
  - destruct (cut_below _ _ _ _ _ _ _ _ _ _ _ Ho Hl) as (-> & -> & -> & n & m1 & m2 & E1 & E2 & H'). cbn [mbind option_bind].
    exists m2, n. split; [|by apply at_splay_plug in H'].
    rewrite ptr_plug. cbn [outermost] in *. rewrite <- HR.
    destruct (ptr (only l r) =? 0) eqn:E0; cbn [negb] in E2.
    + apply Z.eqb_eq in E0. rewrite E0 in E1. injection E2 as ->. by rewrite E1.
    + rewrite E1. cbn [mbind option_bind]. by rewrite E2.
Qed.

Lemma root_test m l N b r c R' : at_splay (Branch l N b r) c R' m ->
  RtlIsRoot m N = Some (match c with Root _ => true | Frame _ _ _ _ _ => false end).
Proof.
  unfold at_splay. cbn [cells ptr]. intros Ho. destruct c as [b0|s P bP w c]; cbn [outermost top rcells] in *.
  - rewrite (run_is_root _ m N (mkLinks N (ptr l) (ptr r) b) Ho) by (rewrite !elem_of_app, elem_of_cons; tauto).
    simpl. by rewrite Z.eqb_refl.
  - apply (frame_not_root _ m N (mkLinks P (ptr l) (ptr r) b) P (links s (top (outermost P c) c) N (ptr w) bP)
      (cells N l ++ cells N r ++ cells P w ++ rcells (outermost P c) P c ++ R') Ho); [solve_Permutation|done].
Qed.

Lemma delete_no_splay_run m l N b r c R' :
  at_splay (Branch l N b r) c R' m ->
  exists m' t n, RtlDeleteNoSplay m N (ptr (plug (Branch l N b r) c)) = Some (ptr t, m') /\
    splay_tree t ((N, n) :: R') m' /\ addrs t = reverse (beyond L c) ++ (addrs l ++ addrs r) ++ beyond R c.
Proof.
  intros Ho. destruct (swap_predecessor m l N b r c R' Ho) as (SP & m1 & u & v & c' & E1 & H1 & Hl & Ha & Hc).
  unfold RtlDeleteNoSplay. destruct (child_ptrs _ _ _ _ _ _ _ Ho) as (-> & -> & Nl & Nr). cbn [mbind option_bind].
  rewrite (root_test _ _ _ _ _ _ _ Ho). cbn [mbind option_bind]. rewrite E1. cbn [mbind option_bind].
  set (Root0 := if negb (ptr l =? 0) && negb (ptr r =? 0) && match c with Root _ => true | Frame _ _ _ _ _ => false end
                then SP else ptr (plug (Branch l N b r) c)).
  destruct (detach_single m1 u N b v c' R' Root0 H1 Hl) as (m' & n & E & H).
  - subst Root0. rewrite Nl, Nr. rewrite <- negb_orb.
    destruct (bool_decide (l = Leaf) || bool_decide (r = Leaf)); cbn [negb andb].
    + destruct Hc as [_ Hc]. by rewrite <- Hc, ptr_plug.
    + rewrite Hc, ptr_plug. by destruct c.
  - exists m', (plug (only u v) c'), n. by split; [exact E|].
Qed.

(** ** Walking *)

Lemma splay_is_child s m u x b v c G : at_splay (Branch u x b v) c G m ->
  is_child s m x = Some (match c with Root _ => false | Frame t _ _ _ _ => bool_decide (t = s) end).
Proof.
  unfold at_splay. cbn [cells ptr]. intros Ho. destruct c as [b0|t P bP w c]; cbn [outermost top rcells] in *.
  - apply (root_no_child _ m s x u v b G Ho). solve_Permutation.
  - apply (frame_child _ m s x (mkLinks P (ptr u) (ptr v) b) t P bP w (top (outermost P c) c)
      (cells x u ++ cells x v ++ rcells (outermost P c) P c ++ G) Ho); [solve_Permutation|done].
Qed.

Lemma splay_parent m u x b v c G : at_splay (Branch u x b v) c G m -> RtlParent m x = Some (top (outermost x c) c).
Proof.
  unfold at_splay. cbn [cells ptr]. intros Ho. eapply (read_p Ho x). rewrite !elem_of_app, elem_of_cons. left. right. by left.
Qed.

Lemma splay_ascend s fuel m u x b v c G : at_splay (Branch u x b v) c G m -> (frames c <= fuel)%nat ->
  (y ← Ascend s fuel m x; b ← is_child (opp s) m y; if (b : bool) then RtlParent m y else Some 0)
  = Some (hd 0 (beyond s c)).
Proof.
  revert fuel u x b v. induction c as [b0|t a b' w c IH]; intros fuel u x b v Ho Hf.
  - destruct fuel; cbn [Ascend]; rewrite (splay_is_child s _ _ _ _ _ _ _ Ho); cbn [mbind option_bind];
      by rewrite (splay_is_child (opp s) _ _ _ _ _ _ _ Ho).
  - destruct fuel as [|fuel]; [simpl in Hf; lia|]. cbn [Ascend].
    rewrite (splay_is_child s _ _ _ _ _ _ _ Ho), (splay_parent _ _ _ _ _ _ _ Ho). cbn [mbind option_bind beyond].
    case_bool_decide as Hs.
    + assert (exists A B, mk t (Branch u x b v) w a b' = Branch A a b' B) as (A & B & EB) by (destruct t; eauto).
      cbn [mbind option_bind top]. apply (IH fuel A a b' B); [|simpl in Hf; lia].
      rewrite <- EB. by rewrite at_splay_plug in *.
    + cbn [mbind option_bind]. rewrite (splay_is_child (opp s) _ _ _ _ _ _ _ Ho). cbn [mbind option_bind].
      rewrite bool_decide_true by (destruct s, t; done). by rewrite (splay_parent _ _ _ _ _ _ _ Ho).
Qed.

Lemma splay_neighbour s m u v a b c G :
  at_splay (mk s u v a b) c G m ->
  (Child ← child m (s, a);
   if negb (Child =? 0) then Descend (opp s) (path_fuel m) m Child else
   Child ← Ascend s (path_fuel m) m a;
   side ← is_child (opp s) m Child;
   if (side : bool) then RtlParent m Child else Some 0)
  = Some (hd 0 (toward s u ++ beyond s c)).
Proof.
  intros Ho. pose proof (owns_size _ _ _ Ho) as Hsz.
  assert (at_splay u (Frame s a b v c) G m) as Hu by by rewrite at_splay_plug in *.
  assert (exists A B, mk s u v a b = Branch A a b B) as (A & B & EB) by (destruct s; eauto).
  assert (child m (s, a) = Some (ptr u)) as ->.
  { unfold at_splay in Ho. rewrite cells_mk, ptr_mk in Ho. eapply (read_child Ho s a). by left. }
  cbn [mbind option_bind]. rewrite (splay_ptr_null _ _ _ _ Hu).
  rewrite !length_app in Hsz. pose proof (frames_cells (outermost a c) a c) as Hf. rewrite ptr_mk in Hsz.
  case_bool_decide as Hl; cbn [negb].
  - subst u. rewrite EB in Ho. rewrite (splay_ascend s _ _ _ _ _ _ _ _ Ho); [by destruct s|]. unfold path_fuel. lia.
  - pose proof (owns_size _ _ _ Hu) as Hsu. rewrite length_app, length_cells in Hsu.
    unfold at_splay in Hu. erewrite (descend_run (opp s) u F _ m _ _ (path_fuel m) Hu) by (done || unfold path_fuel; lia).
    f_equal. rewrite <- (toward_extreme (opp s) u 0 (beyond s c)) by done. by destruct s.
Qed.

Lemma splay_successor m l a b r c G : at_splay (Branch l a b r) c G m ->
  RtlRealSuccessor m a = Some (hd 0 (addrs r ++ beyond R c)).
Proof. intros Ho. exact (splay_neighbour R m r l a b c G Ho). Qed.

Lemma splay_predecessor m l a b r c G : at_splay (Branch l a b r) c G m ->
  RtlRealPredecessor m a = Some (hd 0 (reverse (addrs l) ++ beyond L c)).
Proof. intros Ho. exact (splay_neighbour L m l r a b c G Ho). Qed.
End Steps.

(** ** What the operations promise *)

(** C20: [RtlSplay] of any record of a tree terminates, makes the record the root, and keeps the
    records in order; nothing outside the tree changes. *)
Theorem splay_moves_to_root F t N G m :
  splay_tree F t G m -> N ∈ addrs t ->
  exists m' A b B, RtlSplay m N = Some (N, m') /\ splay_tree F (Branch A N b B) G m' /\
    addrs (Branch A N b B) = addrs t.
Proof.
  intros Ho Hx. destruct (address_place N t (Root 0) Hx) as (l & b & r & c & E1 & _).
  change t with (plug t (Root 0)) in Ho |- *. rewrite E1 in Ho |- *. rewrite <- at_splay_plug in Ho.
  destruct (RtlSplay_run F m l N b r c G Ho) as (m' & A & B & b0 & E & H & Ha).
  exists m', A, b, B. split_and!; [done| |done]. by apply at_splay_plug in H.
Qed.

(** C19: [RtlDelete] and [RtlDeleteNoSplay] take exactly the given record out of a tree, wherever
    it is, keep the others in order and return the new root, NULL when no record is left. *)
Theorem delete_removes_record F t N G m pre post :
  splay_tree F t G m -> addrs t = pre ++ N :: post ->
  (exists m' t' n, RtlDelete m N = Some (ptr t', m') /\ splay_tree F t' ((N, n) :: G) m' /\ addrs t' = pre ++ post) /\
  (exists m' t' n, RtlDeleteNoSplay m N (ptr t) = Some (ptr t', m') /\ splay_tree F t' ((N, n) :: G) m' /\
     addrs t' = pre ++ post).
Proof.
  intros Ho Ha. assert (N ∈ addrs t) as Hx by (rewrite Ha; set_solver).
  assert (NoDup (addrs t)) as Hn.
  { apply owns_nodup in Ho. rewrite fmap_app, cells_addrs in Ho. by apply NoDup_app in Ho as [Ho _]. }
  destruct (address_place N t (Root 0) Hx) as (l & b & r & c & E1 & _).
  change (plug t (Root 0)) with t in E1. rewrite Ha in Hn. rewrite E1 in Ho, Ha |- *. rewrite <- at_splay_plug in Ho.
  rewrite addrs_plug in Ha. simpl in Ha. rewrite <- (app_assoc (addrs l)), (app_assoc (reverse _)) in Ha. simpl in Ha.
  symmetry in Ha. apply NoDup_split in Ha as [-> ->]; [|done]. split.
  - destruct (delete_run F m l N b r c G Ho) as (m' & t' & n & E & H & A). exists m', t', n.
    split_and!; [done|done|]. rewrite A, <- !app_assoc. done.
  - destruct (delete_no_splay_run F m l N b r c G Ho) as (m' & t' & n & E & H & A). exists m', t', n.
    split_and!; [done|done|]. rewrite A, <- !app_assoc. done.
Qed.

(** [RtlRealSuccessor] and [RtlRealPredecessor] of a record return the record after and the
    one before it in the order of the tree, and NULL at the ends. *)
Theorem real_neighbours_in_order F t G m pre x post :
  splay_tree F t G m -> addrs t = pre ++ x :: post ->
  RtlRealSuccessor m x = Some (hd 0 post) /\ RtlRealPredecessor m x = Some (hd 0 (reverse pre)).
Proof.
  intros Ho Ha. assert (x ∈ addrs t) as Hx by (rewrite Ha; set_solver).
  assert (NoDup (addrs t)) as Hn.
  { apply owns_nodup in Ho. rewrite fmap_app, cells_addrs in Ho. by apply NoDup_app in Ho as [Ho _]. }
  destruct (address_place x t (Root 0) Hx) as (l & b & r & c & E1 & _).
  change (plug t (Root 0)) with t in E1. rewrite Ha in Hn. rewrite E1 in Ho, Ha. rewrite <- at_splay_plug in Ho.
  rewrite addrs_plug in Ha. simpl in Ha. rewrite <- (app_assoc (addrs l)), (app_assoc (reverse _)) in Ha. simpl in Ha.
  symmetry in Ha. apply NoDup_split in Ha as [-> ->]; [|done]. split.
  - by rewrite (splay_successor F m l x b r c G Ho).
  - rewrite (splay_predecessor F m l x b r c G Ho), reverse_app, reverse_involutive. done.
Qed.

Module SplayExample.

(** Six records; the record at 16 is in the left subtree of a left child. *)
Definition sample : tree :=
  Branch (Branch (Branch (Branch Leaf 16 0 Leaf) 32 0 (Branch Leaf 48 0 Leaf)) 64 0 Leaf) 80 0 (Branch Leaf 96 0 Leaf).
Definition store : nodes := list_to_map (cells (ptr sample) sample).

Lemma sample_tree : splay_tree ∅ sample [] store.
Proof.
  unfold splay_tree. rewrite app_nil_r.
  split; [by apply (bool_decide_unpack _)|by apply (bool_decide_unpack _)|apply map_disjoint_empty_r|by rewrite map_union_empty].
Qed.

Lemma splay_moves_to_root_witness : exists m' A b B,
  RtlSplay store 48 = Some (48, m') /\ splay_tree ∅ (Branch A 48 b B) [] m' /\
  addrs (Branch A 48 b B) = [16; 32; 48; 64; 80; 96].
Proof. apply (splay_moves_to_root ∅ sample 48 [] store sample_tree). by apply (bool_decide_unpack _). Defined.

Lemma delete_removes_record_witness :
  (exists m' t' n, RtlDelete store 80 = Some (ptr t', m') /\ splay_tree ∅ t' [(80, n)] m' /\
     addrs t' = [16; 32; 48; 64; 96]) /\
  (exists m' t' n, RtlDeleteNoSplay store 80 80 = Some (ptr t', m') /\ splay_tree ∅ t' [(80, n)] m' /\
     addrs t' = [16; 32; 48; 64; 96]).
Proof. apply (delete_removes_record ∅ sample 80 [] store [16; 32; 48; 64] [96] sample_tree). reflexivity. Defined.

Lemma real_neighbours_in_order_witness : RtlRealSuccessor store 48 = Some 64 /\ RtlRealPredecessor store 48 = Some 32.
Proof. apply (real_neighbours_in_order ∅ sample [] store [16; 32] 48 [64; 80; 96] sample_tree). reflexivity. Defined.

End SplayExample.
