(* ===== verification/GenericTable.v ===== *)
(** * Generic tables on splay trees

    [sdk/lib/rtl/generictable.c]. An element is a record with splay links, an entry of the
    list in insertion order, and the user data. The state holds the links of both kinds by
    address; [ListHead] is the address of [Table->InsertOrderList]. *)

From stdpp Require Import base option gmap.
From Stdlib Require Import ZArith.
From S2P Require Import Prelude ListEntry Tree Avl Splay.
Open Scope Z_scope.

Record RTL_GENERIC_TABLE := mkGeneric {
  TableRoot : Z;
  OrderedPointer : Z;
  WhichOrderedElement : Z;
  NumberGenericTableElements : Z
}.

Record table_state (V : Type) := mkTableState {
  SplayNodes : nodes;
  Entries : gmap Z LIST_ENTRY;
  Elements : gmap Z V;
  GenericTable : RTL_GENERIC_TABLE
}.
Arguments mkTableState {V}.
Arguments SplayNodes {V}.
Arguments Entries {V}.
Arguments Elements {V}.
Arguments GenericTable {V}.

(** [&Node->ListEntry], after the three pointers of the splay links. *)
Definition ListEntryOf (Node : Z) : Z := Node + 12.

(** The client's allocate routine: [None] is NULL; a block it returns was not in use. *)
Class TableAllocator (V : Type) := {
  table_allocate : table_state V -> option Z;
  table_fresh σ a : table_allocate σ = Some a ->
    a <> 0 /\ SplayNodes σ !! a = None /\ Entries σ !! ListEntryOf a = None /\ Elements σ !! a = None
}.

Section Generic.
Context {V : Type} (CompareRoutine : V -> V -> RTL_GENERIC_COMPARE_RESULTS) (ListHead : Z).

Definition with_root (T : RTL_GENERIC_TABLE) (Root : Z) : RTL_GENERIC_TABLE :=
  mkGeneric Root (OrderedPointer T) (WhichOrderedElement T) (NumberGenericTableElements T).

Definition RtlIsGenericTableEmpty (σ : table_state V) : bool := TableRoot (GenericTable σ) =? 0.

Definition RtlNumberGenericTableElements (σ : table_state V) : Z :=
  NumberGenericTableElements (GenericTable σ).

Fixpoint GenericFindLoop (fuel : nat) (m : nodes) (data : gmap Z V) (Buffer : V) (CurrentNode : Z)
    : option (TABLE_SEARCH_RESULT * Z) :=
  match fuel with
  | O => None
  | S fuel' =>
      UserData ← data !! CurrentNode;
      match CompareRoutine Buffer UserData with
      | GenericLessThan =>
          ChildNode ← RtlLeftChild m CurrentNode;
          if negb (ChildNode =? 0) then GenericFindLoop fuel' m data Buffer ChildNode
          else Some (TableInsertAsLeft, CurrentNode)
      | GenericGreaterThan =>
          ChildNode ← RtlRightChild m CurrentNode;
          if negb (ChildNode =? 0) then GenericFindLoop fuel' m data Buffer ChildNode
          else Some (TableInsertAsRight, CurrentNode)
      | GenericEqual => Some (TableFoundNode, CurrentNode)
      end
  end.

(** [*NodeOrParent] is [None] when it is not stored. *)
Definition RtlpFindGenericTableNodeOrParent (σ : table_state V) (Buffer : V)
    : option (TABLE_SEARCH_RESULT * option Z) :=
  if RtlIsGenericTableEmpty σ then Some (TableEmptyTree, None) else
  '(Result, Node) ← GenericFindLoop (path_fuel (SplayNodes σ)) (SplayNodes σ) (Elements σ) Buffer
                      (TableRoot (GenericTable σ));
  Some (Result, Some Node).

Definition RtlInitializeGenericTable (σ : table_state V) : option (table_state V) :=
  l ← InitializeListHead (Entries σ) ListHead;
  Some (mkTableState (SplayNodes σ) l (Elements σ) (mkGeneric 0 ListHead 0 0)).

(** [Table->TableRoot = RtlSplay(Node)]. *)
Definition SplayTable (σ : table_state V) (Node : Z) : option (table_state V) :=
  '(NewRoot, m) ← RtlSplay (SplayNodes σ) Node;
  Some (mkTableState m (Entries σ) (Elements σ) (with_root (GenericTable σ) NewRoot)).

(** The results are the state, the address of the node whose user data is returned ([None]
    is NULL), and [*NewElement]. *)
Definition RtlInsertElementGenericTableFull `{TableAllocator V} (σ : table_state V) (Buffer : V)
    (NodeOrParent : Z) (SearchResult : TABLE_SEARCH_RESULT) : option (table_state V * option Z * bool) :=
  if negb (bool_decide (SearchResult = TableFoundNode)) then
    match table_allocate σ with
    | None => Some (σ, None, false)
    | Some NewNode =>
        let T := GenericTable σ in
        m ← RtlInitializeSplayLinks (<[NewNode := mkLinks 0 0 0 0]> (SplayNodes σ)) NewNode;
        l ← InsertTailList (<[ListEntryOf NewNode := mkEntry 0 0]> (Entries σ)) ListHead (ListEntryOf NewNode);
        let count := u32 (NumberGenericTableElements T + 1) in
        '(m, NewRoot) ←
          (match SearchResult with
           | TableEmptyTree => Some (m, NewNode)
           | TableInsertAsLeft => m ← RtlInsertAsLeftChild m NodeOrParent NewNode; Some (m, TableRoot T)
           | _ => m ← RtlInsertAsRightChild m NodeOrParent NewNode; Some (m, TableRoot T)
           end);
        σ' ← SplayTable (mkTableState m l (<[NewNode := Buffer]> (Elements σ))
               (mkGeneric NewRoot (OrderedPointer T) (WhichOrderedElement T) count)) NewNode;
        Some (σ', Some NewNode, true)
    end
  else
    σ' ← SplayTable σ NodeOrParent;
    Some (σ', Some NodeOrParent, false).

Definition RtlInsertElementGenericTable `{TableAllocator V} (σ : table_state V) (Buffer : V)
    : option (table_state V * option Z * bool) :=
  '(Result, NodeOrParent) ← RtlpFindGenericTableNodeOrParent σ Buffer;
  RtlInsertElementGenericTableFull σ Buffer (default 0 NodeOrParent) Result.

(** The results are the state, the returned node, [*NodeOrParent] and [*SearchResult]. *)
Definition RtlLookupElementGenericTableFull (σ : table_state V) (Buffer : V)
    : option (table_state V * option Z * option Z * TABLE_SEARCH_RESULT) :=
  '(SearchResult, NodeOrParent) ← RtlpFindGenericTableNodeOrParent σ Buffer;
  if negb (bool_decide (SearchResult = TableFoundNode)) then Some (σ, None, NodeOrParent, SearchResult) else
  Node ← NodeOrParent;
  σ' ← SplayTable σ Node;
  Some (σ', Some Node, NodeOrParent, SearchResult).

Definition RtlLookupElementGenericTable (σ : table_state V) (Buffer : V)
    : option (table_state V * option Z) :=
  '(σ', Node, _, _) ← RtlLookupElementGenericTableFull σ Buffer;
  Some (σ', Node).

Definition RtlDeleteElementGenericTable (σ : table_state V) (Buffer : V)
    : option (bool * table_state V) :=
  '(Result, NodeOrParent) ← RtlpFindGenericTableNodeOrParent σ Buffer;
  if negb (bool_decide (Result = TableFoundNode)) then Some (false, σ) else
  Node ← NodeOrParent;
  '(NewRoot, m) ← RtlDelete (SplayNodes σ) Node;
  '(_, l) ← RemoveEntryList (Entries σ) (ListEntryOf Node);
  Some (true, mkTableState (delete Node m) (delete (ListEntryOf Node) l) (delete Node (Elements σ))
    (mkGeneric NewRoot ListHead 0 (u32 (NumberGenericTableElements (GenericTable σ) - 1)))).

Definition RtlEnumerateGenericTable (σ : table_state V) (Restart : bool)
    : option (option Z * table_state V) :=
  if RtlIsGenericTableEmpty σ then Some (None, σ) else
  if Restart then
    FoundNode ← Descend L (path_fuel (SplayNodes σ)) (SplayNodes σ) (TableRoot (GenericTable σ));
    σ' ← SplayTable σ FoundNode;
    Some (if negb (FoundNode =? 0) then Some FoundNode else None, σ')
  else
    FoundNode ← RtlRealSuccessor (SplayNodes σ) (TableRoot (GenericTable σ));
    if negb (FoundNode =? 0) then
      σ' ← SplayTable σ FoundNode;
      Some (Some FoundNode, σ')
    else Some (None, σ).

(** The results are the returned node and [*RestartKey]. *)
Definition RtlEnumerateGenericTableWithoutSplaying (σ : table_state V) (RestartKey : Z)
    : option (option Z * Z) :=
  if RtlIsGenericTableEmpty σ then Some (None, RestartKey) else
  if RestartKey =? 0 then
    FoundNode ← Descend L (path_fuel (SplayNodes σ)) (SplayNodes σ) (TableRoot (GenericTable σ));
    Some (if negb (FoundNode =? 0) then Some FoundNode else None, FoundNode)
  else
    FoundNode ← RtlRealSuccessor (SplayNodes σ) RestartKey;
    if negb (FoundNode =? 0) then Some (Some FoundNode, FoundNode) else Some (None, RestartKey).

(** Going along the list in insertion order, backward or forward. *)
Fixpoint BlinkSteps (n : nat) (l : gmap Z LIST_ENTRY) (OrderedNode : Z) : option Z :=
  match n with
  | O => Some OrderedNode
  | S n' => p ← blink l OrderedNode; BlinkSteps n' l p
  end.
Fixpoint FlinkSteps (n : nat) (l : gmap Z LIST_ENTRY) (OrderedNode : Z) : option Z :=
  match n with
  | O => Some OrderedNode
  | S n' => p ← flink l OrderedNode; FlinkSteps n' l p
  end.

(** The results are the node the returned address belongs to ([None] is NULL) and the state.
    The loop that follows the list directly leaves zero in [NextI]. *)
Definition RtlGetElementGenericTable (σ : table_state V) (I : Z) : option (option Z * table_state V) :=
  let NextI := u32 (I + 1) in
  let T := GenericTable σ in
  let OrderedNode := OrderedPointer T in
  let OrderedElement := WhichOrderedElement T in
  let ElementCount := NumberGenericTableElements T in
  if (I =? 2 ^ 32 - 1) || (ElementCount <? NextI) then Some (None, σ) else
  if NextI =? OrderedElement then Some (Some (OrderedNode - 12), σ) else
  '(OrderedNode, NextI) ←
    (if NextI <? OrderedElement then
       if OrderedElement / 2 <? NextI then
         p ← BlinkSteps (Z.to_nat (OrderedElement - NextI)) (Entries σ) OrderedNode; Some (p, NextI)
       else
         p ← FlinkSteps (Z.to_nat NextI) (Entries σ) ListHead; Some (p, 0)
     else
       let DeltaUp := NextI - OrderedElement in
       let DeltaDown := (ElementCount - NextI) + 1 in
       if DeltaUp <=? DeltaDown then
         p ← BlinkSteps (Z.to_nat DeltaUp) (Entries σ) OrderedNode; Some (p, NextI)
       else
         p ← BlinkSteps (Z.to_nat DeltaDown) (Entries σ) ListHead; Some (p, NextI));
  Some (Some (OrderedNode - 12), mkTableState (SplayNodes σ) (Entries σ) (Elements σ)
    (mkGeneric (TableRoot T) OrderedNode NextI ElementCount)).

End Generic.
