(* ===== verification/GenericTableProps.v ===== *)
(** * Generic tables on splay trees: properties

    The table as a sorted collection whose root is the element accessed last, the list in
    insertion order, and what each operation does to them. *)

From stdpp Require Import base option list gmap sorting list_tactics.
From Stdlib Require Import ZArith Lia.
From S2P Require Import Prelude ListEntry Tree Avl TableOrder Splay SplayProps GenericTable.
Open Scope Z_scope.

Lemma dlist_same (m m' : gmap Z LIST_ENTRY) h l :
  (forall p, p ∈ h :: l -> m' !! p = m !! p) -> dlist m h l -> dlist m' h l.
Proof.
  intros H [Hn Hp]. split; [done|]. eapply path_frame; [exact Hp| |]; intros p Hin; unfold flink, blink.
  - by rewrite H.
  - rewrite H; [done|]. set_solver.
Qed.

Section Generic.
Context {V : Type} (cmp : V -> V -> RTL_GENERIC_COMPARE_RESULTS) `{!CompareOrder cmp}.
Context (ListHead : Z) (F : nodes).

(** The elements [E] in the order of the compare routine, and their addresses in insertion
    order. *)
Record generic_at (σ : table_state V) (E : list (Z * V)) (order : list Z) (t : tree) : Prop := {
  g_tree : splay_tree F t [] (SplayNodes σ);
  g_root : TableRoot (GenericTable σ) = ptr t;
  g_addrs : addrs t = E.*1;
  g_data : Forall (fun e => Elements σ !! e.1 = Some e.2) E;
  g_sorted : StronglySorted (less cmp) E.*2;
  g_count : NumberGenericTableElements (GenericTable σ) = Z.of_nat (length E);
  g_small : Z.of_nat (length E) < 2 ^ 32;
  g_list : dlist (Entries σ) ListHead (ListEntryOf <$> order);
  g_order : order ≡ₚ E.*1
}.

Lemma splay_navigable G m : navigable m (fun t c => at_splay F t c G m).
Proof.
  split; intros; [|rewrite at_splay_plug in *; done|rewrite at_splay_plug in *; done].
  destruct (child_ptrs F m l x b r c G H) as (C1 & C2 & N1 & N2). by destruct s.
Qed.

Lemma generic_empty σ E order t : generic_at σ E order t -> (t = Leaf <-> E = []).
Proof.
  intros H. pose proof (g_addrs _ _ _ _ H) as Ha. split; intros ->.
  - by destruct E.
  - destruct t as [|l x b r]; [done|]. simpl in Ha. by destruct (addrs l).
Qed.

Lemma generic_at_root t G m : splay_tree F t G m -> at_splay F t (Root 0) G m.
Proof. intros H. by apply at_splay_plug. Qed.

Lemma generic_is_empty σ E order t : generic_at σ E order t -> RtlIsGenericTableEmpty σ = bool_decide (E = []).
Proof.
  intros H. unfold RtlIsGenericTableEmpty. rewrite (g_root _ _ _ _ H).
  rewrite (splay_ptr_null F t (Root 0) [] _ (generic_at_root _ _ _ (g_tree _ _ _ _ H))).
  apply bool_decide_ext. by eapply generic_empty.
Qed.

Lemma generic_path σ E order t : generic_at σ E order t -> (length E < path_fuel (SplayNodes σ))%nat.
Proof.
  intros H. pose proof (owns_size _ _ _ (g_tree _ _ _ _ H)) as Hs.
  rewrite length_app, length_cells, (g_addrs _ _ _ _ H), length_fmap in Hs. unfold path_fuel. lia.
Qed.

Lemma GenericFindLoop_eq fuel m data B x : GenericFindLoop cmp fuel m data B x = FindNodeLoop cmp fuel m data B x.
Proof.
  revert x. induction fuel as [|fuel IH]; intros x; [done|]. simpl. destruct (data !! x) as [v|]; [|done]. simpl.
  destruct (cmp B v); [destruct (RtlLeftChild m x)|destruct (RtlRightChild m x)|]; simpl; by rewrite ?IH.
Qed.

Lemma generic_find σ E order t B : generic_at σ E order t ->
  exists res x, RtlpFindGenericTableNodeOrParent cmp σ B
    = Some (res, if bool_decide (E = []) then None else Some x) /\
  search_end cmp 0 B E t 0 res x.
Proof.
  intros H. unfold RtlpFindGenericTableNodeOrParent. rewrite (generic_is_empty _ _ _ _ H).
  case_bool_decide as He.
  - exists TableEmptyTree, 0. split; [done|]. rewrite (proj2 (generic_empty _ _ _ _ H) He).
    apply (search_absent cmp 0 B E Leaf 0 (Root 0) [] []); simpl; done.
  - assert (t <> Leaf) as Ht by (intros Ht; by apply (generic_empty _ _ _ _ H) in Ht).
    rewrite (g_root _ _ _ _ H), GenericFindLoop_eq.
    destruct (find_run cmp 0 (SplayNodes σ) (Elements σ) B E (g_data _ _ _ _ H) (g_sorted _ _ _ _ H)
      _ (splay_navigable [] (SplayNodes σ)) (path_fuel (SplayNodes σ)) t (Root 0)) as (res & x & -> & Hs); try done.
    + apply generic_at_root, (g_tree _ _ _ _ H).
    + apply (g_addrs _ _ _ _ H).
    + pose proof (height_length t) as Hh. rewrite (g_addrs _ _ _ _ H), length_fmap in Hh.
      pose proof (generic_path _ _ _ _ H). lia.
    + intros e _ Hin. by apply not_elem_of_nil in Hin.
    + intros e _ Hin. by apply not_elem_of_nil in Hin.
    + by exists res, x.
Qed.

(** Splaying an element keeps everything but the shape of the tree. *)
Lemma generic_splay σ E order t x : generic_at σ E order t -> x ∈ E.*1 ->
  exists σ' t', SplayTable σ x = Some σ' /\ generic_at σ' E order t' /\ ptr t' = x /\
    Elements σ' = Elements σ.
Proof.
  intros H Hx. unfold SplayTable. rewrite <- (g_addrs _ _ _ _ H) in Hx.
  destruct (address_place x t (Root 0) Hx) as (l & b & r & c & E1 & _).
  pose proof (generic_at_root _ _ _ (g_tree _ _ _ _ H)) as Ho. rewrite at_splay_plug, E1, <- at_splay_plug in Ho.
  destruct (RtlSplay_run F _ _ _ _ _ _ _ Ho) as (m' & A & B & b0 & -> & H' & Ha). cbn [mbind option_bind].
  eexists _, (Branch A x b B). split; [done|]. split; [|done].
  destruct H as [G1 G2 G3 G4 G5 G6 G7 G8 G9]. constructor; simpl; try done.
  rewrite <- G3. change t with (plug t (Root 0)). by rewrite E1, <- Ha.
Qed.

(** ** Insertion *)

Lemma generic_nodup σ E order t : generic_at σ E order t -> NoDup E.*1 /\ (0 ∉ E.*1).
Proof.
  intros H. pose proof (g_tree _ _ _ _ H) as Ho. unfold splay_tree in Ho. rewrite app_nil_r in Ho.
  rewrite <- (g_addrs _ _ _ _ H), <- (cells_addrs (ptr t)). split; [apply (owns_nodup _ _ _ Ho)|apply (owns_nonnull _ _ _ Ho)].
Qed.

(** A new leaf at the empty place [c], which is then splayed. *)
Lemma hang_run m c x n G :
  splay_tree F (plug Leaf c) G m -> x <> 0 -> m !! x = None ->
  exists m1 m2, RtlInitializeSplayLinks (<[x := n]> m) x = Some m1 /\
    match search_of c with
    | TableEmptyTree => Some (m1, x)
    | TableInsertAsLeft => m ← RtlInsertAsLeftChild m1 (top 0 c) x; Some (m, ptr (plug Leaf c))
    | _ => m ← RtlInsertAsRightChild m1 (top 0 c) x; Some (m, ptr (plug Leaf c))
    end = Some (m2, outermost x c) /\
    at_splay F (Branch Leaf x (Balance n) Leaf) c G m2.
Proof.
  intros Ho Hx Hm. apply (owns_alloc _ _ _ x n) in Ho; [|done|done].
  unfold RtlInitializeSplayLinks.
  destruct (run_set_parent [] _ _ _ _ x Ho) as (m1 & -> & H1). cbn [mbind option_bind app] in *.
  destruct (run_set_left [] _ _ _ _ 0 H1) as (m2 & -> & H2). cbn [mbind option_bind app] in *.
  destruct (run_set_right [] _ _ _ _ 0 H2) as (m3 & -> & H3). cbn [app Parent LeftChild RightChild Balance] in *.
  exists m3. destruct c as [b|s a b u c].
  - exists m3. split_and!; [done|done|]. eapply owns_perm; [|done|exact H3]. simpl. solve_Permutation.
  - assert (owns F ((x, mkLinks x 0 0 (Balance n)) :: (a, links s (top (outermost a c) c) 0 (ptr u) b)
      :: cells a u ++ rcells (outermost a c) a c ++ G) m3) as H4.
    { eapply owns_perm; [|done|exact H3]. rewrite cells_plug, ptr_plug. simpl. solve_Permutation. }
    destruct (insert_as_run F s _ m3 a (top (outermost a c) c) 0 (ptr u) b x (mkLinks x 0 0 (Balance n))
      (cells a u ++ rcells (outermost a c) a c ++ G) H4) as (m4 & E4 & H5); [apply perm_swap|].
    exists m4. split_and!; [done| |].
    + cbn [plug outermost]. rewrite ptr_plug, ptr_mk. unfold insert_as in E4. destruct s; simpl in *; by rewrite E4.
    + eapply owns_perm; [|done|exact H5]. simpl. solve_Permutation.
Qed.

Lemma generic_list_insert σ E order t x :
  generic_at σ E order t -> Entries σ !! ListEntryOf x = None ->
  exists l', InsertTailList (<[ListEntryOf x := mkEntry 0 0]> (Entries σ)) ListHead (ListEntryOf x) = Some l' /\
    dlist l' ListHead (ListEntryOf <$> (order ++ [x])).
Proof.
  intros H Hx. pose proof (g_list _ _ _ _ H) as Hd.
  assert (ListEntryOf x ∉ ListHead :: (ListEntryOf <$> order)) as Hn.
  { intros Hin. eapply dlist_is_Some in Hin as [e He]; [|exact Hd]. congruence. }
  destruct (InsertTailList_dlist (<[ListEntryOf x := mkEntry 0 0]> (Entries σ)) ListHead (ListEntryOf <$> order) [] (ListEntryOf x))
    as (l' & E' & Hd' & _).
  - rewrite app_nil_r. eapply dlist_same; [|exact Hd]. intros p Hp. rewrite lookup_insert_ne; [done|]. by intros <-.
  - rewrite lookup_insert_eq. eauto.
  - by rewrite app_nil_r.
  - exists l'. split; [exact E'|]. by rewrite fmap_app.
Qed.

Lemma generic_insert_absent `{!TableAllocator V} σ E order t c pre post B x :
  generic_at σ E order t -> Z.of_nat (length E) + 1 < 2 ^ 32 -> t = plug Leaf c ->
  E = pre ++ post -> Forall (greater cmp B) pre.*2 -> Forall (less cmp B) post.*2 ->
  reverse (beyond L c) = pre.*1 -> beyond R c = post.*1 -> table_allocate σ = Some x ->
  exists σ' t', RtlInsertElementGenericTableFull ListHead σ B (top 0 c) (search_of c) = Some (σ', Some x, true) /\
    generic_at σ' (pre ++ (x, B) :: post) (order ++ [x]) t' /\ ptr t' = x /\
    Elements σ' = <[x := B]> (Elements σ).
Proof.
  intros H Hn Ht HE Hp Hq Hl Hr Hx. unfold RtlInsertElementGenericTableFull.
  rewrite bool_decide_false by (destruct c as [|[] ? ? ? ?]; done). rewrite Hx. cbn [negb].
  destruct (table_fresh _ _ Hx) as (X0 & X1 & X2 & X3).
  pose proof (g_tree _ _ _ _ H) as Ho. rewrite Ht in Ho.
  destruct (hang_run _ c x (mkLinks 0 0 0 0) [] Ho X0 X1) as (m1 & m2 & -> & E2 & H2). cbn [mbind option_bind Balance] in *.
  destruct (generic_list_insert _ _ _ _ x H X2) as (l' & -> & Hd). cbn [mbind option_bind].
  rewrite (g_root _ _ _ _ H), Ht, E2. cbn [mbind option_bind]. unfold SplayTable. cbn [SplayNodes].
  destruct (RtlSplay_run F _ _ _ _ _ _ _ H2) as (m3 & A & C & b0 & -> & H3 & Ha). cbn [mbind option_bind].
  eexists _, (Branch A x 0 C). split; [done|]. split; [|done].
  destruct H as [G1 G2 G3 G4 G5 G6 G7 G8 G9]. constructor; simpl; try done.
  - change (addrs A ++ x :: addrs C) with (addrs (Branch A x 0 C)). rewrite Ha, addrs_plug, fmap_app, Hl, Hr. done.
  - apply insert_data; [done|]. by rewrite <- HE.
  - rewrite fmap_app. rewrite HE, fmap_app in G5. by apply sorted_insert_mid.
  - rewrite G6, HE, !length_app. simpl. rewrite u32_small; [lia|]. rewrite HE, length_app in Hn. lia.
  - rewrite HE, length_app in Hn. rewrite length_app. simpl. lia.
  - rewrite G9, HE, !fmap_app. simpl. solve_Permutation.
Qed.

Lemma generic_insert `{!TableAllocator V} σ E order t B : generic_at σ E order t -> Z.of_nat (length E) + 1 < 2 ^ 32 ->
  (exists pre x v post σ' t', E = pre ++ (x, v) :: post /\ cmp B v = GenericEqual /\
     RtlInsertElementGenericTable cmp ListHead σ B = Some (σ', Some x, false) /\ generic_at σ' E order t' /\ ptr t' = x) \/
  (exists pre post, E = pre ++ post /\ Forall (greater cmp B) pre.*2 /\ Forall (less cmp B) post.*2 /\
     match table_allocate σ with
     | None => RtlInsertElementGenericTable cmp ListHead σ B = Some (σ, None, false)
     | Some x => exists σ' t', RtlInsertElementGenericTable cmp ListHead σ B = Some (σ', Some x, true) /\
         generic_at σ' (pre ++ (x, B) :: post) (order ++ [x]) t' /\ ptr t' = x
     end).
Proof.
  intros H Hn. unfold RtlInsertElementGenericTable.
  destruct (generic_find σ E order t B H) as (res & y & -> & Hs). cbn [mbind option_bind].
  destruct Hs as [l x b r c pre v post Ht Hc HE Hv _ _|c pre post Ht Hc HE Hp Hq Hl Hr].
  - left. destruct (generic_splay σ E order t x H) as (σ' & t' & E' & H' & Hp & _).
    { rewrite HE, fmap_app. set_solver. }
    exists pre, x, v, post, σ', t'. split_and!; [done|done| |done|done].
    unfold RtlInsertElementGenericTableFull. rewrite bool_decide_true by done. cbn [negb].
    rewrite bool_decide_false by (by rewrite HE; destruct pre). change (default 0 (Some x)) with x. by rewrite E'.
  - right. exists pre, post. split_and!; [done|done|done|].
    destruct (table_allocate σ) as [x|] eqn:Hx.
    + assert (RtlInsertElementGenericTableFull ListHead σ B
        (default 0 (if bool_decide (E = []) then None else Some (top 0 c))) (search_of c)
        = RtlInsertElementGenericTableFull ListHead σ B (top 0 c) (search_of c)) as ->
        by (case_bool_decide as He; [|done]; apply (generic_empty _ _ _ _ H) in He; destruct c as [|s a b u c]; [done|];
            rewrite Ht in He; by apply plug_frame in He).
      destruct (generic_insert_absent σ E order t c pre post B x H Hn Ht HE Hp Hq Hl Hr Hx) as (σ' & t' & E' & H' & Hp' & _).
      by exists σ', t'.
    + unfold RtlInsertElementGenericTableFull. rewrite Hx.
      rewrite bool_decide_false by (destruct c as [|[] ? ? ? ?]; done). done.
Qed.

(** ** Lookup, deletion, enumeration *)

Lemma generic_lookup σ E order t B : generic_at σ E order t ->
  (exists pre x v post σ' t', E = pre ++ (x, v) :: post /\ cmp B v = GenericEqual /\
     RtlLookupElementGenericTable cmp σ B = Some (σ', Some x) /\ generic_at σ' E order t' /\ ptr t' = x) \/
  (exists pre post, E = pre ++ post /\ Forall (greater cmp B) pre.*2 /\ Forall (less cmp B) post.*2 /\
     RtlLookupElementGenericTable cmp σ B = Some (σ, None)).
Proof.
  intros H. unfold RtlLookupElementGenericTable, RtlLookupElementGenericTableFull.
  destruct (generic_find σ E order t B H) as (res & y & -> & Hs). cbn [mbind option_bind].
  destruct Hs as [l x b r c pre v post Ht Hc HE Hv _ _|c pre post Ht Hc HE Hp Hq Hl Hr].
  - left. destruct (generic_splay σ E order t x H) as (σ' & t' & E' & H' & Hp & _).
    { rewrite HE, fmap_app. set_solver. }
    exists pre, x, v, post, σ', t'. split_and!; [done|done| |done|done].
    rewrite bool_decide_true by done. rewrite bool_decide_false by (by rewrite HE; destruct pre).
    cbn [negb mbind option_bind]. by rewrite E'.
  - right. exists pre, post. split_and!; [done|done|done|].
    by rewrite bool_decide_false by (destruct c as [|[] ? ? ? ?]; done).
Qed.

Lemma generic_list_delete σ E order t o1 x o2 :
  generic_at σ E order t -> order = o1 ++ x :: o2 ->
  exists b l', RemoveEntryList (Entries σ) (ListEntryOf x) = Some (b, l') /\
    dlist (delete (ListEntryOf x) l') ListHead (ListEntryOf <$> (o1 ++ o2)).
Proof.
  intros H Ho. pose proof (g_list _ _ _ _ H) as Hd. rewrite Ho, fmap_app in Hd. cbn [fmap list_fmap] in Hd.
  pose proof Hd as [Hn _]. destruct (RemoveEntryList_dlist _ _ _ _ _ Hd) as (l' & E' & Hd' & _).
  eexists _, l'. split; [exact E'|]. rewrite fmap_app. eapply dlist_same; [|exact Hd'].
  intros p Hp. apply lookup_delete_ne. intros <-.
  rewrite <- (Permutation_middle (ListEntryOf <$> o1) (ListEntryOf <$> o2) (ListEntryOf x)) in Hn.
  rewrite perm_swap in Hn. by apply NoDup_cons in Hn as [Hn _].
Qed.

Lemma generic_delete σ E order t B : generic_at σ E order t ->
  (exists pre x v post σ' order' t', E = pre ++ (x, v) :: post /\ cmp B v = GenericEqual /\
     RtlDeleteElementGenericTable cmp ListHead σ B = Some (true, σ') /\ generic_at σ' (pre ++ post) order' t' /\
     order ≡ₚ x :: order') \/
  (exists pre post, E = pre ++ post /\ Forall (greater cmp B) pre.*2 /\ Forall (less cmp B) post.*2 /\
     RtlDeleteElementGenericTable cmp ListHead σ B = Some (false, σ)).
Proof.
  intros H. unfold RtlDeleteElementGenericTable.
  destruct (generic_find σ E order t B H) as (res & y & -> & Hs). cbn [mbind option_bind].
  destruct Hs as [l x b r c pre v post Ht Hc HE Hv Hl Hr|c pre post Ht Hc HE Hp Hq Hl Hr].
  - left. rewrite bool_decide_true by done. rewrite bool_decide_false by (by rewrite HE; destruct pre).
    cbn [negb mbind option_bind].
    pose proof (g_tree _ _ _ _ H) as Ho. rewrite Ht, <- at_splay_plug in Ho.
    destruct (delete_run F _ _ _ _ _ _ _ Ho) as (m' & t' & n & -> & H' & Ha). cbn [mbind option_bind].
    assert (x ∈ order) as Hx by (rewrite (g_order _ _ _ _ H), HE, fmap_app; set_solver).
    apply list_elem_of_split in Hx as (o1 & o2 & Eo).
    destruct (generic_list_delete _ _ _ _ _ _ _ H Eo) as (b' & l' & -> & Hd). cbn [mbind option_bind].
    destruct (generic_nodup _ _ _ _ H) as [Hn _]. destruct H as [G1 G2 G3 G4 G5 G6 G7 G8 G9].
    exists pre, x, v, post. eexists _, (o1 ++ o2), t'. split_and!; [done|done|done| |rewrite Eo; solve_Permutation].
    constructor; simpl; try done.
    + eapply owns_free with (n := n). eapply owns_perm; [|done|exact H']. solve_Permutation.
    + rewrite Ha, fmap_app, <- Hl, <- Hr, <- !app_assoc. done.
    + apply (delete_data _ pre x v post); by rewrite <- HE.
    + rewrite HE, fmap_app in G5. rewrite fmap_app. by eapply sorted_remove_mid.
    + rewrite G6, HE, !length_app in *. simpl in *. rewrite u32_small; lia.
    + rewrite HE, length_app in G7. rewrite length_app. simpl in G7. lia.
    + rewrite Eo, HE, !fmap_app in G9. simpl in G9. rewrite fmap_app.
      rewrite <- !Permutation_middle in G9. by apply Permutation_cons_inv in G9.
  - right. exists pre, post. split_and!; [done|done|done|].
    by rewrite bool_decide_false by (destruct c as [|[] ? ? ? ?]; done).
Qed.

Lemma generic_first σ E order t : generic_at σ E order t -> E <> [] ->
  Descend L (path_fuel (SplayNodes σ)) (SplayNodes σ) (TableRoot (GenericTable σ)) = fst <$> head E.
Proof.
  intros H He. assert (t <> Leaf) as Ht by (intros Ht; by apply (generic_empty _ _ _ _ H) in Ht).
  pose proof (owns_size _ _ _ (g_tree _ _ _ _ H)) as Hs. rewrite length_app, length_cells in Hs.
  rewrite (g_root _ _ _ _ H), (descend_run L t F _ _ (ptr t) [] _ (g_tree _ _ _ _ H)) by (done || unfold path_fuel; lia).
  rewrite <- (toward_extreme L t 0 []) by done. simpl. rewrite app_nil_r, (g_addrs _ _ _ _ H). by destruct E.
Qed.

Lemma generic_next σ E order t pre x v post : generic_at σ E order t -> E = pre ++ (x, v) :: post ->
  RtlRealSuccessor (SplayNodes σ) x = Some (default 0 (fst <$> head post)).
Proof.
  intros H HE. destruct (generic_nodup _ _ _ _ H) as [Hn _]. rewrite HE, fmap_app in Hn. simpl in Hn.
  assert (x ∈ addrs t) as Hx by (rewrite (g_addrs _ _ _ _ H), HE, fmap_app; set_solver).
  destruct (address_place x t (Root 0) Hx) as (l & b & r & c & E1 & _).
  pose proof (g_tree _ _ _ _ H) as Ho. change t with (plug t (Root 0)) in Ho. rewrite E1, <- at_splay_plug in Ho.
  rewrite (splay_successor F _ _ _ _ _ _ _ Ho).
  pose proof (g_addrs _ _ _ _ H) as Ha. change t with (plug t (Root 0)) in Ha.
  rewrite E1, addrs_plug, HE, fmap_app in Ha. simpl in Ha.
  rewrite <- (app_assoc (addrs l)), (app_assoc (reverse _)) in Ha. simpl in Ha. symmetry in Ha.
  apply NoDup_split in Ha as [_ <-]; [|done]. by destruct post.
Qed.

(** The element that an enumeration returns: the first one, or the one after the root. *)
Definition enumerated (Restart : bool) (root : Z) (E : list (Z * V)) : option (Z * V) :=
  if Restart then head E
  else match list_find (fun e : Z * V => e.1 = root) E with
       | Some (i, _) => E !! S i
       | None => None
       end.

Lemma enumerated_at pre x v post : NoDup (pre ++ (x, v) :: post).*1 ->
  enumerated false x (pre ++ (x, v) :: post) = head post.
Proof.
  rewrite fmap_app. intros Hn. unfold enumerated. rewrite (list_find_app_r _ pre).
  - simpl. rewrite decide_True by done. simpl. rewrite lookup_app_r by lia.
    replace (S (length pre) - length pre)%nat with 1%nat by lia. by destruct post.
  - apply list_find_None, Forall_forall. intros e He Hx. apply NoDup_app in Hn as (_ & Hn & _).
    apply (Hn x); [|left]. rewrite <- Hx. by apply list_elem_of_fmap_2.
Qed.

Lemma root_entry σ E order t : generic_at σ E order t -> E <> [] ->
  exists pre v post, E = pre ++ (TableRoot (GenericTable σ), v) :: post.
Proof.
  intros H He. rewrite (g_root _ _ _ _ H). destruct t as [|l x b r]; [exfalso; by apply He, (generic_empty _ _ _ _ H)|].
  assert (x ∈ E.*1) as Hx by (rewrite <- (g_addrs _ _ _ _ H); simpl; set_solver).
  apply list_elem_of_fmap in Hx as ([y v] & -> & Hin). apply list_elem_of_split in Hin as (pre & post & ->). eauto.
Qed.

Lemma generic_enumerate σ E order t Restart : generic_at σ E order t ->
  exists σ' t', RtlEnumerateGenericTable σ Restart
      = Some (fst <$> enumerated Restart (TableRoot (GenericTable σ)) E, σ') /\ generic_at σ' E order t' /\
    TableRoot (GenericTable σ') =
      default (TableRoot (GenericTable σ)) (fst <$> enumerated Restart (TableRoot (GenericTable σ)) E).
Proof.
  intros H. unfold RtlEnumerateGenericTable. rewrite (generic_is_empty _ _ _ _ H). destruct (generic_nodup _ _ _ _ H) as [Hn H0].
  case_bool_decide as He.
  - subst E. exists σ, t. by destruct Restart.
  - destruct Restart.
    + rewrite (generic_first _ _ _ _ H He). destruct E as [|[x v] E]; [done|]. cbn [fmap option_fmap option_map head fst mbind option_bind].
      destruct (generic_splay σ _ order t x H) as (σ' & t' & -> & H' & Hp & _); [left|]. cbn [mbind option_bind].
      rewrite (proj2 (Z.eqb_neq x 0)) by (intros ->; apply H0; left).
      exists σ', t'. split; [done|]. split; [done|]. by rewrite (g_root _ _ _ _ H').
    + destruct (root_entry _ _ _ _ H He) as (pre & v & post & HE). set (root := TableRoot _) in *.
      rewrite (generic_next σ E order t pre root v post H HE). cbn [mbind option_bind].
      rewrite HE in Hn |- *. rewrite (enumerated_at pre root v post Hn), <- HE.
      destruct post as [|[y w] post]; [by exists σ, t|]. simpl.
      rewrite (proj2 (Z.eqb_neq y 0)) by (intros ->; apply H0; rewrite HE, fmap_app; set_solver). cbn [negb].
      destruct (generic_splay σ _ order t y H) as (σ' & t' & -> & H' & Hp & _); [rewrite HE, fmap_app; set_solver|].
      exists σ', t'. split; [done|]. split; [done|]. by rewrite (g_root _ _ _ _ H').
Qed.
End Generic.
