(* ===== verification/GenericTableClaims.v ===== *)
(** * The generic table on splay trees refines an ordered set

    The contract: a set in increasing order and its root, the element accessed last, from
    which an enumeration continues. Every sequence of calls on an initialised table succeeds
    and answers as the contract permits. The access by insertion index does not do what it
    means to, and is described as it is. *)

From stdpp Require Import base option list gmap sorting.
From Stdlib Require Import ZArith Lia.
From S2P Require Import Prelude ListEntry Tree Avl TableOrder Splay SplayProps GenericTable GenericTableProps.
Open Scope Z_scope.

(** ** The contract *)

Section Contract.
Context {V : Type} (cmp : V -> V -> RTL_GENERIC_COMPARE_RESULTS).

Inductive table_request :=
  | TableInsert (Buffer : V) | TableLookup (Buffer : V) | TableDelete (Buffer : V)
  | TableEnumerate (Restart : bool) | TableNumber | TableIsEmpty.

Inductive table_reply :=
  | ElementStored (v : option V) (NewElement : bool) | ElementFound (v : option V) | ElementDeleted (b : bool)
  | ElementNext (v : option V) | ElementCount (n : Z) | TableEmpty (b : bool).

Record rooted_set := mkRooted { values : list V; root : option V }.

(** The first value, or the one after the root. *)
Definition following (Restart : bool) (s : rooted_set) : option V :=
  if Restart then head (values s)
  else match root s with
       | None => None
       | Some k => head (filter (fun v => cmp k v = GenericLessThan) (values s))
       end.

(** What a call may answer, and the set afterwards: an allocation may fail, and a deletion
    may leave any of the other values at the root. *)
Inductive table_permits (s : rooted_set) : table_request -> table_reply -> rooted_set -> Prop :=
  | table_present B v : find_equal cmp B (values s) = Some v ->
      table_permits s (TableInsert B) (ElementStored (Some v) false) (mkRooted (values s) (Some v))
  | table_new B : find_equal cmp B (values s) = None ->
      table_permits s (TableInsert B) (ElementStored (Some B) true) (mkRooted (insert_sorted cmp B (values s)) (Some B))
  | table_no_memory B : find_equal cmp B (values s) = None ->
      table_permits s (TableInsert B) (ElementStored None false) s
  | table_lookup B r : r = find_equal cmp B (values s) ->
      table_permits s (TableLookup B) (ElementFound r)
        (mkRooted (values s) (match r with Some v => Some v | None => root s end))
  | table_absent B : find_equal cmp B (values s) = None -> table_permits s (TableDelete B) (ElementDeleted false) s
  | table_delete B v r : find_equal cmp B (values s) = Some v ->
      match r with Some k => k ∈ remove_equal cmp B (values s) | None => remove_equal cmp B (values s) = [] end ->
      table_permits s (TableDelete B) (ElementDeleted true) (mkRooted (remove_equal cmp B (values s)) r)
  | table_enumerate Restart n : n = following Restart s ->
      table_permits s (TableEnumerate Restart) (ElementNext n)
        (mkRooted (values s) (match n with Some v => Some v | None => root s end))
  | table_number : table_permits s TableNumber (ElementCount (Z.of_nat (length (values s)))) s
  | table_empty : table_permits s TableIsEmpty (TableEmpty (bool_decide (values s = []))) s.

Inductive table_trace (s : rooted_set) : list table_request -> list table_reply -> rooted_set -> Prop :=
  | table_trace_nil : table_trace s [] [] s
  | table_trace_cons req rep s1 reqs reps s2 :
      table_permits s req rep s1 -> table_trace s1 reqs reps s2 -> table_trace s (req :: reqs) (rep :: reps) s2.

(** ** The client of a table *)

Context (ListHead : Z) `{!TableAllocator V}.

(** What a returned pointer points to. *)
Definition element (σ : table_state V) (p : option Z) : option (option V) :=
  match p with
  | None => Some None
  | Some a => v ← Elements σ !! a; Some (Some v)
  end.

Definition table_serve (σ : table_state V) (req : table_request) : option (table_state V * table_reply) :=
  match req with
  | TableInsert B =>
      '(σ', p, new) ← RtlInsertElementGenericTable cmp ListHead σ B;
      v ← element σ' p; Some (σ', ElementStored v new)
  | TableLookup B =>
      '(σ', p) ← RtlLookupElementGenericTable cmp σ B; v ← element σ' p; Some (σ', ElementFound v)
  | TableDelete B => '(b, σ') ← RtlDeleteElementGenericTable cmp ListHead σ B; Some (σ', ElementDeleted b)
  | TableEnumerate Restart =>
      '(p, σ') ← RtlEnumerateGenericTable σ Restart; v ← element σ' p; Some (σ', ElementNext v)
  | TableNumber => Some (σ, ElementCount (RtlNumberGenericTableElements σ))
  | TableIsEmpty => Some (σ, TableEmpty (RtlIsGenericTableEmpty σ))
  end.

Fixpoint table_serve_all (σ : table_state V) (reqs : list table_request) : option (table_state V * list table_reply) :=
  match reqs with
  | [] => Some (σ, [])
  | req :: reqs' =>
      '(σ1, rep) ← table_serve σ req; '(σ2, reps) ← table_serve_all σ1 reqs'; Some (σ2, rep :: reps)
  end.
End Contract.
Arguments table_request : clear implicits.
Arguments table_reply : clear implicits.
Arguments rooted_set : clear implicits.

(** ** The simulation *)

Section Simulation.
Context {V : Type} (cmp : V -> V -> RTL_GENERIC_COMPARE_RESULTS) `{!CompareOrder cmp}.
Context (ListHead : Z) (F : nodes) `{!TableAllocator V}.

Definition root_at (r : Z) (E : list (Z * V)) (k : option V) : Prop :=
  match k with
  | None => E = []
  | Some v => (r, v) ∈ E
  end.

Definition table_represents (σ : table_state V) (s : rooted_set V) : Prop :=
  exists E order t, generic_at cmp ListHead F σ E order t /\ values s = E.*2 /\
    root_at (TableRoot (GenericTable σ)) E (root s).

Definition table_simulates (σ : table_state V) (s : rooted_set V) (req : table_request V) : Prop :=
  exists σ' rep s', table_serve cmp ListHead σ req = Some (σ', rep) /\ table_permits cmp s req rep s' /\
    table_represents σ' s'.

Lemma element_at σ E order t a v : generic_at cmp ListHead F σ E order t -> (a, v) ∈ E ->
  element σ (Some a) = Some (Some v).
Proof.
  intros H Hin. simpl. pose proof (g_data _ _ _ _ _ _ _ H) as D. rewrite Forall_forall in D.
  specialize (D _ Hin). simpl in D. by rewrite D.
Qed.

Lemma mid_values (pre post : list (Z * V)) x v : (pre ++ (x, v) :: post).*2 = pre.*2 ++ v :: post.*2.
Proof. by rewrite fmap_app. Qed.

Lemma table_serve_insert σ s B : table_represents σ s -> Z.of_nat (length (values s)) + 1 < 2 ^ 32 ->
  table_simulates σ s (TableInsert B).
Proof.
  intros (E & order & t & H & Hs & Hr) Hn. rewrite Hs, length_fmap in Hn. unfold table_simulates, table_serve.
  pose proof (g_sorted _ _ _ _ _ _ _ H) as S.
  destruct (generic_insert cmp ListHead F σ E order t B H Hn)
    as [(pre & x & v & post & σ' & t' & HE & Hv & -> & H' & Hp)|(pre & post & HE & Hp & Hq & Hi)].
  - cbn [mbind option_bind]. rewrite (element_at σ' E order t' x v H') by (rewrite HE; set_solver).
    cbn [mbind option_bind]. eexists _, _, _. split; [done|]. split.
    + apply table_present. rewrite Hs, HE, mid_values. rewrite HE, mid_values in S.
      exact (proj1 (present_split cmp B v _ _ S Hv)).
    + exists E, order, t'. split; [done|]. split; [done|]. simpl. rewrite (g_root _ _ _ _ _ _ _ H'), Hp, HE. set_solver.
  - assert (find_equal cmp B (values s) = None) as Hf.
    { rewrite Hs, HE, fmap_app. exact (proj1 (absent_split cmp B _ _ Hp Hq)). }
    destruct (table_allocate σ) as [x|].
    + destruct Hi as (σ' & t' & -> & H' & Hpt). cbn [mbind option_bind].
      rewrite (element_at σ' _ _ t' x B H') by set_solver. cbn [mbind option_bind].
      eexists _, _, _. split; [done|]. split; [by apply table_new|].
      exists (pre ++ (x, B) :: post), (order ++ [x]), t'. split; [done|]. simpl. split.
      * rewrite Hs, HE, mid_values, fmap_app. by apply insert_sorted_split.
      * rewrite (g_root _ _ _ _ _ _ _ H'), Hpt. set_solver.
    + rewrite Hi. cbn [mbind option_bind element]. eexists _, _, s. split; [done|].
      split; [by apply table_no_memory|by exists E, order, t].
Qed.

Lemma table_serve_lookup σ s B : table_represents σ s -> table_simulates σ s (TableLookup B).
Proof.
  intros (E & order & t & H & Hs & Hr). unfold table_simulates, table_serve.
  pose proof (g_sorted _ _ _ _ _ _ _ H) as S.
  destruct (generic_lookup cmp ListHead F σ E order t B H)
    as [(pre & x & v & post & σ' & t' & HE & Hv & -> & H' & Hp)|(pre & post & HE & Hp & Hq & ->)]; cbn [mbind option_bind].
  - rewrite (element_at σ' E order t' x v H') by (rewrite HE; set_solver). cbn [mbind option_bind].
    eexists _, _, _. split; [done|]. split.
    + apply (table_lookup cmp s B). rewrite Hs, HE, mid_values. rewrite HE, mid_values in S.
      symmetry. exact (proj1 (present_split cmp B v _ _ S Hv)).
    + exists E, order, t'. split; [done|]. split; [done|]. simpl. rewrite (g_root _ _ _ _ _ _ _ H'), Hp, HE. set_solver.
  - eexists _, _, _. split; [done|]. split.
    + apply (table_lookup cmp s B). rewrite Hs, HE, fmap_app. symmetry. exact (proj1 (absent_split cmp B _ _ Hp Hq)).
    + by exists E, order, t.
Qed.

Lemma table_serve_delete σ s B : table_represents σ s -> table_simulates σ s (TableDelete B).
Proof.
  intros (E & order & t & H & Hs & Hr). unfold table_simulates, table_serve.
  pose proof (g_sorted _ _ _ _ _ _ _ H) as S.
  destruct (generic_delete cmp ListHead F σ E order t B H)
    as [(pre & x & v & post & σ' & order' & t' & HE & Hv & -> & H' & _)|(pre & post & HE & Hp & Hq & ->)]; cbn [mbind option_bind].
  - rewrite HE, mid_values in S. destruct (present_split cmp B v _ _ S Hv) as [F1 F2].
    rewrite <- mid_values with (x := x), <- HE, <- Hs in F1, F2.
    assert (exists r, root_at (TableRoot (GenericTable σ')) (pre ++ post) r) as [r Hr'].
    { destruct (decide (pre ++ post = [])) as [E0|E0]; [by exists None|].
      destruct (root_entry _ _ _ _ _ _ _ H' E0) as (pre' & k & post' & E1). exists (Some k). simpl. rewrite E1. set_solver. }
    eexists _, _, (mkRooted (remove_equal cmp B (values s)) r). split; [done|]. split.
    + apply (table_delete cmp s B v r F1). rewrite F2, <- fmap_app.
      destruct r as [k|]; simpl in Hr'; [by apply (list_elem_of_fmap_2 snd _ _ Hr')|by rewrite Hr'].
    + exists (pre ++ post), order', t'. split; [done|]. simpl. split; [by rewrite F2, fmap_app|done].
  - eexists _, _, s. split; [done|]. split; [|by exists E, order, t].
    apply table_absent. rewrite Hs, HE, fmap_app. exact (proj1 (absent_split cmp B _ _ Hp Hq)).
Qed.

Lemma following_entry σ s E order t Restart : generic_at cmp ListHead F σ E order t -> values s = E.*2 ->
  root_at (TableRoot (GenericTable σ)) E (root s) ->
  following cmp Restart s = snd <$> enumerated Restart (TableRoot (GenericTable σ)) E.
Proof.
  intros H Hs Hr. destruct Restart; [unfold following; rewrite Hs; by destruct E|]. unfold following.
  destruct (root s) as [k|]; simpl in Hr; [|by rewrite Hr].
  apply list_elem_of_split in Hr as (pre & post & HE).
  pose proof (proj1 (generic_nodup _ _ _ _ _ _ _ H)) as Hn. pose proof (g_sorted _ _ _ _ _ _ _ H) as S.
  rewrite HE in Hn. rewrite Hs, HE, (enumerated_at _ _ _ _ Hn), mid_values. rewrite HE, mid_values in S.
  destruct (sorted_apart cmp k k _ _ S (cmp_refl cmp k)) as [H1 H2].
  rewrite filter_app, filter_none, filter_cons_False.
  - rewrite filter_all by done. by destruct post.
  - by rewrite (cmp_refl cmp).
  - eapply Forall_impl; [done|]. unfold greater. simpl. congruence.
Qed.

Lemma enumerated_in Restart r (E : list (Z * V)) e : enumerated Restart r E = Some e -> e ∈ E.
Proof.
  unfold enumerated. destruct Restart.
  - destruct E; [done|]. intros [= ->]. left.
  - destruct (list_find _ E) as [[i y]|]; [|done]. apply list_elem_of_lookup_2.
Qed.

Lemma table_serve_enumerate σ s Restart : table_represents σ s -> table_simulates σ s (TableEnumerate Restart).
Proof.
  intros (E & order & t & H & Hs & Hr). unfold table_simulates, table_serve.
  destruct (generic_enumerate cmp ListHead F σ E order t Restart H) as (σ' & t' & -> & H' & Hr').
  cbn [mbind option_bind]. pose proof (following_entry σ s E order t Restart H Hs Hr) as Hf.
  destruct (enumerated Restart (TableRoot (GenericTable σ)) E) as [[a v]|] eqn:Ee.
  - apply enumerated_in in Ee. cbn [fmap option_fmap option_map fst snd] in *.
    rewrite (element_at σ' E order t' a v H' Ee). cbn [mbind option_bind]. eexists _, _, _. split; [done|].
    split; [by apply (table_enumerate cmp s Restart)|]. exists E, order, t'. split; [done|]. split; [done|].
    simpl in *. by rewrite Hr'.
  - cbn [fmap option_fmap option_map element mbind option_bind] in *. eexists _, _, _. split; [done|].
    split; [by apply (table_enumerate cmp s Restart)|]. exists E, order, t'. split; [done|]. split; [done|].
    simpl in *. by rewrite Hr'.
Qed.

Lemma table_serve_counts σ s req : table_represents σ s -> req = TableNumber \/ req = TableIsEmpty ->
  table_simulates σ s req.
Proof.
  intros (E & order & t & H & Hs & Hr).
  intros [-> | ->]; eexists _, _, s; (split; [done|]); (split; [|by exists E, order, t]).
  - unfold RtlNumberGenericTableElements. rewrite (g_count _ _ _ _ _ _ _ H), <- (length_fmap snd E), <- Hs. constructor.
  - rewrite (generic_is_empty _ _ _ _ _ _ _ H).
    replace (bool_decide (E = [])) with (bool_decide (values s = [])); [constructor|].
    apply bool_decide_ext. rewrite Hs. by destruct E.
Qed.

Lemma table_serve_one σ s req : table_represents σ s -> Z.of_nat (length (values s)) + 1 < 2 ^ 32 ->
  table_simulates σ s req.
Proof.
  intros H Hn. destruct req; auto using table_serve_insert, table_serve_lookup, table_serve_delete,
    table_serve_enumerate, table_serve_counts.
Qed.

Lemma table_permits_length s req rep s' : table_permits cmp s req rep s' ->
  (length (values s') <= S (length (values s)))%nat.
Proof.
  intros []; simpl; try lia.
  - generalize (values s). intros l. induction l as [|v l IH]; simpl; [done|]. case_bool_decide; simpl; lia.
  - unfold remove_equal. pose proof (length_filter (fun v => cmp B v <> GenericEqual) (values s)). lia.
Qed.

Lemma table_serve_run reqs σ s :
  table_represents σ s -> Z.of_nat (length (values s) + length reqs) < 2 ^ 32 ->
  exists σ' reps s', table_serve_all cmp ListHead σ reqs = Some (σ', reps) /\ table_trace cmp s reqs reps s' /\
    table_represents σ' s'.
Proof.
  revert σ s. induction reqs as [|req reqs IH]; intros σ s H Hn; simpl in Hn.
  - eexists _, _, s. split; [done|]. split; [constructor|done].
  - destruct (table_serve_one σ s req H) as (σ1 & rep & s1 & E1 & P1 & H1); [lia|].
    pose proof (table_permits_length _ _ _ _ P1) as Hl.
    destruct (IH σ1 s1 H1) as (σ2 & reps & s2 & E2 & T2 & H2); [lia|].
    exists σ2, (rep :: reps), s2. simpl. rewrite E1. cbn [mbind option_bind]. rewrite E2.
    split; [done|]. split; [by econstructor|done].
Qed.

(** C2: Any sequence of calls on a table that was just initialised succeeds and gives answers
    that the contract permits: insertion, search, deletion and enumeration behave as on a
    sorted list with a cursor at the element accessed last. *)
Theorem generic_table_refines_set σ reqs :
  SplayNodes σ = F -> is_Some (Entries σ !! ListHead) -> Z.of_nat (length reqs) < 2 ^ 32 ->
  exists σ0 σ' reps s', RtlInitializeGenericTable ListHead σ = Some σ0 /\
    table_serve_all cmp ListHead σ0 reqs = Some (σ', reps) /\ table_trace cmp (mkRooted [] None) reqs reps s' /\
    table_represents σ' s'.
Proof.
  intros HF Hh Hn. unfold RtlInitializeGenericTable.
  destruct (InitializeListHead_dlist _ _ Hh) as (l & -> & Hd & _). cbn [mbind option_bind].
  set (σ0 := mkTableState _ _ _ _).
  destruct (table_serve_run reqs σ0 (mkRooted [] None)) as (σ' & reps & s' & E1 & T1 & H1); [|done|by exists σ0, σ', reps, s'].
  exists [], [], Leaf. split; [|done]. constructor; simpl; try done; [|constructor].
  rewrite HF. unfold splay_tree. simpl. split; [constructor|apply not_elem_of_nil|apply map_disjoint_empty_l|].
  symmetry. apply map_empty_union.
Qed.
End Simulation.

(** ** Access by insertion index *)

Section Index.
Context {V : Type} (ListHead : Z).

Lemma blink_steps (m : gmap Z LIST_ENTRY) l0 l1 l2 : dlist m ListHead (l0 ++ l1 ++ l2) ->
  BlinkSteps (length l1) m (next_of l2 ListHead) = Some (next_of (l1 ++ l2) ListHead).
Proof.
  revert l2. induction l1 as [|a l1 IH] using rev_ind; intros l2 Hd; [done|].
  rewrite length_app, Nat.add_comm. cbn [length Nat.add BlinkSteps]. rewrite <- !app_assoc in *. cbn [app] in *.
  assert (blink m (next_of l2 ListHead) = Some a) as ->.
  { rewrite (app_assoc l0 l1), (cons_middle a), app_assoc in Hd. apply dlist_pred in Hd as [_ Hb]. rewrite Hb. f_equal.
    generalize ListHead (l0 ++ l1). intros x l. revert x. induction l as [|y l IHl]; intros x; [done|]. simpl. apply IHl. }
  cbn [mbind option_bind]. apply (IH (a :: l2)). done.
Qed.

(** What [RtlGetElementGenericTable] returns for the index [I] on a table of [n] elements
    whose position was not used before: in the lower half it counts from the wrong end of the
    list, element [n - 1 - I] in insertion order instead of [I]. With two elements both
    indices give the second one. *)
Theorem get_element_counts_from_end (σ : table_state V) order I :
  dlist (Entries σ) ListHead (ListEntryOf <$> order) ->
  NumberGenericTableElements (GenericTable σ) = Z.of_nat (length order) -> Z.of_nat (length order) < 2 ^ 32 ->
  WhichOrderedElement (GenericTable σ) = 0 -> OrderedPointer (GenericTable σ) = ListHead ->
  0 <= I < Z.of_nat (length order) ->
  exists σ', RtlGetElementGenericTable ListHead σ I
    = Some (order !! Z.to_nat (if I + 1 <=? Z.of_nat (length order) - I then Z.of_nat (length order) - 1 - I else I), σ').
Proof.
  intros Hd Hn Hs Hw Hp HI. unfold RtlGetElementGenericTable. rewrite Hn, Hw, Hp.
  set (n := Z.of_nat (length order)) in *. rewrite (u32_small (I + 1)) by lia.
  replace ((I =? 2 ^ 32 - 1) || (n <? I + 1)) with false by (symmetry; apply orb_false_iff; rewrite Z.eqb_neq, Z.ltb_ge; lia).
  rewrite (proj2 (Z.eqb_neq (I + 1) 0)) by lia. rewrite (proj2 (Z.ltb_ge (I + 1) 0)) by lia.
  replace (I + 1 - 0) with (I + 1) by lia. replace (n - (I + 1) + 1) with (n - I) by lia.
  assert (forall k, 1 <= k <= n -> BlinkSteps (Z.to_nat k) (Entries σ) ListHead
    = (fun x => ListEntryOf x) <$> order !! Z.to_nat (n - k)) as Hk.
  { intros k Hk. rewrite <- (take_drop (Z.to_nat (n - k)) order), fmap_app in Hd.
    pose proof (blink_steps (Entries σ) (ListEntryOf <$> take (Z.to_nat (n - k)) order)
      (ListEntryOf <$> drop (Z.to_nat (n - k)) order) []) as Hb.
    rewrite app_nil_r, length_fmap, length_drop in Hb. specialize (Hb Hd). cbn [next_of] in Hb.
    replace (length order - Z.to_nat (n - k))%nat with (Z.to_nat k) in Hb by lia. rewrite Hb.
    destruct (lookup_lt_is_Some_2 order (Z.to_nat (n - k))) as [x Hx]; [lia|].
    rewrite (drop_S _ _ _ Hx), Hx. done. }
  assert (forall i : nat, (i < length order)%nat -> exists σ', (p ← (ListEntryOf <$> order !! i);
    Some (p, I + 1)) ≫= (fun '(OrderedNode, NextI) => Some (Some (OrderedNode - 12), mkTableState (SplayNodes σ) (Entries σ) (Elements σ)
    (mkGeneric (TableRoot (GenericTable σ)) OrderedNode NextI n))) = Some (order !! i, σ')) as Hi.
  { intros i Hi. destruct (lookup_lt_is_Some_2 order i Hi) as [x ->]. cbn [fmap option_fmap option_map mbind option_bind].
    eexists. do 3 f_equal. unfold ListEntryOf. lia. }
  destruct (I + 1 <=? n - I) eqn:El.
  - rewrite Hk by lia. replace (n - (I + 1)) with (n - 1 - I) by lia. apply Hi. lia.
  - rewrite Hk by lia. replace (n - (n - I)) with I by lia. apply Hi. lia.
Qed.
End Index.

(** ** A table of integers *)

Module TableExample.

Definition compare_numbers (a b : Z) : RTL_GENERIC_COMPARE_RESULTS :=
  match a ?= b with Lt => GenericLessThan | Gt => GenericGreaterThan | Eq => GenericEqual end.

#[export] Instance numbers_order : CompareOrder compare_numbers.
Proof.
  unfold compare_numbers. constructor.
  - intros a b. rewrite (Z.compare_antisym a b). by destruct (a ?= b).
  - intros a b c. destruct (Z.compare_spec a b), (Z.compare_spec b c), (Z.compare_spec a c); done || lia.
  - intros a b c. destruct (Z.compare_spec a b); try done. by subst.
Qed.

(** Eight blocks of 32 bytes; an allocation fails when all are in use. *)
Definition blocks : list Z := [16; 48; 80; 112; 144; 176; 208; 240].

Definition block_allocate (σ : table_state Z) : option Z :=
  head (filter (fun a => SplayNodes σ !! a = None /\ Entries σ !! ListEntryOf a = None /\ Elements σ !! a = None) blocks).

#[export] Instance block_allocator : TableAllocator Z.
Proof.
  refine {| table_allocate := block_allocate |}. unfold block_allocate. intros σ a H.
  assert (a ∈ filter (fun a => SplayNodes σ !! a = None /\ Entries σ !! ListEntryOf a = None /\ Elements σ !! a = None) blocks) as Ha.
  { destruct (filter _ blocks); [done|]. injection H as ->. left. }
  apply list_elem_of_filter in Ha as [H1 Ha]. split; [|done].
  assert (Forall (fun a => a <> 0) blocks) as Hp by (by repeat constructor). rewrite Forall_forall in Hp. by apply Hp.
Defined.

Definition blank : table_state Z := mkTableState ∅ {[ 1000 := mkEntry 0 0 ]} ∅ (mkGeneric 0 0 0 0).

Definition session : list (table_request Z) :=
  [TableInsert 5; TableInsert 9; TableInsert 7; TableInsert 1; TableInsert 7; TableEnumerate true;
   TableEnumerate false; TableDelete 5; TableLookup 9; TableLookup 4; TableEnumerate false; TableNumber; TableIsEmpty].

Lemma generic_table_refines_set_witness : exists σ0 σ' reps s',
  RtlInitializeGenericTable 1000 blank = Some σ0 /\
  table_serve_all compare_numbers 1000 σ0 session = Some (σ', reps) /\
  table_trace compare_numbers (mkRooted [] None) session reps s' /\ table_represents compare_numbers 1000 ∅ σ' s'.
Proof. apply (generic_table_refines_set compare_numbers 1000 ∅ blank session); [done|by eexists|done]. Defined.

(** Two elements, inserted at 16 and then at 48. *)
Definition pair : table_state Z :=
  mkTableState ∅ (list_to_map [(1000, mkEntry 28 60); (28, mkEntry 60 1000); (60, mkEntry 1000 28)]) ∅
    (mkGeneric 16 1000 0 2).

Lemma get_element_counts_from_end_witness :
  (exists σ', RtlGetElementGenericTable 1000 pair 0 = Some (Some 48, σ')) /\
  (exists σ', RtlGetElementGenericTable 1000 pair 1 = Some (Some 48, σ')).
Proof.
  assert (dlist (Entries pair) 1000 (ListEntryOf <$> [16; 48])) as Hd
    by (split; [by apply (bool_decide_unpack _)|done]).
  split.
  - apply (get_element_counts_from_end 1000 pair [16; 48] 0 Hd); done.
  - apply (get_element_counts_from_end 1000 pair [16; 48] 1 Hd); done.
Defined.

End TableExample.
