(* ===== verification/Rundown.v ===== *)
(** * Rundown protection

    [ntoskrnl/ex/rundown.c] and the inline functions of [ntoskrnl/include/internal/ex.h]:
    a word that counts references until a rundown starts, and from then on holds the address
    of a wait block on the stack of the thread that waits. Each access to shared memory (a
    load, an interlocked operation, an operation on the event) is one step of a thread, and
    the steps of the threads interleave. The dispatcher's event is a boolean that a wait
    consumes ([SynchronizationEvent]). *)

From stdpp Require Import base option list relations.
From Stdlib Require Import ZArith.
From S2P Require Import Prelude.
Open Scope Z_scope.

Definition EX_RUNDOWN_ACTIVE : Z := 1.
Definition EX_RUNDOWN_COUNT_SHIFT : Z := 1.
Definition EX_RUNDOWN_COUNT_INC : Z := 2.

(** ** Shared memory *)

(** The word of the descriptor; the address of the wait block while the frame that holds it
    exists; the count and the event of the wait block. *)
Record shared := mkShared { Count : Z; Live : option Z; WaitCount : Z; WakeEvent : bool }.

Definition set_count (s : shared) (v : Z) : shared := mkShared v (Live s) (WaitCount s) (WakeEvent s).
Definition set_live (s : shared) (l : option Z) : shared := mkShared (Count s) l (WaitCount s) (WakeEvent s).
Definition set_wait_count (s : shared) (v : Z) : shared := mkShared (Count s) (Live s) v (WakeEvent s).
Definition set_event (s : shared) (b : bool) : shared := mkShared (Count s) (Live s) (WaitCount s) b.

(** The old value of the word, which changes if it was the expected one. *)
Definition ExpChangeRundown (s : shared) (NewValue Value : Z) : Z * shared :=
  (Count s, if Count s =? Value then set_count s NewValue else s).

Definition ExpSetRundown (s : shared) (Value : Z) : shared := set_count s Value.

Definition ExfInitializeRundownProtection (s : shared) : shared := set_count s 0.

(** ** Threads *)

(** Where a thread is in an operation; the plain variants of acquire and release have no
    count ([None]), the [Ex] variants have one. *)
Inductive pc :=
  | Idle
  | AcquireFast (Value : Z) | AcquireLoad | AcquireLoop (k : option Z) (Value : Z)
  | ReleaseFast (Value : Z) | ReleaseLoad | ReleaseLoop (k : option Z) (Value : Z)
  | ReleaseBlock (k : option Z) (WaitBlock : Z) | ReleaseSignal (WaitBlock : Z)
  | WaitFast | WaitFirst | WaitLoop (Event : bool) (Value : Z) | WaitBlocked
  | Returned | Completed.

(** A thread: the stack address at which its wait block would be, the number of references it
    was granted and has not released, and its place. *)
Record thread := mkThread { Block : Z; References : Z; Pc : pc }.

Definition go (t : thread) (p : pc) : thread := mkThread (Block t) (References t) p.

(** A turn that succeeded in taking or giving back [n] references. *)
Definition gain (t : thread) (n : Z) (p : pc) : thread := mkThread (Block t) (References t + n) p.

Inductive outcome := Next (s : shared) (t : thread) | Blocked | Fault.

Definition ASSERT (b : bool) (o : outcome) : outcome := if b then o else Fault.

(** An access to a wait block is a fault unless the block is the one that exists. *)
Definition access (s : shared) (WaitBlock : Z) (o : outcome) : outcome :=
  if bool_decide (Live s = Some WaitBlock) then o else Fault.

(** *** Acquire *)

(** One turn of the loop. *)
Definition ExfAcquireRundownProtection (s : shared) (t : thread) (Value : Z) : outcome :=
  if negb (Z.land Value EX_RUNDOWN_ACTIVE =? 0) then Next s (go t Idle) else
  let NewValue := u32 (Value + EX_RUNDOWN_COUNT_INC) in
  let '(NewValue, s') := ExpChangeRundown s NewValue Value in
  if NewValue =? Value then Next s' (gain t 1 Idle)
  else Next s' (go t (AcquireLoop None NewValue)).

Definition ExfAcquireRundownProtectionEx (s : shared) (t : thread) (n Value : Z) : outcome :=
  if negb (Z.land Value EX_RUNDOWN_ACTIVE =? 0) then Next s (go t Idle) else
  let NewValue := u32 (Value + u32 (EX_RUNDOWN_COUNT_INC * n)) in
  let '(NewValue, s') := ExpChangeRundown s NewValue Value in
  if NewValue =? Value then Next s' (gain t n Idle)
  else Next s' (go t (AcquireLoop (Some n) NewValue)).

(** The inline version, after the word was read and masked. *)
Definition _ExAcquireRundownProtection (s : shared) (t : thread) (Value : Z) : outcome :=
  let NewValue := u32 (Value + EX_RUNDOWN_COUNT_INC) in
  let '(NewValue, s') := ExpChangeRundown s NewValue Value in
  if negb (NewValue =? Value) then Next s' (go t AcquireLoad)
  else Next s' (gain t 1 Idle).

(** *** Release *)

Section Release.

Variable KeNumberProcessors : Z.

(** One turn of the loop. The turn that finds the rundown active ends with the assertion on
    the wait block; the interlocked operation on the block is a step of its own. *)
Definition ExfReleaseRundownProtection (s : shared) (t : thread) (Value : Z) : outcome :=
  if Z.land Value EX_RUNDOWN_ACTIVE =? 0 then
    ASSERT ((EX_RUNDOWN_COUNT_INC <=? Value) || (1 <? KeNumberProcessors)) (
    let NewValue := u32 (Value - EX_RUNDOWN_COUNT_INC) in
    let '(NewValue, s') := ExpChangeRundown s NewValue Value in
    if NewValue =? Value then Next s' (gain t (-1) Idle)
    else Next s' (go t (ReleaseLoop None NewValue)))
  else
    let WaitBlock := Z.land Value (not32 EX_RUNDOWN_ACTIVE) in
    access s WaitBlock (
    ASSERT ((0 <? WaitCount s) || (1 <? KeNumberProcessors)) (
    Next s (go t (ReleaseBlock None WaitBlock)))).

Definition ExfReleaseRundownProtectionEx (s : shared) (t : thread) (n Value : Z) : outcome :=
  if Z.land Value EX_RUNDOWN_ACTIVE =? 0 then
    ASSERT ((u32 (EX_RUNDOWN_COUNT_INC * n) <=? Value) || (1 <? KeNumberProcessors)) (
    let NewValue := u32 (Value - u32 (EX_RUNDOWN_COUNT_INC * n)) in
    let '(NewValue, s') := ExpChangeRundown s NewValue Value in
    if NewValue =? Value then Next s' (gain t (- n) Idle)
    else Next s' (go t (ReleaseLoop (Some n) NewValue)))
  else
    let WaitBlock := Z.land Value (not32 EX_RUNDOWN_ACTIVE) in
    access s WaitBlock (
    ASSERT ((n <=? WaitCount s) || (1 <? KeNumberProcessors)) (
    Next s (go t (ReleaseBlock (Some n) WaitBlock)))).

(** [InterlockedDecrementSizeT] on the wait block's count. *)
Definition ReleaseDecrement (s : shared) (t : thread) (WaitBlock : Z) : outcome :=
  access s WaitBlock (
  let s' := set_wait_count s (u32 (WaitCount s - 1)) in
  Next s' (gain t (-1) (if WaitCount s' =? 0 then ReleaseSignal WaitBlock else Idle))).

(** [InterlockedExchangeAddSizeT] on the wait block's count. *)
Definition ReleaseExchangeAdd (s : shared) (t : thread) (n WaitBlock : Z) : outcome :=
  access s WaitBlock (
  let s' := set_wait_count s (u32 (WaitCount s + u32 (- n))) in
  Next s' (gain t (- n) (if WaitCount s =? n then ReleaseSignal WaitBlock else Idle))).

(** [KeSetEvent] on the wait block's event. *)
Definition ReleaseSetEvent (s : shared) (t : thread) (WaitBlock : Z) : outcome :=
  access s WaitBlock (Next (set_event s true) (go t Idle)).

Definition _ExReleaseRundownProtection (s : shared) (t : thread) (Value : Z) : outcome :=
  let NewValue := u32 (Value - EX_RUNDOWN_COUNT_INC) in
  let '(NewValue, s') := ExpChangeRundown s NewValue Value in
  if negb (NewValue =? Value) then Next s' (go t ReleaseLoad)
  else
    ASSERT ((EX_RUNDOWN_COUNT_INC <=? Value) || (1 <? KeNumberProcessors)) (
    Next s' (gain t (-1) Idle)).

(** *** Wait *)

Definition _ExWaitForRundownProtectionRelease (s : shared) (t : thread) : outcome :=
  let '(Value, s') := ExpChangeRundown s EX_RUNDOWN_ACTIVE 0 in
  if negb (Value =? 0) && negb (Value =? EX_RUNDOWN_ACTIVE) then Next s' (go t WaitFirst)
  else Next s' (go t Returned).

(** The call with its frame, up to the first exchange. *)
Definition ExfWaitForRundownProtectionRelease (s : shared) (t : thread) : outcome :=
  let '(Value, s') := ExpChangeRundown s EX_RUNDOWN_ACTIVE 0 in
  if (Value =? 0) || (Value =? EX_RUNDOWN_ACTIVE) then Next s' (go t Returned)
  else Next (set_live s' (Some (Block t))) (go t (WaitLoop false Value)).

(** One turn of the loop that publishes the wait block, and the return when nothing is left to
    wait for. *)
Definition WaitPublish (s : shared) (t : thread) (Event : bool) (Value : Z) : outcome :=
  let n := Z.shiftr Value EX_RUNDOWN_COUNT_SHIFT in
  let init := negb (n =? 0) && negb Event in
  let s := if init then set_event s false else s in
  let s := set_wait_count s n in
  let WaitBlockPointer := Z.lor (Block t) EX_RUNDOWN_ACTIVE in
  let '(NewValue, s') := ExpChangeRundown s WaitBlockPointer Value in
  if NewValue =? Value then
    if n =? 0 then Next (set_live s' None) (go t Returned) else Next s' (go t WaitBlocked)
  else
    ASSERT (Z.land NewValue EX_RUNDOWN_ACTIVE =? 0) (
    Next s' (go t (WaitLoop (Event || init) NewValue))).

(** [KeWaitForSingleObject] on the wait block's event, and the return. *)
Definition WaitForEvent (s : shared) (t : thread) : outcome :=
  if WakeEvent s then
    ASSERT (WaitCount s =? 0) (Next (set_live (set_event s false) None) (go t Returned))
  else Blocked.

(** ** Steps *)

Definition thread_step (s : shared) (t : thread) : outcome :=
  match Pc t with
  | Idle | Returned | Completed => Blocked
  | AcquireFast Value => _ExAcquireRundownProtection s t Value
  | AcquireLoad => Next s (go t (AcquireLoop None (Count s)))
  | AcquireLoop None Value => ExfAcquireRundownProtection s t Value
  | AcquireLoop (Some n) Value => ExfAcquireRundownProtectionEx s t n Value
  | ReleaseFast Value => _ExReleaseRundownProtection s t Value
  | ReleaseLoad => Next s (go t (ReleaseLoop None (Count s)))
  | ReleaseLoop None Value => ExfReleaseRundownProtection s t Value
  | ReleaseLoop (Some n) Value => ExfReleaseRundownProtectionEx s t n Value
  | ReleaseBlock None WaitBlock => ReleaseDecrement s t WaitBlock
  | ReleaseBlock (Some n) WaitBlock => ReleaseExchangeAdd s t n WaitBlock
  | ReleaseSignal WaitBlock => ReleaseSetEvent s t WaitBlock
  | WaitFast => _ExWaitForRundownProtectionRelease s t
  | WaitFirst => ExfWaitForRundownProtectionRelease s t
  | WaitLoop Event Value => WaitPublish s t Event Value
  | WaitBlocked => WaitForEvent s t
  end.

Definition _ExRundownCompleted (s : shared) (t : thread) : outcome :=
  ASSERT (negb (Z.land (Count s) EX_RUNDOWN_ACTIVE =? 0)) (
  Next (ExpSetRundown s EX_RUNDOWN_ACTIVE) (go t Completed)).

Definition ExfRundownCompleted (s : shared) (t : thread) : outcome :=
  ASSERT (negb (Z.land (Count s) EX_RUNDOWN_ACTIVE =? 0)) (
  Next (ExpSetRundown s EX_RUNDOWN_ACTIVE) (go t Completed)).

Definition ExfReInitializeRundownProtection (s : shared) (t : thread) : outcome :=
  ASSERT (negb (Z.land (Count s) EX_RUNDOWN_ACTIVE =? 0)) (
  Next (ExpSetRundown s 0) (go t Idle)).

(** The inline and the exported functions. *)
Inductive operation :=
  | Acquire | ExfAcquire | AcquireEx (n : Z)
  | Release | ExfRelease | ReleaseEx (n : Z)
  | Wait | ExfWait | Complete | ExfComplete | ReInitialize.

Definition is_release (o : operation) : bool :=
  match o with Release | ExfRelease | ReleaseEx _ => true | _ => false end.

(** The call of an operation by a thread that is in none, up to its first access to the word:
    any thread may call anything. *)
Definition call (s : shared) (t : thread) (o : operation) : outcome :=
  let Value := Z.land (Count s) (not32 EX_RUNDOWN_ACTIVE) in
  match Pc t with
  | Idle | Returned | Completed =>
      match o with
      | Acquire => Next s (go t (AcquireFast Value))
      | ExfAcquire => Next s (go t (AcquireLoop None (Count s)))
      | AcquireEx n => Next s (go t (AcquireLoop (Some n) (Count s)))
      | Release => Next s (go t (ReleaseFast Value))
      | ExfRelease => Next s (go t (ReleaseLoop None (Count s)))
      | ReleaseEx n => Next s (go t (ReleaseLoop (Some n) (Count s)))
      | Wait => Next s (go t WaitFast)
      | ExfWait => Next s (go t WaitFirst)
      | Complete => _ExRundownCompleted s t
      | ExfComplete => ExfRundownCompleted s t
      | ReInitialize => ExfReInitializeRundownProtection s t
      end
  | _ => Blocked
  end.

Record config := mkConfig { Shared : shared; Threads : list thread }.

Definition waits (t : thread) : bool :=
  match Pc t with
  | WaitFast | WaitFirst | WaitLoop _ _ | WaitBlocked | Returned => true
  | _ => false
  end.

Definition completed (t : thread) : bool :=
  match Pc t with Completed => true | _ => false end.

Definition sumz (f : thread -> Z) (ts : list thread) : Z := foldr (fun t n => f t + n) 0 ts.

Definition total : list thread -> Z := sumz References.

(** The protocol of one client: it releases only references that it holds, does not wait while
    it holds some, completes a rundown after its wait, and initializes the descriptor again
    after that. *)
Definition permitted (t : thread) (o : operation) : bool :=
  match Pc t, o with
  | Idle, (Acquire | ExfAcquire) => true
  | Idle, AcquireEx n => 1 <=? n
  | Idle, (Release | ExfRelease) => 1 <=? References t
  | Idle, ReleaseEx n => (1 <=? n) && (n <=? References t)
  | Idle, (Wait | ExfWait) => References t =? 0
  | Returned, (Complete | ExfComplete) => true
  | Completed, ReInitialize => true
  | _, _ => false
  end.

(** The protocol of the clients together: one thread at a time waits, so that there is one wait
    block, and the descriptor is initialized again when no other thread is about to complete a
    rundown. *)
Definition agreed (ts : list thread) (i : nat) (t : thread) (o : operation) : Prop :=
  permitted t o = true /\
  match o with
  | Wait | ExfWait => forall j u, ts !! j = Some u -> waits u = false
  | ReInitialize => forall j u, ts !! j = Some u -> j <> i -> waits u = false /\ completed u = false
  | _ => True
  end.

(** A step of the system; fewer than 2^31 references exist. *)
Inductive rundown_step (c : config) : config -> Prop :=
  | step_call i t o s' t' :
      Threads c !! i = Some t -> call (Shared c) t o = Next s' t' -> agreed (Threads c) i t o ->
      rundown_step c (mkConfig s' (<[i := t']> (Threads c)))
  | step_run i t s' t' :
      Threads c !! i = Some t -> thread_step (Shared c) t = Next s' t' ->
      total (<[i := t']> (Threads c)) < 2 ^ 31 ->
      rundown_step c (mkConfig s' (<[i := t']> (Threads c))).

(** Steps that start no new acquisition, wait or initialization: the threads go on with what
    they do, and release what they hold. *)
Inductive drain_step (c : config) : config -> Prop :=
  | drain_release i t o s' t' :
      Threads c !! i = Some t -> call (Shared c) t o = Next s' t' ->
      is_release o = true -> permitted t o = true ->
      drain_step c (mkConfig s' (<[i := t']> (Threads c)))
  | drain_run i t s' t' :
      Threads c !! i = Some t -> thread_step (Shared c) t = Next s' t' ->
      drain_step c (mkConfig s' (<[i := t']> (Threads c))).

End Release.

(** A thread before its first call; its stack is even, not null and below 2^32. *)
Definition fresh (t : thread) : Prop :=
  Pc t = Idle /\ References t = 0 /\ 0 < Block t < 2 ^ 32 /\ Z.even (Block t) = true.

Definition initial (s : shared) (ts : list thread) : config :=
  mkConfig (ExfInitializeRundownProtection s) ts.

Definition reachable (KeNumberProcessors : Z) (c : config) : Prop :=
  exists s ts, Forall fresh ts /\ rtc (rundown_step KeNumberProcessors) (initial s ts) c.
