(* ===== verification/RundownProps.v ===== *)
(** * Rundown protection: the protocol is safe and the wait ends *)

From stdpp Require Import base option list relations.
From Stdlib Require Import ZArith Lia.
From S2P Require Import Prelude Rundown.
Open Scope Z_scope.

(** ** Sums over threads *)

Lemma sumz_insert f ts i t t' :
  ts !! i = Some t -> sumz f (<[i := t']> ts) = sumz f ts - f t + f t'.
Proof.
  revert i. induction ts as [|u ts IH]; intros [|i] H; simplify_eq/=; [lia|].
  rewrite (IH i H). lia.
Qed.

Lemma sumz_nonneg f ts : Forall (fun t => 0 <= f t) ts -> 0 <= sumz f ts.
Proof. induction 1; simpl; lia. Qed.

Lemma sumz_in f ts i t :
  Forall (fun t => 0 <= f t) ts -> ts !! i = Some t -> f t <= sumz f ts.
Proof.
  intros H. revert i. induction H as [|u ts Hu H IH]; intros [|i] Hi; simplify_eq/=.
  - pose proof (sumz_nonneg f ts H). lia.
  - specialize (IH i Hi). lia.
Qed.

Lemma sumz_in2 f ts i j t u :
  Forall (fun t => 0 <= f t) ts -> ts !! i = Some t -> ts !! j = Some u -> i <> j ->
  f t + f u <= sumz f ts.
Proof.
  intros H. revert i j. induction H as [|v ts Hv H IH]; intros [|i] [|j] Hi Hj Hn; simplify_eq/=.
  - pose proof (sumz_in f ts j u H Hj). lia.
  - pose proof (sumz_in f ts i t H Hi). lia.
  - specialize (IH i j Hi Hj ltac:(lia)). lia.
Qed.

Lemma sumz_zero f ts : Forall (fun t => f t = 0) ts -> sumz f ts = 0.
Proof. induction 1; simpl; lia. Qed.

Lemma sumz_positive f ts : 0 < sumz f ts -> exists i t, ts !! i = Some t /\ 0 < f t.
Proof.
  induction ts as [|u ts IH]; simpl; intros H; [lia|].
  destruct (decide (0 < f u)); [by exists 0%nat, u|].
  destruct IH as (i & t & Hi & Ht); [lia|]. by exists (S i), t.
Qed.

Lemma Forall_insert_any (P Q : thread -> Prop) ts i t' :
  (forall j t, ts !! j = Some t -> j <> i -> P t -> Q t) -> Forall P ts -> Q t' ->
  Forall Q (<[i := t']> ts).
Proof.
  intros Himp HP Hq. apply Forall_lookup. intros j t Hj.
  apply list_lookup_insert_Some in Hj as [(-> & -> & _)|[Hne Hj]]; [done|].
  eapply Himp; [exact Hj|done|]. by eapply Forall_lookup in HP.
Qed.

(** ** The word *)

Lemma land_active v : (Z.land v EX_RUNDOWN_ACTIVE =? 0) = Z.even v.
Proof.
  change EX_RUNDOWN_ACTIVE with (Z.ones 1). rewrite Z.land_ones, Zeven_mod by lia. done.
Qed.

Lemma land_inactive_even v : Z.even (Z.land v (not32 EX_RUNDOWN_ACTIVE)) = true.
Proof.
  rewrite <-Z.negb_odd, <-Z.bit0_odd, Z.land_spec, testbit_not32 by lia.
  unfold EX_RUNDOWN_ACTIVE. simpl. by rewrite andb_false_r.
Qed.

Lemma even_succ W : Z.even W = true -> Z.even (W + 1) = false.
Proof. rewrite Z.even_add. by intros ->. Qed.

Lemma lor_block W : 0 < W -> Z.even W = true -> Z.lor W EX_RUNDOWN_ACTIVE = W + 1.
Proof. by destruct W as [|[p|p|]|p]. Qed.

Lemma land_block W :
  0 < W < 2 ^ 32 -> Z.even W = true -> Z.land (W + 1) (not32 EX_RUNDOWN_ACTIVE) = W.
Proof.
  intros HW He. apply Z.even_spec in He as [k ->]. apply Z.bits_inj'. intros i Hi.
  rewrite Z.land_spec, testbit_not32 by lia. unfold EX_RUNDOWN_ACTIVE.
  destruct (Z.eq_dec i 0) as [->|Hi0].
  - rewrite Z.testbit_even_0. by rewrite andb_comm.
  - replace i with (Z.succ (i - 1)) by lia.
    rewrite Z.testbit_odd_succ, Z.testbit_even_succ by lia.
    rewrite (Z.bits_above_log2 1 (Z.succ _)) by (simpl; lia).
    destruct (Z.ltb_spec (Z.succ (i - 1)) 32) as [Hlt|Hge]; [by rewrite andb_true_r|].
    rewrite andb_false_r. symmetry. apply (testbit_above 31); lia.
Qed.

(** ** The invariant *)

(** A descriptor is open, has published the wait block at [W], or is run down. *)
Inductive phase := Open | Waiting (W : Z) | Closed.

Definition amount (k : option Z) : Z := default 1 k.

Definition block_ok (W : Z) : Prop := 0 < W < 2 ^ 32 /\ Z.even W = true.

Definition place_ok (ph : phase) (s : shared) (t : thread) : Prop :=
  match Pc t with
  | Idle | AcquireLoad => True
  | AcquireFast v => Z.even v = true
  | AcquireLoop k v => 1 <= amount k
  | ReleaseFast v => 1 <= References t /\ Z.even v = true
  | ReleaseLoad => 1 <= References t
  | ReleaseLoop k v =>
      1 <= amount k <= References t /\
      (Z.even v = true /\ 2 * amount k <= v < 2 ^ 32 \/ exists W, v = W + 1 /\ ph = Waiting W)
  | ReleaseBlock k W => 1 <= amount k <= References t /\ ph = Waiting W
  | ReleaseSignal W => ph = Waiting W
  | WaitFast | WaitFirst => forall W, ph <> Waiting W
  | WaitLoop Event v =>
      ph = Open /\ Z.even v = true /\ 0 <= v /\ Live s = Some (Block t) /\
      (Event = true -> WakeEvent s = false)
  | WaitBlocked => ph = Waiting (Block t)
  | Returned | Completed => ph = Closed
  end.

Definition thread_ok (ph : phase) (s : shared) (t : thread) : Prop :=
  block_ok (Block t) /\ 0 <= References t /\ (waits t = true -> References t = 0) /\
  place_ok ph s t.

Definition waiting (t : thread) : Z := Z.b2z (waits t).

Definition signal (t : thread) : Z :=
  match Pc t with ReleaseSignal _ => 1 | _ => 0 end.

Definition word_ok (ph : phase) (s : shared) (ts : list thread) : Prop :=
  match ph with
  | Open => Count s = 2 * total ts
  | Waiting W =>
      block_ok W /\ Count s = W + 1 /\ Live s = Some W /\ WaitCount s = total ts /\
      Z.b2z (WakeEvent s) + sumz signal ts = (if total ts =? 0 then 1 else 0) /\
      sumz waiting ts = 1
  | Closed =>
      total ts = 0 /\
      (Count s = EX_RUNDOWN_ACTIVE \/
       Z.even (Count s) = false /\ exists j u, ts !! j = Some u /\ Pc u = Returned)
  end.

Record inv (ph : phase) (s : shared) (ts : list thread) : Prop := mkInv {
  inv_threads : Forall (thread_ok ph s) ts;
  inv_word : word_ok ph s ts;
  inv_waiters : sumz waiting ts <= 1;
  inv_total : total ts < 2 ^ 31
}.

(** What a step of thread [i] has to keep. *)
Definition keeps (ts : list thread) (i : nat) (o : outcome) : Prop :=
  match o with
  | Fault => False
  | Blocked => True
  | Next s' t' => total (<[i := t']> ts) < 2 ^ 31 -> exists ph', inv ph' s' (<[i := t']> ts)
  end.

Lemma references_nonneg ph e ts :
  Forall (thread_ok ph e) ts -> Forall (fun t => 0 <= References t) ts.
Proof. intros H. eapply Forall_impl; [exact H|]. by intros t (_ & Hr & _). Qed.

Lemma waiting_nonneg ts : Forall (fun t => 0 <= waiting t) ts.
Proof. apply Forall_true. intros t. unfold waiting. destruct (waits t); simpl; lia. Qed.

Lemma signal_nonneg ts : Forall (fun t => 0 <= signal t) ts.
Proof. apply Forall_true. intros t. unfold signal. destruct (Pc t); lia. Qed.

(** *** The other threads when the phase changes *)

Lemma thread_publish e e' W t :
  waits t = false -> thread_ok Open e t -> thread_ok (Waiting W) e' t.
Proof.
  intros Hw (Hb & Hr & Hz & Hp). split_and!; [done..|]. revert Hp. unfold place_ok, waits in *.
  destruct (Pc t); try done; naive_solver.
Qed.

Lemma thread_close ph e e' t :
  waits t = false -> References t = 0 -> (forall W, ph = Waiting W -> signal t = 0) ->
  thread_ok ph e t -> thread_ok Closed e' t.
Proof.
  intros Hw Hr0 Hs (Hb & Hr & Hz & Hp). split_and!; [done..|]. revert Hp Hs.
  unfold place_ok, waits, signal in *. destruct (Pc t); try done; try lia; naive_solver lia.
Qed.

Lemma thread_reopen e e' t :
  waits t = false -> completed t = false -> References t = 0 ->
  thread_ok Closed e t -> thread_ok Open e' t.
Proof.
  intros Hw Hc Hr0 (Hb & Hr & Hz & Hp). split_and!; [done..|]. revert Hp.
  unfold place_ok, waits, completed in *. destruct (Pc t); try done; try lia; naive_solver lia.
Qed.

Lemma thread_shared ph s s' t :
  WakeEvent s' = WakeEvent s -> Live s' = Live s -> thread_ok ph s t -> thread_ok ph s' t.
Proof. intros He Hl. unfold thread_ok, place_ok. by rewrite He, Hl. Qed.

Lemma thread_other ph s s' t : waits t = false -> thread_ok ph s t -> thread_ok ph s' t.
Proof.
  intros Hw (Hb & Hr & Hz & Hp). split_and!; [done..|]. revert Hp.
  unfold place_ok, waits in *. by destruct (Pc t).
Qed.

Section Preservation.

Context (ph : phase) (s : shared) (ts : list thread) (i : nat) (t : thread).
Hypothesis Hinv : inv ph s ts.
Hypothesis Hi : ts !! i = Some t.

Lemma self_ok : thread_ok ph s t.
Proof. destruct Hinv as [H _ _ _]. by eapply Forall_lookup in H. Qed.

Lemma self_total : 0 <= References t <= total ts.
Proof.
  destruct Hinv as [H _ _ _]. split; [apply self_ok|].
  apply (sumz_in References ts i); [by eapply references_nonneg|done].
Qed.

Lemma others_not_waiting j u : waits t = true -> ts !! j = Some u -> j <> i -> waits u = false.
Proof.
  intros Hw Hj Hne. destruct Hinv as [_ _ Hn _].
  pose proof (sumz_in2 waiting ts i j t u (waiting_nonneg ts) Hi Hj ltac:(done)) as H2.
  unfold waiting in H2 at 1 2. rewrite Hw in H2. destruct (waits u); simpl in *; [lia|done].
Qed.

Lemma no_references j u : total ts = 0 -> ts !! j = Some u -> References u = 0.
Proof.
  intros H0 Hj. destruct Hinv as [H _ _ _]. pose proof (references_nonneg _ _ _ H) as Hn.
  pose proof (sumz_in References ts j u Hn Hj). unfold total in H0.
  eapply Forall_lookup in Hn; [|done]. simpl in Hn. lia.
Qed.

Lemma total_update t' : total (<[i := t']> ts) = total ts - References t + References t'.
Proof. by apply sumz_insert. Qed.

Lemma waiters_update t' : waiting t' <= waiting t -> sumz waiting (<[i := t']> ts) <= 1.
Proof. destruct Hinv as [_ _ H _]. rewrite (sumz_insert _ _ _ _ _ Hi). lia. Qed.

(** A step that keeps the phase and the event. *)
Lemma inv_same s' t' :
  WakeEvent s' = WakeEvent s -> Live s' = Live s -> thread_ok ph s t' -> waiting t' <= waiting t ->
  word_ok ph s' (<[i := t']> ts) -> total (<[i := t']> ts) < 2 ^ 31 ->
  exists ph', inv ph' s' (<[i := t']> ts).
Proof.
  intros He Hl Ht Hw Hword Htot. exists ph. split; [|done|by apply waiters_update|done].
  eapply Forall_insert_any; [|apply Hinv|by eapply thread_shared].
  intros j u _ _. by apply thread_shared.
Qed.

(** The end of a rundown by thread [i]. *)
Lemma inv_closed s' :
  waits t = true -> total ts = 0 -> (forall W, ph = Waiting W -> sumz signal ts = 0) ->
  Count s' = EX_RUNDOWN_ACTIVE \/ Z.even (Count s') = false ->
  exists ph', inv ph' s' (<[i := go t Returned]> ts).
Proof.
  intros Hw H0 Hs Hc. destruct self_ok as (Hb & Hr & Hz & _). exists Closed.
  assert (Ht : total (<[i := go t Returned]> ts) = 0) by (rewrite total_update; simpl; lia).
  split.
  - eapply Forall_insert_any; [|apply Hinv|by split_and!; [..|intros _; apply Hz|]].
    intros j u Hj Hne Hu. eapply thread_close; [by eapply others_not_waiting|by eapply no_references| |done].
    intros W HW. pose proof (sumz_in signal ts j u (signal_nonneg ts) Hj) as Hle.
    rewrite (Hs W HW) in Hle. unfold signal in *. destruct (Pc u); lia.
  - split; [done|]. destruct Hc as [Hc|Hc]; [by left|right]. split; [done|].
    exists i, (go t Returned). split; [|done].
    apply list_lookup_insert_eq. by eapply lookup_lt_Some.
  - apply waiters_update. unfold waiting. by rewrite Hw.
  - lia.
Qed.

(** A step that only moves the thread. *)
Lemma keep_go p :
  place_ok ph s (go t p) -> waiting (go t p) = waiting t ->
  signal (go t p) = signal t -> Pc t <> Returned -> keeps ts i (Next s (go t p)).
Proof.
  intros Ht Hw Hs Hp Htot. destruct self_ok as (Hb & Hr & Hz & _). apply inv_same; try done.
  { split_and!; [done..| |done]. intros Hg. apply Hz. unfold waiting in Hw. rewrite Hg in Hw.
    by destruct (waits t). }
  { by rewrite Hw. }
  assert (Ht0 : total (<[i := go t p]> ts) = total ts) by (rewrite total_update; simpl; lia).
  assert (Hs0 : sumz signal (<[i := go t p]> ts) = sumz signal ts)
    by (rewrite (sumz_insert _ _ _ _ _ Hi); lia).
  assert (Hw0 : sumz waiting (<[i := go t p]> ts) = sumz waiting ts)
    by (rewrite (sumz_insert _ _ _ _ _ Hi); lia).
  destruct Hinv as [_ Hword _ _]. unfold word_ok in *. rewrite Ht0, Hs0, Hw0. destruct ph; [done..|].
  destruct Hword as [H0 [Hc|(Hc & j & u & Hj & Hu)]]; [by auto|]. split; [done|right].
  split; [done|]. exists j, u. split; [|done]. rewrite list_lookup_insert_ne; [done|].
  intros ->. by simplify_eq.
Qed.

Lemma count_even : Z.even (Count s) = true -> ph = Open /\ Count s = 2 * total ts.
Proof.
  destruct Hinv as [_ Hword _ _]. destruct ph; simpl in Hword; [done|..].
  - destruct Hword as ((_ & He) & -> & _). rewrite (even_succ _ He). done.
  - destruct Hword as [_ [->|[-> _]]]; done.
Qed.

Lemma count_odd : Z.even (Count s) = false -> ph <> Open.
Proof.
  destruct Hinv as [_ Hword _ _]. intros He ->. simpl in Hword. rewrite Hword in He.
  by rewrite Z.even_mul in He.
Qed.

(** A successful exchange of the word: the count of references changes with it. *)
Lemma keep_gain n v :
  Z.even (Count s) = true -> v = u32 (Count s + 2 * n) -> 0 <= References t + n ->
  signal t = 0 -> keeps ts i (Next (set_count s v) (gain t n Idle)).
Proof.
  intros He -> Hn Hs Htot. destruct (count_even He) as [Hph Hc].
  pose proof self_total as Ht. destruct self_ok as (Hb & _ & _ & _).
  assert (Hnew : total (<[i := gain t n Idle]> ts) = total ts + n) by (rewrite total_update; simpl; lia).
  apply inv_same; [done|done|by split_and!|unfold waiting; simpl; destruct (waits t); simpl; lia| |done].
  rewrite Hph. simpl. rewrite Hnew, Hc, u32_small; lia.
Qed.

End Preservation.

(** ** The operations keep the invariant *)

Section Operations.

Context (KeNumberProcessors : Z) (ph : phase) (s : shared) (ts : list thread) (i : nat) (t : thread).
Hypothesis Hinv : inv ph s ts.
Hypothesis Hi : ts !! i = Some t.

(** What the place of the thread tells, and the goal of a step that only moves it. *)
Ltac at_place Hp Hk :=
  destruct (self_ok _ _ _ _ _ Hinv Hi) as (Hb & Hr & Hz & Hk);
  unfold place_ok in Hk; rewrite Hp in Hk;
  let Hw := fresh "Hw" in
  assert (Hw : waiting t = Z.b2z (waits t)) by done; unfold waits in Hw; rewrite Hp in Hw;
  simpl in Hw;
  let Hs := fresh "Hs" in
  assert (Hs : signal t = match Pc t with ReleaseSignal _ => 1 | _ => 0 end) by done;
  rewrite Hp in Hs; simpl in Hs;
  assert (Hret : Pc t <> Returned) by congruence.

Ltac moves :=
  apply (keep_go ph);
  [exact Hinv|exact Hi|try done
  |match goal with H : waiting t = _ |- _ => rewrite H end; unfold waiting; done
  |match goal with H : signal t = _ |- _ => by rewrite H end|assumption].

Lemma acquire_loop_keeps k v :
  Pc t = AcquireLoop k v ->
  keeps ts i match k with
        | None => ExfAcquireRundownProtection s t v
        | Some n => ExfAcquireRundownProtectionEx s t n v
        end.
Proof.
  intros Hp. at_place Hp Hk.
  destruct k as [n|]; unfold ExfAcquireRundownProtection, ExfAcquireRundownProtectionEx;
    rewrite land_active; destruct (Z.even v) eqn:He; simpl negb; cbn iota; try moves;
    unfold ExpChangeRundown; (destruct (Z.eqb_spec (Count s) v) as [Hc|Hc]; [|moves]);
    apply (keep_gain ph); simpl in *; try done; try congruence; try lia;
    rewrite ?u32_add_r; by rewrite Hc.
Qed.

Lemma acquire_fast_keeps v :
  Pc t = AcquireFast v -> keeps ts i (_ExAcquireRundownProtection s t v).
Proof.
  intros Hp. at_place Hp Hk. unfold _ExAcquireRundownProtection, ExpChangeRundown.
  destruct (Z.eqb_spec (Count s) v) as [Hc|Hc]; simpl negb; cbn iota; [|moves].
  apply (keep_gain ph); simpl in *; try done; try congruence; try lia. by rewrite Hc.
Qed.

(** The word as a thread that holds references reads it. *)
Lemma release_reads k :
  1 <= amount k <= References t ->
  Z.even (Count s) = true /\ 2 * amount k <= Count s < 2 ^ 32 \/
  exists W, Count s = W + 1 /\ ph = Waiting W.
Proof.
  intros Hn. pose proof (self_total _ _ _ _ _ Hinv Hi) as Ht. destruct Hinv as [_ Hword _ Htot].
  destruct ph as [|W|]; simpl in Hword.
  - left. rewrite Hword. split; [by rewrite Z.even_mul|lia].
  - right. exists W. naive_solver.
  - lia.
Qed.

Lemma release_fast_keeps v :
  Pc t = ReleaseFast v -> keeps ts i (_ExReleaseRundownProtection KeNumberProcessors s t v).
Proof.
  intros Hp. at_place Hp Hk. destruct Hk as [H1 He]. unfold _ExReleaseRundownProtection, ExpChangeRundown.
  destruct (Z.eqb_spec (Count s) v) as [Hc|Hc]; simpl negb; cbn iota; [|moves].
  rewrite <-Hc in *. destruct (release_reads None) as [[_ Hv]|(W & HW & Hph)]; [done| |].
  - replace (EX_RUNDOWN_COUNT_INC <=? Count s) with true
      by (symmetry; apply Z.leb_le; simpl in Hv; unfold EX_RUNDOWN_COUNT_INC; lia). simpl ASSERT.
    apply (keep_gain ph); simpl in *; try done; try lia. 
  - destruct (count_even _ _ _ Hinv He). congruence.
Qed.

Lemma waiting_word W :
  ph = Waiting W ->
  block_ok W /\ Count s = W + 1 /\ Live s = Some W /\ WaitCount s = total ts /\
  Z.b2z (WakeEvent s) + sumz signal ts = (if total ts =? 0 then 1 else 0) /\
  sumz waiting ts = 1.
Proof. intros ->. apply Hinv. Qed.

Lemma access_live W o : ph = Waiting W -> access s W o = o.
Proof.
  intros Hph. destruct (waiting_word W Hph) as (_ & _ & HL & _). unfold access.
  by rewrite bool_decide_eq_true_2.
Qed.

Lemma release_loop_keeps k v :
  Pc t = ReleaseLoop k v ->
  keeps ts i match k with
        | None => ExfReleaseRundownProtection KeNumberProcessors s t v
        | Some n => ExfReleaseRundownProtectionEx KeNumberProcessors s t n v
        end.
Proof.
  intros Hp. at_place Hp Hk. destruct Hk as [Hn [[He Hv]|(W & -> & Hph)]].
  - assert (Hu : u32 (EX_RUNDOWN_COUNT_INC * amount k) = 2 * amount k) by (apply u32_small; unfold EX_RUNDOWN_COUNT_INC; lia).
    destruct k as [n|]; simpl in *;
      unfold ExfReleaseRundownProtection, ExfReleaseRundownProtectionEx, ExpChangeRundown;
      rewrite land_active, He, ?Hu;
      [replace (2 * n <=? v) with true by (symmetry; apply Z.leb_le; lia)
      |replace (EX_RUNDOWN_COUNT_INC <=? v) with true by (symmetry; apply Z.leb_le; unfold EX_RUNDOWN_COUNT_INC; lia)];
      simpl ASSERT.
    all: destruct (Z.eqb_spec (Count s) v) as [<-|Hc];
      [apply (keep_gain ph); simpl in *; try done; try lia; f_equal; unfold EX_RUNDOWN_COUNT_INC; lia|].
    all: moves; unfold place_ok; simpl; split; [lia|].
    + apply (release_reads (Some n)). simpl. lia.
    + apply (release_reads None). simpl. lia.
  - destruct (waiting_word W Hph) as ((HW & He) & _ & HL & HC & _).
    pose proof (self_total _ _ _ _ _ Hinv Hi) as Ht.
    destruct k as [n|]; simpl in *;
      unfold ExfReleaseRundownProtection, ExfReleaseRundownProtectionEx;
      rewrite land_active, even_succ, land_block, (access_live W) by done; rewrite HC;
      [replace (n <=? total ts) with true by (symmetry; apply Z.leb_le; lia)
      |replace (0 <? total ts) with true by (symmetry; apply Z.ltb_lt; lia)];
      simpl ASSERT; moves.
Qed.

(** Giving back [n] references through the wait block; the last one leaves a signal pending. *)
Lemma keep_return n W p :
  ph = Waiting W -> 1 <= n <= References t -> signal t = 0 -> waiting t = 0 ->
  p = (if total ts =? n then ReleaseSignal W else Idle) ->
  keeps ts i (Next (set_wait_count s (total ts - n)) (gain t (- n) p)).
Proof.
  intros Hph Hn Hs Hw Hp Htot. destruct (waiting_word W Hph) as (HB & HC & HL & HN & HE & HW).
  pose proof (self_total _ _ _ _ _ Hinv Hi) as Ht. destruct (self_ok _ _ _ _ _ Hinv Hi) as (Hb & _).
  assert (Hnew : total (<[i := gain t (- n) p]> ts) = total ts - n)
    by (rewrite (total_update _ _ _ Hi); simpl; lia).
  assert (Hsig : sumz signal (<[i := gain t (- n) p]> ts) = sumz signal ts + (if total ts =? n then 1 else 0)).
  { rewrite (sumz_insert _ _ _ _ _ Hi), Hs. unfold signal at 2. subst p. simpl.
    destruct (total ts =? n); lia. }
  assert (Hwn : waiting (gain t (- n) p) = 0) by (subst p; by destruct (total ts =? n)).
  apply (inv_same ph s ts i t Hinv Hi); [done|done| |lia| |done].
  - split_and!; [done|simpl; lia|subst p; by destruct (_ =? _)|].
    rewrite Hph. subst p. by destruct (_ =? _).
  - rewrite Hph. simpl. rewrite Hnew, Hsig, (sumz_insert waiting _ _ _ _ Hi).
    split_and!; try done; try lia. destruct (Z.eqb_spec (total ts) 0), (Z.eqb_spec (total ts) n), (Z.eqb_spec (total ts - n) 0); lia.
Qed.

Lemma release_block_keeps k W :
  Pc t = ReleaseBlock k W ->
  keeps ts i match k with
        | None => ReleaseDecrement s t W
        | Some n => ReleaseExchangeAdd s t n W
        end.
Proof.
  intros Hp. at_place Hp Hk. destruct Hk as [Hn Hph].
  destruct (waiting_word W Hph) as (_ & _ & _ & HN & _).
  pose proof (self_total _ _ _ _ _ Hinv Hi) as Ht. pose proof (inv_total _ _ _ Hinv) as Hlt.
  destruct k as [n|]; simpl in *; unfold ReleaseDecrement, ReleaseExchangeAdd;
    rewrite (access_live W _ Hph), HN.
  - rewrite u32_add_r, u32_small by lia. replace (total ts + - n) with (total ts - n) by lia.
    by apply (keep_return n W).
  - simpl WaitCount. rewrite u32_small by lia. apply (keep_return 1 W); try done.
    destruct (Z.eqb_spec (total ts - 1) 0), (Z.eqb_spec (total ts) 1); done || lia.
Qed.

Lemma release_signal_keeps W : Pc t = ReleaseSignal W -> keeps ts i (ReleaseSetEvent s t W).
Proof.
  intros Hp. at_place Hp Hph. destruct (waiting_word W Hph) as (HB & HC & HL & HN & HE & HW).
  unfold ReleaseSetEvent. rewrite (access_live W _ Hph). intros Htot.
  assert (Hsig : sumz signal (<[i := go t Idle]> ts) = sumz signal ts - 1)
    by (rewrite (sumz_insert _ _ _ _ _ Hi), Hs; unfold signal at 2; simpl; lia).
  pose proof (sumz_nonneg _ _ (signal_nonneg (<[i := go t Idle]> ts))) as Hpos.
  assert (Hnew : total (<[i := go t Idle]> ts) = total ts) by (rewrite (total_update _ _ _ Hi); simpl; lia).
  assert (Hev : WakeEvent s = false) by (destruct (WakeEvent s), (total ts =? 0); simpl in *; lia || done).
  exists ph. rewrite Hph in *. split; [| |by apply (waiters_update _ _ _ _ _ Hinv Hi); rewrite Hw|done].
  - eapply Forall_insert_any; [|apply Hinv|by split_and!].
    intros j u Hj Hne (Hbu & Hru & Hzu & Hpu). split_and!; [done..|].
    revert Hpu. unfold place_ok. destruct (Pc u); try done; naive_solver.
  - simpl. rewrite Hnew, Hsig. rewrite Hev in HE. simpl in HE.
    rewrite (sumz_insert waiting _ _ _ _ Hi), Hw. change (waiting (go t Idle)) with 0.
    split_and!; try done; lia.
Qed.

(** The word as the only waiting thread reads it before it has published its block. *)
Lemma wait_reads :
  waits t = true -> Pc t <> Returned -> (forall W, ph <> Waiting W) ->
  ph = Open /\ Count s = 2 * total ts /\ 0 <= total ts \/
  ph = Closed /\ Count s = EX_RUNDOWN_ACTIVE /\ total ts = 0.
Proof.
  intros Hw Hret Hph. pose proof (self_total _ _ _ _ _ Hinv Hi) as Ht.
  destruct Hinv as [_ Hword _ _]. destruct ph as [|W|] eqn:E; simpl in Hword.
  - left. split_and!; [done..|lia].
  - by destruct (Hph W).
  - right. destruct Hword as [H0 [Hc|(_ & j & u & Hj & Hu)]]; [done|].
    assert (j <> i) by (intros ->; simplify_eq).
    pose proof (others_not_waiting _ _ _ _ _ Hinv Hi j u Hw Hj ltac:(done)) as Hf.
    unfold waits in Hf. by rewrite Hu in Hf.
Qed.

(** The exchange of zero for the active mark. *)
Lemma wait_exchange o :
  waits t = true -> Pc t <> Returned -> (forall W, ph <> Waiting W) ->
  (ph = Open -> Z.even (Count s) = true -> 0 < Count s -> keeps ts i o) ->
  keeps ts i (let '(Value, s') := ExpChangeRundown s EX_RUNDOWN_ACTIVE 0 in
              if (Value =? 0) || (Value =? EX_RUNDOWN_ACTIVE) then Next s' (go t Returned) else o).
Proof.
  intros Hw Hret Hph Ho. unfold ExpChangeRundown.
  destruct (wait_reads Hw Hret Hph) as [(Hop & Hc & Hn)|(Hcl & Hc & H0)].
  - rewrite Hc. destruct (Z.eqb_spec (2 * total ts) 0) as [H0|H0]; simpl.
    + intros _. apply (inv_closed ph s ts i t Hinv Hi); [done|lia|congruence|by left].
    + assert (2 * total ts <> EX_RUNDOWN_ACTIVE) by (unfold EX_RUNDOWN_ACTIVE; lia).
      destruct (Z.eqb_spec (2 * total ts) EX_RUNDOWN_ACTIVE); [done|].
      apply Ho; rewrite ?Hc; [done|by rewrite Z.even_mul|lia].
  - rewrite Hc. simpl. intros _. apply (inv_closed ph s ts i t Hinv Hi); [done..|congruence|by left].
Qed.

Lemma wait_fast_keeps : Pc t = WaitFast -> keeps ts i (_ExWaitForRundownProtectionRelease s t).
Proof.
  intros Hp. at_place Hp Hk. assert (Hwt : waits t = true) by (unfold waits; by rewrite Hp).
  assert (Hm : keeps ts i (Next s (go t WaitFirst))) by moves.
  assert (Ho : Z.even (Count s) = true -> 0 < Count s -> keeps ts i (Next (snd (ExpChangeRundown s EX_RUNDOWN_ACTIVE 0)) (go t WaitFirst))).
  { intros _ H0. unfold ExpChangeRundown. simpl. by destruct (Z.eqb_spec (Count s) 0); [lia|]. }
  pose proof (wait_exchange _ Hwt Hret Hk (fun _ => Ho)) as H. revert H.
  unfold _ExWaitForRundownProtectionRelease, ExpChangeRundown. simpl.
  by destruct (Count s =? 0), (Count s =? EX_RUNDOWN_ACTIVE).
Qed.

(** A step of the waiting thread before its block is published. *)
Lemma keep_wait s' p :
  waits t = true -> waits (go t p) = true -> ph = Open -> Count s' = Count s ->
  place_ok Open s' (go t p) -> keeps ts i (Next s' (go t p)).
Proof.
  intros Hw Hw' Hop Hc Hp Htot. destruct (self_ok _ _ _ _ _ Hinv Hi) as (Hb & Hr & Hz & _). exists Open.
  assert (Hnew : total (<[i := go t p]> ts) = total ts) by (rewrite (total_update _ _ _ Hi); simpl; lia).
  split; [| |apply (waiters_update _ _ _ _ _ Hinv Hi); unfold waiting; by rewrite Hw, Hw'|done].
  - eapply Forall_insert_any; [|apply Hinv|by split_and!; [..|intros _; apply Hz|]].
    intros j u Hj Hne. rewrite Hop. apply thread_other.
    by eapply (others_not_waiting _ _ _ _ _ Hinv Hi).
  - pose proof (inv_word _ _ _ Hinv) as Hword. rewrite Hop in Hword. simpl in *. by rewrite Hnew, Hc.
Qed.

Lemma wait_first_keeps : Pc t = WaitFirst -> keeps ts i (ExfWaitForRundownProtectionRelease s t).
Proof.
  intros Hp. at_place Hp Hk. assert (Hwt : waits t = true) by (unfold waits; by rewrite Hp).
  apply wait_exchange; try done. intros Hop He H0.
  replace (Count s =? 0) with false by (symmetry; apply Z.eqb_neq; lia).
  apply (keep_wait (set_live s (Some (Block t))) (WaitLoop false (Count s))); [done..|].
  simpl. split_and!; done || lia.
Qed.

Lemma shiftr_half v : Z.even v = true -> 2 * Z.shiftr v EX_RUNDOWN_COUNT_SHIFT = v.
Proof.
  intros He. apply Z.even_spec in He as [k ->]. unfold EX_RUNDOWN_COUNT_SHIFT.
  rewrite Z.shiftr_div_pow2 by lia. change (2 ^ 1) with 2. dlia.
Qed.

(** The wait block is published: the threads that release from now on use it. *)
Lemma wait_published s' :
  waits t = true -> ph = Open -> total ts <> 0 ->
  Count s' = Block t + 1 -> Live s' = Some (Block t) -> WaitCount s' = total ts -> WakeEvent s' = false ->
  keeps ts i (Next s' (go t WaitBlocked)).
Proof.
  intros Hw Hop Hn HC HL HN HE Htot. destruct (self_ok _ _ _ _ _ Hinv Hi) as (Hb & Hr & Hz & _).
  exists (Waiting (Block t)).
  assert (Hnew : total (<[i := go t WaitBlocked]> ts) = total ts)
    by (rewrite (total_update _ _ _ Hi); simpl; lia).
  assert (Hok : Forall (thread_ok (Waiting (Block t)) s') (<[i := go t WaitBlocked]> ts)).
  { eapply Forall_insert_any; [|apply Hinv|split_and!; [done..|by intros _; apply Hz|done]].
    intros j u Hj Hne Hu. rewrite Hop in Hu.
    eapply thread_publish; [by eapply (others_not_waiting _ _ _ _ _ Hinv Hi)|done]. }
  split; [done| |apply (waiters_update _ _ _ _ _ Hinv Hi); unfold waiting; by rewrite Hw|done].
  simpl. rewrite Hnew, HE. split_and!; try done.
  2: { pose proof (sumz_in waiting ts i t (waiting_nonneg ts) Hi). pose proof (inv_waiters _ _ _ Hinv).
    assert (waiting t = 1) by (unfold waiting; by rewrite Hw).
    rewrite (sumz_insert waiting _ _ _ _ Hi). change (waiting (go t WaitBlocked)) with 1. lia. }
  rewrite (proj2 (Z.eqb_neq _ _) Hn). simpl. apply sumz_zero, Forall_lookup. intros j u Hj.
  apply list_lookup_insert_Some in Hj as [(<- & <- & _)|[Hne Hj]]; [done|].
  destruct Hinv as [Ho _ _ _]. eapply Forall_lookup in Ho as (_ & _ & _ & Hpu); [|done].
  revert Hpu. unfold place_ok, signal. rewrite Hop. by destruct (Pc u).
Qed.

Lemma wait_loop_keeps Event v : Pc t = WaitLoop Event v -> keeps ts i (WaitPublish s t Event v).
Proof.
  intros Hp. at_place Hp Hk. destruct Hk as (Hop & He & Hv & HL & HE).
  assert (Hwt : waits t = true) by (unfold waits; by rewrite Hp).
  pose proof (shiftr_half v He) as Hn. destruct Hb as [HB HBe].
  unfold WaitPublish. rewrite lor_block by (done || lia).
  set (n := Z.shiftr v _) in *. set (init := negb (n =? 0) && negb Event).
  set (s1 := set_wait_count (if init then set_event s false else s) n).
  assert (H1 : Count s1 = Count s /\ Live s1 = Live s /\ WaitCount s1 = n /\
               (Event || init = true -> WakeEvent s1 = false)).
  { unfold s1, init. destruct (n =? 0), Event; simpl; split_and!; try done; by auto. }
  assert (Hinit : n <> 0 -> Event || init = true).
  { intros H0. unfold init. rewrite (proj2 (Z.eqb_neq _ _) H0). by destruct Event. }
  clearbody s1 init. destruct H1 as (HC1 & HL1 & HN1 & HE1). unfold ExpChangeRundown. rewrite HC1.
  assert (Hword : Count s = 2 * total ts) by (pose proof (inv_word _ _ _ Hinv) as H; by rewrite Hop in H).
  destruct (Z.eqb_spec (Count s) v) as [Hc|Hc].
  - destruct (Z.eqb_spec n 0) as [H0|H0].
    + intros _. apply (inv_closed ph s ts i t Hinv Hi); [done|lia|congruence|].
      right. simpl. by apply even_succ.
    + apply wait_published; try done; simpl; try congruence; try lia. by apply HE1, Hinit.
  - rewrite land_active. rewrite Hword at 1. rewrite Z.even_mul. simpl ASSERT.
    apply keep_wait; try done. pose proof (self_total _ _ _ _ _ Hinv Hi).
    simpl. split_and!; try done; [rewrite Hword; by rewrite Z.even_mul|lia|by rewrite HL1].
Qed.

Lemma wait_blocked_keeps : Pc t = WaitBlocked -> keeps ts i (WaitForEvent s t).
Proof.
  intros Hp. at_place Hp Hph. assert (Hwt : waits t = true) by (unfold waits; by rewrite Hp).
  destruct (waiting_word _ Hph) as ((HB & HBe) & HC & HL & HN & HE & HW). unfold WaitForEvent.
  destruct (WakeEvent s) eqn:Hev; [|done]. rewrite HN. simpl in HE.
  pose proof (sumz_nonneg _ _ (signal_nonneg ts)) as Hpos.
  destruct (Z.eqb_spec (total ts) 0) as [H0|H0]; [|lia]. simpl ASSERT. intros _.
  apply (inv_closed ph s ts i t Hinv Hi); [done|done|intros; lia|].
  right. simpl. rewrite HC. by apply even_succ.
Qed.

Theorem thread_step_keeps : keeps ts i (thread_step KeNumberProcessors s t).
Proof.
  unfold thread_step. destruct (Pc t) as [|v| |k v|v| |k v|k W|W| | |e v| | |] eqn:Hp; try done.
  - by apply acquire_fast_keeps.
  - at_place Hp Hk. moves.
  - pose proof (acquire_loop_keeps k v Hp). by destruct k.
  - by apply release_fast_keeps.
  - at_place Hp Hk. moves. split; [simpl; lia|]. apply (release_reads None). simpl. lia.
  - pose proof (release_loop_keeps k v Hp). by destruct k.
  - pose proof (release_block_keeps k W Hp). by destruct k.
  - by apply release_signal_keeps.
  - by apply wait_fast_keeps.
  - by apply wait_first_keeps.
  - by apply wait_loop_keeps.
  - by apply wait_blocked_keeps.
Qed.

(** *** Calls *)

Lemma call_wait_keeps p :
  p = WaitFast \/ p = WaitFirst -> Pc t = Idle -> References t = 0 -> (forall j u, ts !! j = Some u -> waits u = false) ->
  keeps ts i (Next s (go t p)).
Proof.
  intros Hp' Hp Hr0 Hno Htot. at_place Hp Hk.
  assert (Hz0 : sumz waiting ts = 0).
  { apply sumz_zero, Forall_lookup. intros j u Hj. unfold waiting. by rewrite (Hno j u Hj). }
  assert (Hnew : total (<[i := go t p]> ts) = total ts)
    by (rewrite (total_update _ _ _ Hi); simpl; lia).
  assert (Hph : forall W, ph <> Waiting W) by (intros W HW; destruct (waiting_word W HW); lia).
  assert (Hw1 : waiting (go t p) = 1) by (by destruct Hp' as [-> | ->]).
  exists ph. split; [..|done].
  - apply Forall_insert; [apply Hinv|]. by destruct Hp' as [-> | ->]; split_and!.
  - pose proof (inv_word _ _ _ Hinv) as Hword. destruct ph as [|W|]; simpl in *.
    + by rewrite Hnew.
    + by destruct (Hph W).
    + rewrite Hnew. destruct Hword as [H0 [Hc|(_ & j & u & Hj & Hu)]]; [by auto|].
      specialize (Hno j u Hj). unfold waits in Hno. by rewrite Hu in Hno.
  - rewrite (sumz_insert waiting _ _ _ _ Hi), Hw, Hw1. lia.
Qed.

Lemma closed_word : ph = Closed -> total ts = 0 /\ Z.even (Count s) = false.
Proof.
  intros Hph. pose proof (inv_word _ _ _ Hinv) as Hword. rewrite Hph in Hword.
  destruct Hword as [H0 [->|[He _]]]; done.
Qed.

Lemma call_complete_keeps : Pc t = Returned -> keeps ts i (_ExRundownCompleted s t).
Proof.
  intros Hp. destruct (self_ok _ _ _ _ _ Hinv Hi) as (Hb & Hr & Hz & Hk).
  unfold place_ok in Hk. rewrite Hp in Hk. destruct (closed_word Hk) as [H0 He].
  unfold _ExRundownCompleted. rewrite land_active, He. simpl ASSERT. intros Htot.
  apply (inv_same ph s ts i t Hinv Hi); [done..|by split_and!| | |done].
  - change (waiting (go t Completed)) with 0. unfold waiting. destruct (waits t); simpl; lia.
  - rewrite Hk. simpl. rewrite (total_update _ _ _ Hi). split; [simpl; lia|by left].
Qed.

Lemma call_reinitialize_keeps :
  Pc t = Completed ->
  (forall j u, ts !! j = Some u -> j <> i -> waits u = false /\ completed u = false) ->
  keeps ts i (ExfReInitializeRundownProtection s t).
Proof.
  intros Hp Hno. at_place Hp Hk. destruct (closed_word Hk) as [H0 He].
  unfold ExfReInitializeRundownProtection. rewrite land_active, He. simpl ASSERT. intros Htot.
  exists Open. split; [..|done].
  - eapply Forall_insert_any; [|apply Hinv|by split_and!]. intros j u Hj Hne Hu.
    destruct (Hno j u Hj Hne). rewrite Hk in Hu. eapply thread_reopen; [done..| |done].
    by eapply (no_references _ _ _ Hinv).
  - simpl. rewrite (total_update _ _ _ Hi). simpl. lia.
  - apply (waiters_update _ _ _ _ _ Hinv Hi). by rewrite Hw.
Qed.

Theorem call_keeps o : agreed ts i t o -> keeps ts i (call s t o).
Proof.
  intros [Hper Hag]. revert Hper. unfold permitted, call.
  destruct (Pc t) eqn:Hp, o as [| |n| | |n| | | | |]; try done; intros Hper.
  - at_place Hp Hk. moves. apply land_inactive_even.
  - at_place Hp Hk. moves.
  - apply Z.leb_le in Hper. at_place Hp Hk. moves.
  - apply Z.leb_le in Hper. at_place Hp Hk. moves. split; [done|apply land_inactive_even].
  - apply Z.leb_le in Hper. at_place Hp Hk. moves. split; [simpl; lia|]. by apply (release_reads None).
  - apply andb_true_iff in Hper as [H1 H2]. apply Z.leb_le in H1, H2. at_place Hp Hk. moves.
    split; [simpl; lia|]. by apply (release_reads (Some n)).
  - apply Z.eqb_eq in Hper. apply call_wait_keeps; by auto.
  - apply Z.eqb_eq in Hper. apply call_wait_keeps; by auto.
  - by apply call_complete_keeps.
  - by apply call_complete_keeps.
  - by apply call_reinitialize_keeps.
Qed.

End Operations.

(** ** Reachable configurations *)

Definition consistent (c : config) : Prop := exists ph, inv ph (Shared c) (Threads c).

Lemma initial_consistent s ts : Forall fresh ts -> consistent (initial s ts).
Proof.
  intros H. exists Open. simpl.
  assert (Ht : total ts = 0) by (apply sumz_zero; eapply Forall_impl; [exact H|]; by intros t (_ & Hr & _)).
  split; simpl; [| |rewrite sumz_zero; [lia|]|lia].
  - eapply Forall_impl; [exact H|]. intros t (Hp & Hr & Hb).
    split_and!; try done; [lia|]. unfold place_ok. by rewrite Hp.
  - lia.
  - eapply Forall_impl; [exact H|]. intros t (Hp & _). unfold waiting, waits. by rewrite Hp.
Qed.

Lemma step_consistent K c c' : consistent c -> rundown_step K c c' -> consistent c'.
Proof.
  intros [ph Hinv] Hstep. destruct Hstep as [i t o s' t' Hi Hc Hag|i t s' t' Hi Hc Htot].
  - pose proof (call_keeps ph _ _ i t Hinv Hi o Hag) as Hk. rewrite Hc in Hk. apply Hk.
    assert (References t' = References t) as Hr.
    { revert Hc. unfold call, _ExRundownCompleted, ExfRundownCompleted, ExfReInitializeRundownProtection, ASSERT.
      destruct (Pc t), o; repeat case_match; naive_solver. }
    rewrite (total_update _ _ _ Hi), Hr. pose proof (inv_total _ _ _ Hinv). lia.
  - pose proof (thread_step_keeps K ph _ _ i t Hinv Hi) as Hk. rewrite Hc in Hk. by apply Hk.
Qed.

Lemma reachable_consistent K c : reachable K c -> consistent c.
Proof.
  intros (s & ts & Hf & Hrun). apply (initial_consistent s) in Hf.
  induction Hrun as [c|c c1 c2 Hstep _ IH]; [done|]. apply IH. by eapply step_consistent.
Qed.
