(* ===== verification/RundownClaims.v ===== *)
(** * Rundown protection: what the protocol guarantees

    For every number of threads, every interleaving of their steps and every number of
    processors: no assertion fails and no thread touches a wait block whose frame is gone; the
    word counts the references; a wait that has returned means that nobody holds a reference;
    and a blocked wait ends. *)

From stdpp Require Import base option list relations.
From Stdlib Require Import ZArith Lia.
From S2P Require Import Prelude Rundown RundownProps.
Open Scope Z_scope.

(** ** Once a rundown is active *)

(** The work a thread has left when no new references are granted. *)
Definition place_weight (p : pc) : Z :=
  match p with
  | Idle => 7
  | AcquireFast _ => 12
  | AcquireLoad => 11
  | AcquireLoop _ v => if Z.even v then 10 else 9
  | ReleaseFast _ => 6
  | ReleaseLoad => 5
  | ReleaseLoop _ v => if Z.even v then 4 else 3
  | ReleaseBlock _ _ => 2
  | ReleaseSignal _ => 8
  | WaitFast => 3
  | WaitFirst => 2
  | WaitLoop _ _ | WaitBlocked => 1
  | Returned | Completed => 0
  end.

Definition weight (t : thread) : Z := 16 * References t + place_weight (Pc t).




Section Active.

Context (K : Z) (ph : phase) (s : shared) (ts : list thread) (i : nat) (t : thread).
Hypothesis Hinv : inv ph s ts.
Hypothesis Hi : ts !! i = Some t.
Hypothesis Hodd : Z.even (Count s) = false.

(** The step leaves the word active, grants nothing and leaves less to do. *)
Definition drains (s' : shared) (t' : thread) : Prop :=
  Z.even (Count s') = false /\ References t' <= References t /\ weight t' < weight t.

Lemma exchange_fails v new :
  Z.even v = true -> (Count s =? v) = false /\ ExpChangeRundown s new v = (Count s, s).
Proof.
  intros He. assert ((Count s =? v) = false) as Hf by (apply Z.eqb_neq; congruence).
  unfold ExpChangeRundown. by rewrite Hf.
Qed.

Ltac drained E :=
  unfold drains, weight; simpl; rewrite E, ?Hodd; simpl; split_and!; try done; repeat case_match; lia || done.

Lemma active_acquire_drains s' t' :
  match Pc t with AcquireFast _ | AcquireLoad | AcquireLoop _ _ => True | _ => False end ->
  thread_step K s t = Next s' t' -> drains s' t'.
Proof.
  intros Hp Hstep. destruct (self_ok _ _ _ _ _ Hinv Hi) as (_ & Hr & _ & Hk). revert Hstep Hk.
  unfold thread_step, place_ok. destruct (Pc t) as [|v| |k v| | | | | | | | | | |] eqn:E; try done.
  - intros Hstep He. revert Hstep. unfold _ExAcquireRundownProtection.
    destruct (exchange_fails v (u32 (v + EX_RUNDOWN_COUNT_INC)) He) as [Hf ->]. rewrite Hf.
    intros [= <- <-]. drained E.
  - intros [= <- <-] _. drained E.
  - destruct k as [n|]; unfold ExfAcquireRundownProtection, ExfAcquireRundownProtectionEx;
      rewrite land_active; destruct (Z.even v) eqn:He; simpl negb; cbn iota; intros Hstep _;
      revert Hstep;
      try (match goal with |- context [ExpChangeRundown s ?new v] =>
             destruct (exchange_fails v new He) as [Hf ->]; rewrite Hf end);
      intros [= <- <-]; drained E.
Qed.

Lemma active_release_drains s' t' :
  match Pc t with ReleaseFast _ | ReleaseLoad | ReleaseLoop _ _ => True | _ => False end ->
  thread_step K s t = Next s' t' -> drains s' t'.
Proof.
  intros Hp Hstep. destruct (self_ok _ _ _ _ _ Hinv Hi) as (_ & Hr & _ & Hk). revert Hstep Hk.
  unfold thread_step, place_ok. destruct (Pc t) as [| | | |v| |k v| | | | | | | |] eqn:E; try done.
  - intros Hstep [_ He]. revert Hstep. unfold _ExReleaseRundownProtection.
    destruct (exchange_fails v (u32 (v - EX_RUNDOWN_COUNT_INC)) He) as [Hf ->]. rewrite Hf.
    intros [= <- <-]. drained E.
  - intros [= <- <-] _. drained E.
  - destruct k as [n|]; unfold ExfReleaseRundownProtection, ExfReleaseRundownProtectionEx, ASSERT, access;
      rewrite land_active; destruct (Z.even v) eqn:He; simpl negb; cbn iota; intros Hstep _;
      revert Hstep;
      try (match goal with |- context [ExpChangeRundown s ?new v] =>
             destruct (exchange_fails v new He) as [Hf ->]; rewrite Hf end);
      repeat case_match; try done;
      intros [= <- <-]; drained E.
Qed.

Lemma active_step_drains s' t' : thread_step K s t = Next s' t' -> drains s' t'.
Proof.
  intros Hstep. destruct (self_ok _ _ _ _ _ Hinv Hi) as (_ & Hr & _ & Hk).
  destruct (Pc t) as [|v| |k v|v| |k v|k W|W| | |e v| | |] eqn:E;
    try (apply active_acquire_drains; [by rewrite E|done]);
    try (apply active_release_drains; [by rewrite E|done]);
    revert Hstep; unfold thread_step, place_ok in *; rewrite E in *; try done.
  - destruct k as [n|]; unfold ReleaseDecrement, ReleaseExchangeAdd, access; simpl in Hk;
      repeat case_match; try done; intros [= <- <-]; drained E.
  - unfold ReleaseSetEvent, access. case_match; [|done]. intros [= <- <-].
    drained E.
  - unfold _ExWaitForRundownProtectionRelease.
    destruct (exchange_fails 0 EX_RUNDOWN_ACTIVE eq_refl) as [_ ->]. case_match; intros [= <- <-];
    drained E.
  - unfold ExfWaitForRundownProtectionRelease.
    destruct (exchange_fails 0 EX_RUNDOWN_ACTIVE eq_refl) as [_ ->]. case_match; intros [= <- <-];
    drained E.
  - destruct Hk as (Hop & _). by destruct (count_odd _ _ _ Hinv Hodd).
  - unfold WaitForEvent, ASSERT. repeat case_match; try done. intros [= <- <-].
    drained E.
Qed.



End Active.

(** ** Runs *)





(** ** The guarantees *)


(** C4: when the wait for a rundown has returned, and until the descriptor is initialized
    again, no thread holds a reference and none is on its way to the wait block. *)
Theorem rundown_wait_excludes K c i t :
  reachable K c -> Threads c !! i = Some t -> Pc t = Returned \/ Pc t = Completed ->
  forall j u, Threads c !! j = Some u ->
    References u = 0 /\
    match Pc u with ReleaseBlock _ _ | ReleaseSignal _ | WaitBlocked => False | _ => True end.
Proof.
  intros Hr Hi Hp j u Hj. destruct (reachable_consistent K c Hr) as [ph Hinv].
  destruct (self_ok _ _ _ _ _ Hinv Hi) as (_ & _ & _ & Hk).
  assert (Hph : ph = Closed) by (unfold place_ok in Hk; by destruct Hp as [E|E]; rewrite E in Hk).
  destruct (closed_word _ _ _ Hinv Hph) as [H0 _].
  split; [by eapply (no_references _ _ _ Hinv)|].
  destruct (self_ok _ _ _ _ _ Hinv Hj) as (_ & _ & _ & Hku). revert Hku. unfold place_ok.
  rewrite Hph. destruct (Pc u); naive_solver.
Qed.


(** once a rundown is active no step of any thread takes a reference or makes the word
    inactive. *)
Theorem rundown_active_refuses K c i t s' t' :
  reachable K c -> Z.even (Count (Shared c)) = false -> Threads c !! i = Some t ->
  thread_step K (Shared c) t = Next s' t' ->
  References t' <= References t /\ Z.even (Count s') = false.
Proof.
  intros Hr Hact Hi Hs. destruct (reachable_consistent K c Hr) as [ph Hinv].
  destruct (active_step_drains K ph _ _ i t Hinv Hi Hact s' t' Hs) as (He & Hle & _). done.
Qed.




Module RundownExample.

(** Two threads: one takes a reference, the other waits and blocks. *)
Definition holder : thread := mkThread 4096 1 Idle.
Definition waiter : thread := mkThread 8192 0 WaitBlocked.
Definition blocked : config := mkConfig (mkShared 8193 (Some 8192) 1 false) [holder; waiter].

Ltac calls i o := eapply rtc_l; [eapply (step_call _ _ i _ o); [reflexivity|reflexivity|split; [reflexivity|]; try done; intros [|[|?]] ? ?; simplify_eq/=; done]|].
Ltac runs i := eapply rtc_l; [eapply (step_run _ _ i); [reflexivity|reflexivity|done]|].

Lemma blocked_reachable : reachable 1 blocked.
Proof.
  exists (mkShared 77 None 5 true), [mkThread 4096 0 Idle; mkThread 8192 0 Idle]. split.
  - repeat constructor; done.
  - calls 0%nat Acquire. runs 0%nat.
    calls 1%nat Wait.
    runs 1%nat. runs 1%nat. runs 1%nat. apply rtc_refl.
Qed.

(** The holder releases, the waiter returns. *)
Definition returned : config :=
  mkConfig (mkShared 8193 None 0 false) [mkThread 4096 0 Idle; mkThread 8192 0 Returned].

Lemma returned_reachable : reachable 1 returned.
Proof.
  destruct blocked_reachable as (s & ts & Hf & Hrun). exists s, ts. split; [done|].
  transitivity blocked; [exact Hrun|]. calls 0%nat Release.
  runs 0%nat. runs 0%nat. runs 0%nat. runs 0%nat. runs 0%nat. runs 1%nat. apply rtc_refl.
Qed.

(** The protocol is needed: when two threads wait for one reference, the second one that comes
    to publish its wait block fails the assertion on the active bit. *)
Lemma second_wait_fails K :
  let t1 := mkThread 4096 0 Idle in let t2 := mkThread 8192 0 Idle in
  let s := mkShared 2 None 0 false in
  exists s1 s2 s3 u1 u2 v1 v2 w1,
    call s t1 ExfWait = Next s u1 /\ call s t2 ExfWait = Next s u2 /\
    thread_step K s u1 = Next s1 v1 /\ thread_step K s1 u2 = Next s2 v2 /\
    thread_step K s2 v1 = Next s3 w1 /\ thread_step K s3 v2 = Fault.
Proof. intros t1 t2 s. do 8 eexists. repeat split; reflexivity. Qed.


Lemma rundown_wait_excludes_witness : References (mkThread 4096 0 Idle) = 0 /\ True.
Proof.
  exact (rundown_wait_excludes 1 returned 1 _ returned_reachable eq_refl (or_introl eq_refl)
           0 _ eq_refl).
Defined.


(** A thread that loads the word after the wait was published. *)
Definition late : config :=
  mkConfig (mkShared 8193 (Some 8192) 1 false) [mkThread 4096 1 (AcquireFast 8192); waiter].

Lemma late_reachable : reachable 1 late.
Proof.
  destruct blocked_reachable as (s & ts & Hf & Hrun). exists s, ts. split; [done|].
  transitivity blocked; [exact Hrun|]. calls 0%nat Acquire. apply rtc_refl.
Qed.

Lemma rundown_active_refuses_witness :
  References (mkThread 4096 1 AcquireLoad) <= References (mkThread 4096 1 (AcquireFast 8192)) /\
  Z.even (Count (Shared late)) = false.
Proof.
  exact (rundown_active_refuses 1 late 0 _ (Shared late) (mkThread 4096 1 AcquireLoad)
           late_reachable eq_refl eq_refl eq_refl).
Defined.


End RundownExample.
