(* ===== verification/NameExpression.v ===== *)
(** * Names and wild cards (ntoskrnl/fsrtl/name.c)

    A UNICODE_STRING is the list of its WCHARs; its length in bytes is twice the number of
    characters.  [FsRtlIsNameInExpressionPrivate] keeps the positions in the expression that the
    part of the name read so far leads to in two arrays, [BackTracking] and [OldBackTracking],
    which change places after every character: first the two arrays of sixteen entries on the
    stack, later two arrays in one allocation.  An access outside of an array is a fault.  A
    position is stored as four times the number of characters before it, or as three more than
    that of a star if it was reached behind the star.  The table of upper case characters is a
    function. *)

From Stdlib Require Import ZArith Lia Bool.
From stdpp Require Import base option list numbers.
From S2P Require Import Prelude.
Open Scope Z_scope.

Definition STAR : Z := 0x2A.
Definition QM : Z := 0x3F.
Definition DOT : Z := 0x2E.
Definition BACKSLASH : Z := 0x5C.
Definition DOS_STAR : Z := 0x3C.
Definition DOS_QM : Z := 0x3E.
Definition DOS_DOT : Z := 0x22.

Definition FSRTL_FAT_LEGAL : Z := 1.
Definition FSRTL_HPFS_LEGAL : Z := 2.
Definition FSRTL_NTFS_LEGAL : Z := 4.
Definition FSRTL_WILD_CHARACTER : Z := 8.

(** The flags of the 128 characters of fsrtlpc.c. *)
Definition LegalAnsiCharacterArray : list Z :=
  [0; 0; 0; 0; 0; 0; 0; 0; 0; 0; 0; 0; 0; 0; 0; 0;
   0; 0; 0; 0; 0; 0; 0; 0; 0; 0; 0; 0; 0; 0; 0; 0;
   7; 7; 8; 7; 7; 7; 7; 7; 7; 7; 8; 6; 6; 7; 7; 0;
   7; 7; 7; 7; 7; 7; 7; 7; 7; 7; 4; 6; 8; 6; 8; 8;
   7; 7; 7; 7; 7; 7; 7; 7; 7; 7; 7; 7; 7; 7; 7; 7;
   7; 7; 7; 7; 7; 7; 7; 7; 7; 7; 7; 6; 0; 6; 7; 7;
   7; 7; 7; 7; 7; 7; 7; 7; 7; 7; 7; 7; 7; 7; 7; 7;
   7; 7; 7; 7; 7; 7; 7; 7; 7; 7; 7; 7; 0; 7; 7; 7].

(** A read outside of the table is a fault. *)
Definition FsRtlIsUnicodeCharacterWild (C : Z) : option bool :=
  if 0x40 <=? C then Some false else
  flags ← rd LegalAnsiCharacterArray C; Some (negb (Z.land flags FSRTL_WILD_CHARACTER =? 0)).

(** [sizeof(WCHAR)] times the number of characters. *)
Definition ByteLength (s : list Z) : Z := 2 * Z.of_nat (length s).

(** The loop from the last character back to a backslash. *)
Fixpoint WildLoop (l : list Z) : option bool :=
  match l with
  | [] => Some false
  | c :: l' =>
      if c =? BACKSLASH then Some false else
      wild ← FsRtlIsUnicodeCharacterWild c;
      if (wild : bool) then Some true else WildLoop l'
  end.

Definition FsRtlDoesNameContainWildCards (Name : list Z) : option bool := WildLoop (reverse Name).

(** ** The back-tracking arrays *)

Record TRACKING := mkTracking {
  BackTracking : list Z; OldBackTracking : list Z;
  Swapped : bool;      (** [BackTracking] points to [OldBackTrackingBuffer] *)
  BackTrackingBufferSize : Z;
  BackTrackingPosition : Z
}.

Definition Push (t : TRACKING) (v : Z) : option TRACKING :=
  b ← wr (BackTracking t) (BackTrackingPosition t) (u16 v);
  Some (mkTracking b (OldBackTracking t) (Swapped t) (BackTrackingBufferSize t)
          (u16 (BackTrackingPosition t + 1))).

(** The larger arrays: [Pool] is what is in the memory that the allocator returns.  The contents
    are copied from the arrays by their names.  The assertion says that this happens once. *)
Definition Grow (t : TRACKING) (ExpressionLength : Z) (Pool : list Z) : option TRACKING :=
  let Size := (ExpressionLength + 1) * 2 in
  let BackTrackingBuffer := if Swapped t then OldBackTracking t else BackTracking t in
  let OldBackTrackingBuffer := if Swapped t then BackTracking t else OldBackTracking t in
  if negb (BackTrackingBufferSize t =? 16) || (Size <? 16) || negb (Z.of_nat (length Pool) =? 2 * Size) then None else
  Some (mkTracking
    (BackTrackingBuffer ++ drop 16 (take (Z.to_nat Size) Pool))
    (OldBackTrackingBuffer ++ drop (16 + Z.to_nat Size) Pool)
    (Swapped t) Size (BackTrackingPosition t)).

Section Match.

(** [DBG] is the checked build; [Allocate n] is the memory of [n] USHORTs that the pool returns,
    [None] for NULL. *)
Variables (DBG : bool) (Allocate : Z -> option (list Z)) (IgnoreCase : bool) (UpcaseTable : Z -> Z).
Variables (Expression Name : list Z).

(** [for (Position = NamePosition - 1; Position < Name->Length; Position++)]. *)
Fixpoint DotLoop (fuel : nat) (Position : Z) : option bool :=
  if Position <? ByteLength Name then
    match fuel with
    | O => None
    | S fuel' =>
        c ← rd Name Position;
        if c =? DOT then Some false else DotLoop fuel' (u16 (Position + 1))
    end
  else Some true.

(** What the loop over the expression ends with: the arrays, or NULL from the allocator. *)
Definition loop_outcome : Type := option TRACKING.

(** The loop over the expression: [Offset] is added to [ExpressionPosition] first. *)
Fixpoint ExpressionLoop (fuel : nat) (t : TRACKING) (NamePosition : Z) (EndOfName : bool)
    (ExpressionPosition Offset : Z) : option loop_outcome :=
  if negb (ExpressionPosition <? ByteLength Expression) then Some (Some t) else
  match fuel with
  | O => None
  | S fuel' =>
      let ExpressionPosition := u16 (ExpressionPosition + Offset) in
      if ExpressionPosition =? ByteLength Expression then
        t ← Push t (ByteLength Expression * 2); Some (Some t)
      else
      grown ← (if u32 (BackTrackingBufferSize t - 2) <? BackTrackingPosition t then
                 match Allocate (2 * ((ByteLength Expression + 1) * 2)) with
                 | None => Some None
                 | Some Pool => t ← Grow t (ByteLength Expression) Pool; Some (Some t)
                 end
               else Some (Some t));
      match grown with
      | None => Some None
      | Some t =>
          e ← rd Expression (ExpressionPosition / 2);
          CompareChar ← (if ByteLength Name / 2 <=? NamePosition then Some 0 else
                         c ← rd Name NamePosition; Some (if IgnoreCase then UpcaseTable c else c));
          if (e =? CompareChar) && negb EndOfName then
            t ← Push t ((ExpressionPosition + 2) * 2); Some (Some t)
          else if (e =? QM) && negb EndOfName then
            t ← Push t ((ExpressionPosition + 2) * 2); Some (Some t)
          else if e =? STAR then
            t ← Push t (ExpressionPosition * 2);
            t ← Push t (ExpressionPosition * 2 + 3);
            ExpressionLoop fuel' t NamePosition EndOfName ExpressionPosition 2
          else if e =? DOS_STAR then
            t ← (if EndOfName then Push t (ExpressionPosition * 2) else
                 c ← rd Name NamePosition;
                 DontSkipDot ← (if c =? DOT then DotLoop (S (Z.to_nat (ByteLength Name))) (u16 (NamePosition - 1))
                                else Some true);
                 if negb (c =? DOT) || negb DontSkipDot then Push t (ExpressionPosition * 2) else Some t);
            t ← Push t (ExpressionPosition * 2 + 3);
            ExpressionLoop fuel' t NamePosition EndOfName ExpressionPosition 2
          else if e =? DOS_DOT then
            if EndOfName then ExpressionLoop fuel' t NamePosition EndOfName ExpressionPosition 2 else
            c ← rd Name NamePosition;
            if c =? DOT then t ← Push t ((ExpressionPosition + 2) * 2); Some (Some t)
            else Some (Some t)
          else if e =? DOS_QM then
            skip ← (if EndOfName then Some true else c ← rd Name NamePosition; Some (c =? DOT));
            if (skip : bool) then ExpressionLoop fuel' t NamePosition EndOfName ExpressionPosition 2 else
            t ← Push t ((ExpressionPosition + 2) * 2); Some (Some t)
          else Some (Some t)
      end
  end.

(** [while (MatchingChars > OldBackTrackingPosition && ...) ++OldBackTrackingPosition]. *)
Fixpoint SkipWhile (fuel : nat) (Old : list Z) (b MatchingChars OldPosition : Z) : option Z :=
  if OldPosition <? MatchingChars then
    o ← rd Old OldPosition;
    if o <? b then
      match fuel with
      | O => None
      | S fuel' => SkipWhile fuel' Old b MatchingChars (u16 (OldPosition + 1))
      end
    else Some OldPosition
  else Some OldPosition.

(** The loop over [Position] below [BackTrackingPosition]; [n] positions are left. *)
Fixpoint SkipLoop (n : nat) (t : TRACKING) (Position MatchingChars OldPosition : Z) : option Z :=
  match n with
  | O => Some OldPosition
  | S n' =>
      if OldPosition <? MatchingChars then
        b ← rd (BackTracking t) Position;
        OldPosition ← SkipWhile (Z.to_nat MatchingChars) (OldBackTracking t) b MatchingChars OldPosition;
        SkipLoop n' t (Position + 1) MatchingChars OldPosition
      else Some OldPosition
  end.

(** [while (MatchingChars > OldBackTrackingPosition)]. *)
Fixpoint MatchLoop (fuel : nat) (t : TRACKING) (NamePosition : Z) (EndOfName : bool)
    (MatchingChars OldPosition : Z) : option loop_outcome :=
  if negb (OldPosition <? MatchingChars) then Some (Some t) else
  match fuel with
  | O => None
  | S fuel' =>
      o ← rd (OldBackTracking t) OldPosition;
      let OldPosition := u16 (OldPosition + 1) in
      r ← ExpressionLoop (S (length Expression)) t NamePosition EndOfName (u16 ((o + 1) / 2)) 0;
      match r with
      | None => Some None
      | Some t =>
          OldPosition ← SkipLoop (Z.to_nat (BackTrackingPosition t)) t 0 MatchingChars OldPosition;
          MatchLoop fuel' t NamePosition EndOfName MatchingChars OldPosition
      end
  end.

Definition Swap (t : TRACKING) : TRACKING :=
  mkTracking (OldBackTracking t) (BackTracking t) (negb (Swapped t)) (BackTrackingBufferSize t)
    (BackTrackingPosition t).

(** The last condition: the last position is the end of the expression. *)
Definition AtEnd (t : TRACKING) (MatchingChars : Z) : option bool :=
  if 0 <? MatchingChars then
    o ← rd (OldBackTracking t) (MatchingChars - 1); Some (o =? ByteLength Expression * 2)
  else Some false.

(** The loop over the name; the result is that of the function. *)
Fixpoint NameLoop (fuel : nat) (t : TRACKING) (NamePosition MatchingChars : Z) (EndOfName : bool)
    : option bool :=
  if EndOfName then AtEnd t MatchingChars else
  match fuel with
  | O => None
  | S fuel' =>
      let t := mkTracking (BackTracking t) (OldBackTracking t) (Swapped t) (BackTrackingBufferSize t) 0 in
      let EndOfName := ByteLength Name / 2 <=? NamePosition in
      found ← (if (EndOfName : bool) then AtEnd t MatchingChars else Some false);
      if (found : bool) then AtEnd t MatchingChars else
      r ← MatchLoop (Z.to_nat MatchingChars) t NamePosition EndOfName MatchingChars 0;
      match r with
      | None => Some false
      | Some t =>
          NameLoop fuel' (Swap t) (u16 (NamePosition + 1)) (BackTrackingPosition t) EndOfName
      end
  end.

(** The comparison of the expression behind the star with the end of the name; the expression
    must be in upper case. *)
Fixpoint UpcaseEqual (e n : list Z) : option bool :=
  match e, n with
  | [], _ => Some true
  | c :: e', d :: n' =>
      _ ← checked DBG (c =? UpcaseTable c);
      if negb (UpcaseTable d =? c) then Some false else UpcaseEqual e' n'
  | _, [] => None
  end.

(** [Stack] is what is in [BackTrackingBuffer] on entry. *)
Definition FsRtlIsNameInExpressionPrivate (Stack : list Z) : option bool :=
  if (ByteLength Name =? 0) || (ByteLength Expression =? 0) then
    Some ((ByteLength Name =? 0) && (ByteLength Expression =? 0))
  else
  first ← rd Expression 0;
  if (ByteLength Expression =? 2) && (first =? STAR) then Some true else
  let IntExpression := drop 1 Expression in
  suffix ← (if first =? STAR then wild ← FsRtlDoesNameContainWildCards IntExpression; Some (negb wild)
            else Some false);
  if (suffix : bool) then
    if ByteLength Name <? ByteLength Expression - 2 then Some false else
    let NamePosition := (ByteLength Name - ByteLength IntExpression) / 2 in
    if negb IgnoreCase
    then Some (bool_decide (take (length IntExpression) (drop (Z.to_nat NamePosition) Name) = IntExpression))
    else UpcaseEqual IntExpression (drop (Z.to_nat NamePosition) Name)
  else
  NameLoop (S (S (length Name))) (mkTracking Stack (replicate 16 0) false 16 0) 0 1 false.

End Match.
