(* ===== verification/NameProps.v ===== *)
(** * What an expression means, and that sets of positions decide it

    [Matches] is the language of the wild cards, one character of the name at a time.  The
    function of name.c computes it as a set of positions: [pushes] is what one old position
    adds, [step] what one character makes of all of them, the skipped ones included, and [runs]
    goes through the name.  The lemmas show that the sets decide [Matches]. *)

From Stdlib Require Import ZArith Lia Bool Sorting.
From stdpp Require Import base option list numbers sets sorting.
From S2P Require Import Prelude NameExpression.
Open Scope Z_scope.

Definition wild (c : Z) : bool :=
  (c =? STAR) || (c =? QM) || (c =? DOS_STAR) || (c =? DOS_QM) || (c =? DOS_DOT).

Section Language.

Variable fold : Z -> Z.

(** [first] says that no character of the name has been read yet. *)
Inductive Matches : bool -> list Z -> list Z -> Prop :=
| Matches_end first : Matches first [] []
| Matches_char first x e n : wild (fold x) = false ->
    Matches false e n -> Matches first (fold x :: e) (x :: n)
| Matches_any first x e n : Matches false e n -> Matches first (QM :: e) (x :: n)
| Matches_star_none first e n : Matches first e n -> Matches first (STAR :: e) n
| Matches_star_more first x e n :
    Matches false (STAR :: e) n -> Matches first (STAR :: e) (x :: n)
| Matches_dos_star_none first e n : Matches first e n -> Matches first (DOS_STAR :: e) n
| Matches_dos_star_more first x e n : ~ (first = true /\ x = DOT) ->
    Matches false (DOS_STAR :: e) n -> Matches first (DOS_STAR :: e) (x :: n)
| Matches_dos_star_last first x e n :
    Matches false e n -> Matches first (DOS_STAR :: e) (x :: n)
| Matches_dos_dot first e n : Matches false e n -> Matches first (DOS_DOT :: e) (DOT :: n)
| Matches_dos_dot_end first e : Matches first e [] -> Matches first (DOS_DOT :: e) []
| Matches_dos_any first x e n : x <> DOT ->
    Matches false e n -> Matches first (DOS_QM :: e) (x :: n)
| Matches_dos_any_dot first e n :
    Matches first e (DOT :: n) -> Matches first (DOS_QM :: e) (DOT :: n)
| Matches_dos_any_end first e : Matches first e [] -> Matches first (DOS_QM :: e) []
| Matches_dos_any_last first : Matches first [DOS_QM] [DOT].

(** The language of expressions without DOS_STAR: a question mark is one character, a star any
    number of them, DOS_DOT a dot or nothing at the end of the name, and DOS_QM one character
    other than a dot or nothing before a dot and at the end of the name; a DOS_QM at the end of
    the expression is also a dot at the end of the name. *)
Inductive Language : list Z -> list Z -> Prop :=
| Language_end : Language [] []
| Language_char x e n : wild (fold x) = false -> Language e n -> Language (fold x :: e) (x :: n)
| Language_any x e n : Language e n -> Language (QM :: e) (x :: n)
| Language_star m e n : Language e n -> Language (STAR :: e) (m ++ n)
| Language_dos_dot e n : Language e n -> Language (DOS_DOT :: e) (DOT :: n)
| Language_dos_dot_end e : Language e [] -> Language (DOS_DOT :: e) []
| Language_dos_any x e n : x <> DOT -> Language e n -> Language (DOS_QM :: e) (x :: n)
| Language_dos_any_dot e n : Language e (DOT :: n) -> Language (DOS_QM :: e) (DOT :: n)
| Language_dos_any_end e : Language e [] -> Language (DOS_QM :: e) []
| Language_dos_any_last : Language [DOS_QM] [DOT].

Lemma Matches_star_app first m e n : Matches false e n -> Matches first e n -> Matches first (STAR :: e) (m ++ n).
Proof.
  intros H F. revert first F. induction m as [|x m IH]; intros first F; [by apply Matches_star_none|].
  apply Matches_star_more. by apply IH.
Qed.

Lemma Language_Matches e n first : Language e n -> Matches first e n.
Proof.
  intros H. revert first. induction H; intros first; try (by constructor; auto). apply Matches_star_app; auto.
Qed.

Lemma Matches_Language e n first : DOS_STAR ∉ e -> Matches first e n -> Language e n.
Proof.
  intros He H. induction H; try (by (apply not_elem_of_cons in He as [? He]; constructor; auto)); try (by constructor).
  - apply not_elem_of_cons in He as [_ He]. apply (Language_star []). auto.
  - specialize (IHMatches He). inversion IHMatches as [|? ? ? W| |y ? ? L| | | | | |]; subst.
    + match goal with E : fold _ = STAR |- _ => rewrite E in W; done end.
    + by apply (Language_star (x :: y)).
  - by apply not_elem_of_cons in He as [? _].
  - by apply not_elem_of_cons in He as [? _].
  - by apply not_elem_of_cons in He as [? _].
Qed.

(** ** Positions as numbers *)

Variable E : list Z.

Definition len : Z := Z.of_nat (length E).

(** The position that a stored number stands for. *)
Definition pos (v : Z) : Z := (v + 1) / 4.

Definition suffix (k : Z) : list Z := drop (Z.to_nat k) E.

(** What the position [k], with the suffix [e], adds for the next character of the name ([None]
    at its end). *)
Fixpoint pushes (x : option Z) (first : bool) (e : list Z) (k : Z) : list Z :=
  match e with
  | [] => [4 * k]
  | c :: e' =>
      if match x with Some x => c =? fold x | None => false end then [4 * (k + 1)]
      else if (c =? QM) && match x with Some _ => true | None => false end then [4 * (k + 1)]
      else if c =? STAR then 4 * k :: 4 * k + 3 :: pushes x first e' (k + 1)
      else if c =? DOS_STAR then
        (if match x with Some x => (x =? DOT) && first | None => false end then [] else [4 * k])
        ++ 4 * k + 3 :: pushes x first e' (k + 1)
      else if c =? DOS_DOT then
        match x with
        | None => pushes x first e' (k + 1)
        | Some x => if x =? DOT then [4 * (k + 1)] else []
        end
      else if c =? DOS_QM then
        if match x with Some x => x =? DOT | None => true end then pushes x first e' (k + 1)
        else [4 * (k + 1)]
      else []
  end.

Definition from (x : option Z) (first : bool) (v : Z) : list Z :=
  if pos v <? len then pushes x first (suffix (pos v)) (pos v) else [].

(** One old position: skipped if a larger number is there already. *)
Definition skips (acc : list Z) (o : Z) : bool :=
  match last acc with Some b => o <? b | None => false end.

Definition consider (x : option Z) (first : bool) (acc : list Z) (o : Z) : list Z :=
  if skips acc o then acc else acc ++ from x first o.

Definition step (x : option Z) (first : bool) (s : list Z) : list Z :=
  foldl (consider x first) [] s.

Definition ends (s : list Z) : bool := bool_decide (last s = Some (4 * len)).

(** The name from here on. *)
Fixpoint runs (first : bool) (n : list Z) (s : list Z) : bool :=
  match n with
  | [] => ends s || ends (step None first s)
  | x :: n' => runs false n' (step (Some x) first s)
  end.

(** No set of positions on the way has more than [bound] elements. *)
Fixpoint fits (bound : nat) (first : bool) (n : list Z) (s : list Z) : bool :=
  match n with
  | [] => bool_decide (length (step None first s) <= bound)%nat
  | x :: n' =>
      bool_decide (length (step (Some x) first s) <= bound)%nat &&
      fits bound false n' (step (Some x) first s)
  end.

(** ** What the positions mean *)

Lemma pos_4 k : pos (4 * k) = k.
Proof. unfold pos. symmetry. apply (Z.div_unique _ 4 k 1); lia. Qed.

Lemma pos_43 k : pos (4 * k + 3) = k + 1.
Proof. unfold pos. replace (4 * k + 3 + 1) with (4 * (k + 1)) by lia. rewrite Z.mul_comm, Z.div_mul; lia. Qed.

Lemma suffix_next k c e : 0 <= k -> suffix k = c :: e -> suffix (k + 1) = e.
Proof.
  unfold suffix. intros H0 H. replace (Z.to_nat (k + 1)) with (Z.to_nat k + 1)%nat by lia.
  by rewrite <- drop_drop, H.
Qed.

Lemma suffix_nil k : 0 <= k -> suffix k = [] <-> len <= k.
Proof.
  unfold suffix, len. intros H0. split.
  - intros H. apply (f_equal length) in H. rewrite length_drop in H. simpl in H. lia.
  - intros H. apply drop_ge. lia.
Qed.

Lemma suffix_len k c e : 0 <= k -> suffix k = c :: e -> k < len.
Proof. intros H0 H. destruct (Z.lt_ge_cases k len) as [|G]; [done|]. apply suffix_nil in G; [congruence|lia]. Qed.

Lemma wild_cases c : wild c = true <-> c = STAR \/ c = QM \/ c = DOS_STAR \/ c = DOS_QM \/ c = DOS_DOT.
Proof. unfold wild. rewrite !orb_true_iff, !Z.eqb_eq. tauto. Qed.

(** The wild cards are different characters. *)
Ltac wild_eq :=
  repeat match goal with
  | H : wild ?c = false |- _ =>
      match goal with
      | _ : c <> STAR |- _ => fail 1
      | _ =>
          assert (c <> STAR) by (intros E'; rewrite E' in H; discriminate H);
          assert (c <> QM) by (intros E'; rewrite E' in H; discriminate H);
          assert (c <> DOS_STAR) by (intros E'; rewrite E' in H; discriminate H);
          assert (c <> DOS_QM) by (intros E'; rewrite E' in H; discriminate H);
          assert (c <> DOS_DOT) by (intros E'; rewrite E' in H; discriminate H)
      end
  end.

(** Literal characters and the end of the expression. *)
Lemma Matches_literal first c e x n : wild c = false ->
  Matches first (c :: e) (x :: n) <-> c = fold x /\ Matches false e n.
Proof.
  intros Hc. split.
  - intros H. inversion H; subst; try done; by compute in Hc.
  - intros [-> H]. by constructor.
Qed.

Lemma Matches_nil first n : Matches first [] n <-> n = [].
Proof. split; [by inversion 1|intros ->; constructor]. Qed.

Lemma Matches_QM first e x n : Matches first (QM :: e) (x :: n) <-> Matches false e n.
Proof. split; [|by constructor]. inversion 1; subst; [by wild_eq|done]. Qed.

Lemma Matches_STAR first e x n :
  Matches first (STAR :: e) (x :: n) <-> Matches first e (x :: n) \/ Matches false (STAR :: e) n.
Proof.
  split; [|intros [|]; by constructor]. inversion 1; subst; [by wild_eq|tauto..].
Qed.

Lemma Matches_DOS_STAR first e x n :
  Matches first (DOS_STAR :: e) (x :: n) <->
  Matches first e (x :: n) \/ Matches false e n \/
  (~ (first = true /\ x = DOT) /\ Matches false (DOS_STAR :: e) n).
Proof.
  split; [|intros [|[|[]]]; by constructor]. inversion 1; subst; [by wild_eq|tauto..].
Qed.

Lemma Matches_DOS_DOT first e x n :
  Matches first (DOS_DOT :: e) (x :: n) <-> x = DOT /\ Matches false e n.
Proof. split; [|intros [-> ?]; by constructor]. inversion 1; subst; [by wild_eq|tauto..]. Qed.

Lemma Matches_DOS_QM first e x n :
  Matches first (DOS_QM :: e) (x :: n) <->
  (x <> DOT /\ Matches false e n) \/
  (x = DOT /\ (Matches first e (x :: n) \/ (e = [] /\ n = []))).
Proof.
  split; [inversion 1; subst; [by wild_eq|tauto..]|].
  intros [[]|[-> [?|[-> ->]]]]; by constructor.
Qed.

(** What a position adds for a character is what may follow behind that character. *)
Definition follow (n : list Z) (w : Z) : Prop := Matches false (suffix (pos w)) n.

Lemma pushes_matches x first e k n :
  wild (fold x) = false -> 0 <= k -> suffix k = e -> e <> [] ->
  Matches first e (x :: n) <-> Exists (follow n) (pushes (Some x) first e k).
Proof.
  intros Hx. revert k. induction e as [|c e IH]; intros k Hk He Hne; [done|]. clear Hne.
  pose proof (suffix_next k c e Hk He) as Hn.
  assert (follow n (4 * k) <-> Matches false (c :: e) n) as P0 by (unfold follow; rewrite pos_4, He; done).
  assert (follow n (4 * (k + 1)) <-> Matches false e n) as P1 by (unfold follow; rewrite pos_4, Hn; done).
  assert (follow n (4 * k + 3) <-> Matches false e n) as P3 by (unfold follow; rewrite pos_43, Hn; done).
  assert (forall f, Matches f [] n <-> n = []) as Z0 by (intros; apply Matches_nil).
  assert (if decide (e = []) then Exists (follow n) (pushes (Some x) first e (k + 1)) <-> n = []
          else Matches first e (x :: n) <-> Exists (follow n) (pushes (Some x) first e (k + 1))) as R.
  { case_decide as D; [|apply IH; [lia|done|done]]. clear Hn. subst e. cbn [pushes].
    rewrite Exists_cons, Exists_nil, P1, Z0. tauto. }
  clear IH Hn. cbn [pushes].
  assert (~ Matches first [] (x :: n)) as Z1 by (rewrite Matches_nil; done).
  destruct (Z.eqb_spec c (fold x)) as [->|N1].
  { rewrite (Matches_literal _ _ _ _ _ Hx), Exists_cons, Exists_nil. tauto. }
  destruct (Z.eqb_spec c QM) as [->|N2].
  { cbn [andb]. rewrite Matches_QM, Exists_cons, Exists_nil. tauto. }
  cbn [andb].
  destruct (Z.eqb_spec c STAR) as [->|N3].
  { rewrite Matches_STAR, !Exists_cons, P0, P3. pose proof (Matches_star_none false e n).
    case_decide as D; [|rewrite R; tauto].
    subst e. rewrite R, Z0. split; [tauto|]. rewrite Z0 in *. tauto. }
  destruct (Z.eqb_spec c DOS_STAR) as [->|N4].
  { rewrite Matches_DOS_STAR, Exists_app, Exists_cons, P3.
    destruct (Z.eqb_spec x DOT) as [->|ND], first; cbn [andb]; rewrite ?Exists_cons, Exists_nil, ?P0;
      (case_decide as D; [subst e; rewrite R, Z0|rewrite R]); naive_solver. }
  destruct (Z.eqb_spec c DOS_DOT) as [->|N5].
  { rewrite Matches_DOS_DOT. destruct (Z.eqb_spec x DOT) as [->|ND]; rewrite ?Exists_cons, Exists_nil; tauto. }
  destruct (Z.eqb_spec c DOS_QM) as [->|N6].
  { rewrite Matches_DOS_QM. destruct (Z.eqb_spec x DOT) as [->|ND].
    - case_decide as D; [subst e; rewrite R; naive_solver|rewrite R; naive_solver].
    - rewrite Exists_cons, Exists_nil. tauto. }
  rewrite Exists_nil, Matches_literal; [intuition|].
  destruct (wild c) eqn:W; [|done]. apply wild_cases in W. tauto.
Qed.

(** The positions that are reached at the end of the name. *)
Lemma Matches_end_inv first c e : Matches first (c :: e) [] <->
  (c = STAR \/ c = DOS_STAR \/ c = DOS_DOT \/ c = DOS_QM) /\ Matches first e [].
Proof.
  split; [by inversion 1; subst; eauto 6|].
  intros [[->|[->|[->| ->]]] H]; by constructor.
Qed.

Lemma pushes_end first e k :
  0 <= k <= len -> suffix k = e -> Matches first e [] <-> 4 * len ∈ pushes None first e k.
Proof.
  revert k. induction e as [|c e IH]; intros k Hk He.
  { cbn [pushes]. rewrite list_elem_of_singleton. apply suffix_nil in He; [|lia].
    split; [intros _; lia|intros; constructor]. }
  assert (k < len) as Hl by (eapply suffix_len; [lia|done]).
  specialize (IH (k + 1) ltac:(lia) (suffix_next k c e ltac:(lia) He)).
  rewrite Matches_end_inv, IH. clear IH. cbn [pushes]. rewrite andb_false_r.
  destruct (Z.eqb_spec c STAR) as [->|N3].
  { rewrite !elem_of_cons. split; [tauto|]. intros [|[|]]; [lia..|tauto]. }
  destruct (Z.eqb_spec c DOS_STAR) as [->|N4].
  { cbn [app]. rewrite !elem_of_cons. split; [tauto|]. intros [|[|]]; [lia..|tauto]. }
  destruct (Z.eqb_spec c DOS_DOT) as [->|N5]; [tauto|].
  destruct (Z.eqb_spec c DOS_QM) as [->|N6]; [tauto|].
  rewrite elem_of_nil. tauto.
Qed.

(** ** The numbers that occur *)

Definition starred (k : Z) : Prop := exists c e, suffix k = c :: e /\ (c = STAR \/ c = DOS_STAR).

Definition valid (v : Z) : Prop :=
  (exists k, 0 <= k <= len /\ v = 4 * k) \/ (exists k, 0 <= k < len /\ v = 4 * k + 3 /\ starred k).

(** From [k] on, numbers grow strictly and are valid. *)
Lemma pushes_sorted x first e k :
  0 <= k <= len -> suffix k = e ->
  StronglySorted Z.lt (pushes x first e k) /\ Forall (fun w => valid w /\ 4 * k <= w) (pushes x first e k).
Proof.
  revert k. induction e as [|c e IH]; intros k Hk He.
  { cbn [pushes]. split; [repeat constructor|]. constructor; [|constructor]. split; [left; eauto|lia]. }
  assert (k < len) as Hl by (eapply suffix_len; [lia|done]).
  destruct (IH (k + 1) ltac:(lia) (suffix_next k c e ltac:(lia) He)) as [S V]. clear IH. cbn [pushes].
  assert (valid (4 * k)) as V0 by (left; exists k; lia).
  assert (StronglySorted Z.lt [4 * (k + 1)] /\ Forall (fun w => valid w /\ 4 * k <= w) [4 * (k + 1)]) as One.
  { split; [repeat constructor|]. constructor; [|constructor]. split; [left; exists (k + 1); lia|lia]. }
  assert (Forall (fun w => valid w /\ 4 * k <= w) (pushes x first e (k + 1))) as V'.
  { eapply Forall_impl; [exact V|]. intros w [? ?]. split; [done|lia]. }
  assert (c = STAR \/ c = DOS_STAR ->
    StronglySorted Z.lt (4 * k + 3 :: pushes x first e (k + 1)) /\
    StronglySorted Z.lt (4 * k :: 4 * k + 3 :: pushes x first e (k + 1)) /\
    Forall (fun w => valid w /\ 4 * k <= w) (4 * k + 3 :: pushes x first e (k + 1))) as Star.
  { intros Hc. assert (StronglySorted Z.lt (4 * k + 3 :: pushes x first e (k + 1))) as S3.
    { constructor; [done|]. eapply Forall_impl; [exact V|]. intros w [_ ?]. lia. }
    split; [done|]. split.
    - constructor; [done|]. constructor; [lia|]. eapply Forall_impl; [exact V|]. intros w [_ ?]. lia.
    - constructor; [|done]. split; [|lia]. right. exists k. split_and!; try lia. by exists c, e. }
  repeat case_match; try done; try (by split; constructor);
    (destruct Star as (S3 & S4 & V3); [rewrite <- !Z.eqb_eq; tauto|]); cbn [app]; split; try done; by constructor.
Qed.

(** No position is lost: an old position that is smaller than a number that an earlier one has
    added is among the positions that the earlier one has gone through. *)
Lemma pushes_covers x first e k b o :
  match x with Some x => wild (fold x) = false | None => True end ->
  0 <= k -> suffix k = e -> valid o -> k <= pos o < len -> b ∈ pushes x first e k -> o < b ->
  pushes x first (suffix (pos o)) (pos o) ⊆ pushes x first e k.
Proof.
  intros Hx. revert k. induction e as [|c e IH]; intros k Hk He Vo Hp Hb Hob.
  { apply suffix_nil in He; lia. }
  destruct (decide (pos o = k)) as [->|Nk]; [by rewrite He|].
  specialize (IH (k + 1) ltac:(lia) (suffix_next k c e Hk He) Vo ltac:(lia)).
  assert (4 * k + 3 <= o /\ (o = 4 * k + 3 -> starred k) /\ (o <> 4 * k + 3 -> 4 * (k + 1) <= o)) as (Ho & Hs & Hl).
  { destruct Vo as [(j & Hj & ->)|(j & Hj & -> & Hs)].
    - rewrite pos_4 in *. split_and!; lia.
    - rewrite pos_43 in *. split_and!; [lia| |lia]. intros. by replace k with j by lia. }
  assert (c <> STAR -> c <> DOS_STAR -> b <> 4 * (k + 1)) as One.
  { intros N1 N2 ->. assert (o = 4 * k + 3) as G by lia. destruct (Hs G) as (c' & e' & He' & Hc').
    rewrite He' in He. injection He as -> ->. tauto. }
  assert (b ∈ [4 * (k + 1)] -> c <> STAR -> c <> DOS_STAR -> False) as One'.
  { intros Hb' N1 N2. apply list_elem_of_singleton in Hb'. by apply One. }
  cbn [pushes] in Hb |- *.
  destruct (match x with Some x => c =? fold x | None => false end) eqn:L.
  { destruct x as [x|]; [|done]. apply Z.eqb_eq in L. subst c.
    exfalso. apply (One' Hb); intros G; rewrite G in Hx; discriminate Hx. }
  destruct ((c =? QM) && _) eqn:Q.
  { apply andb_true_iff in Q as [Q _]. apply Z.eqb_eq in Q. subst c. exfalso. by apply (One' Hb). }
  destruct (Z.eqb_spec c STAR) as [->|N3].
  { rewrite !elem_of_cons in Hb. destruct Hb as [->|[->|Hb]]; [lia..|].
    intros w Hw. rewrite !elem_of_cons. right. right. by apply (IH Hb Hob). }
  destruct (Z.eqb_spec c DOS_STAR) as [->|N4].
  { rewrite elem_of_app, elem_of_cons in Hb. destruct Hb as [Hb|[->|Hb]].
    - destruct (match x with Some x => (x =? DOT) && first | None => false end);
        [by apply elem_of_nil in Hb|]. apply list_elem_of_singleton in Hb. lia.
    - lia.
    - intros w Hw. rewrite elem_of_app, elem_of_cons. right. right. by apply (IH Hb Hob). }
  destruct (Z.eqb_spec c DOS_DOT) as [->|N5].
  { destruct x as [x|]; [|by apply IH]. destruct (x =? DOT); [exfalso; by apply (One' Hb)|by apply elem_of_nil in Hb]. }
  destruct (Z.eqb_spec c DOS_QM) as [->|N6]; [|by apply elem_of_nil in Hb].
  destruct (match x with Some x => x =? DOT | None => true end); [by apply IH|exfalso; by apply (One' Hb)].
Qed.

(** ** One character *)

Definition sorted_valid (s : list Z) : Prop := StronglySorted Z.le s /\ Forall valid s.

Definition fits_char (x : option Z) : Prop :=
  match x with Some x => wild (fold x) = false | None => True end.

Lemma valid_range v : valid v -> 0 <= v <= 4 * len /\ 0 <= pos v <= len /\ v <= 4 * pos v.
Proof.
  intros [(k & Hk & ->)|(k & Hk & -> & _)]; rewrite ?pos_4, ?pos_43; lia.
Qed.

Lemma pos_mono v w : v <= w -> pos v <= pos w.
Proof. intros. unfold pos. apply Z.div_le_mono; lia. Qed.

Lemma StronglySorted_lt_le l : StronglySorted Z.lt l -> StronglySorted Z.le l.
Proof.
  induction 1 as [|a l H IH F]; constructor; [done|]. eapply Forall_impl; [exact F|]. simpl. lia.
Qed.

Lemma from_sorted x first o : valid o ->
  StronglySorted Z.le (from x first o) /\ Forall (fun w => valid w /\ o <= w) (from x first o).
Proof.
  intros V. destruct (valid_range o V) as (_ & Hp & Ho). unfold from.
  destruct (Z.ltb_spec (pos o) len); [|split; constructor].
  destruct (pushes_sorted x first _ (pos o) Hp eq_refl) as [S F]. split; [by apply StronglySorted_lt_le|].
  eapply Forall_impl; [exact F|]. intros w [? ?]. split; [done|lia].
Qed.

(** The last element of a sorted list is its largest. *)
Lemma sorted_last l b w : StronglySorted Z.le l -> last l = Some b -> w ∈ l -> w <= b.
Proof.
  induction 1 as [|a l H IH F]; intros Hl Hw; [done|].
  destruct l as [|a' l].
  - injection Hl as <-. apply list_elem_of_singleton in Hw. lia.
  - rewrite last_cons_cons in Hl. apply elem_of_cons in Hw as [->|Hw]; [|by apply IH].
    rewrite Forall_forall in F. apply last_Some_elem_of in Hl. by apply F.
Qed.

Lemma sorted_app (a b : list Z) :
  StronglySorted Z.le a -> StronglySorted Z.le b -> (forall u v, u ∈ a -> v ∈ b -> u <= v) ->
  StronglySorted Z.le (a ++ b).
Proof.
  intros Ha Hb H. induction Ha as [|u a Ha IH F]; [done|]. cbn [app].
  constructor; [apply IH; intros; apply H; [by apply elem_of_cons; right|done]|].
  apply Forall_app. split; [done|]. apply Forall_forall. intros v Hv. apply H; [by apply elem_of_cons; left|done].
Qed.

(** The old positions before are [done], and [acc] is all that they add. *)
Definition collected (x : option Z) (first : bool) (old acc : list Z) : Prop :=
  sorted_valid acc /\ forall w, w ∈ acc <-> exists o, o ∈ old /\ w ∈ from x first o.

Lemma consider_collected x first old acc o :
  fits_char x -> collected x first old acc -> valid o -> Forall (fun o' => valid o' /\ o' <= o) old ->
  collected x first (old ++ [o]) (consider x first acc o).
Proof.
  intros Hx [[S V] C] Vo Ho. unfold consider, skips.
  assert (forall acc' : list Z, (forall w, w ∈ acc' <-> w ∈ acc \/ w ∈ from x first o) ->
    forall w, w ∈ acc' <-> exists o', o' ∈ old ++ [o] /\ w ∈ from x first o') as Add.
  { intros acc' H w. rewrite H, C. setoid_rewrite elem_of_app. setoid_rewrite list_elem_of_singleton. naive_solver. }
  destruct (from_sorted x first o Vo) as [So Fo]. rewrite Forall_forall in Fo.
  destruct (last acc) as [b|] eqn:La; [destruct (Z.ltb_spec o b) as [Hb|Hb]|].
  - split; [done|]. apply Add. intros w. split; [tauto|]. intros [|Hw]; [done|].
    apply last_Some_elem_of, C in La as (o' & Ho' & Hbo). rewrite Forall_forall in Ho.
    destruct (Ho o' Ho') as [Vo' Hoo]. apply C. exists o'. split; [done|].
    pose proof (pos_mono _ _ Hoo). destruct (valid_range _ Vo') as (_ & Hp' & _).
    unfold from in *. destruct (Z.ltb_spec (pos o) len); [|by apply elem_of_nil in Hw].
    destruct (Z.ltb_spec (pos o') len); [|lia].
    by apply (pushes_covers x first _ (pos o') b o Hx ltac:(lia) eq_refl Vo ltac:(lia) Hbo Hb).
  - split; [split|apply Add; intros w; apply elem_of_app].
    + apply sorted_app; [done..|]. intros u v Hu Hv. apply Fo in Hv as [_ Hv].
      pose proof (sorted_last _ _ _ S La Hu). lia.
    + apply Forall_app. split; [done|]. apply Forall_forall. intros w Hw. by apply Fo.
  - apply last_None in La. subst acc. cbn [app]. split; [split; [done|]|].
    + apply Forall_forall. intros w Hw. by apply Fo.
    + apply Add. set_solver.
Qed.

Lemma step_collected x first s : fits_char x -> sorted_valid s -> collected x first s (step x first s).
Proof.
  intros Hx [S V]. unfold step.
  assert (forall old acc, collected x first old acc ->
    (forall o o', o ∈ s -> o' ∈ old -> valid o' /\ o' <= o) ->
    collected x first (old ++ s) (foldl (consider x first) acc s)) as H.
  { induction s as [|o s IH]; intros old acc C Le; [by rewrite app_nil_r|].
    inversion S as [|? ? S' F]; subst. inversion V as [|? ? Vo V']; subst. cbn [foldl].
    rewrite cons_middle, app_assoc. apply IH; [done..| |].
    - apply consider_collected; [done..|]. apply Forall_forall. intros o' Ho'. apply Le; [by apply elem_of_cons; left|done].
    - intros p o' Hp Ho'. apply elem_of_app in Ho' as [Ho'|Ho'].
      + apply Le; [by apply elem_of_cons; right|done].
      + apply list_elem_of_singleton in Ho' as ->. split; [done|]. rewrite Forall_forall in F. by apply F. }
  apply (H [] []).
  - split; [split; constructor|]. intros w. split; [intros Hw; by apply elem_of_nil in Hw|].
    intros (o & Ho & _). by apply elem_of_nil in Ho.
  - intros o o' _ Ho. by apply elem_of_nil in Ho.
Qed.

(** ** The whole name *)

(** Whoever is behind the last star is also at the end. *)
Lemma pushes_last x first e k :
  0 <= k -> suffix k = e -> 4 * (len - 1) + 3 ∈ pushes x first e k -> 4 * len ∈ pushes x first e k.
Proof.
  revert k. induction e as [|c e IH]; intros k Hk He.
  { cbn [pushes]. rewrite !list_elem_of_singleton. lia. }
  pose proof (suffix_next k c e Hk He) as Hn. specialize (IH (k + 1) ltac:(lia) Hn).
  assert (4 * (len - 1) + 3 = 4 * k + 3 -> 4 * len ∈ pushes x first e (k + 1)) as End.
  { intros. assert (e = []) as -> by (rewrite <- Hn; apply suffix_nil; lia). cbn [pushes].
    apply list_elem_of_singleton. lia. }
  cbn [pushes]. repeat case_match; rewrite ?elem_of_app, ?elem_of_cons, ?elem_of_nil; try tauto; try lia;
    intros; destruct_or?; try lia; tauto.
Qed.

Definition closed (s : list Z) : Prop := forall v, v ∈ s -> pos v = len -> 4 * len ∈ s.

Lemma step_closed x first s : fits_char x -> sorted_valid s -> closed (step x first s).
Proof.
  intros Hx Hs v Hv Hp. destruct (step_collected x first s Hx Hs) as [[_ V] C].
  rewrite Forall_forall in V. destruct (V v Hv) as [(k & Hk & ->)|(k & Hk & -> & _)].
  { rewrite pos_4 in Hp. by subst k. }
  rewrite pos_43 in Hp. replace k with (len - 1) in Hv by lia.
  apply C in Hv as (o & Ho & Hv). apply C. exists o. split; [done|]. unfold from in *.
  destruct (pos o <? len); [|by apply elem_of_nil in Hv].
  apply pushes_last; [|done|done]. destruct Hs as [_ Vs]. rewrite Forall_forall in Vs.
  destruct (valid_range o (Vs o Ho)) as (_ & ? & _). lia.
Qed.

Lemma ends_iff s : sorted_valid s -> ends s = true <-> 4 * len ∈ s.
Proof.
  intros [S V]. unfold ends. rewrite bool_decide_eq_true. split; [apply last_Some_elem_of|].
  intros H. destruct (last s) as [b|] eqn:La.
  - f_equal. pose proof (sorted_last _ _ _ S La H). apply last_Some_elem_of in La.
    rewrite Forall_forall in V. destruct (valid_range b (V b La)) as [? _]. lia.
  - apply last_None in La. subst s. by apply elem_of_nil in H.
Qed.

Lemma runs_matches first n s :
  Forall (fun x => wild (fold x) = false) n -> sorted_valid s -> closed s ->
  runs first n s = true <-> exists v, v ∈ s /\ Matches first (suffix (pos v)) n.
Proof.
  intros Hn. revert first s. induction Hn as [|x n Hx Hn IH]; intros first s Hs Cl; cbn [runs].
  - destruct (step_collected None first s I Hs) as [Hs' C].
    rewrite orb_true_iff, !ends_iff by done. rewrite C. destruct Hs as [_ V]. rewrite Forall_forall in V. split.
    + intros [H|(o & Ho & H)].
      * exists (4 * len). split; [done|]. rewrite pos_4. unfold suffix, len. rewrite Nat2Z.id, drop_all. constructor.
      * exists o. split; [done|]. destruct (valid_range o (V o Ho)) as (_ & ? & _). unfold from in H.
        destruct (pos o <? len); [|by apply elem_of_nil in H]. by apply (pushes_end first _ (pos o)).
    + intros (v & Hv & M). destruct (valid_range v (V v Hv)) as (_ & ? & _).
      destruct (decide (pos v = len)) as [|Np]; [left; by apply (Cl v)|]. right. exists v. split; [done|].
      unfold from. destruct (Z.ltb_spec (pos v) len); [|lia]. by apply (pushes_end first _ (pos v)).
  - destruct (step_collected (Some x) first s Hx Hs) as [Hs' C].
    rewrite (IH false _ Hs' (step_closed (Some x) first s Hx Hs)). destruct Hs as [_ V]. rewrite Forall_forall in V.
    assert (forall o, o ∈ s -> Matches first (suffix (pos o)) (x :: n) <->
      exists w, w ∈ from (Some x) first o /\ follow n w) as St.
    { intros o Ho. destruct (valid_range o (V o Ho)) as (_ & ? & _). unfold from.
      destruct (Z.ltb_spec (pos o) len) as [Hp|Hp].
      - rewrite (pushes_matches x first _ (pos o) n Hx ltac:(lia) eq_refl), list.Exists_exists; [done|].
        intros G. apply suffix_nil in G; lia.
      - assert (suffix (pos o) = []) as -> by (apply suffix_nil; lia). rewrite Matches_nil.
        split; [done|]. intros (w & Hw & _). by apply elem_of_nil in Hw. }
    split.
    + intros (w & Hw & M). apply C in Hw as (o & Ho & Hw). exists o. split; [done|]. apply St; [done|]. by exists w.
    + intros (o & Ho & M). apply St in M as (w & Hw & M); [|done]. exists w. split; [|done]. apply C. by exists o.
Qed.

Lemma start_valid : E <> [] -> sorted_valid [0] /\ closed [0].
Proof.
  intros HE. assert (0 < len) by (unfold len; destruct E; [done|simpl; lia]). split.
  - split; [repeat constructor|]. constructor; [|constructor]. left. exists 0. lia.
  - intros v Hv Hp. apply list_elem_of_singleton in Hv as ->. change 0 with (4 * 0) in Hp.
    rewrite pos_4 in Hp. lia.
Qed.

Lemma runs_from_start n : E <> [] -> Forall (fun x => wild (fold x) = false) n ->
  runs true n [0] = true <-> Matches true E n.
Proof.
  intros HE Hn. destruct (start_valid HE) as [Hs Hc]. rewrite (runs_matches true n [0] Hn Hs Hc).
  split; [intros (v & Hv & M)|intros M; exists 0; split; [by left|]].
  - apply list_elem_of_singleton in Hv as ->. done.
  - done.
Qed.

End Language.
