(* ===== verification/NameArrays.v ===== *)
(** * The arrays hold the sets of positions

    [trk acc rest old sw] is the state in which [acc] has been written to the current array.  As
    long as the sets have at most fourteen elements, the function neither grows its arrays nor
    leaves them, and its answer is that of the sets. *)

From Stdlib Require Import ZArith Lia Bool Sorting.
From stdpp Require Import base option list numbers sets sorting.
From S2P Require Import Prelude NameExpression NameProps.
Open Scope Z_scope.

Definition trk (acc rest old : list Z) (sw : bool) : TRACKING :=
  mkTracking (acc ++ rest) old sw 16 (Z.of_nat (length acc)).

Lemma Push_run acc y rest old sw v :
  (length acc < 16)%nat -> 0 <= v < 2 ^ 16 ->
  Push (trk acc (y :: rest) old sw) v = Some (trk (acc ++ [v]) rest old sw).
Proof.
  intros La Hv. unfold Push, trk. cbn [BackTracking BackTrackingPosition OldBackTracking Swapped BackTrackingBufferSize].
  rewrite (wr_at acc y _ rest _ eq_refl). cbn [mbind option_bind].
  unfold u16. rewrite !Z.mod_small by lia. rewrite length_app, <- app_assoc. do 3 f_equal. simpl. lia.
Qed.

Section Arrays.

Variables (Allocate : Z -> option (list Z)) (IgnoreCase : bool) (UpcaseTable : Z -> Z).
Variables (Expression Name : list Z).

Definition fold (c : Z) : Z := if IgnoreCase then UpcaseTable c else c.

Hypothesis short_expression : Z.of_nat (length Expression) < 2 ^ 14.
Hypothesis short_name : Z.of_nat (length Name) < 2 ^ 15.

Abbreviation len := (NameProps.len Expression).
Abbreviation suffix := (NameProps.suffix Expression).

(** The character that is looked at. *)
Definition looks_at (x : option Z) (NamePosition : Z) (EndOfName : bool) : Prop :=
  0 <= NamePosition <= Z.of_nat (length Name) /\
  match x with
  | None => EndOfName = true /\ NamePosition = Z.of_nat (length Name)
  | Some c => EndOfName = false /\ rd Name NamePosition = Some c
  end.

Lemma rd_bound {A} (l : list A) i v : rd l i = Some v -> 0 <= i < Z.of_nat (length l).
Proof.
  unfold rd. destruct (Z.leb_spec 0 i); [|done]. intros H1. apply lookup_lt_Some in H1. lia.
Qed.

Lemma DotLoop_run NamePosition :
  rd Name NamePosition = Some DOT ->
  DotLoop Name (S (Z.to_nat (ByteLength Name))) (u16 (NamePosition - 1)) = Some (NamePosition =? 0).
Proof.
  intros H. pose proof (rd_bound _ _ _ H) as B. unfold ByteLength. cbn [DotLoop].
  destruct (Z.eqb_spec NamePosition 0) as [->|N].
  { change (u16 (0 - 1)) with 65535. unfold ByteLength. destruct (Z.ltb_spec 65535 (2 * Z.of_nat (length Name))); [lia|done]. }
  unfold u16. rewrite Z.mod_small by lia. unfold ByteLength.
  destruct (Z.ltb_spec (NamePosition - 1) (2 * Z.of_nat (length Name))); [|lia].
  destruct (rd Name (NamePosition - 1)) as [c|] eqn:R.
  2:{ unfold rd in R. destruct (Z.leb_spec 0 (NamePosition - 1)); [|lia]. apply lookup_ge_None in R. lia. }
  cbn [mbind option_bind]. destruct (c =? DOT); [done|].
  destruct (Z.to_nat (2 * Z.of_nat (length Name))) as [|f] eqn:F; [lia|]. cbn [DotLoop].
  unfold u16, ByteLength. replace (NamePosition - 1 + 1) with NamePosition by lia. rewrite Z.mod_small by lia.
  destruct (Z.ltb_spec NamePosition (2 * Z.of_nat (length Name))); [|lia]. rewrite H. done.
Qed.

(** What is compared with a character of the expression. *)
Lemma CompareChar_run x NamePosition EndOfName :
  looks_at x NamePosition EndOfName ->
  (if ByteLength Name / 2 <=? NamePosition then Some 0 else
     c ← rd Name NamePosition; Some (if IgnoreCase then UpcaseTable c else c))
  = Some (match x with Some c => fold c | None => 0 end).
Proof.
  intros [B H]. unfold ByteLength. rewrite Z.mul_comm, Z.div_mul by lia. destruct x as [c|].
  - destruct H as [_ H]. pose proof (rd_bound _ _ _ H).
    destruct (Z.leb_spec (Z.of_nat (length Name)) NamePosition); [lia|]. by rewrite H.
  - destruct H as [_ ->]. by rewrite Z.leb_refl.
Qed.

(** The element of the expression at a position. *)
Lemma rd_suffix k c e : 0 <= k -> suffix k = c :: e -> rd Expression k = Some c.
Proof.
  intros H0 H. unfold rd. rewrite (proj2 (Z.leb_le _ _)) by lia. unfold NameProps.suffix in H.
  rewrite <- (Nat.add_0_r (Z.to_nat k)), <- lookup_drop, H. done.
Qed.

Lemma ExpressionLoop_run x e k fuel NamePosition EndOfName EP Offset acc rest old sw :
  looks_at x NamePosition EndOfName -> 0 <= k <= len -> suffix k = e ->
  0 <= EP < 2 * len -> EP + Offset = 2 * k -> len - k < Z.of_nat fuel ->
  (length acc + length rest = 16)%nat ->
  (length acc + length (pushes fold x (NamePosition =? 0)%Z e k) <= 14)%nat ->
  ExpressionLoop Allocate IgnoreCase UpcaseTable Expression Name fuel (trk acc rest old sw) NamePosition EndOfName EP Offset
  = Some (Some (trk (acc ++ pushes fold x (NamePosition =? 0) e k)
      (drop (length (pushes fold x (NamePosition =? 0) e k)) rest) old sw)).
Proof.
  intros Hx. revert k fuel EP Offset acc rest.
  assert (ByteLength Expression = 2 * len) as HL by reflexivity.
  assert (len < 2 ^ 14) as Hlen by exact short_expression.
  induction e as [|c e IH]; intros k fuel EP Offset acc rest Hk He HEP Hoff Hfuel Hrest Hfit;
    (destruct fuel as [|fuel]; [lia|]); cbn [ExpressionLoop]; rewrite HL;
    (destruct (Z.ltb_spec EP (2 * len)); [|lia]); cbn [negb]; rewrite Hoff, (u16_small (2 * k)) by lia;
    (destruct rest as [|y1 [|y2 rest]]; [simpl in Hrest; lia..|]).
  { apply suffix_nil in He; [|lia]. rewrite (proj2 (Z.eqb_eq _ _)) by lia.
    rewrite Push_run by (simpl in *; lia). cbn [mbind option_bind pushes]. do 4 f_equal. f_equal. lia. }
  assert (k < len) as Hl by (eapply suffix_len; [|exact He]; lia).
  rewrite (proj2 (Z.eqb_neq _ _)) by lia.
  cbn [trk BackTrackingBufferSize BackTrackingPosition]. change (u32 (16 - 2)) with 14.
  assert (length acc <= 14)%nat as Ha by lia.
  destruct (Z.ltb_spec 14 (Z.of_nat (length acc))); [lia|]. cbn [mbind option_bind].
  rewrite (Z.mul_comm 2 k), Z.div_mul, (rd_suffix k c e) by (lia || done). cbn [mbind option_bind].
  rewrite (CompareChar_run x NamePosition EndOfName Hx). cbn [mbind option_bind].
  fold (trk acc (y1 :: y2 :: rest) old sw).
  assert (Push (trk acc (y1 :: y2 :: rest) old sw) ((k * 2 + 2) * 2)
          = Some (trk (acc ++ [4 * (k + 1)]) (y2 :: rest) old sw)) as One.
  { rewrite Push_run by lia. do 3 f_equal. f_equal. lia. }
  assert (Push (trk acc (y1 :: y2 :: rest) old sw) (k * 2 * 2) = Some (trk (acc ++ [4 * k]) (y2 :: rest) old sw)) as P0.
  { rewrite Push_run by lia. do 3 f_equal. f_equal. lia. }
  assert (forall acc' y r, (length acc' < 16)%nat -> Push (trk acc' (y :: r) old sw) (k * 2 * 2 + 3)
          = Some (trk (acc' ++ [4 * k + 3]) r old sw)) as P3.
  { intros acc' y r Ha'. rewrite Push_run by lia. do 3 f_equal. f_equal. lia. }
  assert (forall acc' rest', (length acc' + length rest' = 16)%nat ->
    (length acc' + length (pushes fold x (NamePosition =? 0)%Z e (k + 1)) <= 14)%nat ->
    ExpressionLoop Allocate IgnoreCase UpcaseTable Expression Name fuel (trk acc' rest' old sw) NamePosition EndOfName (k * 2) 2
    = Some (Some (trk (acc' ++ pushes fold x (NamePosition =? 0) e (k + 1))
      (drop (length (pushes fold x (NamePosition =? 0) e (k + 1))) rest') old sw))) as Next.
  { intros acc' rest' Hr Hf. apply IH; try lia; try done. apply (suffix_next Expression k c e); [lia|done]. }
  clear IH. cbn [pushes] in Hfit |- *. destruct Hx as [B Hx]. cbn [length] in Hrest.
  destruct x as [x|]; destruct Hx as [-> Hx]; cbn [negb]; rewrite ?andb_true_r, ?andb_false_r in *.
  - rewrite Hx. cbn [mbind option_bind].
    destruct (c =? fold x); [by rewrite One|]. destruct (c =? QM); [by rewrite One|].
    destruct (c =? STAR).
    { rewrite P0. cbn [mbind option_bind]. rewrite P3 by (rewrite length_app; simpl; lia). cbn [mbind option_bind].
      cbn [length] in Hfit. rewrite Next by (rewrite !length_app; simpl in *; lia). by rewrite <- !app_assoc. }
    destruct (c =? DOS_STAR).
    { assert ((if x =? DOT then DotLoop Name (S (Z.to_nat (ByteLength Name))) (u16 (NamePosition - 1)) else Some true)
              = Some (if x =? DOT then NamePosition =? 0 else true)) as ->.
      { destruct (Z.eqb_spec x DOT) as [->|]; [by apply DotLoop_run|done]. }
      cbn [mbind option_bind].
      assert ((if negb (x =? DOT) || negb (if x =? DOT then NamePosition =? 0 else true)
               then Push (trk acc (y1 :: y2 :: rest) old sw) (k * 2 * 2)
               else Some (trk acc (y1 :: y2 :: rest) old sw))
              = if (x =? DOT) && (NamePosition =? 0) then Some (trk acc (y1 :: y2 :: rest) old sw)
                else Some (trk (acc ++ [4 * k]) (y2 :: rest) old sw)) as ->.
      { rewrite P0. by destruct (x =? DOT), (NamePosition =? 0). }
      destruct ((x =? DOT) && (NamePosition =? 0)); cbn [mbind option_bind app length] in Hfit |- *;
        rewrite P3 by (rewrite ?length_app; simpl; lia); cbn [mbind option_bind];
        rewrite Next by (rewrite ?length_app; simpl in *; lia); by rewrite <- ?app_assoc. }
    destruct (c =? DOS_DOT).
    { destruct (x =? DOT); [by rewrite One|by rewrite app_nil_r]. }
    destruct (c =? DOS_QM); [|by rewrite app_nil_r].
    destruct (x =? DOT); [|by rewrite One]. rewrite Next by (simpl in *; lia). done.
  - destruct (c =? STAR); [|destruct (c =? DOS_STAR)].
    1,2: rewrite P0; cbn [mbind option_bind app length] in Hfit |- *;
      rewrite P3 by (rewrite length_app; simpl; lia); cbn [mbind option_bind];
      rewrite Next by (rewrite !length_app; simpl in *; lia); by rewrite <- !app_assoc.
    destruct (c =? DOS_DOT); [|destruct (c =? DOS_QM); [|by rewrite app_nil_r]].
    1,2: by rewrite Next by (simpl in *; lia).
Qed.

(** ** Skipping *)

Fixpoint drop_below (b : Z) (s : list Z) : list Z :=
  match s with
  | [] => []
  | o :: s' => if o <? b then drop_below b s' else s
  end.

Lemma drop_below_length b s : (length (drop_below b s) <= length s)%nat.
Proof. induction s as [|o s IH]; simpl; [lia|]. destruct (o <? b); simpl; lia. Qed.

Lemma drop_below_suffix b s : exists p, s = p ++ drop_below b s.
Proof.
  induction s as [|o s [p IH]]; simpl; [by exists []|].
  destruct (o <? b); [|by exists []]. exists (o :: p). by rewrite <- app_comm_cons, <- IH.
Qed.

Lemma drop_below_le a b s : a <= b -> drop_below b (drop_below a s) = drop_below b s.
Proof.
  intros H. induction s as [|o s IH]; simpl; [done|]. destruct (Z.ltb_spec o a); simpl.
  - destruct (Z.ltb_spec o b); [done|lia].
  - done.
Qed.

(** The old array: [p] is done, [s] is left, [junk] is behind the positions. *)
Lemma SkipWhile_run fuel p s junk b M :
  M = Z.of_nat (length p + length s) -> M < 2 ^ 16 -> (length s <= fuel)%nat ->
  SkipWhile fuel (p ++ s ++ junk) b M (Z.of_nat (length p))
  = Some (M - Z.of_nat (length (drop_below b s))).
Proof.
  revert p fuel. induction s as [|o s IH]; intros p fuel HM HM16 Hf.
  { destruct fuel; cbn [SkipWhile]; rewrite (proj2 (Z.ltb_ge _ _)) by (simpl in *; lia); f_equal; simpl in *; lia. }
  destruct fuel as [|fuel]; [simpl in Hf; lia|]. cbn [SkipWhile length] in *.
  rewrite (proj2 (Z.ltb_lt _ _)) by lia. cbn [app].
  rewrite (rd_at p o (s ++ junk) _ eq_refl). cbn [mbind option_bind drop_below].
  destruct (o <? b); [|f_equal; cbn [length]; lia].
  rewrite u16_small by lia.
  specialize (IH (p ++ [o]) fuel). rewrite <- app_assoc, length_app in IH. cbn [app length] in IH.
  replace (Z.of_nat (length p) + 1) with (Z.of_nat (length p + 1)) by lia. apply IH; lia.
Qed.

Definition skip_all (q s : list Z) : list Z := foldl (fun s b => drop_below b s) s q.

Lemma skip_all_sorted q s : StronglySorted Z.le q ->
  skip_all q s = match last q with Some b => drop_below b s | None => s end.
Proof.
  unfold skip_all. revert s. induction q as [|b q IH]; intros s Hq; [done|]. cbn [foldl].
  inversion Hq as [|? ? Hq' F]; subst. rewrite IH by done. destruct q as [|b' q]; [done|].
  rewrite last_cons_cons. destruct (last (b' :: q)) as [b''|] eqn:La; [|by apply last_None in La].
  apply last_Some_elem_of in La. rewrite Forall_forall in F. by apply drop_below_le, F.
Qed.

Lemma SkipLoop_run a q rest p s junk sw size n M :
  M = Z.of_nat (length p + length s) -> M < 2 ^ 16 ->
  SkipLoop (length q) (mkTracking (a ++ q ++ rest) (p ++ s ++ junk) sw size n) (Z.of_nat (length a)) M
    (Z.of_nat (length p)) = Some (M - Z.of_nat (length (skip_all q s))).
Proof.
  revert a p s. induction q as [|b q IH]; intros a p s HM HM16.
  { cbn. f_equal. lia. }
  cbn [length SkipLoop BackTracking OldBackTracking]. change (skip_all (b :: q) s) with (skip_all q (drop_below b s)).
  destruct (Z.ltb_spec (Z.of_nat (length p)) M) as [Hlt|Hge].
  - cbn [app]. rewrite (rd_at a b (q ++ rest) _ eq_refl). cbn [mbind option_bind].
    rewrite SkipWhile_run by lia. cbn [mbind option_bind].
    destruct (drop_below_suffix b s) as [d Hd].
    specialize (IH (a ++ [b]) (p ++ d) (drop_below b s)).
    rewrite <- !app_assoc, !length_app in IH. cbn [app length] in IH.
    assert (length s = length d + length (drop_below b s))%nat as Ls by (rewrite Hd at 1; apply length_app).
    rewrite <- IH; [|lia..].
    replace (Z.of_nat (length a) + 1) with (Z.of_nat (length a + 1)) by lia.
    replace (M - Z.of_nat (length (drop_below b s))) with (Z.of_nat (length p + length d)) by lia.
    rewrite (app_assoc d), <- Hd. done.
  - destruct s as [|o s]; [|simpl in HM; lia]. f_equal. cbn [drop_below].
    assert (skip_all q [] = []) as -> by (clear; induction q; done). simpl in *. lia.
Qed.

(** ** One character of the name *)

Abbreviation consider := (NameProps.consider fold Expression).
Abbreviation step := (NameProps.step fold Expression).
Abbreviation sorted_valid := (NameProps.sorted_valid Expression).

Lemma consider_grows x first acc s : exists r, foldl (consider x first) acc s = acc ++ r.
Proof.
  revert acc. induction s as [|o s IH]; intros acc; cbn [foldl]; [exists []; by rewrite app_nil_r|].
  destruct (IH (consider x first acc o)) as [r ->]. unfold NameProps.consider. case_match; [by eexists|].
  eexists. by rewrite <- app_assoc.
Qed.

(** What is left of [s] when [acc] has been written: its first element is not skipped. *)
Lemma skip_all_split x first acc s : StronglySorted Z.le acc ->
  exists d, s = d ++ skip_all acc s /\ foldl (consider x first) acc d = acc /\
    match skip_all acc s with o :: _ => skips acc o = false | [] => True end.
Proof.
  intros S. rewrite skip_all_sorted by done. unfold NameProps.consider, skips.
  destruct (last acc) as [b|] eqn:La; [|exists []; split_and!; [done..|by destruct s]].
  induction s as [|o s (d & Hd & Hf & Hh)]; [by exists []|]. cbn [drop_below].
  destruct (Z.ltb_spec o b) as [Hob|Hob].
  - exists (o :: d). split; [by rewrite <- app_comm_cons, <- Hd|]. split; [|done].
    cbn [foldl]. rewrite La, (proj2 (Z.ltb_lt _ _) Hob). done.
  - exists []. split_and!; [done..|]. by apply Z.ltb_ge.
Qed.

Lemma sorted_valid_app a b : sorted_valid (a ++ b) -> sorted_valid a.
Proof.
  intros [S V]. apply Forall_app in V as [V _]. split; [|done].
  induction a as [|x a IH]; [constructor|]. inversion S as [|? ? S' F]; subst. apply Forall_app in F as [F _].
  inversion V; subst. constructor; [by apply IH|done].
Qed.

Lemma from_bounds x first o acc rest old sw NamePosition EndOfName :
  looks_at x NamePosition EndOfName -> first = (NamePosition =? 0) -> valid Expression o ->
  (length acc + length rest = 16)%nat -> (length acc + length (from fold Expression x first o) <= 14)%nat ->
  ExpressionLoop Allocate IgnoreCase UpcaseTable Expression Name (S (length Expression)) (trk acc rest old sw)
    NamePosition EndOfName (u16 ((o + 1) / 2)) 0
  = Some (Some (trk (acc ++ from fold Expression x first o) (drop (length (from fold Expression x first o)) rest) old sw)).
Proof.
  intros Hx -> Vo Hr Hf. destruct (valid_range _ _ Vo) as (Ho & Hp & _). unfold from in *.
  assert ((o + 1) / 2 = 2 * pos o) as ->.
  { destruct Vo as [(k & _ & ->)|(k & _ & -> & _)]; rewrite ?pos_4, ?pos_43.
    - symmetry. apply (Z.div_unique _ 2 (2 * k) 1); lia.
    - replace (4 * k + 3 + 1) with (2 * (k + 1) * 2) by lia. apply Z.div_mul. lia. }
  unfold NameProps.len in *. rewrite u16_small by lia.
  destruct (Z.ltb_spec (pos o) (Z.of_nat (length Expression))).
  - apply ExpressionLoop_run; unfold NameProps.len; try done; lia.
  - cbn [ExpressionLoop]. unfold ByteLength. rewrite (proj2 (Z.ltb_ge _ _)) by lia. by rewrite app_nil_r.
Qed.

Lemma MatchLoop_run x NamePosition EndOfName fuel s p rest junk sw M :
  let first := NamePosition =? 0 in
  looks_at x NamePosition EndOfName -> fits_char fold x -> sorted_valid (p ++ s) ->
  match s with o :: _ => skips (step x first p) o = false | [] => True end ->
  M = Z.of_nat (length p + length s) -> M < 2 ^ 16 -> (length s <= fuel)%nat ->
  (length (step x first p) + length rest = 16)%nat -> (length (step x first (p ++ s)) <= 14)%nat ->
  exists rest',
    MatchLoop Allocate IgnoreCase UpcaseTable Expression Name fuel
      (trk (step x first p) rest (p ++ s ++ junk) sw) NamePosition EndOfName M (Z.of_nat (length p))
    = Some (Some (trk (step x first (p ++ s)) rest' (p ++ s ++ junk) sw)) /\
    (length (step x first (p ++ s)) + length rest' = 16)%nat.
Proof.
  intros first Hx Fx. revert s p rest. induction fuel as [|fuel IH]; intros s p rest Hs Hhd HM HM16 Hf Hr Hfit.
  { destruct s; [|simpl in Hf; lia]. exists rest. cbn [MatchLoop]. rewrite (proj2 (Z.ltb_ge _ _)) by (simpl in *; lia).
    cbn [negb]. by rewrite app_nil_r. }
  destruct s as [|o s].
  { exists rest. cbn [MatchLoop]. rewrite (proj2 (Z.ltb_ge _ _)) by (simpl in *; lia). cbn [negb]. by rewrite app_nil_r. }
  cbn [MatchLoop length] in *. rewrite (proj2 (Z.ltb_lt _ _)) by lia. cbn [negb].
  cbn [trk OldBackTracking]. cbn [app]. rewrite (rd_at p o (s ++ junk) _ eq_refl). cbn [mbind option_bind].
  fold (trk (step x first p) rest (p ++ o :: s ++ junk) sw).
  assert (step x first (p ++ [o]) = step x first p ++ from fold Expression x first o) as Ho.
  { unfold NameProps.step. rewrite foldl_app. cbn [foldl]. unfold NameProps.consider at 1.
    fold (step x first p). by rewrite Hhd. }
  assert (step x first (p ++ o :: s) = foldl (consider x first) (step x first (p ++ [o])) s) as Hall.
  { rewrite cons_middle, app_assoc. unfold NameProps.step. by rewrite foldl_app. }
  assert (length (step x first (p ++ [o])) <= 14)%nat as Hfit'.
  { destruct (consider_grows x first (step x first (p ++ [o])) s) as [r Hg]. rewrite Hall, Hg, length_app in Hfit. lia. }
  assert (valid Expression o) as Vo.
  { destruct Hs as [_ V]. rewrite Forall_forall in V. apply V. rewrite elem_of_app, elem_of_cons. tauto. }
  rewrite (from_bounds x first o) by (rewrite ?Ho, ?length_app in *; done || lia).
  cbn [mbind option_bind]. rewrite <- Ho. set (acc := step x first (p ++ [o])) in *.
  set (rest1 := drop (length (from fold Expression x first o)) rest).
  assert (length acc + length rest1 = 16)%nat as Hr1.
  { unfold rest1. rewrite length_drop, Ho, length_app in *. lia. }
  assert (StronglySorted Z.le acc) as Sacc.
  { apply (step_collected fold Expression x first (p ++ [o]) Fx). apply (sorted_valid_app _ s).
    by rewrite <- app_assoc. }
  destruct (skip_all_split x first acc s Sacc) as (d & Hd & Hfold & Hhead).
  pose proof (SkipLoop_run [] acc rest1 (p ++ [o]) s junk sw 16 (Z.of_nat (length acc)) M) as Sk.
  rewrite length_app, <- app_assoc in Sk. cbn [app length] in Sk.
  cbn [trk BackTrackingPosition]. rewrite Nat2Z.id, u16_small by lia.
  replace (Z.of_nat (length p) + 1) with (Z.of_nat (length p + 1)) by lia.
  change (Z.of_nat 0) with 0 in Sk. fold (trk acc rest1 (p ++ o :: s ++ junk) sw) in Sk.
  rewrite Sk by lia. cbn [mbind option_bind].
  assert (length s = length d + length (skip_all acc s))%nat as Ls by (rewrite Hd at 1; apply length_app).
  assert (step x first (p ++ o :: d) = acc) as Hacc.
  { rewrite cons_middle, app_assoc. unfold NameProps.step. rewrite foldl_app. exact Hfold. }
  assert (p ++ o :: s = (p ++ o :: d) ++ skip_all acc s) as Hsp by (rewrite <- app_assoc; cbn [app]; by rewrite <- Hd).
  destruct (IH (skip_all acc s) (p ++ o :: d) rest1) as (rest' & Hrun & Hl);
    rewrite ?Hacc, <- ?Hsp, ?length_app; cbn [length]; try done; try lia.
  exists rest'. rewrite <- Hsp in Hl. split; [|done]. rewrite Hacc, <- Hsp, length_app in Hrun. cbn [length] in Hrun.
  rewrite app_assoc, <- Hsp, <- app_assoc in Hrun. cbn [app] in Hrun.
  replace (M - Z.of_nat (length (skip_all acc s))) with (Z.of_nat (length p + S (length d))) by lia. exact Hrun.
Qed.

(** ** The name *)

Lemma AtEnd_run cur s junk sw size n :
  AtEnd Expression (mkTracking cur (s ++ junk) sw size n) (Z.of_nat (length s)) = Some (ends Expression s).
Proof.
  unfold AtEnd, ends, NameProps.len, ByteLength. cbn [OldBackTracking].
  destruct s as [|v s] using rev_ind; [done|]. clear IHs. rewrite length_app, last_snoc. cbn [length].
  rewrite (proj2 (Z.ltb_lt _ _)) by lia. rewrite <- app_assoc. cbn [app].
  rewrite (rd_at s v junk) by lia. cbn [mbind option_bind]. f_equal.
  apply eq_true_iff_eq. rewrite Z.eqb_eq, bool_decide_eq_true. split; [intros ->; f_equal; lia|intros [= ->]; lia].
Qed.

Lemma NameLoop_run n i s junk cur sw q fuel :
  drop (Z.to_nat i) Name = n -> 0 <= i <= Z.of_nat (length Name) ->
  Forall (fun x => wild (fold x) = false) n -> sorted_valid s ->
  fits fold Expression 14 (i =? 0) n s = true ->
  (length s + length junk = 16)%nat -> (length cur = 16)%nat -> (length n + 1 < fuel)%nat ->
  NameLoop Allocate IgnoreCase UpcaseTable Expression Name fuel
    (mkTracking cur (s ++ junk) sw 16 q) i (Z.of_nat (length s)) false
  = Some (runs fold Expression (i =? 0) n s).
Proof.
  intros Hn Hi Hw. revert i s junk cur sw q fuel Hn Hi.
  assert (ByteLength Name / 2 = Z.of_nat (length Name)) as HN by (unfold ByteLength; rewrite Z.mul_comm, Z.div_mul; lia).
  induction Hw as [|x n Hx Hw IH]; intros i s junk cur sw q fuel Hn Hi Hs Hfit Hj Hc Hf;
    (destruct fuel as [|fuel]; [lia|]); cbn [NameLoop BackTracking OldBackTracking Swapped BackTrackingBufferSize runs fits] in *;
    rewrite !HN.
  - assert (i = Z.of_nat (length Name)) as -> by (apply (f_equal length) in Hn; rewrite length_drop in Hn; simpl in Hn; lia).
    rewrite Z.leb_refl, AtEnd_run. cbn [mbind option_bind].
    destruct (ends Expression s) eqn:En; [done|]. rewrite Nat2Z.id. cbn [orb].
    apply bool_decide_eq_true in Hfit.
    destruct (MatchLoop_run None (Z.of_nat (length Name)) true (length s) s [] cur junk sw (Z.of_nat (length s)))
      as (rest' & Hrun & Hl); cbn [app length] in *; try done; try lia.
    + by destruct s.
    + change (NameProps.step fold Expression None _ []) with (@nil Z) in Hrun.
      unfold trk in Hrun at 1. cbn [app length] in Hrun. change (Z.of_nat 0) with 0 in Hrun.
      rewrite Hrun. cbn [mbind option_bind]. destruct fuel as [|fuel]; [simpl in Hf; lia|].
      cbn [NameLoop]. unfold Swap, trk. cbn [BackTracking OldBackTracking Swapped BackTrackingBufferSize BackTrackingPosition].
      apply AtEnd_run.
  - assert (rd Name i = Some x) as Hrd.
    { unfold rd. rewrite (proj2 (Z.leb_le _ _)) by lia.
      rewrite <- (Nat.add_0_r (Z.to_nat i)), <- lookup_drop, Hn. done. }
    pose proof (rd_bound _ _ _ Hrd) as Hi'. rewrite (proj2 (Z.leb_gt _ _)) by lia. cbn [mbind option_bind].
    rewrite Nat2Z.id. apply andb_true_iff in Hfit as [Hfit Hfits]. apply bool_decide_eq_true in Hfit.
    destruct (MatchLoop_run (Some x) i false (length s) s [] cur junk sw (Z.of_nat (length s)))
      as (rest' & Hrun & Hl); cbn [app length] in *; try done; try lia; [by destruct s|].
    change (NameProps.step fold Expression (Some x) _ []) with (@nil Z) in Hrun.
    unfold trk in Hrun at 1. cbn [app length] in Hrun. change (Z.of_nat 0) with 0 in Hrun.
    rewrite Hrun. cbn [mbind option_bind]. rewrite u16_small by lia. unfold Swap, trk.
    cbn [BackTracking OldBackTracking Swapped BackTrackingBufferSize BackTrackingPosition].
    assert ((i + 1 =? 0) = false) as E1 by (apply Z.eqb_neq; lia).
    rewrite (IH (i + 1)); rewrite ?E1; try done; try lia.
    + replace (Z.to_nat (i + 1)) with (Z.to_nat i + 1)%nat by lia. by rewrite <- drop_drop, Hn.
    + apply (step_collected fold Expression (Some x) (i =? 0) s Hx Hs).
    + rewrite length_app. lia.
Qed.

End Arrays.
