(* ===== verification/NameClaims.v ===== *)
(** * What FsRtlIsNameInExpression answers

    The answer is that of [Matches] as long as the sets of positions fit into the arrays on the
    stack; beyond that the code leaves its arrays or exchanges their contents. *)

From Stdlib Require Import ZArith Lia Bool Sorting Ascii String.
From stdpp Require Import base option list numbers sets sorting strings.
From S2P Require Import Prelude NameExpression NameProps NameArrays.
Open Scope Z_scope.

(** The table of legal characters marks the five wild cards. *)
Lemma FsRtlIsUnicodeCharacterWild_run c : is_wchar c -> FsRtlIsUnicodeCharacterWild c = Some (wild c).
Proof.
  unfold is_wchar, FsRtlIsUnicodeCharacterWild. intros Hc. destruct (Z.leb_spec 0x40 c).
  { unfold wild, STAR, QM, DOS_STAR, DOS_QM, DOS_DOT. by rewrite !(proj2 (Z.eqb_neq c _)) by lia. }
  assert (forallb (fun c => bool_decide ((flags ← rd LegalAnsiCharacterArray c;
    Some (negb (Z.land flags FSRTL_WILD_CHARACTER =? 0))) = Some (wild c))) (Z.of_nat <$> seq 0 64) = true) as T
    by (vm_compute; reflexivity).
  rewrite forallb_forall in T. specialize (T c). apply bool_decide_eq_true in T; [done|].
  apply list_elem_of_In, list_elem_of_fmap. exists (Z.to_nat c). split; [lia|]. apply elem_of_seq. lia.
Qed.

Lemma WildLoop_run l : Forall is_wchar l -> BACKSLASH ∉ l -> WildLoop l = Some (existsb wild l).
Proof.
  induction 1 as [|c l Hc _ IH]; intros Hb; [done|]. cbn [WildLoop existsb].
  apply not_elem_of_cons in Hb as [Hb Hl]. rewrite (proj2 (Z.eqb_neq _ _)) by done.
  rewrite FsRtlIsUnicodeCharacterWild_run by done. cbn [mbind option_bind].
  destruct (wild c); [done|]. by apply IH.
Qed.

Lemma existsb_reverse {A} (f : A -> bool) l : existsb f (reverse l) = existsb f l.
Proof.
  apply eq_true_iff_eq. rewrite !existsb_exists. setoid_rewrite <- list_elem_of_In.
  setoid_rewrite elem_of_reverse. done.
Qed.

Lemma FsRtlDoesNameContainWildCards_run l : Forall is_wchar l -> BACKSLASH ∉ l ->
  FsRtlDoesNameContainWildCards l = Some (existsb wild l).
Proof.
  intros H Hb. unfold FsRtlDoesNameContainWildCards. rewrite WildLoop_run, existsb_reverse; [done| |].
  - by apply Forall_reverse.
  - by rewrite elem_of_reverse.
Qed.

(** ** A star and characters *)

Section Suffix.

Variable fold : Z -> Z.

Lemma Matches_literals first t n : existsb wild t = false ->
  Matches fold first t n <-> fold <$> n = t.
Proof.
  revert first n. induction t as [|c t IH]; intros first n Ht.
  { rewrite Matches_nil. destruct n; split; done. }
  cbn [existsb] in Ht. apply orb_false_iff in Ht as [Hc Ht]. destruct n as [|x n].
  - rewrite Matches_end_inv. split; [|done]. intros [H _]. exfalso.
    destruct_or! H; subst c; discriminate Hc.
  - rewrite Matches_literal by done. rewrite IH by done. rewrite fmap_cons. naive_solver.
Qed.

Lemma Matches_star_suffix first t n : existsb wild t = false ->
  Matches fold first (STAR :: t) n <-> exists a b, n = a ++ b /\ fold <$> b = t.
Proof.
  intros Ht. revert first. induction n as [|x n IH]; intros first.
  - rewrite Matches_end_inv, Matches_literals by done. split.
    + intros [_ H]. by exists [], [].
    + intros (a & b & H & Hb). symmetry in H. apply app_nil in H as [-> ->]. split; [tauto|done].
  - rewrite Matches_STAR, Matches_literals, IH by done. split.
    + intros [H|(a & b & -> & H)]; [by exists [], (x :: n)|by exists (x :: a), b].
    + intros (a & b & H & Hb). destruct a as [|y a]; [left; cbn [app] in H; by subst b|].
      injection H as -> ->. right. by exists a, b.
Qed.

Lemma suffix_iff t n :
  (exists a b, n = a ++ b /\ fold <$> b = t) <->
  (length t <= length n)%nat /\ fold <$> drop (length n - length t) n = t.
Proof.
  split.
  - intros (a & b & -> & <-). rewrite length_fmap, length_app. split; [lia|].
    replace (length a + length b - length b)%nat with (length a) by lia. by rewrite drop_app_length.
  - intros [Hl H]. exists (take (length n - length t) n), (drop (length n - length t) n).
    by rewrite take_drop.
Qed.

End Suffix.

Lemma UpcaseEqual_run DBG UpcaseTable e n : (length e <= length n)%nat ->
  (DBG = true -> Forall (fun c => UpcaseTable c = c) e) ->
  UpcaseEqual DBG UpcaseTable e n = Some (bool_decide (UpcaseTable <$> take (length e) n = e)).
Proof.
  revert n. induction e as [|c e IH]; intros n Hl Hup; [by rewrite bool_decide_true by done|].
  destruct n as [|d n]; [simpl in Hl; lia|]. cbn [UpcaseEqual length take]. rewrite fmap_cons.
  assert (checked DBG (c =? UpcaseTable c) = Some tt) as ->.
  { unfold checked. destruct DBG; [|done]. specialize (Hup eq_refl). inversion Hup as [|? ? Hc]; subst. by rewrite Hc, Z.eqb_refl. }
  assert (DBG = true -> Forall (fun c => UpcaseTable c = c) e) as Hup' by (intros D; specialize (Hup D); by inversion Hup).
  cbn [mbind option_bind].
  destruct (Z.eqb_spec (UpcaseTable d) c) as [->|N]; cbn [negb].
  - rewrite IH by (done || (simpl in Hl; lia)). f_equal. apply bool_decide_ext. split; [by intros ->|by intros [= ->]].
  - rewrite bool_decide_false; [done|]. by intros [= H _].
Qed.

(** The comparison with the end of the name, in both cases. *)
Lemma suffix_answer DBG IgnoreCase UpcaseTable t n :
  existsb wild t = false -> (DBG = true -> Forall (fun c => fold IgnoreCase UpcaseTable c = c) t) ->
  exists b,
    (if ByteLength n <? ByteLength (STAR :: t) - 2 then Some false else
     let NamePosition := (ByteLength n - ByteLength t) / 2 in
     if negb IgnoreCase
     then Some (bool_decide (take (length t) (drop (Z.to_nat NamePosition) n) = t))
     else UpcaseEqual DBG UpcaseTable t (drop (Z.to_nat NamePosition) n)) = Some b /\
    (b = true <-> Matches (fold IgnoreCase UpcaseTable) true (STAR :: t) n).
Proof.
  intros Ht Hup. pose proof (Matches_star_suffix (fold IgnoreCase UpcaseTable) true t n Ht) as HM.
  rewrite suffix_iff in HM. unfold ByteLength. cbn [length]. cbv zeta.
  destruct (Z.ltb_spec (2 * Z.of_nat (length n)) (2 * Z.of_nat (S (length t)) - 2)).
  { exists false. split; [done|]. rewrite HM. split; [done|]. lia. }
  replace ((2 * Z.of_nat (length n) - 2 * Z.of_nat (length t)) / 2) with (Z.of_nat (length n - length t)).
  2:{ replace (2 * Z.of_nat (length n) - 2 * Z.of_nat (length t)) with (Z.of_nat (length n - length t) * 2) by lia.
      by rewrite Z.div_mul by lia. }
  rewrite Nat2Z.id. assert (length (drop (length n - length t) n) = length t) as Hd by (rewrite length_drop; lia).
  assert (take (length t) (drop (length n - length t) n) = drop (length n - length t) n) as Htk by (apply take_ge; lia).
  destruct IgnoreCase; cbn [negb].
  - rewrite UpcaseEqual_run by (lia || done). eexists. split; [done|]. rewrite bool_decide_eq_true, Htk, HM.
    change (fold true UpcaseTable) with UpcaseTable. split; [intros ->; split; [lia|done]|tauto].
  - eexists. split; [done|]. rewrite bool_decide_eq_true, Htk, HM.
    change (fold false UpcaseTable) with (@id Z). rewrite list_fmap_id.
    split; [intros ->; split; [lia|done]|tauto].
Qed.

(** The back-tracking search against the language of the wild cards, as long as the sets of
    positions never have more than fourteen elements, whatever was on the stack. *)
Lemma FsRtlIsNameInExpressionPrivate_run DBG Allocate IgnoreCase UpcaseTable Expression Name Stack :
  Forall is_wchar Expression -> (forall t, Expression = STAR :: t -> BACKSLASH ∉ t) ->
  (DBG = true -> Forall (fun c => fold IgnoreCase UpcaseTable c = c) Expression) ->
  Z.of_nat (length Expression) < 2 ^ 14 -> Z.of_nat (length Name) < 2 ^ 15 ->
  Forall (fun x => wild (fold IgnoreCase UpcaseTable x) = false) Name ->
  fits (fold IgnoreCase UpcaseTable) Expression 14 true Name [0] = true ->
  length Stack = 16%nat ->
  exists b,
    FsRtlIsNameInExpressionPrivate DBG Allocate IgnoreCase UpcaseTable Expression Name Stack = Some b /\
    (b = true <-> (Name = [] /\ Expression = []) \/
                  (Name <> [] /\ Expression <> [] /\ Matches (fold IgnoreCase UpcaseTable) true Expression Name)).
Proof.
  intros We Hb Hup He Hn Hw Hfit Hst. unfold FsRtlIsNameInExpressionPrivate.
  destruct Name as [|x Name]; [cbn; eexists; split; [done|]; destruct Expression; naive_solver|].
  destruct Expression as [|c t]; [cbn; eexists; split; [done|]; naive_solver|].
  rewrite (proj2 (Z.eqb_neq (ByteLength (x :: Name)) 0)) by (unfold ByteLength; simpl; lia).
  rewrite (proj2 (Z.eqb_neq (ByteLength (c :: t)) 0)) by (unfold ByteLength; simpl; lia).
  cbn [orb]. change (rd (c :: t) 0) with (Some c). cbn [mbind option_bind].
  assert (forall b, (b = true <-> Matches (fold IgnoreCase UpcaseTable) true (c :: t) (x :: Name)) ->
    (b = true <-> (x :: Name = [] /\ c :: t = []) \/
       (x :: Name <> [] /\ c :: t <> [] /\ Matches (fold IgnoreCase UpcaseTable) true (c :: t) (x :: Name)))) as Fin
    by (intros b ->; naive_solver).
  assert (exists b, NameLoop Allocate IgnoreCase UpcaseTable (c :: t) (x :: Name) (S (S (length (x :: Name))))
      (mkTracking Stack (replicate 16 0) false 16 0) 0 1 false = Some b /\
    (b = true <-> Matches (fold IgnoreCase UpcaseTable) true (c :: t) (x :: Name))) as (b & Hr & Hm).
  { destruct (start_valid (c :: t)) as [Hs _]; [done|]. eexists. split.
    - apply (NameLoop_run Allocate IgnoreCase UpcaseTable (c :: t) (x :: Name) He Hn (x :: Name) 0 [0] (replicate 15 0) Stack);
        try done; simpl; lia.
    - by apply runs_from_start. }
  inversion We as [|? ? Wc Wt]; subst.
  destruct (Z.eqb_spec c STAR) as [->|Nc].
  2:{ rewrite andb_false_r. cbn [mbind option_bind]. exists b. auto. }
  specialize (Hb t eq_refl).
  rewrite andb_true_r. destruct (Z.eqb_spec (ByteLength (STAR :: t)) 2) as [L1|L1].
  { exists true. split; [done|]. apply Fin. destruct t; [|unfold ByteLength in L1; simpl in L1; lia].
    split; [intros _|done]. apply Matches_star_suffix; [done|]. exists (x :: Name), []. by rewrite app_nil_r. }
  change (drop 1 (STAR :: t)) with t. rewrite FsRtlDoesNameContainWildCards_run by done. cbn [mbind option_bind].
  destruct (existsb wild t) eqn:Wi; cbn [negb]; [exists b; auto|].
  destruct (suffix_answer DBG IgnoreCase UpcaseTable t (x :: Name) Wi) as (b' & Hr' & Hm');
    [by intros D; specialize (Hup D); inversion Hup|]. exists b'. split; [exact Hr'|auto].
Qed.

(** The characters of an ASCII string. *)
Definition wide (s : String.string) : list Z := (fun a => Z.of_N (Ascii.N_of_ascii a)) <$> String.list_ascii_of_string s.

(** the expression **a*a*a*a* and a name of five a write one entry behind the array of
    sixteen entries on the stack, whatever the allocator and the stack hold: the check for room
    comes after the entry for the end of the expression. *)
Theorem trailing_star_overruns_stack DBG Allocate UpcaseTable Stack :
  length Stack = 16%nat ->
  FsRtlIsNameInExpressionPrivate DBG Allocate false UpcaseTable (wide "**a*a*a*a*") (wide "aaaaa") Stack = None.
Proof. intros H. do 16 (destruct Stack as [|? Stack]; [done|]). destruct Stack; [vm_compute; reflexivity|done]. Qed.

Lemma trailing_star_overruns_stack_witness :
  FsRtlIsNameInExpressionPrivate true (fun _ => None) false (fun c => c) (wide "**a*a*a*a*") (wide "aaaaa")
    (replicate 16 0) = None.
Proof. apply trailing_star_overruns_stack. reflexivity. Defined.

(** when the arrays grow at an odd character of the name, their contents are exchanged, and
    the answer is wrong: the name baab, which does not end in a, is found in **b*****a, while
    [Matches] does not relate them. *)
Theorem growing_exchanges_arrays :
  FsRtlIsNameInExpressionPrivate true (fun n => Some (replicate (Z.to_nat n) 0)) false (fun c => c)
    (wide "**b*****a") (wide "baab") (replicate 16 0) = Some true /\
  ~ Matches (fun c => c) true (wide "**b*****a") (wide "baab").
Proof.
  split; [vm_compute; reflexivity|].
  rewrite <- (runs_from_start (fun c => c) (wide "**b*****a")); [by vm_compute|by vm_compute|].
  repeat constructor.
Qed.
