(* ===== verification/NameStrings.v ===== *)
(** * Names in memory (ntoskrnl/fsrtl/name.c)

    The functions of name.c that work on UNICODE_STRINGs: the comparison of two names, the
    division of a path, and the exported search for a name, which puts the name in upper case
    first.  The strings have an even length.  A raised status is a result of its own. *)

From Stdlib Require Import ZArith Lia Bool.
From stdpp Require Import base option list numbers gmap.
From S2P Require Import Prelude Memory Nls Unicode UnicodeConvert NameExpression.
Open Scope Z_scope.

Inductive outcome :=
| Returned (Result : bool) (m : mem)
| Raised (Status : NTSTATUS) (m : mem).

(** ** FsRtlAreNamesEqual *)

(** The comparison through the table of the caller. *)
Fixpoint EqualLoop (UpcaseTable : Z -> Z) (n : nat) (m : mem) (p1 p2 : Z) : option bool :=
  match n with
  | O => Some true
  | S n' =>
      c1 ← ld16 m p1; c2 ← ld16 m p2;
      if negb (UpcaseTable c1 =? UpcaseTable c2) then Some false
      else EqualLoop UpcaseTable n' m (p1 + 2) (p2 + 2)
  end.

Section Upcase.

Context (N : NLS) `{ByteAllocator}.

(** What is in a UNICODE_STRING on the stack before it is set. *)
Variable Uninitialized : UNICODE_STRING.

Definition FsRtlAreNamesEqual (m : mem) (Name1 Name2 : UNICODE_STRING) (IgnoreCase : bool)
    (UpcaseTable : option (Z -> Z)) : option outcome :=
  if negb (Length Name1 =? Length Name2) then Some (Returned false m) else
  match IgnoreCase, UpcaseTable with
  | true, None =>
      '(Status, UpcaseName1, m) ← RtlUpcaseUnicodeString N m Uninitialized Name1 true;
      if negb (NT_SUCCESS Status) then Some (Raised Status m) else
      '(Status, UpcaseName2, m) ← RtlUpcaseUnicodeString N m Uninitialized Name2 true;
      let Size := Z.to_nat (Length Name1) in
      if negb (NT_SUCCESS Status) then
        Some (Raised Status (RtlFreeUnicodeString m Size UpcaseName1).2)
      else
      StringsAreEqual ← RtlEqualMemory m (Buffer UpcaseName1) (Buffer UpcaseName2) (Length UpcaseName1);
      let m := (RtlFreeUnicodeString m Size UpcaseName1).2 in
      let m := (RtlFreeUnicodeString m Size UpcaseName2).2 in
      Some (Returned StringsAreEqual m)
  | true, Some UpcaseTable =>
      b ← EqualLoop UpcaseTable (Z.to_nat (Length Name1 / 2)) m (Buffer Name1) (Buffer Name2);
      Some (Returned b m)
  | false, _ =>
      StringsAreEqual ← RtlEqualMemory m (Buffer Name1) (Buffer Name2) (Length Name1);
      Some (Returned StringsAreEqual m)
  end.

(** ** FsRtlIsNameInExpression *)

(** [DBG], [Allocate] and [Stack] are those of [FsRtlIsNameInExpressionPrivate]. *)
Definition FsRtlIsNameInExpression (DBG : bool) (Allocate : Z -> option (list Z)) (Stack : list Z) (m : mem)
    (Expression Name : UNICODE_STRING) (IgnoreCase : bool) (UpcaseTable : option (Z -> Z)) : option outcome :=
  match IgnoreCase, UpcaseTable with
  | true, None =>
      '(Status, IntName, m) ← RtlUpcaseUnicodeString N m Uninitialized Name true;
      if negb (NT_SUCCESS Status) then Some (Raised Status m) else
      e ← chars_of m Expression; n ← chars_of m IntName;
      Result ← FsRtlIsNameInExpressionPrivate DBG Allocate false (fun c => c) e n Stack;
      Some (Returned Result
        (if Buffer IntName =? 0 then m else (RtlFreeUnicodeString m (Z.to_nat (Length Name)) IntName).2))
  | _, _ =>
      e ← chars_of m Expression; n ← chars_of m Name;
      Result ← FsRtlIsNameInExpressionPrivate DBG Allocate IgnoreCase (default (fun c => c) UpcaseTable) e n Stack;
      Some (Returned Result m)
  end.

End Upcase.

(** ** FsRtlDissectName *)

(** [n] characters are left at [i]; the result is [SkipFirstSlash] and [FirstPosition]. *)
Fixpoint DissectLoop (n : nat) (m : mem) (Buffer i SkipFirstSlash FirstPosition : Z) : option (Z * Z) :=
  match n with
  | O => Some (SkipFirstSlash, FirstPosition)
  | S n' =>
      c ← ld16 m (Buffer + 2 * i);
      if c =? BACKSLASH then
        if i =? 0 then DissectLoop n' m Buffer (i + 1) 1 FirstPosition
        else Some (SkipFirstSlash, i)
      else DissectLoop n' m Buffer (i + 1) SkipFirstSlash FirstPosition
  end.

Definition FsRtlDissectName (m : mem) (Name : UNICODE_STRING) : option (UNICODE_STRING * UNICODE_STRING) :=
  let Zero := mkString 0 0 0 in
  if Length Name =? 0 then Some (Zero, Zero) else
  '(SkipFirstSlash, FirstPosition) ←
    DissectLoop (Z.to_nat (Length Name / 2)) m (Buffer Name) 0 0 (Length Name / 2);
  let First := u16 ((FirstPosition - SkipFirstSlash) * 2) in
  let Remaining := u16 (Length Name - (FirstPosition + 1) * 2) in
  Some (mkString First First (Buffer Name + 2 * SkipFirstSlash),
        if FirstPosition <? Length Name / 2
        then mkString Remaining Remaining (Buffer Name + 2 * FirstPosition + 2) else Zero).
