(* ===== verification/NameStringProps.v ===== *)
(** * Paths, equal names and names in expressions, in memory

    The functions of [NameStrings] against the characters that the strings hold. *)

From Stdlib Require Import ZArith Lia Bool.
From stdpp Require Import base option list numbers gmap.
From S2P Require Import Prelude Memory Nls Unicode UnicodeConvert UnicodeProps NameExpression NameProps NameArrays NameClaims NameStrings.
Open Scope Z_scope.

(** ** Temporary blocks *)

Lemma lookup_unmap n p (m : mem) q : unmap_bytes n p m !! q = if decide (p <= q < p + Z.of_nat n) then None else m !! q.
Proof.
  revert p. induction n as [|n IH]; intros p; cbn [unmap_bytes].
  { rewrite decide_False by lia. done. }
  destruct (decide (q = p)) as [->|Ne].
  - rewrite lookup_delete_eq, decide_True by lia. done.
  - rewrite lookup_delete_ne, IH by done. destruct (decide (p + 1 <= q < p + 1 + Z.of_nat n)).
    + by rewrite decide_True by lia.
    + by rewrite decide_False by lia.
Qed.

Lemma unmap_fresh `{ByteAllocator} m m' n p : 0 <= n ->
  balloc m n = Some p -> same_except m m' p n -> unmap_bytes (Z.to_nat n) p m' = m.
Proof.
  intros Hn Hp Hs. apply map_eq. intros q. rewrite lookup_unmap. case_decide as D.
  - symmetry. apply (balloc_fresh m n p); [done|lia].
  - apply Hs. lia.
Qed.

Lemma holds_fresh `{ByteAllocator} m m' n p s cs :
  balloc m n = Some p -> same_except m m' p n -> holds m s cs -> holds m' s cs.
Proof.
  intros Hp Hs (L & W & Hh). split; [done|]. split; [done|]. rewrite has_lookup in *. intros i b Hi.
  specialize (Hh i b Hi). rewrite Hs; [done|]. destruct (Z.lt_ge_cases (Buffer s + Z.of_nat i) p); [by left|].
  destruct (Z.lt_ge_cases (Buffer s + Z.of_nat i) (p + n)); [|by right].
  by rewrite (balloc_fresh m n p) in Hh by (done || lia).
Qed.

Lemma unmap_unmap n1 p1 n2 p2 m : unmap_bytes n1 p1 (unmap_bytes n2 p2 m) = unmap_bytes n2 p2 (unmap_bytes n1 p1 m).
Proof. apply map_eq. intros q. rewrite !lookup_unmap. repeat case_decide; done. Qed.

(** ** Upper case *)

Section Upcase.

Context (N : NLS) (up : Z -> Z) (tables : upcases N up) `{ByteAllocator}.

Lemma up_wchar c : is_wchar c -> is_wchar (up c).
Proof.
  intros Hc. pose proof (tables c Hc) as E. unfold RtlpUpcaseUnicodeChar in E. destruct (c <? 0x61); [injection E as E; by rewrite <- E|].
  assert (forall x, is_wchar (u16 x)) as W by (intros x; apply Z.mod_pos_bound; lia).
  destruct (c <=? 0x7A); [injection E as E; rewrite <- E; apply W|]. repeat (let o := fresh "o" in destruct (rd _ _) as [o|]; [|done]; cbn [mbind option_bind] in E).
  injection E as E. rewrite <- E. apply W.
Qed.

Lemma CaseLoop_run m d s cs old :
  Forall is_wchar cs -> has m s (wide_bytes cs) -> has m d old -> length old = (2 * length cs)%nat ->
  s + 2 * Z.of_nat (length cs) <= d \/ d + 2 * Z.of_nat (length cs) <= s ->
  exists m', CaseLoop (RtlpUpcaseUnicodeChar N) (length cs) m d s = Some m' /\
    has m' d (wide_bytes (up <$> cs)) /\ same_except m m' d (2 * Z.of_nat (length cs)).
Proof.
  intros W. revert m d s old. induction W as [|c cs Hc W IH]; intros m d s old Hs Hd Ho Dis.
  { exists m. split_and!; [done|done|by intros q]. }
  destruct (ld16_wide m s c cs Hc Hs) as [E Hs']. cbn [length CaseLoop]. rewrite E. cbn [mbind option_bind].
  rewrite (tables c Hc). cbn [mbind option_bind].
  destruct old as [|x [|y old]]; [done|cbn in Ho; lia|]. cbn [length] in Ho, Dis.
  change (x :: y :: old) with ([x; y] ++ old) in Hd. apply has_app in Hd as [Hd1 Hd2]. cbn in Hd2.
  destruct (store_at m d [x; y] (enc 2 (up c)) Hd1 eq_refl) as (m1 & E1 & K1 & S1 & _).
  unfold st16. rewrite E1. cbn [mbind option_bind]. cbn in S1.
  destruct (IH m1 (d + 2) (s + 2) old) as (m' & E2 & K2 & S2); [| |lia|lia|].
  - eapply has_frame; [exact Hs'|exact S1|]. rewrite length_wide_bytes. lia.
  - eapply has_frame; [exact Hd2|exact S1|lia].
  - exists m'. split; [done|]. rewrite fmap_cons, wide_bytes_cons. split.
    + apply has_app. rewrite length_enc. split; [|done]. eapply has_frame; [exact K1|exact S2|]. rewrite length_enc. lia.
    + intros q Hq. cbn [length] in Hq. rewrite S2, S1 by lia. done.
Qed.

Lemma RtlUpcaseUnicodeString_run m d s cs p :
  holds m s cs -> balloc m (Length s) = Some p ->
  exists m', RtlUpcaseUnicodeString N m d s true = Some (STATUS_SUCCESS, mkString (Length s) (Length s) p, m') /\
    holds m' (mkString (Length s) (Length s) p) (up <$> cs) /\ same_except m m' p (Length s).
Proof.
  intros Hs Hp. pose proof (holds_count m s cs Hs) as C. destruct Hs as (L & W & Hs). unfold RtlUpcaseUnicodeString. rewrite Hp, C.
  pose proof (has_fresh m _ p _ _ garbage Hp Hs) as Hs0. pose proof (map_bytes_has (Z.to_nat (Length s)) p garbage m) as G.
  pose proof (map_bytes_same (Z.to_nat (Length s)) p garbage m) as S0. set (m0 := map_bytes _ p garbage m) in *. clearbody m0.
  destruct (CaseLoop_run m0 p (Buffer s) cs _ W Hs0 G) as (m' & E & K & S1).
  { rewrite length_replicate. lia. }
  { destruct cs as [|c cs]; [cbn [length]; lia|]. rewrite <- L.
    pose proof (fresh_disjoint m (Length s) p (Buffer s) _ Hp Hs) as D. rewrite length_wide_bytes in D.
    replace (Z.of_nat (2 * length (c :: cs))) with (Length s) in D by lia. apply D; [rewrite L; cbn [length]; lia|].
    rewrite wide_bytes_cons. intros E%(f_equal length). rewrite length_app, length_enc in E. cbn in E. lia. }
  rewrite E. cbn [mbind option_bind]. exists m'. split; [done|]. split.
  - split; [by rewrite length_fmap|]. split; [|done]. apply Forall_fmap. eapply Forall_impl; [exact W|apply up_wchar].
  - intros q Hq. rewrite S1, S0 by lia. done.
Qed.

Lemma RtlFreeUnicodeString_run m n s : Buffer s <> 0 -> (RtlFreeUnicodeString m n s).2 = unmap_bytes n (Buffer s) m.
Proof. intros H0. unfold RtlFreeUnicodeString. by rewrite (proj2 (Z.eqb_neq _ _)). Qed.

(** ** Equal names *)

Lemma EqualLoop_run f m p q a b : Forall is_wchar a -> Forall is_wchar b -> length a = length b ->
  has m p (wide_bytes a) -> has m q (wide_bytes b) ->
  EqualLoop f (length a) m p q = Some (bool_decide (f <$> a = f <$> b)).
Proof.
  intros Wa. revert p q b. induction Wa as [|x a Hx Wa IH]; intros p q [|y b] Wb Hl Ha Hb; try done.
  inversion Wb; subst. destruct (ld16_wide m p x a) as [E1 K1]; [done|done|]. destruct (ld16_wide m q y b) as [E2 K2]; [done|done|].
  cbn [length EqualLoop]. rewrite E1, E2. cbn [mbind option_bind]. rewrite !fmap_cons.
  destruct (Z.eqb_spec (f x) (f y)) as [E|E]; cbn [negb].
  - rewrite (IH _ _ b) by (done || (simpl in Hl; lia)). f_equal. apply bool_decide_ext. rewrite E. split; [by intros ->|by intros [= ->]].
  - rewrite bool_decide_false; [done|]. by intros [= ? _].
Qed.

Lemma wide_bytes_inj a b : Forall is_wchar a -> Forall is_wchar b -> wide_bytes a = wide_bytes b -> a = b.
Proof.
  intros Wa. revert b. induction Wa as [|x a Hx Wa IH]; intros b Wb E.
  { destruct b as [|y b]; [done|]. apply (f_equal length) in E. by rewrite !length_wide_bytes in E. }
  destruct b as [|y b]; [apply (f_equal length) in E; by rewrite !length_wide_bytes in E|].
  inversion Wb; subst. rewrite !wide_bytes_cons in E. apply app_inj_1 in E as [E1 E2]; [|by rewrite !length_enc].
  f_equal; [|by apply IH]. apply (f_equal dec) in E1. by rewrite !dec_enc in E1.
Qed.

Lemma RtlEqualMemory_run m s t a b : holds m s a -> holds m t b -> length a = length b ->
  RtlEqualMemory m (Buffer s) (Buffer t) (Length s) = Some (bool_decide (a = b)).
Proof.
  intros (L & Wa & Ha) (_ & Wb & Hb) Hl. unfold RtlEqualMemory. unfold has in Ha, Hb. rewrite length_wide_bytes in Ha, Hb.
  replace (Z.to_nat (Length s)) with (2 * length a)%nat by lia. rewrite Ha, Hl, Hb. cbn [mbind option_bind].
  f_equal. apply bool_decide_ext. split; [by apply wide_bytes_inj|by intros ->].
Qed.

(** The characters that are compared. *)
Definition compared (IgnoreCase : bool) (UpcaseTable : option (Z -> Z)) (a : list Z) : list Z :=
  if IgnoreCase then default up UpcaseTable <$> a else a.

(** C25: [FsRtlAreNamesEqual] decides whether two names have the same characters, or the same
    upper case by the table of the caller or that of the system, and frees the temporary
    strings: the memory is the one before, also when a string cannot be allocated, which raises
    the status of the allocation. *)
Theorem names_equal_decides Uninitialized m Name1 Name2 a b IgnoreCase UpcaseTable :
  holds m Name1 a -> holds m Name2 b -> (forall m n, balloc m n <> Some 0) ->
  FsRtlAreNamesEqual N Uninitialized m Name1 Name2 IgnoreCase UpcaseTable
    = Some (Returned (bool_decide (compared IgnoreCase UpcaseTable a = compared IgnoreCase UpcaseTable b)) m) \/
  (IgnoreCase = true /\ UpcaseTable = None /\
   FsRtlAreNamesEqual N Uninitialized m Name1 Name2 IgnoreCase UpcaseTable = Some (Raised STATUS_NO_MEMORY m) /\
   exists m', balloc m' (Length Name1) = None).
Proof.
  intros Ha Hb H0. unfold FsRtlAreNamesEqual, compared. pose proof (proj1 Ha) as La. pose proof (proj1 Hb) as Lb.
  destruct (Z.eqb_spec (Length Name1) (Length Name2)) as [L|L]; cbn [negb].
  2:{ left. rewrite bool_decide_false; [done|]. intros E%(f_equal length). destruct IgnoreCase; rewrite ?length_fmap in E; lia. }
  assert (length a = length b) as Hl by lia. destruct IgnoreCase; [destruct UpcaseTable as [f|]|].
  - left. rewrite (holds_count _ _ _ Ha). destruct Ha as (_ & Wa & Ha), Hb as (_ & Wb & Hb).
    by rewrite (EqualLoop_run f m _ _ a b) by done.
  - destruct (balloc m (Length Name1)) as [p1|] eqn:P1.
    2:{ right. unfold RtlUpcaseUnicodeString. rewrite P1. split_and!; [done..|by exists m]. }
    destruct (RtlUpcaseUnicodeString_run m Uninitialized Name1 a p1 Ha P1) as (m1 & -> & H1 & S1).
    cbn [mbind option_bind negb]. change (NT_SUCCESS STATUS_SUCCESS) with true. cbn [negb].
    pose proof (fun E => H0 _ _ (eq_trans P1 (f_equal Some E))) as N1.
    destruct (balloc m1 (Length Name2)) as [p2|] eqn:P2.
    2:{ right. unfold RtlUpcaseUnicodeString. rewrite P2. cbn [mbind option_bind].
        change (NT_SUCCESS STATUS_NO_MEMORY) with false. cbn [negb]. split; [done|]. split; [done|].
        split; [|exists m1; by rewrite L]. rewrite RtlFreeUnicodeString_run by done. cbn [Buffer].
        do 2 f_equal. apply unmap_fresh; [lia|done|done]. }
    pose proof (fun E => H0 _ _ (eq_trans P2 (f_equal Some E))) as N2. left.
    pose proof (holds_fresh _ _ _ _ _ _ P1 S1 Hb) as Hb1.
    destruct (RtlUpcaseUnicodeString_run m1 Uninitialized Name2 b p2 Hb1 P2) as (m2 & -> & H2 & S2).
    cbn [mbind option_bind]. change (NT_SUCCESS STATUS_SUCCESS) with true. cbn [negb].
    pose proof (holds_fresh _ _ _ _ _ _ P2 S2 H1) as H1'.
    rewrite (RtlEqualMemory_run m2 _ _ _ _ H1' H2) by (by rewrite !length_fmap). cbn [mbind option_bind].
    rewrite !RtlFreeUnicodeString_run by done. cbn [Buffer default]. rewrite unmap_unmap.
    rewrite L at 2. rewrite (unmap_fresh m1 m2 _ p2) by (done || lia). rewrite (unmap_fresh m m1 _ p1) by (done || lia). done.
  - left. by rewrite (RtlEqualMemory_run m _ _ a b) by done.
Qed.

(** ** Names in expressions *)

(** The function on characters and the name that the search is for. *)
Definition searched (IgnoreCase : bool) (UpcaseTable : option (Z -> Z)) (n : list Z) : (Z -> Z) * list Z :=
  match IgnoreCase, UpcaseTable with
  | true, Some f => (f, n)
  | true, None => (fun c => c, up <$> n)
  | false, _ => (fun c => c, n)
  end.

(** C6: equivalence of the back-tracking search with the language of the wild cards, for an
    expression without DOS_STAR and a name without wild cards.  If an expression that begins
    with a star has no backslash, the expression is in upper case as the case-insensitive
    search requires it, both strings are shorter than 2^14 and 2^15 characters, and the sets of
    positions of the search never have more than fourteen elements, then
    [FsRtlIsNameInExpression] returns, stays inside of its arrays whatever was on the stack,
    leaves the memory as it was, and answers TRUE exactly if both are empty or both are not and
    the name is in the language of the expression. *)
Theorem name_in_expression_exact DBG Uninitialized Allocate Stack m Expression Name e n IgnoreCase UpcaseTable :
  holds m Expression e -> holds m Name n -> DOS_STAR ∉ e -> (forall t, e = STAR :: t -> BACKSLASH ∉ t) ->
  Z.of_nat (length e) < 2 ^ 14 -> Z.of_nat (length n) < 2 ^ 15 ->
  let '(f, n') := searched IgnoreCase UpcaseTable n in
  (DBG = true -> Forall (fun c => f c = c) e) ->
  Forall (fun x => wild (f x) = false) n' -> fits f e 14 true n' [0] = true -> length Stack = 16%nat ->
  (IgnoreCase = true -> UpcaseTable = None -> is_Some (balloc m (Length Name)) /\ balloc m (Length Name) <> Some 0) ->
  exists b,
    FsRtlIsNameInExpression N Uninitialized DBG Allocate Stack m Expression Name IgnoreCase UpcaseTable
    = Some (Returned b m) /\
    (b = true <-> (n = [] /\ e = []) \/ (n <> [] /\ e <> [] /\ Language f e n')).
Proof.
  intros He Hn Hds Hb Le Ln. unfold FsRtlIsNameInExpression.
  assert (forall f n', Matches f true e n' <-> Language f e n') as HL
    by (split; [by apply Matches_Language|apply Language_Matches]).
  destruct IgnoreCase; [destruct UpcaseTable as [f|]|]; cbn [searched]; intros Hup Hw Hf Hst Hal; setoid_rewrite <- HL.
  1,3: rewrite (chars_of_run _ _ _ He), (chars_of_run _ _ _ Hn); cbn [mbind option_bind].
  { destruct (FsRtlIsNameInExpressionPrivate_run DBG Allocate true f e n Stack) as (b & E & Hm); try done; [apply He|].
    change (default _ (Some f)) with f. rewrite E. by exists b. }
  { destruct (FsRtlIsNameInExpressionPrivate_run DBG Allocate false (default (fun c => c) UpcaseTable) e n Stack)
        as (b & -> & Hm); try done; [apply He|by exists b]. }
  destruct Hal as [[p Hp] H0]; [done|done|]. destruct (RtlUpcaseUnicodeString_run m Uninitialized Name n p Hn Hp) as (m1 & -> & H1 & S1).
  cbn [mbind option_bind]. change (NT_SUCCESS STATUS_SUCCESS) with true. cbn [negb].
  pose proof (holds_fresh _ _ _ _ _ _ Hp S1 He) as He1.
  rewrite (chars_of_run _ _ _ He1), (chars_of_run _ _ _ H1). cbn [mbind option_bind].
  destruct (FsRtlIsNameInExpressionPrivate_run DBG Allocate false (fun c => c) e (up <$> n) Stack) as (b & -> & Hm);
    try done; [apply He|by rewrite length_fmap|]. exists b. cbn [mbind option_bind Buffer].
  rewrite (proj2 (Z.eqb_neq p 0)) by congruence. rewrite RtlFreeUnicodeString_run by (cbn; congruence). cbn [Buffer].
  rewrite (unmap_fresh m m1 _ p) by (done || (rewrite (proj1 Hn); lia)). split; [done|]. rewrite Hm. destruct n; naive_solver.
Qed.

End Upcase.
