(* ===== verification/NameStringClaims.v ===== *)
(** * The parts of a path, and names at concrete strings

    [FsRtlDissectName] applied again and again to what remains yields the parts of a path. *)

From Stdlib Require Import ZArith Lia Bool Ascii String.
From stdpp Require Import base option list numbers gmap.
From S2P Require Import Prelude Memory Nls Unicode UnicodeConvert UnicodeProps UnicodeExamples NameExpression NameProps NameArrays NameClaims NameStrings NameStringProps.
Open Scope Z_scope.

(** ** One dissection *)

Lemma DissectLoop_run m B i Skip F c rest : 0 < i ->
  Forall is_wchar (c ++ rest) -> BACKSLASH ∉ c -> (rest = [] \/ exists r, rest = BACKSLASH :: r) ->
  has m (B + 2 * i) (wide_bytes (c ++ rest)) ->
  DissectLoop (length (c ++ rest)) m B i Skip F
  = Some (Skip, if decide (rest = []) then F else i + Z.of_nat (length c)).
Proof.
  revert i. induction c as [|x c IH]; intros i Hi W Hb Hr Hm; cbn [app length] in *.
  - destruct Hr as [->|[r ->]]; [done|]. inversion W as [|? ? Wx Wr]; subst.
    destruct (ld16_wide _ _ _ _ Wx Hm) as [E _]. cbn [length DissectLoop]. rewrite E. cbn [mbind option_bind].
    rewrite Z.eqb_refl, (proj2 (Z.eqb_neq i 0)) by lia. rewrite decide_False by done. do 2 f_equal. lia.
  - inversion W as [|? ? Wx Wr]; subst. apply not_elem_of_cons in Hb as [Nx Hb].
    destruct (ld16_wide _ _ _ _ Wx Hm) as [E Hm']. cbn [DissectLoop]. rewrite E. cbn [mbind option_bind].
    rewrite (proj2 (Z.eqb_neq x _)) by done. rewrite IH; [|lia|done|done|done|by replace (B + 2 * (i + 1)) with (B + 2 * i + 2) by lia].
    do 2 f_equal. destruct (decide (rest = [])); [done|lia].
Qed.

(** The parts with a backslash before each. *)
Definition path (cs : list (list Z)) : list Z := concat (map (cons BACKSLASH) cs).

Definition part (c : list Z) : Prop := c <> [] /\ BACKSLASH ∉ c.

Lemma path_shape cs : path cs = [] \/ exists r, path cs = BACKSLASH :: r.
Proof. destruct cs as [|c cs]; [by left|right]. by exists (c ++ path cs). Qed.

(** The loop on a path that starts with a backslash or does not. *)
Lemma DissectLoop_path m B (lead : bool) c rest F :
  let l := if lead then [BACKSLASH] else [] in
  Forall is_wchar (l ++ c ++ rest) -> part c -> (rest = [] \/ exists r, rest = BACKSLASH :: r) ->
  has m B (wide_bytes (l ++ c ++ rest)) ->
  DissectLoop (length (l ++ c ++ rest)) m B 0 0 F
  = Some (Z.of_nat (length l), if decide (rest = []) then F else Z.of_nat (length l + length c)).
Proof.
  intros l W [Nc Hc] Hr Hm. destruct lead; subst l; cbn [app length] in *.
  - inversion W as [|? ? W1 W2]; subst. destruct (ld16_wide _ _ _ _ W1 Hm) as [E Hm']. cbn [DissectLoop].
    replace (B + 2 * 0) with B by lia. rewrite E. cbn [mbind option_bind]. rewrite Z.eqb_refl. change (0 =? 0) with true. cbn [app length].
    rewrite DissectLoop_run; [|lia|done|done|done|by replace (B + 2 * (0 + 1)) with (B + 2) by lia].
    do 2 f_equal. destruct (decide (rest = [])); [done|lia].
  - destruct c as [|x c]; [done|]. cbn [app length] in *. inversion W as [|? ? W1 W2]; subst.
    apply not_elem_of_cons in Hc as [Nx Hc]. destruct (ld16_wide _ _ _ _ W1 Hm) as [E Hm']. cbn [DissectLoop].
    replace (B + 2 * 0) with B by lia. rewrite E. cbn [mbind option_bind]. rewrite (proj2 (Z.eqb_neq x _)) by done.
    rewrite DissectLoop_run; [|lia|done|done|done|by replace (B + 2 * (0 + 1)) with (B + 2) by lia].
    do 2 f_equal. destruct (decide (rest = [])); [done|lia].
Qed.

Lemma FsRtlDissectName_run m Name (lead : bool) c rest :
  let l := if lead then [BACKSLASH] else [] in
  holds m Name (l ++ c ++ rest) -> Length Name < 2 ^ 16 -> part c -> (rest = [] \/ exists r, rest = BACKSLASH :: r) ->
  exists First Remaining,
    FsRtlDissectName m Name = Some (First, Remaining) /\ holds m First c /\ holds m Remaining (drop 1 rest) /\
    Length Remaining < 2 ^ 16.
Proof.
  intros l Hn Hl Hc Hr. pose proof (holds_count _ _ _ Hn) as Cn. destruct Hn as (L & W & Hm). unfold FsRtlDissectName.
  set (k := length l) in *. assert (length (l ++ c ++ rest) = k + length c + length rest)%nat as Lc
    by (rewrite !length_app; unfold k; lia).
  assert (0 < length c)%nat by (destruct Hc, c; [done|simpl; lia]).
  rewrite (proj2 (Z.eqb_neq _ _)), Cn, (DissectLoop_path m (Buffer Name) lead c rest) by (done || lia).
  cbn [mbind option_bind]. fold l. fold k. assert (Length Name / 2 = Z.of_nat (k + length c + length rest)) as Lh
    by (rewrite L, Lc, Z.mul_comm, Z.div_mul; lia).
  rewrite !wide_bytes_app in Hm. apply has_app in Hm as [_ Hm]. apply has_app in Hm as [Hc' Hm].
  rewrite !length_wide_bytes in *. fold k in Hc', Hm. rewrite Lc in L. apply Forall_app in W as [_ W]. apply Forall_app in W as [Wc Wr].
  eexists _, _. split; [done|]. split; [|destruct (decide (rest = [])) as [->|Nr]].
  - destruct (decide (rest = [])) as [->|Nr]; (split; [cbn [Length]; rewrite ?Lh, u16_small; cbn [length] in *; lia|]);
      (split; [done|]); cbn [Buffer]; by replace (Buffer Name + 2 * Z.of_nat k) with (Buffer Name + Z.of_nat (2 * k)) by lia.
  - rewrite Z.ltb_irrefl. split; [split; [done|split; done]|cbn; lia].
  - destruct Hr as [?|[r ->]]; [done|]. cbn [drop]. rewrite Lh, (proj2 (Z.ltb_lt _ _)) by (cbn [length]; lia).
    inversion Wr as [|? ? W1 W2]; subst. destruct (ld16_wide _ _ _ _ W1 Hm) as [_ Hm'].
    cbn [length] in *. split; [|cbn [Length]; apply Z.mod_pos_bound; lia].
    rewrite drop_0. split; [cbn [Length]; rewrite u16_small; lia|]. split; [done|]. cbn [Buffer].
    by replace (Buffer Name + 2 * Z.of_nat (k + length c) + 2)
      with (Buffer Name + Z.of_nat (2 * k) + Z.of_nat (2 * length c) + 2) by lia.
Qed.

(** ** All of them *)

(** The loop of a caller: dissect what remains until nothing does. *)
Fixpoint Parts (fuel : nat) (m : mem) (Name : UNICODE_STRING) : option (list UNICODE_STRING) :=
  if Length Name =? 0 then Some [] else
  match fuel with
  | O => None
  | S fuel' =>
      '(First, Remaining) ← FsRtlDissectName m Name;
      rest ← Parts fuel' m Remaining; Some (First :: rest)
  end.

(** C26: dissecting a path, with or without a backslash at its start, until nothing remains
    yields exactly its parts, in their order and each with its characters, and ends after as many
    calls as there are parts. *)
Theorem dissect_yields_parts m Name cs :
  Forall part cs -> holds m Name (path cs) \/ holds m Name (drop 1 (path cs)) -> Length Name < 2 ^ 16 ->
  exists parts, Parts (length cs) m Name = Some parts /\ Forall2 (holds m) parts cs.
Proof.
  intros Hc. revert Name. induction Hc as [|c cs Hc _ IH]; intros Name Hn Hl.
  { exists []. assert (Length Name = 0) as Z0 by (destruct Hn as [Hn|Hn]; apply Hn). cbn [length Parts]. by rewrite Z0. }
  assert (exists lead : bool, holds m Name ((if lead then [BACKSLASH] else []) ++ c ++ path cs)) as [lead Hn']
    by (destruct Hn as [Hn|Hn]; [by exists true|by exists false]).
  destruct (FsRtlDissectName_run m Name lead c (path cs) Hn' Hl Hc (path_shape cs)) as (First & Remaining & E & H1 & H2 & H3).
  destruct (IH Remaining) as (parts & E' & HP); [by right|done|]. exists (First :: parts). cbn [length Parts].
  rewrite (proj2 (Z.eqb_neq _ _)); [|rewrite (proj1 Hn'), !length_app; destruct Hc, c; [done|simpl; lia]].
  rewrite E. cbn [mbind option_bind]. rewrite E'. split; [done|by constructor].
Qed.

Module NameExample.

Import StringExample.

(** The path \a\bc. *)
Lemma dissect_yields_parts_witness :
  let m := lay 100 (wide_bytes (wide "\a\bc")) ∅ in
  exists parts, Parts 2 m (mkString 10 10 100) = Some parts /\ Forall2 (holds m) parts [wide "a"; wide "bc"].
Proof.
  intros m. apply (dissect_yields_parts m (mkString 10 10 100) [wide "a"; wide "bc"]);
    [repeat (apply List.Forall_cons; [split; [done|refine (bool_decide_unpack _ _); vm_compute; reflexivity]|]); apply List.Forall_nil| |reflexivity].
  left. split; [reflexivity|]. split; [refine (bool_decide_unpack _ _); vm_compute; reflexivity|vm_compute; reflexivity].
Defined.

Lemma at_1000_nonzero m n : @balloc at_1000 m n <> Some 0.
Proof. cbn. case_decide; done. Qed.

Lemma names_equal_decides_witness :
  @FsRtlAreNamesEqual flat at_1000 (mkString 0 0 0) memory ab AB true None
    = Some (Returned true memory) \/
  (true = true /\ @None (Z -> Z) = None /\
   @FsRtlAreNamesEqual flat at_1000 (mkString 0 0 0) memory ab AB true None = Some (Raised STATUS_NO_MEMORY memory) /\
   exists m', @balloc at_1000 m' 4 = None).
Proof.
  exact (@names_equal_decides flat up flat_upcases at_1000 (mkString 0 0 0) memory ab AB _ _ true None ab_holds AB_holds at_1000_nonzero).
Defined.

Lemma name_in_expression_exact_witness :
  let e := wide "R*D>>.T?T" in let n := wide "ReadMe.txt" in
  let m := lay 100 (wide_bytes e) (lay 200 (wide_bytes n) ∅) in
  exists b,
    @FsRtlIsNameInExpression flat at_1000 (mkString 0 0 0) true (fun _ => None) (replicate 16 0) m
      (mkString 18 18 100) (mkString 20 20 200) true None = Some (Returned b m) /\
    (b = true <-> (n = [] /\ e = []) \/ (n <> [] /\ e <> [] /\ Language (fun c => c) e (up <$> n))).
Proof.
  intros e n m. apply (@name_in_expression_exact flat up flat_upcases at_1000 true (mkString 0 0 0) (fun _ => None) (replicate 16 0) m
    (mkString 18 18 100) (mkString 20 20 200) e n true None).
  1,2: split; [reflexivity|]; split; [refine (bool_decide_unpack _ _); vm_compute; reflexivity|vm_compute; reflexivity].
  - refine (bool_decide_unpack _ _). vm_compute. reflexivity.
  - discriminate.
  - reflexivity.
  - reflexivity.
  - intros _. by apply Forall_true.
  - refine (bool_decide_unpack _ _). vm_compute. reflexivity.
  - vm_compute. reflexivity.
  - reflexivity.
  - intros _ _. split; [by exists 1000; vm_compute|apply at_1000_nonzero].
Defined.

End NameExample.
