(* ===== verification/Ctype.v ===== *)
(** * Character classes (sdk/lib/crt/string/ctype.c, wctype.c, iswctype.c)

    The tables and the functions of the C library with which network.c looks at characters, in
    the build of the library for the kernel and for ntdll (_LIBCNT_): [isdigit] looks only at
    the low byte of its argument. *)

From Stdlib Require Import ZArith Lia Bool.
From stdpp Require Import base option list numbers.
From S2P Require Import Prelude.
Open Scope Z_scope.

Definition _UPPER : Z := 0x1.
Definition _DIGIT : Z := 0x4.

(** The entry for -1 comes first. *)
Definition _ctype : list Z :=
  [0; 0x20; 0x20; 0x20; 0x20; 0x20; 0x20; 0x20; 0x20; 0x20; 0x28; 0x28; 0x28; 0x28; 0x28; 0x20;
   0x20; 0x20; 0x20; 0x20; 0x20; 0x20; 0x20; 0x20; 0x20; 0x20; 0x20; 0x20; 0x20; 0x20; 0x20; 0x20;
   0x20; 0x48; 0x10; 0x10; 0x10; 0x10; 0x10; 0x10; 0x10; 0x10; 0x10; 0x10; 0x10; 0x10; 0x10; 0x10;
   0x10; 0x84; 0x84; 0x84; 0x84; 0x84; 0x84; 0x84; 0x84; 0x84; 0x84; 0x10; 0x10; 0x10; 0x10; 0x10;
   0x10; 0x10; 0x81; 0x81; 0x81; 0x81; 0x81; 0x81; 1; 1; 1; 1; 1; 1; 1; 1;
   1; 1; 1; 1; 1; 1; 1; 1; 1; 1; 1; 1; 0x10; 0x10; 0x10; 0x10;
   0x10; 0x10; 0x82; 0x82; 0x82; 0x82; 0x82; 0x82; 2; 2; 2; 2; 2; 2; 2; 2;
   2; 2; 2; 2; 2; 2; 2; 2; 2; 2; 2; 2; 0x10; 0x10; 0x10; 0x10;
   0x20; 0; 0; 0; 0; 0; 0; 0; 0; 0; 0; 0; 0; 0; 0; 0;
   0; 0; 0; 0; 0; 0; 0; 0; 0; 0; 0; 0; 0; 0; 0; 0;
   0; 0; 0; 0; 0; 0; 0; 0; 0; 0; 0; 0; 0; 0; 0; 0;
   0; 0; 0; 0; 0; 0; 0; 0; 0; 0; 0; 0; 0; 0; 0; 0;
   0; 0; 0; 0; 0; 0; 0; 0; 0; 0; 0; 0; 0; 0; 0; 0;
   0; 0; 0; 0; 0; 0; 0; 0; 0; 0; 0; 0; 0; 0; 0; 0;
   0; 0; 0; 0; 0; 0; 0; 0; 0; 0; 0; 0; 0; 0; 0; 0;
   0; 0; 0; 0; 0; 0; 0; 0; 0; 0; 0; 0; 0; 0; 0; 0;
   0].

(** Rows of 256 entries: the offsets of the 256 pages, then the pages. *)
Definition wine_wctype_rows : list (list Z) :=
  [[0x100; 0x200; 0x300; 0x400; 0x500; 0x600; 0x700; 0x800; 0x900; 0xa00; 0xb00; 0xc00; 0xd00; 0xe00; 0xf00; 0x1000;
     0x1100; 0x1200; 0x1300; 0x1400; 0x1500; 0x1200; 0x1600; 0x1700; 0x1800; 0x1900; 0x1a00; 0x1b00; 0x1c00; 0x1d00; 0x1e00; 0x1f00;
     0x2000; 0x2100; 0x2200; 0x2300; 0x2400; 0x2500; 0x2600; 0x2700; 0x2800; 0x2900; 0x2500; 0x2a00; 0x2b00; 0x2c00; 0x2d00; 0x2e00;
     0x2f00; 0x3000; 0x3100; 0x3200; 0x1200; 0x1200; 0x1200; 0x1200; 0x1200; 0x1200; 0x1200; 0x1200; 0x1200; 0x1200; 0x1200; 0x1200;
     0x1200; 0x1200; 0x1200; 0x1200; 0x1200; 0x1200; 0x1200; 0x1200; 0x1200; 0x1200; 0x1200; 0x1200; 0x1200; 0x3300; 0x1200; 0x1200;
     0x1200; 0x1200; 0x1200; 0x1200; 0x1200; 0x1200; 0x1200; 0x1200; 0x1200; 0x1200; 0x1200; 0x1200; 0x1200; 0x1200; 0x1200; 0x1200;
     0x1200; 0x1200; 0x1200; 0x1200; 0x1200; 0x1200; 0x1200; 0x1200; 0x1200; 0x1200; 0x1200; 0x1200; 0x1200; 0x1200; 0x1200; 0x1200;
     0x1200; 0x1200; 0x1200; 0x1200; 0x1200; 0x1200; 0x1200; 0x1200; 0x1200; 0x1200; 0x1200; 0x1200; 0x1200; 0x1200; 0x1200; 0x1200;
     0x1200; 0x1200; 0x1200; 0x1200; 0x1200; 0x1200; 0x1200; 0x1200; 0x1200; 0x1200; 0x1200; 0x1200; 0x1200; 0x1200; 0x1200; 0x1200;
     0x1200; 0x1200; 0x1200; 0x1200; 0x1200; 0x1200; 0x1200; 0x1200; 0x1200; 0x1200; 0x1200; 0x1200; 0x1200; 0x1200; 0x1200; 0x3400;
     0x1200; 0x1200; 0x1200; 0x1200; 0x3500; 0x1200; 0x3600; 0x3700; 0x3800; 0x3900; 0x3a00; 0x3b00; 0x1200; 0x1200; 0x1200; 0x1200;
     0x1200; 0x1200; 0x1200; 0x1200; 0x1200; 0x1200; 0x1200; 0x1200; 0x1200; 0x1200; 0x1200; 0x1200; 0x1200; 0x1200; 0x1200; 0x1200;
     0x1200; 0x1200; 0x1200; 0x1200; 0x1200; 0x1200; 0x1200; 0x1200; 0x1200; 0x1200; 0x1200; 0x1200; 0x1200; 0x1200; 0x1200; 0x1200;
     0x1200; 0x1200; 0x1200; 0x1200; 0x1200; 0x1200; 0x1200; 0x3c00; 0x2800; 0x2800; 0x2800; 0x2800; 0x2800; 0x2800; 0x2800; 0x2800;
     0x2800; 0x2800; 0x2800; 0x2800; 0x2800; 0x2800; 0x2800; 0x2800; 0x2800; 0x2800; 0x2800; 0x2800; 0x2800; 0x2800; 0x2800; 0x2800;
     0x2800; 0x2800; 0x2800; 0x2800; 0x2800; 0x2800; 0x2800; 0x2800; 0x2800; 0x1200; 0x3d00; 0x3e00; 0x3f00; 0x4000; 0x4100; 0x4200];
   [0xe220; 0xe220; 0xe220; 0xe220; 0xe220; 0xe220; 0xe220; 0xe220; 0xe220; 0x9268; 0x8228; 0x9228; 0xa228; 0x8228; 0xe220; 0xe220;
     0xe220; 0xe220; 0xe220; 0xe220; 0xe220; 0xe220; 0xe220; 0xe220; 0xe220; 0xe220; 0xe220; 0xe220; 0x8220; 0x8220; 0x8220; 0x9220;
     0xa248; 0xb210; 0xb210; 0x5210; 0x5210; 0x5210; 0xb210; 0xb210; 0xb210; 0xb210; 0xb210; 0x4210; 0x7210; 0x4210; 0x7210; 0x7210;
     0x3284; 0x3284; 0x3284; 0x3284; 0x3284; 0x3284; 0x3284; 0x3284; 0x3284; 0x3284; 0x7210; 0xb210; 0xb210; 0xb210; 0xb210; 0xb210;
     0xb210; 0x1381; 0x1381; 0x1381; 0x1381; 0x1381; 0x1381; 0x1301; 0x1301; 0x1301; 0x1301; 0x1301; 0x1301; 0x1301; 0x1301; 0x1301;
     0x1301; 0x1301; 0x1301; 0x1301; 0x1301; 0x1301; 0x1301; 0x1301; 0x1301; 0x1301; 0x1301; 0xb210; 0xb210; 0xb210; 0xb210; 0xb210;
     0xb210; 0x1382; 0x1382; 0x1382; 0x1382; 0x1382; 0x1382; 0x1302; 0x1302; 0x1302; 0x1302; 0x1302; 0x1302; 0x1302; 0x1302; 0x1302;
     0x1302; 0x1302; 0x1302; 0x1302; 0x1302; 0x1302; 0x1302; 0x1302; 0x1302; 0x1302; 0x1302; 0xb210; 0xb210; 0xb210; 0xb210; 0xe220;
     0xe220; 0xe220; 0xe220; 0xe220; 0xe220; 0x8228; 0xe220; 0xe220; 0xe220; 0xe220; 0xe220; 0xe220; 0xe220; 0xe220; 0xe220; 0xe220;
     0xe220; 0xe220; 0xe220; 0xe220; 0xe220; 0xe220; 0xe220; 0xe220; 0xe220; 0xe220; 0xe220; 0xe220; 0xe220; 0xe220; 0xe220; 0xe220;
     0x7248; 0xb210; 0x5210; 0x5210; 0x5210; 0x5210; 0xb210; 0xb210; 0xb210; 0xb210; 0x1310; 0xb210; 0xb210; 0xe230; 0xb210; 0xb210;
     0x5210; 0x5210; 0x3214; 0x3214; 0xb210; 0x1312; 0xb210; 0xb210; 0xb210; 0x3214; 0x1310; 0xb210; 0xb210; 0xb210; 0xb210; 0xb210;
     0x1301; 0x1301; 0x1301; 0x1301; 0x1301; 0x1301; 0x1301; 0x1301; 0x1301; 0x1301; 0x1301; 0x1301; 0x1301; 0x1301; 0x1301; 0x1301;
     0x1301; 0x1301; 0x1301; 0x1301; 0x1301; 0x1301; 0x1301; 0xb210; 0x1301; 0x1301; 0x1301; 0x1301; 0x1301; 0x1301; 0x1301; 0x1302;
     0x1302; 0x1302; 0x1302; 0x1302; 0x1302; 0x1302; 0x1302; 0x1302; 0x1302; 0x1302; 0x1302; 0x1302; 0x1302; 0x1302; 0x1302; 0x1302;
     0x1302; 0x1302; 0x1302; 0x1302; 0x1302; 0x1302; 0x1302; 0xb210; 0x1302; 0x1302; 0x1302; 0x1302; 0x1302; 0x1302; 0x1302; 0x1302];
   [0x1301; 0x1302; 0x1301; 0x1302; 0x1301; 0x1302; 0x1301; 0x1302; 0x1301; 0x1302; 0x1301; 0x1302; 0x1301; 0x1302; 0x1301; 0x1302;
     0x1301; 0x1302; 0x1301; 0x1302; 0x1301; 0x1302; 0x1301; 0x1302; 0x1301; 0x1302; 0x1301; 0x1302; 0x1301; 0x1302; 0x1301; 0x1302;
     0x1301; 0x1302; 0x1301; 0x1302; 0x1301; 0x1302; 0x1301; 0x1302; 0x1301; 0x1302; 0x1301; 0x1302; 0x1301; 0x1302; 0x1301; 0x1302;
     0x1301; 0x1302; 0x1301; 0x1302; 0x1301; 0x1302; 0x1301; 0x1302; 0x1302; 0x1301; 0x1302; 0x1301; 0x1302; 0x1301; 0x1302; 0x1301;
     0x1302; 0x1301; 0x1302; 0x1301; 0x1302; 0x1301; 0x1302; 0x1301; 0x1302; 0x1302; 0x1301; 0x1302; 0x1301; 0x1302; 0x1301; 0x1302;
     0x1301; 0x1302; 0x1301; 0x1302; 0x1301; 0x1302; 0x1301; 0x1302; 0x1301; 0x1302; 0x1301; 0x1302; 0x1301; 0x1302; 0x1301; 0x1302;
     0x1301; 0x1302; 0x1301; 0x1302; 0x1301; 0x1302; 0x1301; 0x1302; 0x1301; 0x1302; 0x1301; 0x1302; 0x1301; 0x1302; 0x1301; 0x1302;
     0x1301; 0x1302; 0x1301; 0x1302; 0x1301; 0x1302; 0x1301; 0x1302; 0x1301; 0x1301; 0x1302; 0x1301; 0x1302; 0x1301; 0x1302; 0x1302;
     0x1302; 0x1301; 0x1301; 0x1302; 0x1301; 0x1302; 0x1301; 0x1301; 0x1302; 0x1301; 0x1301; 0x1301; 0x1302; 0x1302; 0x1301; 0x1301;
     0x1301; 0x1301; 0x1302; 0x1301; 0x1301; 0x1302; 0x1301; 0x1301; 0x1301; 0x1302; 0x1302; 0x1302; 0x1301; 0x1301; 0x1302; 0x1301;
     0x1301; 0x1302; 0x1301; 0x1302; 0x1301; 0x1302; 0x1301; 0x1301; 0x1302; 0x1301; 0x1302; 0x1302; 0x1301; 0x1302; 0x1301; 0x1301;
     0x1302; 0x1301; 0x1301; 0x1301; 0x1302; 0x1301; 0x1302; 0x1301; 0x1301; 0x1302; 0x1302; 0x1300; 0x1301; 0x1302; 0x1302; 0x1302;
     0x1300; 0x1300; 0x1300; 0x1300; 0x1301; 0x1303; 0x1302; 0x1301; 0x1303; 0x1302; 0x1301; 0x1303; 0x1302; 0x1301; 0x1302; 0x1301;
     0x1302; 0x1301; 0x1302; 0x1301; 0x1302; 0x1301; 0x1302; 0x1301; 0x1302; 0x1301; 0x1302; 0x1301; 0x1302; 0x1302; 0x1301; 0x1302;
     0x1301; 0x1302; 0x1301; 0x1302; 0x1301; 0x1302; 0x1301; 0x1302; 0x1301; 0x1302; 0x1301; 0x1302; 0x1301; 0x1302; 0x1301; 0x1302;
     0x1302; 0x1301; 0x1303; 0x1302; 0x1301; 0x1302; 0x1301; 0x1301; 0x1301; 0x1302; 0x1301; 0x1302; 0x1301; 0x1302; 0x1301; 0x1302];
   [0x1301; 0x1302; 0x1301; 0x1302; 0x1301; 0x1302; 0x1301; 0x1302; 0x1301; 0x1302; 0x1301; 0x1302; 0x1301; 0x1302; 0x1301; 0x1302;
     0x1301; 0x1302; 0x1301; 0x1302; 0x1301; 0x1302; 0x1301; 0x1302; 0x1301; 0x1302; 0x1301; 0x1302; 0x1301; 0x1302; 0x1301; 0x1302;
     0x1301; 0x1302; 0x1301; 0x1302; 0x1301; 0x1302; 0x1301; 0x1302; 0x1301; 0x1302; 0x1301; 0x1302; 0x1301; 0x1302; 0x1301; 0x1302;
     0x1301; 0x1302; 0x1301; 0x1302; 0x1302; 0x1302; 0x1302; 0x1302; 0x1302; 0x1302; 0x1301; 0x1301; 0x1302; 0x1301; 0x1301; 0x1302;
     0x1302; 0x1301; 0x1302; 0x1301; 0x1301; 0x1301; 0x1301; 0x1302; 0x1301; 0x1302; 0x1301; 0x1302; 0x1301; 0x1302; 0x1301; 0x1302;
     0x1302; 0x1302; 0x1302; 0x1302; 0x1302; 0x1302; 0x1302; 0x1302; 0x1302; 0x1302; 0x1302; 0x1302; 0x1302; 0x1302; 0x1302; 0x1302;
     0x1302; 0x1302; 0x1302; 0x1302; 0x1302; 0x1302; 0x1302; 0x1302; 0x1302; 0x1302; 0x1302; 0x1302; 0x1302; 0x1302; 0x1302; 0x1302;
     0x1302; 0x1302; 0x1302; 0x1302; 0x1302; 0x1302; 0x1302; 0x1302; 0x1302; 0x1302; 0x1302; 0x1302; 0x1302; 0x1302; 0x1302; 0x1302;
     0x1302; 0x1302; 0x1302; 0x1302; 0x1302; 0x1302; 0x1302; 0x1302; 0x1302; 0x1302; 0x1302; 0x1302; 0x1302; 0x1302; 0x1302; 0x1302;
     0x1302; 0x1302; 0x1302; 0x1302; 0x1300; 0x1302; 0x1302; 0x1302; 0x1302; 0x1302; 0x1302; 0x1302; 0x1302; 0x1302; 0x1302; 0x1302;
     0x1302; 0x1302; 0x1302; 0x1302; 0x1302; 0x1302; 0x1302; 0x1302; 0x1302; 0x1302; 0x1302; 0x1302; 0x1302; 0x1302; 0x1302; 0x1302;
     0x1300; 0x1300; 0x1300; 0x1300; 0x1300; 0x1300; 0x1300; 0x1300; 0x1300; 0xb300; 0xb300; 0x1300; 0x1300; 0x1300; 0x1300; 0x1300;
     0x1300; 0x1300; 0xb200; 0xb200; 0xb200; 0xb200; 0xb300; 0xb300; 0xb300; 0xb300; 0xb300; 0xb300; 0xb300; 0xb300; 0xb300; 0xb300;
     0x1300; 0x1300; 0xb200; 0xb200; 0xb200; 0xb200; 0xb200; 0xb200; 0xb200; 0xb200; 0xb200; 0xb200; 0xb200; 0xb200; 0xb200; 0xb200;
     0x1300; 0x1300; 0x1300; 0x1300; 0x1300; 0xb200; 0xb200; 0xb200; 0xb200; 0xb200; 0xb200; 0xb200; 0xb300; 0xb200; 0x1300; 0xb200;
     0xb200; 0xb200; 0xb200; 0xb200; 0xb200; 0xb200; 0xb200; 0xb200; 0xb200; 0xb200; 0xb200; 0xb200; 0xb200; 0xb200; 0xb200; 0xb200];
   [0xd200; 0xd200; 0xd200; 0xd200; 0xd200; 0xd200; 0xd200; 0xd200; 0xd200; 0xd200; 0xd200; 0xd200; 0xd200; 0xd200; 0xd200; 0xd200;
     0xd200; 0xd200; 0xd200; 0xd200; 0xd200; 0xd200; 0xd200; 0xd200; 0xd200; 0xd200; 0xd200; 0xd200; 0xd200; 0xd200; 0xd200; 0xd200;
     0xd200; 0xd200; 0xd200; 0xd200; 0xd200; 0xd200; 0xd200; 0xd200; 0xd200; 0xd200; 0xd200; 0xd200; 0xd200; 0xd200; 0xd200; 0xd200;
     0xd200; 0xd200; 0xd200; 0xd200; 0xd200; 0xd200; 0xd200; 0xd200; 0xd200; 0xd200; 0xd200; 0xd200; 0xd200; 0xd200; 0xd200; 0xd200;
     0xd200; 0xd200; 0xd200; 0xd200; 0xd200; 0xd200; 0xd200; 0xd200; 0xd200; 0xd200; 0xd200; 0xd200; 0xd200; 0xd200; 0xd200; 0xd200;
     0xd200; 0xd200; 0xd200; 0xd200; 0xd200; 0xd200; 0xd200; 0xd200; 0xd200; 0xd200; 0xd200; 0xd200; 0xd200; 0xd200; 0xd200; 0xd200;
     0xd200; 0xd200; 0xd200; 0xd200; 0xd200; 0xd200; 0xd200; 0xd200; 0xd200; 0xd200; 0xd200; 0xd200; 0xd200; 0xd200; 0xd200; 0xd200;
     0x1301; 0x1302; 0x1301; 0x1302; 0xb300; 0xb200; 0x1301; 0x1302; 0; 0; 0x1300; 0x1302; 0x1302; 0x1302; 0xb210; 0x1301;
     0; 0; 0; 0; 0xb200; 0xb200; 0x1301; 0xb210; 0x1301; 0x1301; 0x1301; 0; 0x1301; 0; 0x1301; 0x1301;
     0x1302; 0x1301; 0x1301; 0x1301; 0x1301; 0x1301; 0x1301; 0x1301; 0x1301; 0x1301; 0x1301; 0x1301; 0x1301; 0x1301; 0x1301; 0x1301;
     0x1301; 0x1301; 0; 0x1301; 0x1301; 0x1301; 0x1301; 0x1301; 0x1301; 0x1301; 0x1301; 0x1301; 0x1302; 0x1302; 0x1302; 0x1302;
     0x1302; 0x1302; 0x1302; 0x1302; 0x1302; 0x1302; 0x1302; 0x1302; 0x1302; 0x1302; 0x1302; 0x1302; 0x1302; 0x1302; 0x1302; 0x1302;
     0x1302; 0x1302; 0x1302; 0x1302; 0x1302; 0x1302; 0x1302; 0x1302; 0x1302; 0x1302; 0x1302; 0x1302; 0x1302; 0x1302; 0x1302; 0x1301;
     0x1302; 0x1302; 0x1301; 0x1301; 0x1301; 0x1302; 0x1302; 0x1302; 0x1301; 0x1302; 0x1301; 0x1302; 0x1301; 0x1302; 0x1301; 0x1302;
     0x1301; 0x1302; 0x1301; 0x1302; 0x1301; 0x1302; 0x1301; 0x1302; 0x1301; 0x1302; 0x1301; 0x1302; 0x1301; 0x1302; 0x1301; 0x1302;
     0x1302; 0x1302; 0x1302; 0x1302; 0x1301; 0x1302; 0xb200; 0x1301; 0x1302; 0x1301; 0x1301; 0x1302; 0x1302; 0x1301; 0x1301; 0x1301];
   [0x1301; 0x1301; 0x1301; 0x1301; 0x1301; 0x1301; 0x1301; 0x1301; 0x1301; 0x1301; 0x1301; 0x1301; 0x1301; 0x1301; 0x1301; 0x1301;
     0x1301; 0x1301; 0x1301; 0x1301; 0x1301; 0x1301; 0x1301; 0x1301; 0x1301; 0x1301; 0x1301; 0x1301; 0x1301; 0x1301; 0x1301; 0x1301;
     0x1301; 0x1301; 0x1301; 0x1301; 0x1301; 0x1301; 0x1301; 0x1301; 0x1301; 0x1301; 0x1301; 0x1301; 0x1301; 0x1301; 0x1301; 0x1301;
     0x1302; 0x1302; 0x1302; 0x1302; 0x1302; 0x1302; 0x1302; 0x1302; 0x1302; 0x1302; 0x1302; 0x1302; 0x1302; 0x1302; 0x1302; 0x1302;
     0x1302; 0x1302; 0x1302; 0x1302; 0x1302; 0x1302; 0x1302; 0x1302; 0x1302; 0x1302; 0x1302; 0x1302; 0x1302; 0x1302; 0x1302; 0x1302;
     0x1302; 0x1302; 0x1302; 0x1302; 0x1302; 0x1302; 0x1302; 0x1302; 0x1302; 0x1302; 0x1302; 0x1302; 0x1302; 0x1302; 0x1302; 0x1302;
     0x1301; 0x1302; 0x1301; 0x1302; 0x1301; 0x1302; 0x1301; 0x1302; 0x1301; 0x1302; 0x1301; 0x1302; 0x1301; 0x1302; 0x1301; 0x1302;
     0x1301; 0x1302; 0x1301; 0x1302; 0x1301; 0x1302; 0x1301; 0x1302; 0x1301; 0x1302; 0x1301; 0x1302; 0x1301; 0x1302; 0x1301; 0x1302;
     0x1301; 0x1302; 0x1200; 0xd200; 0xd200; 0xd200; 0xd200; 0xd200; 0xd200; 0xd200; 0x1301; 0x1302; 0x1301; 0x1302; 0x1301; 0x1302;
     0x1301; 0x1302; 0x1301; 0x1302; 0x1301; 0x1302; 0x1301; 0x1302; 0x1301; 0x1302; 0x1301; 0x1302; 0x1301; 0x1302; 0x1301; 0x1302;
     0x1301; 0x1302; 0x1301; 0x1302; 0x1301; 0x1302; 0x1301; 0x1302; 0x1301; 0x1302; 0x1301; 0x1302; 0x1301; 0x1302; 0x1301; 0x1302;
     0x1301; 0x1302; 0x1301; 0x1302; 0x1301; 0x1302; 0x1301; 0x1302; 0x1301; 0x1302; 0x1301; 0x1302; 0x1301; 0x1302; 0x1301; 0x1302;
     0x1301; 0x1301; 0x1302; 0x1301; 0x1302; 0x1301; 0x1302; 0x1301; 0x1302; 0x1301; 0x1302; 0x1301; 0x1302; 0x1301; 0x1302; 0x1302;
     0x1301; 0x1302; 0x1301; 0x1302; 0x1301; 0x1302; 0x1301; 0x1302; 0x1301; 0x1302; 0x1301; 0x1302; 0x1301; 0x1302; 0x1301; 0x1302;
     0x1301; 0x1302; 0x1301; 0x1302; 0x1301; 0x1302; 0x1301; 0x1302; 0x1301; 0x1302; 0x1301; 0x1302; 0x1301; 0x1302; 0x1301; 0x1302;
     0x1301; 0x1302; 0x1301; 0x1302; 0x1301; 0x1302; 0x1301; 0x1302; 0x1301; 0x1302; 0x1301; 0x1302; 0x1301; 0x1302; 0x1301; 0x1302];
   [0x1301; 0x1302; 0x1301; 0x1302; 0x1301; 0x1302; 0x1301; 0x1302; 0x1301; 0x1302; 0x1301; 0x1302; 0x1301; 0x1302; 0x1301; 0x1302;
     0x1301; 0x1302; 0x1301; 0x1302; 0x1301; 0x1302; 0x1301; 0x1302; 0x1301; 0x1302; 0x1301; 0x1302; 0x1301; 0x1302; 0x1301; 0x1302;
     0x1301; 0x1302; 0x1301; 0x1302; 0x1301; 0x1302; 0x1301; 0x1302; 0x1301; 0x1302; 0x1301; 0x1302; 0x1301; 0x1302; 0x1301; 0x1302;
     0; 0x1301; 0x1301; 0x1301; 0x1301; 0x1301; 0x1301; 0x1301; 0x1301; 0x1301; 0x1301; 0x1301; 0x1301; 0x1301; 0x1301; 0x1301;
     0x1301; 0x1301; 0x1301; 0x1301; 0x1301; 0x1301; 0x1301; 0x1301; 0x1301; 0x1301; 0x1301; 0x1301; 0x1301; 0x1301; 0x1301; 0x1301;
     0x1301; 0x1301; 0x1301; 0x1301; 0x1301; 0x1301; 0x1301; 0; 0; 0x1300; 0x1210; 0x1210; 0x1210; 0x1210; 0x1210; 0x1210;
     0; 0x1302; 0x1302; 0x1302; 0x1302; 0x1302; 0x1302; 0x1302; 0x1302; 0x1302; 0x1302; 0x1302; 0x1302; 0x1302; 0x1302; 0x1302;
     0x1302; 0x1302; 0x1302; 0x1302; 0x1302; 0x1302; 0x1302; 0x1302; 0x1302; 0x1302; 0x1302; 0x1302; 0x1302; 0x1302; 0x1302; 0x1302;
     0x1302; 0x1302; 0x1302; 0x1302; 0x1302; 0x1302; 0x1302; 0x1302; 0; 0x1210; 0xb210; 0; 0; 0xb200; 0xb200; 0x5200;
     0; 0xd200; 0xd200; 0xd200; 0xd200; 0xd200; 0xd200; 0xd200; 0xd200; 0xd200; 0xd200; 0xd200; 0xd200; 0xd200; 0xd200; 0xd200;
     0xd200; 0xd200; 0xd200; 0xd200; 0xd200; 0xd200; 0xd200; 0xd200; 0xd200; 0xd200; 0xd200; 0xd200; 0xd200; 0xd200; 0xd200; 0xd200;
     0xd200; 0xd200; 0xd200; 0xd200; 0xd200; 0xd200; 0xd200; 0xd200; 0xd200; 0xd200; 0xd200; 0xd200; 0xd200; 0xd200; 0x2210; 0xd200;
     0x2210; 0xd200; 0xd200; 0x2210; 0xd200; 0xd200; 0x2210; 0xd200; 0; 0; 0; 0; 0; 0; 0; 0;
     0x2300; 0x2300; 0x2300; 0x2300; 0x2300; 0x2300; 0x2300; 0x2300; 0x2300; 0x2300; 0x2300; 0x2300; 0x2300; 0x2300; 0x2300; 0x2300;
     0x2300; 0x2300; 0x2300; 0x2300; 0x2300; 0x2300; 0x2300; 0x2300; 0x2300; 0x2300; 0x2300; 0; 0; 0; 0; 0;
     0x2300; 0x2300; 0x2300; 0x2210; 0x2210; 0; 0; 0; 0; 0; 0; 0; 0; 0; 0; 0];
   [0x6220; 0x6220; 0x6220; 0x6220; 0x6220; 0x6220; 0xb200; 0xb200; 0xc200; 0x5210; 0x5210; 0xc200; 0x7210; 0xc210; 0xb200; 0xb200;
     0xd200; 0xd200; 0xd200; 0xd200; 0xd200; 0xd200; 0xd200; 0xd200; 0xd200; 0xd200; 0xd200; 0xc210; 0xc220; 0; 0xc210; 0xc210;
     0xc300; 0xc300; 0xc300; 0xc300; 0xc300; 0xc300; 0xc300; 0xc300; 0xc300; 0xc300; 0xc300; 0xc300; 0xc300; 0xc300; 0xc300; 0xc300;
     0xc300; 0xc300; 0xc300; 0xc300; 0xc300; 0xc300; 0xc300; 0xc300; 0xc300; 0xc300; 0xc300; 0xc300; 0xc300; 0xc300; 0xc300; 0xc300;
     0xc300; 0xc300; 0xc300; 0xc300; 0xc300; 0xc300; 0xc300; 0xc300; 0xc300; 0xc300; 0xc300; 0xd200; 0xd200; 0xd200; 0xd200; 0xd200;
     0xd200; 0xd200; 0xd200; 0xd200; 0xd200; 0xd200; 0xd200; 0xd200; 0xd200; 0xd200; 0xd200; 0xd200; 0xd200; 0xd200; 0xd200; 0xd200;
     0x6204; 0x6204; 0x6204; 0x6204; 0x6204; 0x6204; 0x6204; 0x6204; 0x6204; 0x6204; 0x5210; 0x6210; 0x6210; 0xc210; 0xc300; 0xc300;
     0xd200; 0xc300; 0xc300; 0xc300; 0xc300; 0xc300; 0xc300; 0xc300; 0xc300; 0xc300; 0xc300; 0xc300; 0xc300; 0xc300; 0xc300; 0xc300;
     0xc300; 0xc300; 0xc300; 0xc300; 0xc300; 0xc300; 0xc300; 0xc300; 0xc300; 0xc300; 0xc300; 0xc300; 0xc300; 0xc300; 0xc300; 0xc300;
     0xc300; 0xc300; 0xc300; 0xc300; 0xc300; 0xc300; 0xc300; 0xc300; 0xc300; 0xc300; 0xc300; 0xc300; 0xc300; 0xc300; 0xc300; 0xc300;
     0xc300; 0xc300; 0xc300; 0xc300; 0xc300; 0xc300; 0xc300; 0xc300; 0xc300; 0xc300; 0xc300; 0xc300; 0xc300; 0xc300; 0xc300; 0xc300;
     0xc300; 0xc300; 0xc300; 0xc300; 0xc300; 0xc300; 0xc300; 0xc300; 0xc300; 0xc300; 0xc300; 0xc300; 0xc300; 0xc300; 0xc300; 0xc300;
     0xc300; 0xc300; 0xc300; 0xc300; 0xc300; 0xc300; 0xc300; 0xc300; 0xc300; 0xc300; 0xc300; 0xc300; 0xc300; 0xc300; 0xc300; 0xc300;
     0xc300; 0xc300; 0xc300; 0xc300; 0xc210; 0xc300; 0xd200; 0xd200; 0xd200; 0xd200; 0xd200; 0xd200; 0xd200; 0x6220; 0xb200; 0xd200;
     0xd200; 0xd200; 0xd200; 0xd200; 0xd200; 0xc300; 0xc300; 0xd200; 0xd200; 0xb200; 0xd200; 0xd200; 0xd200; 0xd200; 0xc300; 0xc300;
     0x3204; 0x3204; 0x3204; 0x3204; 0x3204; 0x3204; 0x3204; 0x3204; 0x3204; 0x3204; 0xc300; 0xc300; 0xc300; 0xc200; 0xc200; 0xc300];
   [0xc210; 0xc210; 0xc210; 0xc210; 0xc210; 0xc210; 0xc210; 0xc210; 0xc210; 0xc210; 0xc210; 0xc210; 0xc210; 0xc210; 0; 0xc220;
     0xc300; 0xd200; 0xc300; 0xc300; 0xc300; 0xc300; 0xc300; 0xc300; 0xc300; 0xc300; 0xc300; 0xc300; 0xc300; 0xc300; 0xc300; 0xc300;
     0xc300; 0xc300; 0xc300; 0xc300; 0xc300; 0xc300; 0xc300; 0xc300; 0xc300; 0xc300; 0xc300; 0xc300; 0xc300; 0xc300; 0xc300; 0xc300;
     0xd200; 0xd200; 0xd200; 0xd200; 0xd200; 0xd200; 0xd200; 0xd200; 0xd200; 0xd200; 0xd200; 0xd200; 0xd200; 0xd200; 0xd200; 0xd200;
     0xd200; 0xd200; 0xd200; 0xd200; 0xd200; 0xd200; 0xd200; 0xd200; 0xd200; 0xd200; 0xd200; 0; 0; 0xc300; 0xc300; 0xc300;
     0xc300; 0xc300; 0xc300; 0xc300; 0xc300; 0xc300; 0xc300; 0xc300; 0xc300; 0xc300; 0xc300; 0xc300; 0xc300; 0xc300; 0xc300; 0xc300;
     0xc300; 0xc300; 0xc300; 0xc300; 0xc300; 0xc300; 0xc300; 0xc300; 0xc300; 0xc300; 0xc300; 0xc300; 0xc300; 0xc300; 0xc300; 0xc300;
     0xc300; 0xc300; 0xc300; 0xc300; 0xc300; 0xc300; 0xc300; 0xc300; 0xc300; 0xc300; 0xc300; 0xc300; 0xc300; 0xc300; 0xc300; 0xc300;
     0xc300; 0xc300; 0xc300; 0xc300; 0xc300; 0xc300; 0xc300; 0xc300; 0xc300; 0xc300; 0xc300; 0xc300; 0xc300; 0xc300; 0xc300; 0xc300;
     0xc300; 0xc300; 0xc300; 0xc300; 0xc300; 0xc300; 0xc300; 0xc300; 0xc300; 0xc300; 0xc300; 0xc300; 0xc300; 0xc300; 0xc300; 0xc300;
     0xc300; 0xc300; 0xc300; 0xc300; 0xc300; 0xc300; 0xd200; 0xd200; 0xd200; 0xd200; 0xd200; 0xd200; 0xd200; 0xd200; 0xd200; 0xd200;
     0xd200; 0xc300; 0; 0; 0; 0; 0; 0; 0; 0; 0; 0; 0; 0; 0; 0;
     0x2204; 0x2204; 0x2204; 0x2204; 0x2204; 0x2204; 0x2204; 0x2204; 0x2204; 0x2204; 0x2300; 0x2300; 0x2300; 0x2300; 0x2300; 0x2300;
     0x2300; 0x2300; 0x2300; 0x2300; 0x2300; 0x2300; 0x2300; 0x2300; 0x2300; 0x2300; 0x2300; 0x2300; 0x2300; 0x2300; 0x2300; 0x2300;
     0x2300; 0x2300; 0x2300; 0x2300; 0x2300; 0x2300; 0x2300; 0x2300; 0x2300; 0x2300; 0x2300; 0xd200; 0xd200; 0xd200; 0xd200; 0xd200;
     0xd200; 0xd200; 0xd200; 0xd200; 0x2300; 0x2300; 0xb200; 0xb210; 0xb210; 0xb210; 0x2300; 0; 0; 0; 0; 0];
   [0x2300; 0x2300; 0x2300; 0x2300; 0x2300; 0x2300; 0x2300; 0x2300; 0x2300; 0x2300; 0x2300; 0x2300; 0x2300; 0x2300; 0x2300; 0x2300;
     0x2300; 0x2300; 0x2300; 0x2300; 0x2300; 0x2300; 0xd200; 0xd200; 0xd200; 0xd200; 0x2300; 0xd200; 0xd200; 0xd200; 0xd200; 0xd200;
     0xd200; 0xd200; 0xd200; 0xd200; 0x2300; 0xd200; 0xd200; 0xd200; 0x2300; 0xd200; 0xd200; 0xd200; 0xd200; 0xd200; 0; 0;
     0x2210; 0x2210; 0x2210; 0x2210; 0x2210; 0x2210; 0x2210; 0x2210; 0x2210; 0x2210; 0x2210; 0x2210; 0x2210; 0x2210; 0x2210; 0;
     0x2300; 0x2300; 0x2300; 0x2300; 0x2300; 0x2300; 0x2300; 0x2300; 0x2300; 0x2300; 0x2300; 0x2300; 0x2300; 0x2300; 0x2300; 0x2300;
     0x2300; 0x2300; 0x2300; 0x2300; 0x2300; 0x2300; 0x2300; 0x2300; 0x2300; 0xd200; 0xd200; 0xd200; 0; 0; 0x2210; 0;
     0; 0; 0; 0; 0; 0; 0; 0; 0; 0; 0; 0; 0; 0; 0; 0;
     0; 0; 0; 0; 0; 0; 0; 0; 0; 0; 0; 0; 0; 0; 0; 0;
     0; 0; 0; 0; 0; 0; 0; 0; 0; 0; 0; 0; 0; 0; 0; 0;
     0; 0; 0; 0; 0; 0; 0; 0; 0; 0; 0; 0; 0; 0; 0; 0;
     0xc300; 0xc300; 0xc300; 0xc300; 0xc300; 0xc300; 0xc300; 0xc300; 0xc300; 0xc300; 0xc300; 0xc300; 0xc300; 0xc300; 0xc300; 0xc300;
     0xc300; 0xc300; 0xc300; 0xc300; 0xc300; 0; 0xc300; 0xc300; 0xc300; 0xc300; 0xc300; 0xc300; 0xc300; 0xc300; 0; 0;
     0; 0; 0; 0; 0; 0; 0; 0; 0; 0; 0; 0; 0; 0; 0; 0;
     0; 0; 0; 0; 0xd200; 0xd200; 0xd200; 0xd200; 0xd200; 0xd200; 0xd200; 0xd200; 0xd200; 0xd200; 0xd200; 0xd200;
     0xd200; 0xd200; 0x6220; 0xd200; 0xd200; 0xd200; 0xd200; 0xd200; 0xd200; 0xd200; 0xd200; 0xd200; 0xd200; 0xd200; 0xd200; 0xd200;
     0xd200; 0xd200; 0xd200; 0xd200; 0xd200; 0xd200; 0xd200; 0xd200; 0xd200; 0xd200; 0xd200; 0xd200; 0xd200; 0xd200; 0xd200; 0xd200];
   [0xd200; 0xd200; 0xd200; 0x1200; 0x1300; 0x1300; 0x1300; 0x1300; 0x1300; 0x1300; 0x1300; 0x1300; 0x1300; 0x1300; 0x1300; 0x1300;
     0x1300; 0x1300; 0x1300; 0x1300; 0x1300; 0x1300; 0x1300; 0x1300; 0x1300; 0x1300; 0x1300; 0x1300; 0x1300; 0x1300; 0x1300; 0x1300;
     0x1300; 0x1300; 0x1300; 0x1300; 0x1300; 0x1300; 0x1300; 0x1300; 0x1300; 0x1300; 0x1300; 0x1300; 0x1300; 0x1300; 0x1300; 0x1300;
     0x1300; 0x1300; 0x1300; 0x1300; 0x1300; 0x1300; 0x1300; 0x1300; 0x1300; 0x1300; 0xd200; 0x1200; 0xd200; 0x1300; 0x1200; 0x1200;
     0x1200; 0xd200; 0xd200; 0xd200; 0xd200; 0xd200; 0xd200; 0xd200; 0xd200; 0x1200; 0x1200; 0x1200; 0x1200; 0xd200; 0x1200; 0x1200;
     0x1300; 0xd200; 0xd200; 0xd200; 0xd200; 0xd200; 0xd200; 0xd200; 0x1300; 0x1300; 0x1300; 0x1300; 0x1300; 0x1300; 0x1300; 0x1300;
     0x1300; 0x1300; 0xd200; 0xd200; 0x1210; 0x1210; 0x1204; 0x1204; 0x1204; 0x1204; 0x1204; 0x1204; 0x1204; 0x1204; 0x1204; 0x1204;
     0x1210; 0x1300; 0x1300; 0x1300; 0x1300; 0x1300; 0x1300; 0x1300; 0x1300; 0x1300; 0x1300; 0x1300; 0x1300; 0x1300; 0x1300; 0x1300;
     0x1300; 0xd200; 0x1200; 0x1200; 0; 0x1300; 0x1300; 0x1300; 0x1300; 0x1300; 0x1300; 0x1300; 0x1300; 0; 0; 0x1300;
     0x1300; 0; 0; 0x1300; 0x1300; 0x1300; 0x1300; 0x1300; 0x1300; 0x1300; 0x1300; 0x1300; 0x1300; 0x1300; 0x1300; 0x1300;
     0x1300; 0x1300; 0x1300; 0x1300; 0x1300; 0x1300; 0x1300; 0x1300; 0x1300; 0; 0x1300; 0x1300; 0x1300; 0x1300; 0x1300; 0x1300;
     0x1300; 0; 0x1300; 0; 0; 0; 0x1300; 0x1300; 0x1300; 0x1300; 0; 0; 0xd200; 0x1300; 0x1200; 0x1200;
     0x1200; 0xd200; 0xd200; 0xd200; 0xd200; 0; 0; 0x1200; 0x1200; 0; 0; 0x1200; 0x1200; 0xd200; 0x1300; 0;
     0; 0; 0; 0; 0; 0; 0; 0x1200; 0; 0; 0; 0; 0x1300; 0x1300; 0; 0x1300;
     0x1300; 0x1300; 0xd200; 0xd200; 0; 0; 0x1204; 0x1204; 0x1204; 0x1204; 0x1204; 0x1204; 0x1204; 0x1204; 0x1204; 0x1204;
     0x1300; 0x1300; 0x5200; 0x5200; 0x1200; 0x1200; 0x1200; 0x1200; 0x1200; 0x1200; 0x1200; 0x5200; 0; 0; 0; 0];
   [0; 0xd200; 0xd200; 0x1200; 0; 0x1300; 0x1300; 0x1300; 0x1300; 0x1300; 0x1300; 0; 0; 0; 0; 0x1300;
     0x1300; 0; 0; 0x1300; 0x1300; 0x1300; 0x1300; 0x1300; 0x1300; 0x1300; 0x1300; 0x1300; 0x1300; 0x1300; 0x1300; 0x1300;
     0x1300; 0x1300; 0x1300; 0x1300; 0x1300; 0x1300; 0x1300; 0x1300; 0x1300; 0; 0x1300; 0x1300; 0x1300; 0x1300; 0x1300; 0x1300;
     0x1300; 0; 0x1300; 0x1300; 0; 0x1300; 0x1300; 0; 0x1300; 0x1300; 0; 0; 0xd200; 0; 0x1200; 0x1200;
     0x1200; 0xd200; 0xd200; 0; 0; 0; 0; 0xd200; 0xd200; 0; 0; 0xd200; 0xd200; 0xd200; 0; 0;
     0; 0xd200; 0; 0; 0; 0; 0; 0; 0; 0x1300; 0x1300; 0x1300; 0x1300; 0; 0x1300; 0;
     0; 0; 0; 0; 0; 0; 0x1204; 0x1204; 0x1204; 0x1204; 0x1204; 0x1204; 0x1204; 0x1204; 0x1204; 0x1204;
     0xd200; 0xd200; 0x1300; 0x1300; 0x1300; 0xd200; 0; 0; 0; 0; 0; 0; 0; 0; 0; 0;
     0; 0xd200; 0xd200; 0x1200; 0; 0x1300; 0x1300; 0x1300; 0x1300; 0x1300; 0x1300; 0x1300; 0x1300; 0x1300; 0; 0x1300;
     0x1300; 0x1300; 0; 0x1300; 0x1300; 0x1300; 0x1300; 0x1300; 0x1300; 0x1300; 0x1300; 0x1300; 0x1300; 0x1300; 0x1300; 0x1300;
     0x1300; 0x1300; 0x1300; 0x1300; 0x1300; 0x1300; 0x1300; 0x1300; 0x1300; 0; 0x1300; 0x1300; 0x1300; 0x1300; 0x1300; 0x1300;
     0x1300; 0; 0x1300; 0x1300; 0; 0x1300; 0x1300; 0x1300; 0x1300; 0x1300; 0; 0; 0xd200; 0x1300; 0x1200; 0x1200;
     0x1200; 0xd200; 0xd200; 0xd200; 0xd200; 0xd200; 0; 0xd200; 0xd200; 0x1200; 0; 0x1200; 0x1200; 0xd200; 0; 0;
     0x1300; 0; 0; 0; 0; 0; 0; 0; 0; 0; 0; 0; 0; 0; 0; 0;
     0x1300; 0x1300; 0xd200; 0xd200; 0; 0; 0x1204; 0x1204; 0x1204; 0x1204; 0x1204; 0x1204; 0x1204; 0x1204; 0x1204; 0x1204;
     0x1210; 0x5200; 0; 0; 0; 0; 0; 0; 0; 0x1300; 0; 0; 0; 0; 0; 0];
   [0; 0xd200; 0x1200; 0x1200; 0; 0x1300; 0x1300; 0x1300; 0x1300; 0x1300; 0x1300; 0x1300; 0x1300; 0; 0; 0x1300;
     0x1300; 0; 0; 0x1300; 0x1300; 0x1300; 0x1300; 0x1300; 0x1300; 0x1300; 0x1300; 0x1300; 0x1300; 0x1300; 0x1300; 0x1300;
     0x1300; 0x1300; 0x1300; 0x1300; 0x1300; 0x1300; 0x1300; 0x1300; 0x1300; 0; 0x1300; 0x1300; 0x1300; 0x1300; 0x1300; 0x1300;
     0x1300; 0; 0x1300; 0x1300; 0; 0x1300; 0x1300; 0x1300; 0x1300; 0x1300; 0; 0; 0xd200; 0x1300; 0x1200; 0xd200;
     0x1200; 0xd200; 0xd200; 0xd200; 0xd200; 0; 0; 0x1200; 0x1200; 0; 0; 0x1200; 0x1200; 0xd200; 0; 0;
     0; 0; 0; 0; 0; 0; 0xd200; 0x1200; 0; 0; 0; 0; 0x1300; 0x1300; 0; 0x1300;
     0x1300; 0x1300; 0xd200; 0xd200; 0; 0; 0x1204; 0x1204; 0x1204; 0x1204; 0x1204; 0x1204; 0x1204; 0x1204; 0x1204; 0x1204;
     0x1200; 0x1300; 0x1200; 0x1200; 0x1200; 0x1200; 0x1200; 0x1200; 0; 0; 0; 0; 0; 0; 0; 0;
     0; 0; 0xd200; 0x1300; 0; 0x1300; 0x1300; 0x1300; 0x1300; 0x1300; 0x1300; 0; 0; 0; 0x1300; 0x1300;
     0x1300; 0; 0x1300; 0x1300; 0x1300; 0x1300; 0; 0; 0; 0x1300; 0x1300; 0; 0x1300; 0; 0x1300; 0x1300;
     0; 0; 0; 0x1300; 0x1300; 0; 0; 0; 0x1300; 0x1300; 0x1300; 0; 0; 0; 0x1300; 0x1300;
     0x1300; 0x1300; 0x1300; 0x1300; 0x1300; 0x1300; 0x1300; 0x1300; 0x1300; 0x1300; 0; 0; 0; 0; 0x1200; 0x1200;
     0xd200; 0x1200; 0x1200; 0; 0; 0; 0x1200; 0x1200; 0x1200; 0; 0x1200; 0x1200; 0x1200; 0xd200; 0; 0;
     0x1300; 0; 0; 0; 0; 0; 0; 0x1200; 0; 0; 0; 0; 0; 0; 0; 0;
     0; 0; 0; 0; 0; 0; 0x1204; 0x1204; 0x1204; 0x1204; 0x1204; 0x1204; 0x1204; 0x1204; 0x1204; 0x1204;
     0x1200; 0x1200; 0x1200; 0xb200; 0xb200; 0xb200; 0xb200; 0xb200; 0xb200; 0x5200; 0xb200; 0; 0; 0; 0; 0];
   [0xd200; 0x1200; 0x1200; 0x1200; 0; 0x1300; 0x1300; 0x1300; 0x1300; 0x1300; 0x1300; 0x1300; 0x1300; 0; 0x1300; 0x1300;
     0x1300; 0; 0x1300; 0x1300; 0x1300; 0x1300; 0x1300; 0x1300; 0x1300; 0x1300; 0x1300; 0x1300; 0x1300; 0x1300; 0x1300; 0x1300;
     0x1300; 0x1300; 0x1300; 0x1300; 0x1300; 0x1300; 0x1300; 0x1300; 0x1300; 0; 0x1300; 0x1300; 0x1300; 0x1300; 0x1300; 0x1300;
     0x1300; 0x1300; 0x1300; 0x1300; 0x1300; 0x1300; 0x1300; 0x1300; 0x1300; 0x1300; 0; 0; 0; 0x1300; 0xd200; 0xd200;
     0xd200; 0x1200; 0x1200; 0x1200; 0x1200; 0; 0xd200; 0xd200; 0xd200; 0; 0xd200; 0xd200; 0xd200; 0xd200; 0; 0;
     0; 0; 0; 0; 0; 0xd200; 0xd200; 0; 0x1300; 0x1300; 0x1300; 0; 0; 0; 0; 0;
     0x1300; 0x1300; 0xd200; 0xd200; 0; 0; 0x1204; 0x1204; 0x1204; 0x1204; 0x1204; 0x1204; 0x1204; 0x1204; 0x1204; 0x1204;
     0; 0; 0; 0; 0; 0; 0; 0; 0xb200; 0xb200; 0xb200; 0xb200; 0xb200; 0xb200; 0xb200; 0x1200;
     0x1300; 0xd200; 0x1200; 0x1200; 0; 0x1300; 0x1300; 0x1300; 0x1300; 0x1300; 0x1300; 0x1300; 0x1300; 0; 0x1300; 0x1300;
     0x1300; 0; 0x1300; 0x1300; 0x1300; 0x1300; 0x1300; 0x1300; 0x1300; 0x1300; 0x1300; 0x1300; 0x1300; 0x1300; 0x1300; 0x1300;
     0x1300; 0x1300; 0x1300; 0x1300; 0x1300; 0x1300; 0x1300; 0x1300; 0x1300; 0; 0x1300; 0x1300; 0x1300; 0x1300; 0x1300; 0x1300;
     0x1300; 0x1300; 0x1300; 0x1300; 0; 0x1300; 0x1300; 0x1300; 0x1300; 0x1300; 0; 0; 0xd200; 0x1300; 0x1200; 0x1200;
     0x1200; 0x1200; 0x1200; 0x1200; 0x1200; 0; 0x1200; 0x1200; 0x1200; 0; 0x1200; 0x1200; 0xd200; 0xd200; 0; 0;
     0; 0; 0; 0; 0; 0x1200; 0x1200; 0; 0; 0; 0; 0; 0; 0; 0x1300; 0;
     0x1300; 0x1300; 0xd200; 0xd200; 0; 0; 0x1204; 0x1204; 0x1204; 0x1204; 0x1204; 0x1204; 0x1204; 0x1204; 0x1204; 0x1204;
     0; 0x1300; 0x1300; 0; 0; 0; 0; 0; 0; 0; 0; 0; 0; 0; 0; 0];
   [0; 0xd200; 0x1200; 0x1200; 0; 0x1300; 0x1300; 0x1300; 0x1300; 0x1300; 0x1300; 0x1300; 0x1300; 0; 0x1300; 0x1300;
     0x1300; 0; 0x1300; 0x1300; 0x1300; 0x1300; 0x1300; 0x1300; 0x1300; 0x1300; 0x1300; 0x1300; 0x1300; 0x1300; 0x1300; 0x1300;
     0x1300; 0x1300; 0x1300; 0x1300; 0x1300; 0x1300; 0x1300; 0x1300; 0x1300; 0x1300; 0x1300; 0x1300; 0x1300; 0x1300; 0x1300; 0x1300;
     0x1300; 0x1300; 0x1300; 0x1300; 0x1300; 0x1300; 0x1300; 0x1300; 0x1300; 0x1300; 0x1300; 0; 0; 0x1300; 0x1200; 0x1200;
     0x1200; 0xd200; 0xd200; 0xd200; 0xd200; 0; 0x1200; 0x1200; 0x1200; 0; 0x1200; 0x1200; 0x1200; 0xd200; 0x1300; 0x1200;
     0; 0; 0; 0; 0x1300; 0x1300; 0x1300; 0x1200; 0x1200; 0x1200; 0x1200; 0x1200; 0x1200; 0x1200; 0x1200; 0x1300;
     0x1300; 0x1300; 0xd200; 0xd200; 0; 0; 0x1204; 0x1204; 0x1204; 0x1204; 0x1204; 0x1204; 0x1204; 0x1204; 0x1204; 0x1204;
     0x1200; 0x1200; 0x1200; 0x1200; 0x1200; 0x1200; 0x1200; 0x1200; 0x1200; 0x1200; 0x1300; 0x1300; 0x1300; 0x1300; 0x1300; 0x1300;
     0; 0; 0x1200; 0x1200; 0; 0x1300; 0x1300; 0x1300; 0x1300; 0x1300; 0x1300; 0x1300; 0x1300; 0x1300; 0x1300; 0x1300;
     0x1300; 0x1300; 0x1300; 0x1300; 0x1300; 0x1300; 0x1300; 0; 0; 0; 0x1300; 0x1300; 0x1300; 0x1300; 0x1300; 0x1300;
     0x1300; 0x1300; 0x1300; 0x1300; 0x1300; 0x1300; 0x1300; 0x1300; 0x1300; 0x1300; 0x1300; 0x1300; 0x1300; 0x1300; 0x1300; 0x1300;
     0x1300; 0x1300; 0; 0x1300; 0x1300; 0x1300; 0x1300; 0x1300; 0x1300; 0x1300; 0x1300; 0x1300; 0; 0x1300; 0; 0;
     0x1300; 0x1300; 0x1300; 0x1300; 0x1300; 0x1300; 0x1300; 0; 0; 0; 0xd200; 0; 0; 0; 0; 0x1200;
     0x1200; 0x1200; 0xd200; 0xd200; 0xd200; 0; 0xd200; 0; 0x1200; 0x1200; 0x1200; 0x1200; 0x1200; 0x1200; 0x1200; 0x1200;
     0; 0; 0; 0; 0; 0; 0x1204; 0x1204; 0x1204; 0x1204; 0x1204; 0x1204; 0x1204; 0x1204; 0x1204; 0x1204;
     0; 0; 0x1200; 0x1200; 0x1210; 0; 0; 0; 0; 0; 0; 0; 0; 0; 0; 0];
   [0; 0x1300; 0x1300; 0x1300; 0x1300; 0x1300; 0x1300; 0x1300; 0x1300; 0x1300; 0x1300; 0x1300; 0x1300; 0x1300; 0x1300; 0x1300;
     0x1300; 0x1300; 0x1300; 0x1300; 0x1300; 0x1300; 0x1300; 0x1300; 0x1300; 0x1300; 0x1300; 0x1300; 0x1300; 0x1300; 0x1300; 0x1300;
     0x1300; 0x1300; 0x1300; 0x1300; 0x1300; 0x1300; 0x1300; 0x1300; 0x1300; 0x1300; 0x1300; 0x1300; 0x1300; 0x1300; 0x1300; 0x1300;
     0x1300; 0xd200; 0x1300; 0x1300; 0xd200; 0xd200; 0xd200; 0xd200; 0xd200; 0xd200; 0xd200; 0; 0; 0; 0; 0x5200;
     0x1300; 0x1300; 0x1300; 0x1300; 0x1300; 0x1300; 0x1300; 0xd200; 0xd200; 0xd200; 0xd200; 0xd200; 0xd200; 0xd200; 0xd200; 0x1210;
     0x1204; 0x1204; 0x1204; 0x1204; 0x1204; 0x1204; 0x1204; 0x1204; 0x1204; 0x1204; 0x1210; 0x1210; 0; 0; 0; 0;
     0; 0; 0; 0; 0; 0; 0; 0; 0; 0; 0; 0; 0; 0; 0; 0;
     0; 0; 0; 0; 0; 0; 0; 0; 0; 0; 0; 0; 0; 0; 0; 0;
     0; 0x1300; 0x1300; 0; 0x1300; 0; 0; 0x1300; 0x1300; 0; 0x1300; 0; 0; 0x1300; 0; 0;
     0; 0; 0; 0; 0x1300; 0x1300; 0x1300; 0x1300; 0; 0x1300; 0x1300; 0x1300; 0x1300; 0x1300; 0x1300; 0x1300;
     0; 0x1300; 0x1300; 0x1300; 0; 0x1300; 0; 0x1300; 0; 0; 0x1300; 0x1300; 0; 0x1300; 0x1300; 0x1300;
     0x1300; 0xd200; 0x1300; 0x1300; 0xd200; 0xd200; 0xd200; 0xd200; 0xd200; 0xd200; 0; 0xd200; 0xd200; 0x1300; 0; 0;
     0x1300; 0x1300; 0x1300; 0x1300; 0x1300; 0; 0x1300; 0; 0xd200; 0xd200; 0xd200; 0xd200; 0xd200; 0xd200; 0; 0;
     0x1204; 0x1204; 0x1204; 0x1204; 0x1204; 0x1204; 0x1204; 0x1204; 0x1204; 0x1204; 0; 0; 0x1300; 0x1300; 0x1300; 0x1300;
     0; 0; 0; 0; 0; 0; 0; 0; 0; 0; 0; 0; 0; 0; 0; 0;
     0; 0; 0; 0; 0; 0; 0; 0; 0; 0; 0; 0; 0; 0; 0; 0];
   [0x1300; 0x1200; 0x1200; 0x1200; 0x1210; 0x1210; 0x1210; 0x1210; 0x1210; 0x1210; 0x1210; 0x1210; 0x1210; 0x1210; 0x1210; 0x1210;
     0x1210; 0x1210; 0x1210; 0x1200; 0x1210; 0x1200; 0x1200; 0x1200; 0xd200; 0xd200; 0x1200; 0x1200; 0x1200; 0x1200; 0x1200; 0x1200;
     0x1204; 0x1204; 0x1204; 0x1204; 0x1204; 0x1204; 0x1204; 0x1204; 0x1204; 0x1204; 0x1200; 0x1200; 0x1200; 0x1200; 0x1200; 0x1200;
     0x1200; 0x1200; 0x1200; 0x1200; 0x1200; 0xd200; 0x1200; 0xd200; 0x1200; 0xd200; 0xb210; 0xb210; 0xb210; 0xb210; 0x1200; 0x1200;
     0x1300; 0x1300; 0x1300; 0x1300; 0x1300; 0x1300; 0x1300; 0x1300; 0; 0x1300; 0x1300; 0x1300; 0x1300; 0x1300; 0x1300; 0x1300;
     0x1300; 0x1300; 0x1300; 0x1300; 0x1300; 0x1300; 0x1300; 0x1300; 0x1300; 0x1300; 0x1300; 0x1300; 0x1300; 0x1300; 0x1300; 0x1300;
     0x1300; 0x1300; 0x1300; 0x1300; 0x1300; 0x1300; 0x1300; 0x1300; 0x1300; 0x1300; 0x1300; 0x1300; 0x1300; 0; 0; 0;
     0; 0xd200; 0xd200; 0xd200; 0xd200; 0xd200; 0xd200; 0xd200; 0xd200; 0xd200; 0xd200; 0xd200; 0xd200; 0xd200; 0xd200; 0x1200;
     0xd200; 0xd200; 0xd200; 0xd200; 0xd200; 0x1210; 0xd200; 0xd200; 0x1300; 0x1300; 0x1300; 0x1300; 0x1300; 0xd200; 0xd200; 0xd200;
     0xd200; 0xd200; 0xd200; 0xd200; 0xd200; 0xd200; 0xd200; 0xd200; 0; 0xd200; 0xd200; 0xd200; 0xd200; 0xd200; 0xd200; 0xd200;
     0xd200; 0xd200; 0xd200; 0xd200; 0xd200; 0xd200; 0xd200; 0xd200; 0xd200; 0xd200; 0xd200; 0xd200; 0xd200; 0xd200; 0xd200; 0xd200;
     0xd200; 0xd200; 0xd200; 0xd200; 0xd200; 0xd200; 0xd200; 0xd200; 0xd200; 0xd200; 0xd200; 0xd200; 0xd200; 0; 0x1200; 0x1200;
     0x1200; 0x1200; 0x1200; 0x1200; 0x1200; 0x1200; 0xd200; 0x1200; 0x1200; 0x1200; 0x1200; 0x1200; 0x1200; 0; 0x1200; 0x1200;
     0x1210; 0x1210; 0x1210; 0x1210; 0x1210; 0x1200; 0x1200; 0x1200; 0x1200; 0x1210; 0x1210; 0; 0; 0; 0; 0;
     0; 0; 0; 0; 0; 0; 0; 0; 0; 0; 0; 0; 0; 0; 0; 0;
     0; 0; 0; 0; 0; 0; 0; 0; 0; 0; 0; 0; 0; 0; 0; 0];
   [0x1300; 0x1300; 0x1300; 0x1300; 0x1300; 0x1300; 0x1300; 0x1300; 0x1300; 0x1300; 0x1300; 0x1300; 0x1300; 0x1300; 0x1300; 0x1300;
     0x1300; 0x1300; 0x1300; 0x1300; 0x1300; 0x1300; 0x1300; 0x1300; 0x1300; 0x1300; 0x1300; 0x1300; 0x1300; 0x1300; 0x1300; 0x1300;
     0x1300; 0x1300; 0x1300; 0x1300; 0x1300; 0x1300; 0x1300; 0x1300; 0x1300; 0x1300; 0x1300; 0x1200; 0x1200; 0xd200; 0xd200; 0xd200;
     0xd200; 0x1200; 0xd200; 0xd200; 0xd200; 0xd200; 0xd200; 0xd200; 0x1200; 0xd200; 0xd200; 0x1200; 0x1200; 0xd200; 0xd200; 0x1300;
     0x1204; 0x1204; 0x1204; 0x1204; 0x1204; 0x1204; 0x1204; 0x1204; 0x1204; 0x1204; 0x1210; 0x1210; 0x1210; 0x1210; 0x1210; 0x1210;
     0x1300; 0x1300; 0x1300; 0x1300; 0x1300; 0x1300; 0x1200; 0x1200; 0xd200; 0xd200; 0x1300; 0x1300; 0x1300; 0x1300; 0xd200; 0xd200;
     0xd200; 0x1300; 0x1200; 0x1200; 0x1200; 0x1300; 0x1300; 0x1200; 0x1200; 0x1200; 0x1200; 0x1200; 0x1200; 0x1200; 0x1300; 0x1300;
     0x1300; 0xd200; 0xd200; 0xd200; 0xd200; 0x1300; 0x1300; 0x1300; 0x1300; 0x1300; 0x1300; 0x1300; 0x1300; 0x1300; 0x1300; 0x1300;
     0x1300; 0x1300; 0xd200; 0x1200; 0x1200; 0xd200; 0xd200; 0x1200; 0x1200; 0x1200; 0x1200; 0x1200; 0x1200; 0xd200; 0x1300; 0x1200;
     0x1204; 0x1204; 0x1204; 0x1204; 0x1204; 0x1204; 0x1204; 0x1204; 0x1204; 0x1204; 0x1200; 0x1200; 0x1200; 0xd200; 0x1200; 0x1200;
     0x1301; 0x1301; 0x1301; 0x1301; 0x1301; 0x1301; 0x1301; 0x1301; 0x1301; 0x1301; 0x1301; 0x1301; 0x1301; 0x1301; 0x1301; 0x1301;
     0x1301; 0x1301; 0x1301; 0x1301; 0x1301; 0x1301; 0x1301; 0x1301; 0x1301; 0x1301; 0x1301; 0x1301; 0x1301; 0x1301; 0x1301; 0x1301;
     0x1301; 0x1301; 0x1301; 0x1301; 0x1301; 0x1301; 0; 0x1301; 0; 0; 0; 0; 0; 0x1301; 0; 0;
     0x1300; 0x1300; 0x1300; 0x1300; 0x1300; 0x1300; 0x1300; 0x1300; 0x1300; 0x1300; 0x1300; 0x1300; 0x1300; 0x1300; 0x1300; 0x1300;
     0x1300; 0x1300; 0x1300; 0x1300; 0x1300; 0x1300; 0x1300; 0x1300; 0x1300; 0x1300; 0x1300; 0x1300; 0x1300; 0x1300; 0x1300; 0x1300;
     0x1300; 0x1300; 0x1300; 0x1300; 0x1300; 0x1300; 0x1300; 0x1300; 0x1300; 0x1300; 0x1300; 0x1210; 0x1300; 0x1300; 0x1300; 0x1300];
   [0x1300; 0x1300; 0x1300; 0x1300; 0x1300; 0x1300; 0x1300; 0x1300; 0x1300; 0x1300; 0x1300; 0x1300; 0x1300; 0x1300; 0x1300; 0x1300;
     0x1300; 0x1300; 0x1300; 0x1300; 0x1300; 0x1300; 0x1300; 0x1300; 0x1300; 0x1300; 0x1300; 0x1300; 0x1300; 0x1300; 0x1300; 0x1300;
     0x1300; 0x1300; 0x1300; 0x1300; 0x1300; 0x1300; 0x1300; 0x1300; 0x1300; 0x1300; 0x1300; 0x1300; 0x1300; 0x1300; 0x1300; 0x1300;
     0x1300; 0x1300; 0x1300; 0x1300; 0x1300; 0x1300; 0x1300; 0x1300; 0x1300; 0x1300; 0x1300; 0x1300; 0x1300; 0x1300; 0x1300; 0x1300;
     0x1300; 0x1300; 0x1300; 0x1300; 0x1300; 0x1300; 0x1300; 0x1300; 0x1300; 0x1300; 0x1300; 0x1300; 0x1300; 0x1300; 0x1300; 0x1300;
     0x1300; 0x1300; 0x1300; 0x1300; 0x1300; 0x1300; 0x1300; 0x1300; 0x1300; 0x1300; 0x1300; 0x1300; 0x1300; 0x1300; 0x1300; 0x1300;
     0x1300; 0x1300; 0x1300; 0x1300; 0x1300; 0x1300; 0x1300; 0x1300; 0x1300; 0x1300; 0x1300; 0x1300; 0x1300; 0x1300; 0x1300; 0x1300;
     0x1300; 0x1300; 0x1300; 0x1300; 0x1300; 0x1300; 0x1300; 0x1300; 0x1300; 0x1300; 0x1300; 0x1300; 0x1300; 0x1300; 0x1300; 0x1300;
     0x1300; 0x1300; 0x1300; 0x1300; 0x1300; 0x1300; 0x1300; 0x1300; 0x1300; 0x1300; 0x1300; 0x1300; 0x1300; 0x1300; 0x1300; 0x1300;
     0x1300; 0x1300; 0x1300; 0x1300; 0x1300; 0x1300; 0x1300; 0x1300; 0x1300; 0x1300; 0x1300; 0x1300; 0x1300; 0x1300; 0x1300; 0x1300;
     0x1300; 0x1300; 0x1300; 0x1300; 0x1300; 0x1300; 0x1300; 0x1300; 0x1300; 0x1300; 0x1300; 0x1300; 0x1300; 0x1300; 0x1300; 0x1300;
     0x1300; 0x1300; 0x1300; 0x1300; 0x1300; 0x1300; 0x1300; 0x1300; 0x1300; 0x1300; 0x1300; 0x1300; 0x1300; 0x1300; 0x1300; 0x1300;
     0x1300; 0x1300; 0x1300; 0x1300; 0x1300; 0x1300; 0x1300; 0x1300; 0x1300; 0x1300; 0x1300; 0x1300; 0x1300; 0x1300; 0x1300; 0x1300;
     0x1300; 0x1300; 0x1300; 0x1300; 0x1300; 0x1300; 0x1300; 0x1300; 0x1300; 0x1300; 0x1300; 0x1300; 0x1300; 0x1300; 0x1300; 0x1300;
     0x1300; 0x1300; 0x1300; 0x1300; 0x1300; 0x1300; 0x1300; 0x1300; 0x1300; 0x1300; 0x1300; 0x1300; 0x1300; 0x1300; 0x1300; 0x1300;
     0x1300; 0x1300; 0x1300; 0x1300; 0x1300; 0x1300; 0x1300; 0x1300; 0x1300; 0x1300; 0x1300; 0x1300; 0x1300; 0x1300; 0x1300; 0x1300];
   [0x1300; 0x1300; 0x1300; 0x1300; 0x1300; 0x1300; 0x1300; 0x1300; 0x1300; 0x1300; 0x1300; 0x1300; 0x1300; 0x1300; 0x1300; 0x1300;
     0x1300; 0x1300; 0x1300; 0x1300; 0x1300; 0x1300; 0x1300; 0x1300; 0x1300; 0x1300; 0x1300; 0x1300; 0x1300; 0x1300; 0x1300; 0x1300;
     0x1300; 0x1300; 0x1300; 0x1300; 0x1300; 0x1300; 0x1300; 0x1300; 0x1300; 0x1300; 0x1300; 0x1300; 0x1300; 0x1300; 0x1300; 0x1300;
     0x1300; 0x1300; 0x1300; 0x1300; 0x1300; 0x1300; 0x1300; 0x1300; 0x1300; 0x1300; 0x1300; 0x1300; 0x1300; 0x1300; 0x1300; 0x1300;
     0x1300; 0x1300; 0x1300; 0x1300; 0x1300; 0x1300; 0x1300; 0x1300; 0x1300; 0; 0x1300; 0x1300; 0x1300; 0x1300; 0; 0;
     0x1300; 0x1300; 0x1300; 0x1300; 0x1300; 0x1300; 0x1300; 0; 0x1300; 0; 0x1300; 0x1300; 0x1300; 0x1300; 0; 0;
     0x1300; 0x1300; 0x1300; 0x1300; 0x1300; 0x1300; 0x1300; 0x1300; 0x1300; 0x1300; 0x1300; 0x1300; 0x1300; 0x1300; 0x1300; 0x1300;
     0x1300; 0x1300; 0x1300; 0x1300; 0x1300; 0x1300; 0x1300; 0x1300; 0x1300; 0x1300; 0x1300; 0x1300; 0x1300; 0x1300; 0x1300; 0x1300;
     0x1300; 0x1300; 0x1300; 0x1300; 0x1300; 0x1300; 0x1300; 0x1300; 0x1300; 0; 0x1300; 0x1300; 0x1300; 0x1300; 0; 0;
     0x1300; 0x1300; 0x1300; 0x1300; 0x1300; 0x1300; 0x1300; 0x1300; 0x1300; 0x1300; 0x1300; 0x1300; 0x1300; 0x1300; 0x1300; 0x1300;
     0x1300; 0x1300; 0x1300; 0x1300; 0x1300; 0x1300; 0x1300; 0x1300; 0x1300; 0x1300; 0x1300; 0x1300; 0x1300; 0x1300; 0x1300; 0x1300;
     0x1300; 0; 0x1300; 0x1300; 0x1300; 0x1300; 0; 0; 0x1300; 0x1300; 0x1300; 0x1300; 0x1300; 0x1300; 0x1300; 0;
     0x1300; 0; 0x1300; 0x1300; 0x1300; 0x1300; 0; 0; 0x1300; 0x1300; 0x1300; 0x1300; 0x1300; 0x1300; 0x1300; 0x1300;
     0x1300; 0x1300; 0x1300; 0x1300; 0x1300; 0x1300; 0x1300; 0; 0x1300; 0x1300; 0x1300; 0x1300; 0x1300; 0x1300; 0x1300; 0x1300;
     0x1300; 0x1300; 0x1300; 0x1300; 0x1300; 0x1300; 0x1300; 0x1300; 0x1300; 0x1300; 0x1300; 0x1300; 0x1300; 0x1300; 0x1300; 0x1300;
     0x1300; 0x1300; 0x1300; 0x1300; 0x1300; 0x1300; 0x1300; 0x1300; 0x1300; 0x1300; 0x1300; 0x1300; 0x1300; 0x1300; 0x1300; 0x1300];
   [0x1300; 0x1300; 0x1300; 0x1300; 0x1300; 0x1300; 0x1300; 0x1300; 0x1300; 0x1300; 0x1300; 0x1300; 0x1300; 0x1300; 0x1300; 0x1300;
     0x1300; 0; 0x1300; 0x1300; 0x1300; 0x1300; 0; 0; 0x1300; 0x1300; 0x1300; 0x1300; 0x1300; 0x1300; 0x1300; 0x1300;
     0x1300; 0x1300; 0x1300; 0x1300; 0x1300; 0x1300; 0x1300; 0x1300; 0x1300; 0x1300; 0x1300; 0x1300; 0x1300; 0x1300; 0x1300; 0x1300;
     0x1300; 0x1300; 0x1300; 0x1300; 0x1300; 0x1300; 0x1300; 0x1300; 0x1300; 0x1300; 0x1300; 0x1300; 0x1300; 0x1300; 0x1300; 0x1300;
     0x1300; 0x1300; 0x1300; 0x1300; 0x1300; 0x1300; 0x1300; 0x1300; 0x1300; 0x1300; 0x1300; 0x1300; 0x1300; 0x1300; 0x1300; 0x1300;
     0x1300; 0x1300; 0x1300; 0x1300; 0x1300; 0x1300; 0x1300; 0x1300; 0x1300; 0x1300; 0x1300; 0; 0; 0xd200; 0xd200; 0xd200;
     0x1210; 0x1210; 0x1210; 0x1210; 0x1210; 0x1210; 0x1210; 0x1210; 0x1210; 0x1200; 0x1200; 0x1200; 0x1200; 0x1200; 0x1200; 0x1200;
     0x1200; 0x1200; 0x1200; 0x1200; 0x1200; 0x1200; 0x1200; 0x1200; 0x1200; 0x1200; 0x1200; 0x1200; 0x1200; 0; 0; 0;
     0x1300; 0x1300; 0x1300; 0x1300; 0x1300; 0x1300; 0x1300; 0x1300; 0x1300; 0x1300; 0x1300; 0x1300; 0x1300; 0x1300; 0x1300; 0x1300;
     0xb200; 0xb200; 0xb200; 0xb200; 0xb200; 0xb200; 0xb200; 0xb200; 0xb200; 0xb200; 0; 0; 0; 0; 0; 0;
     0x1301; 0x1301; 0x1301; 0x1301; 0x1301; 0x1301; 0x1301; 0x1301; 0x1301; 0x1301; 0x1301; 0x1301; 0x1301; 0x1301; 0x1301; 0x1301;
     0x1301; 0x1301; 0x1301; 0x1301; 0x1301; 0x1301; 0x1301; 0x1301; 0x1301; 0x1301; 0x1301; 0x1301; 0x1301; 0x1301; 0x1301; 0x1301;
     0x1301; 0x1301; 0x1301; 0x1301; 0x1301; 0x1301; 0x1301; 0x1301; 0x1301; 0x1301; 0x1301; 0x1301; 0x1301; 0x1301; 0x1301; 0x1301;
     0x1301; 0x1301; 0x1301; 0x1301; 0x1301; 0x1301; 0x1301; 0x1301; 0x1301; 0x1301; 0x1301; 0x1301; 0x1301; 0x1301; 0x1301; 0x1301;
     0x1301; 0x1301; 0x1301; 0x1301; 0x1301; 0x1301; 0x1301; 0x1301; 0x1301; 0x1301; 0x1301; 0x1301; 0x1301; 0x1301; 0x1301; 0x1301;
     0x1301; 0x1301; 0x1301; 0x1301; 0x1301; 0x1301; 0; 0; 0x1302; 0x1302; 0x1302; 0x1302; 0x1302; 0x1302; 0; 0];
   [0xb210; 0x1300; 0x1300; 0x1300; 0x1300; 0x1300; 0x1300; 0x1300; 0x1300; 0x1300; 0x1300; 0x1300; 0x1300; 0x1300; 0x1300; 0x1300;
     0x1300; 0x1300; 0x1300; 0x1300; 0x1300; 0x1300; 0x1300; 0x1300; 0x1300; 0x1300; 0x1300; 0x1300; 0x1300; 0x1300; 0x1300; 0x1300;
     0x1300; 0x1300; 0x1300; 0x1300; 0x1300; 0x1300; 0x1300; 0x1300; 0x1300; 0x1300; 0x1300; 0x1300; 0x1300; 0x1300; 0x1300; 0x1300;
     0x1300; 0x1300; 0x1300; 0x1300; 0x1300; 0x1300; 0x1300; 0x1300; 0x1300; 0x1300; 0x1300; 0x1300; 0x1300; 0x1300; 0x1300; 0x1300;
     0x1300; 0x1300; 0x1300; 0x1300; 0x1300; 0x1300; 0x1300; 0x1300; 0x1300; 0x1300; 0x1300; 0x1300; 0x1300; 0x1300; 0x1300; 0x1300;
     0x1300; 0x1300; 0x1300; 0x1300; 0x1300; 0x1300; 0x1300; 0x1300; 0x1300; 0x1300; 0x1300; 0x1300; 0x1300; 0x1300; 0x1300; 0x1300;
     0x1300; 0x1300; 0x1300; 0x1300; 0x1300; 0x1300; 0x1300; 0x1300; 0x1300; 0x1300; 0x1300; 0x1300; 0x1300; 0x1300; 0x1300; 0x1300;
     0x1300; 0x1300; 0x1300; 0x1300; 0x1300; 0x1300; 0x1300; 0x1300; 0x1300; 0x1300; 0x1300; 0x1300; 0x1300; 0x1300; 0x1300; 0x1300;
     0x1300; 0x1300; 0x1300; 0x1300; 0x1300; 0x1300; 0x1300; 0x1300; 0x1300; 0x1300; 0x1300; 0x1300; 0x1300; 0x1300; 0x1300; 0x1300;
     0x1300; 0x1300; 0x1300; 0x1300; 0x1300; 0x1300; 0x1300; 0x1300; 0x1300; 0x1300; 0x1300; 0x1300; 0x1300; 0x1300; 0x1300; 0x1300;
     0x1300; 0x1300; 0x1300; 0x1300; 0x1300; 0x1300; 0x1300; 0x1300; 0x1300; 0x1300; 0x1300; 0x1300; 0x1300; 0x1300; 0x1300; 0x1300;
     0x1300; 0x1300; 0x1300; 0x1300; 0x1300; 0x1300; 0x1300; 0x1300; 0x1300; 0x1300; 0x1300; 0x1300; 0x1300; 0x1300; 0x1300; 0x1300;
     0x1300; 0x1300; 0x1300; 0x1300; 0x1300; 0x1300; 0x1300; 0x1300; 0x1300; 0x1300; 0x1300; 0x1300; 0x1300; 0x1300; 0x1300; 0x1300;
     0x1300; 0x1300; 0x1300; 0x1300; 0x1300; 0x1300; 0x1300; 0x1300; 0x1300; 0x1300; 0x1300; 0x1300; 0x1300; 0x1300; 0x1300; 0x1300;
     0x1300; 0x1300; 0x1300; 0x1300; 0x1300; 0x1300; 0x1300; 0x1300; 0x1300; 0x1300; 0x1300; 0x1300; 0x1300; 0x1300; 0x1300; 0x1300;
     0x1300; 0x1300; 0x1300; 0x1300; 0x1300; 0x1300; 0x1300; 0x1300; 0x1300; 0x1300; 0x1300; 0x1300; 0x1300; 0x1300; 0x1300; 0x1300];
   [0x1300; 0x1300; 0x1300; 0x1300; 0x1300; 0x1300; 0x1300; 0x1300; 0x1300; 0x1300; 0x1300; 0x1300; 0x1300; 0x1300; 0x1300; 0x1300;
     0x1300; 0x1300; 0x1300; 0x1300; 0x1300; 0x1300; 0x1300; 0x1300; 0x1300; 0x1300; 0x1300; 0x1300; 0x1300; 0x1300; 0x1300; 0x1300;
     0x1300; 0x1300; 0x1300; 0x1300; 0x1300; 0x1300; 0x1300; 0x1300; 0x1300; 0x1300; 0x1300; 0x1300; 0x1300; 0x1300; 0x1300; 0x1300;
     0x1300; 0x1300; 0x1300; 0x1300; 0x1300; 0x1300; 0x1300; 0x1300; 0x1300; 0x1300; 0x1300; 0x1300; 0x1300; 0x1300; 0x1300; 0x1300;
     0x1300; 0x1300; 0x1300; 0x1300; 0x1300; 0x1300; 0x1300; 0x1300; 0x1300; 0x1300; 0x1300; 0x1300; 0x1300; 0x1300; 0x1300; 0x1300;
     0x1300; 0x1300; 0x1300; 0x1300; 0x1300; 0x1300; 0x1300; 0x1300; 0x1300; 0x1300; 0x1300; 0x1300; 0x1300; 0x1300; 0x1300; 0x1300;
     0x1300; 0x1300; 0x1300; 0x1300; 0x1300; 0x1300; 0x1300; 0x1300; 0x1300; 0x1300; 0x1300; 0x1300; 0x1300; 0x1210; 0x1210; 0x1300;
     0x1300; 0x1300; 0x1300; 0x1300; 0x1300; 0x1300; 0x1300; 0x1300; 0x1300; 0x1300; 0x1300; 0x1300; 0x1300; 0x1300; 0x1300; 0x1300;
     0xa208; 0x1300; 0x1300; 0x1300; 0x1300; 0x1300; 0x1300; 0x1300; 0x1300; 0x1300; 0x1300; 0x1300; 0x1300; 0x1300; 0x1300; 0x1300;
     0x1300; 0x1300; 0x1300; 0x1300; 0x1300; 0x1300; 0x1300; 0x1300; 0x1300; 0x1300; 0x1300; 0xb210; 0xb210; 0; 0; 0;
     0x1300; 0x1300; 0x1300; 0x1300; 0x1300; 0x1300; 0x1300; 0x1300; 0x1300; 0x1300; 0x1300; 0x1300; 0x1300; 0x1300; 0x1300; 0x1300;
     0x1300; 0x1300; 0x1300; 0x1300; 0x1300; 0x1300; 0x1300; 0x1300; 0x1300; 0x1300; 0x1300; 0x1300; 0x1300; 0x1300; 0x1300; 0x1300;
     0x1300; 0x1300; 0x1300; 0x1300; 0x1300; 0x1300; 0x1300; 0x1300; 0x1300; 0x1300; 0x1300; 0x1300; 0x1300; 0x1300; 0x1300; 0x1300;
     0x1300; 0x1300; 0x1300; 0x1300; 0x1300; 0x1300; 0x1300; 0x1300; 0x1300; 0x1300; 0x1300; 0x1300; 0x1300; 0x1300; 0x1300; 0x1300;
     0x1300; 0x1300; 0x1300; 0x1300; 0x1300; 0x1300; 0x1300; 0x1300; 0x1300; 0x1300; 0x1300; 0x1210; 0x1210; 0x1210; 0x1300; 0x1300;
     0x1300; 0x1300; 0x1300; 0x1300; 0x1300; 0x1300; 0x1300; 0x1300; 0x1300; 0; 0; 0; 0; 0; 0; 0];
   [0x1300; 0x1300; 0x1300; 0x1300; 0x1300; 0x1300; 0x1300; 0x1300; 0x1300; 0x1300; 0x1300; 0x1300; 0x1300; 0; 0x1300; 0x1300;
     0x1300; 0x1300; 0xd200; 0xd200; 0xd200; 0; 0; 0; 0; 0; 0; 0; 0; 0; 0; 0;
     0x1300; 0x1300; 0x1300; 0x1300; 0x1300; 0x1300; 0x1300; 0x1300; 0x1300; 0x1300; 0x1300; 0x1300; 0x1300; 0x1300; 0x1300; 0x1300;
     0x1300; 0x1300; 0xd200; 0xd200; 0xd200; 0x1210; 0x1210; 0; 0; 0; 0; 0; 0; 0; 0; 0;
     0x1300; 0x1300; 0x1300; 0x1300; 0x1300; 0x1300; 0x1300; 0x1300; 0x1300; 0x1300; 0x1300; 0x1300; 0x1300; 0x1300; 0x1300; 0x1300;
     0x1300; 0x1300; 0xd200; 0xd200; 0; 0; 0; 0; 0; 0; 0; 0; 0; 0; 0; 0;
     0x1300; 0x1300; 0x1300; 0x1300; 0x1300; 0x1300; 0x1300; 0x1300; 0x1300; 0x1300; 0x1300; 0x1300; 0x1300; 0; 0x1300; 0x1300;
     0x1300; 0; 0xd200; 0xd200; 0; 0; 0; 0; 0; 0; 0; 0; 0; 0; 0; 0;
     0x1300; 0x1300; 0x1300; 0x1300; 0x1300; 0x1300; 0x1300; 0x1300; 0x1300; 0x1300; 0x1300; 0x1300; 0x1300; 0x1300; 0x1300; 0x1300;
     0x1300; 0x1300; 0x1300; 0x1300; 0x1300; 0x1300; 0x1300; 0x1300; 0x1300; 0x1300; 0x1300; 0x1300; 0x1300; 0x1300; 0x1300; 0x1300;
     0x1300; 0x1300; 0x1300; 0x1300; 0x1300; 0x1300; 0x1300; 0x1300; 0x1300; 0x1300; 0x1300; 0x1300; 0x1300; 0x1300; 0x1300; 0x1300;
     0x1300; 0x1300; 0x1300; 0x1300; 0xd200; 0xd200; 0x1200; 0xd200; 0xd200; 0xd200; 0xd200; 0xd200; 0xd200; 0xd200; 0x1200; 0x1200;
     0x1200; 0x1200; 0x1200; 0x1200; 0x1200; 0x1200; 0xd200; 0x1200; 0x1200; 0xd200; 0xd200; 0xd200; 0xd200; 0xd200; 0xd200; 0xd200;
     0xd200; 0xd200; 0xd200; 0xd200; 0x1210; 0x1210; 0x1210; 0x1300; 0x1210; 0x1210; 0x1210; 0x5200; 0x1300; 0xd200; 0; 0;
     0x1204; 0x1204; 0x1204; 0x1204; 0x1204; 0x1204; 0x1204; 0x1204; 0x1204; 0x1204; 0; 0; 0; 0; 0; 0;
     0xb200; 0xb200; 0xb200; 0xb200; 0xb200; 0xb200; 0xb200; 0xb200; 0xb200; 0xb200; 0; 0; 0; 0; 0; 0];
   [0xb210; 0xb210; 0xb210; 0xb210; 0xb210; 0xb210; 0xb210; 0xb210; 0xb210; 0xb210; 0xb210; 0xd200; 0xd200; 0xd200; 0xe220; 0;
     0x1204; 0x1204; 0x1204; 0x1204; 0x1204; 0x1204; 0x1204; 0x1204; 0x1204; 0x1204; 0; 0; 0; 0; 0; 0;
     0x1300; 0x1300; 0x1300; 0x1300; 0x1300; 0x1300; 0x1300; 0x1300; 0x1300; 0x1300; 0x1300; 0x1300; 0x1300; 0x1300; 0x1300; 0x1300;
     0x1300; 0x1300; 0x1300; 0x1300; 0x1300; 0x1300; 0x1300; 0x1300; 0x1300; 0x1300; 0x1300; 0x1300; 0x1300; 0x1300; 0x1300; 0x1300;
     0x1300; 0x1300; 0x1300; 0x1300; 0x1300; 0x1300; 0x1300; 0x1300; 0x1300; 0x1300; 0x1300; 0x1300; 0x1300; 0x1300; 0x1300; 0x1300;
     0x1300; 0x1300; 0x1300; 0x1300; 0x1300; 0x1300; 0x1300; 0x1300; 0x1300; 0x1300; 0x1300; 0x1300; 0x1300; 0x1300; 0x1300; 0x1300;
     0x1300; 0x1300; 0x1300; 0x1300; 0x1300; 0x1300; 0x1300; 0x1300; 0x1300; 0x1300; 0x1300; 0x1300; 0x1300; 0x1300; 0x1300; 0x1300;
     0x1300; 0x1300; 0x1300; 0x1300; 0x1300; 0x1300; 0x1300; 0x1300; 0; 0; 0; 0; 0; 0; 0; 0;
     0x1300; 0x1300; 0x1300; 0x1300; 0x1300; 0xd200; 0xd200; 0x1300; 0x1300; 0x1300; 0x1300; 0x1300; 0x1300; 0x1300; 0x1300; 0x1300;
     0x1300; 0x1300; 0x1300; 0x1300; 0x1300; 0x1300; 0x1300; 0x1300; 0x1300; 0x1300; 0x1300; 0x1300; 0x1300; 0x1300; 0x1300; 0x1300;
     0x1300; 0x1300; 0x1300; 0x1300; 0x1300; 0x1300; 0x1300; 0x1300; 0x1300; 0xd200; 0x1300; 0; 0; 0; 0; 0;
     0x1300; 0x1300; 0x1300; 0x1300; 0x1300; 0x1300; 0x1300; 0x1300; 0x1300; 0x1300; 0x1300; 0x1300; 0x1300; 0x1300; 0x1300; 0x1300;
     0x1300; 0x1300; 0x1300; 0x1300; 0x1300; 0x1300; 0x1300; 0x1300; 0x1300; 0x1300; 0x1300; 0x1300; 0x1300; 0x1300; 0x1300; 0x1300;
     0x1300; 0x1300; 0x1300; 0x1300; 0x1300; 0x1300; 0x1300; 0x1300; 0x1300; 0x1300; 0x1300; 0x1300; 0x1300; 0x1300; 0x1300; 0x1300;
     0x1300; 0x1300; 0x1300; 0x1300; 0x1300; 0x1300; 0x1300; 0x1300; 0x1300; 0x1300; 0x1300; 0x1300; 0x1300; 0x1300; 0x1300; 0x1300;
     0x1300; 0x1300; 0x1300; 0x1300; 0x1300; 0x1300; 0; 0; 0; 0; 0; 0; 0; 0; 0; 0];
   [0x1300; 0x1300; 0x1300; 0x1300; 0x1300; 0x1300; 0x1300; 0x1300; 0x1300; 0x1300; 0x1300; 0x1300; 0x1300; 0x1300; 0x1300; 0x1300;
     0x1300; 0x1300; 0x1300; 0x1300; 0x1300; 0x1300; 0x1300; 0x1300; 0x1300; 0x1300; 0x1300; 0x1300; 0x1300; 0x1300; 0x1300; 0;
     0xd200; 0xd200; 0xd200; 0x1200; 0x1200; 0x1200; 0x1200; 0xd200; 0xd200; 0x1200; 0x1200; 0x1200; 0; 0; 0; 0;
     0x1200; 0x1200; 0xd200; 0x1200; 0x1200; 0x1200; 0x1200; 0x1200; 0x1200; 0xd200; 0xd200; 0xd200; 0; 0; 0; 0;
     0xb200; 0; 0; 0; 0xb210; 0xb210; 0x1204; 0x1204; 0x1204; 0x1204; 0x1204; 0x1204; 0x1204; 0x1204; 0x1204; 0x1204;
     0x1300; 0x1300; 0x1300; 0x1300; 0x1300; 0x1300; 0x1300; 0x1300; 0x1300; 0x1300; 0x1300; 0x1300; 0x1300; 0x1300; 0x1300; 0x1300;
     0x1300; 0x1300; 0x1300; 0x1300; 0x1300; 0x1300; 0x1300; 0x1300; 0x1300; 0x1300; 0x1300; 0x1300; 0x1300; 0x1300; 0; 0;
     0x1300; 0x1300; 0x1300; 0x1300; 0x1300; 0; 0; 0; 0; 0; 0; 0; 0; 0; 0; 0;
     0x1300; 0x1300; 0x1300; 0x1300; 0x1300; 0x1300; 0x1300; 0x1300; 0x1300; 0x1300; 0x1300; 0x1300; 0x1300; 0x1300; 0x1300; 0x1300;
     0x1300; 0x1300; 0x1300; 0x1300; 0x1300; 0x1300; 0x1300; 0x1300; 0x1300; 0x1300; 0x1300; 0x1300; 0x1300; 0x1300; 0x1300; 0x1300;
     0x1300; 0x1300; 0x1300; 0x1300; 0x1300; 0x1300; 0x1300; 0x1300; 0x1300; 0x1300; 0x1300; 0x1300; 0; 0; 0; 0;
     0x1300; 0x1300; 0x1300; 0x1300; 0x1300; 0x1300; 0x1300; 0x1300; 0x1300; 0x1300; 0x1300; 0x1300; 0x1300; 0x1300; 0x1300; 0x1300;
     0x1300; 0x1300; 0x1300; 0x1300; 0x1300; 0x1300; 0x1300; 0x1300; 0x1300; 0x1300; 0; 0; 0; 0; 0; 0;
     0x1204; 0x1204; 0x1204; 0x1204; 0x1204; 0x1204; 0x1204; 0x1204; 0x1204; 0x1204; 0x1200; 0; 0; 0; 0xb200; 0xb200;
     0xb200; 0xb200; 0xb200; 0xb200; 0xb200; 0xb200; 0xb200; 0xb200; 0xb200; 0xb200; 0xb200; 0xb200; 0xb200; 0xb200; 0xb200; 0xb200;
     0xb200; 0xb200; 0xb200; 0xb200; 0xb200; 0xb200; 0xb200; 0xb200; 0xb200; 0xb200; 0xb200; 0xb200; 0xb200; 0xb200; 0xb200; 0xb200];
   [0x1300; 0x1300; 0x1300; 0x1300; 0x1300; 0x1300; 0x1300; 0x1300; 0x1300; 0x1300; 0x1300; 0x1300; 0x1300; 0x1300; 0x1300; 0x1300;
     0x1300; 0x1300; 0x1300; 0x1300; 0x1300; 0x1300; 0x1300; 0xd200; 0xd200; 0x1200; 0x1200; 0xd200; 0; 0; 0x1210; 0x1210;
     0x1300; 0x1300; 0x1300; 0x1300; 0x1300; 0x1300; 0x1300; 0x1300; 0x1300; 0x1300; 0x1300; 0x1300; 0x1300; 0x1300; 0x1300; 0x1300;
     0x1300; 0x1300; 0x1300; 0x1300; 0x1300; 0x1300; 0x1300; 0x1300; 0x1300; 0x1300; 0x1300; 0x1300; 0x1300; 0x1300; 0x1300; 0x1300;
     0x1300; 0x1300; 0x1300; 0x1300; 0x1300; 0x1300; 0x1300; 0x1300; 0x1300; 0x1300; 0x1300; 0x1300; 0x1300; 0x1300; 0x1300; 0x1300;
     0x1300; 0x1300; 0x1300; 0x1300; 0x1300; 0x1200; 0xd200; 0x1200; 0xd200; 0xd200; 0xd200; 0xd200; 0xd200; 0xd200; 0xd200; 0;
     0xd200; 0x1200; 0xd200; 0x1200; 0x1200; 0xd200; 0xd200; 0xd200; 0xd200; 0xd200; 0xd200; 0xd200; 0xd200; 0x1200; 0x1200; 0x1200;
     0x1200; 0x1200; 0x1200; 0xd200; 0xd200; 0xd200; 0xd200; 0xd200; 0xd200; 0xd200; 0xd200; 0xd200; 0xd200; 0; 0; 0xd200;
     0x1204; 0x1204; 0x1204; 0x1204; 0x1204; 0x1204; 0x1204; 0x1204; 0x1204; 0x1204; 0; 0; 0; 0; 0; 0;
     0x1204; 0x1204; 0x1204; 0x1204; 0x1204; 0x1204; 0x1204; 0x1204; 0x1204; 0x1204; 0; 0; 0; 0; 0; 0;
     0x1210; 0x1210; 0x1210; 0x1210; 0x1210; 0x1210; 0x1210; 0x1300; 0x1210; 0x1210; 0x1210; 0x1210; 0x1210; 0x1210; 0; 0;
     0xd200; 0xd200; 0xd200; 0xd200; 0xd200; 0xd200; 0xd200; 0xd200; 0xd200; 0xd200; 0xd200; 0xd200; 0xd200; 0xd200; 0xd200; 0;
     0; 0; 0; 0; 0; 0; 0; 0; 0; 0; 0; 0; 0; 0; 0; 0;
     0; 0; 0; 0; 0; 0; 0; 0; 0; 0; 0; 0; 0; 0; 0; 0;
     0; 0; 0; 0; 0; 0; 0; 0; 0; 0; 0; 0; 0; 0; 0; 0;
     0; 0; 0; 0; 0; 0; 0; 0; 0; 0; 0; 0; 0; 0; 0; 0];
   [0xd200; 0xd200; 0xd200; 0xd200; 0x1200; 0x1300; 0x1300; 0x1300; 0x1300; 0x1300; 0x1300; 0x1300; 0x1300; 0x1300; 0x1300; 0x1300;
     0x1300; 0x1300; 0x1300; 0x1300; 0x1300; 0x1300; 0x1300; 0x1300; 0x1300; 0x1300; 0x1300; 0x1300; 0x1300; 0x1300; 0x1300; 0x1300;
     0x1300; 0x1300; 0x1300; 0x1300; 0x1300; 0x1300; 0x1300; 0x1300; 0x1300; 0x1300; 0x1300; 0x1300; 0x1300; 0x1300; 0x1300; 0x1300;
     0x1300; 0x1300; 0x1300; 0x1300; 0xd200; 0x1200; 0xd200; 0xd200; 0xd200; 0xd200; 0xd200; 0x1200; 0xd200; 0x1200; 0x1200; 0x1200;
     0x1200; 0x1200; 0xd200; 0x1200; 0x1200; 0x1300; 0x1300; 0x1300; 0x1300; 0x1300; 0x1300; 0x1300; 0; 0; 0; 0;
     0x1204; 0x1204; 0x1204; 0x1204; 0x1204; 0x1204; 0x1204; 0x1204; 0x1204; 0x1204; 0x1210; 0x1210; 0x1210; 0x1210; 0x1210; 0x1210;
     0x1210; 0x1200; 0x1200; 0x1200; 0x1200; 0x1200; 0x1200; 0x1200; 0x1200; 0x1200; 0x1200; 0xd200; 0xd200; 0xd200; 0xd200; 0xd200;
     0xd200; 0xd200; 0xd200; 0xd200; 0x1200; 0x1200; 0x1200; 0x1200; 0x1200; 0x1200; 0x1200; 0x1200; 0x1200; 0; 0; 0;
     0xd200; 0xd200; 0x1200; 0x1300; 0x1300; 0x1300; 0x1300; 0x1300; 0x1300; 0x1300; 0x1300; 0x1300; 0x1300; 0x1300; 0x1300; 0x1300;
     0x1300; 0x1300; 0x1300; 0x1300; 0x1300; 0x1300; 0x1300; 0x1300; 0x1300; 0x1300; 0x1300; 0x1300; 0x1300; 0x1300; 0x1300; 0x1300;
     0x1300; 0x1200; 0xd200; 0xd200; 0xd200; 0xd200; 0x1200; 0x1200; 0xd200; 0xd200; 0x1200; 0xd200; 0xd200; 0xd200; 0x1300; 0x1300;
     0x1204; 0x1204; 0x1204; 0x1204; 0x1204; 0x1204; 0x1204; 0x1204; 0x1204; 0x1204; 0x1300; 0x1300; 0x1300; 0x1300; 0x1300; 0x1300;
     0x1300; 0x1300; 0x1300; 0x1300; 0x1300; 0x1300; 0x1300; 0x1300; 0x1300; 0x1300; 0x1300; 0x1300; 0x1300; 0x1300; 0x1300; 0x1300;
     0x1300; 0x1300; 0x1300; 0x1300; 0x1300; 0x1300; 0x1300; 0x1300; 0x1300; 0x1300; 0x1300; 0x1300; 0x1300; 0x1300; 0x1300; 0x1300;
     0x1300; 0x1300; 0x1300; 0x1300; 0x1300; 0x1300; 0xd200; 0x1200; 0xd200; 0xd200; 0x1200; 0x1200; 0x1200; 0xd200; 0x1200; 0xd200;
     0xd200; 0xd200; 0x1200; 0x1200; 0; 0; 0; 0; 0; 0; 0; 0; 0x1210; 0x1210; 0x1210; 0x1210];
   [0x1300; 0x1300; 0x1300; 0x1300; 0x1300; 0x1300; 0x1300; 0x1300; 0x1300; 0x1300; 0x1300; 0x1300; 0x1300; 0x1300; 0x1300; 0x1300;
     0x1300; 0x1300; 0x1300; 0x1300; 0x1300; 0x1300; 0x1300; 0x1300; 0x1300; 0x1300; 0x1300; 0x1300; 0x1300; 0x1300; 0x1300; 0x1300;
     0x1300; 0x1300; 0x1300; 0x1300; 0x1200; 0x1200; 0x1200; 0x1200; 0x1200; 0x1200; 0x1200; 0x1200; 0xd200; 0xd200; 0xd200; 0xd200;
     0xd200; 0xd200; 0xd200; 0xd200; 0x1200; 0x1200; 0xd200; 0xd200; 0; 0; 0; 0x1210; 0x1210; 0x1210; 0x1210; 0x1210;
     0x1204; 0x1204; 0x1204; 0x1204; 0x1204; 0x1204; 0x1204; 0x1204; 0x1204; 0x1204; 0; 0; 0; 0x1300; 0x1300; 0x1300;
     0x1204; 0x1204; 0x1204; 0x1204; 0x1204; 0x1204; 0x1204; 0x1204; 0x1204; 0x1204; 0x1300; 0x1300; 0x1300; 0x1300; 0x1300; 0x1300;
     0x1300; 0x1300; 0x1300; 0x1300; 0x1300; 0x1300; 0x1300; 0x1300; 0x1300; 0x1300; 0x1300; 0x1300; 0x1300; 0x1300; 0x1300; 0x1300;
     0x1300; 0x1300; 0x1300; 0x1300; 0x1300; 0x1300; 0x1300; 0x1300; 0x1300; 0x1300; 0x1300; 0x1300; 0x1300; 0x1300; 0x1210; 0x1210;
     0x1302; 0x1302; 0x1302; 0x1302; 0x1302; 0x1302; 0x1302; 0x1302; 0x1302; 0; 0; 0; 0; 0; 0; 0;
     0; 0; 0; 0; 0; 0; 0; 0; 0; 0; 0; 0; 0; 0; 0; 0;
     0; 0; 0; 0; 0; 0; 0; 0; 0; 0; 0; 0; 0; 0; 0; 0;
     0; 0; 0; 0; 0; 0; 0; 0; 0; 0; 0; 0; 0; 0; 0; 0;
     0x1210; 0x1210; 0x1210; 0x1210; 0x1210; 0x1210; 0x1210; 0x1210; 0; 0; 0; 0; 0; 0; 0; 0;
     0xd200; 0xd200; 0xd200; 0x1210; 0xd200; 0xd200; 0xd200; 0xd200; 0xd200; 0xd200; 0xd200; 0xd200; 0xd200; 0xd200; 0xd200; 0xd200;
     0xd200; 0x1200; 0xd200; 0xd200; 0xd200; 0xd200; 0xd200; 0xd200; 0xd200; 0x1300; 0x1300; 0x1300; 0x1300; 0xd200; 0x1300; 0x1300;
     0x1300; 0x1300; 0x1200; 0x1200; 0xd200; 0x1300; 0x1300; 0; 0xd200; 0xd200; 0; 0; 0; 0; 0; 0];
   [0x1302; 0x1302; 0x1302; 0x1302; 0x1302; 0x1302; 0x1302; 0x1302; 0x1302; 0x1302; 0x1302; 0x1302; 0x1302; 0x1302; 0x1302; 0x1302;
     0x1302; 0x1302; 0x1302; 0x1302; 0x1302; 0x1302; 0x1302; 0x1302; 0x1302; 0x1302; 0x1302; 0x1302; 0x1302; 0x1302; 0x1302; 0x1302;
     0x1302; 0x1302; 0x1302; 0x1302; 0x1302; 0x1302; 0x1302; 0x1302; 0x1302; 0x1302; 0x1302; 0x1302; 0x1300; 0x1300; 0x1300; 0x1300;
     0x1300; 0x1300; 0x1300; 0x1300; 0x1300; 0x1300; 0x1300; 0x1300; 0x1300; 0x1300; 0x1300; 0x1300; 0x1300; 0x1300; 0x1300; 0x1300;
     0x1300; 0x1300; 0x1300; 0x1300; 0x1300; 0x1300; 0x1300; 0x1300; 0x1300; 0x1300; 0x1300; 0x1300; 0x1300; 0x1300; 0x1300; 0x1300;
     0x1300; 0x1300; 0x1300; 0x1300; 0x1300; 0x1300; 0x1300; 0x1300; 0x1300; 0x1300; 0x1300; 0x1300; 0x1300; 0x1300; 0x1300; 0x1300;
     0x1300; 0x1300; 0x1300; 0x1300; 0x1300; 0x1300; 0x1300; 0x1300; 0x1300; 0x1300; 0x1300; 0x1302; 0x1302; 0x1302; 0x1302; 0x1302;
     0x1302; 0x1302; 0x1302; 0x1302; 0x1302; 0x1302; 0x1302; 0x1302; 0x1300; 0x1302; 0x1302; 0x1302; 0x1302; 0x1302; 0x1302; 0x1302;
     0x1302; 0x1302; 0x1302; 0x1302; 0x1302; 0x1302; 0x1302; 0x1302; 0x1302; 0x1302; 0x1302; 0x1302; 0x1302; 0x1302; 0x1302; 0x1302;
     0x1302; 0x1302; 0x1302; 0x1302; 0x1302; 0x1302; 0x1302; 0x1302; 0x1302; 0x1302; 0x1302; 0x1300; 0x1300; 0x1300; 0x1300; 0x1300;
     0x1300; 0x1300; 0x1300; 0x1300; 0x1300; 0x1300; 0x1300; 0x1300; 0x1300; 0x1300; 0x1300; 0x1300; 0x1300; 0x1300; 0x1300; 0x1300;
     0x1300; 0x1300; 0x1300; 0x1300; 0x1300; 0x1300; 0x1300; 0x1300; 0x1300; 0x1300; 0x1300; 0x1300; 0x1300; 0x1300; 0x1300; 0x1300;
     0xd200; 0xd200; 0xd200; 0xd200; 0xd200; 0xd200; 0xd200; 0xd200; 0xd200; 0xd200; 0xd200; 0xd200; 0xd200; 0xd200; 0xd200; 0xd200;
     0xd200; 0xd200; 0xd200; 0xd200; 0xd200; 0xd200; 0xd200; 0xd200; 0xd200; 0xd200; 0xd200; 0xd200; 0xd200; 0xd200; 0xd200; 0xd200;
     0xd200; 0xd200; 0xd200; 0xd200; 0xd200; 0xd200; 0xd200; 0xd200; 0xd200; 0xd200; 0xd200; 0xd200; 0xd200; 0xd200; 0xd200; 0xd200;
     0xd200; 0xd200; 0xd200; 0xd200; 0xd200; 0xd200; 0; 0; 0; 0; 0; 0xd200; 0xd200; 0xd200; 0xd200; 0xd200];
   [0x1301; 0x1302; 0x1301; 0x1302; 0x1301; 0x1302; 0x1301; 0x1302; 0x1301; 0x1302; 0x1301; 0x1302; 0x1301; 0x1302; 0x1301; 0x1302;
     0x1301; 0x1302; 0x1301; 0x1302; 0x1301; 0x1302; 0x1301; 0x1302; 0x1301; 0x1302; 0x1301; 0x1302; 0x1301; 0x1302; 0x1301; 0x1302;
     0x1301; 0x1302; 0x1301; 0x1302; 0x1301; 0x1302; 0x1301; 0x1302; 0x1301; 0x1302; 0x1301; 0x1302; 0x1301; 0x1302; 0x1301; 0x1302;
     0x1301; 0x1302; 0x1301; 0x1302; 0x1301; 0x1302; 0x1301; 0x1302; 0x1301; 0x1302; 0x1301; 0x1302; 0x1301; 0x1302; 0x1301; 0x1302;
     0x1301; 0x1302; 0x1301; 0x1302; 0x1301; 0x1302; 0x1301; 0x1302; 0x1301; 0x1302; 0x1301; 0x1302; 0x1301; 0x1302; 0x1301; 0x1302;
     0x1301; 0x1302; 0x1301; 0x1302; 0x1301; 0x1302; 0x1301; 0x1302; 0x1301; 0x1302; 0x1301; 0x1302; 0x1301; 0x1302; 0x1301; 0x1302;
     0x1301; 0x1302; 0x1301; 0x1302; 0x1301; 0x1302; 0x1301; 0x1302; 0x1301; 0x1302; 0x1301; 0x1302; 0x1301; 0x1302; 0x1301; 0x1302;
     0x1301; 0x1302; 0x1301; 0x1302; 0x1301; 0x1302; 0x1301; 0x1302; 0x1301; 0x1302; 0x1301; 0x1302; 0x1301; 0x1302; 0x1301; 0x1302;
     0x1301; 0x1302; 0x1301; 0x1302; 0x1301; 0x1302; 0x1301; 0x1302; 0x1301; 0x1302; 0x1301; 0x1302; 0x1301; 0x1302; 0x1301; 0x1302;
     0x1301; 0x1302; 0x1301; 0x1302; 0x1301; 0x1302; 0x1302; 0x1302; 0x1302; 0x1302; 0x1302; 0x1302; 0x1302; 0x1302; 0x1301; 0x1302;
     0x1301; 0x1302; 0x1301; 0x1302; 0x1301; 0x1302; 0x1301; 0x1302; 0x1301; 0x1302; 0x1301; 0x1302; 0x1301; 0x1302; 0x1301; 0x1302;
     0x1301; 0x1302; 0x1301; 0x1302; 0x1301; 0x1302; 0x1301; 0x1302; 0x1301; 0x1302; 0x1301; 0x1302; 0x1301; 0x1302; 0x1301; 0x1302;
     0x1301; 0x1302; 0x1301; 0x1302; 0x1301; 0x1302; 0x1301; 0x1302; 0x1301; 0x1302; 0x1301; 0x1302; 0x1301; 0x1302; 0x1301; 0x1302;
     0x1301; 0x1302; 0x1301; 0x1302; 0x1301; 0x1302; 0x1301; 0x1302; 0x1301; 0x1302; 0x1301; 0x1302; 0x1301; 0x1302; 0x1301; 0x1302;
     0x1301; 0x1302; 0x1301; 0x1302; 0x1301; 0x1302; 0x1301; 0x1302; 0x1301; 0x1302; 0x1301; 0x1302; 0x1301; 0x1302; 0x1301; 0x1302;
     0x1301; 0x1302; 0x1301; 0x1302; 0x1301; 0x1302; 0x1301; 0x1302; 0x1301; 0x1302; 0x1301; 0x1302; 0x1301; 0x1302; 0x1301; 0x1302];
   [0x1302; 0x1302; 0x1302; 0x1302; 0x1302; 0x1302; 0x1302; 0x1302; 0x1301; 0x1301; 0x1301; 0x1301; 0x1301; 0x1301; 0x1301; 0x1301;
     0x1302; 0x1302; 0x1302; 0x1302; 0x1302; 0x1302; 0; 0; 0x1301; 0x1301; 0x1301; 0x1301; 0x1301; 0x1301; 0; 0;
     0x1302; 0x1302; 0x1302; 0x1302; 0x1302; 0x1302; 0x1302; 0x1302; 0x1301; 0x1301; 0x1301; 0x1301; 0x1301; 0x1301; 0x1301; 0x1301;
     0x1302; 0x1302; 0x1302; 0x1302; 0x1302; 0x1302; 0x1302; 0x1302; 0x1301; 0x1301; 0x1301; 0x1301; 0x1301; 0x1301; 0x1301; 0x1301;
     0x1302; 0x1302; 0x1302; 0x1302; 0x1302; 0x1302; 0; 0; 0x1301; 0x1301; 0x1301; 0x1301; 0x1301; 0x1301; 0; 0;
     0x1302; 0x1302; 0x1302; 0x1302; 0x1302; 0x1302; 0x1302; 0x1302; 0; 0x1301; 0; 0x1301; 0; 0x1301; 0; 0x1301;
     0x1302; 0x1302; 0x1302; 0x1302; 0x1302; 0x1302; 0x1302; 0x1302; 0x1301; 0x1301; 0x1301; 0x1301; 0x1301; 0x1301; 0x1301; 0x1301;
     0x1302; 0x1302; 0x1302; 0x1302; 0x1302; 0x1302; 0x1302; 0x1302; 0x1302; 0x1302; 0x1302; 0x1302; 0x1302; 0x1302; 0; 0;
     0x1302; 0x1302; 0x1302; 0x1302; 0x1302; 0x1302; 0x1302; 0x1302; 0x1303; 0x1303; 0x1303; 0x1303; 0x1303; 0x1303; 0x1303; 0x1303;
     0x1302; 0x1302; 0x1302; 0x1302; 0x1302; 0x1302; 0x1302; 0x1302; 0x1303; 0x1303; 0x1303; 0x1303; 0x1303; 0x1303; 0x1303; 0x1303;
     0x1302; 0x1302; 0x1302; 0x1302; 0x1302; 0x1302; 0x1302; 0x1302; 0x1303; 0x1303; 0x1303; 0x1303; 0x1303; 0x1303; 0x1303; 0x1303;
     0x1302; 0x1302; 0x1302; 0x1302; 0x1302; 0; 0x1302; 0x1302; 0x1301; 0x1301; 0x1301; 0x1301; 0x1303; 0xb200; 0x1302; 0xb200;
     0xb200; 0xb200; 0x1302; 0x1302; 0x1302; 0; 0x1302; 0x1302; 0x1301; 0x1301; 0x1301; 0x1301; 0x1303; 0xb200; 0xb200; 0xb200;
     0x1302; 0x1302; 0x1302; 0x1302; 0; 0; 0x1302; 0x1302; 0x1301; 0x1301; 0x1301; 0x1301; 0; 0xb200; 0xb200; 0xb200;
     0x1302; 0x1302; 0x1302; 0x1302; 0x1302; 0x1302; 0x1302; 0x1302; 0x1301; 0x1301; 0x1301; 0x1301; 0x1301; 0xb200; 0xb200; 0xb200;
     0; 0; 0x1302; 0x1302; 0x1302; 0; 0x1302; 0x1302; 0x1301; 0x1301; 0x1301; 0x1301; 0x1303; 0xb200; 0xb200; 0];
   [0xa208; 0xa208; 0xa208; 0xa208; 0xa208; 0xa208; 0xa208; 0xa208; 0xa208; 0xa208; 0xa208; 0xe220; 0xe220; 0xe220; 0x1220; 0x2220;
     0xb210; 0xb210; 0xb210; 0xb210; 0xb210; 0xb210; 0xb210; 0xb210; 0xb210; 0xb210; 0xb210; 0xb210; 0xb210; 0xb210; 0xb210; 0xb210;
     0xb210; 0xb210; 0xb210; 0xb210; 0xb210; 0xb210; 0xb210; 0xb210; 0xa208; 0x8208; 0xf220; 0xf220; 0xf220; 0xf220; 0xf220; 0x7208;
     0x5210; 0x5210; 0x5210; 0x5210; 0x5210; 0xb210; 0xb210; 0xb210; 0xb210; 0xb210; 0xb210; 0xb210; 0xb210; 0xb210; 0xb210; 0xb210;
     0xb210; 0xb210; 0xb210; 0xb210; 0x7200; 0xb210; 0xb210; 0xb210; 0xb210; 0xb210; 0xb210; 0xb210; 0xb210; 0xb210; 0xb210; 0xb210;
     0xb210; 0xb210; 0xb200; 0xb210; 0xb210; 0xb210; 0xb210; 0xb210; 0xb210; 0xb210; 0xb210; 0xb210; 0xb210; 0xb210; 0xb210; 0xa208;
     0xe220; 0xe220; 0xe220; 0xe220; 0xe220; 0; 0xf220; 0xf220; 0xf220; 0xf220; 0xe220; 0xe220; 0xe220; 0xe220; 0xe220; 0xe220;
     0x3200; 0x1302; 0; 0; 0x3200; 0x3200; 0x3200; 0x3200; 0x3200; 0x3200; 0x4200; 0x4200; 0xb200; 0xb210; 0xb210; 0x1302;
     0x3200; 0x3200; 0x3200; 0x3200; 0x3200; 0x3200; 0x3200; 0x3200; 0x3200; 0x3200; 0x4200; 0x4200; 0xb200; 0xb210; 0xb210; 0;
     0x1300; 0x1300; 0x1300; 0x1300; 0x1300; 0x1300; 0x1300; 0x1300; 0x1300; 0x1300; 0x1300; 0x1300; 0x1300; 0; 0; 0;
     0x5200; 0x5200; 0x5200; 0x5200; 0x5200; 0x5200; 0x5200; 0x5200; 0x5200; 0x5200; 0x5200; 0x5200; 0x5200; 0x5200; 0x5200; 0x5200;
     0x5200; 0x5200; 0x5200; 0x5200; 0x5200; 0x5200; 0x5200; 0x5200; 0x5200; 0x5200; 0x5200; 0x5200; 0x5200; 0x5200; 0x5200; 0;
     0; 0; 0; 0; 0; 0; 0; 0; 0; 0; 0; 0; 0; 0; 0; 0;
     0xd200; 0xd200; 0xd200; 0xd200; 0xd200; 0xd200; 0xd200; 0xd200; 0xd200; 0xd200; 0xd200; 0xd200; 0xd200; 0xd200; 0xd200; 0xd200;
     0xd200; 0xd200; 0xd200; 0xd200; 0xd200; 0xd200; 0xd200; 0xd200; 0xd200; 0xd200; 0xd200; 0xd200; 0xd200; 0xd200; 0xd200; 0xd200;
     0xd200; 0; 0; 0; 0; 0; 0; 0; 0; 0; 0; 0; 0; 0; 0; 0];
   [0xb200; 0xb200; 0x1301; 0xb200; 0xb200; 0xb200; 0xb200; 0x1301; 0xb200; 0xb200; 0x1302; 0x1301; 0x1301; 0x1301; 0x1302; 0x1302;
     0x1301; 0x1301; 0x1301; 0x1302; 0xb200; 0x1301; 0xb200; 0xb200; 0xb200; 0x1301; 0x1301; 0x1301; 0x1301; 0x1301; 0xb200; 0xb200;
     0xb200; 0xb200; 0xb200; 0xb200; 0x1301; 0xb200; 0x1301; 0xb200; 0x1301; 0xb200; 0x1301; 0x1301; 0x1301; 0x1301; 0x5200; 0x1302;
     0x1301; 0x1301; 0x1301; 0x1301; 0x1302; 0x1300; 0x1300; 0x1300; 0x1300; 0x1302; 0xb200; 0xb200; 0x1302; 0x1302; 0x1301; 0x1301;
     0xb200; 0xb200; 0xb200; 0xb200; 0xb200; 0x1301; 0x1302; 0x1302; 0x1302; 0x1302; 0xb200; 0xb200; 0xb200; 0xb200; 0x1302; 0x1200;
     0xb200; 0xb200; 0xb200; 0xb200; 0xb200; 0xb200; 0xb200; 0xb200; 0xb200; 0xb200; 0xb200; 0xb200; 0xb200; 0xb200; 0xb200; 0xb200;
     0x1300; 0x1300; 0x1300; 0x1300; 0x1300; 0x1300; 0x1300; 0x1300; 0x1300; 0x1300; 0x1300; 0x1300; 0x1300; 0x1300; 0x1300; 0x1300;
     0x1300; 0x1300; 0x1300; 0x1300; 0x1300; 0x1300; 0x1300; 0x1300; 0x1300; 0x1300; 0x1300; 0x1300; 0x1300; 0x1300; 0x1300; 0x1300;
     0x1300; 0x1300; 0x1300; 0x1301; 0x1302; 0x1300; 0x1300; 0x1300; 0x1300; 0xb200; 0xb200; 0xb200; 0; 0; 0; 0;
     0xb200; 0xb200; 0xb200; 0xb200; 0xb200; 0xb200; 0xb200; 0xb200; 0xb200; 0xb200; 0xb200; 0xb200; 0xb200; 0xb200; 0xb200; 0xb200;
     0xb200; 0xb200; 0xb200; 0xb200; 0xb200; 0xb200; 0xb200; 0xb200; 0xb200; 0xb200; 0xb200; 0xb200; 0xb200; 0xb200; 0xb200; 0xb200;
     0xb200; 0xb200; 0xb200; 0xb200; 0xb200; 0xb200; 0xb200; 0xb200; 0xb200; 0xb200; 0xb200; 0xb200; 0xb200; 0xb200; 0xb200; 0xb200;
     0xb200; 0xb200; 0xb200; 0xb200; 0xb200; 0xb200; 0xb200; 0xb200; 0xb200; 0xb200; 0xb200; 0xb200; 0xb200; 0xb200; 0xb200; 0xb200;
     0xb200; 0xb200; 0xb200; 0xb200; 0xb200; 0xb200; 0xb200; 0xb200; 0xb200; 0xb200; 0xb200; 0xb200; 0xb200; 0xb200; 0xb200; 0xb200;
     0xb200; 0xb200; 0xb200; 0xb200; 0xb200; 0xb200; 0xb200; 0xb200; 0xb200; 0xb200; 0xb200; 0xb200; 0xb200; 0xb200; 0xb200; 0xb200;
     0xb200; 0xb200; 0xb200; 0xb200; 0xb200; 0xb200; 0xb200; 0xb200; 0xb200; 0xb200; 0xb200; 0xb200; 0xb200; 0xb200; 0xb200; 0xb200];
   [0xb200; 0xb200; 0xb200; 0xb200; 0xb200; 0xb200; 0xb200; 0xb200; 0xb200; 0xb200; 0xb200; 0xb200; 0xb200; 0xb200; 0xb200; 0xb200;
     0xb200; 0xb200; 0x4200; 0x5200; 0xb200; 0xb200; 0xb200; 0xb200; 0xb200; 0xb200; 0xb200; 0xb200; 0xb200; 0xb200; 0xb200; 0xb200;
     0xb200; 0xb200; 0xb200; 0xb200; 0xb200; 0xb200; 0xb200; 0xb200; 0xb200; 0xb200; 0xb200; 0xb200; 0xb200; 0xb200; 0xb200; 0xb200;
     0xb200; 0xb200; 0xb200; 0xb200; 0xb200; 0xb200; 0xb200; 0xb200; 0xb200; 0xb200; 0xb200; 0xb200; 0xb200; 0xb200; 0xb200; 0xb200;
     0xb200; 0xb200; 0xb200; 0xb200; 0xb200; 0xb200; 0xb200; 0xb200; 0xb200; 0xb200; 0xb200; 0xb200; 0xb200; 0xb200; 0xb200; 0xb200;
     0xb200; 0xb200; 0xb200; 0xb200; 0xb200; 0xb200; 0xb200; 0xb200; 0xb200; 0xb200; 0xb200; 0xb200; 0xb200; 0xb200; 0xb200; 0xb200;
     0xb200; 0xb200; 0xb200; 0xb200; 0xb200; 0xb200; 0xb200; 0xb200; 0xb200; 0xb200; 0xb200; 0xb200; 0xb200; 0xb200; 0xb200; 0xb200;
     0xb200; 0xb200; 0xb200; 0xb200; 0xb200; 0xb200; 0xb200; 0xb200; 0xb200; 0xb200; 0xb200; 0xb200; 0xb200; 0xb200; 0xb200; 0xb200;
     0xb200; 0xb200; 0xb200; 0xb200; 0xb200; 0xb200; 0xb200; 0xb200; 0xb200; 0xb200; 0xb200; 0xb200; 0xb200; 0xb200; 0xb200; 0xb200;
     0xb200; 0xb200; 0xb200; 0xb200; 0xb200; 0xb200; 0xb200; 0xb200; 0xb200; 0xb200; 0xb200; 0xb200; 0xb200; 0xb200; 0xb200; 0xb200;
     0xb200; 0xb200; 0xb200; 0xb200; 0xb200; 0xb200; 0xb200; 0xb200; 0xb200; 0xb200; 0xb200; 0xb200; 0xb200; 0xb200; 0xb200; 0xb200;
     0xb200; 0xb200; 0xb200; 0xb200; 0xb200; 0xb200; 0xb200; 0xb200; 0xb200; 0xb200; 0xb200; 0xb200; 0xb200; 0xb200; 0xb200; 0xb200;
     0xb200; 0xb200; 0xb200; 0xb200; 0xb200; 0xb200; 0xb200; 0xb200; 0xb200; 0xb200; 0xb200; 0xb200; 0xb200; 0xb200; 0xb200; 0xb200;
     0xb200; 0xb200; 0xb200; 0xb200; 0xb200; 0xb200; 0xb200; 0xb200; 0xb200; 0xb200; 0xb200; 0xb200; 0xb200; 0xb200; 0xb200; 0xb200;
     0xb200; 0xb200; 0xb200; 0xb200; 0xb200; 0xb200; 0xb200; 0xb200; 0xb200; 0xb200; 0xb200; 0xb200; 0xb200; 0xb200; 0xb200; 0xb200;
     0xb200; 0xb200; 0xb200; 0xb200; 0xb200; 0xb200; 0xb200; 0xb200; 0xb200; 0xb200; 0xb200; 0xb200; 0xb200; 0xb200; 0xb200; 0xb200];
   [0xb200; 0xb200; 0xb200; 0xb200; 0xb200; 0xb200; 0xb200; 0xb200; 0xb210; 0xb210; 0xb210; 0xb210; 0xb200; 0xb200; 0xb200; 0xb200;
     0xb200; 0xb200; 0xb200; 0xb200; 0xb200; 0xb200; 0xb200; 0xb200; 0xb200; 0xb200; 0xb200; 0xb200; 0xb200; 0xb200; 0xb200; 0xb200;
     0xb200; 0xb200; 0xb200; 0xb200; 0xb200; 0xb200; 0xb200; 0xb200; 0xb200; 0xb210; 0xb210; 0xb200; 0xb200; 0xb200; 0xb200; 0xb200;
     0xb200; 0xb200; 0xb200; 0xb200; 0xb200; 0xb200; 0x1200; 0x1200; 0x1200; 0x1200; 0x1200; 0x1200; 0x1200; 0x1200; 0x1200; 0x1200;
     0x1200; 0x1200; 0x1200; 0x1200; 0x1200; 0x1200; 0x1200; 0x1200; 0x1200; 0x1200; 0x1200; 0x1200; 0x1200; 0x1200; 0x1200; 0x1200;
     0x1200; 0x1200; 0x1200; 0x1200; 0x1200; 0x1200; 0x1200; 0x1200; 0x1200; 0x1200; 0x1200; 0x1200; 0x1200; 0x1200; 0x1200; 0x1200;
     0x1200; 0x1200; 0x1200; 0x1200; 0x1200; 0x1200; 0x1200; 0x1200; 0x1200; 0x1200; 0x1200; 0x1200; 0x1200; 0x1200; 0x1200; 0x1200;
     0x1200; 0x1200; 0x1200; 0x1200; 0x1200; 0x1200; 0x1200; 0x1200; 0x1200; 0x1200; 0x1200; 0xb200; 0xb200; 0xb200; 0xb200; 0xb200;
     0xb200; 0xb200; 0xb200; 0xb200; 0xb200; 0xb200; 0xb200; 0xb200; 0xb200; 0xb200; 0xb200; 0xb200; 0xb200; 0xb200; 0xb200; 0xb200;
     0xb200; 0xb200; 0xb200; 0xb200; 0xb200; 0x1200; 0xb200; 0xb200; 0xb200; 0xb200; 0xb200; 0xb200; 0xb200; 0xb200; 0xb200; 0xb200;
     0xb200; 0xb200; 0xb200; 0xb200; 0xb200; 0xb200; 0xb200; 0xb200; 0xb200; 0xb200; 0xb200; 0xb200; 0xb200; 0xb200; 0xb200; 0xb200;
     0xb200; 0xb200; 0xb200; 0xb200; 0xb200; 0xb200; 0xb200; 0xb200; 0xb200; 0xb200; 0xb200; 0xb200; 0xb200; 0xb200; 0xb200; 0xb200;
     0xb200; 0xb200; 0xb200; 0xb200; 0xb200; 0xb200; 0xb200; 0xb200; 0xb200; 0xb200; 0xb200; 0xb200; 0xb200; 0xb200; 0xb200; 0xb200;
     0xb200; 0xb200; 0xb200; 0xb200; 0xb200; 0xb200; 0xb200; 0xb200; 0xb200; 0xb200; 0xb200; 0xb200; 0xb200; 0xb200; 0xb200; 0xb200;
     0xb200; 0xb200; 0xb200; 0xb200; 0xb200; 0xb200; 0xb200; 0xb200; 0xb200; 0xb200; 0xb200; 0xb200; 0xb200; 0xb200; 0xb200; 0xb200;
     0xb200; 0xb200; 0xb200; 0xb200; 0xb200; 0xb200; 0xb200; 0xb200; 0xb200; 0xb200; 0xb200; 0xb200; 0xb200; 0xb200; 0xb200; 0];
   [0xb200; 0xb200; 0xb200; 0xb200; 0xb200; 0xb200; 0xb200; 0xb200; 0xb200; 0xb200; 0xb200; 0xb200; 0xb200; 0xb200; 0xb200; 0xb200;
     0xb200; 0xb200; 0xb200; 0xb200; 0xb200; 0xb200; 0xb200; 0xb200; 0xb200; 0xb200; 0xb200; 0xb200; 0xb200; 0xb200; 0xb200; 0xb200;
     0xb200; 0xb200; 0xb200; 0xb200; 0xb200; 0xb200; 0xb200; 0; 0; 0; 0; 0; 0; 0; 0; 0;
     0; 0; 0; 0; 0; 0; 0; 0; 0; 0; 0; 0; 0; 0; 0; 0;
     0xb200; 0xb200; 0xb200; 0xb200; 0xb200; 0xb200; 0xb200; 0xb200; 0xb200; 0xb200; 0xb200; 0; 0; 0; 0; 0;
     0; 0; 0; 0; 0; 0; 0; 0; 0; 0; 0; 0; 0; 0; 0; 0;
     0xb200; 0xb200; 0xb200; 0xb200; 0xb200; 0xb200; 0xb200; 0xb200; 0xb200; 0xb200; 0xb200; 0xb200; 0xb200; 0xb200; 0xb200; 0xb200;
     0xb200; 0xb200; 0xb200; 0xb200; 0xb200; 0xb200; 0xb200; 0xb200; 0xb200; 0xb200; 0xb200; 0xb200; 0xb200; 0xb200; 0xb200; 0xb200;
     0xb200; 0xb200; 0xb200; 0xb200; 0xb200; 0xb200; 0xb200; 0xb200; 0x3200; 0x3200; 0x3200; 0x3200; 0x3200; 0x3200; 0x3200; 0x3200;
     0x3200; 0x3200; 0x3200; 0x3200; 0x3200; 0x3200; 0x3200; 0x3200; 0x3200; 0x3200; 0x3200; 0x3200; 0x1200; 0x1200; 0x1200; 0x1200;
     0x1200; 0x1200; 0x1200; 0x1200; 0x1200; 0x1200; 0x1200; 0x1200; 0x1200; 0x1200; 0x1200; 0x1200; 0x1200; 0x1200; 0x1200; 0x1200;
     0x1200; 0x1200; 0x1200; 0x1200; 0x1200; 0x1200; 0x1200; 0x1200; 0x1200; 0x1200; 0x1200; 0x1200; 0x1200; 0x1200; 0x1200; 0x1200;
     0x1200; 0x1200; 0x1200; 0x1200; 0x1200; 0x1200; 0x1200; 0x1200; 0x1200; 0x1200; 0x1200; 0x1200; 0x1200; 0x1200; 0x1200; 0x1200;
     0x1200; 0x1200; 0x1200; 0x1200; 0x1200; 0x1200; 0x1200; 0x1200; 0x1200; 0x1200; 0x1200; 0x1200; 0x1200; 0x1200; 0x1200; 0x1200;
     0x1200; 0x1200; 0x1200; 0x1200; 0x1200; 0x1200; 0x1200; 0x1200; 0x1200; 0x1200; 0xb200; 0xb200; 0xb200; 0xb200; 0xb200; 0xb200;
     0xb200; 0xb200; 0xb200; 0xb200; 0xb200; 0xb200; 0xb200; 0xb200; 0xb200; 0xb200; 0xb200; 0xb200; 0xb200; 0xb200; 0xb200; 0xb200];
   [0xb200; 0xb200; 0xb200; 0xb200; 0xb200; 0xb200; 0xb200; 0xb200; 0xb200; 0xb200; 0xb200; 0xb200; 0xb200; 0xb200; 0xb200; 0xb200;
     0xb200; 0xb200; 0xb200; 0xb200; 0xb200; 0xb200; 0xb200; 0xb200; 0xb200; 0xb200; 0xb200; 0xb200; 0xb200; 0xb200; 0xb200; 0xb200;
     0xb200; 0xb200; 0xb200; 0xb200; 0xb200; 0xb200; 0xb200; 0xb200; 0xb200; 0xb200; 0xb200; 0xb200; 0xb200; 0xb200; 0xb200; 0xb200;
     0xb200; 0xb200; 0xb200; 0xb200; 0xb200; 0xb200; 0xb200; 0xb200; 0xb200; 0xb200; 0xb200; 0xb200; 0xb200; 0xb200; 0xb200; 0xb200;
     0xb200; 0xb200; 0xb200; 0xb200; 0xb200; 0xb200; 0xb200; 0xb200; 0xb200; 0xb200; 0xb200; 0xb200; 0xb200; 0xb200; 0xb200; 0xb200;
     0xb200; 0xb200; 0xb200; 0xb200; 0xb200; 0xb200; 0xb200; 0xb200; 0xb200; 0xb200; 0xb200; 0xb200; 0xb200; 0xb200; 0xb200; 0xb200;
     0xb200; 0xb200; 0xb200; 0xb200; 0xb200; 0xb200; 0xb200; 0xb200; 0xb200; 0xb200; 0xb200; 0xb200; 0xb200; 0xb200; 0xb200; 0xb200;
     0xb200; 0xb200; 0xb200; 0xb200; 0xb200; 0xb200; 0xb200; 0xb200; 0xb200; 0xb200; 0xb200; 0xb200; 0xb200; 0xb200; 0xb200; 0xb200;
     0xb200; 0xb200; 0xb200; 0xb200; 0xb200; 0xb200; 0xb200; 0xb200; 0xb200; 0xb200; 0xb200; 0xb200; 0xb200; 0xb200; 0xb200; 0xb200;
     0xb200; 0xb200; 0xb200; 0xb200; 0xb200; 0xb200; 0xb200; 0xb200; 0xb200; 0xb200; 0xb200; 0xb200; 0xb200; 0xb200; 0xb200; 0xb200;
     0xb200; 0xb200; 0xb200; 0xb200; 0xb200; 0xb200; 0xb200; 0xb200; 0xb200; 0xb200; 0xb200; 0xb200; 0xb200; 0xb200; 0xb200; 0xb200;
     0xb200; 0xb200; 0xb200; 0xb200; 0xb200; 0xb200; 0xb200; 0xb200; 0xb200; 0xb200; 0xb200; 0xb200; 0xb200; 0xb200; 0xb200; 0xb200;
     0xb200; 0xb200; 0xb200; 0xb200; 0xb200; 0xb200; 0xb200; 0xb200; 0xb200; 0xb200; 0xb200; 0xb200; 0xb200; 0xb200; 0xb200; 0xb200;
     0xb200; 0xb200; 0xb200; 0xb200; 0xb200; 0xb200; 0xb200; 0xb200; 0xb200; 0xb200; 0xb200; 0xb200; 0xb200; 0xb200; 0xb200; 0xb200;
     0xb200; 0xb200; 0xb200; 0xb200; 0xb200; 0xb200; 0xb200; 0xb200; 0xb200; 0xb200; 0xb200; 0xb200; 0xb200; 0xb200; 0xb200; 0xb200;
     0xb200; 0xb200; 0xb200; 0xb200; 0xb200; 0xb200; 0xb200; 0xb200; 0xb200; 0xb200; 0xb200; 0xb200; 0xb200; 0xb200; 0xb200; 0xb200];
   [0xb200; 0xb200; 0xb200; 0xb200; 0xb200; 0xb200; 0xb200; 0xb200; 0xb200; 0xb200; 0xb200; 0xb200; 0xb200; 0xb200; 0xb200; 0xb200;
     0xb200; 0xb200; 0xb200; 0xb200; 0xb200; 0xb200; 0xb200; 0xb200; 0xb200; 0xb200; 0xb200; 0xb200; 0xb200; 0xb200; 0xb200; 0xb200;
     0xb200; 0xb200; 0xb200; 0xb200; 0xb200; 0xb200; 0xb200; 0xb200; 0xb200; 0xb200; 0xb200; 0xb200; 0xb200; 0xb200; 0xb200; 0xb200;
     0xb200; 0xb200; 0xb200; 0xb200; 0xb200; 0xb200; 0xb200; 0xb200; 0xb200; 0xb200; 0xb200; 0xb200; 0xb200; 0xb200; 0xb200; 0xb200;
     0xb200; 0xb200; 0xb200; 0xb200; 0xb200; 0xb200; 0xb200; 0xb200; 0xb200; 0xb200; 0xb200; 0xb200; 0xb200; 0xb200; 0xb200; 0xb200;
     0xb200; 0xb200; 0xb200; 0xb200; 0xb200; 0xb200; 0xb200; 0xb200; 0xb200; 0xb200; 0xb200; 0xb200; 0xb200; 0xb200; 0xb200; 0xb200;
     0xb200; 0xb200; 0xb200; 0xb200; 0xb200; 0xb200; 0xb200; 0xb200; 0xb200; 0xb200; 0xb200; 0xb200; 0xb200; 0xb200; 0xb200; 0xb200;
     0xb200; 0xb200; 0xb200; 0xb200; 0xb200; 0xb200; 0xb200; 0xb200; 0xb200; 0xb200; 0xb200; 0xb200; 0xb200; 0xb200; 0xb200; 0xb200;
     0xb200; 0xb200; 0xb200; 0xb200; 0xb200; 0xb200; 0xb200; 0xb200; 0xb200; 0xb200; 0xb200; 0xb200; 0xb200; 0xb200; 0xb200; 0xb200;
     0xb200; 0xb200; 0xb200; 0xb200; 0xb200; 0xb200; 0xb200; 0xb200; 0xb200; 0xb200; 0xb200; 0xb200; 0xb200; 0xb200; 0xb200; 0xb200;
     0xb200; 0xb200; 0xb200; 0xb200; 0xb200; 0xb200; 0xb200; 0xb200; 0xb200; 0xb200; 0xb200; 0xb200; 0x1200; 0xb200; 0xb200; 0xb200;
     0xb200; 0xb200; 0xb200; 0xb200; 0xb200; 0xb200; 0xb200; 0xb200; 0xb200; 0xb200; 0xb200; 0xb200; 0xb200; 0xb200; 0xb200; 0xb200;
     0xb200; 0xb200; 0xb200; 0xb200; 0xb200; 0xb200; 0xb200; 0xb200; 0xb200; 0xb200; 0xb200; 0xb200; 0xb200; 0xb200; 0xb200; 0xb200;
     0xb200; 0xb200; 0xb200; 0xb200; 0xb200; 0xb200; 0xb200; 0xb200; 0xb200; 0xb200; 0xb200; 0xb200; 0xb200; 0xb200; 0xb200; 0xb200;
     0xb200; 0xb200; 0xb200; 0xb200; 0xb200; 0xb200; 0xb200; 0xb200; 0xb200; 0xb200; 0xb200; 0xb200; 0xb200; 0xb200; 0xb200; 0xb200;
     0xb200; 0xb200; 0xb200; 0xb200; 0xb200; 0xb200; 0xb200; 0xb200; 0xb200; 0xb200; 0xb200; 0xb200; 0xb200; 0xb200; 0xb200; 0xb200];
   [0xb200; 0xb200; 0xb200; 0xb200; 0xb200; 0xb200; 0xb200; 0xb200; 0xb200; 0xb200; 0xb200; 0xb200; 0xb200; 0xb200; 0xb200; 0xb200;
     0xb200; 0xb200; 0xb200; 0xb200; 0xb200; 0xb200; 0xb200; 0xb200; 0xb200; 0xb200; 0xb200; 0xb200; 0xb200; 0xb200; 0xb200; 0xb200;
     0xb200; 0xb200; 0xb200; 0xb200; 0xb200; 0xb200; 0xb200; 0xb200; 0xb200; 0xb200; 0xb200; 0xb200; 0xb200; 0xb200; 0xb200; 0xb200;
     0xb200; 0xb200; 0xb200; 0xb200; 0xb200; 0xb200; 0xb200; 0xb200; 0xb200; 0xb200; 0xb200; 0xb200; 0xb200; 0xb200; 0xb200; 0xb200;
     0xb200; 0xb200; 0xb200; 0xb200; 0xb200; 0xb200; 0xb200; 0xb200; 0xb200; 0xb200; 0xb200; 0xb200; 0xb200; 0xb200; 0xb200; 0xb200;
     0xb200; 0xb200; 0xb200; 0xb200; 0xb200; 0xb200; 0xb200; 0xb200; 0xb200; 0xb200; 0xb200; 0xb200; 0xb200; 0xb200; 0xb200; 0xb200;
     0xb200; 0xb200; 0xb200; 0xb200; 0xb200; 0xb200; 0xb200; 0xb200; 0xb210; 0xb210; 0xb210; 0xb210; 0xb210; 0xb210; 0xb210; 0xb210;
     0xb210; 0xb210; 0xb210; 0xb210; 0xb210; 0xb210; 0xb200; 0xb200; 0xb200; 0xb200; 0xb200; 0xb200; 0xb200; 0xb200; 0xb200; 0xb200;
     0xb200; 0xb200; 0xb200; 0xb200; 0xb200; 0xb200; 0xb200; 0xb200; 0xb200; 0xb200; 0xb200; 0xb200; 0xb200; 0xb200; 0xb200; 0xb200;
     0xb200; 0xb200; 0xb200; 0xb200; 0xb200; 0xb200; 0xb200; 0xb200; 0xb200; 0xb200; 0xb200; 0xb200; 0xb200; 0xb200; 0xb200; 0xb200;
     0xb200; 0xb200; 0xb200; 0xb200; 0xb200; 0xb200; 0xb200; 0xb200; 0xb200; 0xb200; 0xb200; 0xb200; 0xb200; 0xb200; 0xb200; 0xb200;
     0xb200; 0xb200; 0xb200; 0xb200; 0xb200; 0xb200; 0xb200; 0xb200; 0xb200; 0xb200; 0xb200; 0xb200; 0xb200; 0xb200; 0xb200; 0xb200;
     0xb200; 0xb200; 0xb200; 0xb200; 0xb200; 0xb210; 0xb210; 0xb200; 0xb200; 0xb200; 0xb200; 0xb200; 0xb200; 0xb200; 0xb200; 0xb200;
     0xb200; 0xb200; 0xb200; 0xb200; 0xb200; 0xb200; 0xb200; 0xb200; 0xb200; 0xb200; 0xb200; 0xb200; 0xb200; 0xb200; 0xb200; 0xb200;
     0xb200; 0xb200; 0xb200; 0xb200; 0xb200; 0xb200; 0xb210; 0xb210; 0xb210; 0xb210; 0xb210; 0xb210; 0xb210; 0xb210; 0xb210; 0xb210;
     0xb200; 0xb200; 0xb200; 0xb200; 0xb200; 0xb200; 0xb200; 0xb200; 0xb200; 0xb200; 0xb200; 0xb200; 0xb200; 0xb200; 0xb200; 0xb200];
   [0x1200; 0x1200; 0x1200; 0x1200; 0x1200; 0x1200; 0x1200; 0x1200; 0x1200; 0x1200; 0x1200; 0x1200; 0x1200; 0x1200; 0x1200; 0x1200;
     0x1200; 0x1200; 0x1200; 0x1200; 0x1200; 0x1200; 0x1200; 0x1200; 0x1200; 0x1200; 0x1200; 0x1200; 0x1200; 0x1200; 0x1200; 0x1200;
     0x1200; 0x1200; 0x1200; 0x1200; 0x1200; 0x1200; 0x1200; 0x1200; 0x1200; 0x1200; 0x1200; 0x1200; 0x1200; 0x1200; 0x1200; 0x1200;
     0x1200; 0x1200; 0x1200; 0x1200; 0x1200; 0x1200; 0x1200; 0x1200; 0x1200; 0x1200; 0x1200; 0x1200; 0x1200; 0x1200; 0x1200; 0x1200;
     0x1200; 0x1200; 0x1200; 0x1200; 0x1200; 0x1200; 0x1200; 0x1200; 0x1200; 0x1200; 0x1200; 0x1200; 0x1200; 0x1200; 0x1200; 0x1200;
     0x1200; 0x1200; 0x1200; 0x1200; 0x1200; 0x1200; 0x1200; 0x1200; 0x1200; 0x1200; 0x1200; 0x1200; 0x1200; 0x1200; 0x1200; 0x1200;
     0x1200; 0x1200; 0x1200; 0x1200; 0x1200; 0x1200; 0x1200; 0x1200; 0x1200; 0x1200; 0x1200; 0x1200; 0x1200; 0x1200; 0x1200; 0x1200;
     0x1200; 0x1200; 0x1200; 0x1200; 0x1200; 0x1200; 0x1200; 0x1200; 0x1200; 0x1200; 0x1200; 0x1200; 0x1200; 0x1200; 0x1200; 0x1200;
     0x1200; 0x1200; 0x1200; 0x1200; 0x1200; 0x1200; 0x1200; 0x1200; 0x1200; 0x1200; 0x1200; 0x1200; 0x1200; 0x1200; 0x1200; 0x1200;
     0x1200; 0x1200; 0x1200; 0x1200; 0x1200; 0x1200; 0x1200; 0x1200; 0x1200; 0x1200; 0x1200; 0x1200; 0x1200; 0x1200; 0x1200; 0x1200;
     0x1200; 0x1200; 0x1200; 0x1200; 0x1200; 0x1200; 0x1200; 0x1200; 0x1200; 0x1200; 0x1200; 0x1200; 0x1200; 0x1200; 0x1200; 0x1200;
     0x1200; 0x1200; 0x1200; 0x1200; 0x1200; 0x1200; 0x1200; 0x1200; 0x1200; 0x1200; 0x1200; 0x1200; 0x1200; 0x1200; 0x1200; 0x1200;
     0x1200; 0x1200; 0x1200; 0x1200; 0x1200; 0x1200; 0x1200; 0x1200; 0x1200; 0x1200; 0x1200; 0x1200; 0x1200; 0x1200; 0x1200; 0x1200;
     0x1200; 0x1200; 0x1200; 0x1200; 0x1200; 0x1200; 0x1200; 0x1200; 0x1200; 0x1200; 0x1200; 0x1200; 0x1200; 0x1200; 0x1200; 0x1200;
     0x1200; 0x1200; 0x1200; 0x1200; 0x1200; 0x1200; 0x1200; 0x1200; 0x1200; 0x1200; 0x1200; 0x1200; 0x1200; 0x1200; 0x1200; 0x1200;
     0x1200; 0x1200; 0x1200; 0x1200; 0x1200; 0x1200; 0x1200; 0x1200; 0x1200; 0x1200; 0x1200; 0x1200; 0x1200; 0x1200; 0x1200; 0x1200];
   [0xb200; 0xb200; 0xb200; 0xb200; 0xb200; 0xb200; 0xb200; 0xb200; 0xb200; 0xb200; 0xb200; 0xb200; 0xb200; 0xb200; 0xb200; 0xb200;
     0xb200; 0xb200; 0xb200; 0xb200; 0xb200; 0xb200; 0xb200; 0xb200; 0xb200; 0xb200; 0xb200; 0xb200; 0xb200; 0xb200; 0xb200; 0xb200;
     0xb200; 0xb200; 0xb200; 0xb200; 0xb200; 0xb200; 0xb200; 0xb200; 0xb200; 0xb200; 0xb200; 0xb200; 0xb200; 0xb200; 0xb200; 0xb200;
     0xb200; 0xb200; 0xb200; 0xb200; 0xb200; 0xb200; 0xb200; 0xb200; 0xb200; 0xb200; 0xb200; 0xb200; 0xb200; 0xb200; 0xb200; 0xb200;
     0xb200; 0xb200; 0xb200; 0xb200; 0xb200; 0xb200; 0xb200; 0xb200; 0xb200; 0xb200; 0xb200; 0xb200; 0xb200; 0xb200; 0xb200; 0xb200;
     0xb200; 0xb200; 0xb200; 0xb200; 0xb200; 0xb200; 0xb200; 0xb200; 0xb200; 0xb200; 0xb200; 0xb200; 0xb200; 0xb200; 0xb200; 0xb200;
     0xb200; 0xb200; 0xb200; 0xb200; 0xb200; 0xb200; 0xb200; 0xb200; 0xb200; 0xb200; 0xb200; 0xb200; 0xb200; 0xb200; 0xb200; 0xb200;
     0xb200; 0xb200; 0xb200; 0xb200; 0xb200; 0xb200; 0xb200; 0xb200; 0xb200; 0xb200; 0xb200; 0xb200; 0xb200; 0xb200; 0xb200; 0xb200;
     0xb200; 0xb200; 0xb200; 0xb210; 0xb210; 0xb210; 0xb210; 0xb210; 0xb210; 0xb210; 0xb210; 0xb210; 0xb210; 0xb210; 0xb210; 0xb210;
     0xb210; 0xb210; 0xb210; 0xb210; 0xb210; 0xb210; 0xb210; 0xb210; 0xb210; 0xb200; 0xb200; 0xb200; 0xb200; 0xb200; 0xb200; 0xb200;
     0xb200; 0xb200; 0xb200; 0xb200; 0xb200; 0xb200; 0xb200; 0xb200; 0xb200; 0xb200; 0xb200; 0xb200; 0xb200; 0xb200; 0xb200; 0xb200;
     0xb200; 0xb200; 0xb200; 0xb200; 0xb200; 0xb200; 0xb200; 0xb200; 0xb200; 0xb200; 0xb200; 0xb200; 0xb200; 0xb200; 0xb200; 0xb200;
     0xb200; 0xb200; 0xb200; 0xb200; 0xb200; 0xb200; 0xb200; 0xb200; 0xb200; 0xb200; 0xb200; 0xb200; 0xb200; 0xb200; 0xb200; 0xb200;
     0xb200; 0xb200; 0xb200; 0xb200; 0xb200; 0xb200; 0xb200; 0xb200; 0xb210; 0xb210; 0xb210; 0xb210; 0xb200; 0xb200; 0xb200; 0xb200;
     0xb200; 0xb200; 0xb200; 0xb200; 0xb200; 0xb200; 0xb200; 0xb200; 0xb200; 0xb200; 0xb200; 0xb200; 0xb200; 0xb200; 0xb200; 0xb200;
     0xb200; 0xb200; 0xb200; 0xb200; 0xb200; 0xb200; 0xb200; 0xb200; 0xb200; 0xb200; 0xb200; 0xb200; 0xb210; 0xb210; 0xb200; 0xb200];
   [0xb200; 0xb200; 0xb200; 0xb200; 0xb200; 0xb200; 0xb200; 0xb200; 0xb200; 0xb200; 0xb200; 0xb200; 0xb200; 0xb200; 0xb200; 0xb200;
     0xb200; 0xb200; 0xb200; 0xb200; 0xb200; 0xb200; 0xb200; 0xb200; 0xb200; 0xb200; 0xb200; 0xb200; 0xb200; 0xb200; 0xb200; 0xb200;
     0xb200; 0xb200; 0xb200; 0xb200; 0xb200; 0xb200; 0xb200; 0xb200; 0xb200; 0xb200; 0xb200; 0xb200; 0xb200; 0xb200; 0xb200; 0xb200;
     0xb200; 0xb200; 0xb200; 0xb200; 0xb200; 0xb200; 0xb200; 0xb200; 0xb200; 0xb200; 0xb200; 0xb200; 0xb200; 0xb200; 0xb200; 0xb200;
     0xb200; 0xb200; 0xb200; 0xb200; 0xb200; 0xb200; 0xb200; 0xb200; 0xb200; 0xb200; 0xb200; 0xb200; 0xb200; 0xb200; 0xb200; 0xb200;
     0xb200; 0xb200; 0xb200; 0xb200; 0xb200; 0xb200; 0xb200; 0xb200; 0xb200; 0xb200; 0xb200; 0xb200; 0xb200; 0xb200; 0xb200; 0xb200;
     0xb200; 0xb200; 0xb200; 0xb200; 0xb200; 0xb200; 0xb200; 0xb200; 0xb200; 0xb200; 0xb200; 0xb200; 0xb200; 0xb200; 0xb200; 0xb200;
     0xb200; 0xb200; 0xb200; 0xb200; 0; 0; 0xb200; 0xb200; 0xb200; 0xb200; 0xb200; 0xb200; 0xb200; 0xb200; 0xb200; 0xb200;
     0xb200; 0xb200; 0xb200; 0xb200; 0xb200; 0xb200; 0xb200; 0xb200; 0xb200; 0xb200; 0xb200; 0xb200; 0xb200; 0xb200; 0xb200; 0xb200;
     0xb200; 0xb200; 0xb200; 0xb200; 0xb200; 0xb200; 0; 0; 0xb200; 0xb200; 0xb200; 0xb200; 0xb200; 0xb200; 0xb200; 0xb200;
     0xb200; 0xb200; 0xb200; 0xb200; 0xb200; 0xb200; 0xb200; 0xb200; 0xb200; 0xb200; 0xb200; 0xb200; 0xb200; 0xb200; 0xb200; 0xb200;
     0xb200; 0xb200; 0xb200; 0xb200; 0xb200; 0xb200; 0xb200; 0xb200; 0xb200; 0xb200; 0; 0; 0; 0xb200; 0xb200; 0xb200;
     0xb200; 0xb200; 0xb200; 0xb200; 0xb200; 0xb200; 0xb200; 0xb200; 0xb200; 0; 0xb200; 0xb200; 0xb200; 0xb200; 0xb200; 0xb200;
     0xb200; 0xb200; 0; 0; 0; 0; 0; 0; 0; 0; 0; 0; 0; 0; 0; 0;
     0; 0; 0; 0; 0; 0; 0; 0; 0; 0; 0; 0; 0xb200; 0xb200; 0xb200; 0xb200;
     0; 0; 0; 0; 0; 0; 0; 0; 0; 0; 0; 0; 0; 0; 0; 0];
   [0x1301; 0x1301; 0x1301; 0x1301; 0x1301; 0x1301; 0x1301; 0x1301; 0x1301; 0x1301; 0x1301; 0x1301; 0x1301; 0x1301; 0x1301; 0x1301;
     0x1301; 0x1301; 0x1301; 0x1301; 0x1301; 0x1301; 0x1301; 0x1301; 0x1301; 0x1301; 0x1301; 0x1301; 0x1301; 0x1301; 0x1301; 0x1301;
     0x1301; 0x1301; 0x1301; 0x1301; 0x1301; 0x1301; 0x1301; 0x1301; 0x1301; 0x1301; 0x1301; 0x1301; 0x1301; 0x1301; 0x1301; 0;
     0x1302; 0x1302; 0x1302; 0x1302; 0x1302; 0x1302; 0x1302; 0x1302; 0x1302; 0x1302; 0x1302; 0x1302; 0x1302; 0x1302; 0x1302; 0x1302;
     0x1302; 0x1302; 0x1302; 0x1302; 0x1302; 0x1302; 0x1302; 0x1302; 0x1302; 0x1302; 0x1302; 0x1302; 0x1302; 0x1302; 0x1302; 0x1302;
     0x1302; 0x1302; 0x1302; 0x1302; 0x1302; 0x1302; 0x1302; 0x1302; 0x1302; 0x1302; 0x1302; 0x1302; 0x1302; 0x1302; 0x1302; 0;
     0x1301; 0x1302; 0x1301; 0x1301; 0x1301; 0x1302; 0x1302; 0x1301; 0x1302; 0x1301; 0x1302; 0x1301; 0x1302; 0x1301; 0x1301; 0x1301;
     0x1301; 0x1302; 0x1301; 0x1302; 0x1302; 0x1301; 0x1302; 0x1302; 0x1302; 0x1302; 0x1302; 0x1302; 0x1300; 0x1300; 0x1301; 0x1301;
     0x1301; 0x1302; 0x1301; 0x1302; 0x1301; 0x1302; 0x1301; 0x1302; 0x1301; 0x1302; 0x1301; 0x1302; 0x1301; 0x1302; 0x1301; 0x1302;
     0x1301; 0x1302; 0x1301; 0x1302; 0x1301; 0x1302; 0x1301; 0x1302; 0x1301; 0x1302; 0x1301; 0x1302; 0x1301; 0x1302; 0x1301; 0x1302;
     0x1301; 0x1302; 0x1301; 0x1302; 0x1301; 0x1302; 0x1301; 0x1302; 0x1301; 0x1302; 0x1301; 0x1302; 0x1301; 0x1302; 0x1301; 0x1302;
     0x1301; 0x1302; 0x1301; 0x1302; 0x1301; 0x1302; 0x1301; 0x1302; 0x1301; 0x1302; 0x1301; 0x1302; 0x1301; 0x1302; 0x1301; 0x1302;
     0x1301; 0x1302; 0x1301; 0x1302; 0x1301; 0x1302; 0x1301; 0x1302; 0x1301; 0x1302; 0x1301; 0x1302; 0x1301; 0x1302; 0x1301; 0x1302;
     0x1301; 0x1302; 0x1301; 0x1302; 0x1301; 0x1302; 0x1301; 0x1302; 0x1301; 0x1302; 0x1301; 0x1302; 0x1301; 0x1302; 0x1301; 0x1302;
     0x1301; 0x1302; 0x1301; 0x1302; 0x1302; 0xb200; 0xb200; 0xb200; 0xb200; 0xb200; 0xb200; 0x1301; 0x1302; 0x1301; 0x1302; 0xd200;
     0xd200; 0xd200; 0x1301; 0x1302; 0; 0; 0; 0; 0; 0xb210; 0xb210; 0xb210; 0xb210; 0xb200; 0xb210; 0xb210];
   [0x1302; 0x1302; 0x1302; 0x1302; 0x1302; 0x1302; 0x1302; 0x1302; 0x1302; 0x1302; 0x1302; 0x1302; 0x1302; 0x1302; 0x1302; 0x1302;
     0x1302; 0x1302; 0x1302; 0x1302; 0x1302; 0x1302; 0x1302; 0x1302; 0x1302; 0x1302; 0x1302; 0x1302; 0x1302; 0x1302; 0x1302; 0x1302;
     0x1302; 0x1302; 0x1302; 0x1302; 0x1302; 0x1302; 0; 0x1302; 0; 0; 0; 0; 0; 0x1302; 0; 0;
     0x1300; 0x1300; 0x1300; 0x1300; 0x1300; 0x1300; 0x1300; 0x1300; 0x1300; 0x1300; 0x1300; 0x1300; 0x1300; 0x1300; 0x1300; 0x1300;
     0x1300; 0x1300; 0x1300; 0x1300; 0x1300; 0x1300; 0x1300; 0x1300; 0x1300; 0x1300; 0x1300; 0x1300; 0x1300; 0x1300; 0x1300; 0x1300;
     0x1300; 0x1300; 0x1300; 0x1300; 0x1300; 0x1300; 0x1300; 0x1300; 0x1300; 0x1300; 0x1300; 0x1300; 0x1300; 0x1300; 0x1300; 0x1300;
     0x1300; 0x1300; 0x1300; 0x1300; 0x1300; 0x1300; 0x1300; 0x1300; 0; 0; 0; 0; 0; 0; 0; 0x1300;
     0x1210; 0; 0; 0; 0; 0; 0; 0; 0; 0; 0; 0; 0; 0; 0; 0xd200;
     0x1300; 0x1300; 0x1300; 0x1300; 0x1300; 0x1300; 0x1300; 0x1300; 0x1300; 0x1300; 0x1300; 0x1300; 0x1300; 0x1300; 0x1300; 0x1300;
     0x1300; 0x1300; 0x1300; 0x1300; 0x1300; 0x1300; 0x1300; 0; 0; 0; 0; 0; 0; 0; 0; 0;
     0x1300; 0x1300; 0x1300; 0x1300; 0x1300; 0x1300; 0x1300; 0; 0x1300; 0x1300; 0x1300; 0x1300; 0x1300; 0x1300; 0x1300; 0;
     0x1300; 0x1300; 0x1300; 0x1300; 0x1300; 0x1300; 0x1300; 0; 0x1300; 0x1300; 0x1300; 0x1300; 0x1300; 0x1300; 0x1300; 0;
     0x1300; 0x1300; 0x1300; 0x1300; 0x1300; 0x1300; 0x1300; 0; 0x1300; 0x1300; 0x1300; 0x1300; 0x1300; 0x1300; 0x1300; 0;
     0x1300; 0x1300; 0x1300; 0x1300; 0x1300; 0x1300; 0x1300; 0; 0x1300; 0x1300; 0x1300; 0x1300; 0x1300; 0x1300; 0x1300; 0;
     0xd200; 0xd200; 0xd200; 0xd200; 0xd200; 0xd200; 0xd200; 0xd200; 0xd200; 0xd200; 0xd200; 0xd200; 0xd200; 0xd200; 0xd200; 0xd200;
     0xd200; 0xd200; 0xd200; 0xd200; 0xd200; 0xd200; 0xd200; 0xd200; 0xd200; 0xd200; 0xd200; 0xd200; 0xd200; 0xd200; 0xd200; 0xd200];
   [0xb210; 0xb210; 0xb210; 0xb210; 0xb210; 0xb210; 0xb210; 0xb210; 0xb210; 0xb210; 0xb210; 0xb210; 0xb210; 0xb210; 0xb210; 0xb210;
     0xb210; 0xb210; 0xb210; 0xb210; 0xb210; 0xb210; 0xb210; 0xb210; 0xb210; 0xb210; 0xb210; 0xb210; 0xb210; 0xb210; 0xb210; 0xb210;
     0xb210; 0xb210; 0xb210; 0xb210; 0xb210; 0xb210; 0xb210; 0xb210; 0xb210; 0xb210; 0xb210; 0xb210; 0xb210; 0xb210; 0xb210; 0xb300;
     0xb210; 0xb210; 0xb210; 0xb210; 0xb210; 0xb210; 0xb210; 0xb210; 0xb210; 0xb210; 0xb210; 0xb210; 0xb210; 0xb210; 0xb210; 0xb210;
     0xb210; 0xb210; 0xb210; 0xb210; 0xb210; 0; 0; 0; 0; 0; 0; 0; 0; 0; 0; 0;
     0; 0; 0; 0; 0; 0; 0; 0; 0; 0; 0; 0; 0; 0; 0; 0;
     0; 0; 0; 0; 0; 0; 0; 0; 0; 0; 0; 0; 0; 0; 0; 0;
     0; 0; 0; 0; 0; 0; 0; 0; 0; 0; 0; 0; 0; 0; 0; 0;
     0xb200; 0xb200; 0xb200; 0xb200; 0xb200; 0xb200; 0xb200; 0xb200; 0xb200; 0xb200; 0xb200; 0xb200; 0xb200; 0xb200; 0xb200; 0xb200;
     0xb200; 0xb200; 0xb200; 0xb200; 0xb200; 0xb200; 0xb200; 0xb200; 0xb200; 0xb200; 0; 0xb200; 0xb200; 0xb200; 0xb200; 0xb200;
     0xb200; 0xb200; 0xb200; 0xb200; 0xb200; 0xb200; 0xb200; 0xb200; 0xb200; 0xb200; 0xb200; 0xb200; 0xb200; 0xb200; 0xb200; 0xb200;
     0xb200; 0xb200; 0xb200; 0xb200; 0xb200; 0xb200; 0xb200; 0xb200; 0xb200; 0xb200; 0xb200; 0xb200; 0xb200; 0xb200; 0xb200; 0xb200;
     0xb200; 0xb200; 0xb200; 0xb200; 0xb200; 0xb200; 0xb200; 0xb200; 0xb200; 0xb200; 0xb200; 0xb200; 0xb200; 0xb200; 0xb200; 0xb200;
     0xb200; 0xb200; 0xb200; 0xb200; 0xb200; 0xb200; 0xb200; 0xb200; 0xb200; 0xb200; 0xb200; 0xb200; 0xb200; 0xb200; 0xb200; 0xb200;
     0xb200; 0xb200; 0xb200; 0xb200; 0xb200; 0xb200; 0xb200; 0xb200; 0xb200; 0xb200; 0xb200; 0xb200; 0xb200; 0xb200; 0xb200; 0xb200;
     0xb200; 0xb200; 0xb200; 0xb200; 0; 0; 0; 0; 0; 0; 0; 0; 0; 0; 0; 0];
   [0xb200; 0xb200; 0xb200; 0xb200; 0xb200; 0xb200; 0xb200; 0xb200; 0xb200; 0xb200; 0xb200; 0xb200; 0xb200; 0xb200; 0xb200; 0xb200;
     0xb200; 0xb200; 0xb200; 0xb200; 0xb200; 0xb200; 0xb200; 0xb200; 0xb200; 0xb200; 0xb200; 0xb200; 0xb200; 0xb200; 0xb200; 0xb200;
     0xb200; 0xb200; 0xb200; 0xb200; 0xb200; 0xb200; 0xb200; 0xb200; 0xb200; 0xb200; 0xb200; 0xb200; 0xb200; 0xb200; 0xb200; 0xb200;
     0xb200; 0xb200; 0xb200; 0xb200; 0xb200; 0xb200; 0xb200; 0xb200; 0xb200; 0xb200; 0xb200; 0xb200; 0xb200; 0xb200; 0xb200; 0xb200;
     0xb200; 0xb200; 0xb200; 0xb200; 0xb200; 0xb200; 0xb200; 0xb200; 0xb200; 0xb200; 0xb200; 0xb200; 0xb200; 0xb200; 0xb200; 0xb200;
     0xb200; 0xb200; 0xb200; 0xb200; 0xb200; 0xb200; 0xb200; 0xb200; 0xb200; 0xb200; 0xb200; 0xb200; 0xb200; 0xb200; 0xb200; 0xb200;
     0xb200; 0xb200; 0xb200; 0xb200; 0xb200; 0xb200; 0xb200; 0xb200; 0xb200; 0xb200; 0xb200; 0xb200; 0xb200; 0xb200; 0xb200; 0xb200;
     0xb200; 0xb200; 0xb200; 0xb200; 0xb200; 0xb200; 0xb200; 0xb200; 0xb200; 0xb200; 0xb200; 0xb200; 0xb200; 0xb200; 0xb200; 0xb200;
     0xb200; 0xb200; 0xb200; 0xb200; 0xb200; 0xb200; 0xb200; 0xb200; 0xb200; 0xb200; 0xb200; 0xb200; 0xb200; 0xb200; 0xb200; 0xb200;
     0xb200; 0xb200; 0xb200; 0xb200; 0xb200; 0xb200; 0xb200; 0xb200; 0xb200; 0xb200; 0xb200; 0xb200; 0xb200; 0xb200; 0xb200; 0xb200;
     0xb200; 0xb200; 0xb200; 0xb200; 0xb200; 0xb200; 0xb200; 0xb200; 0xb200; 0xb200; 0xb200; 0xb200; 0xb200; 0xb200; 0xb200; 0xb200;
     0xb200; 0xb200; 0xb200; 0xb200; 0xb200; 0xb200; 0xb200; 0xb200; 0xb200; 0xb200; 0xb200; 0xb200; 0xb200; 0xb200; 0xb200; 0xb200;
     0xb200; 0xb200; 0xb200; 0xb200; 0xb200; 0xb200; 0xb200; 0xb200; 0xb200; 0xb200; 0xb200; 0xb200; 0xb200; 0xb200; 0xb200; 0xb200;
     0xb200; 0xb200; 0xb200; 0xb200; 0xb200; 0xb200; 0; 0; 0; 0; 0; 0; 0; 0; 0; 0;
     0; 0; 0; 0; 0; 0; 0; 0; 0; 0; 0; 0; 0; 0; 0; 0;
     0xb200; 0xb200; 0xb200; 0xb200; 0xb200; 0xb200; 0xb200; 0xb200; 0xb200; 0xb200; 0xb200; 0xb200; 0; 0; 0; 0];
   [0xa248; 0xb210; 0xb210; 0xb210; 0xb200; 0x1300; 0x1300; 0x1300; 0xb210; 0xb210; 0xb210; 0xb210; 0xb210; 0xb210; 0xb210; 0xb210;
     0xb210; 0xb210; 0xb200; 0xb200; 0xb210; 0xb210; 0xb210; 0xb210; 0xb210; 0xb210; 0xb210; 0xb210; 0xb210; 0xb210; 0xb210; 0xb210;
     0xb200; 0x1300; 0x1300; 0x1300; 0x1300; 0x1300; 0x1300; 0x1300; 0x1300; 0x1300; 0xd200; 0xd200; 0xd200; 0xd200; 0x1200; 0x1200;
     0xb210; 0x1300; 0x1300; 0x1300; 0x1300; 0x1300; 0xb200; 0xb200; 0x1300; 0x1300; 0x1300; 0x1300; 0x1300; 0xb210; 0xb200; 0xb200;
     0; 0x1300; 0x1300; 0x1300; 0x1300; 0x1300; 0x1300; 0x1300; 0x1300; 0x1300; 0x1300; 0x1300; 0x1300; 0x1300; 0x1300; 0x1300;
     0x1300; 0x1300; 0x1300; 0x1300; 0x1300; 0x1300; 0x1300; 0x1300; 0x1300; 0x1300; 0x1300; 0x1300; 0x1300; 0x1300; 0x1300; 0x1300;
     0x1300; 0x1300; 0x1300; 0x1300; 0x1300; 0x1300; 0x1300; 0x1300; 0x1300; 0x1300; 0x1300; 0x1300; 0x1300; 0x1300; 0x1300; 0x1300;
     0x1300; 0x1300; 0x1300; 0x1300; 0x1300; 0x1300; 0x1300; 0x1300; 0x1300; 0x1300; 0x1300; 0x1300; 0x1300; 0x1300; 0x1300; 0x1300;
     0x1300; 0x1300; 0x1300; 0x1300; 0x1300; 0x1300; 0x1300; 0x1300; 0x1300; 0x1300; 0x1300; 0x1300; 0x1300; 0x1300; 0x1300; 0x1300;
     0x1300; 0x1300; 0x1300; 0x1300; 0x1300; 0x1300; 0x1300; 0; 0; 0xd200; 0xd200; 0xb200; 0xb200; 0x1300; 0x1300; 0x1300;
     0xb210; 0x1300; 0x1300; 0x1300; 0x1300; 0x1300; 0x1300; 0x1300; 0x1300; 0x1300; 0x1300; 0x1300; 0x1300; 0x1300; 0x1300; 0x1300;
     0x1300; 0x1300; 0x1300; 0x1300; 0x1300; 0x1300; 0x1300; 0x1300; 0x1300; 0x1300; 0x1300; 0x1300; 0x1300; 0x1300; 0x1300; 0x1300;
     0x1300; 0x1300; 0x1300; 0x1300; 0x1300; 0x1300; 0x1300; 0x1300; 0x1300; 0x1300; 0x1300; 0x1300; 0x1300; 0x1300; 0x1300; 0x1300;
     0x1300; 0x1300; 0x1300; 0x1300; 0x1300; 0x1300; 0x1300; 0x1300; 0x1300; 0x1300; 0x1300; 0x1300; 0x1300; 0x1300; 0x1300; 0x1300;
     0x1300; 0x1300; 0x1300; 0x1300; 0x1300; 0x1300; 0x1300; 0x1300; 0x1300; 0x1300; 0x1300; 0x1300; 0x1300; 0x1300; 0x1300; 0x1300;
     0x1300; 0x1300; 0x1300; 0x1300; 0x1300; 0x1300; 0x1300; 0x1300; 0x1300; 0x1300; 0x1300; 0xb210; 0x1300; 0x1300; 0x1300; 0x1300];
   [0; 0; 0; 0; 0; 0x1300; 0x1300; 0x1300; 0x1300; 0x1300; 0x1300; 0x1300; 0x1300; 0x1300; 0x1300; 0x1300;
     0x1300; 0x1300; 0x1300; 0x1300; 0x1300; 0x1300; 0x1300; 0x1300; 0x1300; 0x1300; 0x1300; 0x1300; 0x1300; 0x1300; 0x1300; 0x1300;
     0x1300; 0x1300; 0x1300; 0x1300; 0x1300; 0x1300; 0x1300; 0x1300; 0x1300; 0x1300; 0x1300; 0x1300; 0x1300; 0x1300; 0; 0;
     0; 0x1300; 0x1300; 0x1300; 0x1300; 0x1300; 0x1300; 0x1300; 0x1300; 0x1300; 0x1300; 0x1300; 0x1300; 0x1300; 0x1300; 0x1300;
     0x1300; 0x1300; 0x1300; 0x1300; 0x1300; 0x1300; 0x1300; 0x1300; 0x1300; 0x1300; 0x1300; 0x1300; 0x1300; 0x1300; 0x1300; 0x1300;
     0x1300; 0x1300; 0x1300; 0x1300; 0x1300; 0x1300; 0x1300; 0x1300; 0x1300; 0x1300; 0x1300; 0x1300; 0x1300; 0x1300; 0x1300; 0x1300;
     0x1300; 0x1300; 0x1300; 0x1300; 0x1300; 0x1300; 0x1300; 0x1300; 0x1300; 0x1300; 0x1300; 0x1300; 0x1300; 0x1300; 0x1300; 0x1300;
     0x1300; 0x1300; 0x1300; 0x1300; 0x1300; 0x1300; 0x1300; 0x1300; 0x1300; 0x1300; 0x1300; 0x1300; 0x1300; 0x1300; 0x1300; 0x1300;
     0x1300; 0x1300; 0x1300; 0x1300; 0x1300; 0x1300; 0x1300; 0x1300; 0x1300; 0x1300; 0x1300; 0x1300; 0x1300; 0x1300; 0x1300; 0;
     0x1200; 0x1200; 0x1200; 0x1200; 0x1200; 0x1200; 0x1200; 0x1200; 0x1200; 0x1200; 0x1200; 0x1200; 0x1200; 0x1200; 0x1200; 0x1200;
     0x1300; 0x1300; 0x1300; 0x1300; 0x1300; 0x1300; 0x1300; 0x1300; 0x1300; 0x1300; 0x1300; 0x1300; 0x1300; 0x1300; 0x1300; 0x1300;
     0x1300; 0x1300; 0x1300; 0x1300; 0x1300; 0x1300; 0x1300; 0x1300; 0x1300; 0x1300; 0x1300; 0; 0; 0; 0; 0;
     0xb200; 0xb200; 0xb200; 0xb200; 0xb200; 0xb200; 0xb200; 0xb200; 0xb200; 0xb200; 0xb200; 0xb200; 0xb200; 0xb200; 0xb200; 0xb200;
     0xb200; 0xb200; 0xb200; 0xb200; 0xb200; 0xb200; 0xb200; 0xb200; 0xb200; 0xb200; 0xb200; 0xb200; 0xb200; 0xb200; 0xb200; 0xb200;
     0xb200; 0xb200; 0xb200; 0xb200; 0; 0; 0; 0; 0; 0; 0; 0; 0; 0; 0; 0;
     0x1300; 0x1300; 0x1300; 0x1300; 0x1300; 0x1300; 0x1300; 0x1300; 0x1300; 0x1300; 0x1300; 0x1300; 0x1300; 0x1300; 0x1300; 0x1300];
   [0x1200; 0x1200; 0x1200; 0x1200; 0x1200; 0x1200; 0x1200; 0x1200; 0x1200; 0x1200; 0x1200; 0x1200; 0x1200; 0x1200; 0x1200; 0x1200;
     0x1200; 0x1200; 0x1200; 0x1200; 0x1200; 0x1200; 0x1200; 0x1200; 0x1200; 0x1200; 0x1200; 0x1200; 0x1200; 0xb200; 0xb200; 0;
     0x1200; 0x1200; 0x1200; 0x1200; 0x1200; 0x1200; 0x1200; 0x1200; 0x1200; 0x1200; 0x1200; 0x1200; 0x1200; 0x1200; 0x1200; 0x1200;
     0x1200; 0x1200; 0x1200; 0x1200; 0x1200; 0x1200; 0x1200; 0x1200; 0x1200; 0x1200; 0x1200; 0x1200; 0x1200; 0x1200; 0x1200; 0x1200;
     0x1200; 0x1200; 0x1200; 0x1200; 0x1200; 0x1200; 0x1200; 0x1200; 0x1200; 0x1200; 0x1200; 0x1200; 0x1200; 0x1200; 0x1200; 0x1200;
     0xb200; 0xb200; 0xb200; 0xb200; 0xb200; 0xb200; 0xb200; 0xb200; 0xb200; 0xb200; 0xb200; 0xb200; 0xb200; 0xb200; 0xb200; 0xb200;
     0x1200; 0x1200; 0x1200; 0x1200; 0x1200; 0x1200; 0x1200; 0x1200; 0x1200; 0x1200; 0x1200; 0x1200; 0x1200; 0x1200; 0x1200; 0x1200;
     0x1200; 0x1200; 0x1200; 0x1200; 0x1200; 0x1200; 0x1200; 0x1200; 0x1200; 0x1200; 0x1200; 0x1200; 0xb200; 0xb200; 0xb200; 0x1200;
     0x1200; 0x1200; 0x1200; 0x1200; 0x1200; 0x1200; 0x1200; 0x1200; 0x1200; 0x1200; 0x1200; 0x1200; 0x1200; 0x1200; 0x1200; 0x1200;
     0x1200; 0x1200; 0x1200; 0x1200; 0x1200; 0x1200; 0x1200; 0x1200; 0x1200; 0x1200; 0x1200; 0x1200; 0x1200; 0x1200; 0x1200; 0x1200;
     0x1200; 0x1200; 0x1200; 0x1200; 0x1200; 0x1200; 0x1200; 0x1200; 0x1200; 0x1200; 0x1200; 0x1200; 0x1200; 0x1200; 0x1200; 0x1200;
     0x1200; 0xb200; 0xb200; 0xb200; 0xb200; 0xb200; 0xb200; 0xb200; 0xb200; 0xb200; 0xb200; 0xb200; 0xb200; 0xb200; 0xb200; 0xb200;
     0x1200; 0x1200; 0x1200; 0x1200; 0x1200; 0x1200; 0x1200; 0x1200; 0x1200; 0x1200; 0x1200; 0x1200; 0xb200; 0xb200; 0xb200; 0xb200;
     0x1200; 0x1200; 0x1200; 0x1200; 0x1200; 0x1200; 0x1200; 0x1200; 0x1200; 0x1200; 0x1200; 0x1200; 0x1200; 0x1200; 0x1200; 0x1200;
     0x1200; 0x1200; 0x1200; 0x1200; 0x1200; 0x1200; 0x1200; 0x1200; 0x1200; 0x1200; 0x1200; 0x1200; 0x1200; 0x1200; 0x1200; 0x1200;
     0x1200; 0x1200; 0x1200; 0x1200; 0x1200; 0x1200; 0x1200; 0x1200; 0x1200; 0x1200; 0x1200; 0x1200; 0x1200; 0x1200; 0x1200; 0];
   [0x1200; 0x1200; 0x1200; 0x1200; 0x1200; 0x1200; 0x1200; 0x1200; 0x1200; 0x1200; 0x1200; 0x1200; 0x1200; 0x1200; 0x1200; 0x1200;
     0x1200; 0x1200; 0x1200; 0x1200; 0x1200; 0x1200; 0x1200; 0x1200; 0x1200; 0x1200; 0x1200; 0x1200; 0x1200; 0x1200; 0x1200; 0x1200;
     0x1200; 0x1200; 0x1200; 0x1200; 0x1200; 0x1200; 0x1200; 0x1200; 0x1200; 0x1200; 0x1200; 0x1200; 0x1200; 0x1200; 0x1200; 0x1200;
     0x1200; 0x1200; 0x1200; 0x1200; 0x1200; 0x1200; 0x1200; 0x1200; 0x1200; 0x1200; 0x1200; 0x1200; 0x1200; 0x1200; 0x1200; 0x1200;
     0x1200; 0x1200; 0x1200; 0x1200; 0x1200; 0x1200; 0x1200; 0x1200; 0x1200; 0x1200; 0x1200; 0x1200; 0x1200; 0x1200; 0x1200; 0x1200;
     0x1200; 0x1200; 0x1200; 0x1200; 0x1200; 0x1200; 0x1200; 0x1200; 0x1200; 0x1200; 0x1200; 0x1200; 0x1200; 0x1200; 0x1200; 0x1200;
     0x1200; 0x1200; 0x1200; 0x1200; 0x1200; 0x1200; 0x1200; 0x1200; 0x1200; 0x1200; 0x1200; 0x1200; 0x1200; 0x1200; 0x1200; 0x1200;
     0x1200; 0x1200; 0x1200; 0x1200; 0x1200; 0x1200; 0x1200; 0xb200; 0xb200; 0xb200; 0xb200; 0x1200; 0x1200; 0x1200; 0x1200; 0x1200;
     0x1200; 0x1200; 0x1200; 0x1200; 0x1200; 0x1200; 0x1200; 0x1200; 0x1200; 0x1200; 0x1200; 0x1200; 0x1200; 0x1200; 0x1200; 0x1200;
     0x1200; 0x1200; 0x1200; 0x1200; 0x1200; 0x1200; 0x1200; 0x1200; 0x1200; 0x1200; 0x1200; 0x1200; 0x1200; 0x1200; 0x1200; 0x1200;
     0x1200; 0x1200; 0x1200; 0x1200; 0x1200; 0x1200; 0x1200; 0x1200; 0x1200; 0x1200; 0x1200; 0x1200; 0x1200; 0x1200; 0x1200; 0x1200;
     0x1200; 0x1200; 0x1200; 0x1200; 0x1200; 0x1200; 0x1200; 0x1200; 0x1200; 0x1200; 0x1200; 0x1200; 0x1200; 0x1200; 0x1200; 0x1200;
     0x1200; 0x1200; 0x1200; 0x1200; 0x1200; 0x1200; 0x1200; 0x1200; 0x1200; 0x1200; 0x1200; 0x1200; 0x1200; 0x1200; 0x1200; 0x1200;
     0x1200; 0x1200; 0x1200; 0x1200; 0x1200; 0x1200; 0x1200; 0x1200; 0x1200; 0x1200; 0x1200; 0x1200; 0x1200; 0x1200; 0xb200; 0xb200;
     0x1200; 0x1200; 0x1200; 0x1200; 0x1200; 0x1200; 0x1200; 0x1200; 0x1200; 0x1200; 0x1200; 0x1200; 0x1200; 0x1200; 0x1200; 0x1200;
     0x1200; 0x1200; 0x1200; 0x1200; 0x1200; 0x1200; 0x1200; 0x1200; 0x1200; 0x1200; 0x1200; 0x1200; 0x1200; 0x1200; 0x1200; 0xb200];
   [0x1300; 0x1300; 0x1300; 0x1300; 0x1300; 0x1300; 0x1300; 0x1300; 0x1300; 0x1300; 0x1300; 0x1300; 0x1300; 0x1300; 0x1300; 0x1300;
     0x1300; 0x1300; 0x1300; 0x1300; 0x1300; 0x1300; 0x1300; 0x1300; 0x1300; 0x1300; 0x1300; 0x1300; 0x1300; 0x1300; 0x1300; 0x1300;
     0x1300; 0x1300; 0x1300; 0x1300; 0x1300; 0x1300; 0x1300; 0x1300; 0x1300; 0x1300; 0x1300; 0x1300; 0x1300; 0x1300; 0x1300; 0x1300;
     0x1300; 0x1300; 0x1300; 0x1300; 0x1300; 0x1300; 0x1300; 0x1300; 0x1300; 0x1300; 0x1300; 0x1300; 0x1300; 0x1300; 0x1300; 0x1300;
     0x1300; 0x1300; 0x1300; 0x1300; 0x1300; 0x1300; 0x1300; 0x1300; 0x1300; 0x1300; 0x1300; 0x1300; 0x1300; 0x1300; 0x1300; 0x1300;
     0x1300; 0x1300; 0x1300; 0x1300; 0x1300; 0x1300; 0x1300; 0x1300; 0x1300; 0x1300; 0x1300; 0x1300; 0x1300; 0x1300; 0x1300; 0x1300;
     0x1300; 0x1300; 0x1300; 0x1300; 0x1300; 0x1300; 0x1300; 0x1300; 0x1300; 0x1300; 0x1300; 0x1300; 0x1300; 0x1300; 0x1300; 0x1300;
     0x1300; 0x1300; 0x1300; 0x1300; 0x1300; 0x1300; 0x1300; 0x1300; 0x1300; 0x1300; 0x1300; 0x1300; 0x1300; 0x1300; 0x1300; 0x1300;
     0x1300; 0x1300; 0x1300; 0x1300; 0x1300; 0x1300; 0x1300; 0x1300; 0x1300; 0x1300; 0x1300; 0x1300; 0x1300; 0x1300; 0x1300; 0x1300;
     0x1300; 0x1300; 0x1300; 0x1300; 0x1300; 0x1300; 0x1300; 0x1300; 0x1300; 0x1300; 0x1300; 0x1300; 0x1300; 0x1300; 0x1300; 0x1300;
     0x1300; 0x1300; 0x1300; 0x1300; 0x1300; 0x1300; 0x1300; 0x1300; 0x1300; 0x1300; 0x1300; 0x1300; 0x1300; 0x1300; 0x1300; 0x1300;
     0x1300; 0x1300; 0x1300; 0x1300; 0x1300; 0x1300; 0; 0; 0; 0; 0; 0; 0; 0; 0; 0;
     0xb200; 0xb200; 0xb200; 0xb200; 0xb200; 0xb200; 0xb200; 0xb200; 0xb200; 0xb200; 0xb200; 0xb200; 0xb200; 0xb200; 0xb200; 0xb200;
     0xb200; 0xb200; 0xb200; 0xb200; 0xb200; 0xb200; 0xb200; 0xb200; 0xb200; 0xb200; 0xb200; 0xb200; 0xb200; 0xb200; 0xb200; 0xb200;
     0xb200; 0xb200; 0xb200; 0xb200; 0xb200; 0xb200; 0xb200; 0xb200; 0xb200; 0xb200; 0xb200; 0xb200; 0xb200; 0xb200; 0xb200; 0xb200;
     0xb200; 0xb200; 0xb200; 0xb200; 0xb200; 0xb200; 0xb200; 0xb200; 0xb200; 0xb200; 0xb200; 0xb200; 0xb200; 0xb200; 0xb200; 0xb200];
   [0x1300; 0x1300; 0x1300; 0x1300; 0x1300; 0x1300; 0x1300; 0x1300; 0x1300; 0x1300; 0x1300; 0x1300; 0x1300; 0x1300; 0x1300; 0x1300;
     0x1300; 0x1300; 0x1300; 0x1300; 0x1300; 0x1300; 0x1300; 0x1300; 0x1300; 0x1300; 0x1300; 0x1300; 0x1300; 0x1300; 0x1300; 0x1300;
     0x1300; 0x1300; 0x1300; 0x1300; 0x1300; 0x1300; 0x1300; 0x1300; 0x1300; 0x1300; 0x1300; 0x1300; 0x1300; 0x1300; 0x1300; 0x1300;
     0x1300; 0x1300; 0x1300; 0x1300; 0x1300; 0x1300; 0x1300; 0x1300; 0x1300; 0x1300; 0x1300; 0x1300; 0x1300; 0x1300; 0x1300; 0x1300;
     0x1300; 0x1300; 0x1300; 0x1300; 0x1300; 0x1300; 0x1300; 0x1300; 0x1300; 0x1300; 0x1300; 0x1300; 0x1300; 0x1300; 0x1300; 0x1300;
     0x1300; 0x1300; 0x1300; 0x1300; 0x1300; 0x1300; 0x1300; 0x1300; 0x1300; 0x1300; 0x1300; 0x1300; 0x1300; 0x1300; 0x1300; 0x1300;
     0x1300; 0x1300; 0x1300; 0x1300; 0x1300; 0x1300; 0x1300; 0x1300; 0x1300; 0x1300; 0x1300; 0x1300; 0x1300; 0x1300; 0x1300; 0x1300;
     0x1300; 0x1300; 0x1300; 0x1300; 0x1300; 0x1300; 0x1300; 0x1300; 0x1300; 0x1300; 0x1300; 0x1300; 0x1300; 0x1300; 0x1300; 0x1300;
     0x1300; 0x1300; 0x1300; 0x1300; 0x1300; 0x1300; 0x1300; 0x1300; 0x1300; 0x1300; 0x1300; 0x1300; 0x1300; 0x1300; 0x1300; 0x1300;
     0x1300; 0x1300; 0x1300; 0x1300; 0x1300; 0x1300; 0x1300; 0x1300; 0x1300; 0x1300; 0x1300; 0x1300; 0x1300; 0x1300; 0x1300; 0x1300;
     0x1300; 0x1300; 0x1300; 0x1300; 0x1300; 0x1300; 0x1300; 0x1300; 0x1300; 0x1300; 0x1300; 0x1300; 0x1300; 0x1300; 0x1300; 0x1300;
     0x1300; 0x1300; 0x1300; 0x1300; 0x1300; 0x1300; 0x1300; 0x1300; 0x1300; 0x1300; 0x1300; 0x1300; 0x1300; 0x1300; 0x1300; 0x1300;
     0x1300; 0x1300; 0x1300; 0x1300; 0x1300; 0x1300; 0x1300; 0x1300; 0x1300; 0x1300; 0x1300; 0x1300; 0x1300; 0x1300; 0x1300; 0x1300;
     0x1300; 0x1300; 0x1300; 0x1300; 0x1300; 0x1300; 0; 0; 0; 0; 0; 0; 0; 0; 0; 0;
     0; 0; 0; 0; 0; 0; 0; 0; 0; 0; 0; 0; 0; 0; 0; 0;
     0; 0; 0; 0; 0; 0; 0; 0; 0; 0; 0; 0; 0; 0; 0; 0];
   [0x1300; 0x1300; 0x1300; 0x1300; 0x1300; 0x1300; 0x1300; 0x1300; 0x1300; 0x1300; 0x1300; 0x1300; 0x1300; 0x1300; 0x1300; 0x1300;
     0x1300; 0x1300; 0x1300; 0x1300; 0x1300; 0x1300; 0x1300; 0x1300; 0x1300; 0x1300; 0x1300; 0x1300; 0x1300; 0x1300; 0x1300; 0x1300;
     0x1300; 0x1300; 0x1300; 0x1300; 0x1300; 0x1300; 0x1300; 0x1300; 0x1300; 0x1300; 0x1300; 0x1300; 0x1300; 0x1300; 0x1300; 0x1300;
     0x1300; 0x1300; 0x1300; 0x1300; 0x1300; 0x1300; 0x1300; 0x1300; 0x1300; 0x1300; 0x1300; 0x1300; 0x1300; 0x1300; 0x1300; 0x1300;
     0x1300; 0x1300; 0x1300; 0x1300; 0x1300; 0x1300; 0x1300; 0x1300; 0x1300; 0x1300; 0x1300; 0x1300; 0x1300; 0x1300; 0x1300; 0x1300;
     0x1300; 0x1300; 0x1300; 0x1300; 0x1300; 0x1300; 0x1300; 0x1300; 0x1300; 0x1300; 0x1300; 0x1300; 0x1300; 0x1300; 0x1300; 0x1300;
     0x1300; 0x1300; 0x1300; 0x1300; 0x1300; 0x1300; 0x1300; 0x1300; 0x1300; 0x1300; 0x1300; 0x1300; 0x1300; 0x1300; 0x1300; 0x1300;
     0x1300; 0x1300; 0x1300; 0x1300; 0x1300; 0x1300; 0x1300; 0x1300; 0x1300; 0x1300; 0x1300; 0x1300; 0x1300; 0x1300; 0x1300; 0x1300;
     0x1300; 0x1300; 0x1300; 0x1300; 0x1300; 0x1300; 0x1300; 0x1300; 0x1300; 0x1300; 0x1300; 0x1300; 0x1300; 0; 0; 0;
     0xb200; 0xb200; 0xb200; 0xb200; 0xb200; 0xb200; 0xb200; 0xb200; 0xb200; 0xb200; 0xb200; 0xb200; 0xb200; 0xb200; 0xb200; 0xb200;
     0xb200; 0xb200; 0xb200; 0xb200; 0xb200; 0xb200; 0xb200; 0xb200; 0xb200; 0xb200; 0xb200; 0xb200; 0xb200; 0xb200; 0xb200; 0xb200;
     0xb200; 0xb200; 0xb200; 0xb200; 0xb200; 0xb200; 0xb200; 0xb200; 0xb200; 0xb200; 0xb200; 0xb200; 0xb200; 0xb200; 0xb200; 0xb200;
     0xb200; 0xb200; 0xb200; 0xb200; 0xb200; 0xb200; 0xb200; 0; 0; 0; 0; 0; 0; 0; 0; 0;
     0x1300; 0x1300; 0x1300; 0x1300; 0x1300; 0x1300; 0x1300; 0x1300; 0x1300; 0x1300; 0x1300; 0x1300; 0x1300; 0x1300; 0x1300; 0x1300;
     0x1300; 0x1300; 0x1300; 0x1300; 0x1300; 0x1300; 0x1300; 0x1300; 0x1300; 0x1300; 0x1300; 0x1300; 0x1300; 0x1300; 0x1300; 0x1300;
     0x1300; 0x1300; 0x1300; 0x1300; 0x1300; 0x1300; 0x1300; 0x1300; 0x1300; 0x1300; 0x1300; 0x1300; 0x1300; 0x1300; 0x1210; 0x1210];
   [0x1300; 0x1300; 0x1300; 0x1300; 0x1300; 0x1300; 0x1300; 0x1300; 0x1300; 0x1300; 0x1300; 0x1300; 0x1300; 0xb210; 0xb210; 0xb210;
     0x1300; 0x1300; 0x1300; 0x1300; 0x1300; 0x1300; 0x1300; 0x1300; 0x1300; 0x1300; 0x1300; 0x1300; 0x1300; 0x1300; 0x1300; 0x1300;
     0x1204; 0x1204; 0x1204; 0x1204; 0x1204; 0x1204; 0x1204; 0x1204; 0x1204; 0x1204; 0x1300; 0x1300; 0; 0; 0; 0;
     0; 0; 0; 0; 0; 0; 0; 0; 0; 0; 0; 0; 0; 0; 0; 0;
     0x1301; 0x1302; 0x1301; 0x1302; 0x1301; 0x1302; 0x1301; 0x1302; 0x1301; 0x1302; 0x1301; 0x1302; 0x1301; 0x1302; 0x1301; 0x1302;
     0x1301; 0x1302; 0x1301; 0x1302; 0x1301; 0x1302; 0x1301; 0x1302; 0x1301; 0x1302; 0x1301; 0x1302; 0x1301; 0x1302; 0x1301; 0x1302;
     0x1301; 0x1302; 0x1301; 0x1302; 0x1301; 0x1302; 0x1301; 0x1302; 0x1301; 0x1302; 0x1301; 0x1302; 0x1301; 0x1302; 0x1300; 0xd200;
     0xd200; 0xd200; 0xd200; 0xb210; 0xd200; 0xd200; 0xd200; 0xd200; 0xd200; 0xd200; 0xd200; 0xd200; 0xd200; 0xd200; 0xb210; 0xb300;
     0x1301; 0x1302; 0x1301; 0x1302; 0x1301; 0x1302; 0x1301; 0x1302; 0x1301; 0x1302; 0x1301; 0x1302; 0x1301; 0x1302; 0x1301; 0x1302;
     0x1301; 0x1302; 0x1301; 0x1302; 0x1301; 0x1302; 0x1301; 0x1302; 0x1301; 0x1302; 0x1301; 0x1302; 0x1300; 0x1300; 0xd200; 0xd200;
     0x1300; 0x1300; 0x1300; 0x1300; 0x1300; 0x1300; 0x1300; 0x1300; 0x1300; 0x1300; 0x1300; 0x1300; 0x1300; 0x1300; 0x1300; 0x1300;
     0x1300; 0x1300; 0x1300; 0x1300; 0x1300; 0x1300; 0x1300; 0x1300; 0x1300; 0x1300; 0x1300; 0x1300; 0x1300; 0x1300; 0x1300; 0x1300;
     0x1300; 0x1300; 0x1300; 0x1300; 0x1300; 0x1300; 0x1300; 0x1300; 0x1300; 0x1300; 0x1300; 0x1300; 0x1300; 0x1300; 0x1300; 0x1300;
     0x1300; 0x1300; 0x1300; 0x1300; 0x1300; 0x1300; 0x1300; 0x1300; 0x1300; 0x1300; 0x1300; 0x1300; 0x1300; 0x1300; 0x1300; 0x1300;
     0x1300; 0x1300; 0x1300; 0x1300; 0x1300; 0x1300; 0x1300; 0x1300; 0x1300; 0x1300; 0x1300; 0x1300; 0x1300; 0x1300; 0x1300; 0x1300;
     0xd200; 0xd200; 0x1210; 0x1210; 0x1210; 0x1210; 0x1210; 0x1210; 0; 0; 0; 0; 0; 0; 0; 0];
   [0xb200; 0xb200; 0xb200; 0xb200; 0xb200; 0xb200; 0xb200; 0xb200; 0xb200; 0xb200; 0xb200; 0xb200; 0xb200; 0xb200; 0xb200; 0xb200;
     0xb200; 0xb200; 0xb200; 0xb200; 0xb200; 0xb200; 0xb200; 0xb300; 0xb300; 0xb300; 0xb300; 0xb300; 0xb300; 0xb300; 0xb300; 0xb300;
     0xb200; 0xb200; 0x1301; 0x1302; 0x1301; 0x1302; 0x1301; 0x1302; 0x1301; 0x1302; 0x1301; 0x1302; 0x1301; 0x1302; 0x1301; 0x1302;
     0x1302; 0x1302; 0x1301; 0x1302; 0x1301; 0x1302; 0x1301; 0x1302; 0x1301; 0x1302; 0x1301; 0x1302; 0x1301; 0x1302; 0x1301; 0x1302;
     0x1301; 0x1302; 0x1301; 0x1302; 0x1301; 0x1302; 0x1301; 0x1302; 0x1301; 0x1302; 0x1301; 0x1302; 0x1301; 0x1302; 0x1301; 0x1302;
     0x1301; 0x1302; 0x1301; 0x1302; 0x1301; 0x1302; 0x1301; 0x1302; 0x1301; 0x1302; 0x1301; 0x1302; 0x1301; 0x1302; 0x1301; 0x1302;
     0x1301; 0x1302; 0x1301; 0x1302; 0x1301; 0x1302; 0x1301; 0x1302; 0x1301; 0x1302; 0x1301; 0x1302; 0x1301; 0x1302; 0x1301; 0x1302;
     0x1300; 0x1302; 0x1302; 0x1302; 0x1302; 0x1302; 0x1302; 0x1302; 0x1302; 0x1301; 0x1302; 0x1301; 0x1302; 0x1301; 0x1301; 0x1302;
     0x1301; 0x1302; 0x1301; 0x1302; 0x1301; 0x1302; 0x1301; 0x1302; 0xb300; 0x1200; 0x1200; 0x1301; 0x1302; 0x1301; 0x1302; 0x1300;
     0x1301; 0x1302; 0x1301; 0x1302; 0x1302; 0x1302; 0x1301; 0x1302; 0x1301; 0x1302; 0x1301; 0x1302; 0x1301; 0x1302; 0x1301; 0x1302;
     0x1301; 0x1302; 0x1301; 0x1302; 0x1301; 0x1302; 0x1301; 0x1302; 0x1301; 0x1302; 0x1301; 0x1301; 0x1301; 0x1301; 0x1301; 0;
     0x1301; 0x1301; 0x1301; 0x1301; 0x1301; 0x1302; 0x1301; 0x1302; 0; 0; 0; 0; 0; 0; 0; 0;
     0; 0; 0; 0; 0; 0; 0; 0; 0; 0; 0; 0; 0; 0; 0; 0;
     0; 0; 0; 0; 0; 0; 0; 0; 0; 0; 0; 0; 0; 0; 0; 0;
     0; 0; 0; 0; 0; 0; 0; 0; 0; 0; 0; 0; 0; 0; 0; 0;
     0; 0; 0; 0; 0; 0; 0; 0x1300; 0x1300; 0x1300; 0x1302; 0x1300; 0x1300; 0x1300; 0x1300; 0x1300];
   [0x1300; 0x1300; 0xd200; 0x1300; 0x1300; 0x1300; 0xd200; 0x1300; 0x1300; 0x1300; 0x1300; 0xd200; 0x1300; 0x1300; 0x1300; 0x1300;
     0x1300; 0x1300; 0x1300; 0x1300; 0x1300; 0x1300; 0x1300; 0x1300; 0x1300; 0x1300; 0x1300; 0x1300; 0x1300; 0x1300; 0x1300; 0x1300;
     0x1300; 0x1300; 0x1300; 0x1200; 0x1200; 0xd200; 0xd200; 0x1200; 0xb200; 0xb200; 0xb200; 0xb200; 0; 0; 0; 0;
     0x1200; 0x1200; 0x1200; 0x1200; 0x1200; 0x1200; 0x1200; 0x1200; 0x5200; 0x5200; 0; 0; 0; 0; 0; 0;
     0x1300; 0x1300; 0x1300; 0x1300; 0x1300; 0x1300; 0x1300; 0x1300; 0x1300; 0x1300; 0x1300; 0x1300; 0x1300; 0x1300; 0x1300; 0x1300;
     0x1300; 0x1300; 0x1300; 0x1300; 0x1300; 0x1300; 0x1300; 0x1300; 0x1300; 0x1300; 0x1300; 0x1300; 0x1300; 0x1300; 0x1300; 0x1300;
     0x1300; 0x1300; 0x1300; 0x1300; 0x1300; 0x1300; 0x1300; 0x1300; 0x1300; 0x1300; 0x1300; 0x1300; 0x1300; 0x1300; 0x1300; 0x1300;
     0x1300; 0x1300; 0x1300; 0x1300; 0xb210; 0xb210; 0xb210; 0xb210; 0; 0; 0; 0; 0; 0; 0; 0;
     0x1200; 0x1200; 0x1300; 0x1300; 0x1300; 0x1300; 0x1300; 0x1300; 0x1300; 0x1300; 0x1300; 0x1300; 0x1300; 0x1300; 0x1300; 0x1300;
     0x1300; 0x1300; 0x1300; 0x1300; 0x1300; 0x1300; 0x1300; 0x1300; 0x1300; 0x1300; 0x1300; 0x1300; 0x1300; 0x1300; 0x1300; 0x1300;
     0x1300; 0x1300; 0x1300; 0x1300; 0x1300; 0x1300; 0x1300; 0x1300; 0x1300; 0x1300; 0x1300; 0x1300; 0x1300; 0x1300; 0x1300; 0x1300;
     0x1300; 0x1300; 0x1300; 0x1300; 0x1200; 0x1200; 0x1200; 0x1200; 0x1200; 0x1200; 0x1200; 0x1200; 0x1200; 0x1200; 0x1200; 0x1200;
     0x1200; 0x1200; 0x1200; 0x1200; 0xd200; 0xd200; 0; 0; 0; 0; 0; 0; 0; 0; 0x1210; 0x1210;
     0x1204; 0x1204; 0x1204; 0x1204; 0x1204; 0x1204; 0x1204; 0x1204; 0x1204; 0x1204; 0; 0; 0; 0; 0; 0;
     0xd200; 0xd200; 0xd200; 0xd200; 0xd200; 0xd200; 0xd200; 0xd200; 0xd200; 0xd200; 0xd200; 0xd200; 0xd200; 0xd200; 0xd200; 0xd200;
     0xd200; 0xd200; 0x1300; 0x1300; 0x1300; 0x1300; 0x1300; 0x1300; 0x1210; 0x1210; 0x1210; 0x1300; 0x1210; 0x1300; 0; 0];
   [0x1204; 0x1204; 0x1204; 0x1204; 0x1204; 0x1204; 0x1204; 0x1204; 0x1204; 0x1204; 0x1300; 0x1300; 0x1300; 0x1300; 0x1300; 0x1300;
     0x1300; 0x1300; 0x1300; 0x1300; 0x1300; 0x1300; 0x1300; 0x1300; 0x1300; 0x1300; 0x1300; 0x1300; 0x1300; 0x1300; 0x1300; 0x1300;
     0x1300; 0x1300; 0x1300; 0x1300; 0x1300; 0x1300; 0xd200; 0xd200; 0xd200; 0xd200; 0xd200; 0xd200; 0xd200; 0xd200; 0x1210; 0x1210;
     0x1300; 0x1300; 0x1300; 0x1300; 0x1300; 0x1300; 0x1300; 0x1300; 0x1300; 0x1300; 0x1300; 0x1300; 0x1300; 0x1300; 0x1300; 0x1300;
     0x1300; 0x1300; 0x1300; 0x1300; 0x1300; 0x1300; 0x1300; 0xd200; 0xd200; 0xd200; 0xd200; 0xd200; 0xd200; 0xd200; 0xd200; 0xd200;
     0xd200; 0xd200; 0x1200; 0x1200; 0; 0; 0; 0; 0; 0; 0; 0; 0; 0; 0; 0x1210;
     0x1300; 0x1300; 0x1300; 0x1300; 0x1300; 0x1300; 0x1300; 0x1300; 0x1300; 0x1300; 0x1300; 0x1300; 0x1300; 0x1300; 0x1300; 0x1300;
     0x1300; 0x1300; 0x1300; 0x1300; 0x1300; 0x1300; 0x1300; 0x1300; 0x1300; 0x1300; 0x1300; 0x1300; 0x1300; 0; 0; 0;
     0xd200; 0xd200; 0xd200; 0x1200; 0x1300; 0x1300; 0x1300; 0x1300; 0x1300; 0x1300; 0x1300; 0x1300; 0x1300; 0x1300; 0x1300; 0x1300;
     0x1300; 0x1300; 0x1300; 0x1300; 0x1300; 0x1300; 0x1300; 0x1300; 0x1300; 0x1300; 0x1300; 0x1300; 0x1300; 0x1300; 0x1300; 0x1300;
     0x1300; 0x1300; 0x1300; 0x1300; 0x1300; 0x1300; 0x1300; 0x1300; 0x1300; 0x1300; 0x1300; 0x1300; 0x1300; 0x1300; 0x1300; 0x1300;
     0x1300; 0x1300; 0x1300; 0xd200; 0x1200; 0x1200; 0xd200; 0xd200; 0xd200; 0xd200; 0x1200; 0x1200; 0xd200; 0x1200; 0x1200; 0x1200;
     0x1200; 0x1210; 0x1210; 0x1210; 0x1210; 0x1210; 0x1210; 0x1210; 0x1210; 0x1210; 0x1210; 0x1210; 0x1210; 0x1210; 0; 0x1300;
     0x1204; 0x1204; 0x1204; 0x1204; 0x1204; 0x1204; 0x1204; 0x1204; 0x1204; 0x1204; 0; 0; 0; 0; 0x1210; 0x1210;
     0x1300; 0x1300; 0x1300; 0x1300; 0x1300; 0xd200; 0x1300; 0x1300; 0x1300; 0x1300; 0x1300; 0x1300; 0x1300; 0x1300; 0x1300; 0x1300;
     0x1204; 0x1204; 0x1204; 0x1204; 0x1204; 0x1204; 0x1204; 0x1204; 0x1204; 0x1204; 0x1300; 0x1300; 0x1300; 0x1300; 0x1300; 0];
   [0x1300; 0x1300; 0x1300; 0x1300; 0x1300; 0x1300; 0x1300; 0x1300; 0x1300; 0x1300; 0x1300; 0x1300; 0x1300; 0x1300; 0x1300; 0x1300;
     0x1300; 0x1300; 0x1300; 0x1300; 0x1300; 0x1300; 0x1300; 0x1300; 0x1300; 0x1300; 0x1300; 0x1300; 0x1300; 0x1300; 0x1300; 0x1300;
     0x1300; 0x1300; 0x1300; 0x1300; 0x1300; 0x1300; 0x1300; 0x1300; 0x1300; 0xd200; 0xd200; 0xd200; 0xd200; 0xd200; 0xd200; 0x1200;
     0x1200; 0xd200; 0xd200; 0x1200; 0x1200; 0xd200; 0xd200; 0; 0; 0; 0; 0; 0; 0; 0; 0;
     0x1300; 0x1300; 0x1300; 0xd200; 0x1300; 0x1300; 0x1300; 0x1300; 0x1300; 0x1300; 0x1300; 0x1300; 0xd200; 0x1200; 0; 0;
     0x1204; 0x1204; 0x1204; 0x1204; 0x1204; 0x1204; 0x1204; 0x1204; 0x1204; 0x1204; 0; 0; 0x1210; 0x1210; 0x1210; 0x1210;
     0x1300; 0x1300; 0x1300; 0x1300; 0x1300; 0x1300; 0x1300; 0x1300; 0x1300; 0x1300; 0x1300; 0x1300; 0x1300; 0x1300; 0x1300; 0x1300;
     0x1300; 0x1300; 0x1300; 0x1300; 0x1300; 0x1300; 0x1300; 0x1200; 0x1200; 0x1200; 0x1300; 0x1200; 0xd200; 0x1200; 0x1300; 0x1300;
     0x1300; 0x1300; 0x1300; 0x1300; 0x1300; 0x1300; 0x1300; 0x1300; 0x1300; 0x1300; 0x1300; 0x1300; 0x1300; 0x1300; 0x1300; 0x1300;
     0x1300; 0x1300; 0x1300; 0x1300; 0x1300; 0x1300; 0x1300; 0x1300; 0x1300; 0x1300; 0x1300; 0x1300; 0x1300; 0x1300; 0x1300; 0x1300;
     0x1300; 0x1300; 0x1300; 0x1300; 0x1300; 0x1300; 0x1300; 0x1300; 0x1300; 0x1300; 0x1300; 0x1300; 0x1300; 0x1300; 0x1300; 0x1300;
     0xd200; 0x1300; 0xd200; 0xd200; 0xd200; 0x1300; 0x1300; 0xd200; 0xd200; 0x1300; 0x1300; 0x1300; 0x1300; 0x1300; 0xd200; 0xd200;
     0x1300; 0xd200; 0x1300; 0; 0; 0; 0; 0; 0; 0; 0; 0; 0; 0; 0; 0;
     0; 0; 0; 0; 0; 0; 0; 0; 0; 0; 0; 0x1300; 0x1300; 0x1300; 0x1210; 0x1210;
     0x1300; 0x1300; 0x1300; 0x1300; 0x1300; 0x1300; 0x1300; 0x1300; 0x1300; 0x1300; 0x1300; 0x1200; 0xd200; 0xd200; 0x1200; 0x1200;
     0x1210; 0x1210; 0x1300; 0x1300; 0x1300; 0x1200; 0xd200; 0; 0; 0; 0; 0; 0; 0; 0; 0];
   [0; 0x1300; 0x1300; 0x1300; 0x1300; 0x1300; 0x1300; 0; 0; 0x1300; 0x1300; 0x1300; 0x1300; 0x1300; 0x1300; 0;
     0; 0x1300; 0x1300; 0x1300; 0x1300; 0x1300; 0x1300; 0; 0; 0; 0; 0; 0; 0; 0; 0;
     0x1300; 0x1300; 0x1300; 0x1300; 0x1300; 0x1300; 0x1300; 0; 0x1300; 0x1300; 0x1300; 0x1300; 0x1300; 0x1300; 0x1300; 0;
     0x1302; 0x1302; 0x1302; 0x1302; 0x1302; 0x1302; 0x1302; 0x1302; 0x1302; 0x1302; 0x1302; 0x1302; 0x1302; 0x1302; 0x1302; 0x1302;
     0x1302; 0x1302; 0x1302; 0x1302; 0x1302; 0x1302; 0x1302; 0x1302; 0x1302; 0x1302; 0x1302; 0x1302; 0x1302; 0x1302; 0x1302; 0x1302;
     0x1302; 0x1302; 0x1302; 0x1302; 0x1302; 0x1302; 0x1302; 0x1302; 0x1302; 0x1302; 0x1302; 0x1200; 0x1300; 0x1300; 0x1300; 0x1300;
     0x1302; 0x1302; 0x1302; 0x1302; 0x1302; 0x1302; 0; 0; 0; 0; 0; 0; 0; 0; 0; 0;
     0x1302; 0x1302; 0x1302; 0x1302; 0x1302; 0x1302; 0x1302; 0x1302; 0x1302; 0x1302; 0x1302; 0x1302; 0x1302; 0x1302; 0x1302; 0x1302;
     0x1302; 0x1302; 0x1302; 0x1302; 0x1302; 0x1302; 0x1302; 0x1302; 0x1302; 0x1302; 0x1302; 0x1302; 0x1302; 0x1302; 0x1302; 0x1302;
     0x1302; 0x1302; 0x1302; 0x1302; 0x1302; 0x1302; 0x1302; 0x1302; 0x1302; 0x1302; 0x1302; 0x1302; 0x1302; 0x1302; 0x1302; 0x1302;
     0x1302; 0x1302; 0x1302; 0x1302; 0x1302; 0x1302; 0x1302; 0x1302; 0x1302; 0x1302; 0x1302; 0x1302; 0x1302; 0x1302; 0x1302; 0x1302;
     0x1302; 0x1302; 0x1302; 0x1302; 0x1302; 0x1302; 0x1302; 0x1302; 0x1302; 0x1302; 0x1302; 0x1302; 0x1302; 0x1302; 0x1302; 0x1302;
     0x1300; 0x1300; 0x1300; 0x1300; 0x1300; 0x1300; 0x1300; 0x1300; 0x1300; 0x1300; 0x1300; 0x1300; 0x1300; 0x1300; 0x1300; 0x1300;
     0x1300; 0x1300; 0x1300; 0x1300; 0x1300; 0x1300; 0x1300; 0x1300; 0x1300; 0x1300; 0x1300; 0x1300; 0x1300; 0x1300; 0x1300; 0x1300;
     0x1300; 0x1300; 0x1300; 0x1200; 0x1200; 0xd200; 0x1200; 0x1200; 0xd200; 0x1200; 0x1200; 0x1210; 0x1200; 0xd200; 0; 0;
     0x1204; 0x1204; 0x1204; 0x1204; 0x1204; 0x1204; 0x1204; 0x1204; 0x1204; 0x1204; 0; 0; 0; 0; 0; 0];
   [0x1300; 0x1300; 0x1300; 0x1300; 0x1300; 0x1300; 0x1300; 0x1300; 0x1300; 0x1300; 0x1300; 0x1300; 0x1300; 0x1300; 0x1300; 0x1300;
     0x1300; 0x1300; 0x1300; 0x1300; 0x1300; 0x1300; 0x1300; 0x1300; 0x1300; 0x1300; 0x1300; 0x1300; 0x1300; 0x1300; 0x1300; 0x1300;
     0x1300; 0x1300; 0x1300; 0x1300; 0x1300; 0x1300; 0x1300; 0x1300; 0x1300; 0x1300; 0x1300; 0x1300; 0x1300; 0x1300; 0x1300; 0x1300;
     0x1300; 0x1300; 0x1300; 0x1300; 0x1300; 0x1300; 0x1300; 0x1300; 0x1300; 0x1300; 0x1300; 0x1300; 0x1300; 0x1300; 0x1300; 0x1300;
     0x1300; 0x1300; 0x1300; 0x1300; 0x1300; 0x1300; 0x1300; 0x1300; 0x1300; 0x1300; 0x1300; 0x1300; 0x1300; 0x1300; 0x1300; 0x1300;
     0x1300; 0x1300; 0x1300; 0x1300; 0x1300; 0x1300; 0x1300; 0x1300; 0x1300; 0x1300; 0x1300; 0x1300; 0x1300; 0x1300; 0x1300; 0x1300;
     0x1300; 0x1300; 0x1300; 0x1300; 0x1300; 0x1300; 0x1300; 0x1300; 0x1300; 0x1300; 0x1300; 0x1300; 0x1300; 0x1300; 0x1300; 0x1300;
     0x1300; 0x1300; 0x1300; 0x1300; 0x1300; 0x1300; 0x1300; 0x1300; 0x1300; 0x1300; 0x1300; 0x1300; 0x1300; 0x1300; 0x1300; 0x1300;
     0x1300; 0x1300; 0x1300; 0x1300; 0x1300; 0x1300; 0x1300; 0x1300; 0x1300; 0x1300; 0x1300; 0x1300; 0x1300; 0x1300; 0x1300; 0x1300;
     0x1300; 0x1300; 0x1300; 0x1300; 0x1300; 0x1300; 0x1300; 0x1300; 0x1300; 0x1300; 0x1300; 0x1300; 0x1300; 0x1300; 0x1300; 0x1300;
     0x1300; 0x1300; 0x1300; 0x1300; 0; 0; 0; 0; 0; 0; 0; 0; 0; 0; 0; 0;
     0x1300; 0x1300; 0x1300; 0x1300; 0x1300; 0x1300; 0x1300; 0x1300; 0x1300; 0x1300; 0x1300; 0x1300; 0x1300; 0x1300; 0x1300; 0x1300;
     0x1300; 0x1300; 0x1300; 0x1300; 0x1300; 0x1300; 0x1300; 0; 0; 0; 0; 0x1300; 0x1300; 0x1300; 0x1300; 0x1300;
     0x1300; 0x1300; 0x1300; 0x1300; 0x1300; 0x1300; 0x1300; 0x1300; 0x1300; 0x1300; 0x1300; 0x1300; 0x1300; 0x1300; 0x1300; 0x1300;
     0x1300; 0x1300; 0x1300; 0x1300; 0x1300; 0x1300; 0x1300; 0x1300; 0x1300; 0x1300; 0x1300; 0x1300; 0x1300; 0x1300; 0x1300; 0x1300;
     0x1300; 0x1300; 0x1300; 0x1300; 0x1300; 0x1300; 0x1300; 0x1300; 0x1300; 0x1300; 0x1300; 0x1300; 0; 0; 0; 0];
   [0x1300; 0x1300; 0x1300; 0x1300; 0x1300; 0x1300; 0x1300; 0x1300; 0x1300; 0x1300; 0x1300; 0x1300; 0x1300; 0x1300; 0x1300; 0x1300;
     0x1300; 0x1300; 0x1300; 0x1300; 0x1300; 0x1300; 0x1300; 0x1300; 0x1300; 0x1300; 0x1300; 0x1300; 0x1300; 0x1300; 0x1300; 0x1300;
     0x1300; 0x1300; 0x1300; 0x1300; 0x1300; 0x1300; 0x1300; 0x1300; 0x1300; 0x1300; 0x1300; 0x1300; 0x1300; 0x1300; 0x1300; 0x1300;
     0x1300; 0x1300; 0x1300; 0x1300; 0x1300; 0x1300; 0x1300; 0x1300; 0x1300; 0x1300; 0x1300; 0x1300; 0x1300; 0x1300; 0x1300; 0x1300;
     0x1300; 0x1300; 0x1300; 0x1300; 0x1300; 0x1300; 0x1300; 0x1300; 0x1300; 0x1300; 0x1300; 0x1300; 0x1300; 0x1300; 0x1300; 0x1300;
     0x1300; 0x1300; 0x1300; 0x1300; 0x1300; 0x1300; 0x1300; 0x1300; 0x1300; 0x1300; 0x1300; 0x1300; 0x1300; 0x1300; 0x1300; 0x1300;
     0x1300; 0x1300; 0x1300; 0x1300; 0x1300; 0x1300; 0x1300; 0x1300; 0x1300; 0x1300; 0x1300; 0x1300; 0x1300; 0x1300; 0; 0;
     0x1300; 0x1300; 0x1300; 0x1300; 0x1300; 0x1300; 0x1300; 0x1300; 0x1300; 0x1300; 0x1300; 0x1300; 0x1300; 0x1300; 0x1300; 0x1300;
     0x1300; 0x1300; 0x1300; 0x1300; 0x1300; 0x1300; 0x1300; 0x1300; 0x1300; 0x1300; 0x1300; 0x1300; 0x1300; 0x1300; 0x1300; 0x1300;
     0x1300; 0x1300; 0x1300; 0x1300; 0x1300; 0x1300; 0x1300; 0x1300; 0x1300; 0x1300; 0x1300; 0x1300; 0x1300; 0x1300; 0x1300; 0x1300;
     0x1300; 0x1300; 0x1300; 0x1300; 0x1300; 0x1300; 0x1300; 0x1300; 0x1300; 0x1300; 0x1300; 0x1300; 0x1300; 0x1300; 0x1300; 0x1300;
     0x1300; 0x1300; 0x1300; 0x1300; 0x1300; 0x1300; 0x1300; 0x1300; 0x1300; 0x1300; 0x1300; 0x1300; 0x1300; 0x1300; 0x1300; 0x1300;
     0x1300; 0x1300; 0x1300; 0x1300; 0x1300; 0x1300; 0x1300; 0x1300; 0x1300; 0x1300; 0x1300; 0x1300; 0x1300; 0x1300; 0x1300; 0x1300;
     0x1300; 0x1300; 0x1300; 0x1300; 0x1300; 0x1300; 0x1300; 0x1300; 0x1300; 0x1300; 0; 0; 0; 0; 0; 0;
     0; 0; 0; 0; 0; 0; 0; 0; 0; 0; 0; 0; 0; 0; 0; 0;
     0; 0; 0; 0; 0; 0; 0; 0; 0; 0; 0; 0; 0; 0; 0; 0];
   [0x1302; 0x1302; 0x1302; 0x1302; 0x1302; 0x1302; 0x1302; 0; 0; 0; 0; 0; 0; 0; 0; 0;
     0; 0; 0; 0x1302; 0x1302; 0x1302; 0x1302; 0x1302; 0; 0; 0; 0; 0; 0x2300; 0xd200; 0x2300;
     0x2300; 0x2300; 0x2300; 0x2300; 0x2300; 0x2300; 0x2300; 0x2300; 0x2300; 0x4200; 0x2300; 0x2300; 0x2300; 0x2300; 0x2300; 0x2300;
     0x2300; 0x2300; 0x2300; 0x2300; 0x2300; 0x2300; 0x2300; 0; 0x2300; 0x2300; 0x2300; 0x2300; 0x2300; 0; 0x2300; 0;
     0x2300; 0x2300; 0; 0x2300; 0x2300; 0; 0x2300; 0x2300; 0x2300; 0x2300; 0x2300; 0x2300; 0x2300; 0x2300; 0x2300; 0x2300;
     0xc300; 0xc300; 0xc300; 0xc300; 0xc300; 0xc300; 0xc300; 0xc300; 0xc300; 0xc300; 0xc300; 0xc300; 0xc300; 0xc300; 0xc300; 0xc300;
     0xc300; 0xc300; 0xc300; 0xc300; 0xc300; 0xc300; 0xc300; 0xc300; 0xc300; 0xc300; 0xc300; 0xc300; 0xc300; 0xc300; 0xc300; 0xc300;
     0xc300; 0xc300; 0xc300; 0xc300; 0xc300; 0xc300; 0xc300; 0xc300; 0xc300; 0xc300; 0xc300; 0xc300; 0xc300; 0xc300; 0xc300; 0xc300;
     0xc300; 0xc300; 0xc300; 0xc300; 0xc300; 0xc300; 0xc300; 0xc300; 0xc300; 0xc300; 0xc300; 0xc300; 0xc300; 0xc300; 0xc300; 0xc300;
     0xc300; 0xc300; 0xc300; 0xc300; 0xc300; 0xc300; 0xc300; 0xc300; 0xc300; 0xc300; 0xc300; 0xc300; 0xc300; 0xc300; 0xc300; 0xc300;
     0xc300; 0xc300; 0xc300; 0xc300; 0xc300; 0xc300; 0xc300; 0xc300; 0xc300; 0xc300; 0xc300; 0xc300; 0xc300; 0xc300; 0xc300; 0xc300;
     0xc300; 0xc300; 0xc200; 0xc200; 0xc200; 0xc200; 0xc200; 0xc200; 0xc200; 0xc200; 0xc200; 0xc200; 0xc200; 0xc200; 0xc200; 0xc200;
     0xc200; 0xc200; 0; 0; 0; 0; 0; 0; 0; 0; 0; 0; 0; 0; 0; 0;
     0; 0; 0; 0xc300; 0xc300; 0xc300; 0xc300; 0xc300; 0xc300; 0xc300; 0xc300; 0xc300; 0xc300; 0xc300; 0xc300; 0xc300;
     0xc300; 0xc300; 0xc300; 0xc300; 0xc300; 0xc300; 0xc300; 0xc300; 0xc300; 0xc300; 0xc300; 0xc300; 0xc300; 0xc300; 0xc300; 0xc300;
     0xc300; 0xc300; 0xc300; 0xc300; 0xc300; 0xc300; 0xc300; 0xc300; 0xc300; 0xc300; 0xc300; 0xc300; 0xc300; 0xc300; 0xc300; 0xc300];
   [0xc300; 0xc300; 0xc300; 0xc300; 0xc300; 0xc300; 0xc300; 0xc300; 0xc300; 0xc300; 0xc300; 0xc300; 0xc300; 0xc300; 0xc300; 0xc300;
     0xc300; 0xc300; 0xc300; 0xc300; 0xc300; 0xc300; 0xc300; 0xc300; 0xc300; 0xc300; 0xc300; 0xc300; 0xc300; 0xc300; 0xc300; 0xc300;
     0xc300; 0xc300; 0xc300; 0xc300; 0xc300; 0xc300; 0xc300; 0xc300; 0xc300; 0xc300; 0xc300; 0xc300; 0xc300; 0xc300; 0xc300; 0xc300;
     0xc300; 0xc300; 0xc300; 0xc300; 0xc300; 0xc300; 0xc300; 0xc300; 0xc300; 0xc300; 0xc300; 0xc300; 0xc300; 0xc300; 0xc300; 0xc300;
     0xc300; 0xc300; 0xc300; 0xc300; 0xc300; 0xc300; 0xc300; 0xc300; 0xc300; 0xc300; 0xc300; 0xc300; 0xc300; 0xc300; 0xc300; 0xc300;
     0xc300; 0xc300; 0xc300; 0xc300; 0xc300; 0xc300; 0xc300; 0xc300; 0xc300; 0xc300; 0xc300; 0xc300; 0xc300; 0xc300; 0xc300; 0xc300;
     0xc300; 0xc300; 0xc300; 0xc300; 0xc300; 0xc300; 0xc300; 0xc300; 0xc300; 0xc300; 0xc300; 0xc300; 0xc300; 0xc300; 0xc300; 0xc300;
     0xc300; 0xc300; 0xc300; 0xc300; 0xc300; 0xc300; 0xc300; 0xc300; 0xc300; 0xc300; 0xc300; 0xc300; 0xc300; 0xc300; 0xc300; 0xc300;
     0xc300; 0xc300; 0xc300; 0xc300; 0xc300; 0xc300; 0xc300; 0xc300; 0xc300; 0xc300; 0xc300; 0xc300; 0xc300; 0xc300; 0xc300; 0xc300;
     0xc300; 0xc300; 0xc300; 0xc300; 0xc300; 0xc300; 0xc300; 0xc300; 0xc300; 0xc300; 0xc300; 0xc300; 0xc300; 0xc300; 0xc300; 0xc300;
     0xc300; 0xc300; 0xc300; 0xc300; 0xc300; 0xc300; 0xc300; 0xc300; 0xc300; 0xc300; 0xc300; 0xc300; 0xc300; 0xc300; 0xc300; 0xc300;
     0xc300; 0xc300; 0xc300; 0xc300; 0xc300; 0xc300; 0xc300; 0xc300; 0xc300; 0xc300; 0xc300; 0xc300; 0xc300; 0xc300; 0xc300; 0xc300;
     0xc300; 0xc300; 0xc300; 0xc300; 0xc300; 0xc300; 0xc300; 0xc300; 0xc300; 0xc300; 0xc300; 0xc300; 0xc300; 0xc300; 0xc300; 0xc300;
     0xc300; 0xc300; 0xc300; 0xc300; 0xc300; 0xc300; 0xc300; 0xc300; 0xc300; 0xc300; 0xc300; 0xc300; 0xc300; 0xc300; 0xc300; 0xc300;
     0xc300; 0xc300; 0xc300; 0xc300; 0xc300; 0xc300; 0xc300; 0xc300; 0xc300; 0xc300; 0xc300; 0xc300; 0xc300; 0xc300; 0xc300; 0xc300;
     0xc300; 0xc300; 0xc300; 0xc300; 0xc300; 0xc300; 0xc300; 0xc300; 0xc300; 0xc300; 0xc300; 0xc300; 0xc300; 0xc300; 0xc300; 0xc300];
   [0xc300; 0xc300; 0xc300; 0xc300; 0xc300; 0xc300; 0xc300; 0xc300; 0xc300; 0xc300; 0xc300; 0xc300; 0xc300; 0xc300; 0xc300; 0xc300;
     0xc300; 0xc300; 0xc300; 0xc300; 0xc300; 0xc300; 0xc300; 0xc300; 0xc300; 0xc300; 0xc300; 0xc300; 0xc300; 0xc300; 0xc300; 0xc300;
     0xc300; 0xc300; 0xc300; 0xc300; 0xc300; 0xc300; 0xc300; 0xc300; 0xc300; 0xc300; 0xc300; 0xc300; 0xc300; 0xc300; 0xc300; 0xc300;
     0xc300; 0xc300; 0xc300; 0xc300; 0xc300; 0xc300; 0xc300; 0xc300; 0xc300; 0xc300; 0xc300; 0xc300; 0xc300; 0xc300; 0xb210; 0xb210;
     0; 0; 0; 0; 0; 0; 0; 0; 0; 0; 0; 0; 0; 0; 0; 0;
     0xc300; 0xc300; 0xc300; 0xc300; 0xc300; 0xc300; 0xc300; 0xc300; 0xc300; 0xc300; 0xc300; 0xc300; 0xc300; 0xc300; 0xc300; 0xc300;
     0xc300; 0xc300; 0xc300; 0xc300; 0xc300; 0xc300; 0xc300; 0xc300; 0xc300; 0xc300; 0xc300; 0xc300; 0xc300; 0xc300; 0xc300; 0xc300;
     0xc300; 0xc300; 0xc300; 0xc300; 0xc300; 0xc300; 0xc300; 0xc300; 0xc300; 0xc300; 0xc300; 0xc300; 0xc300; 0xc300; 0xc300; 0xc300;
     0xc300; 0xc300; 0xc300; 0xc300; 0xc300; 0xc300; 0xc300; 0xc300; 0xc300; 0xc300; 0xc300; 0xc300; 0xc300; 0xc300; 0xc300; 0xc300;
     0; 0; 0xc300; 0xc300; 0xc300; 0xc300; 0xc300; 0xc300; 0xc300; 0xc300; 0xc300; 0xc300; 0xc300; 0xc300; 0xc300; 0xc300;
     0xc300; 0xc300; 0xc300; 0xc300; 0xc300; 0xc300; 0xc300; 0xc300; 0xc300; 0xc300; 0xc300; 0xc300; 0xc300; 0xc300; 0xc300; 0xc300;
     0xc300; 0xc300; 0xc300; 0xc300; 0xc300; 0xc300; 0xc300; 0xc300; 0xc300; 0xc300; 0xc300; 0xc300; 0xc300; 0xc300; 0xc300; 0xc300;
     0xc300; 0xc300; 0xc300; 0xc300; 0xc300; 0xc300; 0xc300; 0xc300; 0; 0; 0; 0; 0; 0; 0; 0;
     0; 0; 0; 0; 0; 0; 0; 0; 0; 0; 0; 0; 0; 0; 0; 0;
     0; 0; 0; 0; 0; 0; 0; 0; 0; 0; 0; 0; 0; 0; 0; 0;
     0xc300; 0xc300; 0xc300; 0xc300; 0xc300; 0xc300; 0xc300; 0xc300; 0xc300; 0xc300; 0xc300; 0xc300; 0xc200; 0xb200; 0; 0];
   [0xd200; 0xd200; 0xd200; 0xd200; 0xd200; 0xd200; 0xd200; 0xd200; 0xd200; 0xd200; 0xd200; 0xd200; 0xd200; 0xd200; 0xd200; 0xd200;
     0xb210; 0xb210; 0xb210; 0xb210; 0xb210; 0xb210; 0xb210; 0xb210; 0xb210; 0xb210; 0; 0; 0; 0; 0; 0;
     0xd200; 0xd200; 0xd200; 0xd200; 0xd200; 0xd200; 0xd200; 0xd200; 0xd200; 0xd200; 0xd200; 0xd200; 0xd200; 0xd200; 0xd200; 0xd200;
     0xb210; 0xb210; 0xb210; 0xb210; 0xb210; 0xb210; 0xb210; 0xb210; 0xb210; 0xb210; 0xb210; 0xb210; 0xb210; 0xb210; 0xb210; 0xb210;
     0xb210; 0xb210; 0xb210; 0xb210; 0xb210; 0xb210; 0xb210; 0xb210; 0xb210; 0xb210; 0xb210; 0xb210; 0xb210; 0xb210; 0xb210; 0xb210;
     0x7210; 0xb210; 0x7210; 0; 0xb210; 0x7210; 0xb210; 0xb210; 0xb210; 0xb210; 0xb210; 0xb210; 0xb210; 0xb210; 0xb210; 0x5210;
     0xb210; 0xb210; 0x4200; 0x4210; 0xb200; 0xb200; 0xb200; 0; 0xb210; 0x5200; 0x5210; 0xb210; 0; 0; 0; 0;
     0xc300; 0xc300; 0xc300; 0xc300; 0xc300; 0; 0xc300; 0xc300; 0xc300; 0xc300; 0xc300; 0xc300; 0xc300; 0xc300; 0xc300; 0xc300;
     0xc300; 0xc300; 0xc300; 0xc300; 0xc300; 0xc300; 0xc300; 0xc300; 0xc300; 0xc300; 0xc300; 0xc300; 0xc300; 0xc300; 0xc300; 0xc300;
     0xc300; 0xc300; 0xc300; 0xc300; 0xc300; 0xc300; 0xc300; 0xc300; 0xc300; 0xc300; 0xc300; 0xc300; 0xc300; 0xc300; 0xc300; 0xc300;
     0xc300; 0xc300; 0xc300; 0xc300; 0xc300; 0xc300; 0xc300; 0xc300; 0xc300; 0xc300; 0xc300; 0xc300; 0xc300; 0xc300; 0xc300; 0xc300;
     0xc300; 0xc300; 0xc300; 0xc300; 0xc300; 0xc300; 0xc300; 0xc300; 0xc300; 0xc300; 0xc300; 0xc300; 0xc300; 0xc300; 0xc300; 0xc300;
     0xc300; 0xc300; 0xc300; 0xc300; 0xc300; 0xc300; 0xc300; 0xc300; 0xc300; 0xc300; 0xc300; 0xc300; 0xc300; 0xc300; 0xc300; 0xc300;
     0xc300; 0xc300; 0xc300; 0xc300; 0xc300; 0xc300; 0xc300; 0xc300; 0xc300; 0xc300; 0xc300; 0xc300; 0xc300; 0xc300; 0xc300; 0xc300;
     0xc300; 0xc300; 0xc300; 0xc300; 0xc300; 0xc300; 0xc300; 0xc300; 0xc300; 0xc300; 0xc300; 0xc300; 0xc300; 0xc300; 0xc300; 0xc300;
     0xc300; 0xc300; 0xc300; 0xc300; 0xc300; 0xc300; 0xc300; 0xc300; 0xc300; 0xc300; 0xc300; 0xc300; 0xc300; 0; 0; 0xe260];
   [0; 0xb210; 0xb210; 0x5210; 0x5200; 0x5210; 0xb210; 0xb210; 0xb210; 0xb210; 0xb210; 0x4200; 0x7210; 0x4210; 0x7210; 0x7210;
     0x3284; 0x3284; 0x3284; 0x3284; 0x3284; 0x3284; 0x3284; 0x3284; 0x3284; 0x3284; 0x7210; 0xb210; 0xb200; 0xb200; 0xb200; 0xb210;
     0xb210; 0x1381; 0x1381; 0x1381; 0x1381; 0x1381; 0x1381; 0x1301; 0x1301; 0x1301; 0x1301; 0x1301; 0x1301; 0x1301; 0x1301; 0x1301;
     0x1301; 0x1301; 0x1301; 0x1301; 0x1301; 0x1301; 0x1301; 0x1301; 0x1301; 0x1301; 0x1301; 0xb210; 0xb210; 0xb210; 0xb200; 0xb210;
     0xb200; 0x1382; 0x1382; 0x1382; 0x1382; 0x1382; 0x1382; 0x1302; 0x1302; 0x1302; 0x1302; 0x1302; 0x1302; 0x1302; 0x1302; 0x1302;
     0x1302; 0x1302; 0x1302; 0x1302; 0x1302; 0x1302; 0x1302; 0x1302; 0x1302; 0x1302; 0x1302; 0xb210; 0xb200; 0xb210; 0xb200; 0xb210;
     0xb210; 0xb210; 0xb210; 0xb210; 0xb210; 0xb210; 0x1300; 0x1300; 0x1300; 0x1300; 0x1300; 0x1300; 0x1300; 0x1300; 0x1300; 0x1300;
     0x1300; 0x1300; 0x1300; 0x1300; 0x1300; 0x1300; 0x1300; 0x1300; 0x1300; 0x1300; 0x1300; 0x1300; 0x1300; 0x1300; 0x1300; 0x1300;
     0x1300; 0x1300; 0x1300; 0x1300; 0x1300; 0x1300; 0x1300; 0x1300; 0x1300; 0x1300; 0x1300; 0x1300; 0x1300; 0x1300; 0x1300; 0x1300;
     0x1300; 0x1300; 0x1300; 0x1300; 0x1300; 0x1300; 0x1300; 0x1300; 0x1300; 0x1300; 0x1300; 0x1300; 0x1300; 0x1300; 0x1300; 0x1300;
     0x1300; 0x1300; 0x1300; 0x1300; 0x1300; 0x1300; 0x1300; 0x1300; 0x1300; 0x1300; 0x1300; 0x1300; 0x1300; 0x1300; 0x1300; 0x1300;
     0x1300; 0x1300; 0x1300; 0x1300; 0x1300; 0x1300; 0x1300; 0x1300; 0x1300; 0x1300; 0x1300; 0x1300; 0x1300; 0x1300; 0x1300; 0;
     0; 0; 0x1300; 0x1300; 0x1300; 0x1300; 0x1300; 0x1300; 0; 0; 0x1300; 0x1300; 0x1300; 0x1300; 0x1300; 0x1300;
     0; 0; 0x1300; 0x1300; 0x1300; 0x1300; 0x1300; 0x1300; 0; 0; 0x1300; 0x1300; 0x1300; 0; 0; 0;
     0x5200; 0x5200; 0xb200; 0xb200; 0xb200; 0x5200; 0x5200; 0; 0xb200; 0xb200; 0xb200; 0xb200; 0xb200; 0xb200; 0xb200; 0;
     0; 0; 0; 0; 0; 0; 0; 0; 0; 0xb220; 0xb220; 0xb220; 0xb200; 0xb200; 0; 0]].

Definition wine_wctype_table : list Z := concat wine_wctype_rows.

Definition _isctype (c ctypeFlags : Z) : bool :=
  negb (Z.land (default 0 (_ctype !! S (Z.to_nat (Z.land c 0xFF)))) ctypeFlags =? 0).

Definition isdigit (c : Z) : bool := _isctype c _DIGIT.

(** A WCHAR is below the 256 pages of the table. *)
Definition iswctype (wc wctypeFlags : Z) : bool :=
  let page := default 0 (wine_wctype_table !! Z.to_nat (Z.shiftr wc 8)) in
  negb (Z.land (default 0 (wine_wctype_table !! Z.to_nat (page + Z.land wc 0xff))) wctypeFlags =? 0).

Definition towlower (c : Z) : Z := if iswctype c _UPPER then u16 (c + 0x20) else c.
