(* ===== verification/Network.v ===== *)
(** * IPv4 addresses as strings (sdk/lib/rtl/network.c)

    Addresses, strings and the variables that pointers refer to are in byte memory; NULL is the
    address 0.  A function with a local array takes its address [Stack] as an argument, and one
    with the local array [Values] takes what the array holds before it is written.  A pointer
    that is only set (Terminator) is part of the result.  In the checked build ([DBG]) a failed
    assertion is a fault.  Formatted printing takes the text that the format gives.  Loops over
    a string have the size of the memory as fuel: they read one character more in each step. *)

From Stdlib Require Import ZArith Lia Bool.
From stdpp Require Import base option list numbers gmap.
From S2P Require Import Prelude Memory Nls Unicode UnicodeConvert UnicodeNumber Ctype.
Open Scope Z_scope.

(** ** Strings with a size in characters (ntstrsafe.h) *)

Definition NTSTRSAFE_MAX_CCH : Z := 2147483647.

(** Characters of one or two bytes. *)
Definition ldc (w : nat) (m : mem) (p : Z) : option Z := dec <$> load m p w.
Definition stc (w : nat) (m : mem) (p c : Z) : option mem := store m p (enc w c).
Definition chars (w : nat) (cs : list Z) : list Z := concat (map (enc w) cs).

(** With the flags 0 and a format that is not empty; the result is the status, the end of the
    string and the room that is left. *)
Definition RtlStringCchPrintfEx (w : nat) (m : mem) (pszDest cchDest : Z) (text : list Z)
    : option (NTSTATUS * Z * Z * mem) :=
  if NTSTRSAFE_MAX_CCH <? cchDest then
    m ← stc w m pszDest 0; Some (STATUS_INVALID_PARAMETER, pszDest, cchDest, m)
  else if cchDest =? 0 then Some (STATUS_BUFFER_OVERFLOW, pszDest, 0, m) else
  let cchMax := cchDest - 1 in
  let iRet := Z.of_nat (length text) in
  if cchMax <? iRet then
    m ← store m pszDest (chars w (take (Z.to_nat cchMax) text ++ [0]));
    Some (STATUS_BUFFER_OVERFLOW, pszDest + Z.of_nat w * cchMax, 1, m)
  else
    m ← store m pszDest (chars w (text ++ [0]));
    Some (STATUS_SUCCESS, pszDest + Z.of_nat w * iRet, cchDest - iRet, m).

Definition RtlStringCchPrintfExA := RtlStringCchPrintfEx 1.
Definition RtlStringCchPrintfExW := RtlStringCchPrintfEx 2.

(** [while (cchDest && *pszSrc)]: the end and the room that is left. *)
Fixpoint CopyWorker (w : nat) (fuel : nat) (m : mem) (pszDest cchDest pszSrc : Z) : option (Z * Z * mem) :=
  match fuel with
  | O => None
  | S fuel' =>
      if cchDest =? 0 then Some (pszDest, 0, m) else
      c ← ldc w m pszSrc;
      if c =? 0 then Some (pszDest, cchDest, m) else
      m ← stc w m pszDest c;
      CopyWorker w fuel' m (pszDest + Z.of_nat w) (cchDest - 1) (pszSrc + Z.of_nat w)
  end.

Definition RtlStringCchCopy (w : nat) (m : mem) (pszDest cchDest pszSrc : Z) : option (NTSTATUS * mem) :=
  if NTSTRSAFE_MAX_CCH <? cchDest then
    m ← stc w m pszDest 0; Some (STATUS_INVALID_PARAMETER, m)
  else if cchDest =? 0 then Some (STATUS_INVALID_PARAMETER, m) else
  '(pszDest, cchDest, m) ← CopyWorker w (S (size m)) m pszDest cchDest pszSrc;
  if cchDest =? 0 then m ← stc w m (pszDest - Z.of_nat w) 0; Some (STATUS_BUFFER_OVERFLOW, m)
  else m ← stc w m pszDest 0; Some (STATUS_SUCCESS, m).

Definition RtlStringCchCopyA := RtlStringCchCopy 1.
Definition RtlStringCchCopyW := RtlStringCchCopy 2.

(** The text of [%u] and of [%x] for a 32-bit value. *)
Definition percent_u (v : Z) : list Z := default [] (DigitsOf 10 0x61 10 v []).
Definition percent_x (v : Z) : list Z := default [] (DigitsOf 8 0x61 16 v []).

(** The text of [%u.%u.%u.%u]. *)
Definition dotted (b1 b2 b3 b4 : Z) : list Z :=
  percent_u b1 ++ 0x2E :: percent_u b2 ++ 0x2E :: percent_u b3 ++ 0x2E :: percent_u b4.

(** ** Checked arithmetic (intsafe.h) and byte order *)

Definition ULONG_MAX : Z := 0xFFFFFFFF.
Definition ULONG_ERROR : Z := 0xFFFFFFFF.

Definition RtlULongLongToULong (Input : Z) : NTSTATUS * Z :=
  if Input <=? ULONG_MAX then (STATUS_SUCCESS, Input) else (STATUS_INTEGER_OVERFLOW, ULONG_ERROR).

Definition RtlULongMult (Multiplicand Multiplier : Z) : NTSTATUS * Z :=
  RtlULongLongToULong (u64 (Multiplicand * Multiplier)).

Definition RtlULongAdd (Augend Addend : Z) : NTSTATUS * Z :=
  if Augend <=? u32 (Augend + Addend) then (STATUS_SUCCESS, u32 (Augend + Addend))
  else (STATUS_INTEGER_OVERFLOW, ULONG_ERROR).

(** The functions of byteswap.c; where the compiler has intrinsics for them the headers use
    these, with the same results. *)
Definition RtlUshortByteSwap (Source : Z) : Z := u16 (Z.lor (Z.shiftr Source 8) (Z.shiftl Source 8)).

Definition RtlUlongByteSwap (Source : Z) : Z :=
  Z.lor (u32 (Z.shiftl (RtlUshortByteSwap (u16 Source)) 16)) (RtlUshortByteSwap (u16 (Z.shiftr Source 16))).

Definition WN2H (w : Z) : Z := Z.lor (Z.shiftr (Z.land w 0xFF00) 8) (Z.shiftl (Z.land w 0x00FF) 8).

Definition IPV4_ADDR_STRING_MAX_LEN : Z := 16.
Definition IPV4_PORT_STRING_MAX_LEN : Z := 7.

(** ** Numbers *)

(** The digit that a character is, in the base. *)
Definition ParseDigit (Base c : Z) : option Z :=
  let Digit := towlower c in
  if isdigit Digit && ((10 <=? Base) || (Digit <=? 0x37)) then Some (u32 (Digit - 0x30))
  else if (0x61 <=? Digit) && (Digit <=? 0x66) && (16 <=? Base) then Some (Digit - (0x61 - 10))
  else None.

(** [while (1)]: the status, the end of the number and its value. *)
Fixpoint UlongLoop (fuel : nat) (m : mem) (String Base : Z) (Status : NTSTATUS) (Result : Z)
    : option (NTSTATUS * Z * Z) :=
  match fuel with
  | O => None
  | S fuel' =>
      c ← ld16 m String;
      match ParseDigit Base c with
      | None => Some (Status, String, Result)
      | Some Digit =>
          let '(Status, Result) := RtlULongMult Result Base in
          if negb (NT_SUCCESS Status) then Some (STATUS_INVALID_PARAMETER, String, Result) else
          let '(Status, Result) := RtlULongAdd Result Digit in
          if negb (NT_SUCCESS Status) then Some (STATUS_INVALID_PARAMETER, String, Result) else
          UlongLoop fuel' m (String + 2) Base Status Result
      end
  end.

Definition RtlpStringToUlongBase (m : mem) (String Base : Z) : option (NTSTATUS * Z * Z) :=
  UlongLoop (S (size m)) m String Base STATUS_INVALID_PARAMETER 0.

(** [Out] is what the variable holds before. *)
Definition RtlpStringToUlong (m : mem) (String : Z) (Strict : bool) (Out : Z) : option (NTSTATUS * Z * Z) :=
  c ← ld16 m String;
  '(String, Base) ←
    (if c =? 0x30 then
       d ← ld16 m (String + 2);
       Some (if (d =? 0x78) || (d =? 0x58) then (String + 4, 16)
             else if (0x30 <=? d) && (d <=? 0x39) then (String + 2, 8) else (String, 10))
     else Some (String, 10));
  if Strict && negb (Base =? 10) then Some (STATUS_INVALID_PARAMETER, String, Out)
  else RtlpStringToUlongBase m String Base.

(** [do ... while (NT_SUCCESS(Status))]: at most four parts. *)
Fixpoint PartLoop (fuel : nat) (m : mem) (String : Z) (Strict : bool) (Values : list Z) (Parts : Z)
    : option (NTSTATUS * Z * list Z * Z) :=
  match fuel with
  | O => None
  | S fuel' =>
      Out ← rd Values Parts;
      '(Status, String, v) ← RtlpStringToUlong m String Strict Out;
      Values ← wr Values Parts v;
      let Parts := Parts + 1 in
      c ← ld16 m String;
      if negb (c =? 0x2E) then Some (Status, String, Values, Parts) else
      if Parts =? 4 then Some (STATUS_INVALID_PARAMETER, String, Values, Parts) else
      let String := String + 2 in
      if NT_SUCCESS Status then PartLoop fuel' m String Strict Values Parts
      else Some (Status, String, Values, Parts)
  end.

Definition RtlpIpv4StringToAddressParserW (m : mem) (String : Z) (Strict : bool) (Values : list Z)
    : option (NTSTATUS * Z * list Z * Z) :=
  PartLoop 4 m String Strict Values 0.

(** ** Parsing *)

(** [for (i = 0; i < Parts - 1; i++)]; [None] is the return in the loop. *)
Fixpoint CombineLoop (k : nat) (i : Z) (Values : list Z) (Result : Z) : option (option Z) :=
  match k with
  | O => Some (Some Result)
  | S k' =>
      let Shift := 8 * (3 - i) in
      v ← rd Values i;
      if (0xFF <? v) || negb (Z.land Result (Z.shiftl 0xFF Shift) =? 0) then Some None
      else CombineLoop k' (i + 1) Values (Z.lor Result (u32 (Z.shiftl v Shift)))
  end.

(** The result is the status, the terminator and the memory. *)
Definition RtlIpv4StringToAddressW (m : mem) (Values : list Z) (String : Z) (Strict : bool) (Addr : Z)
    : option (NTSTATUS * Z * mem) :=
  '(Status, Terminator, Values, Parts) ← RtlpIpv4StringToAddressParserW m String Strict Values;
  let Status := if Strict && (Parts <? 4) then STATUS_INVALID_PARAMETER else Status in
  if negb (NT_SUCCESS Status) then Some (Status, Terminator, m) else
  last ← rd Values (Parts - 1);
  r ← CombineLoop (Z.to_nat (Parts - 1)) 0 Values last;
  match r with
  | None => Some (STATUS_INVALID_PARAMETER, Terminator, m)
  | Some Result => m ← st32 m Addr (RtlUlongByteSwap Result); Some (Status, Terminator, m)
  end.

Definition RtlIpv4StringToAddressExW (m : mem) (Values : list Z) (AddressString : Z) (Strict : bool)
    (Address Port : Z) : option (NTSTATUS * mem) :=
  if (AddressString =? 0) || (Address =? 0) || (Port =? 0) then Some (STATUS_INVALID_PARAMETER, m) else
  '(Status, CurrentChar, m) ← RtlIpv4StringToAddressW m Values AddressString Strict Address;
  if negb (NT_SUCCESS Status) then Some (Status, m) else
  c ← ld16 m CurrentChar;
  if c =? 0 then m ← st16 m Port 0; Some (STATUS_SUCCESS, m) else
  if negb (c =? 0x3A) then Some (STATUS_INVALID_PARAMETER, m) else
  '(Status, CurrentChar, ConvertedPort) ← RtlpStringToUlong m (CurrentChar + 2) false 0;
  if negb (NT_SUCCESS Status) then Some (Status, m) else
  c ← ld16 m CurrentChar;
  if negb (c =? 0) || (ConvertedPort =? 0) || (0xffff <? ConvertedPort)
  then Some (STATUS_INVALID_PARAMETER, m)
  else m ← st16 m Port (WN2H ConvertedPort); Some (STATUS_SUCCESS, m).

Section Network.

Context (DBG : bool) (N : NLS) `{ByteAllocator}.

(** The status, the terminator if it is set, and the memory. *)
Definition RtlIpv4StringToAddressA (m : mem) (Values : list Z) (String : Z) (Strict : bool) (Addr : Z)
    : option (NTSTATUS * option Z * mem) :=
  '(Status, AddressA) ← RtlInitAnsiStringEx m (mkString 0 0 0) String;
  if negb (NT_SUCCESS Status) then Some (Status, None, m) else
  '(Status, AddressW, m) ← RtlAnsiStringToUnicodeString N DBG m (mkString 0 0 0) AddressA true;
  if negb (NT_SUCCESS Status) then Some (Status, None, m) else
  '(Status, TerminatorW, m) ← RtlIpv4StringToAddressW m Values (Buffer AddressW) Strict Addr;
  _ ← checked DBG (Buffer AddressW <=? TerminatorW);
  let Terminator := String + (TerminatorW - Buffer AddressW) / 2 in
  let m := (RtlFreeUnicodeString m (Z.to_nat (MaximumLength AddressW)) AddressW).2 in
  Some (Status, Some Terminator, m).

Definition RtlIpv4StringToAddressExA (m : mem) (Values : list Z) (AddressString : Z) (Strict : bool)
    (Address Port : Z) : option (NTSTATUS * mem) :=
  '(Status, AddressA) ← RtlInitAnsiStringEx m (mkString 0 0 0) AddressString;
  if negb (NT_SUCCESS Status) then Some (Status, m) else
  '(Status, AddressW, m) ← RtlAnsiStringToUnicodeString N DBG m (mkString 0 0 0) AddressA true;
  if negb (NT_SUCCESS Status) then Some (Status, m) else
  '(Status, m) ← RtlIpv4StringToAddressExW m Values (Buffer AddressW) Strict Address Port;
  let m := (RtlFreeUnicodeString m (Z.to_nat (MaximumLength AddressW)) AddressW).2 in
  Some (Status, m).

(** ** Printing *)

(** [(PSTR)~0]. *)
Definition NO_STRING : Z := 0xFFFFFFFF.

Definition DottedAt (m : mem) (Addr : Z) : option (list Z) :=
  b1 ← ld8 m Addr; b2 ← ld8 m (Addr + 1); b3 ← ld8 m (Addr + 2); b4 ← ld8 m (Addr + 3);
  Some (dotted b1 b2 b3 b4).

Definition Ipv4ToString (w : nat) (m : mem) (Addr S : Z) : option (Z * mem) :=
  if S =? 0 then Some (NO_STRING, m) else
  text ← DottedAt m Addr;
  '(Status, End, _, m) ← RtlStringCchPrintfEx w m S IPV4_ADDR_STRING_MAX_LEN text;
  _ ← checked DBG (Status =? STATUS_SUCCESS);
  if negb (NT_SUCCESS Status) then Some (NO_STRING, m) else Some (End, m).

Definition RtlIpv4AddressToStringA := Ipv4ToString 1.
Definition RtlIpv4AddressToStringW := Ipv4ToString 2.

(** The end of the functions that copy the string out of the buffer on the stack. *)
Definition CopyOut (w : nat) (m : mem) (Buffer Length AddressString AddressStringLength : Z)
    : option (NTSTATUS * mem) :=
  size ← ld32 m AddressStringLength;
  if Length <? size then
    '(Status, m) ← RtlStringCchCopy w m AddressString size Buffer;
    _ ← checked DBG (Status =? STATUS_SUCCESS);
    m ← st32 m AddressStringLength (Length + 1);
    Some (STATUS_SUCCESS, m)
  else
    m ← st32 m AddressStringLength (Length + 1);
    Some (STATUS_INVALID_PARAMETER, m).

(** [base] is the pointer from which the length is counted. *)
Definition Ipv4ToStringEx (w : nat) (base : Z) (m : mem) (Stack Address Port AddressString AddressStringLength : Z)
    : option (NTSTATUS * mem) :=
  if (Address =? 0) || (AddressString =? 0) || (AddressStringLength =? 0)
  then Some (STATUS_INVALID_PARAMETER, m) else
  text ← DottedAt m Address;
  '(Status, End, _, m) ←
    RtlStringCchPrintfEx w m Stack (IPV4_ADDR_STRING_MAX_LEN + IPV4_PORT_STRING_MAX_LEN)
      (text ++ if Port =? 0 then [] else 0x3A :: percent_u (WN2H Port));
  _ ← checked DBG (Status =? STATUS_SUCCESS);
  if negb (NT_SUCCESS Status) then Some (STATUS_INVALID_PARAMETER, m) else
  CopyOut w m Stack (u32 ((End - base) / Z.of_nat w)) AddressString AddressStringLength.

Definition RtlIpv4AddressToStringExA (m : mem) (Stack Address Port AddressString AddressStringLength : Z)
    : option (NTSTATUS * mem) :=
  Ipv4ToStringEx 1 Stack m Stack Address Port AddressString AddressStringLength.

(** The length is counted from the destination, not from the buffer. *)
Definition RtlIpv4AddressToStringExW (m : mem) (Stack Address Port AddressString AddressStringLength : Z)
    : option (NTSTATUS * mem) :=
  Ipv4ToStringEx 2 AddressString m Stack Address Port AddressString AddressStringLength.

End Network.
