(* ===== verification/NetworkProps.v ===== *)
(** * IPv4 addresses: what is printed is parsed back

    The dotted form of an address in a buffer of sixteen characters, and the parser on it. *)

From Stdlib Require Import ZArith Lia Bool.
From stdpp Require Import base option list numbers gmap.
From S2P Require Import Prelude Memory Nls Unicode UnicodeConvert UnicodeNumber UnicodeNumberProps Ctype Network.
Open Scope Z_scope.

(** A property of all bytes, by evaluation. *)
Lemma all_bytes (P : Z -> bool) : forallb P (seqZ 0 256) = true -> forall b, is_byte b -> P b = true.
Proof.
  intros H b Hb. rewrite forallb_forall in H. apply H, list_elem_of_In, elem_of_seqZ. unfold is_byte in Hb. lia.
Qed.

(** ** The decimal digits of a byte *)

Definition digits (b : Z) : list Z :=
  if b <? 10 then [b] else if b <? 100 then [b / 10; b mod 10] else [b / 100; b / 10 mod 10; b mod 10].

Definition text (ds : list Z) : list Z := map (Z.add 0x30) ds.

Definition value (acc : Z) (ds : list Z) : Z := fold_left (fun v d => v * 10 + d) ds acc.

Definition byte_digits (b : Z) : bool :=
  bool_decide (percent_u b = text (digits b)) && bool_decide (Forall (fun d => 0 <= d <= 9) (digits b)) &&
  (value 0 (digits b) =? b) && bool_decide (length (digits b) <= 3)%nat &&
  match digits b with [] => false | d :: ds => negb (d =? 0) || bool_decide (ds = []) end.

Lemma byte_digits_all b : is_byte b -> byte_digits b = true.
Proof. apply all_bytes. vm_compute. reflexivity. Qed.

Lemma byte_text b : is_byte b ->
  percent_u b = text (digits b) /\ Forall (fun d => 0 <= d <= 9) (digits b) /\ value 0 (digits b) = b /\
  (1 <= length (digits b) <= 3)%nat /\ exists d ds, digits b = d :: ds /\ (d <> 0 \/ ds = []).
Proof.
  intros Hb. pose proof (byte_digits_all b Hb) as H. unfold byte_digits in H.
  apply andb_true_iff in H as [H H5]. apply andb_true_iff in H as [H H4]. apply andb_true_iff in H as [H H3].
  apply andb_true_iff in H as [H1 H2]. apply bool_decide_eq_true in H1, H2, H4. apply Z.eqb_eq in H3.
  destruct (digits b) as [|d ds] eqn:E; [done|]. split_and!; [done|done|done|cbn; lia|done|].
  exists d, ds. split; [done|]. apply orb_true_iff in H5 as [H5|H5].
  - left. intros ->. done.
  - right. by apply bool_decide_eq_true in H5.
Qed.

(** ** The parser on digits *)

Lemma ParseDigit_ten d : 0 <= d <= 9 -> ParseDigit 10 (0x30 + d) = Some d.
Proof.
  intros Hd. assert (forallb (fun d => bool_decide (ParseDigit 10 (0x30 + d) = Some d)) (seqZ 0 10) = true) as H
    by (vm_compute; reflexivity).
  rewrite forallb_forall in H. apply (bool_decide_unpack _), Is_true_true, H, list_elem_of_In, elem_of_seqZ. lia.
Qed.

Lemma length_chars2 cs : length (chars 2 cs) = (2 * length cs)%nat.
Proof. unfold chars. induction cs as [|c cs IH]; [done|]. cbn [map concat length]. rewrite length_app, length_enc, IH. lia. Qed.

Lemma chars2_cons m p c cs : 0 <= c < 2 ^ 16 -> has m p (chars 2 (c :: cs)) -> ld16 m p = Some c /\ has m (p + 2) (chars 2 cs).
Proof.
  intros Hc H. unfold chars in H. cbn [map concat] in H. apply has_app in H as [H1 H2]. rewrite length_enc in H2.
  split; [by apply ld16_has|done].
Qed.

(** A character that ends a number. *)
Definition ends (t : Z) : Prop := t = 0x2E \/ t = 0.

Lemma ends_digit t : ends t -> ParseDigit 10 t = None /\ 0 <= t < 2 ^ 16 /\ t < 0x30.
Proof. intros [-> | ->]; (split; [vm_compute; reflexivity|lia]). Qed.

Lemma value_mono acc ds : 0 <= acc -> Forall (fun d => 0 <= d <= 9) ds -> acc <= value acc ds.
Proof.
  intros Ha H. revert acc Ha. induction H as [|d ds Hd _ IH]; intros acc Ha; cbn [value fold_left]; [lia|].
  specialize (IH (acc * 10 + d) ltac:(lia)). unfold value in IH. lia.
Qed.

Lemma UlongLoop_run fuel m p ds t rest st acc :
  (length ds < fuel)%nat -> Forall (fun d => 0 <= d <= 9) ds -> ends t -> 0 <= acc -> value acc ds < 2 ^ 32 ->
  has m p (chars 2 (text ds ++ t :: rest)) ->
  UlongLoop fuel m p 10 st acc
  = Some (match ds with [] => st | _ => STATUS_SUCCESS end, p + 2 * Z.of_nat (length ds), value acc ds).
Proof.
  revert fuel p st acc. induction ds as [|d ds IH]; intros fuel p st acc Hf Hd Ht Ha Hv Hm;
    (destruct fuel as [|fuel]; [cbn in Hf; lia|]); cbn [UlongLoop text map app] in *.
  - destruct (ends_digit t Ht) as (P & R & _). destruct (chars2_cons m p t rest R Hm) as [-> _]. cbn [mbind option_bind].
    rewrite P. cbn. do 2 f_equal. f_equal. lia.
  - apply Forall_cons_1 in Hd as [Hd Hds]. destruct (chars2_cons m p (0x30 + d) _ ltac:(lia) Hm) as [-> Hm']. cbn [mbind option_bind].
    rewrite ParseDigit_ten by done. cbn [value fold_left] in Hv. fold (value (acc * 10 + d) ds) in Hv.
    pose proof (value_mono (acc * 10 + d) ds ltac:(lia) Hds) as M. unfold RtlULongMult, RtlULongLongToULong, ULONG_MAX.
    rewrite u64_small, (proj2 (Z.leb_le _ _)) by lia. change (NT_SUCCESS STATUS_SUCCESS) with true. cbn [negb].
    unfold RtlULongAdd. rewrite u32_small, (proj2 (Z.leb_le _ _)) by lia. change (NT_SUCCESS STATUS_SUCCESS) with true. cbn [negb].
    rewrite (IH fuel (p + 2) STATUS_SUCCESS (acc * 10 + d)); [|cbn in Hf; lia|done|done|lia|done|exact Hm'].
    cbn [length value fold_left]. fold (value (acc * 10 + d) ds). replace (p + 2 + 2 * Z.of_nat (length ds)) with (p + 2 * Z.of_nat (S (length ds))) by lia. by destruct ds.
Qed.

(** One part of the dotted form. *)
Lemma RtlpStringToUlong_run m p b t rest Strict Out :
  is_byte b -> ends t -> has m p (chars 2 (percent_u b ++ t :: rest)) ->
  RtlpStringToUlong m p Strict Out = Some (STATUS_SUCCESS, p + 2 * Z.of_nat (length (percent_u b)), b).
Proof.
  intros Hb Ht Hm. destruct (byte_text b Hb) as (E & Hd & Hv & Hl & d & ds & Ed & Hz). rewrite E in *.
  assert (RtlpStringToUlongBase m p 10 = Some (STATUS_SUCCESS, p + 2 * Z.of_nat (length (text (digits b))), b)) as Run.
  { unfold RtlpStringToUlongBase. pose proof (has_size _ _ _ Hm) as Hs. rewrite length_chars2, length_app in Hs.
    unfold text in Hs. rewrite length_map in Hs.
    rewrite (UlongLoop_run _ m p (digits b) t rest); [|lia|done|done|lia|rewrite Hv; unfold is_byte in Hb; lia|done].
    unfold text. rewrite length_map, Hv, Ed. done. }
  rewrite Ed in Hm. cbn [text map app] in Hm. destruct (ends_digit t Ht) as (_ & R & L).
  assert (0 <= d <= 9) as Hd0 by (rewrite Ed in Hd; by apply Forall_cons_1 in Hd as [? _]).
  destruct (chars2_cons m p (0x30 + d) _ ltac:(lia) Hm) as [E1 Hm'].
  unfold RtlpStringToUlong. rewrite E1. cbn [mbind option_bind]. destruct (Z.eqb_spec (0x30 + d) 0x30) as [Z0|N0].
  - destruct Hz as [?| ->]; [lia|]. cbn [map app] in Hm'. destruct (chars2_cons m (p + 2) t rest R Hm') as [-> _].
    cbn [mbind option_bind]. rewrite (proj2 (Z.eqb_neq t 0x78)), (proj2 (Z.eqb_neq t 0x58)), (proj2 (Z.leb_gt 0x30 t)) by lia.
    cbn [orb andb negb Z.eqb]. change (10 =? 10) with true. by rewrite andb_false_r.
  - cbn [mbind option_bind]. change (10 =? 10) with true. by rewrite andb_false_r.
Qed.

(** ** The whole address *)

Lemma chars2_next m p l c rest :
  0 <= c < 2 ^ 16 -> has m p (chars 2 (l ++ c :: rest)) ->
  ld16 m (p + 2 * Z.of_nat (length l)) = Some c /\ has m (p + 2 * Z.of_nat (length l) + 2) (chars 2 rest).
Proof.
  intros Hc H. unfold chars in H. rewrite map_app, concat_app in H. apply has_app in H as [_ H].
  fold (chars 2 l) in H. rewrite length_chars2 in H. apply chars2_cons; [done|].
  by replace (p + 2 * Z.of_nat (length l)) with (p + Z.of_nat (2 * length l)) by lia.
Qed.

(** A part with a dot behind it. *)
Lemma PartLoop_part fuel m p b rest Strict Values k Values' :
  is_byte b -> has m p (chars 2 (percent_u b ++ 0x2E :: rest)) -> is_Some (rd Values k) ->
  wr Values k b = Some Values' -> k + 1 <> 4 ->
  PartLoop (S fuel) m p Strict Values k
  = PartLoop fuel m (p + 2 * Z.of_nat (length (percent_u b)) + 2) Strict Values' (k + 1) /\
  has m (p + 2 * Z.of_nat (length (percent_u b)) + 2) (chars 2 rest).
Proof.
  intros Hb H [Out HO] HW Hk. destruct (chars2_next m p _ 0x2E _ ltac:(lia) H) as [L H']. split; [|done].
  cbn [PartLoop]. rewrite HO. cbn [mbind option_bind].
  rewrite (RtlpStringToUlong_run m p b 0x2E rest Strict Out Hb ltac:(by left) H). cbn [mbind option_bind].
  rewrite HW. cbn [mbind option_bind]. rewrite L. cbn [mbind option_bind negb Z.eqb Pos.eqb].
  by rewrite (proj2 (Z.eqb_neq _ _)).
Qed.

Lemma PartLoop_run m p b1 b2 b3 b4 Values Strict :
  is_byte b1 -> is_byte b2 -> is_byte b3 -> is_byte b4 -> length Values = 4%nat ->
  has m p (chars 2 (dotted b1 b2 b3 b4 ++ [0])) ->
  RtlpIpv4StringToAddressParserW m p Strict Values
  = Some (STATUS_SUCCESS, p + 2 * Z.of_nat (length (dotted b1 b2 b3 b4)), [b1; b2; b3; b4], 4).
Proof.
  intros B1 B2 B3 B4 LV H. unfold RtlpIpv4StringToAddressParserW, dotted in *.
  destruct Values as [|v0 [|v1 [|v2 [|v3 [|]]]]]; try done.
  do 3 (rewrite <- app_assoc in H; cbn [app] in H).
  destruct (PartLoop_part 3 m p b1 _ Strict [v0; v1; v2; v3] 0 [b1; v1; v2; v3] B1 H) as [-> H1]; [by eexists|done|lia|].
  destruct (PartLoop_part 2 m _ b2 _ Strict [b1; v1; v2; v3] 1 [b1; b2; v2; v3] B2 H1) as [E2 H2]; [by eexists|done|lia|].
  destruct (PartLoop_part 1 m _ b3 _ Strict [b1; b2; v2; v3] 2 [b1; b2; b3; v3] B3 H2) as [E3 H3]; [by eexists|done|lia|].
  change (0 + 1) with 1. change (1 + 1) with 2 in E2. change (2 + 1) with 3 in E3. rewrite E2, E3. clear E2 E3 H H1 H2.
  cbn [PartLoop]. change (rd [b1; b2; b3; v3] 3) with (Some v3). cbn [mbind option_bind].
  rewrite (RtlpStringToUlong_run m _ b4 0 [] Strict v3 B4 ltac:(by right) H3). cbn [mbind option_bind].
  change (wr [b1; b2; b3; v3] 3 b4) with (Some [b1; b2; b3; b4]). cbn [mbind option_bind].
  destruct (chars2_next m _ _ 0 _ ltac:(lia) H3) as [-> _]. cbn [mbind option_bind]. do 4 f_equal.
  do 3 (rewrite length_app; cbn [length]). lia.
Qed.

(** ** The value *)

Lemma land_field x k : 0 <= k -> Z.land x (Z.shiftl 0xFF k) = Z.shiftl (x / 2 ^ k mod 2 ^ 8) k.
Proof.
  intros Hk. rewrite <- Z.shiftr_div_pow2, <- Z.land_ones by lia. change (Z.ones 8) with 0xFF.
  apply Z.bits_inj'. intros n Hn. rewrite Z.land_spec, !Z.shiftl_spec, Z.land_spec by done.
  destruct (Z.lt_ge_cases n k); [rewrite !(Z.testbit_neg_r _ (n - k)) by lia; by rewrite andb_false_r|].
  rewrite Z.shiftr_spec by lia. do 2 f_equal. lia.
Qed.

Lemma CombineLoop_run b1 b2 b3 b4 :
  is_byte b1 -> is_byte b2 -> is_byte b3 -> is_byte b4 ->
  CombineLoop 3 0 [b1; b2; b3; b4] b4 = Some (Some (((b1 * 2 ^ 8 + b2) * 2 ^ 8 + b3) * 2 ^ 8 + b4)).
Proof.
  unfold is_byte. intros B1 B2 B3 B4. cbn [CombineLoop].
  change (rd [b1; b2; b3; b4] 0) with (Some b1). change (rd [b1; b2; b3; b4] (0 + 1)) with (Some b2).
  change (rd [b1; b2; b3; b4] (0 + 1 + 1)) with (Some b3). cbn [mbind option_bind].
  change (8 * (3 - 0)) with 24. change (8 * (3 - (0 + 1))) with 16. change (8 * (3 - (0 + 1 + 1))) with 8.
  rewrite !(proj2 (Z.ltb_ge 0xFF _)) by lia. cbn [orb].
  assert (forall x v k, 0 <= k <= 24 -> 0 <= x -> 0 <= v < 2 ^ 8 -> x / 2 ^ k mod 2 ^ 8 = 0 ->
    negb (Z.land x (Z.shiftl 0xFF k) =? 0) = false /\ Z.lor x (u32 (Z.shiftl v k)) = x + v * 2 ^ k) as Field.
  { intros x v k Hk Hx Hv E. rewrite land_field, E, Z.shiftl_0_l by lia. split; [done|].
    assert (v * 2 ^ k < 2 ^ 32).
    { assert (2 ^ k <= 2 ^ 24) by (apply Z.pow_le_mono_r; lia). assert (0 < 2 ^ k) by (apply Z.pow_pos_nonneg; lia). nia. }
    assert (0 <= v * 2 ^ k) by (apply Z.mul_nonneg_nonneg; [lia|apply Z.pow_nonneg; lia]).
    rewrite Z.shiftl_mul_pow2, u32_small by lia. symmetry. rewrite Z.add_comm. 
    assert (Z.land x (v * 2 ^ k) = 0) as D.
    { assert (v * 2 ^ k = Z.land (v * 2 ^ k) (Z.shiftl 0xFF k)) as ->.
      { rewrite land_field, Z.div_mul, Z.mod_small, Z.shiftl_mul_pow2 by lia. done. }
      rewrite (Z.land_comm (v * 2 ^ k)), Z.land_assoc, land_field, E, Z.shiftl_0_l by lia. done. }
    rewrite Z.land_comm in D. rewrite Z.lor_comm. rewrite Z.add_nocarry_lxor by done. by apply Z.lxor_lor. }
  destruct (Field b4 b1 24) as [-> ->]; [lia|lia|lia|dlia|].
  destruct (Field (b4 + b1 * 2 ^ 24) b2 16) as [-> ->]; [lia|lia|lia|dlia|].
  destruct (Field (b4 + b1 * 2 ^ 24 + b2 * 2 ^ 16) b3 8) as [-> ->]; [lia|lia|lia|dlia|].
  do 2 f_equal. lia.
Qed.

Lemma ushort_swap x y : is_byte x -> is_byte y -> RtlUshortByteSwap (x + y * 2 ^ 8) = y + x * 2 ^ 8.
Proof.
  intros Hx Hy.
  assert (forallb (fun x => forallb (fun y => RtlUshortByteSwap (x + y * 2 ^ 8) =? y + x * 2 ^ 8) (seqZ 0 256)) (seqZ 0 256) = true) as H
    by (vm_compute; reflexivity).
  apply Z.eqb_eq. apply (all_bytes (fun y => RtlUshortByteSwap (x + y * 2 ^ 8) =? y + x * 2 ^ 8)); [|done].
  by apply (all_bytes (fun x => forallb _ (seqZ 0 256)) H).
Qed.

Lemma ulong_swap b1 b2 b3 b4 : is_byte b1 -> is_byte b2 -> is_byte b3 -> is_byte b4 ->
  enc 4 (RtlUlongByteSwap (((b1 * 2 ^ 8 + b2) * 2 ^ 8 + b3) * 2 ^ 8 + b4)) = [b1; b2; b3; b4].
Proof.
  intros B1 B2 B3 B4. unfold is_byte in *. unfold RtlUlongByteSwap.
  replace (u16 (((b1 * 2 ^ 8 + b2) * 2 ^ 8 + b3) * 2 ^ 8 + b4)) with (b4 + b3 * 2 ^ 8) by (unfold u16; dlia).
  replace (u16 (Z.shiftr (((b1 * 2 ^ 8 + b2) * 2 ^ 8 + b3) * 2 ^ 8 + b4) 16)) with (b2 + b1 * 2 ^ 8)
    by (rewrite Z.shiftr_div_pow2 by lia; unfold u16; dlia).
  rewrite !ushort_swap by done. rewrite (u32_small (Z.shiftl _ 16)) by (rewrite Z.shiftl_mul_pow2; lia).
  rewrite lor_shiftl_add by lia. set (v := _ + _).
  change (enc 4 v) with [u8 v; u8 (v / 2 ^ 8); u8 (v / 2 ^ 8 / 2 ^ 8); u8 (v / 2 ^ 8 / 2 ^ 8 / 2 ^ 8)].
  assert (v = b1 + 2 ^ 8 * (b2 + 2 ^ 8 * (b3 + 2 ^ 8 * b4))) as -> by (unfold v; lia).
  assert (forall b x, 0 <= b < 2 ^ 8 -> u8 (b + 2 ^ 8 * x) = b /\ (b + 2 ^ 8 * x) / 2 ^ 8 = x) as Split
    by (intros b x Hb; unfold u8; split; dlia).
  destruct (Split b1 (b2 + 2 ^ 8 * (b3 + 2 ^ 8 * b4)) B1) as [-> ->].
  destruct (Split b2 (b3 + 2 ^ 8 * b4) B2) as [-> ->]. destruct (Split b3 b4 B3) as [-> ->].
  by rewrite u8_small.
Qed.

(** ** The round trip *)

Lemma dotted_length b1 b2 b3 b4 :
  is_byte b1 -> is_byte b2 -> is_byte b3 -> is_byte b4 -> (length (dotted b1 b2 b3 b4) <= 15)%nat.
Proof.
  intros B1 B2 B3 B4. unfold dotted.
  assert (forall b, is_byte b -> (length (percent_u b) <= 3)%nat) as L.
  { intros b Hb. destruct (byte_text b Hb) as (-> & _ & _ & ? & _). unfold text. rewrite length_map. lia. }
  do 3 (rewrite length_app; cbn [length]). pose proof (L _ B1). pose proof (L _ B2). pose proof (L _ B3). pose proof (L _ B4). lia.
Qed.

(** C40: round trip of IPv4 addresses.  [RtlIpv4AddressToStringW] prints every address into a
    buffer of sixteen characters and returns the end of the text; [RtlIpv4StringToAddressW],
    strict or not, reads the same four bytes from it, stops at that end, and both change nothing
    else. *)
Theorem ipv4_roundtrip DBG m Addr b1 b2 b3 b4 S old Out out Values Strict :
  has m Addr [b1; b2; b3; b4] -> is_byte b1 -> is_byte b2 -> is_byte b3 -> is_byte b4 ->
  has m S old -> length old = 32%nat -> S <> 0 -> has m Out out -> length out = 4%nat ->
  S + 32 <= Out \/ Out + 4 <= S -> length Values = 4%nat ->
  exists End m1 m2,
    RtlIpv4AddressToStringW DBG m Addr S = Some (End, m1) /\ S < End < S + 32 /\ same_except m m1 S 32 /\
    RtlIpv4StringToAddressW m1 Values S Strict Out = Some (STATUS_SUCCESS, End, m2) /\
    has m2 Out [b1; b2; b3; b4] /\ same_except m1 m2 Out 4.
Proof.
  intros HA B1 B2 B3 B4 HS LS S0 HO LO Dis LV. pose proof (dotted_length b1 b2 b3 b4 B1 B2 B3 B4) as Ld.
  assert (1 <= length (dotted b1 b2 b3 b4))%nat by (unfold dotted; rewrite length_app; cbn [length]; lia).
  unfold RtlIpv4AddressToStringW, Ipv4ToString, DottedAt. rewrite (proj2 (Z.eqb_neq S 0)) by done.
  apply has_cons in HA as [A1 HA]. apply has_cons in HA as [A2 HA]. apply has_cons in HA as [A3 HA]. apply has_cons in HA as [A4 _].
  rewrite (ld8_lookup _ _ _ A1), (ld8_lookup _ _ _ A2).
  replace (Addr + 2) with (Addr + 1 + 1) by lia. replace (Addr + 3) with (Addr + 1 + 1 + 1) by lia.
  rewrite (ld8_lookup _ _ _ A3), (ld8_lookup _ _ _ A4). cbn [mbind option_bind].
  set (t := dotted b1 b2 b3 b4) in *. unfold RtlStringCchPrintfEx, NTSTRSAFE_MAX_CCH, IPV4_ADDR_STRING_MAX_LEN.
  change (2147483647 <? 16) with false. change (16 =? 0) with false. cbv iota. change (16 - 1) with 15.
  rewrite (proj2 (Z.ltb_ge 15 _)) by lia.
  assert (length (chars 2 (t ++ [0%Z])) = 2 * (length t + 1))%nat as Lc by (rewrite length_chars2, length_app; done).
  rewrite <- (take_drop (length (chars 2 (t ++ [0]))) old) in HS.
  destruct (store_middle m S [] (take (length (chars 2 (t ++ [0]))) old) (chars 2 (t ++ [0])) _ HS) as (m1 & E1 & K1 & S1);
    [rewrite length_take; lia|].
  cbn [length app] in *. rewrite Z.add_0_r in *. rewrite E1. cbn [mbind option_bind].
  change (STATUS_SUCCESS =? STATUS_SUCCESS) with true. change (NT_SUCCESS STATUS_SUCCESS) with true.
  assert (same_except m m1 S 32) as S1' by (eapply same_except_weaken; [exact S1|lia|rewrite length_take; lia]).
  apply has_app in K1 as [K1 _]. unfold RtlIpv4StringToAddressW.
  assert (has m1 Out out) as HO1 by (eapply has_frame; [exact HO|exact S1'|lia]).
  destruct (store_at m1 Out out [b1; b2; b3; b4] HO1) as (m2 & E2 & K2 & S2 & _); [done|]. rewrite LO in S2.
  exists (S + 2 * Z.of_nat (length t)), m1, m2. split_and!; [|lia|lia|done| |done|done].
  - unfold checked. by rewrite andb_false_r.
  - rewrite (PartLoop_run m1 S b1 b2 b3 b4) by done. fold t. cbn [mbind option_bind]. change (4 <? 4) with false.
    rewrite andb_false_r. change (NT_SUCCESS STATUS_SUCCESS) with true. cbn [negb].
    change (rd [b1; b2; b3; b4] (4 - 1)) with (Some b4). cbn [mbind option_bind]. change (Z.to_nat (4 - 1)) with 3%nat.
    rewrite CombineLoop_run by done. cbn [mbind option_bind]. unfold st32. rewrite ulong_swap by done. by rewrite E2.
Qed.

Module NetworkExample.

Definition network_memory : mem := lay 100 [192; 168; 0; 10] (lay 200 (replicate 32 0xFF) (lay 300 [0; 0; 0; 0] ∅)).

Lemma ipv4_roundtrip_witness :
  exists End m1 m2,
    RtlIpv4AddressToStringW true network_memory 100 200 = Some (End, m1) /\ 200 < End < 232 /\
    same_except network_memory m1 200 32 /\
    RtlIpv4StringToAddressW m1 [7; 7; 7; 7] 200 true 300 = Some (STATUS_SUCCESS, End, m2) /\
    has m2 300 [192; 168; 0; 10] /\ same_except m1 m2 300 4.
Proof.
  apply (ipv4_roundtrip true network_memory 100 192 168 0 10 200 (replicate 32 0xFF) 300 [0; 0; 0; 0] [7; 7; 7; 7] true);
    try (vm_compute; reflexivity); try done; try (unfold is_byte; lia).
Defined.

(** [isdigit] looks at the low byte of the WCHAR 0x131 only, which is that of the digit 1. *)
Lemma wide_digit_accepted : ParseDigit 10 0x131 = Some 0x101.
Proof. vm_compute. reflexivity. Qed.

(** The length that [RtlIpv4AddressToStringExW] returns is counted from the string of the caller,
    although the text is in the buffer on the stack: "192.168.0.10" has twelve characters. *)
Lemma ipv4_ex_length :
  let m := lay 1000 (replicate 46 0) (lay 400 (enc 4 40) (lay 500 (replicate 80 0) network_memory)) in
  (fun r => (r.1, ld32 r.2 400)) <$> RtlIpv4AddressToStringExA true m 1000 100 0 500 400 = Some (STATUS_SUCCESS, Some 13) /\
  (fun r => (r.1, ld32 r.2 400)) <$> RtlIpv4AddressToStringExW true m 1000 100 0 500 400
  = Some (STATUS_INVALID_PARAMETER, Some 263).
Proof. vm_compute. by split. Qed.

End NetworkExample.
